(* ===== verification/_CoqProject ===== *)
-Q . S2P
Prelude.v
Name.v
Time.v
Asset.v
Text.v
MultiIndex.v
Crypto.v
Ripemd160.v
Base58.v
Binary.v
ToKey.v
Host.v
Token.v
Ledger.v
Accounts.v
ElectionConfig.v
Rng.v
Encrypt.v
Globals.v
Events.v
Nft.v
Inductions.v
Members.v
ElectionState.v
Tally.v
VoteTable.v
Sessions.v
Bylaws.v
DistributionTables.v
State.v
DistributionOps.v
Money.v
DistributionMoney.v
MemberOps.v
ElectionOps.v
Actions.v
Governance.v
Admin.v
Contract.v
Frame.v
AccountMigration.v
ContractMoney.v
ContractMembers.v
ElectionPhases.v
ElectionRun.v
Authority.v
Board.v
Chainbase.v
ChainbaseUndo.v
BlockLog.v
MicroTables.v
MicroChain.v
MicroReplay.v
MicroLog.v
MicroWf.v
MicroLedger.v
MicroMirror.v
Connection.v
EventWire.v
EventDelivery.v
KeyText.v
Json.v
GraphQL.v
GraphQLRun.v
Subchain.v
OrderedIndex.v
MicroQuery.v
MicroQueryRun.v
ActionReplay.v
Ship.v
ShipRun.v
MicroNode.v
CachedTable.v
CachedTableRun.v
TableUse.v
FromJson.v
AbiDef.v
AbiBin.v
AbiBinRun.v
AbiRoundTrip.v
