(* ===== verification/Prelude.v ===== *)
(** * Verification of the Eden community contracts (EdenCN)

    Paths are relative to [src/].  This file is also the prelude: results and
    their tactics, machine integers, record updates, loops, sums over maps, the
    hint database [eden].

    ** The program

    Eden is a community on an EOSIO chain.  The contract [contracts/eden] keeps
    members, elections, the monthly budget, bylaws and session keys in tables;
    an action changes tables, sends inline actions to other contracts and
    pushes events.  [contracts/token] is the token it holds its funds in.  The
    history node ([contracts/eden/src/eden-micro-chain.cpp], with the database
    of [libraries/clchain/include/chainbase] and the log of
    [libraries/clchain/include/clchain/subchain.hpp]) replays the blocks of the
    chain: from the actions, notifications and events it maintains tables of
    its own, which web clients query.  Both stand on the types and formats of
    [libraries/abieos] and the tables of [libraries/eosiolib].

    ** Conventions

    An integer of the code is a [Z]; where it can leave its range the wrap at
    its width is written out ([wrap], [swrap]).  An operation that can abort
    returns [result]: [Check msg] is a failed [eosio::check] with its message,
    [Trap what] a refusal of the host or an operation outside its domain.  A
    whole action is a computation [M] on the state of the contract (State.v);
    an abort undoes the transaction (Contract.v).  What the chain tells a
    contract (receiver, authorizations, time, sha256, existing accounts) is the
    record of Host.v; the tables of the NFT contracts are a record of lookups
    (Nft.v).  Both are arguments: nothing is assumed of them but what a theorem
    states.

    ** Types and formats

    - Name.v, Time.v, Asset.v, Crypto.v: the types of
      [libraries/abieos/include/eosio] with their checks and overflow
      ([add_exact_or_abort], [name_string_roundtrip]).
    - Text.v: dates, times, symbols and assets as text
      ([block_time_text_roundtrip], [asset_text_roundtrip]); the hash that
      stands for a long name is in Name.v ([long_names_collide]).
    - Binary.v: the binary format as codecs with a round-trip law ([Lawful]);
      [varuint32_round_trip].  A codec that also writes every value of a type is
      [Complete] (EventWire.v; Subchain.v for structs).
    - Ripemd160.v, Base58.v, KeyText.v: keys and signatures as text
      ([libraries/abieos/src/crypto.cpp]): the hash of their checksum however
      the data arrive ([digest_of_pieces]), base 58 ([base58_roundtrip]), and
      the whole conversion ([key_text_roundtrip]).
    - Json.v: the JSON the node writes, as a grammar and as the writers.
    - FromJson.v: JSON as the tokens of a parser, which is the
      interface [JsonReader]: the readers of [from_json.hpp]
      ([from_json_int_exact]) and the JSON values of
      [libraries/abieos/src/abieos.hpp].
    - The ABI serializer ([libraries/abieos/src/abi.cpp], [abieos.hpp]).
      AbiDef.v: the definitions of an ABI become types that refer to each other
      by name, where the code has pointers; what [convert] accepts is well
      formed and means what is defined, and it always ends
      ([convert_resolves], [convert_ends]).  AbiBin.v: the three machines with
      stacks of their own that serialize by those types, over the built-in types
      as the interface [Builtins], which its module AbiBuiltins implements for
      integers, booleans, text and bytes; its module AbiValue is what the
      machines are meant to do, without a stack: the values of a type, their
      bytes and text, and the JSON that denotes them.  AbiBinRun.v: each machine
      does it; AbiRoundTrip.v puts them together ([abi_round_trip]) and shows
      that no bytes keep [bin_to_json] from ending ([bin_to_json_ends]).
    - ToKey.v: keys whose bytes sort like the values, for a universe of the C++
      types ([keys_sort_like_values]).
    - MultiIndex.v: [eosio::multi_index] as a finite map with ordered secondary
      indices, which is how the contract's files see a table.  CachedTable.v is
      the class as written, over the host's database as the interface [HostDb]:
      rows read once and kept, iterators remembered.  CachedTableRun.v relates
      its state to a map; TableUse.v: any sequence of calls answers what the map
      answers ([cached_table_is_map]), over any database that keeps the laws,
      such as the one in memory there.

    ** The token ([contracts/token/src/token.cpp]): Token.v

    The six actions, the states they reach, and that the supply of a currency
    is what its holders own ([reachable_supply_is_circulating],
    [transfer_spec]).

    ** The contract ([contracts/eden])

    One file per component holds its data and the operations on its own tables,
    with the theorems about them: Accounts.v, Globals.v, Members.v,
    Inductions.v, Nft.v (with the auctions), ElectionConfig.v, Rng.v, Time.v
    (module Schedule), ElectionState.v, VoteTable.v, Tally.v, Sessions.v,
    Bylaws.v, Encrypt.v, DistributionTables.v, Events.v; each names the source
    files it models.  State.v is the product of the tables; MemberOps.v,
    ElectionOps.v and DistributionOps.v are the operations that cross
    components; Actions.v, Governance.v and Admin.v the actions
    ([contracts/eden/src/actions]); Contract.v their dispatch, transactions and
    reachable states.  The theorems, by subject:

    - Money.  Ledger.v is the interface of tables that hold money, which the
      accounts and the distributions implement; Money.v, DistributionMoney.v
      and ContractMoney.v show what every operation and every action does to
      the funds, the migration and the actions that reset tables included
      ([action_moves_funds]); DistributionTables.v how an amount is divided,
      and when more than it is paid ([make_distribution_exact]); DistributionMoney.v that the loop
      which sets up due distributions ends ([setup_distribution_ends]);
      AccountMigration.v that summing the users' balances while payments go on
      finds the pool, and which payment breaks it ([migrate_some_finds_pool],
      [payments_keep_total], [usertransfer_spoils_total]).
    - Authority.  Authority.v: what each action asks for, and that a session
      key acts only for its account and once for each sequence number, whatever
      happens in between ([action_authority], [run_acts_for_session]);
      Sessions.v: what the operations on sessions leave of the numbers that
      were accepted ([sequences_accepted_once]).
    - Members and inductions.  ContractMembers.v: the statistics count the
      members in every reachable state; Inductions.v: endorsements are counted,
      bind the content they saw, a single open one stops the NFT
      ([new_content_needs_endorsements]), and expired inductions leave nothing
      behind.
    - Elections.  The configuration has the shape its comments promise, with
      the smallest possible groups ([make_election_config_shape],
      [groups_partition_indices]); VoteTable.v:
      the shuffle is a bijection whatever the random numbers
      ([shuffle_is_bijection]), and the rows of the table as seats; Tally.v: a
      group elects by two thirds of the votes ([finish_group_consensus]).
      ElectionPhases.v says what the vote table holds in each phase of an
      election, and that no single operation leaves it otherwise; ElectionRun.v
      the same of drawing, seating and counting, hence of every action in every
      order, but for [finishelect] while voters are seated, which breaks it
      ([ballots_are_seats], [cut_election_sticks]), that a group is closed by its own consensus
      ([group_closes_by_consensus]), and an election of twelve members run from
      genesis to its board.  Rng.v and Time.v: the draws and the weekly
      schedule; Board.v: the board's permissions and what a resignation does
      ([board_quorum], [resign_spec]).
    - Frame.v is the walk over the code of the actions that the theorems about
      all actions share: a relation that the elementary changes respect is
      respected by every action.  A relation says how much it knows by the
      classes it is an instance of.

    ** From the contract to the node

    EventWire.v is the format of the events and the buffer that packs them into
    actions ([contracts/eden/src/events.cpp]); EventDelivery.v shows that the
    node unpacks and handles exactly what was pushed ([events_reach_node]).

    ** The history node

    - Chainbase.v models the undo index; ChainbaseUndo.v its refinement to a
      table that keeps whole copies ([undo_index_is_snapshots]), which is how
      the later files see a table.
    - BlockLog.v: the log of blocks.  MicroTables.v, MicroChain.v,
      MicroReplay.v: the tables, the handlers, the replay of a block whose
      actions are decoded.  Subchain.v: blocks as bytes; ActionReplay.v: the
      data of actions as bytes, and the replay of the bytes is the replay of
      the decoded actions ([bytes_refine], [action_reads_arguments]).
    - MicroLog.v: the entry points; after any history of forks, finality and
      undo the tables are the replay of the chain the node is on
      ([tables_replay_chain]).
    - Ship.v, ShipRun.v: the messages of the chain's state history, and what
      the node takes of them ([traces_taken]); MicroNode.v: the exported
      functions on bytes ([message_is_pushed], [follower_mirrors],
      [books_from_bytes]).
    - MicroWf.v: keys are unique in every state ([indices_are_exact]);
      MicroLedger.v: balances and their history agree, nothing is created
      ([balances_match_history]); MicroMirror.v: where the node agrees with the
      contract about a payment and where it does not ([usertransfer_mirrored],
      [deposit_mirrored_unless_donated], [withdrawal_charges_delegate]).
    - Connection.v: following the cursors of a query visits its range once
      ([pages_visit_range]).  OrderedIndex.v: a table in the order of an index,
      with the bounds by which the connections start and stop.
    - GraphQL.v models the queries of
      [libraries/clchain/include/clchain/graphql.hpp]: tokens, arguments,
      selection sets, and their evaluation over objects given by their members;
      GraphQLRun.v: evaluation ends, skipping goes as far as evaluation, and
      what a bad token does ([query_terminates], [skip_is_evaluation],
      [skipped_error_hangs]).
    - MicroQuery.v: the objects of the node's queries, from the root down to
      the blocks of its log; MicroQueryRun.v: the pages of an account are its
      rows, its history adds up to its balance, a group's votes are its votes,
      the answers are JSON ([account_pages], [history_adds_up],
      [group_votes_exact], [node_answers_json]), and which queries go wrong
      ([queries_that_stop], [session_bounds]).

    ** Bounds

    Loops that are not structural take a number of rounds.  A round of the
    varuint loops consumes seven bits: 5 and 10 rounds are the limits of the
    source for 32 and 64 bits.  The loops over the characters of names (13) and
    symbols (7) have the source's constants.  [setup_loop] takes [setup_fuel],
    the months up to now and three more, which [setup_distribution_ends] shows
    to suffice.  [count_rounds] takes 16 rounds, more than a 16-bit number of
    members can use.  [bisect] takes the length of what it searches, since a
    round halves it; [undo_all] the number of open sessions.  The migrations
    loop runs once per alternative of their variant.  Following pages takes at
    most one round more than there are rows ([pages_visit_range]).  Evaluating
    and skipping a selection take a round for each byte of the query at most
    ([query_terminates]); base 58 a round for each digit.  The traces of
    transactions nest; they are read to a depth of as many levels as there are
    bytes, and a greater depth reads the same ([traces_read]).  The machines of
    the ABI serializer take rounds as fuel; the theorems say that some number is
    enough and every greater one gives the same.  [convert] needs a round for
    each name its definitions can mention ([universe]).

    ** Not modelled

    - The dispatch macros and the ABI generator ([eden_dispatcher.hpp],
      [eden.cpp]), the import of raw tables for tests ([actions/tables.cpp]):
      generated or glue.  The contract takes the arguments of its actions
      decoded; the node reads them from bytes.
    - The text of the GraphQL schema, the node's [addEosioBlockJson] (JSON input
      stands on a third-party parser), and the memory shared with JavaScript.
      UTF-8 validation and SHA-256 are arguments of the definitions that use
      them.
    - The rows of table deltas in the state history, which the node never asks
      for.
    - [squash] of the undo index, which nothing calls, and its iterators.
    - The RAM payers of [multi_index]; two table objects open at once over the
      same rows, each of which would keep its own.
    - The parser of JSON text, which is not part of the repository; floating
      point numbers; the ABI made of C++ types ([add_type]) and written back
      ([to_abi_def]); the C interface of [libraries/abieos]; the legacy stream
      code of [libraries/eosiolib]; host intrinsics; boot contracts; the test contracts
      and the tester; the debugger; the web application (TypeScript).
    - Not stated: which sessions and elections the node and the contract agree
      on (money is in MicroMirror.v), and that a phase of an election which is
      given enough steps comes to its end. *)
From stdpp Require Export base option list gmap sets strings sorting.
From stdpp Require Import pretty.
From Stdlib Require Export ZArith Lia.

Open Scope Z_scope.

(** ** Results *)

(** How an action aborts.  [Check msg] is a failed [eosio::check(b, msg)];
    [Trap what] is everything else that ends the transaction: a host function
    that refuses its arguments (a duplicate primary key, a missing
    authorization) or a C++ operation outside its domain (an index past the
    end of a vector). *)
Inductive error : Type :=
  | Check (msg : string)
  | Trap (what : string).

Inductive result (A : Type) : Type :=
  | Ok (a : A)
  | Err (e : error).
Arguments Ok {A} a.
Arguments Err {A} e.

#[global] Instance result_ret : MRet result := fun A a => Ok a.
#[global] Instance result_bind : MBind result := fun A B f m =>
  match m with Ok a => f a | Err e => Err e end.
#[global] Instance result_fmap : FMap result := fun A B f m =>
  match m with Ok a => Ok (f a) | Err e => Err e end.

#[global] Instance error_eq_dec : EqDecision error.
Proof. solve_decision. Defined.

(** [eosio::check(b, msg)] *)
Definition check (b : bool) (msg : string) : result unit :=
  if b then Ok tt else Err (Check msg).

(** Unwrapping an optional value with the error of its absence. *)
Definition some_or {A} (e : error) (o : option A) : result A :=
  match o with Some a => Ok a | None => Err e end.

Definition is_ok {A} (r : result A) : bool :=
  match r with Ok _ => true | Err _ => false end.

Lemma bind_Ok {A B} (m : result A) (f : A -> result B) b :
  (m ≫= f) = Ok b <-> exists a, m = Ok a /\ f a = Ok b.
Proof.
  split.
  - destruct m as [a|e]; cbn; [eauto | discriminate].
  - intros (a & -> & Hf). exact Hf.
Qed.

Lemma fmap_Ok {A B} (m : result A) (f : A -> B) b :
  (f <$> m) = Ok b <-> exists a, m = Ok a /\ f a = b.
Proof.
  split.
  - destruct m as [a|e]; cbn; intros H; [|discriminate]. injection H as <-. eauto.
  - intros (a & -> & <-). reflexivity.
Qed.

Lemma check_Ok b msg u : check b msg = Ok u <-> b = true.
Proof. destruct u. destruct b; cbn; split; congruence. Qed.

Lemma some_or_Ok {A} e (o : option A) a : some_or e o = Ok a <-> o = Some a.
Proof. destruct o; cbn; split; congruence. Qed.

Lemma is_ok_true {A} (r : result A) : is_ok r = true <-> exists a, r = Ok a.
Proof. destruct r as [a|e]; cbn; split; [eauto | done | done | by intros [? ?]]. Qed.

(** [res_inv] takes a hypothesis [_ = Ok _] apart along the binds, checks and
    case distinctions of the computation. *)
Ltac res_inv_step :=
  match goal with
  | H : Ok _ = Ok _ |- _ => injection H as H; subst
  | H : mret _ = Ok _ |- _ => injection H as H; subst
  | H : Err _ = Ok _ |- _ => discriminate H
  | H : Some _ = Some _ |- _ => injection H as H; subst
  | H : Some _ = None |- _ => discriminate H
  | H : None = Some _ |- _ => discriminate H
  | H : (_, _) = (_, _) |- _ => injection H as H; subst
  | H : mbind _ _ = Ok _ |- _ => apply bind_Ok in H as (? & ? & H)
  | H : fmap _ _ = Ok _ |- _ => apply fmap_Ok in H as (? & H & ?)
  | H : check _ _ = Ok ?u |- _ => apply check_Ok in H
  | H : some_or _ _ = Ok _ |- _ => apply some_or_Ok in H
  | H : negb _ = true |- _ => apply negb_true_iff in H
  | H : negb _ = false |- _ => apply negb_false_iff in H
  | H : andb _ _ = true |- _ => apply andb_true_iff in H as [? ?]
  | H : orb _ _ = false |- _ => apply orb_false_iff in H as [? ?]
  | H : bool_decide _ = true |- _ => apply bool_decide_eq_true in H
  | H : bool_decide _ = false |- _ => apply bool_decide_eq_false in H
  | H : (_ =? _) = true |- _ => apply Z.eqb_eq in H
  | H : (_ =? _) = false |- _ => apply Z.eqb_neq in H
  | H : (_ <? _) = true |- _ => apply Z.ltb_lt in H
  | H : (_ <? _) = false |- _ => apply Z.ltb_ge in H
  | H : (_ <=? _) = true |- _ => apply Z.leb_le in H
  | H : (_ <=? _) = false |- _ => apply Z.leb_gt in H
  | H : (match ?x with _ => _ end) = Ok _ |- _ => destruct x eqn:?
  | x : unit |- _ => destruct x
  end.
Ltac res_inv := repeat res_inv_step; try discriminate.

(** The other direction: a check whose condition holds does nothing.
    [checks] discharges the conditions it meets with [lia] or [eauto]. *)
Lemma check_true {B} b msg (f : unit -> result B) : b = true -> (check b msg ≫= f) = f tt.
Proof. by intros ->. Qed.
Lemma some_or_Some {A B} e (a : A) (f : A -> result B) : (some_or e (Some a) ≫= f) = f a.
Proof. done. Qed.

Ltac bool_true :=
  match goal with
  | |- negb (_ =? _) = true => apply negb_true_iff, Z.eqb_neq
  | |- (_ =? _) = true => apply Z.eqb_eq
  | |- (_ <? _) = true => apply Z.ltb_lt
  | |- (_ <=? _) = true => apply Z.leb_le
  | |- bool_decide _ = true => apply bool_decide_eq_true
  | |- _ => idtac
  end.
Ltac checks := repeat (rewrite check_true by (bool_true; first [lia | eauto | congruence])).

(** [std::to_string] *)
Definition to_string (z : Z) : string := pretty z.

(** ** Machine integers *)

(** Unsigned and signed wrap-around at [w] bits. *)
Definition wrap (w z : Z) : Z := z mod 2 ^ w.
Definition swrap (w z : Z) : Z := (z + 2 ^ (w - 1)) mod 2 ^ w - 2 ^ (w - 1).

Lemma wrap_small w z : 0 <= z < 2 ^ w -> wrap w z = z.
Proof. intros H. unfold wrap. by apply Z.mod_small. Qed.

Lemma wrap_bounds w z : 0 <= w -> 0 <= wrap w z < 2 ^ w.
Proof. intros H. unfold wrap. apply Z.mod_pos_bound. by apply Z.pow_pos_nonneg. Qed.

Lemma swrap_small w z : 0 < w -> - 2 ^ (w - 1) <= z < 2 ^ (w - 1) -> swrap w z = z.
Proof.
  intros Hw Hz. unfold swrap.
  assert (2 ^ w = 2 * 2 ^ (w - 1)) as Hp.
  { rewrite <- Z.pow_succ_r by lia. f_equal. lia. }
  rewrite Z.mod_small by lia. lia.
Qed.

Lemma swrap_bounds w z : 0 < w -> - 2 ^ (w - 1) <= swrap w z < 2 ^ (w - 1).
Proof.
  intros Hw. unfold swrap.
  assert (2 ^ w = 2 * 2 ^ (w - 1)) as Hp.
  { rewrite <- Z.pow_succ_r by lia. f_equal. lia. }
  pose proof (Z.mod_pos_bound (z + 2 ^ (w - 1)) (2 ^ w)). lia.
Qed.

(** Packing: a shifted number over a field of [w] bits. *)
Lemma lor_shiftl a b w : 0 <= w -> 0 <= b < 2 ^ w -> Z.lor (Z.shiftl a w) b = a * 2 ^ w + b.
Proof.
  intros Hw Hb. rewrite Z.shiftl_mul_pow2 by lia.
  assert (Z.land (a * 2 ^ w) b = 0) as Hl.
  { apply Z.bits_inj'. intros k Hk. rewrite Z.land_spec, Z.bits_0.
    destruct (Z.ltb_spec k w).
    - by rewrite Z.mul_pow2_bits_low by lia.
    - rewrite andb_comm. destruct (decide (b = 0)) as [->|Hz]; [by rewrite Z.bits_0|].
      rewrite (Z.bits_above_log2 b k); [done | lia |].
      apply Z.log2_lt_pow2; [lia|]. apply Z.lt_le_trans with (2 ^ w); [lia|].
      apply Z.pow_le_mono_r; lia. }
  rewrite <- Z.lxor_lor by done. symmetry. by apply Z.add_nocarry_lxor.
Qed.

(** ** Record updates *)

(** One setter per field; [r <| f := v |>] and [r <| f ::= g |>] then update
    a field. *)
Class Setter {R E : Type} (getter : R -> E) := set_field : (E -> E) -> R -> R.
Arguments set_field {R E} getter {_} f r.
Notation "r <| x ::= f |>" := (set_field x f r)
  (at level 1, x at level 1, f at level 99, left associativity).
Notation "r <| x := v |>" := (set_field x (fun _ => v) r)
  (at level 1, x at level 1, v at level 99, left associativity).

(** ** Loops *)

(** The leading elements a loop visits before its condition fails. *)
Fixpoint take_while {A} (p : A -> bool) (l : list A) : list A :=
  match l with
  | [] => []
  | x :: l' => if p x then x :: take_while p l' else []
  end.

(** A loop over a list that threads a state, in any monad. *)
Fixpoint foldM {M : Type -> Type} `{MRet M} `{MBind M} {S A : Type} (f : S -> A -> M S)
    (l : list A) (s : S) : M S :=
  match l with
  | [] => mret s
  | x :: l' => s ← f s x; foldM f l' s
  end.

Lemma foldM_app {S A} (f : S -> A -> result S) l1 l2 s :
  foldM f (l1 ++ l2) s = foldM f l1 s ≫= foldM f l2.
Proof.
  revert s. induction l1 as [|x l1 IH]; intros s; [done|]. cbn. destruct (f s x); [apply IH|done].
Qed.

Lemma foldM_inv {S A} (P : S -> Prop) (f : S -> A -> result S) l s s' :
  (forall s x s', x ∈ l -> P s -> f s x = Ok s' -> P s') -> P s -> foldM f l s = Ok s' -> P s'.
Proof.
  revert s. induction l as [|x l IH]; intros s Hf Hs H; cbn in H.
  - by injection H as <-.
  - apply bind_Ok in H as (s1 & H1 & H). eapply IH; [|eapply Hf; [|exact Hs|exact H1]|exact H].
    + intros s0 y s2 Hy. apply Hf. by right.
    + left.
Qed.

Lemma take_while_Forall {A} (p : A -> bool) l : Forall (fun x => p x = true) (take_while p l).
Proof. induction l as [|x l IH]; cbn; [done|]. destruct (p x) eqn:E; by constructor. Qed.

Lemma take_while_sublist {A} (p : A -> bool) l : take_while p l `sublist_of` l.
Proof.
  induction l as [|x l IH]; cbn; [constructor|].
  destruct (p x); [by apply sublist_skip | apply sublist_nil_l].
Qed.

(** On a list sorted by a relation the condition is closed under, the loop
    visits every element that satisfies it. *)
Lemma elem_of_take_while {A} (R : A -> A -> Prop) (p : A -> bool) l x :
  StronglySorted R l -> (forall y z, R y z -> p z = true -> p y = true) ->
  x ∈ take_while p l <-> x ∈ l /\ p x = true.
Proof.
  intros Hs Hp. split.
  - intros Hx. split; [by eapply sublist_subseteq; [apply take_while_sublist|] |].
    pose proof (take_while_Forall p l) as Hf. rewrite Forall_forall in Hf. by apply Hf.
  - intros [Hx Hpx]. induction Hs as [|y l Hs IH Hy]; [by apply not_elem_of_nil in Hx|]. cbn.
    apply elem_of_cons in Hx as [->|Hx].
    + rewrite Hpx. left.
    + rewrite Forall_forall in Hy. rewrite (Hp y x (Hy x Hx) Hpx). right. by apply IH.
Qed.

(** ** Sums over maps *)

Section sums.
Context {K A : Type} `{Countable K} (f : A -> Z).

Definition map_sum (m : gmap K A) : Z := map_fold (fun _ a acc => f a + acc) 0 m.

Lemma map_sum_empty : map_sum ∅ = 0.
Proof. apply map_fold_empty. Qed.

Lemma map_sum_insert k a m :
  m !! k = None -> map_sum (<[k := a]> m) = f a + map_sum m.
Proof. intros Hk. unfold map_sum. rewrite map_fold_insert_L; [done | lia | done]. Qed.

Lemma map_sum_delete k a m :
  m !! k = Some a -> map_sum m = f a + map_sum (delete k m).
Proof.
  intros Hk. rewrite <- (insert_delete_id m k a Hk) at 1.
  apply map_sum_insert, lookup_delete_eq.
Qed.

Lemma map_sum_update k a b m :
  m !! k = Some a -> map_sum (<[k := b]> m) = map_sum m - f a + f b.
Proof.
  intros Hk. rewrite <- insert_delete_eq, map_sum_insert by apply lookup_delete_eq.
  rewrite (map_sum_delete k a m Hk). lia.
Qed.

Lemma map_sum_nonneg m : map_Forall (fun _ a => 0 <= f a) m -> 0 <= map_sum m.
Proof.
  induction m as [|k a m Hk IH] using map_ind; intros HF.
  - rewrite map_sum_empty. lia.
  - rewrite map_sum_insert by done. apply map_Forall_insert in HF as [Ha HF]; [|done].
    specialize (IH HF). lia.
Qed.

Lemma map_sum_zero m : map_Forall (fun _ a => f a = 0) m -> map_sum m = 0.
Proof.
  induction m as [|k a m Hk IH] using map_ind; intros HF; [apply map_sum_empty|].
  rewrite map_sum_insert by done. apply map_Forall_insert in HF as [Ha HF]; [|done].
  rewrite (IH HF). lia.
Qed.

Lemma map_sum_lookup_le k a m :
  map_Forall (fun _ a => 0 <= f a) m -> m !! k = Some a -> f a <= map_sum m.
Proof.
  intros HF Hk. rewrite (map_sum_delete k a m Hk).
  assert (0 <= map_sum (delete k m)); [|lia].
  apply map_sum_nonneg. by apply map_Forall_delete.
Qed.
End sums.

Lemma map_sum_eq {K A} `{Countable K} (f g : A -> Z) (m : gmap K A) :
  (forall k a, m !! k = Some a -> f a = g a) -> map_sum f m = map_sum g m.
Proof.
  induction m as [|k a m Hk IH] using map_ind; intros Hfg; [done|].
  rewrite !map_sum_insert by done. rewrite (Hfg k a) by apply lookup_insert_eq. f_equal.
  apply IH. intros j b Hj. apply (Hfg j). rewrite lookup_insert_ne; [done|congruence].
Qed.

(** ** Automation *)

Create HintDb eden discriminated.
#[export] Hint Resolve map_sum_nonneg map_Forall_delete : eden.
#[export] Hint Resolve map_Forall_empty : eden.

(** Case analysis on every [decide]/[bool_decide]/[match] of the goal. *)
Ltac case_all := repeat (case_match || case_decide || case_bool_decide).

(** Tables are maps: [map_step] rewrites lookups, then tries arithmetic. *)
Ltac map_step := simplify_map_eq; try lia; eauto with eden.
