(* ===== verification/Name.v ===== *)
(** Account names: 64-bit values read as base-32 strings.  Models the
    conversions of [libraries/abieos/include/eosio/chain_conversions.hpp]
    and [name.hpp]; [name_to_string] is what the error messages of the
    contract print.  The module NameHash hashes text that is no name. *)
From S2P Require Import Prelude.
From Stdlib Require Import Ascii.
From Stdlib Require String.
Open Scope string_scope.
Open Scope list_scope.
Open Scope Z_scope.

Module Name.

(** [eosio::name] is its [uint64_t value]. *)
Definition chr (s : string) : ascii :=
  match s with String c _ => c | EmptyString => Ascii.zero end.
Definition code (c : ascii) : Z := Z.of_N (N_of_ascii c).
Definition in_range (lo hi : string) (c : ascii) : bool :=
  (code (chr lo) <=? code c) && (code c <=? code (chr hi)).

Definition char_to_name_digit (c : ascii) : Z :=
  if in_range "a" "z" c then code c - code (chr "a") + 6
  else if in_range "1" "5" c then code c - code (chr "1") + 1
  else 0.

Definition char_to_name_digit_strict (c : ascii) : option Z :=
  if in_range "a" "z" c then Some (code c - code (chr "a") + 6)
  else if in_range "1" "5" c then Some (code c - code (chr "1") + 1)
  else if bool_decide (c = chr ".") then Some 0
  else None.

Definition invalid_name_char : error := Check "Name contains invalid character".
Definition invalid_name_char13 : error := Check "13th character of name must be in [.1-5a-j]".
Definition name_too_long : error := Check "Name is too long".

(** The first loop of [try_string_to_name_strict]: at most twelve characters
    of five bits each; it returns the value and what is left of the string. *)
Fixpoint strict_loop (fuel : nat) (i : Z) (str : list ascii) (name : Z) : result (Z * list ascii) :=
  match fuel, str with
  | S fuel', c :: str' =>
      x ← some_or invalid_name_char (char_to_name_digit_strict c);
      strict_loop fuel' (i + 1) str' (Z.lor name (Z.shiftl (Z.land x 31) (64 - 5 * (i + 1))))
  | _, _ => Ok (name, str)
  end.

Definition try_string_to_name_strict (str : list ascii) : result Z :=
  '(name, rest) ← strict_loop 12 0 str 0;
  match rest with
  | [] => Ok name
  | c :: rest' =>
      x ← some_or invalid_name_char (char_to_name_digit_strict c);
      if negb (x =? Z.land x 15) then Err invalid_name_char13
      else match rest' with [] => Ok (Z.lor name x) | _ :: _ => Err name_too_long end
  end.

(** The lenient [string_to_name]: unknown characters count as dots and
    everything after the thirteenth character is ignored. *)
Fixpoint lenient_loop (fuel : nat) (i : Z) (str : list ascii) (name : Z) : Z * list ascii :=
  match fuel, str with
  | S fuel', c :: str' =>
      lenient_loop fuel' (i + 1) str'
        (Z.lor name (Z.shiftl (Z.land (char_to_name_digit c) 31) (64 - 5 * (i + 1))))
  | _, _ => (name, str)
  end.

Definition string_to_name (str : list ascii) : Z :=
  let '(name, rest) := lenient_loop 12 0 str 0 in
  match rest with
  | [] => name
  | c :: _ => Z.lor name (Z.land (char_to_name_digit c) 15)
  end.

Definition charmap : list ascii := String.list_ascii_of_string ".12345abcdefghijklmnopqrstuvwxyz".
Definition charmap_at (d : Z) : ascii := default (chr ".") (charmap !! Z.to_nat d).

(** The loop of [name_to_string] fills the string from its end. *)
Fixpoint to_string_loop (n : nat) (i tmp : Z) (acc : list ascii) : list ascii :=
  match n with
  | O => acc
  | S n' =>
      to_string_loop n' (i + 1) (Z.shiftr tmp (if i =? 0 then 4 else 5))
        (charmap_at (Z.land tmp (if i =? 0 then 15 else 31)) :: acc)
  end.

(** [str.substr(0, str.find_last_not_of('.') + 1)] *)
Fixpoint strip_dots (str : list ascii) : list ascii :=
  match str with
  | [] => []
  | c :: str' =>
      match strip_dots str' with
      | [] => if bool_decide (c = chr ".") then [] else [c]
      | rest => c :: rest
      end
  end.

Definition name_to_chars (name : Z) : list ascii :=
  strip_dots (to_string_loop 13 0 name []).
Definition name_to_string (name : Z) : string :=
  String.string_of_list_ascii (name_to_chars name).

(** A literal ["abc"_n] of the source. *)
Definition n (s : string) : Z := string_to_name (String.list_ascii_of_string s).

(** The constructor [name(std::string_view)] on text that is not a literal. *)
Definition of_string (s : string) : result Z :=
  try_string_to_name_strict (String.list_ascii_of_string s).

(** ** Facts *)

Lemma charmap_digit d : 0 <= d < 32 -> char_to_name_digit_strict (charmap_at d) = Some d.
Proof.
  intros Hd.
  assert (forallb (fun k => bool_decide
    (char_to_name_digit_strict (charmap_at (Z.of_nat k)) = Some (Z.of_nat k))) (seq 0 32) = true)
    as Hall by (vm_compute; reflexivity).
  rewrite forallb_forall in Hall. specialize (Hall (Z.to_nat d)).
  rewrite Z2Nat.id in Hall by lia. eapply bool_decide_eq_true_1, Hall, in_seq. lia.
Qed.

(** Reading one more chunk of [w] bits of [x]. *)
Lemma chunk_lor x k w j :
  0 <= k -> 0 <= w -> j = k + w ->
  Z.lor (Z.shiftl (Z.shiftr x j) j) (Z.shiftl (Z.land (Z.shiftr x k) (Z.ones w)) k)
  = Z.shiftl (Z.shiftr x k) k.
Proof.
  intros Hk Hw ->. apply Z.bits_inj'. intros i Hi.
  rewrite Z.lor_spec, !Z.shiftl_spec by done.
  destruct (decide (i < k)).
  { rewrite !(Z.testbit_neg_r _ (i - k)), Z.testbit_neg_r by lia. done. }
  rewrite Z.land_spec, (Z.shiftr_spec x k (i - k)) by lia.
  replace (i - k + k) with i by lia.
  destruct (decide (i < k + w)).
  - rewrite (Z.testbit_neg_r _ (i - (k + w))), Z.ones_spec_low by lia.
    by rewrite andb_true_r.
  - rewrite Z.shiftr_spec, Z.ones_spec_high by lia.
    rewrite andb_false_r, orb_false_r. f_equal. lia.
Qed.

Lemma strip_dots_app str : exists k, str = strip_dots str ++ replicate k (chr ".").
Proof.
  induction str as [|c str [k IH]]; [by exists 0%nat|].
  cbn [strip_dots]. destruct (strip_dots str) as [|c' r] eqn:E.
  - case_bool_decide as Hc.
    + exists (S k). cbn. subst c. by rewrite IH at 1.
    + exists k. cbn. by rewrite IH at 1.
  - exists k. cbn. f_equal. exact IH.
Qed.

(** Trailing dots do not change what the first loop reads. *)
Lemma strict_loop_dots fuel i k name :
  (k <= fuel)%nat -> strict_loop fuel i (replicate k (chr ".")) name = Ok (name, []).
Proof.
  revert i k name. induction fuel as [|fuel IH]; intros i [|k] name Hk; try lia; try done.
  cbn [strict_loop replicate]. change (char_to_name_digit_strict (chr ".")) with (Some 0).
  cbn -[Z.mul Z.sub]. rewrite Z.shiftl_0_l, Z.lor_0_r. apply IH. lia.
Qed.

Lemma strict_loop_app fuel i s k name :
  (length s + k <= fuel)%nat ->
  strict_loop fuel i (s ++ replicate k (chr ".")) name = strict_loop fuel i s name.
Proof.
  revert fuel i name. induction s as [|c s IH]; intros fuel i name Hl.
  - cbn [app]. rewrite strict_loop_dots by (cbn in Hl; lia). by destruct fuel.
  - destruct fuel as [|fuel]; [cbn in Hl; lia|]. cbn [app strict_loop].
    destruct (char_to_name_digit_strict c); cbn -[Z.mul Z.sub]; [|done].
    apply IH. cbn in Hl. lia.
Qed.

Lemma strict_loop_over fuel i s t name :
  length s = fuel ->
  strict_loop fuel i (s ++ t) name =
  '(name', rest) ← strict_loop fuel i s name; Ok (name', rest ++ t).
Proof.
  revert fuel i name. induction s as [|c s IH]; intros fuel i name <-; cbn [app strict_loop length].
  - done.
  - destruct (char_to_name_digit_strict c); cbn -[Z.mul Z.sub]; [|done]. by apply IH.
Qed.

Lemma strict_loop_all fuel i s name name' rest :
  (length s <= fuel)%nat -> strict_loop fuel i s name = Ok (name', rest) -> rest = [].
Proof.
  revert fuel i name. induction s as [|c s IH]; intros fuel i name Hl H.
  - destruct fuel; cbn in H; by res_inv.
  - destruct fuel; [cbn in Hl; lia|]. cbn [strict_loop] in H. res_inv.
    eapply IH; [|exact H]. cbn in Hl. lia.
Qed.

(** Stripping the trailing dots of a string of at most thirteen characters
    does not change the name it denotes. *)
Lemma try_strict_strip s :
  length s = 13%nat ->
  forall v, try_string_to_name_strict s = Ok v -> try_string_to_name_strict (strip_dots s) = Ok v.
Proof.
  intros Hl v Hv. destruct (strip_dots_app s) as [k Hk].
  set (t := strip_dots s) in *. clearbody t. subst s.
  rewrite length_app, length_replicate in Hl.
  destruct k as [|k]; [by rewrite app_nil_r in Hv|].
  unfold try_string_to_name_strict in *.
  assert (replicate (S k) (chr ".") = replicate k (chr ".") ++ [chr "."]) as Hr.
  { rewrite <- replicate_cons_app. done. }
  rewrite Hr, app_assoc, strict_loop_over in Hv
    by (rewrite length_app, length_replicate; lia).
  rewrite strict_loop_app in Hv by lia.
  destruct (strict_loop 12 0 t 0) as [[nm rest]|e] eqn:E; [|done].
  apply strict_loop_all in E as ->; [|lia].
  cbn in Hv. cbn.
  change (char_to_name_digit_strict _) with (Some 0) in Hv. cbn in Hv.
  by rewrite Z.lor_0_r in Hv.
Qed.

(** Every 64-bit name survives printing and strict parsing:
    [name(name_to_string(v)).value == v]. *)
Theorem name_string_roundtrip (v : Z) :
  0 <= v < 2 ^ 64 -> try_string_to_name_strict (name_to_chars v) = Ok v.
Proof.
  intros Hv. unfold name_to_chars. apply try_strict_strip; [done|].
  assert (forall k, 0 <= Z.land (Z.shiftr v k) 31 < 32) as H5.
  { intros k. change 31 with (Z.ones 5). rewrite Z.land_ones by lia.
    apply Z.mod_pos_bound. lia. }
  assert (0 <= Z.land v 15 < 16) as H4.
  { change 15 with (Z.ones 4). rewrite Z.land_ones by lia. apply Z.mod_pos_bound. lia. }
  unfold try_string_to_name_strict.
  let t := eval cbv -[Z.land Z.shiftr charmap_at] in (to_string_loop 13 0 v []) in
  change (to_string_loop 13 0 v []) with t.
  cbv -[Z.land Z.lor Z.shiftl Z.shiftr charmap_at char_to_name_digit_strict Z.eqb negb].
  rewrite !Z.shiftr_shiftr by lia.
  rewrite !charmap_digit by (apply H5 || lia).
  cbv -[Z.land Z.lor Z.shiftl Z.shiftr Z.eqb negb].
  rewrite <- !Z.land_assoc. change (Z.land 31 31) with 31.
  change (Z.land 15 15) with 15. rewrite Z.eqb_refl. cbn [negb].
  f_equal. change 31 with (Z.ones 5). change 15 with (Z.ones 4).
  assert (0 = Z.shiftl (Z.shiftr v 64) 64) as H0.
  { rewrite Z.shiftr_div_pow2, Z.div_small by lia. done. }
  rewrite H0.
  rewrite !chunk_lor by lia.
  pose proof (chunk_lor v 0 4 4) as Hlast. rewrite !Z.shiftl_0_r, !Z.shiftr_0_r in Hlast.
  apply Hlast; lia.
Qed.

Lemma name_string_roundtrip_witness :
  try_string_to_name_strict (name_to_chars 6138663577826885632) = Ok 6138663577826885632.
Proof. apply (name_string_roundtrip 6138663577826885632). lia. Defined.

End Name.

(** Names that are not names: text that does not spell an account name is
    hashed to 64 bits ([hash_name] of [libraries/abieos/include/eosio/name.hpp],
    [murmur64] of [murmur.hpp]).  Names in JSON and in the arguments of queries
    are read this way. *)
Open Scope string_scope.
Open Scope list_scope.
Open Scope Z_scope.

Module NameHash.

(** [p[i]] is a [char], which is signed: converted to 64 bits, a byte from 128
    on brings ones above it. *)
Definition char64 (c : ascii) : Z := wrap 64 (swrap 8 (Name.code c)).
Definition unsigned_char (c : ascii) : Z := Name.code c.

(** [unaligned_load]: the shift follows every byte, the last one too. *)
Definition unaligned_load (p : list ascii) : Z :=
  foldl (fun r c => wrap 64 (Z.shiftl (Z.lor r (char64 c)) 8)) 0 (take 8 p).
(** [load_bytes]: the last byte first. *)
Definition load_bytes (p : list ascii) : Z :=
  foldl (fun r c => wrap 64 (Z.shiftl r 8) + unsigned_char c) 0 (reverse p).
Definition shift_mix (v : Z) : Z := Z.lxor v (Z.shiftr v 47).

Definition mul : Z := Z.shiftl 0xc6a4a793 32 + 0x5bd1e995.
(** One round of the hash. *)
Definition mix (hash data : Z) : Z := wrap 64 (Z.lxor hash data * mul).
(** The loop over the blocks of eight bytes. *)
Fixpoint blocks (n : nat) (p : list ascii) (hash : Z) : Z :=
  match n with
  | O => hash
  | S n => blocks n (drop 8 p) (mix hash (wrap 64 (shift_mix (wrap 64 (unaligned_load p * mul)) * mul)))
  end.
Definition murmur64 (s : list ascii) : Z :=
  let len := Z.of_nat (length s) in
  let n := Z.to_nat (Z.shiftr len 3) in
  let hash := Z.lxor 0xbadd00d00 (wrap 64 (len * mul)) in
  let hash := blocks n s hash in
  let rest := drop (8 * n) s in
  let hash := if negb (Z.land len 7 =? 0) then mix hash (load_bytes rest) else hash in
  let hash := wrap 64 (shift_mix hash * mul) in
  shift_mix hash.

Definition hash_name (s : list ascii) : Z :=
  match Name.try_string_to_name_strict s with Ok v => v | Err _ => murmur64 s end.

(** ** The first byte of a block *)

Lemma wrap64_lor a b : wrap 64 (Z.lor a b) = Z.lor (wrap 64 a) (wrap 64 b).
Proof. unfold wrap. rewrite <- !Z.land_ones by lia. apply Z.land_lor_distr_l. Qed.
Lemma wrap64_shiftl a n : 0 <= n -> wrap 64 (Z.shiftl (wrap 64 a) n) = wrap 64 (Z.shiftl a n).
Proof. intros Hn. unfold wrap. rewrite !Z.shiftl_mul_pow2 by lia. apply Zmult_mod_idemp_l. Qed.

(** What is loaded of the bytes after [r]. *)
Lemma load_from r l :
  foldl (fun r c => wrap 64 (Z.shiftl (Z.lor r (char64 c)) 8)) (wrap 64 r) l
  = Z.lor (wrap 64 (Z.shiftl r (8 * Z.of_nat (length l))))
      (foldl (fun r c => wrap 64 (Z.shiftl (Z.lor r (char64 c)) 8)) 0 l).
Proof.
  revert r. induction l as [|c l IH]; intros r.
  - cbn [foldl length]. rewrite Z.shiftl_0_r. by rewrite Z.lor_0_r.
  - cbn [foldl length]. rewrite IH, Z.lor_0_l.
    change (foldl _ (wrap 64 (Z.shiftl (char64 c) 8)) l)
      with (foldl (fun r c => wrap 64 (Z.shiftl (Z.lor r (char64 c)) 8)) (wrap 64 (Z.shiftl (char64 c) 8)) l).
    rewrite (IH (Z.shiftl (char64 c) 8)), Z.lor_assoc, <- wrap64_lor. f_equal.
    replace (8 * Z.of_nat (S (length l))) with (8 + 8 * Z.of_nat (length l)) by lia.
    rewrite !Z.shiftl_lor, !Z.shiftl_shiftl, !wrap64_lor, wrap64_shiftl by lia. done.
Qed.

Lemma load_ignores_first c1 c2 l : (7 <= length l)%nat -> unaligned_load (c1 :: l) = unaligned_load (c2 :: l).
Proof.
  intros Hl. enough (forall c, unaligned_load (c :: l)
    = foldl (fun r c => wrap 64 (Z.shiftl (Z.lor r (char64 c)) 8)) 0 (take 7 l)) as E by by rewrite !E.
  intros c. unfold unaligned_load. cbn [take foldl]. rewrite Z.lor_0_l, load_from.
  rewrite length_take, Nat.min_l by lia. rewrite Z.shiftl_shiftl by lia.
  replace (wrap 64 (Z.shiftl (char64 c) (8 + 8 * Z.of_nat 7))) with 0; [apply Z.lor_0_l|].
  unfold wrap. rewrite Z.shiftl_mul_pow2 by lia. change (2 ^ (8 + 8 * Z.of_nat 7)) with (2 ^ 64). by rewrite Z_mod_mult.
Qed.

Lemma strict_loop_rest fuel i str name v rest :
  Name.strict_loop fuel i str name = Ok (v, rest) -> (length str <= fuel)%nat \/ (length rest + fuel = length str)%nat.
Proof.
  revert i str name. induction fuel as [|n IH]; intros i str name H; cbn in H.
  - injection H as <- <-. right. lia.
  - destruct str as [|c str]; [left; cbn; lia|]. apply bind_Ok in H as (x & _ & H). cbn [length].
    destruct (IH _ _ _ H); [left|right]; lia.
Qed.
Lemma long_names_invalid str : (13 < length str)%nat -> exists e, Name.try_string_to_name_strict str = Err e.
Proof.
  intros H. unfold Name.try_string_to_name_strict.
  destruct (Name.strict_loop 12 0 str 0) as [[v rest]|e] eqn:E; [|by exists e]. cbn.
  apply strict_loop_rest in E as [?|E]; [lia|]. destruct rest as [|c [|d rest]]; cbn in E; try lia.
  destruct (Name.char_to_name_digit_strict c); cbn; [|by eexists]. destruct (negb _); by eexists.
Qed.

(** The hash of text that is too long for a name does not depend on its
    first character: names that differ only there are taken for the same. *)
Theorem long_names_collide (c1 c2 : ascii) (rest : list ascii) :
  (13 <= length rest)%nat -> hash_name (c1 :: rest) = hash_name (c2 :: rest).
Proof.
  intros Hl. unfold hash_name.
  destruct (long_names_invalid (c1 :: rest)) as [e1 ->]; [cbn; lia|].
  destruct (long_names_invalid (c2 :: rest)) as [e2 ->]; [cbn; lia|].
  unfold murmur64. cbn [length]. set (len := Z.of_nat (S (length rest))).
  assert (exists n, Z.to_nat (Z.shiftr len 3) = S n) as [n ->].
  { destruct (Z.to_nat (Z.shiftr len 3)) as [|n] eqn:E; [|by exists n].
    exfalso. assert (0 < Z.shiftr len 3); [|lia]. rewrite Z.shiftr_div_pow2 by lia.
    apply Z.div_str_pos. unfold len. lia. }
  cbn [blocks]. rewrite (load_ignores_first c1 c2) by lia.
  replace (8 * S n)%nat with (S (7 + 8 * n)) by lia. done.
Qed.

Lemma long_names_collide_witness :
  let l := String.list_ascii_of_string "lice.of.wonderland" in
  hash_name ("a"%char :: l) = hash_name ("b"%char :: l).
Proof. apply (long_names_collide "a" "b"). cbn. lia. Defined.

End NameHash.
