(* ===== verification/Time.v ===== *)
(** Time types of [libraries/abieos/include/eosio/time.hpp]: [time_point]
    counts microseconds, [time_point_sec] seconds in 32 bits, and
    [block_timestamp] half-second slots since the year 2000 in 32 bits.
    Each is its count as an integer; the 32-bit casts are written out.  Module
    Schedule is the weekly schedule of the elections. *)
From S2P Require Import Prelude.
From Stdlib Require Import Ascii.
From Stdlib Require String.
Open Scope Z_scope.

Module Time.

(** [microseconds] and the duration helpers. *)
Definition seconds (s : Z) : Z := s * 1000000.
Definition milliseconds (s : Z) : Z := s * 1000.
Definition minutes (m : Z) : Z := seconds (60 * m).
Definition hours (h : Z) : Z := minutes (60 * h).
Definition days (d : Z) : Z := hours (24 * d).
Definition to_seconds (count : Z) : Z := Z.quot count 1000000.

(** [time_point_sec(const time_point&)] and back. *)
Definition sec_of_time_point (t : Z) : Z := wrap 32 (Z.quot t 1000000).
Definition time_point_of_sec (s : Z) : Z := seconds s.
(** [time_point_sec operator+(uint32_t)] *)
Definition sec_add (s offset : Z) : Z := wrap 32 (s + offset).

Definition block_interval_ms : Z := 500.
Definition block_timestamp_epoch : Z := 946684800000.

(** [block_timestamp::set_time_point] for both argument types. *)
Definition block_of_time_point (t : Z) : Z :=
  wrap 32 (Z.quot (Z.quot t 1000 - block_timestamp_epoch) block_interval_ms).
Definition block_of_sec (s : Z) : Z :=
  wrap 32 (Z.quot (s * 1000 - block_timestamp_epoch) block_interval_ms).
(** [block_timestamp::operator time_point] *)
Definition to_time_point (slot : Z) : Z :=
  milliseconds (slot * block_interval_ms + block_timestamp_epoch).
Definition block_max : Z := 2 ^ 32 - 1.
Definition block_next (slot : Z) : result Z :=
  _ ← check (1 <=? 2 ^ 32 - 1 - slot) "block timestamp overflow";
  Ok (slot + 1).

Ltac time_unfold :=
  unfold block_of_time_point, block_of_sec, to_time_point, milliseconds, days, hours,
    minutes, seconds, block_timestamp_epoch, block_interval_ms in *.

(** A slot converts to a time point and back unchanged, and a time point
    inside the range of slots is rounded down by less than one slot. *)
Theorem block_time_roundtrip (slot t : Z) :
  0 <= slot < 2 ^ 32 ->
  to_time_point 0 <= t < to_time_point (2 ^ 32) ->
  block_of_time_point (to_time_point slot) = slot /\
  to_time_point (block_of_time_point t) <= t < to_time_point (block_of_time_point t + 1).
Proof.
  intros Hs Ht. time_unfold.
  rewrite (Z.quot_div_nonneg ((slot * 500 + 946684800000) * 1000)), Z.div_mul by lia.
  replace (slot * 500 + 946684800000 - 946684800000) with (slot * 500) by lia.
  rewrite (Z.quot_div_nonneg (slot * 500)), Z.div_mul by lia.
  rewrite wrap_small by lia. split; [done|].
  rewrite (Z.quot_div_nonneg t 1000) by lia.
  assert (946684800000 <= t / 1000) by (apply Z.div_le_lower_bound; lia).
  rewrite Z.quot_div_nonneg by lia.
  pose proof (Z.div_mod t 1000 ltac:(lia)). pose proof (Z.mod_pos_bound t 1000 ltac:(lia)).
  set (m := t / 1000 - 946684800000) in *.
  pose proof (Z.div_mod m 500 ltac:(lia)). pose proof (Z.mod_pos_bound m 500 ltac:(lia)).
  rewrite wrap_small by lia. lia.
Qed.

Lemma block_time_roundtrip_witness :
  block_of_time_point (to_time_point 1368000000) = 1368000000 /\
  to_time_point (block_of_time_point 1630000000123456) <= 1630000000123456
  < to_time_point (block_of_time_point 1630000000123456 + 1).
Proof.
  apply (block_time_roundtrip 1368000000 1630000000123456);
    [lia | vm_compute; split; discriminate || reflexivity].
Defined.

(** Facts the clients use. *)
Lemma block_roundtrip slot :
  0 <= slot < 2 ^ 32 -> block_of_time_point (to_time_point slot) = slot.
Proof.
  intros Hs. time_unfold.
  rewrite (Z.quot_div_nonneg ((slot * 500 + 946684800000) * 1000)), Z.div_mul by lia.
  replace (slot * 500 + 946684800000 - 946684800000) with (slot * 500) by lia.
  rewrite (Z.quot_div_nonneg (slot * 500)), Z.div_mul by lia. by rewrite wrap_small by lia.
Qed.

Lemma block_of_time_point_bounds t : 0 <= block_of_time_point t < 2 ^ 32.
Proof. apply wrap_bounds. lia. Qed.

Lemma to_time_point_mono a b : a <= b -> to_time_point a <= to_time_point b.
Proof. time_unfold. lia. Qed.

End Time.
#[export] Hint Resolve Time.block_of_time_point_bounds Time.to_time_point_mono : eden.

(** When elections take place
    ([contracts/eden/src/elections.cpp], [get_election_time] and the parsing of
    [elections::set_time]).  The week starts on Sunday at 00:00; the day of the
    epoch is a Thursday. *)
Open Scope Z_scope.

Module Schedule.

Definition day : Z := 86400.
Definition week : Z := 7 * day.

(** [std::chrono::weekday]: from a day count, and from the number of a day,
    which is kept in a byte. *)
Definition weekday_of_days (days : Z) : Z := (days + 4) mod 7.
Definition weekday_of_number (n : Z) : Z := let w := wrap 8 n in if w =? 7 then 0 else w.
(** The difference of two weekdays, in [0, 6]. *)
Definition weekday_sub (a b : Z) : Z := (a - b) mod 7.

Definition get_election_time (election_start_time base_time : Z) : Z :=
  let sys_time := base_time in
  let days := Z.quot sys_time day in
  let time := sys_time - days * day in
  let start_day := weekday_of_days days in
  let target_time := election_start_time in
  let target_day := Z.quot target_time day in
  let target_time := target_time - target_day * day in
  let advance := weekday_sub (weekday_of_number target_day) start_day * day + (target_time - time) in
  let advance := if advance <? 0 then advance + 7 * day else advance in
  Time.sec_add base_time advance.

(** [set_time]: the day of the week and "HH:MM" as seconds of the week. *)
Definition get_digit (ch : ascii) : result Z :=
  let z := Z.of_N (N_of_ascii ch) in
  _ ← check ((48 <=? z) && (z <=? 57)) "Expected HH:MM"; Ok (z - 48).

Definition parse_time (weekday : Z) (time : string) : result Z :=
  match String.list_ascii_of_string time with
  | [c0; c1; c2; c3; c4] =>
      _ ← check (Ascii.eqb c2 ":"%char) "Expected HH:MM";
      d0 ← get_digit c0; d1 ← get_digit c1;
      let hours := d0 * 10 + d1 in
      d3 ← get_digit c3; d4 ← get_digit c4;
      let minutes := d3 * 10 + d4 in
      _ ← check (weekday <? 7) "days out of range";
      _ ← check (hours <? 24) "hours out of range";
      _ ← check (minutes <? 60) "minutes out of range";
      Ok (wrap 32 (((24 * weekday + hours) * 60 + minutes) * 60))
  | _ => Err (Check "Expected HH:MM")
  end.

(** ** Facts *)

Definition second_of_week (t : Z) : Z := (t + 4 * day) mod week.

(** The election time computed from a base time is the first moment, not
    before the base time and less than a week after it, that falls on the
    configured second of the week. *)
Theorem get_election_time_first (start base : Z) :
  0 <= start < week -> 0 <= base -> base + week < 2 ^ 32 ->
  let t := get_election_time start base in
  base <= t < base + week /\ second_of_week t = start /\
  forall u, base <= u < t -> second_of_week u <> start.
Proof.
  intros Hs Hb Hw. cbn zeta.
  assert (base <= get_election_time start base < base + week /\
          second_of_week (get_election_time start base) = start) as [Ht Hsec].
  { unfold get_election_time, second_of_week, week, day, weekday_of_days, weekday_sub in *.
    rewrite (Z.quot_div_nonneg base), (Z.quot_div_nonneg start) by lia.
    pose proof (Z.div_mod base 86400 ltac:(lia)) as Hb1.
    pose proof (Z.mod_pos_bound base 86400 ltac:(lia)) as Hb2.
    pose proof (Z.div_mod start 86400 ltac:(lia)) as Hs1.
    pose proof (Z.mod_pos_bound start 86400 ltac:(lia)) as Hs2.
    set (bd := base / 86400) in *. set (sd := start / 86400) in *.
    assert (0 <= sd < 7) by lia.
    assert (weekday_of_number sd = sd) as ->.
    { unfold weekday_of_number. rewrite wrap_small by lia. destruct (Z.eqb_spec sd 7); lia. }
    pose proof (Z.div_mod (bd + 4) 7 ltac:(lia)) as Hw1.
    pose proof (Z.mod_pos_bound (bd + 4) 7 ltac:(lia)) as Hw2.
    set (w := (bd + 4) mod 7) in *. set (wk := (bd + 4) / 7) in *.
    assert ((sd - w) mod 7 = if sd <? w then sd - w + 7 else sd - w) as ->.
    { destruct (Z.ltb_spec sd w).
      - symmetry. apply (Z.mod_unique _ _ (-1)); lia.
      - apply Z.mod_small; lia. }
    set (adv := _ + (start - sd * 86400 - (base - bd * 86400))).
    assert (exists k, (if adv <? 0 then adv + 7 * 86400 else adv)
                      = start - (base + 4 * 86400) + k * (7 * 86400) /\
              0 <= start - (base + 4 * 86400) + k * (7 * 86400) < 7 * 86400) as (k & -> & Hk).
    { unfold adv. destruct (Z.ltb_spec sd w);
        match goal with |- context [?x <? 0] => destruct (Z.ltb_spec x 0) end;
        first [exists wk; lia | exists (wk + 1); lia | exists (wk + 2); lia]. }
    unfold Time.sec_add. rewrite wrap_small by lia. split; [lia|].
    replace (base + (start - (base + 4 * 86400) + k * (7 * 86400)) + 4 * 86400)
      with (start + k * (7 * 86400)) by lia.
    rewrite Z.mod_add by lia. apply Z.mod_small. lia. }
  split; [done|]. split; [done|]. intros u Hu Heq.
  unfold second_of_week in *. rewrite <- Hsec in Heq.
  set (t := get_election_time start base) in *.
  assert ((t - u) mod week = 0) as H0.
  { replace (t - u) with ((t + 4 * day) - (u + 4 * day)) by lia.
    rewrite Zminus_mod, Heq, Z.sub_diag. done. }
  rewrite Z.mod_small in H0 by (unfold week, day in *; lia). lia.
Qed.

Lemma get_election_time_first_witness :
  let t := get_election_time 57600 1665000000 in
  1665000000 <= t < 1665000000 + week /\ second_of_week t = 57600 /\
  forall u, 1665000000 <= u < t -> second_of_week u <> 57600.
Proof. apply (get_election_time_first 57600 1665000000); unfold week, day; lia. Defined.

Lemma get_digit_Ok ch d : get_digit ch = Ok d -> 0 <= d <= 9.
Proof. unfold get_digit. intros H. res_inv. lia. Qed.

(** What the configuration action stores is a second of the week. *)
Lemma parse_time_range weekday time s :
  0 <= weekday -> parse_time weekday time = Ok s -> 0 <= s < week.
Proof.
  intros Hd H. unfold parse_time in H.
  destruct (String.list_ascii_of_string time) as [|c0 [|c1 [|c2 [|c3 [|c4 [|c5 l]]]]]];
    try discriminate.
  res_inv. repeat match goal with H : get_digit _ = Ok _ |- _ => apply get_digit_Ok in H end.
  unfold week, day. rewrite wrap_small by lia. lia.
Qed.

End Schedule.
