(* ===== verification/Asset.v ===== *)
(** Assets: a 64-bit amount with a symbol.  Models [symbol_code], [symbol]
    ([libraries/abieos/include/eosio/symbol.hpp]) and the checked arithmetic
    of [asset] ([asset.hpp]).  Amounts are [int64_t]: additions wrap before
    the range checks run, as the compiled contract does. *)
From S2P Require Import Prelude.
From Stdlib Require Import Ascii.
From Stdlib Require String.
Open Scope Z_scope.

Module Symbol.

(** [symbol_code::is_valid].  The outer loop reads one character per round;
    when the next byte is zero the inner loop checks that the rest is. *)
Fixpoint rest_is_zero (fuel : nat) (i sym : Z) : bool :=
  match fuel with
  | O => true
  | S fuel' =>
      let sym := Z.shiftr sym 8 in
      if negb (Z.land sym 255 =? 0) then false
      else if i + 1 <? 7 then rest_is_zero fuel' (i + 1) sym else true
  end.

Fixpoint code_valid_loop (fuel : nat) (i sym : Z) : bool :=
  match fuel with
  | O => true
  | S fuel' =>
      let c := Z.land sym 255 in
      if negb ((65 <=? c) && (c <=? 90)) then false
      else
        let sym := Z.shiftr sym 8 in
        if Z.land sym 255 =? 0 then rest_is_zero 8 i sym
        else if i + 1 <? 7 then code_valid_loop fuel' (i + 1) sym else true
  end.

Definition code_is_valid (value : Z) : bool := code_valid_loop 8 0 value.

(** [symbol_code(std::string_view)]: the characters from the last to the
    first, each shifted in below the others. *)
Definition code_of_string (str : string) : result Z :=
  let cs := String.list_ascii_of_string str in
  _ ← check (Z.of_nat (length cs) <=? 7) "string is too long to be a valid symbol_code";
  foldl (fun acc c =>
           value ← acc;
           let z := Z.of_N (N_of_ascii c) in
           _ ← check ((65 <=? z) && (z <=? 90)) "only uppercase letters allowed in symbol_code string";
           Ok (Z.lor (wrap 64 (Z.shiftl value 8)) z))
        (Ok 0) (reverse cs).

(** [symbol] *)
Definition code (value : Z) : Z := Z.shiftr value 8.
Definition precision (value : Z) : Z := Z.land value 255.
Definition is_valid (value : Z) : bool := code_is_valid (code value).
Definition make (code prec : Z) : Z := Z.lor (wrap 64 (Z.shiftl code 8)) prec.

(** [symbol_to_string] *)
Fixpoint code_chars (fuel : nat) (v : Z) : list ascii :=
  match fuel with
  | S fuel' => if 0 <? v then ascii_of_N (Z.to_N (Z.land v 255)) :: code_chars fuel' (Z.shiftr v 8) else []
  | O => []
  end.
Definition code_to_string (v : Z) : string := String.string_of_list_ascii (code_chars 8 v).
Definition to_string (value : Z) : string :=
  (Prelude.to_string (Z.land value 255) ++ "," ++ code_to_string (Z.shiftr value 8))%string.

End Symbol.

Module Asset.

Record asset : Type := mk { amount : Z; symbol : Z }.

#[global] Instance asset_eq_dec : EqDecision asset.
Proof. solve_decision. Defined.
#[global] Instance set_amount_field : Setter amount := fun f a => mk (f (amount a)) (symbol a).

(** [asset()] *)
Definition empty : asset := mk 0 0.
Definition max_amount : Z := 2 ^ 62 - 1.

Definition is_amount_within_range (a : asset) : bool :=
  (- max_amount <=? amount a) && (amount a <=? max_amount).
Definition is_valid (a : asset) : bool := is_amount_within_range a && Symbol.is_valid (symbol a).

(** The checking constructor [asset(int64_t, symbol)]. *)
Definition make (a s : Z) : result asset :=
  let r := mk a s in
  _ ← check (is_amount_within_range r) "magnitude of asset amount must be less than 2^62";
  _ ← check (Symbol.is_valid s) "invalid symbol name";
  Ok r.

Definition opp (a : asset) : asset := a <| amount ::= fun x => swrap 64 (- x) |>.

Definition sub (l r : asset) : result asset :=
  _ ← check (symbol r =? symbol l) "attempt to subtract asset with different symbol";
  let amount' := swrap 64 (amount l - amount r) in
  _ ← check (- max_amount <=? amount') "subtraction underflow";
  _ ← check (amount' <=? max_amount) "subtraction overflow";
  Ok (mk amount' (symbol l)).

Definition add (l r : asset) : result asset :=
  _ ← check (symbol r =? symbol l) "attempt to add asset with different symbol";
  let amount' := swrap 64 (amount l + amount r) in
  _ ← check (- max_amount <=? amount') "addition underflow";
  _ ← check (amount' <=? max_amount) "addition overflow";
  Ok (mk amount' (symbol l)).

(** [operator*=]: the product is taken in 128 bits. *)
Definition mul (l : asset) (a : Z) : result asset :=
  let tmp := amount l * a in
  _ ← check (tmp <=? max_amount) "multiplication overflow";
  _ ← check (- max_amount <=? tmp) "multiplication underflow";
  Ok (mk tmp (symbol l)).

(** [operator/=]: signed division truncates towards zero. *)
Definition div (l : asset) (a : Z) : result asset :=
  _ ← check (negb (a =? 0)) "divide by zero";
  _ ← check (negb ((amount l =? - 2 ^ 63) && (a =? -1))) "signed division overflow";
  Ok (mk (Z.quot (amount l) a) (symbol l)).

(** [operator==], [<], [<=], [>=]: comparing different symbols aborts. *)
Definition compare_with (cmp : Z -> Z -> bool) (a b : asset) : result bool :=
  _ ← check (symbol a =? symbol b) "comparison of assets with different symbols is not allowed";
  Ok (cmp (amount a) (amount b)).
Definition eqb : asset -> asset -> result bool := compare_with Z.eqb.
Definition ltb : asset -> asset -> result bool := compare_with Z.ltb.
Definition leb : asset -> asset -> result bool := compare_with Z.leb.
Definition geb : asset -> asset -> result bool := compare_with (fun x y => y <=? x).
Definition neqb (a b : asset) : result bool := negb <$> eqb a b.

(** ** Facts *)

(** A balance the contract accepts: in range, of symbol [s]. *)
Definition ranged (a : asset) : Prop := - max_amount <= amount a <= max_amount.

Lemma ranged_spec a : is_amount_within_range a = true <-> ranged a.
Proof. unfold is_amount_within_range, ranged. lia. Qed.

Lemma asset_eq a x y : amount a = x -> symbol a = y -> a = mk x y.
Proof. destruct a. cbn. congruence. Qed.

Lemma swrap64_small z : - 2 ^ 63 <= z < 2 ^ 63 -> swrap 64 z = z.
Proof. intros H. by apply swrap_small. Qed.

Lemma add_Ok l r a :
  ranged l -> ranged r ->
  add l r = Ok a <->
  symbol r = symbol l /\ amount a = amount l + amount r /\ symbol a = symbol l /\ ranged a.
Proof.
  unfold add, ranged, max_amount. intros Hl Hr.
  rewrite swrap64_small by lia. split.
  - intros H. res_inv. cbn. lia.
  - intros (Hs & Ha & Hs' & Hb). unfold check. rewrite Hs, Z.eqb_refl. cbn.
    rewrite <- Ha. destruct (Z.leb_spec (- (2 ^ 62 - 1)) (amount a)); [|lia]. cbn.
    destruct (Z.leb_spec (amount a) (2 ^ 62 - 1)); [|lia]. cbn.
    destruct a; cbn in *. by subst.
Qed.

Lemma sub_Ok l r a :
  ranged l -> ranged r ->
  sub l r = Ok a <->
  symbol r = symbol l /\ amount a = amount l - amount r /\ symbol a = symbol l /\ ranged a.
Proof.
  unfold sub, ranged, max_amount. intros Hl Hr.
  rewrite swrap64_small by lia. split.
  - intros H. res_inv. cbn. lia.
  - intros (Hs & Ha & Hs' & Hb). unfold check. rewrite Hs, Z.eqb_refl. cbn.
    rewrite <- Ha. destruct (Z.leb_spec (- (2 ^ 62 - 1)) (amount a)); [|lia]. cbn.
    destruct (Z.leb_spec (amount a) (2 ^ 62 - 1)); [|lia]. cbn.
    destruct a; cbn in *. by subst.
Qed.

Lemma compare_with_Ok cmp a b r :
  compare_with cmp a b = Ok r <-> symbol a = symbol b /\ r = cmp (amount a) (amount b).
Proof.
  unfold compare_with. split.
  - intros H. res_inv. done.
  - intros [-> ->]. unfold check. by rewrite Z.eqb_refl.
Qed.

(** Results are in range, whatever the operands. *)
Lemma add_ranged l r a : add l r = Ok a -> ranged a /\ symbol a = symbol l /\ symbol r = symbol l.
Proof. unfold add, ranged. intros H. res_inv. cbn. lia. Qed.
Lemma sub_ranged l r a : sub l r = Ok a -> ranged a /\ symbol a = symbol l /\ symbol r = symbol l.
Proof. unfold sub, ranged. intros H. res_inv. cbn. lia. Qed.
Lemma mul_ranged l n a : mul l n = Ok a -> ranged a /\ symbol a = symbol l.
Proof. unfold mul, ranged. intros H. res_inv. cbn. lia. Qed.
Lemma make_ranged x sym a : make x sym = Ok a -> ranged a /\ a = mk x sym.
Proof.
  intros H. unfold make in H. apply bind_Ok in H as (u & Hr & H). res_inv. cbn in *.
  rewrite ranged_spec in *. done.
Qed.

Lemma quot_abs a b : b <> 0 -> Z.abs (Z.quot a b) <= Z.abs a.
Proof.
  intros Hb. rewrite <- Z.quot_abs by done. destruct (decide (Z.abs a = 0)) as [->|Ha].
  - rewrite Z.quot_0_l; lia.
  - destruct (decide (Z.abs b = 1)) as [->|H1]; [rewrite Z.quot_1_r; lia|].
    pose proof (Z.quot_lt (Z.abs a) (Z.abs b)). lia.
Qed.

Lemma div_ranged l n a : ranged l -> div l n = Ok a -> ranged a /\ symbol a = symbol l.
Proof.
  unfold div, ranged. intros Hl H. res_inv. cbn. split; [|done].
  match goal with Hn : n <> 0 |- _ => pose proof (quot_abs (amount l) n Hn) end. lia.
Qed.

(** Addition never silently wraps: on assets in range it returns the
    exact sum when that is in range and the symbols agree, and otherwise
    aborts with the error of the failed check. *)
Theorem add_exact_or_abort (l r : asset) :
  ranged l -> ranged r ->
  add l r =
    if negb (symbol r =? symbol l) then Err (Check "attempt to add asset with different symbol")
    else if amount l + amount r <? - max_amount then Err (Check "addition underflow")
    else if max_amount <? amount l + amount r then Err (Check "addition overflow")
    else Ok (mk (amount l + amount r) (symbol l)).
Proof.
  unfold add, ranged, max_amount. intros Hl Hr. rewrite swrap64_small by lia.
  unfold check. destruct (symbol r =? symbol l); cbn; [|done].
  rewrite Z.ltb_antisym, (Z.ltb_antisym _ (2 ^ 62 - 1)).
  destruct (_ <=? amount l + amount r); cbn; [|done].
  by destruct (amount l + amount r <=? _).
Qed.

Lemma add_exact_or_abort_witness :
  add (mk (2 ^ 62 - 1) 1397703940) (mk 1 1397703940) = Err (Check "addition overflow").
Proof.
  rewrite (add_exact_or_abort (mk (2 ^ 62 - 1) 1397703940) (mk 1 1397703940));
    [reflexivity | unfold ranged, max_amount; cbn; lia ..].
Defined.

End Asset.
Export Asset (asset).
