(* ===== verification/Text.v ===== *)
(** Numbers, dates, symbols and assets as text: the conversions of
    [libraries/abieos/include/eosio/chain_conversions.hpp] that the history
    node prints its answers with and reads the arguments of queries with.  A
    parser that moves a pointer is a function from the characters at the
    pointer to what it found and the characters left. *)
From S2P Require Import Prelude Name Time Asset.
From Stdlib Require Import Ascii.
From Stdlib Require String.
Open Scope string_scope.
Open Scope list_scope.
Open Scope Z_scope.

Module Text.

Abbreviation chars := (list ascii) (only parsing).
Definition chars_of (s : string) : chars := String.list_ascii_of_string s.
Definition string_of (l : chars) : string := String.string_of_list_ascii l.

(** ** Digits *)

(** ['0' + d] *)
Definition digit (d : Z) : ascii := ascii_of_N (Z.to_N (48 + d)).
Definition is_digit (c : ascii) : bool := Name.in_range "0" "9" c.
Definition digit_value (c : ascii) : Z := Name.code c - 48.

(** [append_uint]: the [digits] last decimal digits of a number. *)
Fixpoint uint_digits (digits : nat) (value : Z) : chars :=
  match digits with
  | O => []
  | S n => digit (value mod 10) :: uint_digits n (value / 10)
  end.
Definition append_uint (value : Z) (digits : nat) : chars := reverse (uint_digits digits (wrap 32 value)).

(** [parse_uint]: exactly [digits] digits. *)
Fixpoint parse_uint (digits : nat) (acc : Z) (s : chars) : option (Z * chars) :=
  match digits with
  | O => Some (acc, s)
  | S n =>
      match s with
      | c :: s => if is_digit c then parse_uint n (acc * 10 + digit_value c) s else None
      | [] => None
      end
  end.
(** [s != end && *s++ == c] *)
Definition eat (c : ascii) (s : chars) : option chars :=
  match s with
  | x :: s => if Ascii.eqb x c then Some s else None
  | [] => None
  end.

(** ** The calendar *)

Record year_month_day : Type := mk_ymd { year : Z; month : Z; day : Z }.

(** [year_month_day::from_days]: the year starts in March of the era's first
    year, so that the leap day is the last. *)
Definition from_days (ds : Z) : year_month_day :=
  let z := ds + 719468 in
  let era := Z.quot (if 0 <=? z then z else z - 146096) 146097 in
  let doe := wrap 32 (z - era * 146097) in
  let yoe := (doe - doe / 1460 + doe / 36524 - doe / 146096) / 365 in
  let y := yoe + era * 400 in
  let doy := doe - (365 * yoe + yoe / 4 - yoe / 100) in
  let mp := (5 * doy + 2) / 153 in
  let d := doy - (153 * mp + 2) / 5 + 1 in
  let m := if mp <? 10 then mp + 3 else mp - 9 in
  mk_ymd (wrap 32 (y + if m <=? 2 then 1 else 0)) m d.

Definition to_days (t : year_month_day) : Z :=
  let y := swrap 32 (year t) - (if month t <=? 2 then 1 else 0) in
  let m := month t in
  let d := day t in
  let era := Z.quot (if 0 <=? y then y else y - 399) 400 in
  let yoe := wrap 32 (y - era * 400) in
  let doy := wrap 32 ((153 * wrap 32 (if 2 <? m then m - 3 else m + 9) + 2) / 5 + d - 1) in
  let doe := wrap 32 (yoe * 365 + yoe / 4 - yoe / 100 + doy) in
  era * 146097 + swrap 32 doe - 719468.

(** ** Dates *)

(** The number of microseconds is an [int64_t] inside [std::chrono]. *)
Definition microseconds_to_str (microseconds : Z) : chars :=
  let us := swrap 64 microseconds in
  let sd := us / 86400000000 in
  let ymd := from_days sd in
  let ms := wrap 32 (us / 1000 - sd * 86400000) in
  append_uint (year ymd) 4 ++ ["-"%char] ++ append_uint (month ymd) 2 ++ ["-"%char]
    ++ append_uint (day ymd) 2 ++ ["T"%char] ++ append_uint (ms / 3600000 mod 60) 2 ++ [":"%char]
    ++ append_uint (ms / 60000 mod 60) 2 ++ [":"%char] ++ append_uint (ms / 1000 mod 60) 2 ++ ["."%char]
    ++ append_uint (ms mod 1000) 3.

(** The digits a fraction may go on with. *)
Fixpoint drop_digits (s : chars) : chars :=
  match s with c :: s' => if is_digit c then drop_digits s' else s | [] => [] end.

(** [sys_days(...).time_since_epoch().count() * 86400] is a product of [int]s:
    it overflows from the year 2038 on, where the compiled product wraps. *)
Definition string_to_utc_seconds (eat_fractional require_end : bool) (s : chars) : option (Z * chars) :=
  '(y, s) ← parse_uint 4 0 s; s ← eat "-" s;
  '(m, s) ← parse_uint 2 0 s; s ← eat "-" s;
  '(d, s) ← parse_uint 2 0 s; s ← eat "T" s;
  '(h, s) ← parse_uint 2 0 s; s ← eat ":" s;
  '(min, s) ← parse_uint 2 0 s; s ← eat ":" s;
  '(sec, s) ← parse_uint 2 0 s;
  let result := wrap 32 (swrap 32 (to_days (mk_ymd y m d) * 86400) + h * 3600 + min * 60 + sec) in
  let s := if eat_fractional then match s with "."%char :: s' => drop_digits s' | _ => s end else s in
  match s with
  | [] => Some (result, s)
  | _ => if require_end then None else Some (result, s)
  end.

(** The loop over the fraction: [scale] takes the values of the list. *)
Fixpoint parse_fraction (scales : list Z) (result : Z) (s : chars) : Z * chars :=
  match scales, s with
  | scale :: scales, c :: s' =>
      if is_digit c then parse_fraction scales (result + digit_value c * scale) s' else (result, s)
  | _, _ => (result, s)
  end.
Definition string_to_utc_microseconds (require_end : bool) (s : chars) : option (Z * chars) :=
  '(sec, s) ← string_to_utc_seconds false false s;
  let result := sec * 1000000 in
  match s with
  | [] => Some (result, s)
  | c :: s' =>
      if negb (Ascii.eqb c ".") then if require_end then None else Some (result, s)
      else
        let '(result, s) := parse_fraction [100000; 10000; 1000; 100; 10; 1] result s' in
        match s with
        | [] => Some (result, s)
        | _ => if require_end then None else Some (result, s)
        end
  end.

(** [from_string(time_point&)]: the text may end with a "Z". *)
Definition time_point_from_string (s : chars) : result Z :=
  match string_to_utc_microseconds false s with
  | Some (us, []) | Some (us, ["Z"%char]) => Ok us
  | _ => Err (Check "Expected time point")
  end.
Definition block_timestamp_from_string (s : chars) : result Z :=
  tp ← time_point_from_string s; Ok (Time.block_of_time_point tp).

(** ** Symbols *)

Fixpoint skip_spaces (s : chars) : chars :=
  match s with c :: s' => if Ascii.eqb c " " then skip_spaces s' else s | [] => [] end.

(** The loop over the letters; [i] counts them. *)
Fixpoint symbol_code_loop (i : Z) (result : Z) (s : chars) : option (Z * Z * chars) :=
  match s with
  | c :: s' =>
      if Name.in_range "A" "Z" c then
        if 7 <=? i then None
        else symbol_code_loop (i + 1) (Z.lor result (Z.shiftl (Name.code c) (8 * i))) s'
      else Some (i, result, s)
  | [] => Some (i, result, s)
  end.
Definition string_to_symbol_code (require_end : bool) (s : chars) : option (Z * chars) :=
  '(i, result, s) ← symbol_code_loop 0 0 (skip_spaces s);
  if negb (i =? 0) && (match s with [] => true | _ => negb require_end end) then Some (result, s) else None.

Definition symbol_code_to_string (v : Z) : chars := Symbol.code_chars 8 v.

(** The digits of the precision, in [uint8_t]; [found] says whether there are any. *)
Fixpoint precision_loop (precision : Z) (found : bool) (s : chars) : Z * bool * chars :=
  match s with
  | c :: s' => if is_digit c then precision_loop (wrap 8 (precision * 10 + digit_value c)) true s'
               else (precision, found, s)
  | [] => (precision, found, s)
  end.
Definition string_to_symbol (require_end : bool) (s : chars) : option (Z * chars) :=
  let '(precision, found, s) := precision_loop 0 false s in
  if negb found then None
  else
    s ← eat "," s;
    '(code, s) ← string_to_symbol_code require_end s;
    Some (Z.lor (wrap 64 (Z.shiftl code 8)) precision, s).

(** [std::to_string] of a small number: at most [fuel] digits, the last first. *)
Fixpoint decimal_digits (fuel : nat) (v : Z) : chars :=
  match fuel with
  | O => []
  | S n => digit (v mod 10) :: (if 0 <? v / 10 then decimal_digits n (v / 10) else [])
  end.
Definition symbol_to_string (v : Z) : chars :=
  reverse (decimal_digits 3 (Z.land v 0xFF)) ++ [","%char] ++ symbol_code_to_string (Z.shiftr v 8).

(** ** Assets *)

Fixpoint amount_digits (amount : Z) (s : chars) : Z * chars :=
  match s with
  | c :: s' => if is_digit c then amount_digits (wrap 64 (amount * 10 + digit_value c)) s' else (amount, s)
  | [] => (amount, s)
  end.
Fixpoint fraction_digits (amount precision : Z) (s : chars) : Z * Z * chars :=
  match s with
  | c :: s' =>
      if is_digit c then fraction_digits (wrap 64 (amount * 10 + digit_value c)) (wrap 8 (precision + 1)) s'
      else (amount, precision, s)
  | [] => (amount, precision, s)
  end.
(** [if (s != end && *s == c) { ++s; ... }]: whether [c] is there, and the rest. *)
Definition optional_char (c : ascii) (s : chars) : bool * chars :=
  match s with
  | x :: s' => if Ascii.eqb x c then (true, s') else (false, s)
  | [] => (false, s)
  end.
Definition string_to_asset (expect_end : bool) (s : chars) : option (asset * chars) :=
  let '(negative, s) := optional_char "-" (skip_spaces s) in
  let '(uamount, s) := amount_digits 0 s in
  let '(point, s) := optional_char "." s in
  let '(uamount, precision, s) := if point : bool then fraction_digits uamount 0 s else (uamount, 0, s) in
  let uamount := if negative : bool then wrap 64 (- uamount) else uamount in
  '(code, s) ← string_to_symbol_code expect_end s;
  Some (Asset.mk (swrap 64 uamount) (Z.lor (wrap 64 (Z.shiftl code 8)) precision), s).

Definition asset_to_string (a : asset) : chars :=
  let amount := Asset.amount a in
  let uamount := if amount <? 0 then wrap 64 (- amount) else amount in
  let precision := Z.to_nat (wrap 8 (Asset.symbol a)) in
  let fraction := if Nat.eqb precision 0 then [] else uint_digits precision uamount ++ ["."%char] in
  let uamount := uamount / 10 ^ Z.of_nat precision in
  reverse (fraction ++ decimal_digits 20 uamount ++ (if amount <? 0 then ["-"%char] else []))
    ++ [" "%char] ++ symbol_code_to_string (Z.shiftr (Asset.symbol a) 8).

Definition asset_from_string (s : chars) : result asset :=
  match string_to_asset true s with
  | Some (a, _) => Asset.make (Asset.amount a) (Asset.symbol a)
  | None => Err (Check "Invalid asset format")
  end.

(** ** Hexadecimal *)

Definition hex_digit (d : Z) : ascii :=
  nth (Z.to_nat d) (chars_of "0123456789ABCDEF") "0"%char.
(** [to_json_hex], without the quotes *)
Definition hex_bytes (bs : list Z) : chars :=
  flat_map (fun b => [hex_digit (Z.shiftr b 4); hex_digit (Z.land b 15)]) bs.

(** The last [digits] digits, as [asset_to_string] and [append_uint] find them. *)
Example asset_text : string_of (asset_to_string (Asset.mk (-123456) (Z.lor (Z.shiftl (69 + 79 * 256 + 83 * 65536) 8) 4)))
  = "-12.3456 EOS".
Proof. reflexivity. Qed.
Example date_text : string_of (microseconds_to_str (Time.to_time_point 1000000001)) = "2015-11-05T00:53:20.500".
Proof. vm_compute. reflexivity. Qed.

(** ** Facts about digits *)

Lemma code_ascii n : 0 <= n < 256 -> Name.code (ascii_of_N (Z.to_N n)) = n.
Proof. intros Hn. unfold Name.code. rewrite N_ascii_embedding by lia. lia. Qed.
Lemma digit_code d : 0 <= d < 10 -> Name.code (digit d) = 48 + d.
Proof. intros Hd. unfold digit. apply code_ascii. lia. Qed.
Lemma is_digit_spec c : is_digit c = true <-> 48 <= Name.code c <= 57.
Proof.
  unfold is_digit, Name.in_range. change (Name.code (Name.chr "0")) with 48. change (Name.code (Name.chr "9")) with 57.
  rewrite andb_true_iff, !Z.leb_le. done.
Qed.
Lemma digit_is_digit d : 0 <= d < 10 -> is_digit (digit d) = true.
Proof. intros Hd. apply is_digit_spec. rewrite digit_code; lia. Qed.
Lemma digit_value_digit d : 0 <= d < 10 -> digit_value (digit d) = d.
Proof. intros Hd. unfold digit_value. rewrite digit_code; lia. Qed.

Lemma parse_uint_app n acc s :
  parse_uint (S n) acc s = '(a, s) ← parse_uint n acc s; parse_uint 1 a s.
Proof.
  revert acc s. induction n as [|n IH]; intros acc s; [by destruct s|].
  cbn [parse_uint]. destruct s as [|c s]; [done|]. destruct (is_digit c); [apply IH|done].
Qed.

Lemma parse_uint_digits n v acc s :
  0 <= v -> parse_uint n acc (reverse (uint_digits n v) ++ s)
            = Some (acc * 10 ^ Z.of_nat n + v mod 10 ^ Z.of_nat n, s).
Proof.
  revert v acc s. induction n as [|n IH]; intros v acc s Hv.
  - cbn. rewrite Z.mod_1_r. do 2 f_equal. lia.
  - rewrite parse_uint_app. cbn [uint_digits]. rewrite reverse_cons, <- app_assoc, IH by (apply Z.div_pos; lia).
    cbn [mbind option_bind app parse_uint].
    rewrite digit_is_digit, digit_value_digit by (apply Z.mod_pos_bound; lia).
    do 2 f_equal. rewrite Nat2Z.inj_succ, Z.pow_succ_r, Z.rem_mul_r by lia. lia.
Qed.

(** A number that fits in the digits and in 32 bits is read back. *)
Lemma parse_append v n s :
  0 <= v < 10 ^ Z.of_nat n -> v < 2 ^ 32 -> parse_uint n 0 (append_uint v n ++ s) = Some (v, s).
Proof.
  intros Hv H32. unfold append_uint. rewrite wrap_small by lia. rewrite parse_uint_digits by lia.
  rewrite Z.mod_small by lia. done.
Qed.

(** ** The calendar *)

Fixpoint all_from (p : Z -> bool) (n : nat) (k : Z) : bool :=
  match n with O => true | S n => p k && all_from p n (k + 1) end.
Lemma all_from_spec p n k : all_from p n k = true -> forall x, k <= x < k + Z.of_nat n -> p x = true.
Proof.
  revert k. induction n as [|n IH]; intros k H x Hx; [lia|]. cbn in H. apply andb_true_iff in H as [H1 H2].
  destruct (decide (x = k)) as [->|]; [done|]. apply (IH (k + 1)); [done|lia].
Qed.

(** The first day of a year of the era, and the days counted without the
    leap days, which are what the year is found from. *)
Definition year_start (yoe : Z) : Z := 365 * yoe + yoe / 4 - yoe / 100.
Definition common_days (doe : Z) : Z := doe - doe / 1460 + doe / 36524 - doe / 146096.

Lemma common_days_mono a b : 0 <= a <= b -> common_days a <= common_days b.
Proof.
  intros H. unfold common_days.
  assert (forall x, x / 146096 = x / 36524 / 4) as E by (intros x; by rewrite Z.div_div by lia).
  rewrite !E. Z.to_euclidean_division_equations. lia.
Qed.

Lemma year_bounds k : 0 <= k <= 400 ->
  (k < 400 -> k <= common_days (year_start k) / 365) /\
  (0 < k -> common_days (year_start k - 1) / 365 < k) /\ 0 <= year_start k.
Proof.
  intros Hk.
  pose (p k := ((400 <=? k) || (k <=? common_days (year_start k) / 365))
    && ((k <=? 0) || (common_days (year_start k - 1) / 365 <? k)) && (0 <=? year_start k)).
  assert (p k = true) as H by (apply (all_from_spec p 401 0); [by vm_compute|lia]).
  unfold p in H. rewrite !andb_true_iff, !orb_true_iff in H. lia.
Qed.

(** The year of a day of the era. *)
Lemma year_of_era doe : 0 <= doe < 146097 ->
  let yoe := common_days doe / 365 in 0 <= yoe < 400 /\ year_start yoe <= doe < year_start yoe + 366.
Proof.
  intros H yoe.
  assert (0 <= yoe) as H0.
  { apply Z.div_pos; [|lia]. pose proof (common_days_mono 0 doe ltac:(lia)) as M.
    assert (common_days 0 = 0) as E by reflexivity. lia. }
  assert (yoe < 400) as H400.
  { pose proof (common_days_mono doe 146096 ltac:(lia)).
    assert (yoe <= common_days 146096 / 365) by (apply Z.div_le_mono; lia).
    assert (common_days 146096 / 365 = 399) by reflexivity. lia. }
  split; [done|]. split.
  - destruct (Z.lt_ge_cases doe (year_start yoe)) as [Hlt|]; [|done]. exfalso.
    destruct (year_bounds yoe) as (_ & B & _); [lia|].
    pose proof (common_days_mono doe (year_start yoe - 1) ltac:(lia)).
    assert (yoe <= common_days (year_start yoe - 1) / 365) by (apply Z.div_le_mono; lia).
    destruct (Z.eq_dec yoe 0) as [E|]; [|lia]. rewrite E in Hlt. assert (year_start 0 = 0) by reflexivity. lia.
  - assert (year_start (yoe + 1) <= year_start yoe + 366) as Hy
      by (unfold year_start; Z.to_euclidean_division_equations; lia).
    destruct (Z.eq_dec yoe 399) as [E|].
    { rewrite E in *. assert (year_start 399 = 145731) by reflexivity. lia. }
    destruct (Z.lt_ge_cases doe (year_start (yoe + 1))) as [|Hge]; [lia|]. exfalso.
    destruct (year_bounds (yoe + 1)) as (B & _ & P); [lia|].
    pose proof (common_days_mono (year_start (yoe + 1)) doe ltac:(lia)).
    assert (common_days (year_start (yoe + 1)) / 365 <= yoe) by (apply Z.div_le_mono; lia). lia.
Qed.

(** The month and day of a day of the year, and back. *)
Lemma month_of_year doy : 0 <= doy < 366 ->
  let mp := (5 * doy + 2) / 153 in
  let d := doy - (153 * mp + 2) / 5 + 1 in
  let m := if mp <? 10 then mp + 3 else mp - 9 in
  1 <= m <= 12 /\ 1 <= d <= 31 /\ (153 * (if 2 <? m then m - 3 else m + 9) + 2) / 5 + d - 1 = doy.
Proof.
  intros H.
  pose (p doy := let mp := (5 * doy + 2) / 153 in
    let d := doy - (153 * mp + 2) / 5 + 1 in
    let m := if mp <? 10 then mp + 3 else mp - 9 in
    (1 <=? m) && (m <=? 12) && (1 <=? d) && (d <=? 31)
    && ((153 * (if 2 <? m then m - 3 else m + 9) + 2) / 5 + d - 1 =? doy)).
  assert (p doy = true) as Hp by (apply (all_from_spec p 366 0); [by vm_compute|lia]).
  unfold p in Hp. cbv zeta in *. rewrite !andb_true_iff, Z.eqb_eq in Hp. lia.
Qed.

Lemma calendar_roundtrip ds : 0 <= ds < 2 ^ 31 - 719468 ->
  let t := from_days ds in
  to_days t = ds /\ 1 <= month t <= 12 /\ 1 <= day t <= 31 /\ 0 <= year t /\ 365 * year t <= ds + 719468 + 366.
Proof.
  intros H t. unfold t, from_days. destruct (Z.leb_spec 0 (ds + 719468)); [|lia].
  rewrite Z.quot_div_nonneg by lia. set (z := ds + 719468) in *. set (era := z / 146097).
  assert (0 <= z - era * 146097 < 146097) as Hdoe by (unfold era; Z.to_euclidean_division_equations; lia).
  rewrite (wrap_small 32 (z - era * 146097)) by lia. set (doe := z - era * 146097) in *.
  destruct (year_of_era doe Hdoe) as (Hyoe & Hstart). unfold common_days in *.
  set (yoe := (doe - doe / 1460 + doe / 36524 - doe / 146096) / 365) in *. unfold year_start in Hstart.
  set (doy := doe - (365 * yoe + yoe / 4 - yoe / 100)) in *. assert (0 <= doy < 366) as Hdoy by lia.
  destruct (month_of_year doy Hdoy) as (Hm & Hd & E). cbv zeta in Hm, Hd, E |- *.
  set (mp := (5 * doy + 2) / 153) in *. set (d := doy - (153 * mp + 2) / 5 + 1) in *.
  set (m := if mp <? 10 then mp + 3 else mp - 9) in *.
  assert (0 <= era /\ era * 146097 <= z) as Hera by (unfold era; Z.to_euclidean_division_equations; lia).
  set (leap := if m <=? 2 then 1 else 0).
  assert (0 <= leap <= 1) as Hleap by (unfold leap; destruct (m <=? 2); lia).
  assert (yoe / 100 <= yoe / 4) by (clearbody yoe; Z.to_euclidean_division_equations; lia).
  cbn [year month day]. rewrite (wrap_small 32 (yoe + era * 400 + leap)) by lia.
  split; [|split; [done|split; [done|lia]]].
  unfold to_days. cbn [year month day]. fold leap. rewrite swrap_small by lia.
  replace (yoe + era * 400 + leap - leap) with (yoe + era * 400) by lia.
  destruct (Z.leb_spec 0 (yoe + era * 400)); [|lia]. rewrite Z.quot_div_nonneg by lia.
  rewrite Z.div_add, Z.div_small, Z.add_0_l by lia. replace (yoe + era * 400 - era * 400) with yoe by lia.
  rewrite (wrap_small 32 yoe) by lia.
  rewrite (wrap_small 32 (if 2 <? m then m - 3 else m + 9)) by (destruct (Z.ltb_spec 2 m); lia).
  rewrite E, (wrap_small 32 doy) by lia. rewrite wrap_small by lia. rewrite swrap_small by lia. lia.
Qed.

(** ** Dates round-trip *)

Lemma eat_here c s : eat c (c :: s) = Some s.
Proof. cbn. by rewrite Ascii.eqb_refl. Qed.
Lemma wrap_swrap a b : wrap 32 (swrap 32 a + b) = wrap 32 (a + b).
Proof.
  unfold wrap, swrap. replace ((a + 2 ^ (32 - 1)) mod 2 ^ 32 - 2 ^ (32 - 1) + b)
    with ((a + 2 ^ (32 - 1)) mod 2 ^ 32 + (b - 2 ^ (32 - 1))) by lia.
  rewrite Zplus_mod_idemp_l. f_equal. lia.
Qed.

(** The fields of a second, printed, read back. *)
Lemma read_fields ds h min sec rest :
  0 <= ds < 2900000 -> 0 <= h < 24 -> 0 <= min < 60 -> 0 <= sec < 60 ->
  let t := from_days ds in
  string_to_utc_seconds false false
    (append_uint (year t) 4 ++ ["-"%char] ++ append_uint (month t) 2 ++ ["-"%char] ++ append_uint (day t) 2
     ++ ["T"%char] ++ append_uint h 2 ++ [":"%char] ++ append_uint min 2 ++ [":"%char] ++ append_uint sec 2 ++ rest)
  = Some (wrap 32 (ds * 86400 + h * 3600 + min * 60 + sec), rest).
Proof.
  intros Hds Hh Hm Hs t. destruct (calendar_roundtrip ds ltac:(lia)) as (E & M & D & Y & Y2).
  fold t in E, M, D, Y, Y2. unfold string_to_utc_seconds.
  rewrite parse_append by lia. cbn [mbind option_bind app]. rewrite eat_here. cbn [mbind option_bind].
  rewrite parse_append by lia. cbn [mbind option_bind app]. rewrite eat_here. cbn [mbind option_bind].
  rewrite parse_append by lia. cbn [mbind option_bind app]. rewrite eat_here. cbn [mbind option_bind].
  rewrite parse_append by lia. cbn [mbind option_bind app]. rewrite eat_here. cbn [mbind option_bind].
  rewrite parse_append by lia. cbn [mbind option_bind app]. rewrite eat_here. cbn [mbind option_bind].
  rewrite parse_append by lia. cbn [mbind option_bind app].
  destruct t as [y m d]. cbn [year month day] in *. rewrite E. rewrite <- !Z.add_assoc, wrap_swrap.
  by destruct rest.
Qed.

Lemma read_millis result ms rest : 0 <= ms < 1000 ->
  Forall (fun c => is_digit c = false) (take 1 rest) ->
  parse_fraction [100000; 10000; 1000; 100; 10; 1] result (append_uint ms 3 ++ rest)
  = (result + ms * 1000, rest).
Proof.
  intros Hm Hr. unfold append_uint. rewrite wrap_small by lia. cbn [uint_digits].
  rewrite !reverse_cons, reverse_nil. cbn [app parse_fraction].
  rewrite !digit_is_digit, !digit_value_digit by (apply Z.mod_pos_bound; lia).
  assert (forall r, match rest with
          | [] => (r, rest)
          | c :: s' => if is_digit c then parse_fraction [10; 1] (r + digit_value c * 100) s' else (r, rest)
          end = (r, rest)) as E.
  { intros r. destruct rest as [|c rest]; [done|]. inversion Hr as [|? ? Hc]. by rewrite Hc. }
  rewrite E. f_equal. Z.to_euclidean_division_equations. lia.
Qed.

(** Block times survive being printed and read: the text of every block
    time, with or without the "Z" the queries' answers have, is read back as
    that block time. *)
Theorem block_time_text_roundtrip (slot : Z) :
  0 <= slot < 2 ^ 32 ->
  let text := microseconds_to_str (Time.to_time_point slot) in
  block_timestamp_from_string text = Ok slot /\
  block_timestamp_from_string (text ++ ["Z"%char]) = Ok slot.
Proof.
  intros Hslot text. set (ms := slot * 500 + 946684800000).
  assert (Time.to_time_point slot = ms * 1000) as Et by (unfold ms; Time.time_unfold; lia).
  assert (forall z, z = [] \/ z = ["Z"%char] ->
    string_to_utc_microseconds false (text ++ z) = Some (ms * 1000, z)) as Hread.
  { intros z Hz. unfold text. rewrite Et. unfold microseconds_to_str. rewrite swrap_small by (unfold ms; lia).
    set (ds := ms * 1000 / 86400000000). set (r := ms * 1000 / 1000 - ds * 86400000).
    assert (0 <= r < 86400000 /\ ms = ds * 86400000 + r /\ 0 <= ds < 2900000) as (Hr & Er & Hds)
      by (unfold r, ds, ms; Z.to_euclidean_division_equations; lia).
    rewrite (wrap_small 32 r) by lia. unfold string_to_utc_microseconds.
    rewrite <- !app_assoc. rewrite read_fields by (try lia; Z.to_euclidean_division_equations; lia).
    cbn [mbind option_bind app].
    change (negb (Ascii.eqb "." ".")) with false. cbn iota.
    rewrite read_millis; [| apply Z.mod_pos_bound; lia | destruct Hz as [->| ->]; repeat constructor].
    rewrite wrap_small by (unfold ms in *; Z.to_euclidean_division_equations; lia).
    replace ((ds * 86400 + r / 3600000 mod 60 * 3600 + r / 60000 mod 60 * 60 + r / 1000 mod 60) * 1000000
             + r mod 1000 * 1000) with (ms * 1000) by (rewrite Er; Z.to_euclidean_division_equations; lia).
    by destruct Hz as [->| ->]. }
  unfold block_timestamp_from_string, time_point_from_string.
  pose proof (Hread [] (or_introl eq_refl)) as H1. rewrite app_nil_r in H1. rewrite H1.
  rewrite (Hread _ (or_intror eq_refl)). cbn [mbind result_bind]. rewrite <- Et.
  by rewrite Time.block_roundtrip.
Qed.

Lemma block_time_text_roundtrip_witness :
  let text := microseconds_to_str (Time.to_time_point 1000000001) in
  block_timestamp_from_string text = Ok 1000000001 /\
  block_timestamp_from_string (text ++ ["Z"%char]) = Ok 1000000001.
Proof. apply (block_time_text_roundtrip 1000000001). lia. Defined.

(** ** Assets round-trip *)

(** The number a list of decimal digits adds to. *)
Definition decimal (acc : Z) (ds : list Z) : Z := foldl (fun a d => a * 10 + d) acc ds.
Definition digits (ds : list Z) : Prop := Forall (fun d => 0 <= d < 10) ds.
Definition no_digit (s : chars) : Prop := Forall (fun c => is_digit c = false) (take 1 s).

Lemma wrap_step w a d : wrap w (wrap w a * 10 + d) = wrap w (a * 10 + d).
Proof. unfold wrap. by rewrite <- Zplus_mod_idemp_l, Zmult_mod_idemp_l, Zplus_mod_idemp_l. Qed.

Lemma amount_digits_spec ds acc s : digits ds -> no_digit s ->
  amount_digits (wrap 64 acc) ((digit <$> ds) ++ s) = (wrap 64 (decimal acc ds), s).
Proof.
  intros Hd Hs. revert acc. induction Hd as [|d ds Hd Hds IH]; intros acc.
  - destruct s as [|c s]; [done|]. inversion Hs as [|? ? Hc]. cbn. by rewrite Hc.
  - cbn [fmap list_fmap app amount_digits]. rewrite digit_is_digit, digit_value_digit by done.
    rewrite wrap_step. apply IH.
Qed.
Lemma fraction_digits_spec ds acc p s : digits ds -> no_digit s ->
  fraction_digits (wrap 64 acc) (wrap 8 p) ((digit <$> ds) ++ s)
  = (wrap 64 (decimal acc ds), wrap 8 (p + Z.of_nat (length ds)), s).
Proof.
  intros Hd Hs. revert acc p. induction Hd as [|d ds Hd Hds IH]; intros acc p.
  - cbn [length]. rewrite Z.add_0_r. destruct s as [|c s]; [done|]. inversion Hs as [|? ? Hc]. cbn. by rewrite Hc.
  - cbn [fmap list_fmap app fraction_digits length]. rewrite digit_is_digit, digit_value_digit by done.
    rewrite wrap_step. replace (wrap 8 (wrap 8 p + 1)) with (wrap 8 (p + 1)) by (unfold wrap; by rewrite Zplus_mod_idemp_l).
    rewrite IH. by replace (p + 1 + Z.of_nat (length ds)) with (p + Z.of_nat (S (length ds))) by lia.
Qed.

Lemma uint_digits_value n v : 0 <= v -> exists ds, reverse (uint_digits n v) = digit <$> ds /\
  length ds = n /\ digits ds /\ forall acc, decimal acc ds = acc * 10 ^ Z.of_nat n + v mod 10 ^ Z.of_nat n.
Proof.
  revert v. induction n as [|n IH]; intros v Hv.
  - exists []. repeat split; [constructor|]. intros acc. cbn. rewrite Z.mod_1_r. lia.
  - destruct (IH (v / 10)) as (ds & E & L & D & V); [apply Z.div_pos; lia|]. exists (ds ++ [v mod 10]).
    cbn [uint_digits]. rewrite reverse_cons, E, fmap_app, length_app, L. cbn [length]. repeat split; [lia| |].
    + apply Forall_app. split; [done|]. constructor; [apply Z.mod_pos_bound; lia|constructor].
    + intros acc. unfold decimal. rewrite foldl_app. change (foldl _ acc ds) with (decimal acc ds). rewrite V.
      cbn [foldl]. rewrite Nat2Z.inj_succ, Z.pow_succ_r, Z.rem_mul_r by lia. lia.
Qed.
Lemma decimal_digits_value n v : 0 <= v < 10 ^ Z.of_nat (S n) -> exists ds,
  reverse (decimal_digits (S n) v) = digit <$> ds /\ ds <> [] /\ digits ds /\ decimal 0 ds = v.
Proof.
  revert v. induction n as [|n IH]; intros v Hv; cbn [decimal_digits].
  - exists [v]. rewrite Z.mod_small by lia. destruct (0 <? v / 10); (split; [done|split; [done|split; [apply Forall_singleton; lia|cbn; lia]]]).
  - destruct (Z.ltb_spec 0 (v / 10)).
    + destruct (IH (v / 10)) as (ds & E & N & D & V).
      { split; [lia|]. apply Z.div_lt_upper_bound; [lia|]. rewrite (Nat2Z.inj_succ (S n)), Z.pow_succ_r in Hv by lia. lia. }
      exists (ds ++ [v mod 10]). cbn [decimal_digits] in E. rewrite reverse_cons, E, fmap_app. repeat split.
      * by destruct ds.
      * apply Forall_app. split; [done|]. constructor; [apply Z.mod_pos_bound; lia|constructor].
      * unfold decimal. rewrite foldl_app. change (foldl _ 0 ds) with (decimal 0 ds). rewrite V. cbn [foldl].
        pose proof (Z.div_mod v 10). lia.
    + assert (v < 10) by (Z.to_euclidean_division_equations; lia). exists [v]. rewrite Z.mod_small by lia.
      split; [done|split; [done|split; [apply Forall_singleton; lia|cbn; lia]]].
Qed.

(** *** Symbol codes *)

Definition letter (c : ascii) : Prop := Name.in_range "A" "Z" c = true.

Lemma rest_is_zero_spec fuel i v :
  Symbol.rest_is_zero fuel i v = true -> 7 - i <= Z.of_nat fuel -> i < 7 ->
  Z.land v 255 = 0 -> 0 <= v < 2 ^ (8 * (8 - i)) -> v = 0.
Proof.
  revert i v. induction fuel as [|n IH]; intros i v H Hf Hi Hl Hv; [lia|]. cbn [Symbol.rest_is_zero] in H.
  change 255 with (Z.ones 8) in Hl. rewrite Z.land_ones in Hl by lia.
  assert (v = Z.shiftr v 8 * 256) as Ev.
  { rewrite Z.shiftr_div_pow2 by lia. change (2 ^ 8) with 256 in *. pose proof (Z.div_mod v 256). lia. }
  destruct (Z.eqb_spec (Z.land (Z.shiftr v 8) 255) 0) as [H0|]; [cbn [negb] in H|discriminate].
  assert (0 <= Z.shiftr v 8 < 2 ^ (8 * (8 - (i + 1)))) as Hb.
  { replace (8 * (8 - i)) with (8 * (8 - (i + 1)) + 8) in Hv by lia. rewrite Z.pow_add_r in Hv by lia. lia. }
  destruct (Z.ltb_spec (i + 1) 7).
  - enough (Z.shiftr v 8 = 0) by lia. apply (IH (i + 1)); try done; lia.
  - assert (i = 6) as -> by lia. change (2 ^ (8 * (8 - (6 + 1)))) with 256 in Hb.
    change 255 with (Z.ones 8) in H0. rewrite Z.land_ones, Z.mod_small in H0 by (change (2 ^ 8) with 256; lia). lia.
Qed.

Lemma byte_letter v : (65 <=? Z.land v 255) && (Z.land v 255 <=? 90) = true ->
  letter (ascii_of_N (Z.to_N (Z.land v 255))) /\ Name.code (ascii_of_N (Z.to_N (Z.land v 255))) = Z.land v 255 /\
  65 <= Z.land v 255 <= 90.
Proof.
  intros H. assert (65 <= Z.land v 255 <= 90) as Hb by (apply andb_true_iff in H; lia).
  split; [|split; [apply code_ascii; lia|done]]. unfold letter, Name.in_range. rewrite code_ascii by lia.
  change (Name.code (Name.chr "A")) with 65. change (Name.code (Name.chr "Z")) with 90. done.
Qed.

(** The letters of a valid code, and what reading them gives. *)
Lemma code_letters n i fuel v res rest :
  Symbol.code_valid_loop fuel i v = true -> Z.of_nat n = 7 - i -> 0 <= i < 7 -> (n <= fuel)%nat ->
  0 <= v < 2 ^ (8 * (7 - i)) -> Forall (fun c => Name.in_range "A" "Z" c = false) (take 1 rest) ->
  exists k, i < k /\
    symbol_code_loop i res (Symbol.code_chars (S n) v ++ rest)
    = Some (k, Z.lor res (Z.shiftl v (8 * i)), rest).
Proof.
  revert i fuel v res. induction n as [|n IH]; intros i fuel v res H Hn Hi Hf Hv Hr; [lia|].
  destruct fuel as [|fuel]; [lia|]. cbn [Symbol.code_valid_loop] in H.
  destruct ((65 <=? Z.land v 255) && (Z.land v 255 <=? 90)) eqn:Hlet; [cbn [negb] in H|discriminate].
  destruct (byte_letter v Hlet) as (Hl & Hc & Hb).
  assert (0 < v) as Hpos by (destruct (Z.eq_dec v 0) as [->|]; [rewrite Z.land_0_l in Hb; lia|lia]).
  cbn [Symbol.code_chars]. destruct (Z.ltb_spec 0 v); [|lia]. cbn [app symbol_code_loop].
  rewrite Hl, Hc. destruct (Z.leb_spec 7 i); [lia|].
  assert (Z.lor res (Z.shiftl v (8 * i))
    = Z.lor (Z.lor res (Z.shiftl (Z.land v 255) (8 * i))) (Z.shiftl (Z.shiftr v 8) (8 * (i + 1)))) as ->.
  { rewrite <- Z.lor_assoc. f_equal. replace (8 * (i + 1)) with (8 + 8 * i) by lia.
    rewrite <- (Z.shiftl_shiftl _ 8 (8 * i)), <- Z.shiftl_lor by lia. f_equal.
    rewrite <- Z.ldiff_ones_r by lia. change 255 with (Z.ones 8).
    rewrite Z.lor_comm. symmetry. apply Z.lor_ldiff_and. }
  assert (0 <= Z.shiftr v 8 < 2 ^ (8 * (7 - (i + 1)))) as Hb'.
  { rewrite Z.shiftr_div_pow2 by lia. split; [apply Z.div_pos; lia|]. apply Z.div_lt_upper_bound; [lia|].
    rewrite <- Z.pow_add_r by lia. replace (8 + 8 * (7 - (i + 1))) with (8 * (7 - i)) by lia. lia. }
  assert (Z.shiftr v 8 = 0 -> exists k, i < k /\
    symbol_code_loop (i + 1) (Z.lor res (Z.shiftl (Z.land v 255) (8 * i))) (Symbol.code_chars (S n) (Z.shiftr v 8) ++ rest)
    = Some (k, Z.lor (Z.lor res (Z.shiftl (Z.land v 255) (8 * i))) (Z.shiftl (Z.shiftr v 8) (8 * (i + 1))), rest)) as Hend.
  { intros ->. exists (i + 1). split; [lia|]. rewrite Z.shiftl_0_l, Z.lor_0_r.
    change (Symbol.code_chars (S n) 0 ++ rest) with rest.
    destruct rest as [|c rest]; [done|]. inversion Hr as [|? ? Hc']. cbn [symbol_code_loop]. by rewrite Hc'. }
  destruct (Z.eqb_spec (Z.land (Z.shiftr v 8) 255) 0) as [Hz|Hz].
  - apply Hend. apply (rest_is_zero_spec 8 i); try done; try lia.
    split; [lia|]. apply Z.lt_le_trans with (1 := proj2 Hb'). apply Z.pow_le_mono_r; lia.
  - destruct (Z.ltb_spec (i + 1) 7).
    + destruct (IH (i + 1) fuel (Z.shiftr v 8) (Z.lor res (Z.shiftl (Z.land v 255) (8 * i))))
        as (k & Hk & E); try done; try lia. exists k. split; [lia|exact E].
    + apply Hend. assert (i = 6) as -> by lia. change (2 ^ (8 * (7 - (6 + 1)))) with 1 in Hb'. lia.
Qed.

Lemma code_starts fuel i v n : Symbol.code_valid_loop (S fuel) i v = true -> 0 <= v ->
  exists c l, Symbol.code_chars (S n) v = c :: l /\ letter c.
Proof.
  intros H Hv. cbn [Symbol.code_valid_loop] in H.
  destruct ((65 <=? Z.land v 255) && (Z.land v 255 <=? 90)) eqn:Hlet; [|discriminate].
  destruct (byte_letter v Hlet) as (Hl & _ & Hb). cbn [Symbol.code_chars].
  destruct (Z.ltb_spec 0 v); [by eexists _, _|]. assert (v = 0) as -> by lia. rewrite Z.land_0_l in Hb. lia.
Qed.

Lemma symbol_code_roundtrip v : Symbol.code_is_valid v = true -> 0 <= v < 2 ^ 56 ->
  string_to_symbol_code true ([" "%char] ++ symbol_code_to_string v) = Some (v, [])
  /\ string_to_symbol_code true (symbol_code_to_string v) = Some (v, []).
Proof.
  intros H Hv. unfold string_to_symbol_code, symbol_code_to_string.
  destruct (code_starts 7 0 v 7 H ltac:(lia)) as (c & l & E & Hl).
  destruct (code_letters 7 0 8 v 0 [] H) as (k & Hk & R); [lia|lia|lia|exact Hv|constructor|].
  rewrite app_nil_r, Z.shiftl_0_r, Z.lor_0_l in R.
  assert (skip_spaces (Symbol.code_chars 8 v) = Symbol.code_chars 8 v) as S1.
  { rewrite E. cbn. destruct (Ascii.eqb_spec c " ") as [->|]; [discriminate|done]. }
  cbn [app skip_spaces]. change (Ascii.eqb " " " ") with true. cbn iota. rewrite S1, R.
  cbn [mbind option_bind]. destruct (Z.eqb_spec k 0); [lia|done].
Qed.

Lemma ten_digits d : 0 <= d < 10 ->
  d = 0 \/ d = 1 \/ d = 2 \/ d = 3 \/ d = 4 \/ d = 5 \/ d = 6 \/ d = 7 \/ d = 8 \/ d = 9.
Proof. lia. Qed.
Lemma digits_start ds s : ds <> [] -> digits ds ->
  optional_char "-" ((digit <$> ds) ++ s) = (false, (digit <$> ds) ++ s).
Proof.
  intros Hn Hd. destruct Hd as [|d ds Hd _]; [done|].
  destruct (ten_digits d Hd) as [->|[->|[->|[->|[->|[->|[->|[->|[->| ->]]]]]]]]]; reflexivity.
Qed.
Lemma digits_no_space ds s : ds <> [] -> digits ds -> skip_spaces ((digit <$> ds) ++ s) = (digit <$> ds) ++ s.
Proof.
  intros Hn Hd. destruct Hd as [|d ds Hd _]; [done|].
  destruct (ten_digits d Hd) as [->|[->|[->|[->|[->|[->|[->|[->|[->| ->]]]]]]]]]; reflexivity.
Qed.

(** The unsigned part: the digits before and after the point. *)
Definition unsigned_text (p : nat) (u : Z) : chars :=
  reverse (decimal_digits 20 (u / 10 ^ Z.of_nat p))
    ++ (if Nat.eqb p 0 then [] else "."%char :: reverse (uint_digits p u)).
Lemma asset_text_parts a :
  let amount := Asset.amount a in
  let u := if amount <? 0 then wrap 64 (- amount) else amount in
  asset_to_string a = (if amount <? 0 then ["-"%char] else [])
    ++ unsigned_text (Z.to_nat (wrap 8 (Asset.symbol a))) u
    ++ [" "%char] ++ symbol_code_to_string (Z.shiftr (Asset.symbol a) 8).
Proof.
  cbv zeta. unfold asset_to_string, unsigned_text. rewrite !reverse_app.
  destruct (Nat.eqb _ 0); destruct (Asset.amount a <? 0); rewrite ?reverse_app; cbn [reverse rev_append];
    rewrite <- ?app_assoc; reflexivity.
Qed.

Lemma unsigned_text_digits p u : 0 <= u < 2 ^ 63 ->
  exists ds, reverse (decimal_digits 20 (u / 10 ^ Z.of_nat p)) = digit <$> ds /\ ds <> [] /\ digits ds /\
    decimal 0 ds = u / 10 ^ Z.of_nat p.
Proof.
  intros Hu. apply decimal_digits_value. split; [apply Z.div_pos; lia|].
  apply Z.le_lt_trans with u; [|change (10 ^ Z.of_nat 20) with 100000000000000000000; lia].
  apply Z.div_le_upper_bound; [lia|]. assert (1 <= 10 ^ Z.of_nat p) by (pose proof (Z.pow_pos_nonneg 10 (Z.of_nat p)); lia). nia.
Qed.

Lemma parse_unsigned p u rest : 0 <= u < 2 ^ 63 -> (p < 256)%nat ->
  exists uamount s point s', amount_digits 0 (unsigned_text p u ++ " "%char :: rest) = (uamount, s) /\
    optional_char "." s = (point, s') /\
    (if point : bool then fraction_digits uamount 0 s' else (uamount, 0, s')) = (u, Z.of_nat p, " "%char :: rest).
Proof.
  intros Hu Hp. destruct (unsigned_text_digits p u Hu) as (ds & E & Hn & Hd & V).
  unfold unsigned_text. rewrite E, <- app_assoc. change 0 with (wrap 64 0) at 1.
  rewrite amount_digits_spec; [|done|destruct (Nat.eqb p 0); repeat constructor]. rewrite V.
  destruct (Nat.eqb_spec p 0) as [->|Hp0]; eexists _, _, _, _; (split; [reflexivity|split; [reflexivity|]]); cbn iota.
  - change (10 ^ Z.of_nat 0) with 1. rewrite Z.div_1_r, wrap_small by lia. done.
  - destruct (uint_digits_value p u ltac:(lia)) as (fs & F & L & D & W). rewrite F.
    change 0 with (wrap 8 0) at 1. rewrite fraction_digits_spec; [|done|repeat constructor]. rewrite L, W.
    assert (u = u / 10 ^ Z.of_nat p * 10 ^ Z.of_nat p + u mod 10 ^ Z.of_nat p) as <-
      by (pose proof (Z.div_mod u (10 ^ Z.of_nat p)); pose proof (Z.pow_pos_nonneg 10 (Z.of_nat p)); lia).
    rewrite !wrap_small by lia. done.
Qed.

(** Assets survive being printed and read: the text of a valid asset,
    with its sign, decimal point and symbol, is read back as that asset. *)
Theorem asset_text_roundtrip (a : asset) :
  Asset.is_valid a = true -> 0 <= Asset.symbol a < 2 ^ 64 ->
  asset_from_string (asset_to_string a) = Ok a.
Proof.
  intros Hv Hs. unfold Asset.is_valid, Asset.is_amount_within_range, Asset.max_amount in Hv.
  apply andb_true_iff in Hv as [Hr Hsym]. pose proof Hr as Hrange. apply andb_true_iff in Hr as [H1 H2]. apply Z.leb_le in H1, H2.
  set (code := Z.shiftr (Asset.symbol a) 8).
  assert (0 <= code < 2 ^ 56) as Hcode.
  { unfold code. rewrite Z.shiftr_div_pow2 by lia. split; [apply Z.div_pos; lia|apply Z.div_lt_upper_bound; lia]. }
  destruct (symbol_code_roundtrip code Hsym Hcode) as [R _]. cbn [app] in R.
  set (p := wrap 8 (Asset.symbol a)). assert (0 <= p < 256) as Hp by (apply (wrap_bounds 8); lia).
  set (u := if Asset.amount a <? 0 then wrap 64 (- Asset.amount a) else Asset.amount a).
  assert (u = Z.abs (Asset.amount a)) as Eu by (unfold u; destruct (Z.ltb_spec (Asset.amount a) 0); rewrite ?wrap_small; lia).
  destruct (parse_unsigned (Z.to_nat p) u (symbol_code_to_string code) ltac:(lia) ltac:(lia))
    as (ua & s1 & pt & s2 & P1 & P2 & P).
  rewrite Z2Nat.id in P by lia.
  destruct (unsigned_text_digits (Z.to_nat p) u ltac:(lia)) as (ds & E & Hn & Hd & _).
  unfold asset_from_string, string_to_asset. rewrite asset_text_parts. fold u p code.
  assert (forall x : Z, (if Asset.amount a <? 0 then wrap 64 (- u) else u) = x ->
    swrap 64 x = Asset.amount a) as Hback.
  { intros x <-. destruct (Z.ltb_spec (Asset.amount a) 0).
    - replace (- u) with (Asset.amount a) by lia. unfold swrap, wrap. rewrite Zplus_mod_idemp_l, Z.mod_small; lia.
    - rewrite swrap_small; lia. }
  assert (Z.lor (wrap 64 (Z.shiftl code 8)) p = Asset.symbol a) as Esym.
  { rewrite Z.shiftl_mul_pow2, wrap_small by lia. rewrite <- Z.shiftl_mul_pow2 by lia.
    rewrite lor_shiftl by lia. unfold code, p, wrap. rewrite Z.shiftr_div_pow2 by lia. pose proof (Z.div_mod (Asset.symbol a) (2 ^ 8)). lia. }
  assert (optional_char "-" (skip_spaces ((if Asset.amount a <? 0 then ["-"%char] else [])
      ++ unsigned_text (Z.to_nat p) u ++ [" "%char] ++ symbol_code_to_string code))
    = (Asset.amount a <? 0, unsigned_text (Z.to_nat p) u ++ [" "%char] ++ symbol_code_to_string code)) as ->.
  { destruct (Asset.amount a <? 0); [reflexivity|]. cbn [app]. unfold unsigned_text. rewrite E, <- app_assoc.
    by rewrite digits_no_space, digits_start by done. }
  cbn [app]. rewrite P1. cbn iota beta. rewrite P2. cbn iota beta. rewrite P. cbn iota beta. rewrite R.
  cbn [mbind option_bind]. rewrite (Hback _ eq_refl), Esym. unfold Asset.make.
  destruct a as [am sy]. cbn [Asset.amount Asset.symbol] in *.
  unfold Asset.is_amount_within_range, Asset.max_amount. cbn [Asset.amount]. by rewrite Hrange, Hsym.
Qed.

Lemma asset_text_roundtrip_witness :
  asset_from_string (asset_to_string (Asset.mk (-123456) 1397703940)) = Ok (Asset.mk (-123456) 1397703940).
Proof. apply (asset_text_roundtrip (Asset.mk (-123456) 1397703940)); [reflexivity | cbn; lia]. Defined.

End Text.
