(* ===== verification/MultiIndex.v ===== *)
(** Tables.  Models [eosio::multi_index]
    ([libraries/eosiolib/contracts/include/eosio/multi_index.hpp]) for a table
    owned by the receiving contract: a finite map from the 64-bit primary key
    to the row, iterated in key order, with secondary indices ordered by
    (secondary key, primary key).  The class keeps the rows it has read and
    remembers iterators; CachedTable.v models that and TableUse.v shows that it
    cannot be seen. *)
From S2P Require Import Prelude.
From stdpp Require Import sorting.
Open Scope Z_scope.

Module Table.

Section table.
Context {R : Type}.
Abbreviation table := (gmap Z R).
Context (primary_key : R -> Z).
Implicit Types (tb : table) (k : Z) (r : R).

Definition find tb k : option R := tb !! k.

Definition get tb k (error_msg : string) : result R := some_or (Check error_msg) (tb !! k).

(** [db_store_i64] refuses a key that is already there. *)
Definition emplace tb r : result table :=
  match tb !! primary_key r with
  | Some _ => Err (Trap "db_store_i64: duplicate primary key")
  | None => Ok (<[primary_key r := r]> tb)
  end.

(** [modify(obj, payer, updater)] of the row stored at [k]. *)
Definition modify tb k (updater : R -> result R) : result table :=
  obj ← some_or (Check "cannot pass end iterator to modify") (tb !! k);
  obj' ← updater obj;
  _ ← check (k =? primary_key obj') "updater cannot change primary key when modifying an object";
  Ok (<[k := obj']> tb).

Definition erase tb k : result table :=
  match tb !! k with
  | None => Err (Check "cannot pass end iterator to erase")
  | Some _ => Ok (delete k tb)
  end.

(** The keys in the order of [begin() .. end()]. *)
Definition keys tb : list Z := merge_sort Z.le (map_to_list tb).*1.

Definition lower_bound_keys tb k : list Z := filter (fun j => k <= j) (keys tb).
Definition upper_bound_keys tb k : list Z := filter (fun j => k < j) (keys tb).

Definition no_available_primary_key : Z := 2 ^ 64 - 2.

(** [available_primary_key]: one past the largest key of the table. *)
Definition available_primary_key tb : result Z :=
  let next :=
    match last (keys tb) with
    | None => 0
    | Some pk => if no_available_primary_key <=? pk then no_available_primary_key else pk + 1
    end in
  _ ← check (next <? no_available_primary_key)
        "next primary key in table is at autoincrement limit";
  Ok next.

(** A secondary index lists (secondary key, primary key) in order. *)
Definition idx_le (a b : Z * Z) : Prop := a.1 < b.1 \/ (a.1 = b.1 /\ a.2 <= b.2).
#[global] Instance idx_le_dec a b : Decision (idx_le a b).
Proof. unfold idx_le. apply _. Defined.

Definition index (secondary : R -> Z) tb : list (Z * Z) :=
  merge_sort idx_le ((fun kr => (secondary kr.2, kr.1)) <$> map_to_list tb).
Definition index_from (secondary : R -> Z) tb (s : Z) : list Z :=
  (filter (fun sk => s <= sk.1) (index secondary tb)).*2.

(** Iterators of a secondary index are its entries. *)
Definition index_lower_bound (secondary : R -> Z) tb (s : Z) : option (Z * Z) :=
  head (filter (fun sk => s <= sk.1) (index secondary tb)).
Definition index_next (secondary : R -> Z) tb (it : Z * Z) : option (Z * Z) :=
  head (filter (fun sk => idx_le it sk /\ sk <> it) (index secondary tb)).
Definition index_find (secondary : R -> Z) tb (s : Z) : option Z :=
  snd <$> head (filter (fun sk => sk.1 = s) (index secondary tb)).

(** The rows [for (it = lower_bound(s); it != end && keep(it); ++it)] visits. *)
Definition index_while (secondary : R -> Z) tb (s : Z) (keep : R -> bool) : list Z :=
  take_while (fun k => from_option keep false (tb !! k)) (index_from secondary tb s).

(** The rows of [for (auto& row : tb)]. *)
Definition rows tb : list R := omap (fun k => tb !! k) (keys tb).

(** [update_index]: walks the rows from [next_primary_key] to register them
    in a secondary index that was added to the table later.  The rows are
    unchanged; what it computes is the cursor and the steps left. *)
Fixpoint update_index_loop (ks : list Z) (next : Z) (max_steps : nat) : Z * nat :=
  match ks, max_steps with
  | k :: ks', S n => update_index_loop ks' (k + 1) n
  | _, _ => (next, max_steps)
  end.
Definition update_index tb (next : Z) (max_steps : nat) : Z * nat :=
  update_index_loop (lower_bound_keys tb next) next max_steps.

(** ** Facts *)

Lemma emplace_Ok tb r tb' :
  emplace tb r = Ok tb' <-> tb !! primary_key r = None /\ tb' = <[primary_key r := r]> tb.
Proof. unfold emplace. destruct (tb !! primary_key r); naive_solver. Qed.

Lemma modify_Ok tb k f tb' :
  modify tb k f = Ok tb' <->
  exists r r', tb !! k = Some r /\ f r = Ok r' /\ primary_key r' = k /\ tb' = <[k := r']> tb.
Proof.
  unfold modify. split.
  - intros H. res_inv. naive_solver.
  - intros (r & r' & Hk & Hf & Hp & ->). rewrite Hk. cbn. rewrite Hf. cbn.
    by rewrite Hp, Z.eqb_refl.
Qed.

Lemma erase_Ok tb k tb' : erase tb k = Ok tb' <-> is_Some (tb !! k) /\ tb' = delete k tb.
Proof. clear primary_key. unfold erase. destruct (tb !! k) eqn:E; naive_solver. Qed.

Lemma get_Ok tb k msg r : get tb k msg = Ok r <-> tb !! k = Some r.
Proof. unfold get. apply some_or_Ok. Qed.

(** Every row is stored under its own primary key. *)
Definition keyed tb : Prop := forall k r, tb !! k = Some r -> primary_key r = k.

Lemma keyed_empty : keyed ∅.
Proof. intros k r Hk. by rewrite lookup_empty in Hk. Qed.

Lemma keyed_insert tb k r : keyed tb -> primary_key r = k -> keyed (<[k := r]> tb).
Proof. intros Ht Hk j r' [[<- <-]|[_ Hr]]%lookup_insert_Some; [done | by apply Ht]. Qed.

Lemma keyed_delete tb k : keyed tb -> keyed (delete k tb).
Proof. intros Ht j r [_ Hr]%lookup_delete_Some. by apply Ht. Qed.

Lemma emplace_keyed tb r tb' : keyed tb -> emplace tb r = Ok tb' -> keyed tb'.
Proof. intros Ht [_ ->]%emplace_Ok. by apply keyed_insert. Qed.

Lemma modify_keyed tb k f tb' : keyed tb -> modify tb k f = Ok tb' -> keyed tb'.
Proof. intros Ht (r & r' & _ & _ & Hk & ->)%modify_Ok. by apply keyed_insert. Qed.

Lemma erase_keyed tb k tb' : keyed tb -> erase tb k = Ok tb' -> keyed tb'.
Proof. intros Ht [_ ->]%erase_Ok. by apply keyed_delete. Qed.

#[local] Instance Zle_total : Total Z.le.
Proof. intros x y. lia. Qed.
#[local] Instance Zle_trans : Transitive Z.le.
Proof. intros x y z. lia. Qed.

Lemma keys_perm tb : keys tb ≡ₚ (map_to_list tb).*1.
Proof. unfold keys. apply merge_sort_Permutation. Qed.

Lemma elem_of_keys tb k : k ∈ keys tb <-> is_Some (tb !! k).
Proof.
  rewrite keys_perm, list_elem_of_fmap. split.
  - intros ([k' r] & -> & H). apply elem_of_map_to_list in H. eauto.
  - intros [r H]. exists (k, r). split; [done|]. by apply elem_of_map_to_list.
Qed.

Lemma keys_NoDup tb : NoDup (keys tb).
Proof. rewrite keys_perm. apply NoDup_fst_map_to_list. Qed.

Lemma keys_sorted tb : StronglySorted Z.le (keys tb).
Proof. apply StronglySorted_merge_sort; apply _. Qed.

Lemma keys_strictly_sorted tb : StronglySorted Z.lt (keys tb).
Proof.
  pose proof (keys_sorted tb) as Hs. pose proof (keys_NoDup tb) as Hn.
  induction Hs as [|k l Hs IH Hk]; [constructor|].
  apply NoDup_cons in Hn as [Hnk Hn]. constructor; [by apply IH|].
  rewrite Forall_forall in Hk |- *. intros j Hj.
  specialize (Hk j Hj). assert (k <> j) by (intros ->; done). lia.
Qed.

Lemma keys_empty : keys ∅ = [].
Proof. unfold keys. by rewrite map_to_list_empty. Qed.

Lemma keys_nil tb : keys tb = [] <-> tb = ∅.
Proof.
  split; [|intros ->; apply keys_empty]. intros H. apply map_empty. intros k.
  apply eq_None_not_Some. rewrite <- elem_of_keys, H. apply not_elem_of_nil.
Qed.

Lemma elem_of_index secondary tb s k :
  (s, k) ∈ index secondary tb <-> exists r, tb !! k = Some r /\ secondary r = s.
Proof.
  unfold index. rewrite merge_sort_Permutation, list_elem_of_fmap. split.
  - intros ([k' r] & [= -> ->] & H%elem_of_map_to_list). eauto.
  - intros (r & H & <-). exists (k, r). split; [done|]. by apply elem_of_map_to_list.
Qed.

Lemma head_filter_Some {A} (P : A -> Prop) `{!forall x, Decision (P x)} (l : list A) x :
  head (filter P l) = Some x -> x ∈ l /\ P x.
Proof.
  intros Hh. assert (x ∈ filter P l) as Hx.
  { destruct (filter P l); [done|]. injection Hh as ->. apply list_elem_of_here. }
  apply list_elem_of_filter in Hx. tauto.
Qed.

Lemma head_filter_None {A} (P : A -> Prop) `{!forall x, Decision (P x)} (l : list A) x :
  head (filter P l) = None -> x ∈ l -> ~ P x.
Proof.
  intros Hh Hx HP. assert (x ∈ filter P l) as Hf by (by apply list_elem_of_filter).
  destruct (filter P l); [by apply not_elem_of_nil in Hf | done].
Qed.

Lemma index_find_Some secondary tb s k :
  index_find secondary tb s = Some k -> exists r, tb !! k = Some r /\ secondary r = s.
Proof.
  unfold index_find. destruct (head _) as [[s' k']|] eqn:E; [|done]. intros [= <-].
  apply head_filter_Some in E as [Hin Hs]. cbn in *. subst. by apply elem_of_index.
Qed.

Lemma index_find_is_Some secondary tb s k r :
  tb !! k = Some r -> secondary r = s -> is_Some (index_find secondary tb s).
Proof.
  intros Hk Hs. unfold index_find. destruct (head _) as [sk|] eqn:E; [eauto|].
  exfalso. eapply (head_filter_None _ _ (s, k)) in E; [by apply E|].
  apply elem_of_index. eauto.
Qed.

#[local] Instance idx_le_total : Total idx_le.
Proof. intros x y. unfold idx_le. lia. Qed.
#[local] Instance idx_le_trans : Transitive idx_le.
Proof. intros x y z. unfold idx_le. lia. Qed.

Lemma index_sorted secondary tb : StronglySorted idx_le (index secondary tb).
Proof. apply StronglySorted_merge_sort; apply _. Qed.

Lemma elem_of_index_from secondary tb s k :
  k ∈ index_from secondary tb s <-> exists r, tb !! k = Some r /\ s <= secondary r.
Proof.
  unfold index_from. rewrite list_elem_of_fmap. split.
  - intros ([s' k'] & -> & [Hs (r & Hr & <-)%elem_of_index]%list_elem_of_filter). eauto.
  - intros (r & Hr & Hs). exists (secondary r, k). split; [done|].
    apply list_elem_of_filter. split; [done|]. apply elem_of_index. eauto.
Qed.

Lemma index_NoDup secondary tb : NoDup (index secondary tb).*2.
Proof.
  unfold index. rewrite merge_sort_Permutation, <- list_fmap_compose. cbn.
  apply NoDup_fst_map_to_list.
Qed.

Lemma filter_sublist {A} (P : A -> Prop) `{!forall x, Decision (P x)} (l : list A) :
  filter P l `sublist_of` l.
Proof.
  induction l as [|x l IH]; [constructor|].
  rewrite filter_cons. case_decide; by constructor.
Qed.

Lemma fmap_sublist {A B} (f : A -> B) (l k : list A) : l `sublist_of` k -> f <$> l `sublist_of` f <$> k.
Proof. induction 1; cbn; by constructor. Qed.

Lemma index_while_NoDup secondary tb s keep : NoDup (index_while secondary tb s keep).
Proof.
  unfold index_while, index_from. eapply sublist_NoDup; [|apply take_while_sublist].
  eapply sublist_NoDup; [apply (index_NoDup secondary tb)|]. apply fmap_sublist, filter_sublist.
Qed.

Lemma fmap_StronglySorted {A B} (Q : A -> A -> Prop) (P : B -> B -> Prop) (f : A -> B) l :
  StronglySorted Q l -> (forall x y, x ∈ l -> y ∈ l -> Q x y -> P (f x) (f y)) ->
  StronglySorted P (f <$> l).
Proof.
  induction 1 as [|x l Hs IH Hx]; intros Hf; cbn; constructor.
  - apply IH. intros y z Hy Hz. apply Hf; by right.
  - apply Forall_fmap. rewrite Forall_forall in Hx |- *. intros y Hy. apply Hf; [left|by right|auto].
Qed.

Lemma filter_StronglySorted {A} (Q : A -> A -> Prop) (P : A -> Prop) `{!forall x, Decision (P x)} l :
  StronglySorted Q l -> StronglySorted Q (filter P l).
Proof.
  induction 1 as [|x l Hs IH Hx]; [constructor|]. rewrite filter_cons. case_decide; [|done].
  constructor; [done|]. rewrite Forall_forall in Hx |- *.
  intros y [_ Hy]%list_elem_of_filter. auto.
Qed.

(** A loop over a key range visits exactly the rows of the range. *)
Lemma elem_of_index_while secondary tb s keep k :
  (forall i j r r', tb !! i = Some r -> tb !! j = Some r' -> secondary r <= secondary r' ->
     s <= secondary r -> keep r' = true -> keep r = true) ->
  k ∈ index_while secondary tb s keep <->
  exists r, tb !! k = Some r /\ s <= secondary r /\ keep r = true.
Proof.
  intros Hk. unfold index_while.
  set (sec j := from_option secondary 0 (tb !! j)).
  set (ok j := exists r, tb !! j = Some r /\ s <= secondary r).
  rewrite (elem_of_take_while (fun i j => ok i /\ ok j /\ sec i <= sec j)).
  - rewrite elem_of_index_from. split.
    + intros [(r & Hr & Hs) Hp]. rewrite Hr in Hp. eauto.
    + intros (r & Hr & Hs & Hp). rewrite Hr. eauto.
  - unfold index_from. eapply (fmap_StronglySorted idx_le).
    + apply filter_StronglySorted, index_sorted.
    + intros [s1 k1] [s2 k2] H1 H2 Hle. cbn [snd].
      apply list_elem_of_filter in H1 as [H1s (r1 & H1 & <-)%elem_of_index].
      apply list_elem_of_filter in H2 as [H2s (r2 & H2 & <-)%elem_of_index]. cbn in *.
      split; [by exists r1|]. split; [by exists r2|].
      unfold sec. rewrite H1, H2. cbn. unfold idx_le in Hle. cbn in Hle. lia.
  - intros y z ((r & Hr & Hs) & (r' & Hr' & _) & Hle) Hp. unfold sec in Hle. rewrite Hr, Hr' in *. cbn in *.
    by eapply (Hk y z r r').
Qed.

Lemma elem_of_upper_bound_keys tb k j :
  j ∈ upper_bound_keys tb k <-> is_Some (tb !! j) /\ k < j.
Proof. unfold upper_bound_keys. rewrite list_elem_of_filter, elem_of_keys. tauto. Qed.

Lemma elem_of_lower_bound_keys tb k j :
  j ∈ lower_bound_keys tb k <-> is_Some (tb !! j) /\ k <= j.
Proof. unfold lower_bound_keys. rewrite list_elem_of_filter, elem_of_keys. tauto. Qed.

Lemma sorted_filter_lt_self (l : list Z) k :
  Forall (Z.lt k) l -> filter (fun j => k < j) l = l.
Proof.
  induction 1 as [|j l Hj Hl IH]; [done|]. rewrite filter_cons_True by done. by rewrite IH.
Qed.

(** Resuming: a cursor that stopped after visiting [j] continues with the
    rest of the list. *)
Lemma upper_bound_resume tb k j js :
  upper_bound_keys tb k = j :: js -> upper_bound_keys tb j = js.
Proof.
  unfold upper_bound_keys. pose proof (keys_strictly_sorted tb) as Hs.
  induction Hs as [|i l Hs IH Hi]; [done|].
  destruct (decide (k < i)) as [Hk|Hk].
  - rewrite filter_cons_True by done. intros Heq. injection Heq as -> Hjs.
    rewrite filter_cons_False by lia. rewrite sorted_filter_lt_self by done.
    rewrite <- Hjs. symmetry. apply sorted_filter_lt_self.
    eapply Forall_impl; [exact Hi|]. intros x Hx. cbn in *. lia.
  - rewrite filter_cons_False by done. intros Heq. specialize (IH Heq).
    rewrite filter_cons_False; [done|].
    assert (j ∈ j :: js) as Hj by apply list_elem_of_here.
    rewrite <- Heq in Hj. apply list_elem_of_filter in Hj as [Hj1 _]. cbn in *. lia.
Qed.

(** A loop that erases the rows [ks] leaves the others. *)
Lemma erase_all_Ok ks tb tb' :
  foldM (fun tb k => erase tb k) ks tb = Ok tb' ->
  forall k, tb' !! k = if decide (k ∈ ks) then None else tb !! k.
Proof.
  revert tb. induction ks as [|j ks IH]; intros tb H k; cbn in H.
  - injection H as <-. by destruct (decide (k ∈ [])) as [Hk|]; [apply not_elem_of_nil in Hk|].
  - apply bind_Ok in H as (tb1 & [_ ->]%erase_Ok & H). rewrite (IH _ H k).
    destruct (decide (k ∈ ks)) as [Hk|Hk], (decide (k ∈ j :: ks)) as [Hk'|Hk']; try done.
    + exfalso. apply Hk'. by right.
    + apply elem_of_cons in Hk' as [->|?]; [by rewrite lookup_delete_eq | done].
    + rewrite lookup_delete_ne; [done|]. intros ->. apply Hk'. left.
Qed.

Lemma erase_all_total ks tb :
  NoDup ks -> (forall k, k ∈ ks -> is_Some (tb !! k)) ->
  exists tb', foldM (fun tb k => erase tb k) ks tb = Ok tb'.
Proof.
  revert tb. induction ks as [|j ks IH]; intros tb Hn Hk; cbn; [eauto|].
  apply NoDup_cons in Hn as [Hj Hn]. destruct (Hk j) as [r Hr]; [left|].
  assert (erase tb j = Ok (delete j tb)) as -> by (apply erase_Ok; eauto). cbn.
  apply IH; [done|]. intros k Hin.
  rewrite lookup_delete_ne; [apply Hk; by right | by intros ->].
Qed.

(** A loop that updates the rows [ks] with a total function. *)
Lemma modify_all_Ok (f : R -> R) ks tb tb' :
  NoDup ks -> foldM (fun tb k => modify tb k (fun r => Ok (f r))) ks tb = Ok tb' ->
  forall k, tb' !! k = if decide (k ∈ ks) then f <$> tb !! k else tb !! k.
Proof.
  revert tb. induction ks as [|j ks IH]; intros tb Hn H k; cbn in H.
  - injection H as <-. by destruct (decide (k ∈ [])) as [Hk|]; [apply not_elem_of_nil in Hk|].
  - apply NoDup_cons in Hn as [Hj Hn].
    apply bind_Ok in H as (tb1 & (r & r' & Hr & [= <-] & _ & ->)%modify_Ok & H).
    rewrite (IH _ Hn H k).
    destruct (decide (k ∈ ks)) as [Hk|Hk], (decide (k ∈ j :: ks)) as [Hk'|Hk']; try done.
    + rewrite lookup_insert_ne; [done|]. by intros ->.
    + exfalso. apply Hk'. by right.
    + apply elem_of_cons in Hk' as [->|?]; [by rewrite lookup_insert_eq, Hr | done].
    + rewrite lookup_insert_ne; [done|]. intros ->. apply Hk'. left.
Qed.

Lemma modify_all_total (f : R -> R) ks tb :
  (forall r, primary_key (f r) = primary_key r) -> keyed tb ->
  (forall k, k ∈ ks -> is_Some (tb !! k)) ->
  exists tb', foldM (fun tb k => modify tb k (fun r => Ok (f r))) ks tb = Ok tb'.
Proof.
  intros Hf. revert tb. induction ks as [|j ks IH]; intros tb Ht Hk; cbn; [eauto|].
  destruct (Hk j) as [r Hr]; [left|].
  assert (modify tb j (fun r => Ok (f r)) = Ok (<[j := f r]> tb)) as ->.
  { apply modify_Ok. exists r, (f r). rewrite Hf. auto. }
  cbn. apply IH.
  - apply keyed_insert; [done|]. rewrite Hf. by apply Ht.
  - intros k Hin. rewrite lookup_insert_is_Some. destruct (decide (j = k)); [by left|].
    right. split; [done|]. apply Hk. by right.
Qed.

(** The next key of the table is free. *)
Lemma available_primary_key_fresh tb k :
  available_primary_key tb = Ok k -> tb !! k = None /\ 
  (forall j r, tb !! j = Some r -> j < k).
Proof.
  unfold available_primary_key. intros H. res_inv.
  assert (forall j r, tb !! j = Some r ->
    j < match last (keys tb) with
        | None => 0
        | Some pk => if no_available_primary_key <=? pk then no_available_primary_key else pk + 1
        end) as Hlt.
  { intros j r Hj. assert (j ∈ keys tb) as Hin by (apply elem_of_keys; eauto).
    pose proof (keys_sorted tb) as Hs.
    destruct (last (keys tb)) as [pk|] eqn:El.
    - apply last_Some in El as [l El]. rewrite El in Hin, Hs.
      assert (j <= pk) as Hle.
      { apply elem_of_app in Hin as [Hin|Hin%list_elem_of_singleton]; [|lia].
        clear -Hs Hin. induction l as [|i l IH]; [by apply not_elem_of_nil in Hin|].
        inversion Hs as [|? ? Hs' Hf]; subst.
        apply elem_of_cons in Hin as [->|Hin]; [|by apply IH].
        rewrite Forall_forall in Hf. apply Hf. set_solver. }
      destruct (Z.leb_spec no_available_primary_key pk); lia.
    - apply last_None in El. rewrite El in Hin. by apply not_elem_of_nil in Hin. }
  split; [|exact Hlt].
  destruct (tb !! _) as [r|] eqn:E; [|done]. apply Hlt in E. lia.
Qed.
End table.

End Table.
#[export] Hint Resolve Table.keys_NoDup Table.keys_strictly_sorted : eden.
#[export] Hint Resolve Table.keyed_empty Table.keyed_insert Table.keyed_delete : eden.
#[export] Hint Resolve Table.emplace_keyed Table.modify_keyed Table.erase_keyed : eden.
