(* ===== verification/Crypto.v ===== *)
(** Bytes, checksums and keys.  A [checksum256] is its value as a 256-bit
    big-endian number, so that comparing checksums is comparing numbers
    ([libraries/abieos/include/eosio/fixed_bytes.hpp]: words from the most
    significant).  A [public_key] is the alternative of the variant with the
    key's bytes ([crypto.hpp]). *)
From S2P Require Import Prelude.
Open Scope Z_scope.

Module Crypto.

(** Little-endian and big-endian images of a number in [n] bytes. *)
Fixpoint le_bytes (n : nat) (z : Z) : list Z :=
  match n with O => [] | S n' => z mod 256 :: le_bytes n' (z / 256) end.
Fixpoint of_le (bs : list Z) : Z :=
  match bs with [] => 0 | b :: bs' => b + 256 * of_le bs' end.
Definition be_bytes (n : nat) (z : Z) : list Z := reverse (le_bytes n z).
Definition of_be (bs : list Z) : Z := of_le (reverse bs).

(** [checksum256::extract_as_byte_array] and the constructor from an array. *)
Abbreviation checksum256 := Z (only parsing).
Definition extract_as_byte_array (c : checksum256) : list Z := be_bytes 32 c.
Definition checksum_of_bytes (bs : list Z) : checksum256 := of_be bs.

Inductive public_key : Type :=
  | key_k1 (data : list Z)
  | key_r1 (data : list Z)
  | key_webauthn (data : list Z).
#[global] Instance public_key_eq_dec : EqDecision public_key.
Proof. solve_decision. Defined.
Definition index (k : public_key) : Z :=
  match k with key_k1 _ => 0 | key_r1 _ => 1 | key_webauthn _ => 2 end.
Definition key_data (k : public_key) : list Z :=
  match k with key_k1 d | key_r1 d | key_webauthn d => d end.

(** The order of the variant: alternative first, then the bytes. *)
Fixpoint bytes_ltb (a b : list Z) : bool :=
  match a, b with
  | [], _ :: _ => true
  | x :: a', y :: b' => (x <? y) || ((x =? y) && bytes_ltb a' b')
  | _, [] => false
  end.
Definition key_ltb (a b : public_key) : bool :=
  (index a <? index b) || ((index a =? index b) && bytes_ltb (key_data a) (key_data b)).

(** ** Facts *)

Definition bytes (bs : list Z) : Prop := Forall (fun b => 0 <= b < 256) bs.

Lemma le_bytes_length n z : length (le_bytes n z) = n.
Proof. revert z. induction n; intros z; cbn; [done|]. by rewrite IHn. Qed.

Lemma le_bytes_bytes n z : bytes (le_bytes n z).
Proof.
  revert z. induction n as [|n IH]; intros z; cbn; [constructor|].
  constructor; [apply Z.mod_pos_bound; lia | apply IH].
Qed.

Lemma of_le_bounds bs : bytes bs -> 0 <= of_le bs < 256 ^ Z.of_nat (length bs).
Proof.
  induction 1 as [|b bs Hb Hbs IH]; [cbn; lia|].
  cbn [of_le length]. rewrite Nat2Z.inj_succ, Z.pow_succ_r by lia. lia.
Qed.

Lemma of_le_le_bytes n z : 0 <= z < 256 ^ Z.of_nat n -> of_le (le_bytes n z) = z.
Proof.
  revert z. induction n as [|n IH]; intros z Hz.
  - cbn in *. lia.
  - rewrite Nat2Z.inj_succ, Z.pow_succ_r in Hz by lia. cbn [le_bytes of_le].
    rewrite IH.
    + pose proof (Z.div_mod z 256). lia.
    + split; [apply Z.div_pos; lia | apply Z.div_lt_upper_bound; lia].
Qed.

Lemma le_bytes_of_le bs : bytes bs -> le_bytes (length bs) (of_le bs) = bs.
Proof.
  induction 1 as [|b bs Hb Hbs IH]; [done|]. cbn [length of_le le_bytes].
  replace (b + 256 * of_le bs) with (of_le bs * 256 + b) by lia.
  rewrite Z.add_comm, Z.mod_add, Z.div_add, Z.mod_small, Z.div_small, Z.add_0_l by lia.
  by rewrite IH.
Qed.

Lemma checksum_bytes_roundtrip c :
  0 <= c < 2 ^ 256 -> checksum_of_bytes (extract_as_byte_array c) = c.
Proof.
  intros Hc. unfold checksum_of_bytes, extract_as_byte_array, of_be, be_bytes.
  rewrite reverse_involutive. by apply of_le_le_bytes.
Qed.

Lemma checksum_of_bytes_bounds bs :
  bytes bs -> length bs = 32%nat -> 0 <= checksum_of_bytes bs < 2 ^ 256.
Proof.
  intros Hb Hl. unfold checksum_of_bytes, of_be.
  pose proof (of_le_bounds (reverse bs)) as H. rewrite length_reverse, Hl in H.
  apply H. by apply Forall_reverse.
Qed.

Lemma extract_length c : length (extract_as_byte_array c) = 32%nat.
Proof. unfold extract_as_byte_array, be_bytes. by rewrite length_reverse, le_bytes_length. Qed.

Lemma extract_bytes c : bytes (extract_as_byte_array c).
Proof. apply Forall_reverse, le_bytes_bytes. Qed.

End Crypto.
Export Crypto (public_key).
#[export] Hint Resolve Crypto.le_bytes_bytes Crypto.extract_bytes : eden.
