(* ===== verification/Ripemd160.v ===== *)
(** RIPEMD-160, the checksum of keys in text
    ([libraries/abieos/include/eosio/abieos_ripemd160.hpp]): the state with its
    buffer of a block, the compression of a block, feeding bytes in pieces and
    the digest.  The reference it is compared with pads the whole message and
    compresses its blocks one after the other. *)
From S2P Require Import Prelude Crypto.
Import Crypto.
Open Scope Z_scope.

Module Ripemd160.

(** ** 32-bit words *)

Definition ROL (s n : Z) : Z := Z.lor (wrap 32 (Z.shiftl n s)) (Z.shiftr n (32 - s)).
(** [~x] *)
Definition not32 (x : Z) : Z := Z.lxor x 0xffffffff.
Definition F1 (x y z : Z) : Z := Z.lxor (Z.lxor x y) z.
Definition F2 (x y z : Z) : Z := Z.lor (Z.land x y) (Z.land (not32 x) z).
Definition F3 (x y z : Z) : Z := Z.lxor (Z.lor x (not32 y)) z.
Definition F4 (x y z : Z) : Z := Z.lor (Z.land x z) (Z.land y (not32 z)).
Definition F5 (x y z : Z) : Z := Z.lxor x (Z.lor y (not32 z)).

(** ** Tables *)

Definition RL : list (list nat) := [
  [0; 1; 2; 3; 4; 5; 6; 7; 8; 9; 10; 11; 12; 13; 14; 15];
  [7; 4; 13; 1; 10; 6; 15; 3; 12; 0; 9; 5; 2; 14; 11; 8];
  [3; 10; 14; 4; 9; 15; 8; 1; 2; 7; 0; 6; 13; 11; 5; 12];
  [1; 9; 11; 10; 0; 8; 12; 4; 13; 3; 7; 15; 14; 5; 6; 2];
  [4; 0; 5; 9; 7; 12; 2; 10; 14; 1; 3; 8; 11; 6; 15; 13]]%nat.
Definition RR : list (list nat) := [
  [5; 14; 7; 0; 9; 2; 11; 4; 13; 6; 15; 8; 1; 10; 3; 12];
  [6; 11; 3; 7; 0; 13; 5; 10; 14; 15; 8; 12; 4; 9; 1; 2];
  [15; 5; 1; 3; 7; 14; 6; 9; 11; 8; 12; 2; 10; 0; 4; 13];
  [8; 6; 4; 1; 3; 11; 15; 0; 5; 12; 2; 13; 9; 7; 10; 14];
  [12; 15; 10; 4; 1; 5; 8; 7; 6; 2; 13; 14; 0; 3; 9; 11]]%nat.
Definition SL : list (list Z) := [
  [11; 14; 15; 12; 5; 8; 7; 9; 11; 13; 14; 15; 6; 7; 9; 8];
  [7; 6; 8; 13; 11; 9; 7; 15; 7; 12; 15; 9; 11; 7; 13; 12];
  [11; 13; 6; 7; 14; 9; 13; 15; 14; 8; 13; 6; 5; 12; 7; 5];
  [11; 12; 14; 15; 14; 15; 9; 8; 9; 14; 5; 6; 8; 6; 5; 12];
  [9; 15; 5; 11; 6; 8; 13; 12; 5; 12; 13; 14; 11; 8; 5; 6]].
Definition SR : list (list Z) := [
  [8; 9; 9; 11; 13; 15; 15; 5; 7; 7; 8; 11; 14; 14; 12; 6];
  [9; 13; 15; 7; 12; 8; 9; 11; 7; 7; 12; 7; 6; 15; 13; 11];
  [9; 7; 15; 11; 8; 6; 6; 14; 12; 13; 5; 14; 13; 13; 7; 5];
  [15; 5; 8; 11; 14; 14; 6; 14; 6; 9; 12; 9; 12; 5; 15; 8];
  [8; 5; 12; 9; 12; 5; 14; 6; 8; 13; 6; 5; 15; 13; 11; 11]].
Definition KL : list Z := [0x00000000; 0x5A827999; 0x6ED9EBA1; 0x8F1BBCDC; 0xA953FD4E].
Definition KR : list Z := [0x50A28BE6; 0x5C4DD124; 0x6D703EF3; 0x7A6D76E9; 0x00000000].
(** The functions of the rounds. *)
Definition FL : list (Z -> Z -> Z -> Z) := [F1; F2; F3; F4; F5].
Definition FR : list (Z -> Z -> Z -> Z) := [F5; F4; F3; F2; F1].

(** ** The compression function *)

(** The chaining variables [h], and the variables [A] to [E] of a line. *)
Record line : Type := mk_line { A : Z; B : Z; C : Z; D : Z; E : Z }.
Definition initial_h : line := mk_line 0x67452301 0xEFCDAB89 0x98BADCFE 0x10325476 0xC3D2E1F0.

(** [buf.w[i]]: the words of the block are little-endian. *)
Definition word (block : list Z) (i : nat) : Z := of_le (take 4 (drop (4 * i) block)).

(** One step of a line: the shift and the word it takes, the constant and the
    function of the round. *)
Definition line_step (F : Z -> Z -> Z -> Z) (K : Z) (block : list Z) (l : line) (sr : Z * nat) : line :=
  let T := wrap 32 (ROL sr.1 (wrap 32 (A l + F (B l) (C l) (D l) + word block sr.2 + K)) + E l) in
  mk_line (E l) T (B l) (ROL 10 (C l)) (D l).
Definition round (F : Z -> Z -> Z -> Z) (K : Z) (shifts : list Z) (order : list nat) (block : list Z) (l : line) : line :=
  foldl (line_step F K block) l (zip shifts order).
Fixpoint rounds (Fs : list (Z -> Z -> Z -> Z)) (Ks : list Z) (Ss : list (list Z)) (Rs : list (list nat))
    (block : list Z) (l : line) : line :=
  match Fs, Ks, Ss, Rs with
  | F :: Fs, K :: Ks, s :: Ss, r :: Rs => rounds Fs Ks Ss Rs block (round F K s r block l)
  | _, _, _, _ => l
  end.

(** The chaining variables after a block. *)
Definition compress_block (block : list Z) (h : line) : line :=
  let l := rounds FL KL SL RL block h in
  let r := rounds FR KR SR RR block h in
  mk_line (wrap 32 (B h + C l + D r)) (wrap 32 (C h + D l + E r)) (wrap 32 (D h + E l + A r))
          (wrap 32 (E h + A l + B r)) (wrap 32 (A h + B l + C r)).

(** ** The state *)

Definition ripemd160_magic : Z := 0x9f19dd68.
Record ripemd160_state : Type := mk_state {
  magic : Z; h : line; len : Z; buf : list Z; bufpos : nat
}.
#[global] Instance set_magic : Setter magic := fun f s => mk_state (f (magic s)) (h s) (len s) (buf s) (bufpos s).
#[global] Instance set_h : Setter h := fun f s => mk_state (magic s) (f (h s)) (len s) (buf s) (bufpos s).
#[global] Instance set_len : Setter len := fun f s => mk_state (magic s) (h s) (f (len s)) (buf s) (bufpos s).
#[global] Instance set_buf : Setter buf := fun f s => mk_state (magic s) (h s) (len s) (f (buf s)) (bufpos s).
#[global] Instance set_bufpos : Setter bufpos := fun f s => mk_state (magic s) (h s) (len s) (buf s) (f (bufpos s)).

Definition zeros (n : nat) : list Z := replicate n 0.
Definition ripemd160_init : ripemd160_state := mk_state ripemd160_magic initial_h 0 (zeros 64) 0.
Definition ripemd160_wipe : ripemd160_state := mk_state 0 (mk_line 0 0 0 0 0) 0 (zeros 64) 0.

(** [memcpy(&buf.b[pos], p, n)] *)
Definition memcpy (b : list Z) (pos : nat) (src : list Z) : list Z :=
  take pos b ++ src ++ drop (pos + length src) b.

Definition ripemd160_compress (self : ripemd160_state) : ripemd160_state :=
  if negb (magic self =? ripemd160_magic) || negb (Nat.eqb (bufpos self) 64) then ripemd160_wipe
  else mk_state (magic self) (compress_block (buf self) (h self)) (len self) (zeros 64) 0.

(** The loop of [ripemd160_update]: a round fills the buffer and compresses
    it, or takes what is left and returns. *)
Fixpoint update_loop (fuel : nat) (self : ripemd160_state) (p : list Z) : ripemd160_state :=
  match fuel with
  | O => self
  | S fuel =>
      if Nat.eqb (length p) 0 then self
      else
        let bytes_needed := (64 - bufpos self)%nat in
        if Nat.leb bytes_needed (length p) then
          let self := self <| buf ::= fun b => memcpy b (bufpos self) (take bytes_needed p) |> in
          let self := self <| bufpos ::= fun n => (n + bytes_needed)%nat |> in
          let self := self <| len ::= fun n => wrap 64 (n + 8 * Z.of_nat bytes_needed) |> in
          update_loop fuel (ripemd160_compress self) (drop bytes_needed p)
        else
          self <| buf ::= fun b => memcpy b (bufpos self) p |>
               <| bufpos ::= fun n => (n + length p)%nat |>
               <| len ::= fun n => wrap 64 (n + 8 * Z.of_nat (length p)) |>
  end.
(** The length is an [int].  Every round but the last takes a byte at least, so
    the bytes are as many rounds as can be needed. *)
Definition ripemd160_update (self : ripemd160_state) (p : list Z) : ripemd160_state :=
  let length := swrap 32 (Z.of_nat (length p)) in
  if negb (magic self =? ripemd160_magic) || (length <? 0) then ripemd160_wipe
  else update_loop (S (Z.to_nat length)) self (take (Z.to_nat length) p).

Definition line_bytes (l : line) : list Z :=
  le_bytes 4 (A l) ++ le_bytes 4 (B l) ++ le_bytes 4 (C l) ++ le_bytes 4 (D l) ++ le_bytes 4 (E l).

(** [ripemd160_digest], step by step: the padding's first byte; a block when
    the length does not fit after it; the length. *)
Definition append_bit (tmp : ripemd160_state) : ripemd160_state :=
  tmp <| buf ::= fun b => memcpy b (bufpos tmp) [0x80] |> <| bufpos ::= S |>.
Definition make_room (tmp : ripemd160_state) : ripemd160_state :=
  if Nat.ltb 56 (bufpos tmp) then ripemd160_compress (tmp <| bufpos := 64%nat |>) else tmp.
Definition append_length (tmp : ripemd160_state) : ripemd160_state :=
  let tmp := tmp <| buf ::= fun b => memcpy b 56 (le_bytes 4 (Z.land (len tmp) 0xFFFFFFFF)) |> in
  let tmp := tmp <| buf ::= fun b => memcpy b 60 (le_bytes 4 (Z.land (Z.shiftr (len tmp) 32) 0xFFFFFFFF)) |> in
  tmp <| bufpos := 64%nat |>.
(** Nothing when the state is not one. *)
Definition ripemd160_digest (self : ripemd160_state) : option (list Z) :=
  if negb (magic self =? ripemd160_magic) then None
  else
    let tmp := ripemd160_compress (append_length (make_room (append_bit self))) in
    if magic tmp =? ripemd160_magic then Some (line_bytes (h tmp)) else None.

(** [digest_suffix_ripemd160] of [libraries/abieos/src/crypto.cpp] *)
Definition digest_suffix_ripemd160 (data : list (list Z)) : result (list Z) :=
  some_or (Check "Invalid signature format") (ripemd160_digest (foldl ripemd160_update ripemd160_init data)).

(** ** The reference *)

(** The blocks of a message, one after the other. *)
Fixpoint blocks (n : nat) (m : list Z) (h : line) : line :=
  match n with O => h | S n => blocks n (drop 64 m) (compress_block (take 64 m) h) end.
(** A one bit, zeros up to the last eight bytes of a block, the length in bits. *)
Definition padding (n : nat) : list Z :=
  0x80 :: zeros (if Nat.leb (n mod 64) 55 then 55 - n mod 64 else 119 - n mod 64)
    ++ le_bytes 8 (wrap 64 (8 * Z.of_nat n)).
Definition reference (m : list Z) : list Z :=
  let p := m ++ padding (length m) in line_bytes (blocks (length p / 64) p initial_h).

(** ** Pieces and the whole *)

(** The state after the bytes [m]. *)
Definition state_after (m : list Z) : ripemd160_state :=
  let n := (length m / 64)%nat in
  let rest := drop (64 * n) m in
  mk_state ripemd160_magic (blocks n m initial_h) (wrap 64 (8 * Z.of_nat (length m)))
    (rest ++ zeros (64 - length rest)) (length rest).

Lemma blocks_add n k m h : blocks (n + k) m h = blocks k (drop (64 * n) m) (blocks n m h).
Proof.
  revert m h. induction n as [|n IH]; intros m h; [done|]. cbn [Nat.add blocks]. rewrite IH, drop_drop.
  f_equal. f_equal. lia.
Qed.
Lemma blocks_prefix n m p h : (64 * n <= length m)%nat -> blocks n (m ++ p) h = blocks n m h.
Proof.
  revert m h. induction n as [|n IH]; intros m h Hl; [done|]. cbn [blocks].
  rewrite take_app_le, drop_app_le by lia. apply IH. rewrite length_drop. lia.
Qed.
Lemma zeros_length n : length (zeros n) = n.
Proof. apply length_replicate. Qed.
Lemma zeros_add n k : zeros (n + k) = zeros n ++ zeros k.
Proof. apply replicate_add. Qed.
Lemma drop_zeros k n : drop k (zeros n) = zeros (n - k).
Proof. apply drop_replicate. Qed.
(** What is copied after the bytes held. *)
Lemma memcpy_end (l src : list Z) n : (length src <= n)%nat ->
  memcpy (l ++ zeros n) (length l) src = (l ++ src) ++ zeros (n - length src).
Proof.
  intros Hn. unfold memcpy. rewrite take_app_length, <- app_assoc. do 2 f_equal.
  by rewrite <- drop_drop, drop_app_length, drop_zeros.
Qed.

Lemma rest_length (m : list Z) : length (drop (64 * (length m / 64)) m) = (length m mod 64)%nat.
Proof. rewrite length_drop. pose proof (Nat.div_mod_eq (length m) 64). lia. Qed.

Lemma len_add a b : wrap 64 (wrap 64 (8 * Z.of_nat a) + 8 * Z.of_nat b) = wrap 64 (8 * Z.of_nat (a + b)).
Proof. unfold wrap. rewrite Zplus_mod_idemp_l. f_equal. lia. Qed.

(** The state after a message that the buffer still holds the end of. *)
Lemma state_after_app m p : (length m mod 64 + length p < 64)%nat ->
  state_after (m ++ p) = (state_after m)
    <| buf ::= fun b => memcpy b (bufpos (state_after m)) p |>
    <| bufpos ::= fun n => (n + length p)%nat |>
    <| len ::= fun n => wrap 64 (n + 8 * Z.of_nat (length p)) |>.
Proof.
  intros Hp. unfold state_after, set_field, set_buf, set_bufpos, set_len. cbn [magic h len buf bufpos].
  assert ((length (m ++ p) / 64 = length m / 64)%nat) as Ed.
  { rewrite length_app. pose proof (Nat.div_mod_eq (length m) 64).
    symmetry. apply (Nat.div_unique _ 64 _ (length m mod 64 + length p)); lia. }
  pose proof (Nat.div_mod_eq (length m) 64). pose proof (rest_length m) as Hr.
  rewrite Ed, blocks_prefix, drop_app_le by lia. rewrite len_add, !length_app, memcpy_end by lia.
  f_equal. f_equal. f_equal. lia.
Qed.
(** The state after a message that fills the buffer. *)
Lemma state_after_full m p : (length m mod 64 + length p = 64)%nat ->
  state_after (m ++ p) = ripemd160_compress ((state_after m)
    <| buf ::= fun b => memcpy b (bufpos (state_after m)) p |>
    <| bufpos ::= fun n => (n + length p)%nat |>
    <| len ::= fun n => wrap 64 (n + 8 * Z.of_nat (length p)) |>).
Proof.
  intros Hp. unfold ripemd160_compress, set_field, set_buf, set_bufpos, set_len. cbn [magic bufpos buf h len].
  pose proof (Nat.div_mod_eq (length m) 64) as Em. pose proof (rest_length m) as Hr.
  unfold state_after at 2 3. cbn [magic bufpos]. rewrite Hr, Hp. cbn [negb orb Nat.eqb Z.eqb].
  change (negb (ripemd160_magic =? ripemd160_magic) || negb (64 =? 64)%nat) with false. cbv iota.
  unfold state_after. cbn [magic bufpos buf h len].
  assert ((length (m ++ p) / 64 = length m / 64 + 1)%nat) as Ed.
  { rewrite length_app. symmetry. apply (Nat.div_unique _ 64 _ 0); lia. }
  rewrite Ed, blocks_add, blocks_prefix, drop_app_le by lia. cbn [blocks].
  rewrite memcpy_end, len_add, length_app by lia.
  assert (length (drop (64 * (length m / 64)) m ++ p) = 64%nat) as H64 by (rewrite length_app; lia).
  rewrite take_ge by lia. replace (64 - length (drop (64 * (length m / 64)) m) - length p)%nat with 0%nat by lia.
  rewrite app_nil_r. rewrite (drop_ge (m ++ p)) by (rewrite length_app; lia). done.
Qed.

Lemma update_loop_spec fuel m p : (length p < fuel)%nat ->
  update_loop fuel (state_after m) p = state_after (m ++ p).
Proof.
  revert m p. induction fuel as [|fuel IH]; intros m p Hf; [lia|]. cbn [update_loop].
  destruct (Nat.eqb_spec (length p) 0) as [H0|H0].
  { apply length_zero_iff_nil in H0 as ->. by rewrite app_nil_r. }
  pose proof (Nat.mod_upper_bound (length m) 64 ltac:(lia)) as Hm.
  assert (bufpos (state_after m) = length m mod 64)%nat as Eb by apply rest_length.
  destruct (Nat.leb_spec (64 - bufpos (state_after m)) (length p)) as [Hl|Hl].
  - set (k := (64 - bufpos (state_after m))%nat) in *.
    assert (length (take k p) = k) as Hk by (rewrite length_take; lia).
    replace (m ++ p) with ((m ++ take k p) ++ drop k p) by by rewrite <- app_assoc, take_drop.
    rewrite <- IH by (rewrite length_drop; lia).
    f_equal. rewrite state_after_full by lia. by rewrite Hk.
  - by rewrite state_after_app by lia.
Qed.

Lemma update_spec m p : Z.of_nat (length p) < 2 ^ 31 -> ripemd160_update (state_after m) p = state_after (m ++ p).
Proof.
  intros Hp. unfold ripemd160_update. rewrite swrap_small by lia.
  change (magic (state_after m)) with ripemd160_magic. rewrite Z.eqb_refl. cbn [negb orb].
  destruct (Z.ltb_spec (Z.of_nat (length p)) 0); [lia|]. rewrite Nat2Z.id, take_ge by lia.
  apply update_loop_spec. lia.
Qed.

(** The length of a padded message. *)
Lemma padding_length n : length (padding n) =
  (if Nat.leb (n mod 64) 55 then 64 - n mod 64 else 128 - n mod 64)%nat.
Proof.
  unfold padding. cbn [length]. rewrite length_app, zeros_length, le_bytes_length.
  pose proof (Nat.mod_upper_bound n 64 ltac:(lia)). destruct (Nat.leb_spec (n mod 64) 55); lia.
Qed.
(** The bytes of a number that has more. *)
Lemma le_bytes_app n k z : le_bytes (n + k) z = le_bytes n z ++ le_bytes k (z / 256 ^ Z.of_nat n).
Proof.
  revert z. induction n as [|n IH]; intros z; [by rewrite Z.div_1_r|]. cbn [Nat.add le_bytes app].
  rewrite IH, Zdiv.Zdiv_Zdiv, <- Z.pow_succ_r, <- Nat2Z.inj_succ by lia. done.
Qed.
Lemma le_bytes_mod n z : le_bytes n (z mod 256 ^ Z.of_nat n) = le_bytes n z.
Proof.
  revert z. induction n as [|n IH]; intros z; [done|]. cbn [le_bytes].
  rewrite Nat2Z.inj_succ, Z.pow_succ_r, Z.rem_mul_r by lia.
  rewrite (Z.mul_comm 256), Z.mod_add, Z.div_add, Zmod_mod by lia.
  rewrite (Zdiv_small (z mod 256)), Z.add_0_l, IH by (apply Z.mod_pos_bound; lia). done.
Qed.
(** The two words of the length are its eight bytes. *)
Lemma length_words n :
  le_bytes 4 (Z.land n 0xFFFFFFFF) ++ le_bytes 4 (Z.land (Z.shiftr n 32) 0xFFFFFFFF) = le_bytes 8 n.
Proof.
  change 0xFFFFFFFF with (Z.ones 32). rewrite !Z.land_ones, Z.shiftr_div_pow2 by lia.
  change (2 ^ 32) with (256 ^ Z.of_nat 4). by rewrite !le_bytes_mod, <- le_bytes_app.
Qed.

(** The length goes into the last eight bytes of the buffer. *)
Lemma memcpy_words (X Z : list Z) w1 w2 : length X = 56%nat -> length Z = 8%nat ->
  length w1 = 4%nat -> length w2 = 4%nat ->
  memcpy (memcpy (X ++ Z) 56 w1) 60 w2 = X ++ w1 ++ w2.
Proof.
  intros HX HZ H1 H2. unfold memcpy at 2.
  rewrite <- HX, take_app_length, <- drop_drop, drop_app_length.
  unfold memcpy. rewrite !app_assoc. rewrite (take_app_le (X ++ w1)) by (rewrite length_app; lia).
  rewrite take_ge, drop_ge by (rewrite ?length_app, ?length_drop; lia). by rewrite app_nil_r.
Qed.

(** The blocks that the padding completes: one, or two when the length does
    not fit after the bytes held. *)
Lemma padded_one (rest : list Z) n : length rest = (n mod 64)%nat -> (n mod 64 <= 55)%nat ->
  rest ++ padding n = (rest ++ [0x80] ++ zeros (55 - length rest)) ++ le_bytes 8 (wrap 64 (8 * Z.of_nat n)).
Proof.
  intros Hr Hn. unfold padding. destruct (Nat.leb_spec (n mod 64) 55); [|lia].
  by rewrite <- Hr, <- !app_assoc.
Qed.
Lemma padded_two (rest : list Z) n : length rest = (n mod 64)%nat -> (55 < n mod 64)%nat ->
  rest ++ padding n = ((rest ++ [0x80]) ++ zeros (64 - length rest - 1))
    ++ zeros 56 ++ le_bytes 8 (wrap 64 (8 * Z.of_nat n)).
Proof.
  intros Hr Hn. pose proof (Nat.mod_upper_bound n 64 ltac:(lia)).
  unfold padding. destruct (Nat.leb_spec (n mod 64) 55); [lia|]. rewrite <- !app_assoc. cbn [app].
  do 2 f_equal. rewrite app_assoc. f_equal. rewrite <- zeros_add. f_equal. lia.
Qed.

Lemma compress_full h L b :
  ripemd160_compress (mk_state ripemd160_magic h L b 64) = mk_state ripemd160_magic (compress_block b h) L (zeros 64) 0.
Proof. reflexivity. Qed.

Lemma append_bit_spec h0 L l n : (0 < n)%nat ->
  append_bit (mk_state ripemd160_magic h0 L (l ++ zeros n) (length l))
  = mk_state ripemd160_magic h0 L ((l ++ [0x80]) ++ zeros (n - 1)) (S (length l)).
Proof. intros Hn. unfold append_bit, set_field, set_buf, set_bufpos. cbn [magic bufpos buf h len]. by rewrite memcpy_end. Qed.
Lemma append_length_spec h0 L l b n : length l = 56%nat -> length b = 8%nat ->
  append_length (mk_state ripemd160_magic h0 L (l ++ b) n) = mk_state ripemd160_magic h0 L (l ++ le_bytes 8 L) 64.
Proof.
  intros Hl Hb. unfold append_length, set_field, set_buf, set_bufpos. cbn [magic bufpos buf h len].
  by rewrite memcpy_words, length_words by (rewrite ?le_bytes_length; done).
Qed.

(** The digest completes the last block, or the last two. *)
Lemma digest_spec m : ripemd160_digest (state_after m) = Some (reference m).
Proof.
  pose proof (Nat.mod_upper_bound (length m) 64 ltac:(lia)) as Hm.
  pose proof (Nat.div_mod_eq (length m) 64) as Em. pose proof (rest_length m) as Hr.
  unfold ripemd160_digest, reference, state_after. cbn [magic]. rewrite Z.eqb_refl. cbn [negb].
  set (n := (length m / 64)%nat) in *. set (rest := drop (64 * n) m) in *.
  assert (length (m ++ padding (length m)) / 64 = n + (if Nat.leb (length m mod 64) 55 then 1 else 2))%nat as ->.
  { rewrite length_app, padding_length. symmetry.
    destruct (Nat.leb_spec (length m mod 64) 55); apply (Nat.div_unique _ 64 _ 0); lia. }
  rewrite blocks_add, blocks_prefix, drop_app_le, append_bit_spec by lia. fold rest.
  unfold make_room. cbn [bufpos].
  destruct (Nat.leb_spec (length m mod 64) 55) as [Hle|Hle];
    destruct (Nat.ltb_spec 56 (S (length rest))) as [Hlt|Hlt]; try lia.
  - replace (64 - length rest - 1)%nat with (55 - length rest + 8)%nat by lia. rewrite zeros_add, app_assoc.
    assert (length ((rest ++ [0x80]) ++ zeros (55 - length rest)) = 56%nat) as H56.
    { rewrite !length_app, zeros_length. cbn [length]. lia. }
    rewrite append_length_spec, compress_full by done. cbn [magic h]. rewrite Z.eqb_refl, padded_one by lia.
    rewrite app_assoc. cbn [blocks]. rewrite take_ge by (rewrite length_app, le_bytes_length; lia). done.
  - assert (length ((rest ++ [0x80]) ++ zeros (64 - length rest - 1)) = 64%nat) as H64.
    { rewrite !length_app, zeros_length. cbn [length]. lia. }
    rewrite padded_two by lia. cbn [blocks]. rewrite take_app_length', drop_app_length' by done.
    unfold set_field, set_bufpos. cbn [magic bufpos buf h len]. rewrite compress_full.
    change (zeros 64) with (zeros 56 ++ zeros 8).
    rewrite append_length_spec, compress_full by apply zeros_length. cbn [magic h].
    rewrite Z.eqb_refl, (take_ge (zeros 56 ++ _)); [done|]. rewrite length_app, zeros_length, le_bytes_length. lia.
Qed.

Lemma pieces_spec (data : list (list Z)) :
  Forall (fun p => Z.of_nat (length p) < 2 ^ 31) data ->
  digest_suffix_ripemd160 data = Ok (reference (concat data)).
Proof.
  intros Hd. unfold digest_suffix_ripemd160. change ripemd160_init with (state_after []).
  enough (foldl ripemd160_update (state_after []) data = state_after (concat data)) as ->.
  { by rewrite digest_spec. }
  change (concat data) with ([] ++ concat data). generalize (@nil Z) as m.
  induction Hd as [|p data Hp _ IH]; intros m; [by rewrite app_nil_r|]. cbn [foldl concat].
  by rewrite update_spec, IH, app_assoc.
Qed.

(** C31: the checksum of data given in pieces is the digest of the whole
    message: padding it with a bit, zeros and its length, and compressing its
    64-byte blocks in order, gives what the buffer gives however the bytes
    arrive.  No piece may reach 2^31 bytes, which is a negative length. *)
Theorem digest_of_pieces (data : list (list Z)) :
  Forall (fun p => Z.of_nat (length p) < 2 ^ 31) data ->
  digest_suffix_ripemd160 data = Ok (reference (concat data)).
Proof. apply pieces_spec. Qed.
(** "abc" in two pieces *)
Lemma digest_of_pieces_witness :
  digest_suffix_ripemd160 [[97]; [98; 99]] = Ok (reference [97; 98; 99]) /\
  reference [97; 98; 99] = [0x8e; 0xb2; 0x08; 0xf7; 0xe0; 0x5d; 0x98; 0x7a; 0x9b; 0x04; 0x4a; 0x8e; 0x98; 0xc6;
                            0xb0; 0x87; 0xf1; 0x5a; 0x0b; 0xfc].
Proof.
  split; [|by vm_compute]. apply (digest_of_pieces [[97]; [98; 99]]).
  repeat constructor; done.
Defined.

Lemma digest_inv data bs : digest_suffix_ripemd160 data = Ok bs -> exists l, bs = line_bytes l.
Proof.
  unfold digest_suffix_ripemd160, ripemd160_digest. intros H. apply some_or_Ok in H.
  destruct (negb _); [done|]. cbv zeta in H. destruct (magic _ =? _); [|done].
  injection H as <-. by eexists.
Qed.
Lemma digest_length data bs : digest_suffix_ripemd160 data = Ok bs -> length bs = 20%nat.
Proof.
  intros [l ->]%digest_inv. unfold line_bytes. by rewrite !length_app, !le_bytes_length.
Qed.
Lemma digest_bytes data bs : digest_suffix_ripemd160 data = Ok bs -> bytes bs.
Proof.
  intros [l ->]%digest_inv. unfold line_bytes, bytes. rewrite !Forall_app. repeat split; apply le_bytes_bytes.
Qed.

End Ripemd160.
