(* ===== verification/Base58.v ===== *)
(** Bytes as base-58 text ([libraries/abieos/src/crypto.cpp],
    [base58_to_binary] and [binary_to_base58]).  Both multiply a number, kept as
    its digits from the least significant, and add the next digit; zeros at the
    front are counted apart. *)
From S2P Require Import Prelude Crypto Name.
From Stdlib Require Import Ascii.
From Stdlib Require String.
Import Crypto.
Open Scope string_scope.
Open Scope list_scope.
Open Scope Z_scope.

Module Base58.

(** ** The alphabet *)

Definition base58_chars : list ascii :=
  String.list_ascii_of_string "123456789ABCDEFGHJKLMNPQRSTUVWXYZabcdefghijkmnopqrstuvwxyz".
(** [create_base58_map]: the loop ends at [sizeof(base58_chars)], which counts
    the zero that ends the string. *)
Definition create_base58_map : list Z :=
  foldl (fun m ic => <[Z.to_nat (Name.code ic.2) := Z.of_nat ic.1]> m) (replicate 256 (-1))
    (imap pair (base58_chars ++ [Ascii.zero])).
Definition base58_map : list Z := Eval vm_compute in create_base58_map.
Definition digit_of (c : ascii) : Z := default (-1) (base58_map !! Z.to_nat (Name.code c)).
Definition char_of (d : Z) : ascii := default Ascii.zero (base58_chars !! Z.to_nat d).

(** ** Text to bytes *)

(** The loop over the bytes so far: the bytes after it and the carry. *)
Fixpoint bytes_loop (ds : list Z) (carry : Z) : list Z * Z :=
  match ds with
  | [] => ([], carry)
  | b :: ds =>
      let x := b * 58 + carry in
      let '(ds, carry) := bytes_loop ds (Z.shiftr x 8) in
      (wrap 8 x :: ds, carry)
  end.
Definition read_digit (ds : list Z) (c : ascii) : result (list Z) :=
  let carry := digit_of c in
  _ ← check (0 <=? carry) "Expected key";
  let '(ds, carry) := bytes_loop ds carry in
  Ok (if carry =? 0 then ds else ds ++ [wrap 8 carry]).
(** A zero byte for every ['1'] the text starts with. *)
Definition ones (s : list ascii) : nat := length (take_while (fun c => Ascii.eqb c "1"%char) s).
Definition base58_to_binary (prefix : list Z) (s : list ascii) : result (list Z) :=
  ds ← foldM read_digit s [];
  Ok (prefix ++ reverse (ds ++ replicate (ones s) 0)).

(** ** Bytes to text *)

Fixpoint digits_loop (ds : list ascii) (carry : Z) : list ascii * Z :=
  match ds with
  | [] => ([], carry)
  | d :: ds =>
      let x := Z.shiftl (digit_of d) 8 + carry in
      let '(ds, carry) := digits_loop ds (Z.quot x 58) in
      (char_of (Z.rem x 58) :: ds, carry)
  end.
(** [while (carry)]: a carry below 256 has two digits at most. *)
Fixpoint push_carry (fuel : nat) (carry : Z) : list ascii :=
  match fuel with
  | O => []
  | S fuel => if carry =? 0 then [] else char_of (Z.rem carry 58) :: push_carry fuel (Z.quot carry 58)
  end.
Definition write_byte (ds : list ascii) (b : Z) : list ascii :=
  let '(ds, carry) := digits_loop ds b in ds ++ push_carry 2 carry.
Definition leading_zeros (bin : list Z) : nat := length (take_while (fun b => b =? 0) bin).
Definition binary_to_base58 (bin : list Z) : list ascii :=
  reverse (foldl write_byte [] bin ++ replicate (leading_zeros bin) "1"%char).

Definition to_base58 (d : list Z) : list ascii := binary_to_base58 d.
Definition from_base58 (s : list ascii) : result (list Z) := base58_to_binary [] s.

(** ** Numbers and their digits *)

(** Digits of a base, from the least significant. *)
Definition value (b : Z) (ds : list Z) : Z := foldr (fun d acc => d + b * acc) 0 ds.
Definition in_base (b : Z) (ds : list Z) : Prop := Forall (fun d => 0 <= d < b) ds.
Definition canonical (b : Z) (ds : list Z) : Prop := in_base b ds /\ last ds <> Some 0.

(** Multiplying by [m] and adding the carry. *)
Fixpoint mul_add (b m : Z) (ds : list Z) (carry : Z) : list Z * Z :=
  match ds with
  | [] => ([], carry)
  | d :: ds =>
      let x := d * m + carry in
      let '(ds, carry) := mul_add b m ds (x / b) in (x mod b :: ds, carry)
  end.

Section digits.
Context (b : Z) (Hb : 1 < b).

Lemma value_cons d ds : value b (d :: ds) = d + b * value b ds.
Proof. reflexivity. Qed.
Lemma value_nonneg ds : in_base b ds -> 0 <= value b ds.
Proof. induction 1 as [|d ds Hd _ IH]; [done|]. rewrite value_cons. nia. Qed.
Lemma value_app l1 l2 : value b (l1 ++ l2) = value b l1 + b ^ Z.of_nat (length l1) * value b l2.
Proof.
  induction l1 as [|d l1 IH]; cbn [app length]; [change (value b []) with 0; lia|]. rewrite !value_cons.
  rewrite IH, Nat2Z.inj_succ, Z.pow_succ_r by lia. ring.
Qed.

Lemma canonical_tail d ds : canonical b (d :: ds) -> 0 <= d < b /\ canonical b ds.
Proof.
  intros [Hi Hl]. apply Forall_cons in Hi as [Hd Hi]. split; [done|]. split; [done|].
  destruct ds; [done|]. exact Hl.
Qed.
Lemma canonical_pos ds : canonical b ds -> ds <> [] -> 0 < value b ds.
Proof.
  induction ds as [|d ds IH]; [done|]. intros Hc _. pose proof (canonical_tail _ _ Hc) as [Hd Ht].
  rewrite value_cons. destruct ds as [|e ds].
  - destruct Hc as [_ Hl]. cbn in *. assert (d <> 0) by congruence. lia.
  - specialize (IH Ht). assert (0 < value b (e :: ds)) by by apply IH. nia.
Qed.
(** A number has one canonical list of digits. *)
Lemma canonical_unique l1 l2 : canonical b l1 -> canonical b l2 -> value b l1 = value b l2 -> l1 = l2.
Proof.
  revert l2. induction l1 as [|d l1 IH]; intros [|e l2] H1 H2 E; [done| | |].
  - pose proof (canonical_pos _ H2 ltac:(done)). change (value b []) with 0 in *. lia.
  - pose proof (canonical_pos _ H1 ltac:(done)). change (value b []) with 0 in *. lia.
  - apply canonical_tail in H1 as [Hd H1]. apply canonical_tail in H2 as [He H2].
    rewrite !value_cons in E.
    assert (value b l1 = value b l2) as Ev by (destruct (Z.lt_trichotomy (value b l1) (value b l2)) as [|[|]]; nia).
    rewrite Ev in E. assert (d = e) as -> by lia. f_equal. by apply IH.
Qed.

Lemma mul_add_spec m ds c ds' c' : 0 < m -> in_base b ds -> 0 <= c < m -> mul_add b m ds c = (ds', c') ->
  in_base b ds' /\ 0 <= c' < m /\ length ds' = length ds /\
  value b ds * m + c = value b ds' + b ^ Z.of_nat (length ds) * c'.
Proof.
  intros Hm Hi. revert c ds' c'. induction Hi as [|d ds Hd _ IH]; intros c ds' c' Hc E; cbn [mul_add] in E.
  { injection E as <- <-. cbn. split; [constructor|lia]. }
  destruct (mul_add b m ds ((d * m + c) / b)) as [l k] eqn:Er. injection E as <- <-.
  assert (0 <= (d * m + c) / b < m) as Hq.
  { split; [apply Z.div_pos; nia|]. apply Z.div_lt_upper_bound; nia. }
  destruct (IH _ _ _ Hq Er) as (Hl & Hk & El & Ev).
  pose proof (Z.mod_pos_bound (d * m + c) b ltac:(lia)). pose proof (Z.div_mod (d * m + c) b ltac:(lia)).
  repeat split; [by constructor|lia|lia|cbn; congruence|].
  rewrite !value_cons. cbn [length]. rewrite Nat2Z.inj_succ, Z.pow_succ_r by lia. nia.
Qed.
(** No carry is left only when the last digit did not become zero. *)
Lemma mul_add_last m ds c ds' : 0 < m -> canonical b ds -> 0 <= c -> mul_add b m ds c = (ds', 0) -> last ds' <> Some 0.
Proof.
  intros Hm. revert c ds'. induction ds as [|d ds IH]; intros c ds' Hc H0 E; cbn [mul_add] in E.
  { by injection E as <- <-. }
  destruct (mul_add b m ds ((d * m + c) / b)) as [l k] eqn:Er. injection E as <- ->.
  pose proof (canonical_tail _ _ Hc) as [Hd Ht].
  assert (0 <= (d * m + c) / b) as Hq by (apply Z.div_pos; nia).
  destruct ds as [|e ds].
  - cbn [mul_add] in Er. injection Er as <- Ez. destruct Hc as [_ Hl]. cbn in *.
    assert (d <> 0) by congruence. intros [= Hz].
    pose proof (Z.div_mod (d * m + c) b ltac:(lia)). nia.
  - specialize (IH _ _ Ht Hq Er). cbn [mul_add] in Er.
    destruct (mul_add b m ds _) as [l' k'] in Er. injection Er as <- _. exact IH.
Qed.

(** What is pushed after the digits. *)
Lemma canonical_push ds c ps : in_base b ds -> canonical b ps -> (ps = [] -> last ds <> Some 0) ->
  value b ps = c -> canonical b (ds ++ ps) /\
  value b (ds ++ ps) = value b ds + b ^ Z.of_nat (length ds) * c.
Proof.
  intros Hi [Hp Hl] Hn <-. split; [|apply value_app]. split; [by apply Forall_app|].
  destruct ps as [|p ps]; [rewrite app_nil_r; by apply Hn|]. by rewrite last_app_cons.
Qed.
End digits.

(** ** The loops are multiplications *)

Definition alphabet (c : ascii) : Prop := c ∈ base58_chars.

Lemma digit_char d : 0 <= d < 58 -> digit_of (char_of d) = d.
Proof.
  intros Hd. assert (forall n, (n < 58)%nat -> digit_of (char_of (Z.of_nat n)) = Z.of_nat n) as H.
  { intros n Hn. do 58 (destruct n as [|n]; [reflexivity|]). lia. }
  specialize (H (Z.to_nat d)). rewrite Z2Nat.id in H by lia. apply H. lia.
Qed.
Lemma alphabet_digit c : alphabet c -> 0 <= digit_of c < 58 /\ char_of (digit_of c) = c.
Proof.
  unfold alphabet. intros [i Hi]%list_elem_of_lookup.
  do 58 (destruct i as [|i]; [injection Hi as <-; by vm_compute|]). done.
Qed.
Lemma char_alphabet d : 0 <= d < 58 -> alphabet (char_of d).
Proof.
  intros Hd. unfold alphabet, char_of. destruct (lookup_lt_is_Some_2 base58_chars (Z.to_nat d)) as [c Hc].
  { change (length base58_chars) with 58%nat. lia. }
  rewrite Hc. by eapply list_elem_of_lookup_2.
Qed.

Lemma bytes_loop_mul ds c : bytes_loop ds c = mul_add 256 58 ds c.
Proof.
  revert c. induction ds as [|d ds IH]; intros c; [done|]. cbn [bytes_loop mul_add].
  rewrite IH, Z.shiftr_div_pow2 by lia. done.
Qed.
Lemma digits_loop_mul ds c : in_base 58 ds -> 0 <= c ->
  digits_loop (char_of <$> ds) c = prod_map (fmap char_of) id (mul_add 58 256 ds c).
Proof.
  intros Hi. revert c. induction Hi as [|d ds Hd _ IH]; intros c Hc; [done|]. cbn [fmap list_fmap digits_loop mul_add].
  rewrite digit_char, Z.shiftl_mul_pow2 by lia. change (2 ^ 8) with 256.
  rewrite Z.quot_div_nonneg, Z.rem_mod_nonneg by lia. rewrite IH by (apply Z.div_pos; lia).
  destruct (mul_add _ _ _ _) as [l k]. done.
Qed.

(** The digits of a carry. *)
Lemma push_carry_spec c : 0 <= c < 256 -> exists ps, push_carry 2 c = char_of <$> ps /\
  canonical 58 ps /\ value 58 ps = c /\ (ps = [] -> c = 0).
Proof.
  intros Hc. cbn [push_carry].
  rewrite !Z.quot_div_nonneg, !Z.rem_mod_nonneg by (try apply Z.div_pos; lia).
  pose proof (Z.mod_pos_bound c 58 ltac:(lia)). pose proof (Z.div_mod c 58 ltac:(lia)).
  destruct (Z.eqb_spec c 0) as [->|Hn]; [by exists []; split; [done|]; split; [split; [constructor|done]|]|].
  destruct (Z.eqb_spec (c / 58) 0) as [Hz|Hz].
  - exists [c mod 58]. rewrite Hz in *. split; [done|]. split; [split|split].
    + by apply Forall_singleton.
    + cbn. intros [= E]. lia.
    + unfold value, foldr. lia.
    + done.
  - assert (0 < c / 58 < 58) by (split; [pose proof (Z.div_pos c 58); lia | apply Z.div_lt_upper_bound; lia]).
    rewrite (Z.mod_small (c / 58)) by lia. exists [c mod 58; c / 58]. split; [done|]. split; [split|split].
    + repeat constructor; lia.
    + cbn. intros [= E]. lia.
    + unfold value, foldr. lia.
    + done.
Qed.

(** One byte more of the bytes written, one digit more of the text read. *)
Lemma write_byte_spec ds b : canonical 58 ds -> 0 <= b < 256 ->
  exists ds', write_byte (char_of <$> ds) b = char_of <$> ds' /\ canonical 58 ds' /\
    value 58 ds' = value 58 ds * 256 + b.
Proof.
  intros Hc Hb. unfold write_byte. rewrite digits_loop_mul by (try apply Hc; lia).
  destruct (mul_add 58 256 ds b) as [l k] eqn:E. cbn [prod_map fst snd id].
  destruct (mul_add_spec 58 ltac:(lia) 256 ds b l k ltac:(lia) (proj1 Hc) Hb E) as (Hl & Hk & El & Ev).
  destruct (push_carry_spec k Hk) as (ps & -> & Hp & Hv & Hn). exists (l ++ ps). rewrite fmap_app. split; [done|].
  rewrite Ev, <- El. apply (canonical_push 58); [done|done| |done].
  intros Hz. specialize (Hn Hz) as ->. apply (mul_add_last 58 ltac:(lia) 256 ds b); [lia|done|lia|done].
Qed.
Lemma read_digit_spec ds c : canonical 256 ds -> 0 <= digit_of c < 58 ->
  exists ds', read_digit ds c = Ok ds' /\ canonical 256 ds' /\ value 256 ds' = value 256 ds * 58 + digit_of c.
Proof.
  intros Hc Hd. unfold read_digit. rewrite check_true by (apply Z.leb_le; lia). rewrite bytes_loop_mul.
  destruct (mul_add 256 58 ds (digit_of c)) as [l k] eqn:E.
  destruct (mul_add_spec 256 ltac:(lia) 58 ds _ l k ltac:(lia) (proj1 Hc) Hd E) as (Hl & Hk & El & Ev).
  eexists. split; [reflexivity|]. rewrite Ev, <- El. destruct (Z.eqb_spec k 0) as [->|Hn].
  - rewrite Z.mul_0_r, Z.add_0_r. split; [split; [done|]|done].
    apply (mul_add_last 256 ltac:(lia) 58 ds (digit_of c)); [lia|done|lia|done].
  - rewrite wrap_small by lia. apply (canonical_push 256); [done| |done|cbn; lia].
    split; [by repeat constructor; lia|]. cbn. congruence.
Qed.

(** The number a text or a list of bytes is, from the most significant. *)
Definition number (b : Z) (ds : list Z) : Z := foldl (fun v d => v * b + d) 0 ds.

Lemma number_value b ds : number b ds = value b (reverse ds).
Proof.
  unfold number. induction ds as [|d ds IH] using rev_ind; [done|].
  rewrite foldl_app, reverse_app. cbn. rewrite IH. fold (value b (reverse ds)). lia.
Qed.
Lemma write_all_spec bin : bytes bin -> exists ds, foldl write_byte [] bin = char_of <$> ds /\
  canonical 58 ds /\ value 58 ds = number 256 bin.
Proof.
  induction bin as [|b bin IH] using rev_ind; intros Hb; [exists []; split; [done|]; split; [split; [constructor|done]|done]|].
  apply Forall_app in Hb as [Hl Hb]. apply Forall_cons in Hb as [Hb _].
  destruct (IH Hl) as (ds & E & Hc & Hv). destruct (write_byte_spec ds b Hc Hb) as (ds' & E' & Hc' & Hv').
  exists ds'. rewrite foldl_app. cbn [foldl]. rewrite E, E'. split; [done|]. split; [done|].
  unfold number. rewrite foldl_app. cbn [foldl]. fold (number 256 bin). lia.
Qed.
Lemma read_all_spec s : Forall (fun c => 0 <= digit_of c < 58) s -> exists ds, foldM read_digit s [] = Ok ds /\
  canonical 256 ds /\ value 256 ds = number 58 (digit_of <$> s).
Proof.
  induction s as [|c s IH] using rev_ind; intros Hb; [exists []; split; [done|]; split; [split; [constructor|done]|done]|].
  apply Forall_app in Hb as [Hl Hb]. apply Forall_cons in Hb as [Hb _].
  destruct (IH Hl) as (ds & E & Hc & Hv). destruct (read_digit_spec ds c Hc Hb) as (ds' & E' & Hc' & Hv').
  exists ds'. rewrite foldM_app, E. cbn. rewrite E'. cbn. split; [done|]. split; [done|].
  rewrite fmap_app. unfold number. rewrite foldl_app. cbn [foldl fmap list_fmap]. fold (number 58 (digit_of <$> s)). lia.
Qed.

(** ** Round trips *)

(** The front of a list and the rest, which does not go on with it. *)
Lemma take_while_split {A} (p : A -> bool) (l : list A) :
  exists r, l = take_while p l ++ r /\ (forall x r', r = x :: r' -> p x = false).
Proof.
  induction l as [|x l (r & E & Hr)]; [by exists []|]. cbn [take_while]. destruct (p x) eqn:Hp.
  - exists r. split; [cbn; by f_equal | exact Hr].
  - exists (x :: l). split; [done|]. by intros y r' [= <- <-].
Qed.
Lemma take_while_front {A} (p : A -> bool) (x : A) n r : p x = true ->
  (forall y r', r = y :: r' -> p y = false) -> take_while p (replicate n x ++ r) = replicate n x.
Proof.
  intros Hx Hr. induction n as [|n IH]; cbn [replicate app take_while].
  - destruct r as [|y r]; [done|]. cbn. by rewrite (Hr y r eq_refl).
  - rewrite Hx. by f_equal.
Qed.
Lemma all_replicate {A} (p : A -> bool) (x : A) l :
  (forall y, p y = true -> y = x) -> take_while p l = replicate (length (take_while p l)) x.
Proof.
  intros Hp. symmetry. apply replicate_as_Forall_2; [done|]. apply (Forall_impl _ _ _ (take_while_Forall p l)).
  intros y Hy. symmetry. by apply Hp.
Qed.

Lemma number_zeros b n ds : number b (replicate n 0 ++ ds) = number b ds.
Proof. unfold number. rewrite foldl_app. f_equal. induction n as [|n IH]; [done|]. exact IH. Qed.

(** Digits whose first is not zero, from the other end. *)
Lemma canonical_reverse b ds : in_base b ds -> (forall d ds', ds = d :: ds' -> d <> 0) -> canonical b (reverse ds).
Proof.
  intros Hi Hn. split; [by apply Forall_reverse|]. destruct ds as [|d ds]; [done|].
  rewrite reverse_cons, last_snoc. specialize (Hn d ds eq_refl). congruence.
Qed.
Lemma canonical_head b ds d r : canonical b ds -> reverse ds = d :: r -> d <> 0.
Proof.
  intros [_ Hl] E. apply (f_equal reverse) in E. rewrite reverse_involutive, reverse_cons in E. subst.
  rewrite last_snoc in Hl. congruence.
Qed.

Lemma is_one c : alphabet c -> Ascii.eqb c "1" = (digit_of c =? 0).
Proof.
  intros Hc. destruct (alphabet_digit c Hc) as [_ E].
  destruct (Ascii.eqb_spec c "1") as [->|Hn]; [done|]. symmetry. apply Z.eqb_neq. intros Hz.
  apply Hn. rewrite <- E, Hz. done.
Qed.

(** The text of bytes: ['1']s, then the digits of their number. *)
Lemma text_of_bytes n r : bytes r -> (forall b r', r = b :: r' -> b <> 0) ->
  exists ds, binary_to_base58 (replicate n 0 ++ r) = replicate n "1"%char ++ (char_of <$> reverse ds) /\
    canonical 58 ds /\ value 58 ds = value 256 (reverse r).
Proof.
  intros Hr Hn. assert (bytes (replicate n 0 ++ r)) as Hb.
  { apply Forall_app. split; [|done]. apply Forall_replicate. lia. }
  destruct (write_all_spec _ Hb) as (ds & E & Hc & Hv). rewrite number_zeros, number_value in Hv.
  exists ds. split; [|done]. unfold binary_to_base58, leading_zeros.
  rewrite E, take_while_front, length_replicate, reverse_app, reverse_replicate; [|done|].
  - by rewrite fmap_reverse.
  - intros b r' ->. apply Z.eqb_neq. by apply (Hn b r').
Qed.
(** The bytes of a text: zeros, then the digits of its number. *)
Lemma bytes_of_text prefix n r : Forall alphabet r -> (forall c r', r = c :: r' -> c <> "1"%char) ->
  exists ds, base58_to_binary prefix (replicate n "1"%char ++ r) = Ok (prefix ++ replicate n 0 ++ reverse ds) /\
    canonical 256 ds /\ value 256 ds = value 58 (reverse (digit_of <$> r)).
Proof.
  intros Hr Hn. assert (Forall (fun c => 0 <= digit_of c < 58) (replicate n "1"%char ++ r)) as Hb.
  { apply Forall_app. split; [by apply Forall_replicate; vm_compute|].
    eapply Forall_impl; [exact Hr|]. intros c Hc. by apply alphabet_digit. }
  destruct (read_all_spec _ Hb) as (ds & E & Hc & Hv).
  rewrite fmap_app, fmap_replicate in Hv. change (digit_of "1") with 0 in Hv. rewrite number_zeros, number_value in Hv.
  exists ds. split; [|done]. unfold base58_to_binary, ones.
  rewrite E, take_while_front, length_replicate; [|done|].
  - cbn. by rewrite reverse_app, reverse_replicate.
  - intros c r' ->. destruct (Ascii.eqb_spec c "1") as [Ec|]; [|done]. by apply (Hn c r') in Ec.
Qed.

Lemma bytes_roundtrip prefix bin : bytes bin -> base58_to_binary prefix (binary_to_base58 bin) = Ok (prefix ++ bin).
Proof.
  intros Hb. destruct (take_while_split (fun b => b =? 0) bin) as (r & E & Hr).
  rewrite (all_replicate (fun b => b =? 0) 0) in E by (intros y Hy; by apply Z.eqb_eq).
  set (n := length _) in E. assert (forall b r', r = b :: r' -> b <> 0) as Hn.
  { intros b r' Er. apply Z.eqb_neq. by apply (Hr b r'). }
  assert (bytes r) as Hbr by (rewrite E in Hb; by apply Forall_app in Hb as [_ ?]).
  destruct (text_of_bytes n r Hbr Hn) as (ds & Et & Hc & Hv). rewrite E at 1. rewrite Et.
  destruct (bytes_of_text prefix n (char_of <$> reverse ds)) as (bs & -> & Hcb & Hvb).
  - apply Forall_fmap, Forall_reverse. eapply Forall_impl; [apply Hc|]. intros d Hd. by apply char_alphabet.
  - intros c r' Ec. destruct (reverse ds) as [|d r''] eqn:Ed; [done|]. injection Ec as <- _.
    pose proof (canonical_head _ _ _ _ Hc Ed) as Hd.
    assert (0 <= d < 58) as Hd58 by (destruct Hc as [Hi _]; apply Forall_reverse in Hi; rewrite Ed in Hi; by inversion Hi).
    intros E1. rewrite <- (digit_char d), E1 in Hd by done. by apply Hd.
  - rewrite E. do 2 f_equal. f_equal. rewrite <- (reverse_involutive r). f_equal.
    apply (canonical_unique 256 ltac:(lia)); [done|by apply canonical_reverse|].
    rewrite Hvb, <- Hv. f_equal. rewrite <- list_fmap_compose, <- fmap_reverse, reverse_involutive.
    rewrite <- (list_fmap_id ds) at 2. apply list_fmap_ext. intros i d Hd. apply digit_char.
    apply (proj1 (Forall_forall _ _) (proj1 Hc)). by eapply list_elem_of_lookup_2.
Qed.

Lemma text_roundtrip s : Forall alphabet s -> exists bin, from_base58 s = Ok bin /\ bytes bin /\ to_base58 bin = s.
Proof.
  intros Hs. destruct (take_while_split (fun c => Ascii.eqb c "1") s) as (r & E & Hr).
  rewrite (all_replicate (fun c => Ascii.eqb c "1") "1"%char) in E by (intros y Hy; by apply Ascii.eqb_eq).
  set (n := length _) in E. assert (Forall alphabet r) as Har by (rewrite E in Hs; by apply Forall_app in Hs as [_ ?]).
  destruct (bytes_of_text [] n r Har) as (bs & Eb & Hc & Hv).
  { intros c r' Er ->. by specialize (Hr _ _ Er). }
  unfold from_base58, to_base58. rewrite E, Eb. cbn [app].
  exists (replicate n 0 ++ reverse bs). split; [done|]. assert (bytes (reverse bs)) as Hb by apply Forall_reverse, Hc.
  split; [apply Forall_app; split; [apply Forall_replicate; lia|done]|].
  destruct (text_of_bytes n (reverse bs) Hb) as (ds & -> & Hcd & Hvd).
  { intros b r' Eb'. by eapply canonical_head. }
  f_equal. rewrite reverse_involutive, Hv in Hvd.
  assert (ds = reverse (digit_of <$> r)) as ->.
  { apply (canonical_unique 58 ltac:(lia)); [done| |done]. apply canonical_reverse.
    - apply Forall_fmap. eapply Forall_impl; [exact Har|]. intros c Hc'. by apply alphabet_digit.
    - intros d r' Ed. destruct r as [|c r'']; [done|]. injection Ed as <- _. apply Z.eqb_neq.
      apply Forall_cons in Har as [Ha _]. rewrite <- is_one by done. by apply (Hr c r''). }
  rewrite reverse_involutive, <- list_fmap_compose. rewrite <- (list_fmap_id r) at 2.
  apply list_fmap_ext. intros i c Hi. apply alphabet_digit. rewrite Forall_forall in Har. apply Har.
  by eapply list_elem_of_lookup_2.
Qed.

(** Bytes survive being written in base 58, leading zeros included, and
    a text over the alphabet is the text of the bytes it is read as: the two
    conversions are inverse to each other. *)
Theorem base58_roundtrip (bin : list Z) (s : list ascii) :
  bytes bin -> Forall alphabet s ->
  from_base58 (to_base58 bin) = Ok bin /\
  exists bin', from_base58 s = Ok bin' /\ bytes bin' /\ to_base58 bin' = s.
Proof. intros Hb Hs. split; [by apply bytes_roundtrip | by apply text_roundtrip]. Qed.
Lemma base58_roundtrip_witness :
  (from_base58 (to_base58 [0; 0; 40; 127; 180; 205]) = Ok [0; 0; 40; 127; 180; 205] /\
   exists bin', from_base58 (String.list_ascii_of_string "11233QC4") = Ok bin' /\ bytes bin' /\
     to_base58 bin' = String.list_ascii_of_string "11233QC4") /\
  to_base58 [0; 0; 40; 127; 180; 205] = String.list_ascii_of_string "11233QC4".
Proof.
  split; [apply base58_roundtrip | by vm_compute].
  - repeat (apply Forall_cons; split; [lia|]). constructor.
  - repeat (apply Forall_cons; split; [apply (bool_decide_unpack _); by vm_compute|]). constructor.
Defined.

(** The zero that ends the table of characters is a digit too, the 59th: a
    text with that character is read, as the bytes of another text. *)
Lemma zero_is_a_digit : digit_of Ascii.zero = 58 /\
  from_base58 [Ascii.zero] = from_base58 (String.list_ascii_of_string "21").
Proof. split; by vm_compute. Qed.

End Base58.
