(* ===== verification/Binary.v ===== *)
(** The binary format of actions, rows and events
    ([libraries/abieos/include/eosio/to_bin.hpp], [from_bin.hpp], [stream.hpp]).
    A codec is a writer and a reader of one type; the reader takes what it
    needs from the front of the stream.  The interface [Lawful] is the round
    trip; codecs built from lawful ones are lawful. *)
From S2P Require Import Prelude Crypto.
From Stdlib Require Import Ascii.
From Stdlib Require String.
Open Scope string_scope.
Open Scope list_scope.
Open Scope Z_scope.

Module Binary.
Import Crypto.

Definition overrun : error := Check "Stream overrun".
Definition invalid_varuint : error := Check "Invalid varuint encoding".

(** [do { ... } while (val)]: seven bits a byte, the high bit on all but the
    last. *)
Fixpoint varuint_bytes (fuel : nat) (val : Z) : list Z :=
  match fuel with
  | O => []
  | S fuel' =>
      let b := Z.land val 0x7f in
      let val := Z.shiftr val 7 in
      if 0 <? val then Z.lor b 0x80 :: varuint_bytes fuel' val else [b]
  end.
Definition varuint32_to_bin (val : Z) : result (list Z) :=
  _ ← check (Z.shiftr val 32 =? 0) "Varuint too big"; Ok (varuint_bytes 5 val).

(** [shift < limit] bounds the rounds: 5 for 32 bits, 10 for 64. *)
Fixpoint varuint_read (fuel : nat) (w acc shift : Z) (stream : list Z) : result (Z * list Z) :=
  match fuel with
  | O => Err invalid_varuint
  | S fuel' =>
      match stream with
      | [] => Err overrun
      | b :: stream =>
          let acc := Z.lor acc (wrap w (Z.shiftl (Z.land b 0x7f) shift)) in
          if negb (Z.land b 0x80 =? 0) then varuint_read fuel' w acc (shift + 7) stream
          else Ok (acc, stream)
      end
  end.
Definition varuint32_from_bin (stream : list Z) : result (Z * list Z) := varuint_read 5 32 0 0 stream.
Definition varuint64_from_bin (stream : list Z) : result (Z * list Z) := varuint_read 10 64 0 0 stream.

(** [stream.read(dest, n)] *)
Definition read (n : nat) (stream : list Z) : result (list Z * list Z) :=
  if Nat.leb n (length stream) then Ok (take n stream, drop n stream) else Err overrun.

Record codec (A : Type) : Type := mk_codec {
  to_bin : A -> result (list Z);
  from_bin : list Z -> result (A * list Z)
}.
Arguments mk_codec {A}.
Arguments to_bin {A}.
Arguments from_bin {A}.

(** What was written is read back, and the rest of the stream is left. *)
Class Lawful {A} (c : codec A) (P : A -> Prop) : Prop :=
  round_trip : forall a bs rest, P a -> to_bin c a = Ok bs -> from_bin c (bs ++ rest) = Ok (a, rest).

(** An unsigned integer of [n] bytes: bitwise serialization, little-endian. *)
Definition uint (n : nat) : codec Z :=
  mk_codec (fun z => Ok (le_bytes n z)) (fun s => '(bs, s) ← read n s; Ok (of_le bs, s)).
Definition varuint32 : codec Z := mk_codec varuint32_to_bin varuint32_from_bin.

Definition bool_codec : codec bool :=
  mk_codec (fun b : bool => Ok [if b then 1 else 0]) (fun s => '(bs, s) ← read 1 s; Ok (negb (of_le bs =? 0), s)).

(** A vector of bytes and a string: the size, then the bytes. *)
Definition bytes_codec : codec (list Z) :=
  mk_codec (fun l => n ← varuint32_to_bin (Z.of_nat (length l)); Ok (n ++ l))
           (fun s => '(n, s) ← varuint32_from_bin s; read (Z.to_nat n) s).
Definition bytes_of_string (str : string) : list Z :=
  (fun c => Z.of_N (N_of_ascii c)) <$> String.list_ascii_of_string str.
Definition string_of_bytes (l : list Z) : string :=
  String.string_of_list_ascii ((fun b => ascii_of_N (Z.to_N b)) <$> l).
Definition string_codec : codec string :=
  mk_codec (fun str => to_bin bytes_codec (bytes_of_string str))
           (fun s => '(l, s) ← from_bin bytes_codec s; Ok (string_of_bytes l, s)).

Section combinators.
Context {A B : Type} (ca : codec A) (cb : codec B).

(** Fields of a struct one after the other. *)
Definition pair_codec : codec (A * B) :=
  mk_codec (fun p => x ← to_bin ca p.1; y ← to_bin cb p.2; Ok (x ++ y))
           (fun s => '(a, s) ← from_bin ca s; '(b, s) ← from_bin cb s; Ok ((a, b), s)).

Definition option_codec : codec (option A) :=
  mk_codec (fun o => match o with
                     | None => to_bin bool_codec false
                     | Some a => x ← to_bin bool_codec true; y ← to_bin ca a; Ok (x ++ y)
                     end)
           (fun s => '(present, s) ← from_bin bool_codec s;
                     if present : bool then '(a, s) ← from_bin ca s; Ok (Some a, s) else Ok (None, s)).

Fixpoint write_all (l : list A) : result (list Z) :=
  match l with
  | [] => Ok []
  | a :: l' => x ← to_bin ca a; y ← write_all l'; Ok (x ++ y)
  end.
Fixpoint read_all (n : nat) (s : list Z) : result (list A * list Z) :=
  match n with
  | O => Ok ([], s)
  | S n' => '(a, s) ← from_bin ca s; '(l, s) ← read_all n' s; Ok (a :: l, s)
  end.
Definition vector_codec : codec (list A) :=
  mk_codec (fun l => n ← varuint32_to_bin (Z.of_nat (length l)); x ← write_all l; Ok (n ++ x))
           (fun s => '(n, s) ← varuint32_from_bin s; read_all (Z.to_nat n) s).
End combinators.

(** ** Round trips *)

Lemma split7 val : 0 <= val -> val = Z.lor (Z.land val 0x7f) (Z.shiftl (Z.shiftr val 7) 7).
Proof.
  intros Hv. apply Z.bits_inj'. intros n Hn. change 0x7f with (Z.ones 7).
  rewrite Z.lor_spec, Z.land_spec, Z.shiftl_spec by lia. destruct (Z.ltb_spec n 7).
  - rewrite Z.ones_spec_low by lia. rewrite (Z.testbit_neg_r _ (n - 7)) by lia.
    by rewrite andb_true_r, orb_false_r.
  - rewrite Z.ones_spec_high by lia. rewrite Z.shiftr_spec by lia.
    rewrite andb_false_r. cbn. f_equal. lia.
Qed.

Lemma low_bits val : Z.land (Z.lor (Z.land val 0x7f) 0x80) 0x7f = Z.land val 0x7f.
Proof.
  apply Z.bits_inj'. intros n Hn. rewrite !Z.land_spec, Z.lor_spec, Z.land_spec.
  change 0x7f with (Z.ones 7). change 0x80 with (2 ^ 7). destruct (Z.ltb_spec n 7).
  - rewrite Z.ones_spec_low, Z.pow2_bits_false by lia. by rewrite orb_false_r, !andb_true_r.
  - rewrite Z.ones_spec_high by lia. by rewrite !andb_false_r.
Qed.

Lemma high_bit val : Z.land (Z.lor (Z.land val 0x7f) 0x80) 0x80 = 0x80.
Proof.
  rewrite Z.land_lor_distr_l, <- Z.land_assoc. change (Z.land 0x7f 0x80) with 0.
  by rewrite Z.land_0_r.
Qed.

Lemma no_high_bit val : Z.land (Z.land val 0x7f) 0x80 = 0.
Proof. rewrite <- Z.land_assoc. change (Z.land 0x7f 0x80) with 0. apply Z.land_0_r. Qed.

Lemma land7_bounds val : 0 <= Z.land val 0x7f < 2 ^ 7.
Proof. change 0x7f with (Z.ones 7). rewrite Z.land_ones by lia. apply Z.mod_pos_bound. lia. Qed.

Lemma varuint_roundtrip fuel w val acc shift rest :
  0 <= val < 2 ^ (7 * Z.of_nat (S fuel)) -> 0 <= shift -> 0 <= Z.shiftl val shift < 2 ^ w ->
  varuint_read (S fuel) w acc shift (varuint_bytes (S fuel) val ++ rest)
  = Ok (Z.lor acc (Z.shiftl val shift), rest).
Proof.
  revert val acc shift. induction fuel as [|fuel IH]; intros val acc shift Hv Hs Hw;
    pose proof (land7_bounds val) as Hl; pose proof (split7 val ltac:(lia)) as Hsp;
    assert (Z.land val 0x7f <= val) as Hle
      by (change 0x7f with (Z.ones 7); rewrite Z.land_ones by lia; apply Z.mod_le; lia);
    rewrite !Z.shiftl_mul_pow2 in Hw by lia;
    assert (0 < 2 ^ shift) as Hp by (apply Z.pow_pos_nonneg; lia);
    assert (wrap w (Z.shiftl (Z.land val 0x7f) shift) = Z.shiftl (Z.land val 0x7f) shift) as Hwr
      by (rewrite Z.shiftl_mul_pow2 by lia; apply wrap_small; nia).
  - assert (Z.shiftr val 7 = 0) as H0.
    { rewrite Z.shiftr_div_pow2 by lia. apply Z.div_small. cbn in *. lia. }
    cbn [varuint_bytes]. rewrite H0. cbn [Z.ltb app varuint_read].
    change (0 <? 0) with false. cbn iota. cbn [app varuint_read].
    rewrite no_high_bit. change (negb (0 =? 0)) with false. cbn iota.
    rewrite <- Z.land_assoc. change (Z.land 0x7f 0x7f) with 0x7f. rewrite Hwr.
    rewrite H0, Z.shiftl_0_l, Z.lor_0_r in Hsp. by rewrite <- Hsp.
  - assert (Z.shiftr val 7 = val / 128) as Hd by (by rewrite Z.shiftr_div_pow2 by lia).
    change (varuint_bytes (S (S fuel)) val) with
      (if 0 <? Z.shiftr val 7 then Z.lor (Z.land val 0x7f) 0x80 :: varuint_bytes (S fuel) (Z.shiftr val 7)
       else [Z.land val 0x7f]).
    destruct (Z.ltb_spec 0 (Z.shiftr val 7)) as [Hpos|Hz].
    + cbn [app]. remember (varuint_bytes (S fuel) (Z.shiftr val 7) ++ rest) as tl eqn:Htl.
      change (varuint_read (S (S fuel)) w acc shift (Z.lor (Z.land val 0x7f) 0x80 :: tl)) with
        (let r := Z.lor acc (wrap w (Z.shiftl (Z.land (Z.lor (Z.land val 0x7f) 0x80) 0x7f) shift)) in
         if negb (Z.land (Z.lor (Z.land val 0x7f) 0x80) 0x80 =? 0)
         then varuint_read (S fuel) w r (shift + 7) tl else Ok (r, tl)).
      rewrite low_bits, high_bit. cbn zeta. change (negb (0x80 =? 0)) with true. cbn iota. subst tl.
      rewrite Hwr, IH.
      * f_equal. f_equal. rewrite Hsp at 3. rewrite Z.shiftl_lor, Z.shiftl_shiftl by lia.
        rewrite <- Z.lor_assoc. by rewrite (Z.add_comm 7).
      * split; [lia|]. rewrite Hd. apply Z.div_lt_upper_bound; [lia|].
        replace (7 * Z.of_nat (S (S fuel))) with (7 + 7 * Z.of_nat (S fuel)) in Hv by lia.
        rewrite Z.pow_add_r in Hv by lia. exact (proj2 Hv).
      * lia.
      * rewrite Z.shiftl_mul_pow2, Z.pow_add_r by lia. rewrite Hd.
        pose proof (Z.div_mod val 128 ltac:(lia)). pose proof (Z.mod_pos_bound val 128 ltac:(lia)). 
        change (2 ^ 7) with 128. nia.
    + assert (Z.shiftr val 7 = 0) as H0 by (pose proof (Z.shiftr_nonneg val 7); lia).
      cbn [app]. 
      change (varuint_read (S (S fuel)) w acc shift (Z.land val 0x7f :: rest)) with
        (let r := Z.lor acc (wrap w (Z.shiftl (Z.land (Z.land val 0x7f) 0x7f) shift)) in
         if negb (Z.land (Z.land val 0x7f) 0x80 =? 0)
         then varuint_read (S fuel) w r (shift + 7) rest else Ok (r, rest)).
      rewrite no_high_bit. cbn zeta. change (negb (0 =? 0)) with false. cbn iota.
      rewrite <- Z.land_assoc. change (Z.land 0x7f 0x7f) with 0x7f. rewrite Hwr.
      rewrite H0, Z.shiftl_0_l, Z.lor_0_r in Hsp. by rewrite <- Hsp.
Qed.

Lemma varuint32_to_bin_Ok val bs :
  0 <= val -> varuint32_to_bin val = Ok bs -> val < 2 ^ 32 /\ bs = varuint_bytes 5 val.
Proof.
  intros Hv H. unfold varuint32_to_bin in H. apply bind_Ok in H as (u & Hc & H).
  apply check_Ok, Z.eqb_eq in Hc. rewrite Z.shiftr_div_pow2 in Hc by lia. split; [|congruence].
  apply Z.div_small_iff in Hc; lia.
Qed.

Lemma varuint32_read_back val rest :
  0 <= val < 2 ^ 32 -> varuint32_from_bin (varuint_bytes 5 val ++ rest) = Ok (val, rest).
Proof.
  intros Hv. unfold varuint32_from_bin. rewrite varuint_roundtrip.
  - by rewrite Z.shiftl_0_r, Z.lor_0_l.
  - cbn. lia.
  - lia.
  - by rewrite Z.shiftl_0_r.
Qed.

#[export] Instance uint_lawful n : Lawful (uint n) (fun z => 0 <= z < 256 ^ Z.of_nat n).
Proof.
  intros z bs rest Hz H. injection H as <-. cbn [uint from_bin]. unfold read.
  rewrite length_app, le_bytes_length. destruct (Nat.leb_spec n (n + length rest)); [|lia].
  cbn [mbind result_bind]. rewrite take_app_length', drop_app_length' by (by rewrite le_bytes_length).
  by rewrite of_le_le_bytes.
Qed.

#[export] Instance varuint32_lawful : Lawful varuint32 (fun z => 0 <= z).
Proof.
  intros z bs rest Hz H. apply varuint32_to_bin_Ok in H as [Hlt ->]; [|done].
  by apply varuint32_read_back.
Qed.

#[export] Instance bool_lawful : Lawful bool_codec (fun _ => True).
Proof. intros [|] bs rest _ [= <-]; reflexivity. Qed.

#[export] Instance bytes_lawful : Lawful bytes_codec (fun _ => True).
Proof.
  intros l bs rest _ H. cbn [bytes_codec to_bin from_bin] in *.
  apply bind_Ok in H as (n & Hn & H). injection H as <-.
  apply varuint32_to_bin_Ok in Hn as [Hlt ->]; [|lia].
  rewrite <- app_assoc, varuint32_read_back by lia. cbn [mbind result_bind].
  rewrite Nat2Z.id. unfold read. rewrite length_app.
  destruct (Nat.leb_spec (length l) (length l + length rest)); [|lia].
  by rewrite take_app_length, drop_app_length.
Qed.

Lemma string_of_bytes_of_string str : string_of_bytes (bytes_of_string str) = str.
Proof.
  unfold string_of_bytes, bytes_of_string. rewrite <- list_fmap_compose.
  rewrite <- (String.string_of_list_ascii_of_string str) at 2. f_equal.
  induction (String.list_ascii_of_string str) as [|c l IH]; [done|].
  cbn. rewrite IH. f_equal. by rewrite N2Z.id, ascii_N_embedding.
Qed.

#[export] Instance string_lawful : Lawful string_codec (fun _ => True).
Proof.
  intros str bs rest _ H. cbn [string_codec to_bin from_bin] in *.
  rewrite (bytes_lawful _ _ rest I H). cbn [mbind result_bind]. by rewrite string_of_bytes_of_string.
Qed.

Section laws.
Context {A B : Type} (ca : codec A) (cb : codec B) (P : A -> Prop) (Q : B -> Prop).
Context `{!Lawful ca P} `{!Lawful cb Q}.

#[export] Instance pair_lawful : Lawful (pair_codec ca cb) (fun p => P p.1 /\ Q p.2).
Proof.
  intros [a b] bs rest [Ha Hb] H. cbn [pair_codec to_bin from_bin] in *.
  apply bind_Ok in H as (x & Hx & H). apply bind_Ok in H as (y & Hy & H). injection H as <-.
  rewrite <- app_assoc, (round_trip a x _ Ha Hx). cbn [mbind result_bind].
  by rewrite (round_trip b y _ Hb Hy).
Qed.

#[export] Instance option_lawful : Lawful (option_codec ca) (fun o => from_option P True o).
Proof.
  intros [a|] bs rest Ha H; cbn [option_codec to_bin from_bin] in *.
  - apply bind_Ok in H as (x & Hx & H). apply bind_Ok in H as (y & Hy & H). injection H as <-.
    rewrite <- app_assoc, (round_trip (c := bool_codec) true x _ I Hx). cbn [mbind result_bind].
    by rewrite (round_trip a y _ Ha Hy).
  - by rewrite (round_trip (c := bool_codec) false bs _ I H).
Qed.

Lemma read_all_write_all l x rest :
  Forall P l -> write_all ca l = Ok x -> read_all ca (length l) (x ++ rest) = Ok (l, rest).
Proof.
  intros Hl. revert x. induction Hl as [|a l Ha Hl IH]; intros x H; cbn in H.
  - by injection H as <-.
  - apply bind_Ok in H as (y & Hy & H). apply bind_Ok in H as (z & Hz & H). injection H as <-.
    cbn. rewrite <- app_assoc, (round_trip a y _ Ha Hy). cbn. by rewrite (IH _ Hz).
Qed.

#[export] Instance vector_lawful : Lawful (vector_codec ca) (Forall P).
Proof.
  intros l bs rest Hl H. cbn [vector_codec to_bin from_bin] in *.
  apply bind_Ok in H as (n & Hn & H). apply bind_Ok in H as (x & Hx & H). injection H as <-.
  apply varuint32_to_bin_Ok in Hn as [Hlt ->]; [|lia].
  rewrite <- app_assoc, varuint32_read_back by lia. cbn [mbind result_bind].
  rewrite Nat2Z.id. by apply read_all_write_all.
Qed.
End laws.

(** A lawful codec is injective. *)
Lemma lawful_inj {A} (c : codec A) (P : A -> Prop) `{!Lawful c P} a b bs :
  P a -> P b -> to_bin c a = Ok bs -> to_bin c b = Ok bs -> a = b.
Proof.
  intros Ha Hb H1 H2. pose proof (round_trip a bs [] Ha H1) as R1.
  pose proof (round_trip b bs [] Hb H2) as R2. congruence.
Qed.

Lemma varuint_bytes_length fuel val : (length (varuint_bytes fuel val) <= fuel)%nat.
Proof. revert val. induction fuel as [|n IH]; intros val; cbn; [done|]. destruct (_ <? _); cbn; [specialize (IH (Z.shiftr val 7)); lia|lia]. Qed.

(** Variable-length integers round-trip: every 32-bit number is written in
    one to five bytes, from which exactly the number is read back whatever
    follows in the stream; larger numbers are refused. *)
Theorem varuint32_round_trip (val : Z) (rest : list Z) :
  0 <= val ->
  if val <? 2 ^ 32 then
    exists bs, varuint32_to_bin val = Ok bs /\ (1 <= length bs <= 5)%nat /\
      varuint32_from_bin (bs ++ rest) = Ok (val, rest)
  else varuint32_to_bin val = Err (Check "Varuint too big").
Proof.
  intros Hv. unfold varuint32_to_bin. rewrite Z.shiftr_div_pow2 by lia.
  destruct (Z.ltb_spec val (2 ^ 32)).
  - exists (varuint_bytes 5 val). rewrite Z.div_small by lia. split; [done|]. split.
    + pose proof (varuint_bytes_length 5 val). split; [|done]. cbn [varuint_bytes].
      destruct (_ <? _); cbn [length]; lia.
    + by apply varuint32_read_back.
  - destruct (Z.eqb_spec (val / 2 ^ 32) 0) as [H0|H0]; [|done].
    apply Z.div_small_iff in H0; lia.
Qed.

Lemma varuint32_round_trip_witness :
  exists bs, varuint32_to_bin 300 = Ok bs /\ (1 <= length bs <= 5)%nat /\
    varuint32_from_bin (bs ++ [7]) = Ok (300, [7]).
Proof. apply (varuint32_round_trip 300 [7]). lia. Defined.

End Binary.
