(* ===== verification/ToKey.v ===== *)
(** Keys: bytes that sort like the values they stand for
    ([libraries/abieos/include/eosio/to_key.hpp], and the overloads of
    [varint.hpp] and [fixed_bytes.hpp]).  The templates recurse over the types
    of C++; here over a type [ty] of descriptions of those types, whose values
    [val] interprets. *)
From S2P Require Import Prelude Crypto.
Open Scope Z_scope.

Module ToKey.
Import Crypto.

(** [std::lexicographical_compare] of bytes, three-way. *)
Fixpoint lex (a b : list Z) : comparison :=
  match a, b with
  | [], [] => Eq
  | [], _ :: _ => Lt
  | _ :: _, [] => Gt
  | x :: a, y :: b => match x ?= y with Eq => lex a b | c => c end
  end.
Definition first_of (c d : comparison) : comparison := match c with Eq => d | _ => c end.

(** ** Keys of the built-in types *)

(** Integral types: shifted so that the least value is 0, big-endian. *)
Definition int_min (signed : bool) (n : nat) : Z :=
  if signed then - 2 ^ (8 * Z.of_nat n - 1) else 0.
Definition integral_key (signed : bool) (n : nat) (obj : Z) : list Z :=
  let w := 8 * Z.of_nat n in
  let v := wrap w obj in
  let v := wrap w (v - wrap w (int_min signed n)) in
  be_bytes n v.

Definition bool_key (obj : bool) : list Z := [if obj then 1 else 0].

(** [float_to_key]: the value is given by its bits. *)
Definition float_to_key (n : nat) (value : Z) : Z :=
  let w := 8 * Z.of_nat n in
  let signbit := Z.shiftl 1 (w - 1) in
  let result := if value =? signbit then 0 else value in
  let mask := if negb (Z.land result signbit =? 0) then Z.ones w else 0 in
  Z.lxor result (Z.lor mask signbit).
Definition float_key (n : nat) (value : Z) : list Z := integral_key false n (float_to_key n value).

(** [to_key_varuint32] *)
Definition num_bytes (obj : Z) : Z :=
  if obj <? 0x80 then 1
  else if obj <? 0x4000 then 2
  else if obj <? 0x200000 then 3
  else if obj <? 0x10000000 then 4
  else 5.
Definition varuint32_key (obj : Z) : list Z :=
  let num_bytes := num_bytes obj in
  wrap 8 (Z.lor (wrap 32 (Z.lnot (Z.shiftr 0xFF (num_bytes - 1))))
            (if num_bytes =? 5 then 0 else Z.shiftr obj ((num_bytes - 1) * 8)))
    :: ((fun i => Z.land (Z.shiftr obj (Z.of_nat i * 8)) 0xFF) <$> reverse (seq 0 (Z.to_nat (num_bytes - 1)))).

(** A string: a zero is followed by 1, the end is two zeros. *)
Fixpoint string_key (obj : list Z) : list Z :=
  match obj with
  | [] => [0; 0]
  | ch :: obj => if ch =? 0 then ch :: 1 :: string_key obj else ch :: string_key obj
  end.

(** ** Keys of the compound types *)

(** [to_key_optional]; [single] says that the element is one byte wide, when
    its own byte tells it from the end unless it is zero. *)
Definition optional_key {A} (single : bool) (key : A -> list Z) (obj : option A) : list Z :=
  if single then
    match obj with
    | None => [0; 0]
    | Some x => let b := hd 0 (key x) in if b =? 0 then [b; 1] else [b]
    end
  else
    match obj with
    | Some x => 1 :: key x
    | None => [0]
    end.

(** Vectors, lists, deques, sets and maps: their elements, then the end. *)
Definition range_key {A} (single : bool) (key : A -> list Z) (obj : list A) : list Z :=
  concat ((fun elem => optional_key single key (Some elem)) <$> obj) ++ optional_key single key None.
Definition array_key {A} (key : A -> list Z) (obj : list A) : list Z := concat (key <$> obj).
Definition pair_key {A B} (ka : A -> list Z) (kb : B -> list Z) (obj : A * B) : list Z :=
  ka obj.1 ++ kb obj.2.

(** ** The types *)

Inductive ty : Type :=
  | t_unit
  | t_integral (signed : bool) (n : nat)
  | t_bool
  | t_float (n : nat)
  | t_varuint32
  | t_fixed_bytes (n : nat)
  | t_string
  | t_pair (t u : ty)  (* pairs, tuples, structs *)
  | t_array (n : nat) (t : ty)
  | t_optional (t : ty)
  | t_range (t : ty)
  | t_variant (ts : list ty).

(** [has_bitwise_serialization<T>() && sizeof(T) == 1] *)
Definition single (t : ty) : bool :=
  match t with
  | t_integral _ n => Nat.eqb n 1
  | t_bool => true
  | _ => false
  end.

Fixpoint val (t : ty) : Type :=
  match t with
  | t_unit => unit
  | t_integral _ _ | t_float _ | t_varuint32 | t_fixed_bytes _ => Z
  | t_bool => bool
  | t_string => list Z
  | t_pair t u => val t * val u
  | t_array _ t | t_range t => list (val t)
  | t_optional t => option (val t)
  | t_variant ts =>
      (fix held (ts : list ty) : Type :=
         match ts with [] => Empty_set | t :: ts => (val t + held ts)%type end) ts
  end.

(** [to_key<T>] *)
Fixpoint to_key (t : ty) : val t -> list Z :=
  match t with
  | t_unit => fun _ => []
  | t_integral signed n => integral_key signed n
  | t_bool => bool_key
  | t_float n => float_key n
  | t_varuint32 => varuint32_key
  | t_fixed_bytes n => be_bytes n
  | t_string => string_key
  | t_pair t u => pair_key (to_key t) (to_key u)
  | t_array _ t => array_key (to_key t)
  | t_optional t => optional_key (single t) (to_key t)
  | t_range t => range_key (single t) (to_key t)
  | t_variant ts =>
      (fix held_key (i : Z) (ts : list ty) : val (t_variant ts) -> list Z :=
         match ts return val (t_variant ts) -> list Z with
         | [] => fun v => match v with end
         | t :: ts => fun v => match v with
                               | inl x => varuint32_key i ++ to_key t x
                               | inr y => held_key (i + 1) ts y
                               end
         end) 0 ts
  end.

(** ** The order of the values *)

(** Of floats that are not NaN, the order of the bits read as sign and
    magnitude; the two zeros are equal. *)
Definition signed_magnitude (n : nat) (bits : Z) : Z :=
  let signbit := 2 ^ (8 * Z.of_nat n - 1) in
  if bits <? signbit then bits else signbit - bits.

Fixpoint list_compare {A} (cmp : A -> A -> comparison) (a b : list A) : comparison :=
  match a, b with
  | [], [] => Eq
  | [], _ :: _ => Lt
  | _ :: _, [] => Gt
  | x :: a, y :: b => first_of (cmp x y) (list_compare cmp a b)
  end.
Definition option_compare {A} (cmp : A -> A -> comparison) (a b : option A) : comparison :=
  match a, b with
  | None, None => Eq
  | None, Some _ => Lt
  | Some _, None => Gt
  | Some x, Some y => cmp x y
  end.
Definition pair_compare {A B} (ca : A -> A -> comparison) (cb : B -> B -> comparison) (p q : A * B)
    : comparison := first_of (ca p.1 q.1) (cb p.2 q.2).
Definition bool_compare (a b : bool) : comparison :=
  match a, b with false, true => Lt | true, false => Gt | _, _ => Eq end.

Fixpoint compare (t : ty) : val t -> val t -> comparison :=
  match t with
  | t_unit => fun _ _ => Eq
  | t_integral _ _ | t_varuint32 | t_fixed_bytes _ => Z.compare
  | t_bool => bool_compare
  | t_float n => fun a b => signed_magnitude n a ?= signed_magnitude n b
  | t_string => list_compare Z.compare
  | t_pair t u => pair_compare (compare t) (compare u)
  | t_array _ t | t_range t => list_compare (compare t)
  | t_optional t => option_compare (compare t)
  | t_variant ts =>
      (fix held_compare (ts : list ty) : val (t_variant ts) -> val (t_variant ts) -> comparison :=
         match ts return val (t_variant ts) -> val (t_variant ts) -> comparison with
         | [] => fun v _ => match v with end
         | t :: ts => fun v w => match v, w with
                                 | inl x, inl y => compare t x y
                                 | inl _, inr _ => Lt
                                 | inr _, inl _ => Gt
                                 | inr x, inr y => held_compare ts x y
                                 end
         end) ts
  end.

(** The values of a type: integers in range, arrays of their length. *)
Fixpoint ok (t : ty) : val t -> Prop :=
  match t with
  | t_unit | t_bool => fun _ => True
  | t_integral signed n => fun z =>
      (0 < n)%nat /\ int_min signed n <= z < int_min signed n + 2 ^ (8 * Z.of_nat n)
  | t_float n => fun bits => (0 < n)%nat /\ 0 <= bits < 2 ^ (8 * Z.of_nat n)
  | t_varuint32 => fun z => 0 <= z < 2 ^ 32
  | t_fixed_bytes n => fun z => 0 <= z < 256 ^ Z.of_nat n
  | t_string => bytes
  | t_pair t u => fun p => ok t p.1 /\ ok u p.2
  | t_array n t => fun l => length l = n /\ Forall (ok t) l
  | t_range t => Forall (ok t)
  | t_optional t => fun o => from_option (ok t) True o
  | t_variant ts => fun v =>
      Z.of_nat (length ts) <= 2 ^ 32 /\
      (fix held_ok (ts : list ty) : val (t_variant ts) -> Prop :=
         match ts return val (t_variant ts) -> Prop with
         | [] => fun v => match v with end
         | t :: ts => fun v => match v with inl x => ok t x | inr y => held_ok ts y end
         end) ts v
  end.

(** ** Keys sort like values

    The law composes: it says at once that the keys compare like the values
    and that no key is a prefix of the key of another value, since what follows
    the keys only matters when the values are equal. *)
Class Ordered {A} (key : A -> list Z) (cmp : A -> A -> comparison) (P : A -> Prop) : Prop :=
  key_order : forall a b s t, P a -> P b ->
    lex (key a ++ s) (key b ++ t) = first_of (cmp a b) (lex s t).
Class Single {A} (key : A -> list Z) (P : A -> Prop) : Prop :=
  single_byte : forall a, P a -> exists b, key a = [b] /\ 0 <= b < 256.

Lemma lex_cons x y s t : lex (x :: s) (y :: t) = first_of (x ?= y) (lex s t).
Proof. cbn. by destruct (x ?= y). Qed.
Lemma first_of_assoc a b c : first_of (first_of a b) c = first_of a (first_of b c).
Proof. by destruct a. Qed.
Lemma first_of_Eq c : first_of c Eq = c.
Proof. by destruct c. Qed.
Lemma lex_refl_app l s t : lex (l ++ s) (l ++ t) = lex s t.
Proof. induction l as [|x l IH]; [done|]. cbn. by rewrite Z.compare_refl. Qed.

Lemma be_bytes_S n z : be_bytes (S n) z = be_bytes n (z / 256) ++ [z mod 256].
Proof. unfold be_bytes. cbn [le_bytes]. by rewrite reverse_cons. Qed.

Lemma compare_div a b : (a ?= b) = first_of (a / 256 ?= b / 256) (a mod 256 ?= b mod 256).
Proof.
  pose proof (Z.div_mod a 256 ltac:(lia)). pose proof (Z.div_mod b 256 ltac:(lia)).
  pose proof (Z.mod_pos_bound a 256 ltac:(lia)). pose proof (Z.mod_pos_bound b 256 ltac:(lia)).
  destruct (Z.compare_spec (a / 256) (b / 256)); cbn;
    destruct (Z.compare_spec (a mod 256) (b mod 256)); destruct (Z.compare_spec a b); try done; lia.
Qed.

Lemma be_bytes_order n a b s t :
  lex (be_bytes n a ++ s) (be_bytes n b ++ t)
  = first_of (a mod 256 ^ Z.of_nat n ?= b mod 256 ^ Z.of_nat n) (lex s t).
Proof.
  revert a b s t. induction n as [|n IH]; intros a b s t.
  - cbn. by rewrite !Z.mod_1_r.
  - rewrite !be_bytes_S, <- !app_assoc. cbn [app]. rewrite IH, lex_cons, <- first_of_assoc. f_equal.
    rewrite Nat2Z.inj_succ, Z.pow_succ_r by lia. set (m := 256 ^ Z.of_nat n).
    assert (0 < m) by (apply Z.pow_pos_nonneg; lia).
    rewrite (compare_div (a mod (256 * m))), !Z.rem_mul_r by lia.
    rewrite !(Z.mul_comm 256), !Z.mod_add, !Z.mod_mod, !Z.div_add by lia.
    by rewrite !(Z.div_small (_ mod 256)), !Z.add_0_l by (apply Z.mod_pos_bound; lia).
Qed.

Lemma bytes_pow n : 256 ^ Z.of_nat n = 2 ^ (8 * Z.of_nat n).
Proof. change 256 with (2 ^ 8). by rewrite <- Z.pow_mul_r by lia. Qed.

#[export] Instance fixed_bytes_ordered n : Ordered (be_bytes n) Z.compare (fun z => 0 <= z < 256 ^ Z.of_nat n).
Proof. intros a b s t Ha Hb. by rewrite be_bytes_order, !Z.mod_small. Qed.

Lemma integral_key_shift signed n z :
  (0 < n)%nat -> int_min signed n <= z < int_min signed n + 2 ^ (8 * Z.of_nat n) ->
  integral_key signed n z = be_bytes n (z - int_min signed n) /\
  0 <= z - int_min signed n < 256 ^ Z.of_nat n.
Proof.
  intros Hn Hz. rewrite bytes_pow. split; [|lia]. unfold integral_key. f_equal. unfold wrap.
  rewrite <- Zminus_mod. by rewrite Z.mod_small by lia.
Qed.

#[export] Instance integral_ordered signed n :
  Ordered (integral_key signed n) Z.compare (ok (t_integral signed n)).
Proof.
  intros a b s t [Hn Ha] [_ Hb].
  destruct (integral_key_shift signed n a Hn Ha) as [-> Ra]. destruct (integral_key_shift signed n b Hn Hb) as [-> Rb].
  rewrite fixed_bytes_ordered by done. f_equal.
  destruct (Z.compare_spec a b); destruct (Z.compare_spec (a - int_min signed n) (b - int_min signed n)); try done; lia.
Qed.
#[export] Instance bool_ordered : Ordered bool_key bool_compare (fun _ => True).
Proof. by intros [] [] s t _ _. Qed.

(** ** Floats *)

Lemma land_signbit w v : 0 < w -> 0 <= v < 2 ^ w ->
  Z.land v (2 ^ (w - 1)) = if v <? 2 ^ (w - 1) then 0 else 2 ^ (w - 1).
Proof.
  intros Hw Hv. apply Z.bits_inj'. intros i Hi. rewrite Z.land_spec, Z.pow2_bits_eqb by lia.
  assert (2 ^ w = 2 * 2 ^ (w - 1)) as H2 by (rewrite <- Z.pow_succ_r by lia; f_equal; lia).
  destruct (Z.eqb_spec (w - 1) i) as [<-|Hne].
  - rewrite andb_true_r, Z.testbit_eqb by lia.
    destruct (Z.ltb_spec v (2 ^ (w - 1))).
    + rewrite Z.div_small, Z.bits_0 by lia. done.
    + rewrite Z.pow2_bits_true by lia. replace (v / 2 ^ (w - 1)) with 1; [done|].
      apply Z.div_unique with (v - 2 ^ (w - 1)); lia.
  - rewrite andb_false_r. destruct (_ <? _); [by rewrite Z.bits_0|]. by rewrite Z.pow2_bits_false by lia.
Qed.

Lemma lxor_ones w v : 0 <= w -> 0 <= v < 2 ^ w -> Z.lxor v (Z.ones w) = 2 ^ w - 1 - v.
Proof.
  intros Hw Hv. assert (Z.land v (Z.lxor v (Z.ones w)) = 0) as H0.
  { apply Z.bits_inj'. intros i Hi. rewrite Z.land_spec, Z.lxor_spec, Z.bits_0.
    destruct (Z.ltb_spec i w).
    - rewrite Z.ones_spec_low by lia. by destruct (Z.testbit v i).
    - rewrite <- (Z.mod_small v (2 ^ w)), Z.mod_pow2_bits_high by lia. done. }
  apply Z.add_nocarry_lxor in H0. rewrite <- Z.lxor_assoc, Z.lxor_nilpotent, Z.lxor_0_l in H0.
  rewrite Z.ones_equiv in H0 at 2. lia.
Qed.

(** The key of a float is its sign and magnitude moved to the positive
    numbers; what lies below zero is one further down. *)
Lemma float_to_key_spec n v : (0 < n)%nat -> 0 <= v < 2 ^ (8 * Z.of_nat n) ->
  let m := signed_magnitude n v in
  float_to_key n v = 2 ^ (8 * Z.of_nat n - 1) + m - (if m <? 0 then 1 else 0)
  /\ - 2 ^ (8 * Z.of_nat n - 1) < m < 2 ^ (8 * Z.of_nat n - 1).
Proof.
  intros Hn Hv. unfold float_to_key, signed_magnitude. rewrite Z.shiftl_1_l.
  set (w := 8 * Z.of_nat n) in *. assert (0 < w) as Hw by lia.
  assert (2 ^ w = 2 * 2 ^ (w - 1)) as H2 by (rewrite <- Z.pow_succ_r by lia; f_equal; lia).
  assert (0 < 2 ^ (w - 1)) as Hp by (apply Z.pow_pos_nonneg; lia).
  destruct (Z.eqb_spec v (2 ^ (w - 1))) as [->|Hne].
  - rewrite Z.ltb_irrefl, Z.sub_diag. rewrite Z.land_0_l, Z.lor_0_l, Z.lxor_0_l. cbn. lia.
  - rewrite land_signbit by done. destruct (Z.ltb_spec v (2 ^ (w - 1))).
    + cbn [negb Z.eqb]. rewrite Z.lor_0_l. rewrite <- Z.add_nocarry_lxor.
      * destruct (Z.ltb_spec v 0); lia.
      * rewrite land_signbit by done. destruct (Z.ltb_spec v (2 ^ (w - 1))); [done|lia].
    + destruct (Z.eqb_spec (2 ^ (w - 1)) 0); [lia|]. cbn [negb].
      assert (Z.lor (Z.ones w) (2 ^ (w - 1)) = Z.ones w) as ->.
      { apply Z.bits_inj'. intros i Hi. rewrite Z.lor_spec, Z.pow2_bits_eqb by lia.
        destruct (Z.eqb_spec (w - 1) i); [|by rewrite orb_false_r].
        rewrite Z.ones_spec_low by lia. done. }
      rewrite lxor_ones by lia. destruct (Z.ltb_spec (2 ^ (w - 1) - v) 0); lia.
Qed.

#[export] Instance float_ordered n : Ordered (float_key n) (compare (t_float n)) (ok (t_float n)).
Proof.
  intros a b s t [Hn Ha] [_ Hb]. unfold float_key. cbn [compare].
  destruct (float_to_key_spec n a Hn Ha) as [-> Ra]. destruct (float_to_key_spec n b Hn Hb) as [-> Rb].
  assert (2 ^ (8 * Z.of_nat n) = 2 * 2 ^ (8 * Z.of_nat n - 1)) as H2
    by (rewrite <- Z.pow_succ_r by lia; f_equal; lia).
  rewrite integral_ordered by (split; [done|]; cbn [int_min]; destruct (_ <? 0); lia).
  f_equal. set (m := signed_magnitude n a) in *. set (k := signed_magnitude n b) in *.
  destruct (Z.ltb_spec m 0), (Z.ltb_spec k 0); destruct (Z.compare_spec m k) as [| |];
    match goal with |- (?x ?= ?y) = _ => destruct (Z.compare_spec x y) end; try done; lia.
Qed.

(** ** Variable-length integers *)

Lemma land_byte z : Z.land z 0xFF = z mod 256.
Proof. change 0xFF with (Z.ones 8). by rewrite Z.land_ones by lia. Qed.

Lemma tail_bytes n z :
  ((fun i => Z.land (Z.shiftr z (Z.of_nat i * 8)) 0xFF) <$> reverse (seq 0 n)) = be_bytes n z.
Proof.
  unfold be_bytes. rewrite fmap_reverse. f_equal.
  enough (forall k, (fun i => Z.land (Z.shiftr z (Z.of_nat i * 8)) 0xFF) <$> seq k n
                    = le_bytes n (z / 2 ^ (8 * Z.of_nat k))) as H.
  { specialize (H 0%nat). cbn in H. by rewrite Z.div_1_r in H. }
  induction n as [|n IH]; intros k; [done|]. cbn [seq fmap list_fmap le_bytes]. f_equal.
  - rewrite land_byte, Z.shiftr_div_pow2 by lia. do 3 f_equal. lia.
  - rewrite (IH (S k)). f_equal. change 256 with (2 ^ 8). rewrite Z.div_div by lia.
    rewrite <- Z.pow_add_r by lia. do 2 f_equal. lia.
Qed.

(** The first byte: as many ones as there are bytes after it, then the highest
    bits of the number. *)
Definition varuint_prefix (n : Z) : Z :=
  if n =? 1 then 0 else if n =? 2 then 0x80 else if n =? 3 then 0xC0 else if n =? 4 then 0xE0
  else if n =? 5 then 0xF0 else 0xF1.

Lemma wrap8_lor a b : wrap 8 (Z.lor a b) = Z.lor (a mod 256) (b mod 256).
Proof. unfold wrap. change (2 ^ 8) with 256. by rewrite <- !land_byte, Z.land_lor_distr_l. Qed.

Lemma first_byte n b w k : 0 <= b < 2 ^ w -> 0 <= w -> b < 256 ->
  wrap 32 (Z.lnot (Z.shiftr 0xFF (n - 1))) mod 256 = Z.shiftl k w ->
  wrap 8 (Z.lor (wrap 32 (Z.lnot (Z.shiftr 0xFF (n - 1)))) b) = k * 2 ^ w + b.
Proof.
  intros Hb Hw Hb8 Hp. rewrite wrap8_lor, Hp, Z.mod_small by lia. by apply lor_shiftl.
Qed.

Lemma num_bytes_cases z : 0 <= z < 2 ^ 32 ->
  (num_bytes z = 1 /\ z < 2 ^ 7) \/ (num_bytes z = 2 /\ 2 ^ 7 <= z < 2 ^ 14) \/
  (num_bytes z = 3 /\ 2 ^ 14 <= z < 2 ^ 21) \/ (num_bytes z = 4 /\ 2 ^ 21 <= z < 2 ^ 28) \/
  (num_bytes z = 5 /\ 2 ^ 28 <= z).
Proof.
  intros Hz. unfold num_bytes.
  destruct (Z.ltb_spec z 0x80), (Z.ltb_spec z 0x4000), (Z.ltb_spec z 0x200000), (Z.ltb_spec z 0x10000000); lia.
Qed.

Ltac prefixes :=
  repeat match goal with
  | |- context [varuint_prefix ?n] =>
      let v := eval vm_compute in (varuint_prefix n) in change (varuint_prefix n) with v
  end.

Lemma varuint32_key_spec z : 0 <= z < 2 ^ 32 ->
  let n := num_bytes z in let b := varuint_prefix n + z / 256 ^ (n - 1) in
  varuint32_key z = b :: be_bytes (Z.to_nat (n - 1)) z /\
  1 <= n <= 5 /\ varuint_prefix n <= b < varuint_prefix (n + 1).
Proof.
  intros Hz. unfold varuint32_key. cbv zeta. rewrite tail_bytes.
  pose proof (Z.div_pos z 256 ltac:(lia) ltac:(lia)) as D1.
  pose proof (Z.div_pos z (256 ^ 2) ltac:(lia) ltac:(lia)) as D2.
  pose proof (Z.div_pos z (256 ^ 3) ltac:(lia) ltac:(lia)) as D3.
  destruct (num_bytes_cases z Hz) as [[-> H]|[[-> H]|[[-> H]|[[-> H]|[-> H]]]]]; cbn [Z.eqb Pos.eqb].
  - change ((1 - 1) * 8) with 0. rewrite (Z.shiftr_0_r z), (first_byte 1 z 8 0) by (done || lia). change (256 ^ (1 - 1)) with 1.
    rewrite Z.div_1_r. prefixes. split; [done|lia].
  - assert (z / 256 < 2 ^ 6) by (apply Z.div_lt_upper_bound; lia).
    rewrite (Z.shiftr_div_pow2 z) by lia. change (2 ^ ((2 - 1) * 8)) with 256. rewrite (first_byte 2 _ 7 1) by (done || lia).
    change (256 ^ (2 - 1)) with 256.
    prefixes. split; [done|lia].
  - assert (z / 256 ^ 2 < 2 ^ 5) by (apply Z.div_lt_upper_bound; lia).
    rewrite (Z.shiftr_div_pow2 z) by lia. change (2 ^ ((3 - 1) * 8)) with (256 ^ 2). rewrite (first_byte 3 _ 6 3) by (done || lia).
    change (256 ^ (3 - 1)) with (256 ^ 2).
    prefixes. split; [done|lia].
  - assert (z / 256 ^ 3 < 2 ^ 4) by (apply Z.div_lt_upper_bound; lia).
    rewrite (Z.shiftr_div_pow2 z) by lia. change (2 ^ ((4 - 1) * 8)) with (256 ^ 3). rewrite (first_byte 4 _ 5 7) by (done || lia).
    change (256 ^ (4 - 1)) with (256 ^ 3).
    prefixes. split; [done|lia].
  - rewrite (first_byte 5 0 4 15) by (done || lia). change (256 ^ (5 - 1)) with (2 ^ 32).
    rewrite Z.div_small by done. prefixes. split; [done|lia].
Qed.

Lemma varuint_prefix_mono n m : 1 <= n -> n < m -> m <= 5 -> varuint_prefix (n + 1) <= varuint_prefix m.
Proof.
  intros H1 H2 H3. assert (n = 1 \/ n = 2 \/ n = 3 \/ n = 4) as Hn by lia.
  assert (m = 2 \/ m = 3 \/ m = 4 \/ m = 5) as Hm by lia.
  destruct Hn as [->|[->|[->| ->]]]; destruct Hm as [->|[->|[->| ->]]]; prefixes; lia.
Qed.

Lemma num_bytes_mono a b : a <= b -> num_bytes a <= num_bytes b.
Proof.
  intros H. unfold num_bytes.
  destruct (Z.ltb_spec a 0x80), (Z.ltb_spec a 0x4000), (Z.ltb_spec a 0x200000), (Z.ltb_spec a 0x10000000);
  destruct (Z.ltb_spec b 0x80), (Z.ltb_spec b 0x4000), (Z.ltb_spec b 0x200000), (Z.ltb_spec b 0x10000000); lia.
Qed.

#[export] Instance varuint32_ordered : Ordered varuint32_key Z.compare (fun z => 0 <= z < 2 ^ 32).
Proof.
  intros a b s t Ha Hb.
  destruct (varuint32_key_spec a Ha) as (-> & Hna & Ra). destruct (varuint32_key_spec b Hb) as (-> & Hnb & Rb).
  cbn [app]. rewrite lex_cons.
  destruct (Z.lt_trichotomy (num_bytes a) (num_bytes b)) as [Hlt|[Heq|Hgt]].
  - pose proof (varuint_prefix_mono _ _ (proj1 Hna) Hlt (proj2 Hnb)).
    rewrite (proj2 (Z.compare_lt_iff _ _)) by lia.
    destruct (Z.compare_spec a b) as [->|Hc|Hc]; [lia|done|]. pose proof (num_bytes_mono b a). lia.
  - rewrite <- Heq. rewrite be_bytes_order, <- first_of_assoc. f_equal.
    rewrite Z2Nat.id by lia. set (m := 256 ^ (num_bytes a - 1)).
    assert (0 < m) by (apply Z.pow_pos_nonneg; lia).
    pose proof (Z.div_mod a m ltac:(lia)). pose proof (Z.div_mod b m ltac:(lia)).
    pose proof (Z.mod_pos_bound a m ltac:(lia)). pose proof (Z.mod_pos_bound b m ltac:(lia)).
    destruct (Z.compare_spec (varuint_prefix (num_bytes a) + a / m) (varuint_prefix (num_bytes a) + b / m)); cbn.
    + destruct (Z.compare_spec (a mod m) (b mod m)), (Z.compare_spec a b); try done; nia.
    + destruct (Z.compare_spec a b); try done; nia.
    + destruct (Z.compare_spec a b); try done; nia.
  - pose proof (varuint_prefix_mono _ _ (proj1 Hnb) Hgt (proj2 Hna)).
    rewrite (proj2 (Z.compare_gt_iff _ _)) by lia.
    destruct (Z.compare_spec a b) as [->|Hc|Hc]; [lia| |done]. pose proof (num_bytes_mono a b). lia.
Qed.

(** ** Compound types *)

Lemma integral_single signed : Single (integral_key signed 1) (ok (t_integral signed 1)).
Proof.
  intros a [Hn Ha]. destruct (integral_key_shift signed 1 a Hn Ha) as [-> Hr].
  change (256 ^ Z.of_nat 1) with 256 in Hr. eexists. split; [reflexivity|]. by apply Z.mod_pos_bound.
Qed.
Lemma bool_single : Single bool_key (fun _ => True).
Proof. intros [] _; eexists; (split; [reflexivity|lia]). Qed.

Section combinators.
Context {A B : Type} (ka : A -> list Z) (ca : A -> A -> comparison) (P : A -> Prop).
Context (kb : B -> list Z) (cb : B -> B -> comparison) (Q : B -> Prop).
Context `{!Ordered ka ca P}.

#[export] Instance pair_ordered `{!Ordered kb cb Q} :
  Ordered (pair_key ka kb) (pair_compare ca cb) (fun p => P p.1 /\ Q p.2).
Proof.
  intros [a b] [a' b'] s t [Ha Hb] [Ha' Hb']. unfold pair_key, pair_compare. cbn [fst snd] in *.
  rewrite <- !app_assoc, key_order by done. by rewrite key_order, first_of_assoc.
Qed.

#[export] Instance array_ordered n :
  Ordered (array_key ka) (list_compare ca) (fun l => length l = n /\ Forall P l).
Proof.
  intros a b s t [<- Ha] [Hl Hb]. revert b Hl Hb.
  induction Ha as [|x a Hx Ha IH]; intros [|y b] Hl Hb; try discriminate; [done|].
  inversion_clear Hb as [|? ? Hy Hb']. injection Hl as Hl. unfold array_key in *. cbn [fmap list_fmap concat].
  rewrite <- !app_assoc, key_order by done. cbn [list_compare]. by rewrite first_of_assoc, IH.
Qed.

(** An element against another, against the end, and the end against it. *)
Record Delimited (sg : bool) : Prop := {
  d_some : forall a b s t, P a -> P b ->
    lex (optional_key sg ka (Some a) ++ s) (optional_key sg ka (Some b) ++ t) = first_of (ca a b) (lex s t);
  d_none : forall a s t, P a ->
    lex (optional_key sg ka None ++ s) (optional_key sg ka (Some a) ++ t) = Lt;
  d_end : forall a s t, P a ->
    lex (optional_key sg ka (Some a) ++ s) (optional_key sg ka None ++ t) = Gt
}.

Lemma delimited_wide : Delimited false.
Proof. split; intros; cbn; [by apply key_order|done|done]. Qed.
Lemma delimited_single : Single ka P -> Delimited true.
Proof.
  intros S. split.
  - intros a b s t Ha Hb. destruct (S a Ha) as (x & Ex & Hx). destruct (S b Hb) as (y & Ey & Hy).
    pose proof (fun s t => key_order a b s t Ha Hb) as L. rewrite Ex, Ey in L. cbn [app] in L.
    unfold optional_key. rewrite Ex, Ey. cbn [hd].
    destruct (Z.eqb_spec x 0) as [->|], (Z.eqb_spec y 0) as [->|]; cbn [app]; [| | |by apply L].
    + rewrite <- (L s t), !lex_cons. done.
    + rewrite <- (L s t), !lex_cons. destruct y; [done|done|lia].
    + rewrite <- (L s t), !lex_cons. destruct x; [done|done|lia].
  - intros a s t Ha. destruct (S a Ha) as (x & Ex & Hx). unfold optional_key. rewrite Ex. cbn [hd].
    destruct (Z.eqb_spec x 0) as [->|]; [done|]. destruct x; [done|done|lia].
  - intros a s t Ha. destruct (S a Ha) as (x & Ex & Hx). unfold optional_key. rewrite Ex. cbn [hd].
    destruct (Z.eqb_spec x 0) as [->|]; [done|]. destruct x; [done|done|lia].
Qed.

Context (sg : bool) (D : Delimited sg).

Lemma optional_ordered :
  Ordered (optional_key sg ka) (option_compare ca) (fun o => from_option P True o).
Proof.
  intros [a|] [b|] s t Ha Hb; cbn [option_compare first_of].
  - by apply (d_some _ D).
  - by apply (d_end _ D).
  - by apply (d_none _ D).
  - apply lex_refl_app.
Qed.

Lemma range_ordered : Ordered (range_key sg ka) (list_compare ca) (Forall P).
Proof.
  intros a b s t Ha. revert b. unfold range_key.
  induction Ha as [|x a Hx Ha IH]; intros b Hb; destruct Hb as [|y b Hy Hb]; cbn [fmap list_fmap concat app list_compare].
  - apply lex_refl_app.
  - rewrite <- !app_assoc. by apply (d_none _ D).
  - rewrite <- !app_assoc. by apply (d_end _ D).
  - rewrite <- !app_assoc, (d_some _ D), first_of_assoc by done. f_equal.
    specialize (IH b Hb). by rewrite <- !app_assoc in IH.
Qed.
End combinators.

(** A string is a range of its bytes. *)
Lemma string_key_range l : bytes l -> string_key l = range_key true (integral_key false 1) l.
Proof.
  unfold range_key. induction 1 as [|b l Hb Hl IH]; [done|]. cbn [string_key]. rewrite IH.
  assert (integral_key false 1 b = [b]) as E.
  { rewrite (proj1 (integral_key_shift false 1 b ltac:(lia) ltac:(cbn; lia))). cbn [int_min].
    rewrite Z.sub_0_r. unfold be_bytes. cbn [le_bytes]. by rewrite Z.mod_small. }
  cbn [fmap list_fmap concat]. change (optional_key true (integral_key false 1) (Some b)) with
    (let x := hd 0 (integral_key false 1 b) in if x =? 0 then [x; 1] else [x]). rewrite E. cbn [hd].
  destruct (Z.eqb_spec b 0) as [->|]; by rewrite <- !app_assoc.
Qed.
#[export] Instance string_ordered : Ordered string_key (list_compare Z.compare) bytes.
Proof.
  intros a b s t Ha Hb. rewrite !string_key_range by done.
  apply (range_ordered _ _ (ok (t_integral false 1))).
  - apply delimited_single; [apply _|apply integral_single].
  - eapply Forall_impl; [exact Ha|]. cbn. lia.
  - eapply Forall_impl; [exact Hb|]. cbn. lia.
Qed.

(** ** Every type *)

Section induction.
Context (P : ty -> Prop).
Context (Hunit : P t_unit) (Hint : forall s n, P (t_integral s n)) (Hbool : P t_bool).
Context (Hfloat : forall n, P (t_float n)) (Hvaruint : P t_varuint32) (Hfixed : forall n, P (t_fixed_bytes n)).
Context (Hstring : P t_string) (Hpair : forall t u, P t -> P u -> P (t_pair t u)).
Context (Harray : forall n t, P t -> P (t_array n t)) (Hopt : forall t, P t -> P (t_optional t)).
Context (Hrange : forall t, P t -> P (t_range t)) (Hvariant : forall ts, Forall P ts -> P (t_variant ts)).

Fixpoint ty_nested_ind (t : ty) : P t :=
  match t with
  | t_unit => Hunit
  | t_integral s n => Hint s n
  | t_bool => Hbool
  | t_float n => Hfloat n
  | t_varuint32 => Hvaruint
  | t_fixed_bytes n => Hfixed n
  | t_string => Hstring
  | t_pair t u => Hpair t u (ty_nested_ind t) (ty_nested_ind u)
  | t_array n t => Harray n t (ty_nested_ind t)
  | t_optional t => Hopt t (ty_nested_ind t)
  | t_range t => Hrange t (ty_nested_ind t)
  | t_variant ts => Hvariant ts
      ((fix go (ts : list ty) : Forall P ts :=
          match ts with
          | [] => Forall_nil_2 P
          | t :: ts => Forall_cons_2 P t ts (ty_nested_ind t) (go ts)
          end) ts)
  end.
End induction.

Lemma to_key_single t : single t = true -> Single (to_key t) (ok t).
Proof.
  destruct t as [|signed n| | | | | | | | | |]; cbn; try discriminate; intros H.
  - apply Nat.eqb_eq in H as ->. apply integral_single.
  - apply bool_single.
Qed.
Lemma to_key_delimited t : Ordered (to_key t) (compare t) (ok t) ->
  Delimited (to_key t) (compare t) (ok t) (single t).
Proof.
  intros O. destruct (single t) eqn:E; [|by apply delimited_wide].
  apply delimited_single; [exact O|by apply to_key_single].
Qed.

(** A variant: the keys of alternatives from [i] on start with their index. *)
Definition held_key := fix held_key (i : Z) (ts : list ty) : val (t_variant ts) -> list Z :=
  match ts return val (t_variant ts) -> list Z with
  | [] => fun v => match v with end
  | t :: ts => fun v => match v with
                        | inl x => varuint32_key i ++ to_key t x
                        | inr y => held_key (i + 1) ts y
                        end
  end.
Definition held_ok := fix held_ok (ts : list ty) : val (t_variant ts) -> Prop :=
  match ts return val (t_variant ts) -> Prop with
  | [] => fun v => match v with end
  | t :: ts => fun v => match v with inl x => ok t x | inr y => held_ok ts y end
  end.

Lemma held_key_index ts : forall i v, exists j rest,
  held_key i ts v = varuint32_key j ++ rest /\ i <= j < i + Z.of_nat (length ts).
Proof.
  induction ts as [|t ts IH]; intros i v; [destruct v|]. destruct v as [x|y].
  - exists i, (to_key t x). cbn [length]. split; [done|lia].
  - destruct (IH (i + 1) y) as (j & rest & E & Hj). exists j, rest. cbn [length]. split; [exact E|lia].
Qed.

Lemma held_ordered ts : Forall (fun t => Ordered (to_key t) (compare t) (ok t)) ts ->
  forall i v w s t, 0 <= i -> i + Z.of_nat (length ts) <= 2 ^ 32 -> held_ok ts v -> held_ok ts w ->
  lex (held_key i ts v ++ s) (held_key i ts w ++ t) = first_of (compare (t_variant ts) v w) (lex s t).
Proof.
  induction 1 as [|u ts Hu Hts IH]; intros i v w s t Hi Hn Hv Hw; [destruct v|]. cbn [length] in Hn.
  destruct v as [x|v], w as [y|w].
  - change (lex ((varuint32_key i ++ to_key u x) ++ s) ((varuint32_key i ++ to_key u y) ++ t)
            = first_of (compare u x y) (lex s t)).
    rewrite <- !app_assoc, lex_refl_app. by apply Hu.
  - destruct (held_key_index ts (i + 1) w) as (j & rest & E & Hj).
    change (lex ((varuint32_key i ++ to_key u x) ++ s) (held_key (i + 1) ts w ++ t) = Lt).
    rewrite E, <- !app_assoc, varuint32_ordered by lia. by rewrite (proj2 (Z.compare_lt_iff _ _)) by lia.
  - destruct (held_key_index ts (i + 1) v) as (j & rest & E & Hj).
    change (lex (held_key (i + 1) ts v ++ s) ((varuint32_key i ++ to_key u y) ++ t) = Gt).
    rewrite E, <- !app_assoc, varuint32_ordered by lia. by rewrite (proj2 (Z.compare_gt_iff _ _)) by lia.
  - apply (IH (i + 1)); [lia|lia|done|done].
Qed.

Lemma to_key_ordered t : Ordered (to_key t) (compare t) (ok t).
Proof.
  induction t as [|signed n| |n| |n| |t u IHt IHu|n t IH|t IH|t IH|ts IH] using ty_nested_ind.
  - by intros [] [] s t _ _.
  - apply integral_ordered.
  - apply bool_ordered.
  - apply float_ordered.
  - apply varuint32_ordered.
  - apply fixed_bytes_ordered.
  - apply string_ordered.
  - apply (pair_ordered (to_key t) (compare t) (ok t) (to_key u) (compare u) (ok u)).
  - apply (array_ordered (to_key t) (compare t) (ok t) n).
  - apply (optional_ordered (to_key t) (compare t) (ok t) (single t)), to_key_delimited, IH.
  - apply (range_ordered (to_key t) (compare t) (ok t) (single t)), to_key_delimited, IH.
  - intros v w s t [Hn Hv] [_ Hw]. apply (held_ordered ts IH 0); [lia|lia|exact Hv|exact Hw].
Qed.

Lemma lex_Eq a b : lex a b = Eq -> a = b.
Proof.
  revert b. induction a as [|x a IH]; intros [|y b] H; try discriminate; [done|]. cbn in H.
  destruct (Z.compare_spec x y) as [->|?|?]; try discriminate. f_equal. by apply IH.
Qed.

(** C33: keys sort like the values they stand for.  For every type built from
    integers of any width, booleans, floats, variable-length integers,
    checksums, strings, structs, arrays, optionals, containers and variants:
    comparing the keys byte by byte compares the values, two values have the
    same key only if they compare equal, and no key is a proper prefix of
    another, so keys may be concatenated and cut without confusing values. *)
Theorem keys_sort_like_values (t : ty) (a b : val t) :
  ok t a -> ok t b ->
  lex (to_key t a) (to_key t b) = compare t a b /\
  (compare t a b = Eq <-> to_key t a = to_key t b) /\
  (to_key t a `prefix_of` to_key t b -> to_key t a = to_key t b).
Proof.
  intros Ha Hb. pose proof (to_key_ordered t a b) as L.
  assert (lex (to_key t a) (to_key t b) = compare t a b) as E.
  { specialize (L [] [] Ha Hb). by rewrite !app_nil_r, first_of_Eq in L. }
  split; [done|]. rewrite <- E. split.
  - split; [apply lex_Eq|]. intros ->. pose proof (lex_refl_app (to_key t b) [] []) as R.
    by rewrite app_nil_r in R.
  - intros [k Hk]. destruct k as [|x k]; [by rewrite app_nil_r in Hk|].
    pose proof (L (x :: k) [] Ha Hb) as L1. pose proof (L (x :: k) [x + 1] Ha Hb) as L2.
    rewrite app_nil_r, <- Hk in L1. pose proof (lex_refl_app (to_key t b) [] []) as R.
    rewrite app_nil_r in R. rewrite R in L1. destruct (compare t a b); discriminate.
Qed.

(** The struct of the test of the keys ([libraries/abieos/src/key_test.cpp]):
    a vector, an optional, and a variant of an int and a double. *)
Definition demo_type : ty :=
  t_pair (t_range (t_integral true 4))
    (t_pair (t_optional (t_integral true 4)) (t_variant [t_integral true 4; t_float 8])).
Definition demo_low : val demo_type := ([1; -7], (None, inr (inl (2 ^ 63 + 5)))).
Definition demo_high : val demo_type := ([1; -7], (Some (-1), inl 0)).

Lemma keys_sort_like_values_witness :
  compare demo_type demo_low demo_high = Lt /\
  lex (to_key demo_type demo_low) (to_key demo_type demo_high) = compare demo_type demo_low demo_high /\
  (compare demo_type demo_low demo_high = Eq <-> to_key demo_type demo_low = to_key demo_type demo_high) /\
  (to_key demo_type demo_low `prefix_of` to_key demo_type demo_high ->
   to_key demo_type demo_low = to_key demo_type demo_high).
Proof.
  split; [reflexivity|].
  apply (keys_sort_like_values demo_type demo_low demo_high); cbn; repeat constructor; cbn; lia.
Defined.

End ToKey.
