(* ===== verification/Host.v ===== *)
(** The host an action runs on.  What a contract reads from the chain through
    imported functions (the receiver, the authorizations of the transaction,
    the block time) is not code of the repository: it is a record every
    operation takes.  [libraries/eosiolib/contracts/include/eosio/system.hpp]
    and [action.hpp] declare these functions. *)
From S2P Require Import Prelude Time Asset Crypto.
Open Scope Z_scope.

Module Host.

Record host : Type := mk {
  self : Z;                        (* get_self(), current_receiver() *)
  has_auth : Z -> bool;            (* the accounts that authorized the action *)
  has_permission : Z -> Z -> bool; (* the (account, permission) levels *)
  is_account : Z -> bool;
  current_time_point : Z           (* microseconds *)
}.

(** A missing authority ends the transaction inside the host. *)
Definition require_auth (h : host) (a : Z) : result unit :=
  if has_auth h a then Ok tt else Err (Trap "missing required authority").
Definition require_permission (h : host) (a p : Z) : result unit :=
  if has_permission h a p then Ok tt else Err (Trap "missing required authority").

(** [current_block_time()] *)
Definition current_block_time (h : host) : Z := Time.block_of_time_point (current_time_point h).

Lemma require_auth_Ok h a u : require_auth h a = Ok u <-> has_auth h a = true.
Proof. destruct u. unfold require_auth. destruct (has_auth h a); split; congruence. Qed.

Lemma require_permission_Ok h a p u :
  require_permission h a p = Ok u <-> has_permission h a p = true.
Proof. destruct u. unfold require_permission. destruct (has_permission h a p); split; congruence. Qed.

(** What the code takes from outside the repository besides the chain: the
    hash and signature intrinsics, two C++ library facilities whose exact
    results the language leaves open, and reads of other contracts' tables. *)
Record env : Type := mk_env {
  sha256 : list Z -> Z;
  recover_key : Z -> list Z -> public_key;           (* digest, signature *)
  (* [std::uniform_int_distribution(0, n)] applied to a generator: given the
     generator's next outputs, the value and how many outputs it used *)
  uniform : Z -> (nat -> Z) -> Z * nat;
  (* [floor(log(num / den) / log((g + 1) / g))] computed in doubles *)
  log_floor : Z -> Z -> Z -> nat;
  token_balance : option asset;                       (* of [self], at the token contract *)
  key_text : public_key -> string;                    (* a key in an error message *)
  decode_base58 : string -> bool                      (* [DecodeBase58] succeeds *)
}.

(** [k] is the exact floor of the quotient of logarithms. *)
Definition is_log_floor (num den g : Z) (k : nat) : Prop :=
  den * (g + 1) ^ Z.of_nat k <= num * g ^ Z.of_nat k /\
  num * g ^ Z.of_nat (S k) < den * (g + 1) ^ Z.of_nat (S k).

(** The documented behaviour the development relies on.  The quotient of two
    rounded logarithms may fall just below an integer it should equal, never
    further away, on the 16-bit counts the contract uses it on. *)
Record env_ok (e : env) : Prop := {
  sha256_range : forall bs, 0 <= sha256 e bs < 2 ^ 256;
  uniform_range : forall n g, 0 <= n -> 0 <= (uniform e n g).1 <= n;
  log_floor_spec : forall num den g k,
    0 < den -> 0 < g -> is_log_floor num den g k ->
    log_floor e num den g = k \/
    (S (log_floor e num den g) = k /\ den * (g + 1) ^ Z.of_nat k = num * g ^ Z.of_nat k)
}.

(** ** An environment that meets these laws *)

Fixpoint log_floor_search (fuel : nat) (num den g : Z) (k : nat) : nat :=
  match fuel with
  | O => k
  | S fuel' =>
      if num * g ^ Z.of_nat (S k) <? den * (g + 1) ^ Z.of_nat (S k) then k
      else log_floor_search fuel' num den g (S k)
  end.
Definition exact_log_floor (num den g : Z) : nat :=
  log_floor_search (Z.to_nat (g * num)) num den g 0.

Section exact.
Context (num den g : Z) (Hd : 0 < den) (Hg : 0 < g).

Lemma pow_succ x k : x ^ Z.of_nat (S k) = x ^ Z.of_nat k * x.
Proof. rewrite Nat2Z.inj_succ, Z.pow_succ_r by lia. lia. Qed.

Lemma log_below_mono j k :
  (j <= k)%nat -> den * (g + 1) ^ Z.of_nat k <= num * g ^ Z.of_nat k ->
  den * (g + 1) ^ Z.of_nat j <= num * g ^ Z.of_nat j.
Proof.
  induction 1 as [|k Hjk IH]; [done|]. rewrite !pow_succ. intros H. apply IH.
  assert (0 < g ^ Z.of_nat k) by (apply Z.pow_pos_nonneg; lia).
  assert (0 < (g + 1) ^ Z.of_nat k) by (apply Z.pow_pos_nonneg; lia). nia.
Qed.

(** Bernoulli's inequality bounds the search. *)
Lemma bernoulli k : (g + Z.of_nat k) * g ^ Z.of_nat k <= g * (g + 1) ^ Z.of_nat k.
Proof.
  induction k as [|k IH]; [cbn; lia|]. rewrite !pow_succ.
  assert (0 < g ^ Z.of_nat k) by (apply Z.pow_pos_nonneg; lia). nia.
Qed.

Lemma log_bound k :
  den * (g + 1) ^ Z.of_nat k <= num * g ^ Z.of_nat k -> Z.of_nat k <= g * num.
Proof.
  intros H. pose proof (bernoulli k).
  assert (0 < g ^ Z.of_nat k) by (apply Z.pow_pos_nonneg; lia). 
  assert (0 < (g + 1) ^ Z.of_nat k) by (apply Z.pow_pos_nonneg; lia).
  assert ((g + Z.of_nat k) * g ^ Z.of_nat k <= g * num * g ^ Z.of_nat k) as Hm by nia.
  apply Z.mul_le_mono_pos_r in Hm; lia.
Qed.

Lemma log_floor_search_ok fuel j k :
  is_log_floor num den g k -> (j <= k)%nat -> (k < j + fuel)%nat \/ (k = j /\ fuel = 0)%nat ->
  log_floor_search fuel num den g j = k.
Proof.
  intros [Hle Hlt]. revert j. induction fuel as [|fuel IH]; intros j Hj Hf; cbn [log_floor_search].
  - lia.
  - destruct (decide (j = k)) as [->|Hne].
    + destruct (Z.ltb_spec (num * g ^ Z.of_nat (S k)) (den * (g + 1) ^ Z.of_nat (S k))); [done|lia].
    + pose proof (log_below_mono (S j) k ltac:(lia) Hle).
      destruct (Z.ltb_spec (num * g ^ Z.of_nat (S j)) (den * (g + 1) ^ Z.of_nat (S j))); [lia|].
      apply IH; lia.
Qed.
End exact.

Lemma exact_log_floor_ok num den g k :
  0 < den -> 0 < g -> is_log_floor num den g k -> exact_log_floor num den g = k.
Proof.
  intros Hd Hg Hk. unfold exact_log_floor. apply log_floor_search_ok; [done | done | done | lia |].
  destruct Hk as [Hle Hlt]. pose proof (log_bound num den g Hd Hg k Hle).
  pose proof (bernoulli g Hg k).
  assert (0 < g ^ Z.of_nat k) by (apply Z.pow_pos_nonneg; lia).
  assert (0 < (g + 1) ^ Z.of_nat k) by (apply Z.pow_pos_nonneg; lia).
  assert ((g + Z.of_nat k) * g ^ Z.of_nat k <= g * num * g ^ Z.of_nat k) as Hm by nia.
  apply Z.mul_le_mono_pos_r in Hm; lia.
Qed.

Definition demo_env : env := {|
  sha256 := fun bs => (foldl (fun a b => a * 257 + b + 1) 7 bs) mod 2 ^ 256;
  recover_key := fun digest sig => Crypto.key_k1 sig;
  uniform := fun n g => (wrap 32 (g 0%nat) mod (n + 1), 1%nat);
  log_floor := exact_log_floor;
  token_balance := None;
  key_text := fun _ => "PUB"%string;
  decode_base58 := fun s => negb (Nat.eqb (String.length s) 0)
|}.

Lemma demo_env_ok : env_ok demo_env.
Proof.
  split; cbn.
  - intros bs. apply Z.mod_pos_bound. lia.
  - intros n g Hn. pose proof (Z.mod_pos_bound (wrap 32 (g 0%nat)) (n + 1)). lia.
  - intros num den g k Hd Hg Hk. left. by apply exact_log_floor_ok.
Qed.

End Host.
Export Host (host, env, env_ok).

(** Inverts the authorization checks besides what [res_inv] does. *)
Ltac host_inv := repeat (res_inv_step || match goal with
  | H : Host.require_auth _ _ = Ok _ |- _ => apply Host.require_auth_Ok in H
  | H : Host.require_permission _ _ _ = Ok _ |- _ => apply Host.require_permission_Ok in H
  end); try discriminate.
