(* ===== verification/Token.v ===== *)
(** The [eosio.token] contract of the repository
    ([contracts/token/src/token.cpp], [contracts/token/include/token/token.hpp]):
    currencies, balances, and the six actions.  The table [stat] has one row
    per currency (its scope is the symbol code); [accounts] has one row per
    owner and symbol code.  Who pays for the RAM of a row is not modelled. *)
From S2P Require Import Prelude Asset Host.
Open Scope Z_scope.

Module Token.
Import Asset.

Record currency_stats : Type := mk_stats { supply : asset; max_supply : asset; issuer : Z }.
#[global] Instance set_supply : Setter supply :=
  fun f s => mk_stats (f (supply s)) (max_supply s) (issuer s).

Record state : Type := mk_state {
  stat : gmap Z currency_stats;
  accounts : gmap (Z * Z) asset        (* (owner, symbol code raw) *)
}.
#[global] Instance set_stat : Setter stat := fun f s => mk_state (f (stat s)) (accounts s).
#[global] Instance set_accounts : Setter accounts := fun f s => mk_state (stat s) (f (accounts s)).

Definition sym_code (a : asset) : Z := Symbol.code (symbol a).

Section actions.
Context (h : host).

Definition sub_balance (st : state) (owner : Z) (value : asset) : result state :=
  from ← some_or (Check "no balance object found") (accounts st !! (owner, sym_code value));
  _ ← check (amount value <=? amount from) "overdrawn balance";
  balance ← Asset.sub from value;
  Ok (st <| accounts ::= <[(owner, sym_code value) := balance]> |>).

Definition add_balance (st : state) (owner : Z) (value : asset) : result state :=
  match accounts st !! (owner, sym_code value) with
  | None => Ok (st <| accounts ::= <[(owner, sym_code value) := value]> |>)
  | Some to =>
      balance ← Asset.add to value;
      Ok (st <| accounts ::= <[(owner, sym_code value) := balance]> |>)
  end.

Definition create (st : state) (issuer : Z) (maximum_supply : asset) : result state :=
  _ ← Host.require_auth h (Host.self h);
  _ ← check (Symbol.is_valid (symbol maximum_supply)) "invalid symbol name";
  _ ← check (Asset.is_valid maximum_supply) "invalid supply";
  _ ← check (0 <? amount maximum_supply) "max-supply must be positive";
  _ ← check (bool_decide (stat st !! sym_code maximum_supply = None))
        "token with symbol already exists";
  Ok (st <| stat ::= <[sym_code maximum_supply :=
        mk_stats (Asset.mk 0 (symbol maximum_supply)) maximum_supply issuer]> |>).

Definition issue (st : state) (to : Z) (quantity : asset) (memo : string) : result state :=
  _ ← check (Symbol.is_valid (symbol quantity)) "invalid symbol name";
  _ ← check (Z.of_nat (String.length memo) <=? 256) "memo has more than 256 bytes";
  s ← some_or (Check "token with symbol does not exist, create token before issue")
        (stat st !! sym_code quantity);
  _ ← check (to =? issuer s) "tokens can only be issued to issuer account";
  _ ← Host.require_auth h (issuer s);
  _ ← check (Asset.is_valid quantity) "invalid quantity";
  _ ← check (0 <? amount quantity) "must issue positive quantity";
  _ ← check (symbol quantity =? symbol (supply s)) "symbol precision mismatch";
  _ ← check (amount quantity <=? amount (max_supply s) - amount (supply s))
        "quantity exceeds available supply";
  supply' ← Asset.add (supply s) quantity;
  add_balance (st <| stat ::= <[sym_code quantity := s <| supply := supply' |>]> |>)
    (issuer s) quantity.

Definition retire (st : state) (quantity : asset) (memo : string) : result state :=
  _ ← check (Symbol.is_valid (symbol quantity)) "invalid symbol name";
  _ ← check (Z.of_nat (String.length memo) <=? 256) "memo has more than 256 bytes";
  s ← some_or (Check "token with symbol does not exist") (stat st !! sym_code quantity);
  _ ← Host.require_auth h (issuer s);
  _ ← check (Asset.is_valid quantity) "invalid quantity";
  _ ← check (0 <? amount quantity) "must retire positive quantity";
  _ ← check (symbol quantity =? symbol (supply s)) "symbol precision mismatch";
  supply' ← Asset.sub (supply s) quantity;
  sub_balance (st <| stat ::= <[sym_code quantity := s <| supply := supply' |>]> |>)
    (issuer s) quantity.

(** The second component lists the accounts notified of the action. *)
Definition transfer (st : state) (from to : Z) (quantity : asset) (memo : string)
    : result (state * list Z) :=
  _ ← check (negb (from =? to)) "cannot transfer to self";
  _ ← Host.require_auth h from;
  _ ← check (Host.is_account h to) "to account does not exist";
  s ← some_or (Check "unable to find key") (stat st !! sym_code quantity);
  _ ← check (Asset.is_valid quantity) "invalid quantity";
  _ ← check (0 <? amount quantity) "must transfer positive quantity";
  _ ← check (symbol quantity =? symbol (supply s)) "symbol precision mismatch";
  _ ← check (Z.of_nat (String.length memo) <=? 256) "memo has more than 256 bytes";
  st ← sub_balance st from quantity;
  st ← add_balance st to quantity;
  Ok (st, [from; to]).

Definition open (st : state) (owner sym ram_payer : Z) : result state :=
  _ ← Host.require_auth h ram_payer;
  _ ← check (Host.is_account h owner) "owner account does not exist";
  s ← some_or (Check "symbol does not exist") (stat st !! Symbol.code sym);
  _ ← check (symbol (supply s) =? sym) "symbol precision mismatch";
  match accounts st !! (owner, Symbol.code sym) with
  | Some _ => Ok st
  | None =>
      zero ← Asset.make 0 sym;
      Ok (st <| accounts ::= <[(owner, Symbol.code sym) := zero]> |>)
  end.

Definition close (st : state) (owner sym : Z) : result state :=
  _ ← Host.require_auth h owner;
  it ← some_or (Check "Balance row already deleted or never existed. Action won't have any effect.")
         (accounts st !! (owner, Symbol.code sym));
  _ ← check (amount it =? 0) "Cannot close because the balance is not zero.";
  Ok (st <| accounts ::= delete (owner, Symbol.code sym) |>).
End actions.

(** [get_supply] and [get_balance] *)
Definition get_supply (st : state) (code : Z) : result asset :=
  s ← some_or (Check "unable to find key") (stat st !! code); Ok (supply s).
Definition get_balance (st : state) (owner code : Z) : result asset :=
  some_or (Check "unable to find key") (accounts st !! (owner, code)).

(** The contract as a transition system: any action, on any host. *)
Inductive step : state -> state -> Prop :=
  | step_create h st i m st' : create h st i m = Ok st' -> step st st'
  | step_issue h st to q memo st' : issue h st to q memo = Ok st' -> step st st'
  | step_retire h st q memo st' : retire h st q memo = Ok st' -> step st st'
  | step_transfer h st from to q memo st' r :
      transfer h st from to q memo = Ok (st', r) -> step st st'
  | step_open h st o s p st' : open h st o s p = Ok st' -> step st st'
  | step_close h st o s st' : close h st o s = Ok st' -> step st st'.

Inductive reachable : state -> Prop :=
  | reach_init : reachable (mk_state ∅ ∅)
  | reach_step st st' : reachable st -> step st st' -> reachable st'.

(** ** The invariant *)

(** What all owners hold of currency [c]. *)
Definition in_currency (c : Z) (a : asset) : Z := if sym_code a =? c then amount a else 0.
Definition circulating (c : Z) (accts : gmap (Z * Z) asset) : Z := map_sum (in_currency c) accts.

Definition balance (st : state) (o c : Z) : Z := from_option amount 0 (accounts st !! (o, c)).

Record inv (st : state) : Prop := {
  inv_stat : forall c s, stat st !! c = Some s ->
    sym_code (supply s) = c /\ symbol (max_supply s) = symbol (supply s) /\
    amount (supply s) = circulating c (accounts st) /\
    amount (supply s) <= amount (max_supply s) <= max_amount;
  inv_acct : forall o c a, accounts st !! (o, c) = Some a ->
    sym_code a = c /\ 0 <= amount a /\
    exists s, stat st !! c = Some s /\ symbol (supply s) = symbol a
}.

Lemma inv_nonneg st c :
  inv st -> map_Forall (fun _ a => 0 <= in_currency c a) (accounts st).
Proof.
  intros Hi [o c'] a Ha. apply (inv_acct _ Hi) in Ha as (_ & Ha & _).
  unfold in_currency. destruct (_ =? _); lia.
Qed.

(** Every balance is within the supply, hence in range. *)
Lemma inv_balance_le st o c a s :
  inv st -> accounts st !! (o, c) = Some a -> stat st !! c = Some s ->
  0 <= amount a <= amount (supply s).
Proof.
  intros Hi Ha Hs. destruct (inv_acct _ Hi _ _ _ Ha) as (Hc & H0 & _).
  destruct (inv_stat _ Hi _ _ Hs) as (_ & _ & Hsum & _).
  pose proof (map_sum_lookup_le _ _ _ _ (inv_nonneg st c Hi) Ha) as Hle.
  unfold in_currency in Hle at 1. rewrite Hc, Z.eqb_refl in Hle.
  unfold circulating in Hsum. lia.
Qed.

Lemma inv_ranged st o c a : inv st -> accounts st !! (o, c) = Some a -> ranged a.
Proof.
  intros Hi Ha. destruct (inv_acct _ Hi _ _ _ Ha) as (_ & H0 & s & Hs & _).
  pose proof (inv_balance_le _ _ _ _ _ Hi Ha Hs).
  destruct (inv_stat _ Hi _ _ Hs) as (_ & _ & _ & Hm).
  unfold ranged, max_amount in *. lia.
Qed.

Lemma circulating_set st o c a b c' :
  inv st -> accounts st !! (o, c) = Some a -> sym_code b = c ->
  circulating c' (<[(o, c) := b]> (accounts st)) =
  circulating c' (accounts st) + (if c =? c' then amount b - amount a else 0).
Proof.
  intros Hi Ha Hb. destruct (inv_acct _ Hi _ _ _ Ha) as (Hc & _).
  unfold circulating. rewrite (map_sum_update _ _ a) by done.
  unfold in_currency. rewrite Hb, Hc. destruct (c =? c'); lia.
Qed.

Lemma circulating_new st o c b c' :
  accounts st !! (o, c) = None -> sym_code b = c ->
  circulating c' (<[(o, c) := b]> (accounts st)) =
  circulating c' (accounts st) + (if c =? c' then amount b else 0).
Proof.
  intros Ha Hb. unfold circulating. rewrite map_sum_insert by done.
  unfold in_currency. rewrite Hb. destruct (c =? c'); lia.
Qed.

Lemma circulating_put st o c b c' :
  inv st -> sym_code b = c ->
  circulating c' (<[(o, c) := b]> (accounts st)) =
  circulating c' (accounts st) + (if c =? c' then amount b - balance st o c else 0).
Proof.
  intros Hi Hb. unfold balance. destruct (accounts st !! (o, c)) as [a|] eqn:E; cbn.
  - by apply circulating_set.
  - rewrite circulating_new by done. destruct (c =? c'); lia.
Qed.

(** Setting one balance and moving the supply by the same amount. *)
Lemma inv_put st o c b s supply' :
  inv st -> stat st !! c = Some s ->
  sym_code b = c -> 0 <= amount b -> symbol b = symbol (supply s) ->
  symbol supply' = symbol (supply s) ->
  amount supply' = amount (supply s) + amount b - balance st o c ->
  amount supply' <= amount (max_supply s) ->
  inv (mk_state (<[c := s <| supply := supply' |>]> (stat st)) (<[(o, c) := b]> (accounts st))).
Proof.
  intros Hi Hs Hb H0 Hsym Hsym' Ham Hle.
  destruct (inv_stat _ Hi _ _ Hs) as (Hc & Hmax & Hsum & Hb1 & Hb2).
  split; cbn.
  - intros c' s' [(<- & <-)|(Hne & Hs')]%lookup_insert_Some; cbn.
    + rewrite circulating_put, Z.eqb_refl by done. unfold sym_code in *.
      rewrite Hsym'. repeat split; [done | done | lia | done | lia].
    + destruct (inv_stat _ Hi _ _ Hs') as (Hc' & Hmax' & Hsum' & Hbb).
      rewrite circulating_put by done. destruct (Z.eqb_spec c c'); [done|].
      repeat split; [done | done | lia | lia | lia].
  - intros o' c' a [(Heq & <-)|(Hne & Ha)]%lookup_insert_Some.
    + injection Heq as <- <-. split; [done|]. split; [done|].
      eexists. split; [apply lookup_insert_eq|]. cbn. by rewrite Hsym'.
    + destruct (inv_acct _ Hi _ _ _ Ha) as (Hc' & Ha0 & s' & Hs' & Hsy).
      split; [done|]. split; [done|].
      destruct (decide (c = c')) as [<-|Hcc].
      * eexists. split; [apply lookup_insert_eq|]. cbn. rewrite Hsym'. congruence.
      * exists s'. by rewrite lookup_insert_ne.
Qed.

Lemma sub_balance_Ok st o q st' :
  (forall a, accounts st !! (o, sym_code q) = Some a -> ranged a) -> 0 <= amount q -> ranged q ->
  sub_balance st o q = Ok st' <->
  exists a, accounts st !! (o, sym_code q) = Some a /\ symbol a = symbol q /\
    amount q <= amount a /\
    st' = mk_state (stat st)
            (<[(o, sym_code q) := mk (amount a - amount q) (symbol q)]> (accounts st)).
Proof.
  intros Hr Hq Hrq. unfold sub_balance. split.
  - intros H. apply bind_Ok in H as (a & Ha%some_or_Ok & H).
    apply bind_Ok in H as (u & Hle%check_Ok%Z.leb_le & H).
    apply bind_Ok in H as (b & Hb & H). injection H as <-.
    apply sub_Ok in Hb as (Hs & Hba & Hbs & _); [|auto ..].
    exists a. split; [done|]. split; [done|]. split; [lia|].
    rewrite (asset_eq b _ _ Hba Hbs), <- Hs. by destruct st.
  - intros (a & Ha & Hs & Hle & ->). rewrite Ha. cbn.
    unfold check. destruct (Z.leb_spec (amount q) (amount a)); [|lia]. cbn.
    assert (Asset.sub a q = Ok (mk (amount a - amount q) (symbol q))) as ->; [|done].
    apply sub_Ok; cbn; [auto | auto |]. specialize (Hr _ Ha).
    unfold ranged, max_amount in *. cbn. repeat split; congruence || lia.
Qed.

Lemma add_balance_Ok st o q st' :
  (forall a, accounts st !! (o, sym_code q) = Some a -> ranged a /\ 0 <= amount a) ->
  0 <= amount q -> ranged q ->
  add_balance st o q = Ok st' <->
  (forall a, accounts st !! (o, sym_code q) = Some a -> symbol a = symbol q) /\
  balance st o (sym_code q) + amount q <= max_amount /\
  st' = mk_state (stat st)
          (<[(o, sym_code q) := mk (balance st o (sym_code q) + amount q) (symbol q)]> (accounts st)).
Proof.
  intros Hr Hq Hrq. unfold add_balance, balance.
  destruct (accounts st !! (o, sym_code q)) as [a|] eqn:E; cbn.
  - destruct (Hr a eq_refl) as [Hra Ha0]. split.
    + intros H. apply bind_Ok in H as (b & Hb & H). injection H as <-.
      apply add_Ok in Hb as (Hs & Hba & Hbs & Hrr); [|auto ..].
      split; [by intros ? [= <-]|]. split; [unfold ranged in Hrr; lia|].
      rewrite (asset_eq b _ _ Hba Hbs), <- Hs. by destruct st.
    + intros (Hs & Hle & ->). specialize (Hs a eq_refl).
      assert (Asset.add a q = Ok (mk (amount a + amount q) (symbol q))) as ->; [|done].
      apply add_Ok; cbn; [auto | auto |].
      unfold ranged, max_amount in *. cbn. repeat split; congruence || lia.
  - split.
    + intros H. res_inv. split; [done|]. unfold ranged in Hrq. split; [lia|]. by destruct st, q.
    + intros (_ & _ & ->). by destruct st, q.
Qed.

Lemma insert_same_supply (s : currency_stats) x : s <| supply := x |> <| supply := supply s |> = s.
Proof. by destruct s. Qed.

Lemma circulating_unknown st c : inv st -> stat st !! c = None -> circulating c (accounts st) = 0.
Proof.
  intros Hi Hc. apply map_sum_zero. intros [o c'] a Ha.
  destruct (inv_acct _ Hi _ _ _ Ha) as (Hs & _ & s & Hst & _). unfold in_currency.
  destruct (Z.eqb_spec (sym_code a) c); [|done]. congruence.
Qed.

Lemma valid_ranged q : Asset.is_valid q = true -> ranged q.
Proof. unfold Asset.is_valid. intros H. res_inv. by apply ranged_spec. Qed.

Lemma create_inv h st i m st' : inv st -> create h st i m = Ok st' -> inv st'.
Proof.
  intros Hi H. unfold create in H. host_inv.
  match goal with H : Asset.is_valid _ = true |- _ => apply valid_ranged in H as Hr end.
  unfold ranged in Hr. split; cbn.
  - intros c s [(<- & <-)|(Hne & Hs)]%lookup_insert_Some; cbn.
    + rewrite circulating_unknown by done. repeat split; lia.
    + by apply (inv_stat _ Hi).
  - intros o c a Ha. destruct (inv_acct _ Hi _ _ _ Ha) as (Hc & Hz & s & Hs & Hsy).
    split; [done|]. split; [done|]. exists s. split; [|done].
    rewrite lookup_insert_ne; [done|]. congruence.
Qed.

(** The account rows keep their properties when only [stat] changes. *)
Lemma inv_account_row st o c a :
  inv st -> accounts st !! (o, c) = Some a -> ranged a /\ 0 <= amount a.
Proof.
  intros Hi Ha. split; [by eapply inv_ranged|]. by apply (inv_acct _ Hi) in Ha as (_ & ? & _).
Qed.

Lemma balance_nonneg st o c : inv st -> 0 <= balance st o c.
Proof.
  intros Hi. unfold balance. destruct (accounts st !! _) as [a|] eqn:E; cbn; [|lia].
  by apply (inv_account_row _ _ _ _ Hi E).
Qed.

Lemma balance_set_stat st f o c : balance (st <| stat ::= f |>) o c = balance st o c.
Proof. done. Qed.

Lemma issue_inv h st to q memo st' : inv st -> issue h st to q memo = Ok st' -> inv st'.
Proof.
  intros Hi H. unfold issue in H. host_inv.
  match goal with
  | H : Asset.is_valid _ = true |- _ => apply valid_ranged in H as Hq end.
  match goal with H : stat st !! _ = Some ?y |- _ => rename y into s, H into Hs end.
  destruct (inv_stat _ Hi _ _ Hs) as (Hc & Hmax & Hsum & Hb1 & Hb2).
  pose proof (map_sum_nonneg _ _ (inv_nonneg st (sym_code q) Hi)) as Hcirc.
  fold (circulating (sym_code q) (accounts st)) in Hcirc.
  match goal with H : Asset.add _ _ = Ok ?x |- _ =>
    apply add_Ok in H as (Hsy & Ha & Hsy' & _);
      [| unfold ranged, max_amount in *; lia | done]; rename x into supply' end.
  match goal with H : add_balance _ _ _ = _ |- _ => apply add_balance_Ok in H as (_ & _ & ->) end;
    [| cbn; intros a Hal; by eapply inv_account_row | lia | done].
  rewrite balance_set_stat. pose proof (balance_nonneg st (issuer s) (sym_code q) Hi).
  cbn. apply inv_put; cbn; try done; lia.
Qed.

Lemma retire_inv h st q memo st' : inv st -> retire h st q memo = Ok st' -> inv st'.
Proof.
  intros Hi H. unfold retire in H. host_inv.
  match goal with
  | H : Asset.is_valid _ = true |- _ => apply valid_ranged in H as Hq end.
  match goal with H : stat st !! _ = Some ?y |- _ => rename y into s, H into Hs end.
  destruct (inv_stat _ Hi _ _ Hs) as (Hc & Hmax & Hsum & Hb1 & Hb2).
  pose proof (map_sum_nonneg _ _ (inv_nonneg st (sym_code q) Hi)) as Hcirc.
  fold (circulating (sym_code q) (accounts st)) in Hcirc.
  match goal with H : Asset.sub _ _ = Ok ?x |- _ =>
    apply sub_Ok in H as (Hsy & Ha & Hsy' & _);
      [| unfold ranged, max_amount in *; lia | done]; rename x into supply' end.
  match goal with H : sub_balance _ _ _ = _ |- _ => apply sub_balance_Ok in H as (a & Hal & Has & Hle & ->) end;
    [| cbn; intros a Hal; by eapply inv_ranged | lia | done].
  cbn in *. apply inv_put; cbn; try done; try lia.
  unfold balance. rewrite Hal. cbn. lia.
Qed.

(** A successful transfer, on a well-formed state. *)
Lemma transfer_Ok h st from to q memo st' r :
  inv st -> transfer h st from to q memo = Ok (st', r) ->
  exists s a, stat st !! sym_code q = Some s /\ symbol q = symbol (supply s) /\ from <> to /\
    ranged q /\ 0 < amount q /\
    accounts st !! (from, sym_code q) = Some a /\ amount q <= amount a /\ r = [from; to] /\
    st' = mk_state (stat st)
      (<[(to, sym_code q) := mk (balance st to (sym_code q) + amount q) (symbol q)]>
      (<[(from, sym_code q) := mk (amount a - amount q) (symbol q)]> (accounts st))).
Proof.
  intros Hi H. unfold transfer in H. host_inv.
  match goal with
  | H : Asset.is_valid _ = true |- _ => apply valid_ranged in H as Hq end.
  match goal with H : stat st !! _ = Some ?y |- _ => rename y into s, H into Hs end.
  match goal with H : sub_balance _ _ _ = _ |- _ => apply sub_balance_Ok in H as (a & Hal & Has & Hle & ->) end;
    [| intros a Hal; by eapply inv_ranged | lia | done].
  match goal with H : add_balance _ _ _ = _ |- _ => apply add_balance_Ok in H as (_ & _ & ->) end;
    [| cbn; intros b Hb; rewrite lookup_insert_ne in Hb by congruence; by eapply inv_account_row
     | lia | done].
  exists s, a. repeat split; try done; try apply Hq.
  cbn. do 3 f_equal. unfold balance; cbn. by rewrite lookup_insert_ne by congruence.
Qed.

Lemma transfer_inv h st from to q memo st' r :
  inv st -> transfer h st from to q memo = Ok (st', r) -> inv st'.
Proof.
  intros Hi H.
  destruct (transfer_Ok _ _ _ _ _ _ _ _ Hi H) as (s & a & Hs & Hsy & Hne & Hq & Hpos & Ha & Hle & -> & ->).
  destruct (inv_stat _ Hi _ _ Hs) as (Hc & Hmax & Hsum & Hb1 & Hb2).
  destruct (inv_acct _ Hi _ _ _ Ha) as (Hca & Hz & _).
  pose proof (inv_put st from (sym_code q) (mk (amount a - amount q) (symbol q)) s
    (mk (amount (supply s) - amount q) (symbol (supply s))) Hi Hs eq_refl) as Hi1.
  cbn in Hi1. unfold balance in Hi1. rewrite Ha in Hi1. cbn in Hi1.
  specialize (Hi1 ltac:(lia) ltac:(congruence) eq_refl ltac:(lia) ltac:(lia)).
  pose proof (inv_put _ to (sym_code q) (mk (balance st to (sym_code q) + amount q) (symbol q))
    _ (supply s) Hi1 (lookup_insert_eq _ _ _) eq_refl) as Hi2.
  assert (forall x, <[sym_code q := s <| supply := x |> <| supply := supply s |>]>
    (<[sym_code q := s <| supply := x |>]> (stat st)) = stat st) as Hsame.
  { intros x. rewrite insert_insert_eq, insert_same_supply. by apply insert_id. }
  cbn [stat accounts] in Hi2. rewrite Hsame in Hi2.
  apply Hi2; try done; try lia.
  - pose proof (balance_nonneg st to (sym_code q) Hi). cbn. lia.
  - unfold balance. cbn. rewrite lookup_insert_ne by congruence. lia.
Qed.

Lemma open_inv h st o sym p st' : inv st -> open h st o sym p = Ok st' -> inv st'.
Proof.
  intros Hi H. unfold open in H. host_inv; [done|].
  match goal with H : stat st !! _ = Some ?y |- _ => rename y into s, H into Hs end.
  match goal with H : Asset.make 0 _ = Ok ?x |- _ => unfold Asset.make in H; host_inv end.
  destruct (inv_stat _ Hi _ _ Hs) as (Hc & Hmax & Hsum & Hb1 & Hb2).
  pose proof (inv_put st o (Symbol.code (symbol (supply s))) (mk 0 (symbol (supply s))) s (supply s)
     Hi Hs eq_refl) as Hp.
  assert (s <| supply := supply s |> = s) as Hss by (by destruct s). rewrite Hss in Hp.
  rewrite insert_id in Hp by done. cbn in Hp. destruct st. apply Hp; cbn in *; try done; try lia.
  unfold balance. cbn. match goal with H : _ !! _ = None |- _ => rewrite H end. cbn. lia.
Qed.

Lemma close_inv h st o sym st' : inv st -> close h st o sym = Ok st' -> inv st'.
Proof.
  intros Hi H. unfold close in H. host_inv.
  match goal with H : accounts st !! _ = Some ?x |- _ => rename H into Ha, x into a end.
  split; cbn.
  - intros c s Hs. destruct (inv_stat _ Hi _ _ Hs) as (? & ? & Hsum & ?).
    repeat split; try done; try lia. rewrite Hsum. unfold circulating.
    rewrite (map_sum_delete _ _ _ _ Ha). unfold in_currency at 1.
    destruct (_ =? _); lia.
  - intros o' c' b [_ Hb]%lookup_delete_Some. by eapply (inv_acct _ Hi); exact Hb.
Qed.

Lemma reachable_inv st : reachable st -> inv st.
Proof.
  intros Hr. induction Hr as [|st st' Hr IH Hst].
  - split; cbn; intros *; by rewrite lookup_empty.
  - destruct Hst; [eapply create_inv | eapply issue_inv | eapply retire_inv
      | eapply transfer_inv | eapply open_inv | eapply close_inv]; eassumption.
Qed.

(** C13: in every state the token contract can reach, the recorded supply of
    each currency equals what its owners hold together, stays within the
    maximum, and every balance is between zero and the supply. *)
Theorem reachable_supply_is_circulating st c s :
  reachable st -> stat st !! c = Some s ->
  amount (supply s) = circulating c (accounts st) /\
  amount (supply s) <= amount (max_supply s) <= max_amount /\
  (forall o a, accounts st !! (o, c) = Some a ->
     symbol a = symbol (supply s) /\ 0 <= amount a <= amount (supply s)).
Proof.
  intros Hi%reachable_inv Hs.
  destruct (inv_stat _ Hi _ _ Hs) as (? & ? & ? & ?). split; [done|]. split; [lia|].
  intros o a Ha. split; [|by eapply inv_balance_le].
  destruct (inv_acct _ Hi _ _ _ Ha) as (_ & _ & s2 & Hs2 & Hsy2). congruence.
Qed.

(** Two tokens are issued to account 7. *)
Definition demo_host : host := Host.mk 1 (fun _ => true) (fun _ _ => true) (fun _ => true) 0.
Definition demo_symbol : Z := 1397703940. (* 4,EOS *)
Definition demo_state : state :=
  mk_state {[Symbol.code demo_symbol := mk_stats (mk 2 demo_symbol) (mk 1000 demo_symbol) 7]}
    {[(7, Symbol.code demo_symbol) := mk 2 demo_symbol]}.

Lemma demo_reachable : reachable demo_state.
Proof.
  eapply reach_step. 1: eapply reach_step. 1: apply reach_init.
  - apply (step_create demo_host _ 7 (mk 1000 demo_symbol)). vm_compute. reflexivity.
  - apply (step_issue demo_host _ 7 (mk 2 demo_symbol) ""). vm_compute. reflexivity.
Qed.

Lemma reachable_supply_is_circulating_witness :
  amount (mk 2 demo_symbol) = circulating (Symbol.code demo_symbol) (accounts demo_state).
Proof.
  apply (reachable_supply_is_circulating demo_state (Symbol.code demo_symbol)
    (mk_stats (mk 2 demo_symbol) (mk 1000 demo_symbol) 7) demo_reachable).
  vm_compute. reflexivity.
Defined.

Lemma two_balances_le st from to c a s :
  inv st -> from <> to -> accounts st !! (from, c) = Some a -> stat st !! c = Some s ->
  balance st to c + amount a <= amount (supply s).
Proof.
  intros Hi Hne Ha Hs. destruct (inv_stat _ Hi _ _ Hs) as (_ & _ & Hsum & _).
  pose proof (inv_balance_le _ _ _ _ _ Hi Ha Hs) as Hle.
  unfold balance. destruct (accounts st !! (to, c)) as [b|] eqn:Hb; cbn; [|lia].
  unfold circulating in Hsum. rewrite (map_sum_delete _ _ _ _ Ha) in Hsum.
  destruct (inv_acct _ Hi _ _ _ Ha) as (Hca & _). destruct (inv_acct _ Hi _ _ _ Hb) as (Hcb & _).
  assert (in_currency c b <= map_sum (in_currency c) (delete (from, c) (accounts st))) as Hb'.
  { apply (map_sum_lookup_le _ (to, c)).
    - apply map_Forall_delete, inv_nonneg, Hi.
    - rewrite lookup_delete_ne by congruence. done. }
  unfold in_currency in Hb' at 1. unfold in_currency in Hsum at 1. rewrite Hcb, Z.eqb_refl in Hb'.
  rewrite Hca, Z.eqb_refl in Hsum. lia.
Qed.

(** On a well-formed state a transfer succeeds exactly when its checks
    pass, and then it moves the quantity from one balance to the other,
    touches no other balance and no currency, and notifies both parties; it
    cannot overflow. *)
Theorem transfer_spec h st from to q memo st' r :
  inv st ->
  transfer h st from to q memo = Ok (st', r) <->
  (from <> to /\ Host.has_auth h from = true /\ Host.is_account h to = true /\
   Asset.is_valid q = true /\ 0 < amount q /\ Z.of_nat (String.length memo) <= 256 /\
   (exists s, stat st !! sym_code q = Some s /\ symbol q = symbol (supply s)) /\
   amount q <= balance st from (sym_code q)) /\
  r = [from; to] /\ stat st' = stat st /\
  accounts st' =
    <[(to, sym_code q) := mk (balance st to (sym_code q) + amount q) (symbol q)]>
    (<[(from, sym_code q) := mk (balance st from (sym_code q) - amount q) (symbol q)]> (accounts st)).
Proof.
  intros Hi. split.
  - intros H. destruct (transfer_Ok _ _ _ _ _ _ _ _ Hi H)
      as (s & a & Hs & Hsy & Hne & Hq & Hpos & Ha & Hle & -> & ->).
    assert (balance st from (sym_code q) = amount a) as -> by (unfold balance; by rewrite Ha).
    unfold transfer in H. host_inv. cbn. split_and!; try done; try lia. by exists s.
  - intros ((Hne & Hau & Hac & Hv & Hpos & Hm & (s & Hs & Hsy) & Hle) & -> & Hst & Hacc).
    destruct (inv_stat _ Hi _ _ Hs) as (Hc & Hmax & Hsum & Hb1 & Hb2).
    assert (exists a, accounts st !! (from, sym_code q) = Some a /\ amount q <= amount a
      /\ symbol a = symbol q) as (a & Ha & Hla & Hsa).
    { unfold balance in Hle. destruct (accounts st !! (from, _)) as [a|] eqn:E; cbn in Hle; [|lia].
      exists a. split; [done|]. split; [done|].
      destruct (inv_acct _ Hi _ _ _ E) as (_ & _ & s' & Hs' & <-). congruence. }
    unfold balance in Hacc at 2. rewrite Ha in Hacc. cbn in Hacc.
    unfold transfer, check, Host.require_auth. destruct (Z.eqb_spec from to); [done|]. cbn.
    rewrite Hau, Hac, Hs, Hv. cbn. destruct (Z.ltb_spec 0 (amount q)); [|lia]. cbn.
    rewrite Hsy, Z.eqb_refl. cbn. destruct (Z.leb_spec (Z.of_nat (String.length memo)) 256); [|lia].
    cbn. apply valid_ranged in Hv.
    rewrite (proj2 (sub_balance_Ok st from q
      (mk_state (stat st) (<[(from, sym_code q) := mk (amount a - amount q) (symbol q)]> (accounts st)))
      (fun b Hb => inv_ranged _ _ _ _ Hi Hb) ltac:(lia) Hv)) by eauto 10.
    cbn. erewrite (proj2 (add_balance_Ok _ to q st' _ _ Hv)); [done|].
    cbn. unfold balance. cbn. rewrite lookup_insert_ne by congruence.
    fold (balance st to (sym_code q)). split; [|split].
    + intros b Hb. destruct (inv_acct _ Hi _ _ _ Hb) as (_ & _ & s' & Hs' & <-). congruence.
    + pose proof (two_balances_le st from to (sym_code q) a s Hi Hne Ha Hs). lia.
    + rewrite <- Hst, <- Hacc. by destruct st'.
    Unshelve.
    * cbn. intros b. rewrite lookup_insert_ne by congruence. by apply inv_account_row.
    * lia.
Qed.

Lemma transfer_spec_witness :
  exists st', transfer demo_host demo_state 7 8 (mk 1 demo_symbol) "" = Ok (st', [7; 8]).
Proof.
  exists (mk_state (stat demo_state)
    {[(7, Symbol.code demo_symbol) := mk 1 demo_symbol; (8, Symbol.code demo_symbol) := mk 1 demo_symbol]}).
  apply (transfer_spec demo_host demo_state 7 8 (mk 1 demo_symbol) "" _ [7; 8]
    (reachable_inv _ demo_reachable)).
  split.
  - repeat split; try discriminate; try (vm_compute; reflexivity).
    exists (mk_stats (mk 2 demo_symbol) (mk 1000 demo_symbol) 7). split; vm_compute; reflexivity.
  - repeat split; vm_compute; reflexivity.
Defined.

End Token.
