(* ===== verification/Ledger.v ===== *)
(** The interface between money-moving code and the tables that hold money.

    A ledger is a state with one-account operations [credit] and [debit]; what
    it promises is that, on well-formed states, a successful operation changes
    the amount held in a currency by exactly the quantity and keeps the state
    well formed.  [accounts] (Accounts.v) and [distributions]
    (DistributionTables.v) are the two implementations; the conservation of the
    contract's funds (Money.v, DistributionMoney.v, ContractMoney.v) is proved
    against the interface. *)
From S2P Require Import Prelude Asset.
Open Scope Z_scope.

Module Ledger.
Import Asset.

(** The amount of [a] counted in the currency [sym]. *)
Definition in_symbol (sym : Z) (a : asset) : Z := if symbol a =? sym then amount a else 0.

Class Ledger (L K : Type) := {
  wf : L -> Prop;
  held : Z -> L -> Z;
  credit : L -> K -> asset -> result L;
  debit : L -> K -> asset -> result L;
  credit_held : forall l k q l' sym,
    wf l -> ranged q -> credit l k q = Ok l' -> held sym l' = held sym l + in_symbol sym q;
  credit_wf : forall l k q l', wf l -> ranged q -> credit l k q = Ok l' -> wf l';
  debit_held : forall l k q l' sym,
    wf l -> ranged q -> debit l k q = Ok l' -> held sym l' = held sym l - in_symbol sym q;
  debit_wf : forall l k q l', wf l -> ranged q -> debit l k q = Ok l' -> wf l'
}.

Section clients.
Context {L1 K1 L2 K2 : Type} `{!Ledger L1 K1} `{!Ledger L2 K2}.

(** Moving a quantity from one ledger to another. *)
Definition move (l1 : L1) (k1 : K1) (l2 : L2) (k2 : K2) (q : asset) : result (L1 * L2) :=
  l1' ← debit l1 k1 q; l2' ← credit l2 k2 q; Ok (l1', l2').

Lemma move_held l1 k1 l2 k2 q l1' l2' sym :
  wf l1 -> wf l2 -> ranged q -> move l1 k1 l2 k2 q = Ok (l1', l2') ->
  held sym l1' + held sym l2' = held sym l1 + held sym l2 /\ wf l1' /\ wf l2'.
Proof.
  intros H1 H2 Hq H. unfold move in H.
  apply bind_Ok in H as (a & Ha & H). apply bind_Ok in H as (b & Hb & H).
  injection H as <- <-.
  rewrite (debit_held _ _ _ _ sym H1 Hq Ha), (credit_held _ _ _ _ sym H2 Hq Hb).
  split; [lia|]. split; [by eapply debit_wf | by eapply credit_wf].
Qed.
End clients.

Lemma in_symbol_ranged sym q : ranged q -> - max_amount <= in_symbol sym q <= max_amount.
Proof. unfold ranged, in_symbol, max_amount. destruct (_ =? _); lia. Qed.

End Ledger.
