(* ===== verification/Accounts.v ===== *)
(** Balances held by the contract for users and for itself
    ([contracts/eden/include/accounts.hpp], [contracts/eden/src/accounts.cpp]).
    The table has three scopes: users, "owned" (internal accounting) and
    "outgoing" (withdrawals in flight); each is one table here.  Module
    Migrations is the progress of the table migrations. *)
From S2P Require Import Prelude Name Asset MultiIndex Ledger.
Open Scope string_scope.
Open Scope Z_scope.

Module Accounts.
Import Asset.

Definition atomic_assets_account : Z := Name.n "atomicassets".
Definition atomic_market_account : Z := Name.n "atomicmarket".

(** System accounts and the NFT market never own a user balance. *)
Definition is_possible_deposit_account (account atomic_account market_account : Z) : bool :=
  negb (account =? market_account) && negb (account =? atomic_account) &&
  negb (Z.land account 0xFFFFFFFC00000000 =? Name.n "eosio").

Record account : Type := mk { owner : Z; balance : asset }.
#[global] Instance account_eq_dec : EqDecision account.
Proof. solve_decision. Defined.
#[global] Instance set_owner : Setter owner := fun f a => mk (f (owner a)) (balance a).
#[global] Instance set_balance : Setter balance := fun f a => mk (owner a) (f (balance a)).

Abbreviation table := (gmap Z account).

Definition get_account (tb : table) (o : Z) : option account := tb !! o.

(** The minimum that opens an account is hard-coded: 3 units of 4,EOS. *)
Definition mindonation : result asset :=
  code ← Symbol.code_of_string "EOS"; Asset.make 3 (Symbol.make code 4).

Definition add_balance (tb : table) (o : Z) (quantity : asset) (enforce_minimum : bool)
    : result table :=
  match tb !! o with
  | None =>
      least ← mindonation;
      enough ← (if enforce_minimum then Asset.geb quantity least else Ok true);
      _ ← check enough "insufficient deposit to open an account...";
      Table.emplace owner tb (mk o quantity)
  | Some _ =>
      Table.modify owner tb o (fun a =>
        b ← Asset.add (balance a) quantity; Ok (a <| balance := b |>))
  end.

Definition sub_balance (tb : table) (o : Z) (quantity : asset) : result table :=
  record ← some_or (Check "----- > not found record") (tb !! o);
  enough ← Asset.geb (balance record) quantity;
  _ ← check enough "----- > insufficient balance";
  exact ← Asset.eqb (balance record) quantity;
  if (exact : bool) then Table.erase tb o
  else Table.modify owner tb o (fun r =>
         b ← Asset.sub (balance r) quantity; Ok (r <| balance := b |>)).

Definition on_rename (tb : table) (old_account new_account : Z) : result table :=
  match tb !! old_account with
  | None => Ok tb
  | Some record =>
      tb ← Table.emplace owner tb (record <| owner := new_account |>);
      Table.erase tb old_account
  end.

Definition clear_all (tb : table) : table := ∅.

(** [accounts::init]: whatever the token contract already holds for us. *)
Definition init (tb : table) (token_balance : option asset) : result table :=
  match token_balance with
  | Some b => add_balance tb (Name.n "master") b false
  | None => Ok tb
  end.

(** [migrate_account_v0]: sums the user balances in several steps, then books
    the rest of the token balance to "master". *)
Record migrate_account_v0 : Type := mk_migrate { last_visited : Z; user_total : asset }.

Definition adjust_balance (m : migrate_account_v0) (o : Z) (q : asset)
    : result migrate_account_v0 :=
  if o <=? last_visited m then
    t ← Asset.add (user_total m) q; Ok (mk_migrate (last_visited m) t)
  else Ok m.

(** The loop over the users; the flag says that the end was reached. *)
Fixpoint sum_users (tb : table) (ks : list Z) (m : migrate_account_v0) (max_steps : nat)
    : result (migrate_account_v0 * bool * nat) :=
  match max_steps with
  | O => Ok (m, false, O)
  | S n =>
      match ks with
      | [] => Ok (m, true, max_steps)
      | k :: ks' =>
          a ← some_or (Trap "db_get") (tb !! k);
          t ← Asset.add (user_total m) (balance a);
          sum_users tb ks' (mk_migrate (owner a) t) n
      end
  end.

Definition migrate_some (users owned : table) (default_token : Z) (token_balance : option asset)
    (m : migrate_account_v0) (max_steps : nat)
    : result (migrate_account_v0 * table * nat) :=
  m ← (if symbol (user_total m) =? 0 then
         zero ← Asset.make 0 default_token; Ok (mk_migrate (last_visited m) zero)
       else Ok m);
  '(m, finished, steps) ← sum_users users (Table.upper_bound_keys users (last_visited m)) m max_steps;
  if finished : bool then
    zero ← Asset.make 0 default_token;
    let total_balance := default zero token_balance in
    covered ← Asset.geb total_balance (user_total m);
    _ ← check covered "Invariant failure: not enough funds to cover user balances";
    differs ← Asset.neqb total_balance (user_total m);
    if differs : bool then
      rest ← Asset.sub total_balance (user_total m);
      match owned !! Name.n "master" with
      | None =>
          owned ← Table.emplace owner owned (mk (Name.n "master") rest);
          Ok (m, owned, (steps - 1)%nat)
      | Some it =>
          same ← Asset.eqb (balance it) rest;
          _ ← check same "Incorrect balance";
          Ok (m, owned, steps)
      end
    else Ok (m, owned, steps)
  else Ok (m, owned, steps).

(** ** Facts *)

Record wf (tb : table) : Prop := {
  wf_owner : forall k a, tb !! k = Some a -> owner a = k;
  wf_ranged : forall k a, tb !! k = Some a -> ranged (balance a)
}.

Definition held (sym : Z) (tb : table) : Z :=
  map_sum (fun a => Ledger.in_symbol sym (balance a)) tb.

Lemma wf_empty : wf ∅.
Proof. split; intros k a; by rewrite lookup_empty. Qed.

Lemma account_wf_insert tb k a : wf tb -> owner a = k -> ranged (balance a) -> wf (<[k := a]> tb).
Proof.
  intros Hw Ho Hr. split; intros k' a' [(<- & <-)|(_ & Ha)]%lookup_insert_Some;
    (done || by eapply wf_owner || by eapply wf_ranged).
Qed.

Lemma account_wf_delete tb k : wf tb -> wf (delete k tb).
Proof.
  intros Hw. split; intros k' a' [_ Ha]%lookup_delete_Some;
    (by eapply wf_owner || by eapply wf_ranged).
Qed.

(** What [add_balance] does when it succeeds. *)
Lemma account_add_Ok tb o q e tb' :
  wf tb -> ranged q -> add_balance tb o q e = Ok tb' ->
  (tb !! o = None /\ tb' = <[o := mk o q]> tb) \/
  (exists a, tb !! o = Some a /\ symbol (balance a) = symbol q /\
     ranged (Asset.mk (amount (balance a) + amount q) (symbol q)) /\
     tb' = <[o := mk o (Asset.mk (amount (balance a) + amount q) (symbol q))]> tb).
Proof.
  intros Hw Hq H. unfold add_balance in H. destruct (tb !! o) as [a|] eqn:E.
  - right. apply Table.modify_Ok in H as (r & r' & Hr & Hf & _ & ->).
    rewrite E in Hr. injection Hr as <-. apply bind_Ok in Hf as (b & Hb & Hf). injection Hf as <-.
    pose proof (wf_owner _ Hw _ _ E) as Ho. pose proof (wf_ranged _ Hw _ _ E) as Hr.
    apply add_Ok in Hb as (Hs & Ha & Hs' & Hrr); [|done ..].
    exists a. rewrite (asset_eq b _ _ Ha Hs'), <- Hs in *. split; [done|].
    split; [done|]. split; [done|]. f_equal. destruct a; cbn in *. by subst.
  - left. split; [done|].
    apply bind_Ok in H as (m & _ & H). apply bind_Ok in H as (en & _ & H).
    apply bind_Ok in H as (u & _ & H). by apply Table.emplace_Ok in H as [_ ->].
Qed.

(** What [sub_balance] does when it succeeds. *)
Lemma account_sub_Ok tb o q tb' :
  wf tb -> ranged q -> sub_balance tb o q = Ok tb' ->
  exists a, tb !! o = Some a /\ symbol (balance a) = symbol q /\ amount q <= amount (balance a) /\
    ranged (Asset.mk (amount (balance a) - amount q) (symbol q)) /\
    tb' = if amount (balance a) =? amount q then delete o tb
          else <[o := mk o (Asset.mk (amount (balance a) - amount q) (symbol q))]> tb.
Proof.
  intros Hw Hq H. unfold sub_balance in H.
  apply bind_Ok in H as (a & E%some_or_Ok & H).
  apply bind_Ok in H as (en & [Hs ->]%compare_with_Ok & H).
  apply bind_Ok in H as (u & Hle%check_Ok%Z.leb_le & H).
  apply bind_Ok in H as (ex & [_ ->]%compare_with_Ok & H).
  exists a. split; [done|]. split; [done|]. split; [done|].
  pose proof (wf_owner _ Hw _ _ E) as Ho. pose proof (wf_ranged _ Hw _ _ E) as Hr.
  destruct (Z.eqb_spec (amount (balance a)) (amount q)) as [Heq|Hne].
  - apply Table.erase_Ok in H as [_ ->]. split; [|done].
    unfold ranged, max_amount in *. cbn [amount]. lia.
  - apply Table.modify_Ok in H as (r & r' & Hr' & Hf & _ & ->).
    rewrite E in Hr'. injection Hr' as <-. apply bind_Ok in Hf as (b & Hb & Hf). injection Hf as <-.
    apply sub_Ok in Hb as (_ & Ha & Hs' & Hrr); [|done ..].
    rewrite (asset_eq b _ _ Ha Hs'), Hs in *. split; [done|]. f_equal. destruct a; cbn in *. by subst.
Qed.

Lemma held_put sym tb o b :
  wf tb ->
  held sym (<[o := mk o b]> tb) =
  held sym tb - from_option (fun a => Ledger.in_symbol sym (balance a)) 0 (tb !! o)
  + Ledger.in_symbol sym b.
Proof.
  intros Hw. unfold held. destruct (tb !! o) as [a|] eqn:E; cbn.
  - by rewrite (map_sum_update _ _ a).
  - rewrite map_sum_insert by done. cbn. lia.
Qed.

Lemma add_balance_held tb o q e tb' sym :
  wf tb -> ranged q -> add_balance tb o q e = Ok tb' ->
  held sym tb' = held sym tb + Ledger.in_symbol sym q.
Proof.
  intros Hw Hq H.
  destruct (account_add_Ok _ _ _ _ _ Hw Hq H) as [(E & ->)|(a & E & Hs & _ & ->)];
    rewrite held_put, E by done; cbn; [lia|].
  unfold Ledger.in_symbol. cbn. rewrite Hs. destruct (_ =? _); lia.
Qed.

Lemma add_balance_wf tb o q e tb' :
  wf tb -> ranged q -> add_balance tb o q e = Ok tb' -> wf tb'.
Proof.
  intros Hw Hq H.
  destruct (account_add_Ok _ _ _ _ _ Hw Hq H) as [(E & ->)|(a & E & Hs & Hr & ->)];
    by apply account_wf_insert.
Qed.

Lemma sub_balance_held tb o q tb' sym :
  wf tb -> ranged q -> sub_balance tb o q = Ok tb' ->
  held sym tb' = held sym tb - Ledger.in_symbol sym q.
Proof.
  intros Hw Hq H. destruct (account_sub_Ok _ _ _ _ Hw Hq H) as (a & E & Hs & _ & _ & ->).
  destruct (Z.eqb_spec (amount (balance a)) (amount q)) as [Heq|Hne].
  - unfold held. rewrite (map_sum_delete _ _ _ _ E). unfold Ledger.in_symbol. rewrite Hs, Heq.
    destruct (_ =? _); lia.
  - rewrite held_put, E by done. unfold Ledger.in_symbol. cbn. rewrite Hs. destruct (_ =? _); lia.
Qed.

Lemma sub_balance_wf tb o q tb' :
  wf tb -> ranged q -> sub_balance tb o q = Ok tb' -> wf tb'.
Proof.
  intros Hw Hq H. destruct (account_sub_Ok _ _ _ _ Hw Hq H) as (a & E & Hs & _ & Hr & ->).
  destruct (_ =? _); [by apply account_wf_delete | by apply account_wf_insert].
Qed.

(** A renamed account keeps its balance. *)
Lemma on_rename_held tb a b tb' :
  wf tb -> on_rename tb a b = Ok tb' -> wf tb' /\ forall sym, held sym tb' = held sym tb.
Proof.
  intros Hw H. unfold on_rename in H. destruct (tb !! a) as [r|] eqn:E; [|by injection H as <-].
  apply bind_Ok in H as (tb1 & H1 & H2). apply Table.emplace_Ok in H1 as [Hb ->].
  apply Table.erase_Ok in H2 as [_ ->]. cbn in Hb |- *.
  assert (a <> b) as Hne by (intros ->; congruence).
  pose proof (wf_ranged _ Hw _ _ E) as Hr. split.
  - apply account_wf_delete. by apply account_wf_insert.
  - intros sym. assert (<[b := r <| owner := b |>]> tb !! a = Some r) as Ha by (by rewrite lookup_insert_ne).
    unfold held. set (f := fun x => Ledger.in_symbol sym (balance x)).
    pose proof (map_sum_delete f _ _ _ Ha) as Hd. rewrite map_sum_insert in Hd by done.
    assert (f (r <| owner := b |>) = f r) as Hf by done. lia.
Qed.

(** A scope of the account table is a ledger; internal credits do not enforce
    the minimum. *)
#[global] Instance accounts_ledger : Ledger.Ledger table Z := {|
  Ledger.wf := wf;
  Ledger.held := held;
  Ledger.credit := fun tb o q => add_balance tb o q false;
  Ledger.debit := sub_balance;
  Ledger.credit_held := fun l k q l' sym => add_balance_held l k q false l' sym;
  Ledger.credit_wf := fun l k q l' => add_balance_wf l k q false l';
  Ledger.debit_held := sub_balance_held;
  Ledger.debit_wf := sub_balance_wf
|}.

End Accounts.
#[export] Hint Resolve Accounts.wf_empty Accounts.account_wf_insert Accounts.account_wf_delete : eden.

(** Table migrations ([contracts/eden/include/migrations.hpp],
    [contracts/eden/src/migrations.cpp]): a singleton holds the progress of the
    current one; its alternatives come one after the other.  The runs that
    change other tables are in Admin.v. *)
Open Scope string_scope.
Open Scope Z_scope.

Module Migrations.

Inductive migration_variant : Type :=
  | migrate_auction_v0 (last_auction_id : Z)
  | migrate_account_v0 (m : Accounts.migrate_account_v0)
  | no_migration_0
  | migrate_member_v0 (next_primary_key : Z)
  | no_migration_1
  | fix_inductdonate_expiration_check.

(** [variant::index] *)
Definition index (v : migration_variant) : Z :=
  match v with
  | migrate_auction_v0 _ => 0
  | migrate_account_v0 _ => 1
  | no_migration_0 => 2
  | migrate_member_v0 _ => 3
  | no_migration_1 => 4
  | fix_inductdonate_expiration_check => 5
  end.
Definition last_index : Z := 5.

Abbreviation singleton := (option migration_variant).

(** [get_or_default(migration_variant())] and the default member values. *)
Definition empty_asset : asset := Asset.mk 0 0.
Definition default_variant : migration_variant := migrate_auction_v0 0.
Definition first_account : migration_variant :=
  migrate_account_v0 (Accounts.mk_migrate 0 empty_asset).

(** The alternative that follows, with its initial value. *)
Definition next (v : migration_variant) : migration_variant :=
  match v with
  | migrate_auction_v0 _ => first_account
  | migrate_account_v0 _ => no_migration_0
  | no_migration_0 => migrate_member_v0 0
  | migrate_member_v0 _ => no_migration_1
  | no_migration_1 => fix_inductdonate_expiration_check
  | fix_inductdonate_expiration_check => fix_inductdonate_expiration_check
  end.

(** [get<migrate_account_v0>()] *)
Definition get_account_migration (s : singleton) : option Accounts.migrate_account_v0 :=
  match s with Some (migrate_account_v0 m) => Some m | _ => None end.
(** [is_completed<migrate_account_v0>()] *)
Definition is_completed (s : singleton) : bool :=
  match s with Some v => 1 <? index v | None => false end.

Definition set (s : singleton) (v : migration_variant) : result singleton :=
  current ← some_or (Check "singleton does not exist") s;
  _ ← check (index current =? index v) "Cannot change current migration";
  Ok (Some v).

Definition is_no_migration (v : migration_variant) : bool :=
  match v with migrate_auction_v0 _ | migrate_account_v0 _ | migrate_member_v0 _ => false | _ => true end.
Definition on_rename (s : singleton) : result unit :=
  match s with
  | Some v => check (is_no_migration v) "Cannot rename account while a migration is in progress"
  | None => Ok tt
  end.

Definition clear_all (s : singleton) : singleton := None.

(** The alternatives are passed in order and the last one is final. *)
Lemma index_next v : index (next v) = Z.min (index v + 1) last_index.
Proof. by destruct v. Qed.

Lemma completed_index s : is_completed s = true -> exists v, s = Some v /\ 2 <= index v.
Proof. destruct s as [v|]; [|done]. cbn. intros H%Z.ltb_lt. exists v. split; [done|lia]. Qed.

End Migrations.
