(* ===== verification/ElectionConfig.v ===== *)
(** The arithmetic of an election: how many rounds there are, how big their
    groups are, and which members form a group
    ([contracts/eden/src/elections.cpp] lines 66-199,
    [contracts/eden/include/elections.hpp] lines 47-72). *)
From S2P Require Import Prelude Host.
Open Scope Z_scope.

Module Config.

Definition int_pow_loop (base : Z) (n : nat) : Z :=
  Nat.iter n (fun result => wrap 32 (result * base)) 1.
Definition int_pow (base : Z) (exponent : nat) : Z := int_pow_loop base exponent.

(** Binary search in [0, 12); four rounds always suffice. *)
Fixpoint int_root_loop (fuel : nat) (x : Z) (y : nat) (low high : Z) : Z :=
  match fuel with
  | O => low
  | S fuel' =>
      if 1 <? high - low then
        let mid := (high + low) / 2 in
        if x <? int_pow mid y then int_root_loop fuel' x y low mid
        else int_root_loop fuel' x y mid high
      else low
  end.
Definition int_root (x : Z) (y : nat) : Z := int_root_loop 4 x y 0 12.

(** [for (i = 12; i <= num_members; i *= 4) ++result]. *)
Fixpoint count_rounds_loop (fuel : nat) (num_members i : Z) (result : nat) : nat :=
  match fuel with
  | O => result
  | S fuel' =>
      if i <=? num_members then count_rounds_loop fuel' num_members (wrap 32 (i * 4)) (S result)
      else result
  end.
Definition count_rounds (num_members : Z) : nat := count_rounds_loop 16 num_members 12 1.

(** Writing positions [from .. from + n) of a vector. *)
Definition fill (from n : nat) (v : Z) (l : list Z) : list Z :=
  foldl (fun l i => <[i := v]> l) l (seq from n).

Section sizes.
Context (log_floor : Z -> Z -> Z -> nat).

Definition get_group_sizes (num_members : Z) (num_rounds : nat) : result (list Z) :=
  let basic_group_size := int_root num_members num_rounds in
  if basic_group_size =? 3 then
    let result := repeat 4 num_rounds in
    let large_rounds := log_floor num_members (int_pow 4 (num_rounds - 1) * 3) 4 in
    let result := <[(num_rounds - 1)%nat := 3]> result in
    _ ← check (Nat.leb large_rounds 1)
          "More that one large round is unexpected when the final group size is 3.";
    Ok (fill (num_rounds - large_rounds - 1) large_rounds 5 result)
  else if 6 <=? basic_group_size then
    let result := <[0%nat := 5]> (repeat 6 num_rounds) in
    let divisor := int_pow 6 (num_rounds - 1) in
    Ok (<[(num_rounds - 1)%nat := wrap 32 (num_members + divisor - 1) / divisor]> result)
  else
    let large_rounds := log_floor num_members (int_pow basic_group_size num_rounds) basic_group_size in
    if Nat.ltb num_rounds large_rounds then Err (Trap "fill_n past the end")
    else Ok (fill 0 (num_rounds - large_rounds) basic_group_size
               (repeat (basic_group_size + 1) num_rounds)).
End sizes.

(** [election_round_config] *)
Record round_config : Type := mk { num_participants : Z; num_groups : Z }.
#[global] Instance round_config_eq_dec : EqDecision round_config.
Proof. solve_decision. Defined.

Definition group_max_size (c : round_config) : Z :=
  wrap 8 ((num_participants c + num_groups c - 1) / num_groups c).
Definition num_short_groups (c : round_config) : Z :=
  wrap 16 (group_max_size c * num_groups c - num_participants c).
Definition num_large_groups (c : round_config) : Z :=
  wrap 32 (num_groups c - num_short_groups c).
Definition group_min_size (c : round_config) : Z := wrap 32 (group_max_size c - 1).

(** Rounds after the first, from the last one forwards. *)
Fixpoint config_loop (rev_sizes : list Z) (next_participants : Z) (acc : list round_config)
    : Z * list round_config :=
  match rev_sizes with
  | [] => (next_participants, acc)
  | sz :: rest =>
      let participants := wrap 16 (next_participants * sz) in
      config_loop rest participants (mk participants next_participants :: acc)
  end.

Definition make_election_config (log_floor : Z -> Z -> Z -> nat) (participants : Z)
    : result (list round_config) :=
  if participants =? 0 then Ok []
  else
    sizes ← get_group_sizes log_floor participants (count_rounds participants);
    let '(next, later) := config_loop (reverse (tail sizes)) 1 [] in
    Ok (mk participants next :: later).

Definition member_index_to_group (c : round_config) (idx : Z) : Z :=
  let num_large := num_large_groups c in
  let min_size := group_min_size c in
  let members_in_large := wrap 32 ((min_size + 1) * num_large) in
  if idx <? members_in_large then idx / (min_size + 1)
  else wrap 32 ((idx - members_in_large) / min_size + num_large).

Definition group_to_first_member_index (c : round_config) (idx : Z) : Z :=
  let num_large := num_large_groups c in
  let min_size := group_min_size c in
  let members_in_large := wrap 32 ((min_size + 1) * num_large) in
  if idx <? num_large then wrap 32 (idx * (min_size + 1))
  else wrap 32 (members_in_large + (idx - num_large) * min_size).

(** ** Which configurations are acceptable *)

(** The size of the smallest group. *)
Definition smallest (c : round_config) : Z :=
  if num_short_groups c =? 0 then group_max_size c else group_min_size c.

(** A round splits its participants into groups whose sizes differ by at most
    one, between [lo] and [hi]. *)
Definition round_ok (lo hi : Z) (c : round_config) : bool :=
  (lo <=? smallest c) && (group_max_size c <=? hi) && (num_short_groups c <? num_groups c) &&
  (num_large_groups c * group_max_size c + num_short_groups c * group_min_size c
     =? num_participants c).

(** Rounds from the first: [first] is the number of participants; every round
    but the last has groups of 4 to 6, the last is one group. *)
Fixpoint rounds_ok (last_lo : Z) (participants : Z) (cfg : list round_config) : bool :=
  match cfg with
  | [] => false
  | [c] => (num_participants c =? participants) && (num_groups c =? 1) && round_ok last_lo 11 c
  | c :: rest =>
      (num_participants c =? participants) && round_ok 4 6 c && rounds_ok last_lo (num_groups c) rest
  end.
Definition config_ok (participants : Z) (cfg : list round_config) : bool :=
  rounds_ok (Z.min 3 participants) participants cfg.

(** ** The smallest possible maximum *)

(** The requirements of [elections.hpp] (lines 248-256) on any configuration:
    with sizes that differ by at most one, groups of [lo] to [hi] are a matter
    of the number of groups. *)
Fixpoint meets (participants : Z) (cfg : list round_config) : bool :=
  match cfg with
  | [] => false
  | [c] => (num_participants c =? participants) && (num_groups c =? 1) && (3 <=? num_participants c)
  | c :: rest =>
      (num_participants c =? participants) && (1 <=? num_groups c) &&
      (4 * num_groups c <=? num_participants c) && (num_participants c <=? 6 * num_groups c) &&
      meets (num_groups c) rest
  end.

(** The size of the largest group of all rounds. *)
Definition largest (cfg : list round_config) : Z :=
  foldr (fun c => Z.max ((num_participants c + num_groups c - 1) / num_groups c)) 0 cfg.

(** What the number [n] of participants must satisfy for [rounds] rounds with
    groups of [m] at most; with groups of exactly four only powers of four,
    or three times one, are left. *)
Definition possible (m n : Z) (rounds : nat) : bool :=
  let four := 4 ^ (Z.of_nat rounds - 1) in
  (3 * four <=? n) && (n <=? Z.min m 6 ^ (Z.of_nat rounds - 1) * m) &&
  (Nat.eqb rounds 1 || (4 <=? m)) &&
  (negb (m =? 4) || (n =? 3 * four) || (n =? 4 * four)).

Definition unbeaten (n : Z) (cfg : list round_config) : bool :=
  forallb (fun rounds => negb (possible (largest cfg - 1) n rounds)) (seq 1 7).

Lemma ceil_le n g m : 1 <= g -> (n + g - 1) / g <= m <-> n <= m * g.
Proof.
  intros Hg. pose proof (Z.div_mod (n + g - 1) g ltac:(lia)).
  pose proof (Z.mod_pos_bound (n + g - 1) g ltac:(lia)). nia.
Qed.

Lemma possible_spec m n rounds :
  possible m n rounds = true <->
  let four := 4 ^ (Z.of_nat rounds - 1) in
  3 * four <= n <= Z.min m 6 ^ (Z.of_nat rounds - 1) * m /\ (rounds = 1%nat \/ 4 <= m) /\
  (m = 4 -> n = 3 * four \/ n = 4 * four).
Proof.
  unfold possible. cbn zeta. rewrite !andb_true_iff, !orb_true_iff, negb_true_iff, Nat.eqb_eq, !Z.eqb_eq,
    Z.eqb_neq, !Z.leb_le. split; [lia|]. intros (? & ? & ?). destruct (Z.eq_dec m 4); lia.
Qed.

Lemma meets_possible m n cfg :
  meets n cfg = true -> largest cfg <= m -> possible m n (length cfg) = true.
Proof.
  revert n. induction cfg as [|c [|c' rest] IH]; intros n H Hm; [done| |].
  - cbn [meets] in H. res_inv. cbn in Hm. apply possible_spec. cbn.
    assert (num_participants c <= m * num_groups c) by (apply ceil_le; lia). lia.
  - change (((num_participants c =? n) && (1 <=? num_groups c) && (4 * num_groups c <=? num_participants c) &&
      (num_participants c <=? 6 * num_groups c) && meets (num_groups c) (c' :: rest)) = true) in H.
    change (Z.max ((num_participants c + num_groups c - 1) / num_groups c) (largest (c' :: rest)) <= m) in Hm.
    res_inv. assert (num_participants c <= m * num_groups c) by (apply ceil_le; lia).
    match goal with Hx : meets _ _ = true |- _ => apply IH in Hx as (Hb & _ & Hq)%possible_spec; [|lia] end.
    apply possible_spec. revert Hb Hq. cbn [length]. rewrite !Nat2Z.inj_succ.
    set (k := Z.of_nat (length rest)). assert (0 <= k) by lia.
    replace (Z.succ (Z.succ k) - 1) with (Z.succ k) by lia. replace (Z.succ k - 1) with k by lia.
    cbn zeta. rewrite !Z.pow_succ_r by lia. intros Hb Hq. pose proof (Z.pow_pos_nonneg 4 k ltac:(lia) ltac:(lia)).
    assert (4 <= m) by nia. pose proof (Z.pow_pos_nonneg (Z.min m 6) k ltac:(lia) ltac:(lia)).
    split; [|split; [by right|]]; [|lia].
    assert (num_participants c <= Z.min m 6 * num_groups c) by lia. split; [lia|].
    assert (Z.min m 6 * num_groups c <= Z.min m 6 * (Z.min m 6 ^ k * m)) by (apply Z.mul_le_mono_nonneg_l; lia).
    lia.
Qed.

(** No configuration that meets the requirements has smaller groups than one
    that is [unbeaten]. *)
Lemma unbeaten_least n cfg cfg' :
  n <= 10000 -> unbeaten n cfg = true -> meets n cfg' = true -> largest cfg <= largest cfg'.
Proof.
  intros Hn Hu Hm. apply Z.nlt_ge. intros Hlt.
  assert (possible (largest cfg - 1) n (length cfg') = true) as Hp by (apply meets_possible; [done|lia]).
  assert (length cfg' <= 7)%nat as Hl.
  { apply possible_spec in Hp as ([Hp _] & _). apply Nat2Z.inj_le. apply Z.nlt_ge. intros H8.
    assert (4 ^ 7 <= 4 ^ (Z.of_nat (length cfg') - 1)) by (apply Z.pow_le_mono_r; lia). lia. }
  unfold unbeaten in Hu. rewrite forallb_forall in Hu.
  specialize (Hu (length cfg')). rewrite Hp in Hu. apply negb_true_iff in Hu; [done|].
  apply in_seq. destruct cfg'; [done|]. cbn. cbn in Hl. lia.
Qed.

(** The values [log_floor] may take by its specification, for one query. *)
Fixpoint log_search (fuel : nat) (num den g : Z) (a b : Z) (k : nat) : list nat :=
  (* a = num * g ^ k, b = den * (g + 1) ^ k *)
  match fuel with
  | O => []
  | S fuel' =>
      if a * g <? b * (g + 1) then (if (a =? b) && negb (Nat.eqb k 0) then [k; pred k] else [k])
      else log_search fuel' num den g (a * g) (b * (g + 1)) (S k)
  end.
Definition log_values (num den g : Z) : list nat :=
  if (0 <? den) && (0 <? g) && (den <=? num) then log_search 40 num den g num den 0 else [].

(** The query [get_group_sizes] makes. *)
Definition query (n : Z) (rounds : nat) : Z * Z * Z :=
  let basic := int_root n rounds in
  if basic =? 3 then (n, int_pow 4 (rounds - 1) * 3, 4)
  else (n, int_pow basic rounds, basic).

Definition all_ok (n : Z) : bool :=
  let '(num, den, g) := query n (count_rounds n) in
  match log_values num den g with
  | [] => false
  | ks => forallb (fun k =>
            match make_election_config (fun _ _ _ => k) n with
            | Ok cfg => config_ok n cfg &&
                (if n <? 3 then bool_decide (cfg = [mk n 1]) else meets n cfg && unbeaten n cfg)
            | Err _ => false
            end) ks
  end.

Fixpoint all_below (n : nat) (z : Z) : bool :=
  match n with O => true | S n' => all_ok z && all_below n' (z + 1) end.

(** The same as a proposition, in the terms of the code: the sizes it computes
    for the groups of a round. *)
Definition balanced (c : round_config) : Prop :=
  num_large_groups c * group_max_size c + num_short_groups c * group_min_size c
    = num_participants c /\
  num_large_groups c + num_short_groups c = num_groups c /\ 0 <= num_short_groups c < num_groups c.

Record election_shape (participants : Z) (cfg : list round_config) : Prop := {
  shape_front : num_participants <$> head cfg = Some participants;
  shape_back : num_groups <$> last cfg = Some 1;
  shape_chain : forall i a b,
    cfg !! i = Some a -> cfg !! S i = Some b -> num_groups a = num_participants b;
  shape_balanced : Forall balanced cfg;
  shape_rounds : forall i c, cfg !! i = Some c -> (S i < length cfg)%nat ->
    4 <= smallest c /\ group_max_size c <= 6;
  shape_final : forall c, last cfg = Some c ->
    group_max_size c <= 11 /\ Z.min 3 participants <= smallest c
}.

Lemma num_short_groups_bounds c : 0 <= num_short_groups c < 2 ^ 16.
Proof. apply wrap_bounds. lia. Qed.

Lemma round_ok_true lo hi c :
  num_groups c < 2 ^ 16 -> round_ok lo hi c = true ->
  lo <= smallest c /\ group_max_size c <= hi /\ balanced c.
Proof.
  intros Hg H. unfold round_ok in H. res_inv.
  pose proof (num_short_groups_bounds c). split; [done|]. split; [done|].
  unfold balanced. split; [done|]. split; [|lia].
  unfold num_large_groups at 1. rewrite wrap_small by lia. lia.
Qed.

Lemma rounds_ok_shape lo n cfg :
  Forall (fun c => num_groups c < 2 ^ 16) cfg -> rounds_ok lo n cfg = true ->
  num_participants <$> head cfg = Some n /\ num_groups <$> last cfg = Some 1 /\
  (forall i a b, cfg !! i = Some a -> cfg !! S i = Some b -> num_groups a = num_participants b) /\
  Forall balanced cfg /\
  (forall i c, cfg !! i = Some c -> (S i < length cfg)%nat ->
     4 <= smallest c /\ group_max_size c <= 6) /\
  (forall c, last cfg = Some c -> group_max_size c <= 11 /\ lo <= smallest c).
Proof.
  intros Hg. revert n. induction Hg as [|c cfg Hc Hg IH]; intros n H; [done|].
  destruct cfg as [|c' cfg].
  - cbn [rounds_ok] in H. res_inv.
    match goal with H : round_ok _ _ _ = true |- _ =>
      apply round_ok_true in H as (Hlo & Hhi & Hb); [|done] end.
    cbn. split; [congruence|]. split; [congruence|].
    split; [intros [|i] a b; cbn; intros; discriminate|].
    split; [by constructor|]. split; [intros [|i] x Hx Hl; cbn in *; lia|].
    intros x [= <-]. done.
  - change (rounds_ok lo n (c :: c' :: cfg)) with
      ((num_participants c =? n) && round_ok 4 6 c && rounds_ok lo (num_groups c) (c' :: cfg)) in H.
    apply andb_true_iff in H as [[Hn%Z.eqb_eq Hr]%andb_true_iff H].
    apply round_ok_true in Hr as (Hlo & Hhi & Hb); [|done].
    apply IH in H as (Hf & Hl & Hch & Hbs & Hrs & Hfin).
    split; [cbn; congruence|]. split; [done|]. split.
    { intros [|i] a b; cbn; [|by apply Hch]. intros [= <-] [= <-]. cbn in Hf. congruence. }
    split; [by constructor|]. split; [|done].
    intros [|i] x Hx Hlt; [by injection Hx as <-|]. apply (Hrs i); [done|].
    cbn [length] in Hlt. cbn [length]. lia.
Qed.

Lemma config_loop_bounds rs n acc :
  0 <= n < 2 ^ 16 -> Forall (fun c => num_groups c < 2 ^ 16) acc ->
  (config_loop rs n acc).1 < 2 ^ 16 /\
  Forall (fun c => num_groups c < 2 ^ 16) (config_loop rs n acc).2.
Proof.
  revert n acc. induction rs as [|sz rs IH]; intros n acc Hn Ha; cbn; [split; [lia|done]|].
  apply IH; [by apply wrap_bounds|]. constructor; [cbn; lia | done].
Qed.

Lemma make_election_config_groups lf n cfg :
  make_election_config lf n = Ok cfg -> Forall (fun c => num_groups c < 2 ^ 16) cfg.
Proof.
  unfold make_election_config. destruct (n =? 0); [intros [= <-]; constructor|].
  intros H. apply bind_Ok in H as (sizes & _ & H).
  pose proof (config_loop_bounds (reverse (tail sizes)) 1 [] ltac:(lia) (Forall_nil_2 _)) as Hb.
  destruct (config_loop _ _ _) as [next later]. injection H as <-. cbn in Hb.
  constructor; [cbn; lia | apply Hb].
Qed.

(** The specification of the logarithm leaves the searched values. *)
Lemma log_search_ok e num den g fuel a b k :
  env_ok e -> 0 < den -> 0 < g ->
  a = num * g ^ Z.of_nat k -> b = den * (g + 1) ^ Z.of_nat k -> b <= a ->
  log_search fuel num den g a b k = [] \/
  Host.log_floor e num den g ∈ log_search fuel num den g a b k.
Proof.
  intros He Hd Hg. revert a b k. induction fuel as [|fuel IH]; intros a b k Ha Hb Hle; [by left|].
  cbn [log_search].
  assert (forall x, x ^ Z.of_nat (S k) = x ^ Z.of_nat k * x) as Hp.
  { intros x. rewrite Nat2Z.inj_succ, Z.pow_succ_r by lia. lia. }
  destruct (Z.ltb_spec (a * g) (b * (g + 1))) as [Hlt|Hge].
  - right. assert (Host.is_log_floor num den g k) as Hk.
    { split; [lia|]. rewrite !Hp. subst. lia. }
    destruct (Host.log_floor_spec _ He _ _ _ _ Hd Hg Hk) as [->|[Hs Heq]].
    { destruct (_ && _); set_solver. }
    destruct (Z.eqb_spec a b) as [Hab|Hab]; [|congruence].
    destruct k; [lia|]. cbn. injection Hs as ->. set_solver.
  - apply IH; [rewrite Hp; lia | rewrite Hp; lia | lia].
Qed.

Lemma log_values_ok e num den g :
  env_ok e -> log_values num den g = [] \/ Host.log_floor e num den g ∈ log_values num den g.
Proof.
  intros He. unfold log_values.
  destruct ((0 <? den) && (0 <? g) && (den <=? num)) eqn:E; [|by left]. res_inv.
  apply log_search_ok; [done | done | done | rewrite Z.pow_0_r; lia | rewrite Z.pow_0_r; lia | lia].
Qed.

(** Only the answer to [query] matters. *)
Lemma get_group_sizes_query lf n rounds :
  let '(num, den, g) := query n rounds in
  get_group_sizes lf n rounds = get_group_sizes (fun _ _ _ => lf num den g) n rounds.
Proof. unfold query, get_group_sizes. by destruct (int_root n rounds =? 3). Qed.

Lemma make_election_config_sizes lf lf' n :
  get_group_sizes lf n (count_rounds n) = get_group_sizes lf' n (count_rounds n) ->
  make_election_config lf n = make_election_config lf' n.
Proof. intros H. unfold make_election_config. by rewrite H. Qed.

Lemma all_below_ok n z x : all_below n z = true -> z <= x < z + Z.of_nat n -> all_ok x = true.
Proof.
  revert z. induction n as [|n IH]; intros z H Hx; [lia|]. cbn in H. res_inv.
  destruct (decide (x = z)) as [->|Hne]; [done|]. by apply (IH (z + 1)); [|lia].
Qed.

Lemma all_below_10000 : all_below (Z.to_nat 10000) 1 = true.
Proof. vm_cast_no_check (eq_refl true). Qed.

(** For every electorate the contract admits there is a configuration of the
    required shape, and no other has smaller groups. *)
Lemma election_config_best (e : env) (n : Z) :
  env_ok e -> 1 <= n <= 10000 ->
  exists cfg, make_election_config (Host.log_floor e) n = Ok cfg /\ election_shape n cfg /\
    if n <? 3 then cfg = [mk n 1]
    else meets n cfg = true /\ forall cfg', meets n cfg' = true -> largest cfg <= largest cfg'.
Proof.
  intros He Hn. pose proof (all_below_ok _ _ n all_below_10000 ltac:(lia)) as Hok.
  unfold all_ok in Hok. pose proof (get_group_sizes_query (Host.log_floor e) n (count_rounds n)) as Hq.
  assert (exists cfg, make_election_config (Host.log_floor e) n = Ok cfg /\ config_ok n cfg &&
      (if n <? 3 then bool_decide (cfg = [mk n 1]) else meets n cfg && unbeaten n cfg) = true)
    as (cfg & Hc & [Hcfg Hbest]%andb_true_iff).
  { destruct (query n (count_rounds n)) as [[num den] g] eqn:Eq.
    destruct (log_values_ok e num den g He) as [Hv|Hv]; [by rewrite Hv in Hok|].
    rewrite (make_election_config_sizes _ _ n Hq).
    destruct (log_values num den g) as [|k ks]; [done|].
    rewrite forallb_forall in Hok. apply list_elem_of_In, Hok in Hv.
    destruct (make_election_config _ n) as [cfg|]; [by eauto | done]. }
  exists cfg. split; [done|]. unfold config_ok in Hcfg.
  apply rounds_ok_shape in Hcfg as (Hf & Hl & Hch & Hb & Hr & Hfin);
    [|by eapply make_election_config_groups].
  split; [by split|]. destruct (n <? 3); [by apply bool_decide_eq_true in Hbest|].
  apply andb_true_iff in Hbest as [Hm Hu]. split; [done|]. intros cfg'. apply unbeaten_least; [lia|done].
Qed.
Lemma election_config_shape (e : env) (n : Z) :
  env_ok e -> 1 <= n <= 10000 ->
  exists cfg, make_election_config (Host.log_floor e) n = Ok cfg /\ election_shape n cfg.
Proof. intros He Hn. destruct (election_config_best e n He Hn) as (cfg & ? & ? & _). eauto. Qed.

(** C17: for every electorate the contract admits there is an election
    configuration, whatever way the logarithm rounds, and it has the required
    shape: the first round has all the participants, each round's groups send
    one member each to the next, the last round is one group of at most 11,
    group sizes of a round differ by at most one, every round but the last has
    groups of 4 to 6.  Of three participants or more the last round has at
    least three members, and the maximum group size is as small as possible:
    no configuration that meets the requirements has a smaller one.  One or two
    participants are one group, below the minimum of three that the header
    requires of the last round. *)
Theorem make_election_config_shape (e : env) (n : Z) :
  env_ok e -> 1 <= n <= 10000 ->
  exists cfg, make_election_config (Host.log_floor e) n = Ok cfg /\ election_shape n cfg /\
    if n <? 3 then cfg = [mk n 1]
    else meets n cfg = true /\ forall cfg', meets n cfg' = true -> largest cfg <= largest cfg'.
Proof. apply election_config_best. Qed.

Lemma make_election_config_shape_witness :
  exists cfg, make_election_config (Host.log_floor Host.demo_env) 100 = Ok cfg /\ election_shape 100 cfg /\
    meets 100 cfg = true /\ forall cfg', meets 100 cfg' = true -> largest cfg <= largest cfg'.
Proof. apply (make_election_config_shape Host.demo_env 100 Host.demo_env_ok). lia. Defined.

(** ** Groups as ranges of member indices *)

(** A round as the election builds it. *)
Definition round_wf (c : round_config) : Prop :=
  1 <= num_groups c <= num_participants c /\ num_participants c < 2 ^ 16 /\
  num_participants c <= 255 * num_groups c.

(** The same quantities without machine arithmetic: [q] full groups of
    [m + 1] and then groups of [m]. *)
Lemma round_parts c :
  round_wf c ->
  exists m q, group_min_size c = m /\ num_large_groups c = q /\
    group_max_size c = m + 1 /\ 0 <= m < 255 /\ 1 <= q <= num_groups c /\
    num_participants c = num_groups c * m + q.
Proof.
  intros (Hg & Hp & Hm).
  set (N := num_participants c) in *. set (G := num_groups c) in *.
  assert (group_max_size c = (N + G - 1) / G) as Hmax.
  { unfold group_max_size. fold N G. apply wrap_small.
    split; [apply Z.div_pos; lia | apply Z.div_lt_upper_bound; lia]. }
  pose proof (Z.div_mod (N + G - 1) G ltac:(lia)) as Hdm.
  pose proof (Z.mod_pos_bound (N + G - 1) G ltac:(lia)) as Hmb.
  set (M := (N + G - 1) / G) in *.
  assert (1 <= M <= 255) as HM.
  { split; [apply Z.div_le_lower_bound; lia | apply Z.lt_succ_r, Z.div_lt_upper_bound; lia]. }
  assert (num_short_groups c = M * G - N) as Hs.
  { unfold num_short_groups. rewrite Hmax. fold N G. apply wrap_small. nia. }
  assert (num_large_groups c = G - (M * G - N)) as Hl.
  { unfold num_large_groups. rewrite Hs. fold G. apply wrap_small. nia. }
  assert (group_min_size c = M - 1) as Hmin.
  { unfold group_min_size. rewrite Hmax. apply wrap_small. lia. }
  exists (M - 1), (G - (M * G - N)). rewrite Hl, Hmin, Hmax. nia.
Qed.

(** The groups of a round are consecutive ranges of member indices: group
    [g] starts at [group_to_first_member_index g], the next starts right
    after its last member, the ranges cover all the indices from 0, every
    group has the minimum or the maximum size, and [member_index_to_group]
    returns exactly the group whose range contains the index. *)
Theorem groups_partition_indices (c : round_config) :
  round_wf c ->
  let first := group_to_first_member_index c in
  first 0 = 0 /\ first (num_groups c) = num_participants c /\
  (forall g, 0 <= g < num_groups c ->
     first (g + 1) - first g = group_max_size c \/ first (g + 1) - first g = group_min_size c) /\
  (forall idx g, 0 <= idx < num_participants c -> 0 <= g < num_groups c ->
     member_index_to_group c idx = g <-> first g <= idx < first (g + 1)).
Proof.
  intros Hc. pose proof Hc as (Hg & Hp & _).
  destruct (round_parts c Hc) as (m & q & Hm & Hq & Hmax & Hmb & Hqb & HN).
  assert (forall g, 0 <= g <= num_groups c ->
    group_to_first_member_index c g = if g <? q then g * (m + 1) else (m + 1) * q + (g - q) * m) as Hf.
  { intros g Hgb. unfold group_to_first_member_index. rewrite Hm, Hq.
    rewrite (wrap_small 32 ((m + 1) * q)) by nia.
    destruct (Z.ltb_spec g q); apply wrap_small; nia. }
  cbn zeta. split; [|split; [|split]].
  - rewrite Hf by lia. destruct (Z.ltb_spec 0 q); lia.
  - rewrite Hf by lia. destruct (Z.ltb_spec (num_groups c) q); nia.
  - intros g Hgb. rewrite !Hf by lia. rewrite Hmax, Hm.
    destruct (Z.ltb_spec (g + 1) q), (Z.ltb_spec g q); lia || (assert (g = q - 1) as -> by lia; lia).
  - intros idx g Hi Hgb. rewrite !Hf by lia. unfold member_index_to_group. rewrite Hm, Hq.
    rewrite (wrap_small 32 ((m + 1) * q)) by nia.
    destruct (Z.ltb_spec idx ((m + 1) * q)) as [Hlt|Hge].
    + pose proof (Z.div_mod idx (m + 1) ltac:(lia)). pose proof (Z.mod_pos_bound idx (m + 1) ltac:(lia)).
      destruct (Z.ltb_spec g q), (Z.ltb_spec (g + 1) q); nia.
    + assert (0 < m) by nia.
      pose proof (Z.div_mod (idx - (m + 1) * q) m ltac:(lia)).
      pose proof (Z.mod_pos_bound (idx - (m + 1) * q) m ltac:(lia)).
      set (d := (idx - (m + 1) * q) / m) in *.
      assert (0 <= d <= num_groups c) by nia.
      rewrite wrap_small by lia.
      destruct (Z.ltb_spec g q), (Z.ltb_spec (g + 1) q); nia.
Qed.

Lemma groups_partition_indices_witness :
  member_index_to_group (mk 100 16) 37 = 7 <->
  group_to_first_member_index (mk 100 16) 7 <= 37 < group_to_first_member_index (mk 100 16) (7 + 1).
Proof.
  destruct (groups_partition_indices (mk 100 16)) as (_ & _ & _ & H);
    [unfold round_wf; cbn; lia | apply H; cbn; lia].
Defined.

End Config.
