(* ===== verification/Rng.v ===== *)
(** Randomness of an election ([contracts/eden/src/elections.cpp] lines 12-64):
    the generator [election_rng], which hashes a seed and a counter, and
    [election_seeder], which takes the seed from Bitcoin block headers. *)
From S2P Require Import Prelude Time Crypto Host.
Open Scope Z_scope.

Module Rng.
Import Crypto.

(** [buf] is 72 bytes: the seed, an 8-byte counter, the last hash. *)
Record election_rng : Type := mk { buf : list Z; index : Z }.
#[global] Instance election_rng_eq_dec : EqDecision election_rng.
Proof. solve_decision. Defined.

(** [memcpy(b + at, src)] *)
Definition memcpy (b : list Z) (at_ : nat) (src : list Z) : list Z :=
  take at_ b ++ src ++ drop (at_ + length src) b.

Definition init (seed : Z) : election_rng :=
  let b := memcpy (repeat 0 72) 0 (extract_as_byte_array seed) in
  let b := memcpy b 32 (repeat 0 8) in
  mk b 32.

Section rng.
Context (e : env).

Definition next (r : election_rng) : Z * election_rng :=
  let '(b, i) :=
    if 32 <=? index r then
      let a := extract_as_byte_array (Host.sha256 e (take 40 (buf r))) in
      let b := memcpy (buf r) 40 a in
      let counter := wrap 64 (of_le (take 8 (drop 32 b)) + 1) in
      (memcpy b 32 (le_bytes 8 counter), 0)
    else (buf r, index r) in
  (of_le (take 4 (drop (40 + Z.to_nat i) b)), mk b (wrap 8 (i + 4))).

Definition seed (r : election_rng) : Z := checksum_of_bytes (take 32 (buf r)).

Definition advance (n : nat) (r : election_rng) : election_rng :=
  Nat.iter n (fun r => (next r).2) r.
Definition draw (r : election_rng) (n : nat) : Z := (next (advance n r)).1.

(** A [std::uniform_int_distribution(0, n)] applied to the generator. *)
Definition uniform (n : Z) (r : election_rng) : Z * election_rng :=
  let '(v, used) := Host.uniform e n (draw r) in (v, advance used r).

(** [election_seeder] *)
Record election_seeder : Type := mk_seeder { current : Z; start_time : Z; end_time : Z }.
Definition default_current : Z := 2 ^ 256 - 1.

(** The seeder reads an 80-byte block header: the time stamp is the
    little-endian word at offset 68. *)
Definition update (s : election_seeder) (bytes : list Z) : result election_seeder :=
  _ ← check (80 <=? Z.of_nat (length bytes)) "Stream overrun";
  let hash1 := Host.sha256 e (take 80 bytes) in
  let hash2 := Host.sha256 e (take 32 (extract_as_byte_array hash1)) in
  let hash2 := checksum_of_bytes (reverse (extract_as_byte_array hash2)) in
  _ ← check (hash2 <? current s) "New seed block must have greater POW than previous seed.";
  let block_time := of_le (take 4 (drop (4 + 32 + 32) bytes)) in
  _ ← check (Time.sec_of_time_point (Time.to_time_point (start_time s)) <=? block_time)
        "Seed block is too early";
  _ ← check (block_time <? Time.sec_of_time_point (Time.to_time_point (end_time s)))
        "Seed block is too late";
  Ok (mk_seeder hash2 (start_time s) (end_time s)).
End rng.
#[global] Instance election_seeder_eq_dec : EqDecision election_seeder.
Proof. solve_decision. Defined.

(** ** The generator as a function of the seed *)

(** Hash number [c] and its eight words. *)
Definition block_bytes (e : env) (sd c : Z) : list Z :=
  extract_as_byte_array (Host.sha256 e (extract_as_byte_array sd ++ le_bytes 8 c)).
Definition word (e : env) (sd : Z) (i : nat) : Z :=
  of_le (take 4 (drop (4 * (i mod 8)) (block_bytes e sd (Z.of_nat (i / 8))))).

(** After [i] draws, [0 < i]: the counter is one past the block in use. *)
Definition rng_at (e : env) (sd : Z) (i : nat) : election_rng :=
  match i with
  | O => init sd
  | S j =>
      mk (extract_as_byte_array sd ++ le_bytes 8 (Z.of_nat (j / 8) + 1)
            ++ block_bytes e sd (Z.of_nat (j / 8)))
         (4 * Z.of_nat (j mod 8) + 4)
  end.

Lemma memcpy_middle a b c src :
  length b = length src -> memcpy (a ++ b ++ c) (length a) src = a ++ src ++ c.
Proof.
  intros Hl. unfold memcpy. rewrite take_app_length. f_equal. f_equal.
  rewrite <- Hl, app_assoc, drop_app_ge by (rewrite length_app; lia).
  by rewrite length_app, Nat.sub_diag.
Qed.

Lemma block_length e sd c : length (block_bytes e sd c) = 32%nat.
Proof. apply extract_length. Qed.

Lemma init_shape sd : init sd = mk (extract_as_byte_array sd ++ le_bytes 8 0 ++ repeat 0 32) 32.
Proof. reflexivity. Qed.

Lemma take_seed (a b : list Z) : length a = 32%nat -> take 32 (a ++ b) = a.
Proof. intros <-. by rewrite take_app_length. Qed.

(** One draw that needs a new hash. *)
Lemma next_block e sd c old i :
  length old = 32%nat -> 32 <= i -> 0 <= c < 2 ^ 64 - 1 ->
  next e (mk (extract_as_byte_array sd ++ le_bytes 8 c ++ old) i) =
  (of_le (take 4 (block_bytes e sd c)),
   mk (extract_as_byte_array sd ++ le_bytes 8 (c + 1) ++ block_bytes e sd c) 4).
Proof.
  intros Ho Hi Hc. unfold next. cbn [buf index].
  destruct (Z.leb_spec 32 i); [|lia]. cbn zeta.
  set (a := extract_as_byte_array sd). assert (length a = 32%nat) as Ha by apply extract_length.
  assert (forall k, length (le_bytes 8 k) = 8%nat) as H8 by (intros; apply le_bytes_length).
  assert (take 40 (a ++ le_bytes 8 c ++ old) = a ++ le_bytes 8 c) as ->.
  { rewrite app_assoc, take_app_length' by (rewrite length_app, Ha, H8; done). done. }
  change (extract_as_byte_array (Host.sha256 e (a ++ le_bytes 8 c))) with (block_bytes e sd c).
  assert (memcpy (a ++ le_bytes 8 c ++ old) 40 (block_bytes e sd c)
          = a ++ le_bytes 8 c ++ block_bytes e sd c) as ->.
  { rewrite !app_assoc. pose proof (memcpy_middle (a ++ le_bytes 8 c) old [] (block_bytes e sd c)) as Hmm.
    rewrite !app_nil_r, length_app, Ha, H8 in Hmm. apply Hmm. by rewrite block_length. }
  assert (take 8 (drop 32 (a ++ le_bytes 8 c ++ block_bytes e sd c)) = le_bytes 8 c) as ->.
  { rewrite <- Ha, drop_app_length, take_app_length' by (by rewrite H8). done. }
  rewrite of_le_le_bytes by (cbn; lia). rewrite wrap_small by lia.
  rewrite <- Ha at 1 3. rewrite !memcpy_middle by (by rewrite !H8).
  replace (length a + Z.to_nat 0 + 8)%nat with 40%nat by lia.
  by f_equal.
Qed.

(** One draw from the block in use. *)
Lemma next_word e b i :
  i < 32 -> 0 <= i ->
  next e (mk b i) = (of_le (take 4 (drop (40 + Z.to_nat i) b)), mk b (i + 4)).
Proof.
  intros Hi H0. unfold next. cbn [buf index]. destruct (Z.leb_spec 32 i); [lia|].
  by rewrite wrap_small by lia.
Qed.

Lemma rng_at_step e sd i :
  Z.of_nat i < 2 ^ 64 -> next e (rng_at e sd i) = (word e sd i, rng_at e sd (S i)).
Proof.
  intros Hi. destruct i as [|j].
  - cbn [rng_at]. rewrite init_shape, next_block by (done || lia). done.
  - cbn [rng_at]. assert (j mod 8 < 8)%nat as Hm by (apply Nat.mod_upper_bound; lia).
    pose proof (Nat.div_mod j 8 ltac:(lia)) as Hj.
    destruct (decide (j mod 8 = 7)%nat) as [H7|H7].
    + assert (S j / 8 = S (j / 8))%nat as Hd by (symmetry; apply (Nat.div_unique _ _ _ 0); lia).
      assert (S j mod 8 = 0)%nat as H0 by (symmetry; apply (Nat.mod_unique _ _ (S (j / 8)) 0); lia).
      rewrite next_block; [|apply block_length | lia | lia].
      unfold word. rewrite Hd, H0. cbn [Nat.mul drop].
      by rewrite Nat2Z.inj_succ.
    + assert (S j / 8 = j / 8)%nat as Hd.
      { symmetry. apply (Nat.div_unique _ _ _ (S (j mod 8))); lia. }
      assert (S j mod 8 = S (j mod 8))%nat as H0.
      { symmetry. apply (Nat.mod_unique _ _ (j / 8) (S (j mod 8))); lia. }
      rewrite next_word by lia. unfold word. rewrite Hd, H0. f_equal.
      * f_equal. f_equal.
        rewrite app_assoc. 
        replace (40 + Z.to_nat (4 * Z.of_nat (j mod 8) + 4))%nat
          with (length (extract_as_byte_array sd ++ le_bytes 8 (Z.of_nat (j / 8) + 1))
                + 4 * S (j mod 8))%nat
          by (rewrite length_app, extract_length, le_bytes_length; lia).
        by rewrite drop_app_add.
      * f_equal. lia.
Qed.

Lemma advance_rng_at e sd n :
  Z.of_nat n <= 2 ^ 64 -> advance e n (init sd) = rng_at e sd n.
Proof.
  induction n as [|n IH]; intros Hn; [done|].
  change (advance e (S n) (init sd)) with ((next e (advance e n (init sd))).2).
  rewrite IH, rng_at_step by lia. done.
Qed.

(** The generator is a counter-mode hash: draw number [i] is word [i mod 8]
    of the hash of the seed followed by the 64-bit counter [i / 8], and
    drawing never changes the seed that [seed] gives back. *)
Theorem election_rng_draws (e : env) (sd : Z) (i : nat) :
  0 <= sd < 2 ^ 256 -> Z.of_nat i < 2 ^ 64 ->
  draw e (init sd) i = word e sd i /\ seed (advance e i (init sd)) = sd.
Proof.
  intros Hs Hi. unfold draw. rewrite advance_rng_at, rng_at_step by lia. split; [done|].
  destruct i as [|j]; unfold seed; cbn [rng_at]; rewrite ?init_shape; cbn [buf];
    rewrite take_seed by apply extract_length; by apply checksum_bytes_roundtrip.
Qed.

Lemma election_rng_draws_witness :
  draw Host.demo_env (init 12345) 9 = word Host.demo_env 12345 9 /\
  seed (advance Host.demo_env 9 (init 12345)) = 12345.
Proof. apply (election_rng_draws Host.demo_env 12345 9); lia. Defined.

(** Draws are 32-bit words, and a bounded draw is in its range. *)
Lemma uniform_range e n r : env_ok e -> 0 <= n -> 0 <= (uniform e n r).1 <= n.
Proof.
  intros He Hn. unfold uniform. pose proof (Host.uniform_range _ He n (draw e r) Hn) as H.
  by destruct (Host.uniform e n (draw e r)).
Qed.

(** ** The seeder *)

(** A block header is accepted only when its proof of work beats the
    current seed and its time lies in the seeding window; the seed then is the
    byte-reversed double hash of the first 80 bytes, so seeds strictly
    decrease and the window never moves. *)
Theorem seeder_update_spec (e : env) (s s' : election_seeder) (bytes : list Z) :
  update e s bytes = Ok s' <->
  80 <= Z.of_nat (length bytes) /\
  current s' = checksum_of_bytes (reverse (extract_as_byte_array
    (Host.sha256 e (extract_as_byte_array (Host.sha256 e (take 80 bytes)))))) /\
  current s' < current s /\
  start_time s' = start_time s /\ end_time s' = end_time s /\
  Time.sec_of_time_point (Time.to_time_point (start_time s))
    <= of_le (take 4 (drop 68 bytes)) < Time.sec_of_time_point (Time.to_time_point (end_time s)).
Proof.
  assert (forall c, take 32 (extract_as_byte_array c) = extract_as_byte_array c) as Ht.
  { intros c. apply take_ge. by rewrite extract_length. }
  unfold update. rewrite Ht. split.
  - intros H. res_inv. cbn [current start_time end_time]. split_and!; done.
  - intros (H80 & Hc & Hlt & Hs & He & H1 & H2). rewrite <- Hc.
    change (4 + 32 + 32)%nat with 68%nat. checks.
    destruct s'; cbn in *; by subst.
Qed.

End Rng.
