(* ===== verification/Encrypt.v ===== *)
(** Encrypted meeting data ([contracts/eden/src/encrypt.cpp],
    [contracts/eden/include/encrypt.hpp]).  The table exists once per scope
    ("induction", "election"); updates are compare-and-set on the data. *)
From S2P Require Import Prelude MultiIndex Crypto.
Open Scope Z_scope.

Module Encrypt.

Record encrypted_key : Type := mk_key {
  sender_key : public_key; recipient_key : public_key; key : list Z }.
Record encrypted_data : Type := mk_data { id : Z; keys : list encrypted_key; data : list Z }.
#[global] Instance set_keys : Setter keys := fun f r => mk_data (id r) (f (keys r)) (data r).
#[global] Instance set_data : Setter data := fun f r => mk_data (id r) (keys r) (f (data r)).

Abbreviation table := (gmap Z encrypted_data).

Definition set (tb : table) (i : Z) (ks : list encrypted_key) (d : list Z)
    (old_data : option (list Z)) : result table :=
  match tb !! i with
  | None =>
      _ ← check (bool_decide (old_data = None)) "Encrypted data not previously set";
      Table.emplace id tb (mk_data i ks d)
  | Some row =>
      _ ← check (bool_decide (old_data = Some (data row))) "Encrypted data does not match";
      Table.modify id tb i (fun row => Ok (row <| keys := ks |> <| data := d |>))
  end.

Definition erase (tb : table) (i : Z) : result table :=
  match tb !! i with
  | Some _ => Table.erase tb i
  | None => Ok tb
  end.

Definition clear_all (tb : table) : table := ∅.

(** ** Facts *)

Definition wf : table -> Prop := Table.keyed id.

(** Setting encrypted data is a compare-and-set: it succeeds exactly when
    the caller names the current data (or says there is none, and there is
    none), then the row holds the new keys and data and nothing else
    changed. *)
Theorem set_is_compare_and_set (tb tb' : table) i ks d old :
  wf tb ->
  set tb i ks d old = Ok tb' <->
  old = data <$> (tb !! i) /\ tb' = <[i := mk_data i ks d]> tb.
Proof.
  intros Hw. unfold set. destruct (tb !! i) as [r|] eqn:E; cbn.
  - pose proof (Hw _ _ E) as Hid. split.
    + intros H. apply bind_Ok in H as (u & Hc & H). res_inv.
      apply Table.modify_Ok in H as (r0 & r1 & Hr & [= <-] & _ & ->).
      assert (r0 = r) as -> by congruence. subst. by destruct r; cbn.
    + intros (-> & ->). rewrite check_true by (by apply bool_decide_eq_true).
      apply Table.modify_Ok. exists r, (mk_data i ks d). subst. by destruct r; cbn.
  - split.
    + intros H. apply bind_Ok in H as (u & Hc & H). res_inv.
      by apply Table.emplace_Ok in H as [_ ->].
    + intros (-> & ->). rewrite check_true by done. by apply Table.emplace_Ok.
Qed.

Definition demo_table : table := {[ 5 := mk_data 5 [] [1; 2] ]}.

Lemma demo_wf : wf demo_table.
Proof. by apply Table.keyed_insert; [apply Table.keyed_empty|]. Qed.

Lemma set_is_compare_and_set_witness :
  set demo_table 5 [] [7] (Some [1; 2]) = Ok (<[5 := mk_data 5 [] [7]]> demo_table).
Proof. apply (set_is_compare_and_set demo_table _ 5 [] [7] (Some [1; 2]) demo_wf). done. Defined.

Lemma set_wf tb tb' i ks d old : wf tb -> set tb i ks d old = Ok tb' -> wf tb'.
Proof. unfold set, wf. intros Hw H. destruct (tb !! i); res_inv; eauto with eden. Qed.

Lemma encrypt_erase_Ok tb i : erase tb i = Ok (delete i tb).
Proof.
  unfold erase, Table.erase. destruct (tb !! i) eqn:E; [done|].
  by rewrite delete_id.
Qed.

End Encrypt.
