(* ===== verification/Globals.v ===== *)
(** The community's configuration ([contracts/eden/include/globals.hpp],
    [contracts/eden/src/globals.cpp], [contracts/eden/include/constants.hpp]).
    The singleton holds either version of the record; readers see version 1. *)
From S2P Require Import Prelude Asset.
Open Scope string_scope.
Open Scope Z_scope.

Module Globals.

Definition max_active_members : Z := 10000.
Definition induction_expiration_secs : Z := 7 * 24 * 60 * 60.
Definition max_gc_on_induction : nat := 32.
Definition election_seeding_window : Z := 24 * 60 * 60.
Definition election_final_seeding_window : Z := 30 * 60.
Definition min_election_threshold : Z := 1000.

Inductive contract_stage : Type := genesis | active.
#[global] Instance contract_stage_eq_dec : EqDecision contract_stage.
Proof. solve_decision. Defined.

Record global_data_v0 : Type := mk_v0 {
  community : string;
  minimum_donation : asset;
  auction_starting_bid : asset;
  auction_duration : Z;
  stage : contract_stage
}.
Record global_data_v1 : Type := mk_v1 {
  base : global_data_v0;
  election_start_time : Z;        (* seconds from the start of Sunday *)
  election_round_time_sec : Z
}.
#[global] Instance set_stage_field : Setter stage := fun f r =>
  mk_v0 (community r) (minimum_donation r) (auction_starting_bid r) (auction_duration r) (f (stage r)).
#[global] Instance set_base : Setter base := fun f r =>
  mk_v1 (f (base r)) (election_start_time r) (election_round_time_sec r).
#[global] Instance set_start : Setter election_start_time := fun f r =>
  mk_v1 (base r) (f (election_start_time r)) (election_round_time_sec r).
#[global] Instance set_round_time : Setter election_round_time_sec := fun f r =>
  mk_v1 (base r) (election_start_time r) (f (election_round_time_sec r)).

Inductive global_variant : Type := v0 (d : global_data_v0) | v1 (d : global_data_v1).

Definition upgrade (v : global_variant) : global_data_v1 :=
  match v with v0 d => mk_v1 d 0xffffffff (60 * 60) | v1 d => d end.

Abbreviation singleton := (option global_variant).

(** [globals::globals(contract)] reads the singleton. *)
Definition get (s : singleton) : result global_data_v1 :=
  v ← some_or (Check "singleton does not exist") s; Ok (upgrade v).
(** [globals::globals(contract, initial_value)] *)
Definition init (s : singleton) (d : global_data_v1) : result singleton :=
  _ ← check (bool_decide (s = None)) "Singleton is already initialized"; Ok (Some (v1 d)).

Definition check_active (d : global_data_v1) : result unit :=
  check (bool_decide (stage (base d) = active)) "Contract not active".
Definition default_token (d : global_data_v1) : Z := Asset.symbol (minimum_donation (base d)).

Definition set_stage (s : singleton) (st : contract_stage) : result singleton :=
  d ← get s; Ok (Some (v1 (d <| base ::= fun b => b <| stage := st |> |>))).
Definition set_election_start_time (s : singleton) (t : Z) : result singleton :=
  d ← get s; Ok (Some (v1 (d <| election_start_time := t |>))).
Definition set_election_round_duration (s : singleton) (t : Z) : result singleton :=
  d ← get s; Ok (Some (v1 (d <| election_round_time_sec := t |>))).

End Globals.
