(* ===== verification/Events.v ===== *)
(** What an action leaves behind besides its tables: the events of
    [contracts/eden/include/events.hpp] in the order they are pushed, and the
    inline actions it sends to other contracts, in order.  How events are
    packed into [eden.events] actions is in EventWire.v. *)
From S2P Require Import Prelude Asset Crypto.
Open Scope Z_scope.

Module Events.

Record vote_report : Type := mk_vote { voter : Z; candidate : Z }.

(** Times are block slots, accounts are names. *)
Inductive event : Type :=
  | election_event_schedule (election_time election_threshold : Z)
  | election_event_begin (election_time : Z)
  | election_event_seeding (election_time start_time end_time seed : Z)
  | election_event_end_seeding (election_time : Z)
  | election_event_config_summary (election_time num_rounds num_participants : Z)
  | election_event_create_round (election_time round : Z) (requires_voting : bool)
      (num_participants num_groups : Z)
  | election_event_create_group (election_time round : Z) (voters : list Z)
  | election_event_begin_round_voting (election_time round voting_begin voting_end : Z)
  | election_event_end_round_voting (election_time round : Z)
  | election_event_report_group (election_time round winner : Z) (votes : list vote_report)
  | election_event_end_round (election_time round : Z)
  | election_event_end (election_time : Z)
  | set_pool_event (pool monthly_distribution_pct : Z)
  | distribution_event_schedule (distribution_time : Z)
  | distribution_event_reserve (distribution_time pool : Z) (target_amount : asset)
  | distribution_event_begin (distribution_time : Z) (rank_distribution : list asset)
  | distribution_event_return_excess (distribution_time pool : Z) (amount : asset)
  | distribution_event_fund (owner distribution_time rank : Z) (balance : asset)
  | distribution_event_end (distribution_time : Z)
  | distribution_event_return (owner distribution_time rank : Z) (amount : asset) (pool : Z)
  | migration_event (index : Z)
  | session_new_event (eden_account : Z) (key : public_key) (expiration : Z) (description : string)
  | session_del_event (eden_account : Z) (key : public_key).

(** An authority over a permission: the accounts that carry weight 1. *)
Record authority : Type := mk_authority { threshold : Z; accounts : list (Z * Z) }.

Inductive inline_action : Type :=
  | updateauth (account permission parent : Z) (auth : authority)
  | linkauth (account code type requirement : Z)
  | token_transfer (from to : Z) (quantity : asset) (memo : string)
  | createtempl (max_supply : Z) (immutable_data : list (string * string))
  | mintasset (template_id new_asset_owner : Z)
  | locktemplate (template_id : Z)
  | inducted (invitee : Z)
  | announceauct (asset_id : Z) (starting_bid : asset) (duration : Z)
  | nft_transfer (to asset_id : Z) (memo : string)
  | auctclaimsel (auction_id : Z)
  | cancelauct (auction_id : Z)
  | createcol (collection : Z) (notify : bool) (authorized notified : list Z)
      (data : list (string * string))
  | addnotifyacc (collection account : Z)
  | setcoldata (collection : Z) (data : list (string * string))
  | createschema (collection schema : Z) (format : list (string * string))
  | extendschema (collection schema : Z) (format : list (string * string)).

End Events.
Export Events (event, inline_action).
