(* ===== verification/Nft.v ===== *)
(** The NFT contracts as this contract sees them
    ([contracts/eden/src/atomicassets.cpp], the [atomicmarket] rows of
    [contracts/eden/src/auctions.cpp]).  Their tables belong to other accounts
    and are read only: they are one record of lookups.  The module Auctions is
    the contract's own table of auctions. *)
From S2P Require Import Prelude Name Time Asset MultiIndex Host Events.
From stdpp Require Import sorting.
Open Scope string_scope.
Open Scope list_scope.
Open Scope Z_scope.

Module Nft.

(** A row of the market's auctions table. *)
Record market_auction : Type := mk_market {
  auction_id : Z; seller : Z; asset_ids : list Z; end_time : Z;
  current_bidder : Z; claimed_by_seller : bool
}.

Record collection_row : Type := mk_collection {
  allow_notify : bool; authorized_accounts : list Z; notify_accounts : list Z }.

(** The order of the "byassets" index is the market contract's own: the rows
    are given by primary key together with that index key. *)
Record tables : Type := mk_tables {
  market : gmap Z market_auction;
  by_assets : market_auction -> Z;
  template_max_supply : Z -> option Z;
  template_data : Z -> option (list (string * string));   (* deserialized *)
  collections : gmap Z collection_row;
  schemas : gmap (Z * Z) (list (string * string))
}.

Definition schema_name : Z := Name.n "members".

(** [is_locked] *)
Definition is_locked (t : tables) (template_id : Z) : result bool :=
  supply ← some_or (Check ("fail to read template id " ++ to_string template_id)%string)
             (template_max_supply t template_id);
  Ok (negb (supply =? 0)).

(** [read_immutable_data] *)
Definition read_immutable_data (t : tables) (template_id : Z) : result (list (string * string)) :=
  some_or (Check ("fail to read template id " ++ to_string template_id)%string)
    (template_data t template_id).

(** [validate_ipfs] *)
Definition validate_ipfs (e : env) (cid : string) : result unit :=
  _ ← check (negb (bool_decide (cid = ""))) "CID is empty";
  check (Host.decode_base58 e cid) "Expected Base58 encoded CID".

(** The fields of the schema; [extendschema] adds those that are missing. *)
Definition schema_format : list (string * string) :=
  [("account", "string"); ("name", "string"); ("img", "ipfs"); ("bio", "string");
   ("social", "string"); ("video", "ipfs"); ("attributions", "string")].

Definition init_collection (t : tables) (self collection schema : Z) (attrs : list (string * string))
    : result (list inline_action) :=
  first ← (match collections t !! collection with
           | Some pos =>
               _ ← check (allow_notify pos) "Notifications are required";
               _ ← check (bool_decide (self ∈ authorized_accounts pos))
                     "Contract is not authorized for the collection";
               Ok ((if bool_decide (self ∈ notify_accounts pos) then []
                    else [Events.addnotifyacc collection self])
                   ++ [Events.setcoldata collection attrs])
           | None => Ok [Events.createcol collection true [self] [self] attrs]
           end);
  let missing :=
    match schemas t !! (collection, schema) with
    | Some current =>
        match filter (fun f => f ∉ current) schema_format with
        | [] => []
        | rest => [Events.extendschema collection schema rest]
        end
    | None => [Events.createschema collection schema schema_format]
    end in
  Ok (first ++ missing).

(** The member an asset is about, found by its attribute. *)
Definition account_of (data : list (string * string)) (where_ : string) : result Z :=
  pos ← some_or (Check ("Missing account " ++ where_)%string)
          (head (filter (fun attr => attr.1 = "account") data));
  Name.of_string pos.2.

(** ** Facts *)

(** Whatever schema the collection has, afterwards every field the contract
    writes is part of it. *)
Definition fields_after (t : tables) (collection schema : Z) (sent : list inline_action)
    : list (string * string) :=
  default [] (schemas t !! (collection, schema)) ++
  flat_map (fun a => match a with
                     | Events.createschema _ _ f | Events.extendschema _ _ f => f
                     | _ => []
                     end) sent.

Lemma schema_complete t self collection schema attrs sent f :
  init_collection t self collection schema attrs = Ok sent ->
  f ∈ schema_format -> f ∈ fields_after t collection schema sent.
Proof.
  intros H Hf. unfold init_collection in H. apply bind_Ok in H as (first & _ & H).
  injection H as <-. unfold fields_after.
  destruct (schemas t !! (collection, schema)) as [current|]; cbn [default].
  - apply elem_of_app. destruct (decide (f ∈ current)) as [Hc|Hc]; [by left|]. right.
    assert (f ∈ filter (fun f => f ∉ current) schema_format) as Hin by (by apply list_elem_of_filter).
    rewrite flat_map_app. apply elem_of_app. right.
    destruct (filter _ schema_format) as [|x l]; [by apply not_elem_of_nil in Hin|].
    cbn. by rewrite app_nil_r.
  - apply elem_of_app. right. rewrite flat_map_app. apply elem_of_app. right. cbn [flat_map].
    by rewrite app_nil_r.
Qed.

End Nft.

(** The auctions of new members' NFTs ([contracts/eden/src/auctions.cpp],
    [contracts/eden/include/auctions.hpp]).  An auction row is an asset the
    contract put up at the market; finishing walks the rows in the order of
    their last known end time. *)
Open Scope string_scope.
Open Scope list_scope.
Open Scope Z_scope.

Module Auctions.
Import Nft.

Record auction : Type := mk_auction { asset_id : Z; last_known_end_time : Z (* seconds *) }.
#[global] Instance set_end_time : Setter last_known_end_time := fun f a =>
  mk_auction (asset_id a) (f (last_known_end_time a)).
Abbreviation table := (gmap Z auction).
Definition by_end_time (a : auction) : Z := last_known_end_time a.

(** [add_auction(asset_id)] *)
Definition add_auction (tb : table) (now : Z) (duration : Z) (asset : Z) : result table :=
  Table.emplace asset_id tb
    (mk_auction asset (Time.sec_of_time_point (now + Time.seconds duration))).
(** [add_auction(asset_id, end_time)] *)
Definition add_auction_at (tb : table) (asset end_time : Z) : result table :=
  Table.emplace asset_id tb (mk_auction asset end_time).
Definition has_auction (tb : table) (asset : Z) : bool := bool_decide (is_Some (tb !! asset)).

(** The search in the market: from the first row of the asset's key on, up to
    the row of this seller; a row of another asset ends it.  Dereferencing the
    end of the index is outside the language. *)
Fixpoint market_search (self asset : Z) (rows : list market_auction) : result (option market_auction) :=
  match rows with
  | [] => Err (Trap "dereferenced the end of an index")
  | row :: rest =>
      match asset_ids row with
      | [a] => if a =? asset then
                 if seller row =? self then Ok (Some row) else market_search self asset rest
               else Ok None
      | _ => Ok None
      end
  end.

Definition market_rows (t : tables) (key : Z) : list market_auction :=
  omap (fun k => market t !! k) (Table.index_from (by_assets t) (market t) key).

Section finish.
Context (h : host) (t : tables) (asset_key : Z -> Z).  (* sha256 of the asset's id *)

(** One iteration of [finish_auctions]. *)
Definition finish_auction (tb : table) (a : auction) (now : Z) : result (table * list inline_action) :=
  found ← market_search (Host.self h) (asset_id a) (market_rows t (asset_key (asset_id a)));
  match found with
  | None => tb ← Table.erase tb (asset_id a); Ok (tb, [])
  | Some row =>
      if claimed_by_seller row then tb ← Table.erase tb (asset_id a); Ok (tb, [])
      else if end_time row <? now then
        tb ← Table.erase tb (asset_id a);
        Ok (tb, if negb (current_bidder row =? 0) then [Events.auctclaimsel (auction_id row)]
                else [Events.cancelauct (auction_id row)])
      else
        tb ← Table.modify asset_id tb (asset_id a)
               (fun r => Ok (r <| last_known_end_time := end_time row |>));
        Ok (tb, [])
  end.

(** The rows to visit are those whose time has passed; changing the row under
    the iterator moves it only forward of the rows still to come, or past the
    end of the range. *)
Fixpoint finish_loop (ks : list Z) (tb : table) (now : Z) (max_steps : nat)
    : result (table * list inline_action * nat) :=
  match ks, max_steps with
  | k :: ks', S n =>
      a ← some_or (Trap "dangling index entry") (tb !! k);
      if last_known_end_time a <? now then
        '(tb, sent) ← finish_auction tb a now;
        '(tb, sent', remaining) ← finish_loop ks' tb now n;
        Ok (tb, sent ++ sent', remaining)
      else Ok (tb, [], max_steps)
  | _, _ => Ok (tb, [], max_steps)
  end.
Definition finish_auctions (tb : table) (max_steps : nat) : result (table * list inline_action * nat) :=
  let now := Time.sec_of_time_point (Host.current_time_point h) in
  finish_loop (Table.index_from by_end_time tb 0) tb now max_steps.

(** [migrate_auction_v0::migrate_some]: registers the contract's auctions that
    are already at the market. *)
Fixpoint migrate_loop (ks : list Z) (tb : table) (last : Z) (max_steps : nat)
    : result (table * Z * nat) :=
  match ks, max_steps with
  | k :: ks', S n =>
      row ← some_or (Trap "dangling index entry") (market t !! k);
      tb ← (match asset_ids row with
            | [asset] =>
                if (seller row =? Host.self h) && negb (has_auction tb asset)
                then add_auction_at tb asset (end_time row) else Ok tb
            | _ => Ok tb
            end);
      migrate_loop ks' tb (auction_id row) n
  | _, _ => Ok (tb, last, max_steps)
  end.
Definition migrate_some (tb : table) (last_auction_id : Z) (max_steps : nat) : result (table * Z * nat) :=
  migrate_loop (Table.upper_bound_keys (market t) last_auction_id) tb last_auction_id max_steps.
End finish.

Definition clear_all (tb : table) : table := ∅.

End Auctions.
