(* ===== verification/Inductions.v ===== *)
(** Inductions of new members ([contracts/eden/src/inductions.cpp],
    [contracts/eden/include/inductions.hpp]): the invitation, its endorsements
    by the inviter and the witnesses, and the clean-up of expired ones. *)
From S2P Require Import Prelude Name Time MultiIndex Binary Host Globals Events Encrypt Nft Accounts.
Open Scope string_scope.
Open Scope list_scope.
Open Scope Z_scope.

Module Inductions.

Record new_member_profile : Type := mk_profile {
  name : string; img : string; bio : string; social : string; attributions : string }.
Definition empty_profile : new_member_profile := mk_profile "" "" "" "" "".

Record induction : Type := mk_induction {
  id : Z; inviter : Z; invitee : Z; endorsements : Z; created_at : Z; video : string;
  profile : new_member_profile }.
#[global] Instance set_endorsements : Setter endorsements := fun f r =>
  mk_induction (id r) (inviter r) (invitee r) (f (endorsements r)) (created_at r) (video r) (profile r).
#[global] Instance set_created_at : Setter created_at := fun f r =>
  mk_induction (id r) (inviter r) (invitee r) (endorsements r) (f (created_at r)) (video r) (profile r).
#[global] Instance set_video : Setter video := fun f r =>
  mk_induction (id r) (inviter r) (invitee r) (endorsements r) (created_at r) (f (video r)) (profile r).
#[global] Instance set_profile : Setter profile := fun f r =>
  mk_induction (id r) (inviter r) (invitee r) (endorsements r) (created_at r) (video r) (f (profile r)).

(** [combine_names] *)
Definition combine_names (a b : Z) : Z := Z.lor (Z.shiftl a 64) b.
Definition get_invitee_inviter (r : induction) : Z := combine_names (invitee r) (inviter r).
Definition get_inviter_invitee (r : induction) : Z := combine_names (inviter r) (invitee r).
Definition get_created_key (r : induction) : Z := created_at r.

Record endorsement : Type := mk_endorsement {
  eid : Z; e_inviter : Z; e_invitee : Z; endorser : Z; induction_id : Z; endorsed : bool }.
#[global] Instance set_endorser : Setter endorser := fun f r =>
  mk_endorsement (eid r) (e_inviter r) (e_invitee r) (f (endorser r)) (induction_id r) (endorsed r).
#[global] Instance set_endorsed : Setter endorsed := fun f r =>
  mk_endorsement (eid r) (e_inviter r) (e_invitee r) (endorser r) (induction_id r) (f (endorsed r)).
Definition endorser_key (endorser id : Z) : Z := Z.lor (Z.shiftl endorser 64) id.
Definition get_endorser_key (r : endorsement) : Z := endorser_key (endorser r) (induction_id r).

Record endorsed_induction : Type := mk_endorsed { ei_invitee : Z; ei_induction_id : Z }.

(** The tables of the class, the rows queued for collection, and the
    encrypted meeting data of the scope "induction". *)
Record store : Type := mk_store {
  induction_tb : gmap Z induction;
  endorsement_tb : gmap Z endorsement;
  endorsed_induction_tb : gmap Z endorsed_induction;
  gc_tb : gmap Z Z;
  encrypted : Encrypt.table
}.
#[global] Instance set_induction_tb : Setter induction_tb := fun f s =>
  mk_store (f (induction_tb s)) (endorsement_tb s) (endorsed_induction_tb s) (gc_tb s) (encrypted s).
#[global] Instance set_endorsement_tb : Setter endorsement_tb := fun f s =>
  mk_store (induction_tb s) (f (endorsement_tb s)) (endorsed_induction_tb s) (gc_tb s) (encrypted s).
#[global] Instance set_endorsed_induction_tb : Setter endorsed_induction_tb := fun f s =>
  mk_store (induction_tb s) (endorsement_tb s) (f (endorsed_induction_tb s)) (gc_tb s) (encrypted s).
#[global] Instance set_gc_tb : Setter gc_tb := fun f s =>
  mk_store (induction_tb s) (endorsement_tb s) (endorsed_induction_tb s) (f (gc_tb s)) (encrypted s).
#[global] Instance set_encrypted : Setter encrypted := fun f s =>
  mk_store (induction_tb s) (endorsement_tb s) (endorsed_induction_tb s) (gc_tb s) (f (encrypted s)).

(** The rows of [for (itr = idx.lower_bound(id); itr->induction_id() == id;)]. *)
Definition endorsements_of (tb : gmap Z endorsement) (i : Z) : list Z :=
  Table.index_while induction_id tb i (fun r => induction_id r =? i).
Definition endorsements_by (tb : gmap Z endorsement) (a : Z) : list Z :=
  Table.index_while get_endorser_key tb (endorser_key a 0) (fun r => endorser r =? a).

Section operations.
Context (h : host) (e : env).

(** ** Creating inductions *)

Definition create_induction (s : store) (i inviter invitee total : Z) (vid : string) : result store :=
  tb ← Table.emplace id (induction_tb s)
         (mk_induction i inviter invitee total (Host.current_block_time h) vid empty_profile);
  Ok (s <| induction_tb := tb |>).

Definition create_endorsement (s : store) (inviter invitee endorser i : Z) (b : bool) : result store :=
  k ← Table.available_primary_key (endorsement_tb s);
  tb ← Table.emplace eid (endorsement_tb s) (mk_endorsement k inviter invitee endorser i b);
  Ok (s <| endorsement_tb := tb |>).

Definition create_endorsements (s : store) (inviter invitee i : Z) (endorsers : list Z) : result store :=
  foldM (fun s a => create_endorsement s inviter invitee a i false) endorsers s.

Definition check_new_induction (s : store) (invitee inviter : Z) : result unit :=
  check (bool_decide (Table.index_find get_invitee_inviter (induction_tb s)
                        (combine_names invitee inviter) = None))
    "induction for this invitation is already in progress".

Definition check_valid_endorsers (inviter : Z) (witnesses : list Z) : result unit :=
  _ ← check (Nat.leb 2 (length witnesses) && Nat.leb (length witnesses) 5)
        "2 to 5 witnesses are required for induction";
  _ ← check (Nat.eqb (size (list_to_set witnesses : gset Z)) (length witnesses))
        "the witnesses list has a duplicated entry";
  check (negb (bool_decide (inviter ∈ witnesses))) "inviter cannot be in the witnesses list".

Definition initialize_induction (s : store) (i inviter invitee : Z) (witnesses : list Z) : result store :=
  _ ← check_new_induction s invitee inviter;
  _ ← check_valid_endorsers inviter witnesses;
  _ ← check (Host.is_account h invitee)
        ("Account " ++ Name.name_to_string invitee ++ " does not exist")%string;
  let total_endorsements := wrap 32 (Z.of_nat (length witnesses) + 1) in
  s ← create_induction s i inviter invitee total_endorsements "";
  s ← create_endorsement s inviter invitee inviter i false;
  create_endorsements s inviter invitee i witnesses.

(** [++row.endorsements()] and the new endorsement. *)
Definition add_endorsement (s : store) (ind : induction) (endorser : Z) (b : bool) : result store :=
  tb ← Table.modify id (induction_tb s) (id ind)
         (fun r => Ok (r <| endorsements ::= fun n => wrap 32 (n + 1) |>));
  create_endorsement (s <| induction_tb := tb |>) (inviter ind) (invitee ind) endorser (id ind) b.

Definition update_expiration (s : store) (ind : induction) (new_expiration : Z) : result store :=
  let new_created_at :=
    Time.block_of_time_point (new_expiration - Time.seconds Globals.induction_expiration_secs) in
  let current_time := Time.to_time_point (Host.current_block_time h) in
  _ ← check (current_time <=? new_expiration) "New expiration is in the past";
  _ ← check (Time.to_seconds (new_expiration - current_time) <=? Globals.induction_expiration_secs)
        "New expiration is too far in the future";
  tb ← Table.modify id (induction_tb s) (id ind) (fun r => Ok (r <| created_at := new_created_at |>));
  Ok (s <| induction_tb := tb |>).

(** ** Reading *)

Definition get_induction (s : store) (i : Z) : result induction :=
  Table.get (induction_tb s) i "unable to find induction".

Definition get_endorsed_induction (s : store) (invitee : Z) : result induction :=
  row ← Table.get (endorsed_induction_tb s) invitee
          ("unable to find endorsed induction for " ++ Name.name_to_string invitee)%string;
  get_induction s (ei_induction_id row).

Definition is_valid_induction (ind : induction) : bool :=
  Time.to_seconds (Host.current_time_point h - Time.to_time_point (created_at ind))
    <=? Globals.induction_expiration_secs.

Definition check_valid_induction (ind : induction) : result unit :=
  check (is_valid_induction ind) "induction has expired".

Definition get_endorsers (s : store) (i : Z) : list Z :=
  omap (fun k => endorser <$> endorsement_tb s !! k) (endorsements_of (endorsement_tb s) i).

Definition is_endorser (s : store) (i witness : Z) : bool :=
  bool_decide (is_Some (Table.index_find get_endorser_key (endorsement_tb s) (endorser_key witness i))).

Definition is_invitee (s : store) (i a : Z) : result bool :=
  ind ← get_induction s i; Ok (invitee ind =? a).

Definition inductions_of (s : store) (a : Z) : list Z :=
  Table.index_while get_invitee_inviter (induction_tb s) (combine_names a 0) (fun r => invitee r =? a).
Definition has_induction (s : store) (a : Z) : bool :=
  match head (Table.index_from get_invitee_inviter (induction_tb s) (combine_names a 0)) with
  | Some k => match induction_tb s !! k with Some r => invitee r =? a | None => false end
  | None => false
  end.

(** ** Changing what is endorsed *)

Definition set_all (b : bool) (s : store) (i : Z) : result store :=
  tb ← foldM (fun tb k => Table.modify eid tb k (fun r => Ok (r <| endorsed := b |>)))
         (endorsements_of (endorsement_tb s) i) (endorsement_tb s);
  Ok (s <| endorsement_tb := tb |>).
Definition reset_endorsements : store -> Z -> result store := set_all false.
Definition endorse_all (s : store) (ind : induction) : result store := set_all true s (id ind).

Definition validate_profile (p : new_member_profile) : result unit :=
  _ ← check (negb (bool_decide (name p = ""))) "new member profile name is empty";
  _ ← Nft.validate_ipfs e (img p);
  check (negb (bool_decide (bio p = ""))) "new member profile bio is empty".
Definition validate_video (v : string) : result unit := Nft.validate_ipfs e v.

Definition update_profile (s : store) (ind : induction) (p : new_member_profile) : result store :=
  _ ← check_valid_induction ind;
  _ ← validate_profile p;
  tb ← Table.modify id (induction_tb s) (id ind) (fun r => Ok (r <| profile := p |>));
  reset_endorsements (s <| induction_tb := tb |>) (id ind).

Definition update_video (s : store) (ind : induction) (v : string) : result store :=
  _ ← check_valid_induction ind;
  _ ← validate_video v;
  tb ← Table.modify id (induction_tb s) (id ind) (fun r => Ok (r <| video := v |>));
  reset_endorsements (s <| induction_tb := tb |>) (id ind).

(** [convert_to_bin(std::tuple(video, new_member_profile))] *)
Definition endorsed_codec : Binary.codec (string * (string * (string * (string * (string * string))))) :=
  let c := Binary.string_codec in
  Binary.pair_codec c (Binary.pair_codec c (Binary.pair_codec c (Binary.pair_codec c (Binary.pair_codec c c)))).
Definition endorsed_data (v : string) (p : new_member_profile) :=
  (v, (name p, (img p, (bio p, (social p, attributions p))))).
Definition endorsed_bytes (ind : induction) : result (list Z) :=
  Binary.to_bin endorsed_codec (endorsed_data (video ind) (profile ind)).

Definition endorse (s : store) (ind : induction) (account data_hash : Z) : result store :=
  _ ← check_valid_induction ind;
  _ ← check (negb (bool_decide (video ind = ""))) "Video not set";
  _ ← check (negb (bool_decide (name (profile ind) = ""))) "Profile not set";
  bin ← endorsed_bytes ind;
  _ ← check (Host.sha256 e bin =? data_hash) "Outdated endorsement";
  k ← some_or (Check ("unable to find endorsement for endorser " ++ Name.name_to_string account)%string)
        (Table.index_find get_endorser_key (endorsement_tb s) (endorser_key account (id ind)));
  row ← some_or (Trap "dangling index entry") (endorsement_tb s !! k);
  _ ← check (negb (endorsed row)) "Already endorsed";
  tb ← Table.modify eid (endorsement_tb s) k (fun r => Ok (r <| endorsed := true |>));
  Ok (s <| endorsement_tb := tb |>).

(** ** The NFTs of a completed induction *)

Definition check_is_fully_endorsed (s : store) (i : Z) : result unit :=
  check (forallb (fun k => from_option endorsed false (endorsement_tb s !! k))
                 (endorsements_of (endorsement_tb s) i))
    "induction is not fully endorsed".

Definition create_nft (s : store) (stage : Globals.contract_stage) (ind : induction)
    : result (store * list inline_action) :=
  _ ← check_is_fully_endorsed s (id ind);
  tb ← Table.emplace ei_invitee (endorsed_induction_tb s) (mk_endorsed (invitee ind) (id ind));
  let p := profile ind in
  let immutable_data :=
    [("account", Name.name_to_string (invitee ind)); ("name", name p); ("img", img p);
     ("bio", bio p); ("social", social p); ("video", video ind)]
    ++ (if bool_decide (attributions p = "") then [] else [("attributions", attributions p)]) in
  let max_supply :=
    match stage with Globals.genesis => 0 | Globals.active => wrap 32 (endorsements ind + 2) end in
  Ok (s <| endorsed_induction_tb := tb |>,
      [Events.createtempl max_supply immutable_data; Events.inducted (invitee ind)]).

Definition create_nfts (s : store) (ind : induction) (template_id : Z) : list inline_action :=
  Events.mintasset template_id <$>
    [Host.self h; invitee ind] ++ get_endorsers s (id ind).

Definition start_auction (d : Globals.global_data_v1) (asset_id : Z) : list inline_action :=
  [Events.announceauct asset_id (Globals.auction_starting_bid (Globals.base d))
     (Globals.auction_duration (Globals.base d));
   Events.nft_transfer Accounts.Accounts.atomic_market_account asset_id "auction"].

(** ** Erasing *)

Definition erase_induction (s : store) (ind : induction) : result store :=
  tb ← foldM (fun tb k => Table.erase tb k) (endorsements_of (endorsement_tb s) (id ind))
         (endorsement_tb s);
  let endorsed := match endorsed_induction_tb s !! invitee ind with
                  | Some _ => delete (invitee ind) (endorsed_induction_tb s)
                  | None => endorsed_induction_tb s
                  end in
  enc ← Encrypt.erase (encrypted s) (id ind);
  itb ← Table.erase (induction_tb s) (id ind);
  Ok (mk_store itb tb endorsed (gc_tb s) enc).

Definition erase_key (s : store) (k : Z) : result store :=
  ind ← some_or (Trap "dangling index entry") (induction_tb s !! k);
  erase_induction s ind.

Definition erase_by_inductee (s : store) (a : Z) (limit : nat) : result (store * nat) :=
  let ks := take limit (inductions_of s a) in
  s ← foldM erase_key ks s;
  Ok (s, (limit - length ks)%nat).

Fixpoint erase_expired_loop (ks : list Z) (s : store) (removed : list Z) (limit : nat)
    : result (store * list Z * nat) :=
  match ks, limit with
  | k :: ks', S n =>
      ind ← some_or (Trap "dangling index entry") (induction_tb s !! k);
      if is_valid_induction ind then Ok (s, removed, limit) else
        s ← erase_induction s ind;
        erase_expired_loop ks' s
          (if has_induction s (invitee ind) then removed else removed ++ [invitee ind]) n
  | _, _ => Ok (s, removed, limit)
  end.
Definition erase_expired (s : store) (removed : list Z) (limit : nat) : result (store * list Z * nat) :=
  erase_expired_loop (Table.index get_created_key (induction_tb s)).*2 s removed limit.

Fixpoint gc_loop (ks : list Z) (s : store) (limit : nat) : result (store * nat) :=
  match ks, limit with
  | k :: ks', S _ =>
      '(s, limit) ← erase_by_inductee s k limit;
      match limit with
      | O => Ok (s, O)
      | S n => tb ← Table.erase (gc_tb s) k; gc_loop ks' (s <| gc_tb := tb |>) n
      end
  | _, _ => Ok (s, limit)
  end.
Definition gc (s : store) (limit : nat) : result (store * list Z * nat) :=
  '(s, removed, limit) ← erase_expired s [] limit;
  '(s, limit) ← gc_loop (Table.keys (gc_tb s)) s limit;
  Ok (s, removed, limit).

Definition queue_gc (s : store) (a : Z) : result store :=
  tb ← Table.emplace (fun x => x) (gc_tb s) a; Ok (s <| gc_tb := tb |>).

(** [--row.endorsements() > 0] *)
Definition erase_endorser_row (s : store) (k : Z) : result store :=
  row ← some_or (Trap "dangling index entry") (endorsement_tb s !! k);
  _ ← Table.get (induction_tb s) (induction_id row) "unable to find key";
  itb ← Table.modify id (induction_tb s) (induction_id row) (fun r =>
          let r := r <| endorsements ::= fun n => wrap 32 (n - 1) |> in
          _ ← check (0 <? endorsements r)
                "Not enough remaining endorsers.  It should be safe to clear the contract, however, as this should only happen if no NFTs have been issued yet...";
          Ok r);
  tb ← Table.erase (endorsement_tb s) k;
  Ok (s <| induction_tb := itb |> <| endorsement_tb := tb |>).
Definition erase_endorser (s : store) (a : Z) : result store :=
  foldM erase_endorser_row (endorsements_by (endorsement_tb s) a) s.

Definition on_rename (s : store) (old_account new_account : Z) : result store :=
  _ ← check (negb (has_induction s old_account)) "Cannot rename: gc required";
  tb ← foldM (fun tb k => Table.modify eid tb k (fun r => Ok (r <| endorser := new_account |>)))
         (endorsements_by (endorsement_tb s) old_account) (endorsement_tb s);
  _ ← check (match head (Table.index_from get_inviter_invitee (induction_tb s)
                           (combine_names old_account 0)) with
             | Some k => match induction_tb s !! k with
                         | Some r => negb (inviter r =? old_account) | None => true end
             | None => true
             end)
        "Cannot rename an account that is the inviter of a pending invitation";
  Ok (s <| endorsement_tb := tb |>).

(** [clear_all]: the two tables of the class only. *)
Definition clear_all (s : store) : store := s <| induction_tb := ∅ |> <| endorsement_tb := ∅ |>.
End operations.

(** ** Facts *)

(** The number of endorsement rows of an induction. *)
Definition belongs (i : Z) (r : endorsement) : Z := if induction_id r =? i then 1 else 0.
Definition num_endorsements (tb : gmap Z endorsement) (i : Z) : Z := map_sum (belongs i) tb.

Record inv (s : store) : Prop := {
  inv_keyed : Table.keyed id (induction_tb s);
  inv_ekeyed : Table.keyed eid (endorsement_tb s);
  inv_range : forall k r, endorsement_tb s !! k = Some r -> 0 <= endorser r /\ 0 <= induction_id r < 2 ^ 64;
  inv_counted : forall k r, induction_tb s !! k = Some r ->
    endorsements r = wrap 32 (num_endorsements (endorsement_tb s) k);
  inv_no_orphans : forall k r, endorsement_tb s !! k = Some r -> is_Some (induction_tb s !! induction_id r)
}.

Lemma elem_of_endorsements_of tb i k :
  k ∈ endorsements_of tb i <-> exists r, tb !! k = Some r /\ induction_id r = i.
Proof.
  unfold endorsements_of. rewrite Table.elem_of_index_while.
  - split; intros (r & Hr & H); exists r; rewrite Z.eqb_eq in *; intuition lia.
  - intros j j' r r' _ _ Hle Hi. rewrite !Z.eqb_eq. lia.
Qed.

Lemma endorser_key_split a i : 0 <= i < 2 ^ 64 -> endorser_key a i = a * 2 ^ 64 + i.
Proof. intros Hi. apply lor_shiftl; lia. Qed.

Lemma elem_of_endorsements_by tb a k :
  (forall k r, tb !! k = Some r -> 0 <= endorser r /\ 0 <= induction_id r < 2 ^ 64) ->
  k ∈ endorsements_by tb a <-> exists r, tb !! k = Some r /\ endorser r = a.
Proof.
  intros Hr. unfold endorsements_by. rewrite Table.elem_of_index_while.
  - split; intros (r & Hk & H); exists r; rewrite Z.eqb_eq in *; [tauto|].
    split; [done|]. split; [|done]. destruct (Hr _ _ Hk) as [_ Hi].
    unfold get_endorser_key. rewrite !endorser_key_split by lia. lia.
  - intros j j' r r' Hj Hj'. destruct (Hr _ _ Hj) as [_ Hi], (Hr _ _ Hj') as [_ Hi'].
    unfold get_endorser_key. rewrite !endorser_key_split by lia. rewrite !Z.eqb_eq. lia.
Qed.

(** Counting only depends on which induction each row belongs to. *)
Lemma map_sum_ext {A} (f : A -> Z) (m m' : gmap Z A) :
  (forall k, f <$> m !! k = f <$> m' !! k) -> map_sum f m = map_sum f m'.
Proof.
  revert m'. induction m as [|k a m Hk IH] using map_ind; intros m' H.
  - assert (m' = ∅) as ->; [|done]. apply map_empty. intros k. specialize (H k).
    rewrite lookup_empty in H. by destruct (m' !! k).
  - pose proof (H k) as Ha. rewrite lookup_insert_eq in Ha. cbn in Ha.
    destruct (m' !! k) as [b|] eqn:Hb; [|done]. injection Ha as Hab.
    rewrite map_sum_insert, (map_sum_delete f k b m') by done. rewrite Hab. f_equal.
    apply IH. intros j. destruct (decide (j = k)) as [->|Hj].
    + by rewrite Hk, lookup_delete_eq.
    + specialize (H j). rewrite lookup_insert_ne in H by done. by rewrite lookup_delete_ne.
Qed.

Lemma num_endorsements_ext tb tb' i :
  (forall k, induction_id <$> tb !! k = induction_id <$> tb' !! k) ->
  num_endorsements tb i = num_endorsements tb' i.
Proof.
  intros H. apply map_sum_ext. intros k. specialize (H k). unfold belongs.
  destruct (tb !! k), (tb' !! k); cbn in *; [|done..]. by injection H as ->.
Qed.

Lemma num_endorsements_insert tb k r i :
  tb !! k = None -> num_endorsements (<[k := r]> tb) i = belongs i r + num_endorsements tb i.
Proof. apply map_sum_insert. Qed.

Lemma num_endorsements_delete tb k r i :
  tb !! k = Some r -> num_endorsements (delete k tb) i = num_endorsements tb i - belongs i r.
Proof. intros H. unfold num_endorsements. rewrite (map_sum_delete _ k r tb H). lia. Qed.

Lemma wrap_add w a b : 0 <= w -> wrap w (wrap w a + b) = wrap w (a + b).
Proof. intros. unfold wrap. apply Zplus_mod_idemp_l. Qed.
Lemma wrap_sub w a b : 0 <= w -> wrap w (wrap w a - b) = wrap w (a - b).
Proof. intros. unfold wrap. apply Zminus_mod_idemp_l. Qed.

Lemma num_endorsements_zero tb i :
  (forall k r, tb !! k = Some r -> induction_id r <> i) -> num_endorsements tb i = 0.
Proof.
  intros H. apply map_sum_zero. intros k r Hr. unfold belongs.
  by rewrite (proj2 (Z.eqb_neq _ _) (H k r Hr)).
Qed.

(** *** Each operation keeps the invariant *)

(** The endorsement table gains one row, of an induction that exists, and
    nothing else changes. *)
Lemma create_endorsement_Ok s a b c i v s' :
  create_endorsement s a b c i v = Ok s' ->
  exists k, endorsement_tb s !! k = None /\
    s' = s <| endorsement_tb ::= <[k := mk_endorsement k a b c i v]> |>.
Proof.
  intros H. unfold create_endorsement in H. apply bind_Ok in H as (k & Hk & H).
  apply bind_Ok in H as (tb & [Hn ->]%Table.emplace_Ok & H). injection H as <-. eauto.
Qed.

(** [off i d s]: the invariant holds but for induction [i], whose field is
    [d] more than the number of its rows. *)
Record off (i d : Z) (s : store) : Prop := {
  off_keyed : Table.keyed id (induction_tb s);
  off_ekeyed : Table.keyed eid (endorsement_tb s);
  off_range : forall k r, endorsement_tb s !! k = Some r -> 0 <= endorser r /\ 0 <= induction_id r < 2 ^ 64;
  off_counted : forall k r, induction_tb s !! k = Some r ->
    endorsements r = wrap 32 (num_endorsements (endorsement_tb s) k + if k =? i then d else 0);
  off_no_orphans : forall k r, endorsement_tb s !! k = Some r -> is_Some (induction_tb s !! induction_id r);
  off_exists : is_Some (induction_tb s !! i)
}.

Lemma off_inv i s : off i 0 s -> inv s.
Proof.
  intros [H1 H2 H3 H4 H5 _]. split; try done. intros k r Hk. rewrite (H4 _ _ Hk).
  by destruct (_ =? _); rewrite Z.add_0_r.
Qed.

Lemma create_endorsement_off i d s a b c v s' :
  off i d s -> 0 <= c -> 0 <= i < 2 ^ 64 ->
  create_endorsement s a b c i v = Ok s' -> off i (d - 1) s'.
Proof.
  intros [H1 H2 H3 H4 H5 H6] Hc Hi (k & Hk & ->)%create_endorsement_Ok. split; cbn; try done.
  - by apply Table.keyed_insert.
  - intros j r [[<- <-]|[_ Hr]]%lookup_insert_Some; [done | by eapply H3].
  - intros j r Hr. rewrite (H4 _ _ Hr), num_endorsements_insert by done. unfold belongs. cbn.
    rewrite (Z.eqb_sym i j). destruct (j =? i); f_equal; lia.
  - intros j r [[<- <-]|[_ Hr]]%lookup_insert_Some; [done | by eapply H5].
Qed.

Lemma create_endorsements_off i d s a b ws s' :
  off i d s -> Forall (fun w => 0 <= w) ws -> 0 <= i < 2 ^ 64 ->
  create_endorsements s a b i ws = Ok s' -> off i (d - Z.of_nat (length ws)) s'.
Proof.
  intros Ho Hw Hi. revert d s Ho. induction Hw as [|w ws Hw0 Hw IH]; intros d s Ho H; cbn in H.
  - injection H as <-. cbn. by rewrite Z.sub_0_r.
  - apply bind_Ok in H as (s1 & H1 & H). cbn [length].
    replace (d - Z.of_nat (S (length ws))) with (d - 1 - Z.of_nat (length ws)) by lia.
    eapply IH; [|exact H]. by eapply create_endorsement_off.
Qed.

Lemma create_induction_off h s i a b n v s' :
  inv s -> create_induction h s i a b (wrap 32 n) v = Ok s' -> off i n s'.
Proof.
  intros [H1 H2 H3 H4 H5] H. unfold create_induction in H.
  apply bind_Ok in H as (tb & [Hn ->]%Table.emplace_Ok & H). injection H as <-. cbn in Hn.
  split; cbn; try done.
  - by apply Table.keyed_insert.
  - intros k r [[<- <-]|[Hk Hr]]%lookup_insert_Some; cbn.
    + rewrite Z.eqb_refl, num_endorsements_zero; [done|]. intros j e He <-.
      destruct (H5 _ _ He) as [x Hx]. congruence.
    + rewrite (H4 _ _ Hr). apply not_eq_sym, Z.eqb_neq in Hk as ->. by rewrite Z.add_0_r.
  - intros k r Hr. apply lookup_insert_is_Some'. right. by eapply H5.
  - by rewrite lookup_insert_eq.
Qed.

Lemma initialize_induction_inv h s i a b ws s' :
  inv s -> 0 <= i < 2 ^ 64 -> 0 <= a -> Forall (fun w => 0 <= w) ws ->
  initialize_induction h s i a b ws = Ok s' -> inv s'.
Proof.
  intros Hs Hi Ha Hw H. unfold initialize_induction in H.
  apply bind_Ok in H as (u1 & _ & H). apply bind_Ok in H as (u2 & _ & H).
  apply bind_Ok in H as (u3 & _ & H). apply bind_Ok in H as (s1 & H1 & H).
  apply bind_Ok in H as (s2 & H2 & H).
  apply (create_induction_off _ _ _ _ _ _ _ _ Hs) in H1.
  eapply create_endorsement_off in H2; [|exact H1|done|done].
  eapply create_endorsements_off in H; [|exact H2|done|done].
  eapply (off_inv i). eapply (eq_ind _ (fun d => off i d s') H). lia.
Qed.

(** Starting an induction at genesis: as many endorsers as announced. *)
Lemma start_induction_inv h s i a b es v s1 s' :
  inv s -> 0 <= i < 2 ^ 64 -> Forall (fun w => 0 <= w) es ->
  create_induction h s i a b (wrap 32 (Z.of_nat (length es))) v = Ok s1 ->
  create_endorsements s1 a b i es = Ok s' -> inv s'.
Proof.
  intros Hs Hi Hw H1 H. apply (create_induction_off _ _ _ _ _ _ _ _ Hs) in H1.
  eapply create_endorsements_off in H; [|exact H1|done|done].
  eapply (off_inv i). eapply (eq_ind _ (fun d => off i d s') H). lia.
Qed.

(** Changing fields of an induction the invariant does not mention. *)
Lemma modify_induction_inv s k f tb :
  inv s -> (forall r, endorsements (f r) = endorsements r) ->
  Table.modify id (induction_tb s) k (fun r => Ok (f r)) = Ok tb ->
  inv (s <| induction_tb := tb |>).
Proof.
  intros [H1 H2 H3 H4 H5] Hf (r & r' & Hr & [= <-] & Hk & ->)%Table.modify_Ok. split; cbn; try done.
  - by apply Table.keyed_insert.
  - intros j x [[<- <-]|[_ Hx]]%lookup_insert_Some; [rewrite Hf|]; eauto.
  - intros j x Hx. apply lookup_insert_is_Some'. right. by eapply H5.
Qed.

Lemma add_endorsement_inv s ind a v s' :
  inv s -> 0 <= id ind < 2 ^ 64 -> 0 <= a -> add_endorsement s ind a v = Ok s' -> inv s'.
Proof.
  intros [H1 H2 H3 H4 H5] Hi Ha H. unfold add_endorsement in H.
  apply bind_Ok in H as (tb & (r & r' & Hr & [= <-] & Hk & ->)%Table.modify_Ok & H).
  apply (off_inv (id ind)). change 0 with (1 - 1).
  eapply create_endorsement_off; [|exact Ha|exact Hi|exact H]. split; cbn; try done.
  - by apply Table.keyed_insert.
  - intros j x [[<- <-]|[Hne Hx]]%lookup_insert_Some; cbn.
    + rewrite (H4 _ _ Hr), Z.eqb_refl. apply wrap_add. lia.
    + rewrite (H4 _ _ Hx). apply not_eq_sym, Z.eqb_neq in Hne as ->. by rewrite Z.add_0_r.
  - intros j x Hx. apply lookup_insert_is_Some'. right. by eapply H5.
  - by rewrite lookup_insert_eq.
Qed.

(** Changing endorsements without moving them to another induction. *)
Lemma endorsement_tb_inv s tb :
  inv s -> Table.keyed eid tb ->
  (forall k, induction_id <$> tb !! k = induction_id <$> endorsement_tb s !! k) ->
  (forall k r, tb !! k = Some r -> 0 <= endorser r) ->
  inv (s <| endorsement_tb := tb |>).
Proof.
  intros [H1 H2 H3 H4 H5] Hk Hsame He.
  assert (forall k r, tb !! k = Some r -> exists r', endorsement_tb s !! k = Some r' /\
            induction_id r' = induction_id r) as Hold.
  { intros k r Hr. specialize (Hsame k). rewrite Hr in Hsame.
    destruct (endorsement_tb s !! k) as [r'|]; [|done]. injection Hsame as Hsame. by exists r'. }
  split; cbn; try done.
  - intros k r Hr. split; [by eapply He|]. destruct (Hold _ _ Hr) as (r' & Hr' & <-). by eapply H3.
  - intros k r Hr. rewrite (H4 _ _ Hr). f_equal. by apply num_endorsements_ext.
  - intros k r Hr. destruct (Hold _ _ Hr) as (r' & Hr' & <-). by eapply H5.
Qed.

Lemma set_all_Ok b s i s' :
  set_all b s i = Ok s' -> exists tb, s' = s <| endorsement_tb := tb |> /\
  (Table.keyed eid (endorsement_tb s) -> Table.keyed eid tb) /\
  forall k, tb !! k = (fun r => if induction_id r =? i then r <| endorsed := b |> else r)
                        <$> endorsement_tb s !! k.
Proof.
  intros H. unfold set_all in H. apply bind_Ok in H as (tb & H & Hs). injection Hs as <-.
  exists tb. split; [done|]. split.
  - intros Hk. eapply (foldM_inv (Table.keyed eid)); [|exact Hk|exact H].
    intros t x t' _ Ht Hm. cbn in Hm. eapply Table.modify_keyed; [exact Ht|exact Hm].
  - intros k. rewrite (Table.modify_all_Ok eid (fun r => r <| endorsed := b |>) _ _ _
      (Table.index_while_NoDup _ _ _ _) H).
    destruct (decide _) as [Hin|Hin].
    + apply elem_of_endorsements_of in Hin as (r & -> & <-). cbn. by rewrite Z.eqb_refl.
    + destruct (endorsement_tb s !! k) as [r|] eqn:Hr; [|done]. cbn.
      destruct (Z.eqb_spec (induction_id r) i); [|done]. exfalso. apply Hin.
      apply elem_of_endorsements_of. eauto.
Qed.

Lemma set_all_inv b s i s' : inv s -> set_all b s i = Ok s' -> inv s'.
Proof.
  intros Hs H. apply set_all_Ok in H as (tb & -> & Hk & Hl). pose proof Hs as [H1 H2 H3 H4 H5].
  apply endorsement_tb_inv; [done | auto | |].
  - intros k. rewrite Hl. destruct (endorsement_tb s !! k) as [r|]; [|done]. cbn. by destruct (_ =? _).
  - intros k r. rewrite Hl. destruct (endorsement_tb s !! k) as [r'|] eqn:Hr; [|done].
    cbn. intros [= <-]. apply H3 in Hr as [Hr _]. by destruct (_ =? _); cbn.
Qed.

Lemma update_video_inv h e s ind v s' : inv s -> update_video h e s ind v = Ok s' -> inv s'.
Proof.
  intros Hs H. unfold update_video in H. apply bind_Ok in H as (u1 & _ & H).
  apply bind_Ok in H as (u2 & _ & H). apply bind_Ok in H as (tb & Ht & H).
  eapply set_all_inv, H. eapply modify_induction_inv; [exact Hs| |exact Ht]. done.
Qed.

Lemma update_profile_inv h e s ind p s' : inv s -> update_profile h e s ind p = Ok s' -> inv s'.
Proof.
  intros Hs H. unfold update_profile in H. apply bind_Ok in H as (u1 & _ & H).
  apply bind_Ok in H as (u2 & _ & H). apply bind_Ok in H as (tb & Ht & H).
  eapply set_all_inv, H. eapply modify_induction_inv; [exact Hs| |exact Ht]. done.
Qed.

Lemma update_expiration_inv h s ind t s' : inv s -> update_expiration h s ind t = Ok s' -> inv s'.
Proof.
  intros Hs H. unfold update_expiration in H. apply bind_Ok in H as (u1 & _ & H).
  apply bind_Ok in H as (u2 & _ & H). apply bind_Ok in H as (tb & Ht & H). injection H as <-.
  eapply modify_induction_inv; [exact Hs| |exact Ht]. done.
Qed.

Lemma endorse_Ok h e s ind a hash s' :
  endorse h e s ind a hash = Ok s' ->
  exists k r, endorsement_tb s !! k = Some r /\
    s' = s <| endorsement_tb ::= <[k := r <| endorsed := true |>]> |> /\ eid r = k.
Proof.
  intros H. unfold endorse in H. repeat (apply bind_Ok in H as (? & ? & H)).
  injection H as <-. res_inv.
  match goal with Ht : Table.modify _ _ _ _ = Ok _ |- _ =>
    apply Table.modify_Ok in Ht as (r & r' & Hr & [= <-] & Hk & ->) end.
  eauto 6.
Qed.

Lemma endorse_inv h e s ind a hash s' : inv s -> endorse h e s ind a hash = Ok s' -> inv s'.
Proof.
  intros Hs (k & r & Hr & -> & Hk)%endorse_Ok. pose proof Hs as [H1 H2 H3 H4 H5].
  apply endorsement_tb_inv; [done | by apply Table.keyed_insert | |].
  - intros j. destruct (decide (k = j)) as [->|Hj]; [by rewrite lookup_insert_eq, Hr|].
    by rewrite lookup_insert_ne.
  - intros j x [[<- <-]|[_ Hx]]%lookup_insert_Some; [by apply (H3 _ _ Hr) | by apply (H3 _ _ Hx)].
Qed.

(** The tables the invariant does not mention. *)
Lemma other_tables_inv s ei gc enc :
  inv s -> inv (mk_store (induction_tb s) (endorsement_tb s) ei gc enc).
Proof. by intros []. Qed.

(** Erasing an induction removes its row and its endorsements. *)
Lemma erase_induction_Ok s ind s' :
  erase_induction s ind = Ok s' ->
  induction_tb s' = delete (id ind) (induction_tb s) /\ is_Some (induction_tb s !! id ind) /\
  forall k, endorsement_tb s' !! k =
    match endorsement_tb s !! k with
    | Some r => if induction_id r =? id ind then None else Some r
    | None => None
    end.
Proof.
  intros H. unfold erase_induction in H. apply bind_Ok in H as (tb & Ht & H).
  apply bind_Ok in H as (enc & _ & H). apply bind_Ok in H as (itb & [Hi ->]%Table.erase_Ok & H).
  injection H as <-. cbn. split; [done|]. split; [done|]. intros k.
  rewrite (Table.erase_all_Ok _ _ _ Ht). destruct (decide _) as [Hin|Hin].
  - apply elem_of_endorsements_of in Hin as (r & -> & <-). by rewrite Z.eqb_refl.
  - destruct (endorsement_tb s !! k) as [r|] eqn:Hr; [|done].
    destruct (Z.eqb_spec (induction_id r) (id ind)); [|done]. exfalso. apply Hin.
    apply elem_of_endorsements_of. eauto.
Qed.

Lemma num_endorsements_filter tb tb' i j :
  (forall k, tb' !! k = match tb !! k with
                        | Some r => if induction_id r =? i then None else Some r
                        | None => None end) ->
  j <> i -> num_endorsements tb' j = num_endorsements tb j.
Proof.
  revert tb'. induction tb as [|k r tb Hk IH] using map_ind; intros tb' H Hj.
  - assert (tb' = ∅) as ->; [|done]. apply map_empty. intros x. by rewrite H, lookup_empty.
  - rewrite num_endorsements_insert by done. pose proof (H k) as Hr.
    rewrite lookup_insert_eq in Hr.
    assert (forall x, delete k tb' !! x = match tb !! x with
              | Some r => if induction_id r =? i then None else Some r | None => None end) as Hd.
    { intros x. destruct (decide (k = x)) as [->|Hx]; [by rewrite lookup_delete_eq, Hk|].
      by rewrite lookup_delete_ne, H, lookup_insert_ne. }
    rewrite <- (IH _ Hd Hj). destruct (Z.eqb_spec (induction_id r) i) as [Hri|Hri].
    + rewrite delete_id by done. unfold belongs. rewrite Hri.
      rewrite (proj2 (Z.eqb_neq _ _)) by (by apply not_eq_sym). lia.
    + rewrite (num_endorsements_delete _ _ _ _ Hr). lia.
Qed.

Lemma erase_induction_inv s ind s' : inv s -> erase_induction s ind = Ok s' -> inv s'.
Proof.
  intros [H1 H2 H3 H4 H5] (Hi & _ & He)%erase_induction_Ok.
  assert (forall k r, endorsement_tb s' !! k = Some r ->
            endorsement_tb s !! k = Some r /\ induction_id r <> id ind) as Hold.
  { intros k r. rewrite He. destruct (endorsement_tb s !! k) as [x|]; [|done].
    destruct (Z.eqb_spec (induction_id x) (id ind)); [done|]. intros [= <-]. done. }
  split.
  - rewrite Hi. by apply Table.keyed_delete.
  - intros k r [Hr _]%Hold. by apply H2.
  - intros k r [Hr _]%Hold. by eapply H3.
  - intros k r. rewrite Hi. intros [Hne Hr]%lookup_delete_Some. rewrite (H4 _ _ Hr). f_equal.
    symmetry. by eapply num_endorsements_filter.
  - intros k r [Hr Hne]%Hold. rewrite Hi, lookup_delete_ne by done. by eapply H5.
Qed.

Lemma erase_endorser_row_inv s k s' : inv s -> erase_endorser_row s k = Ok s' -> inv s'.
Proof.
  intros [H1 H2 H3 H4 H5] H. unfold erase_endorser_row in H. apply bind_Ok in H as (row & Hrow & H).
  apply some_or_Ok in Hrow. apply bind_Ok in H as (u & _ & H). apply bind_Ok in H as (itb & Hi & H).
  apply Table.modify_Ok in Hi as (r & r' & Hr & Hu & Hk & ->).
  apply bind_Ok in Hu as (u' & _ & Hu). injection Hu as <-.
  apply bind_Ok in H as (tb & [_ ->]%Table.erase_Ok & H). injection H as <-. split; cbn.
  - by apply Table.keyed_insert.
  - by apply Table.keyed_delete.
  - intros j x [_ Hx]%lookup_delete_Some. by eapply H3.
  - intros j x [[<- <-]|[Hne Hx]]%lookup_insert_Some; cbn.
    + rewrite (num_endorsements_delete _ _ _ _ Hrow), (H4 _ _ Hr). unfold belongs.
      rewrite Z.eqb_refl. apply wrap_sub. lia.
    + rewrite (num_endorsements_delete _ _ _ _ Hrow), (H4 _ _ Hx). unfold belongs.
      apply Z.eqb_neq in Hne as ->. by rewrite Z.sub_0_r.
  - intros j x [_ Hx]%lookup_delete_Some. apply lookup_insert_is_Some'. right. by eapply H5.
Qed.

Lemma on_rename_inv s a b s' : inv s -> 0 <= b -> on_rename s a b = Ok s' -> inv s'.
Proof.
  intros Hs Hb H. pose proof Hs as [H1 H2 H3 H4 H5]. unfold on_rename in H.
  apply bind_Ok in H as (u1 & _ & H). apply bind_Ok in H as (tb & Ht & H).
  apply bind_Ok in H as (u2 & _ & H). injection H as <-.
  pose proof (Table.modify_all_Ok eid (fun r => r <| endorser := b |>) _ _ _
      (Table.index_while_NoDup _ _ _ _) Ht) as Hl.
  apply endorsement_tb_inv; [done | | |].
  - eapply (foldM_inv (Table.keyed eid)); [|exact H2|exact Ht].
    intros t x t' _ Htt Hm. cbn in Hm. eapply Table.modify_keyed; [exact Htt|exact Hm].
  - intros k. rewrite Hl. destruct (decide _); [|done]. by destruct (endorsement_tb s !! k).
  - intros k r. rewrite Hl. destruct (endorsement_tb s !! k) as [x|] eqn:Hx; [|by destruct (decide _)].
    destruct (decide _); cbn; intros [= <-]; cbn; [done|]. by apply (H3 _ _ Hx).
Qed.

Lemma erase_by_inductee_inv s a limit s' n : inv s -> erase_by_inductee s a limit = Ok (s', n) -> inv s'.
Proof.
  intros Hs H. unfold erase_by_inductee in H. apply bind_Ok in H as (s1 & H1 & H).
  injection H as <- _. eapply (foldM_inv inv); [|exact Hs|exact H1].
  intros s0 k s2 _ H0 H2. unfold erase_key in H2. apply bind_Ok in H2 as (ind & _ & H2).
  by eapply erase_induction_inv.
Qed.

Lemma erase_expired_loop_inv h ks s rem limit s' rem' n :
  inv s -> erase_expired_loop h ks s rem limit = Ok (s', rem', n) -> inv s'.
Proof.
  revert s rem limit. induction ks as [|k ks IH]; intros s rem limit Hs H; cbn in H.
  - injection H as <- _ _. done.
  - destruct limit as [|limit]; [injection H as <- _ _; done|].
    apply bind_Ok in H as (ind & _ & H). destruct (is_valid_induction h ind); [injection H as <- _ _; done|].
    apply bind_Ok in H as (s1 & H1 & H). eapply IH; [|exact H]. by eapply erase_induction_inv.
Qed.

Lemma gc_loop_inv ks s limit s' n : inv s -> gc_loop ks s limit = Ok (s', n) -> inv s'.
Proof.
  revert s limit. induction ks as [|k ks IH]; intros s limit Hs H; cbn in H.
  - injection H as <- _. done.
  - destruct limit as [|limit]; [injection H as <- _; done|].
    apply bind_Ok in H as ([s1 l1] & H1 & H). apply erase_by_inductee_inv in H1; [|done].
    destruct l1 as [|l1]; [injection H as <- _; done|].
    apply bind_Ok in H as (tb & _ & H). eapply IH; [|exact H]. by apply other_tables_inv.
Qed.

Lemma gc_inv h s limit s' rem n : inv s -> gc h s limit = Ok (s', rem, n) -> inv s'.
Proof.
  intros Hs H. unfold gc in H. apply bind_Ok in H as ([[s1 r1] l1] & H1 & H).
  apply bind_Ok in H as ([s2 l2] & H2 & H). injection H as <- _ _.
  eapply gc_loop_inv, H2. by eapply erase_expired_loop_inv, H1.
Qed.

Lemma create_nft_inv s st ind s' sent : inv s -> create_nft s st ind = Ok (s', sent) -> inv s'.
Proof.
  intros Hs H. unfold create_nft in H. apply bind_Ok in H as (u & _ & H).
  apply bind_Ok in H as (tb & _ & H). injection H as <- _. by apply other_tables_inv.
Qed.

Lemma erase_endorser_inv s a s' : inv s -> erase_endorser s a = Ok s' -> inv s'.
Proof.
  intros Hs H. eapply (foldM_inv inv); [|exact Hs|exact H].
  intros s0 k s1 _ H0 H1. by eapply erase_endorser_row_inv.
Qed.

(** What the actions do to these tables.  Identifiers and names are 64-bit
    numbers. *)
Inductive step (h : host) (e : env) (s : store) : store -> Prop :=
  | step_initialize i a b ws s' : 0 <= i < 2 ^ 64 -> 0 <= a -> Forall (fun w => 0 <= w) ws ->
      initialize_induction h s i a b ws = Ok s' -> step h e s s'
  | step_start i a b es v s1 s' : 0 <= i < 2 ^ 64 -> Forall (fun w => 0 <= w) es ->
      create_induction h s i a b (wrap 32 (Z.of_nat (length es))) v = Ok s1 ->
      create_endorsements s1 a b i es = Ok s' -> step h e s s'
  | step_add_endorsement ind a v s' : 0 <= id ind < 2 ^ 64 -> 0 <= a ->
      add_endorsement s ind a v = Ok s' -> step h e s s'
  | step_expiration ind t s' : update_expiration h s ind t = Ok s' -> step h e s s'
  | step_profile ind p s' : update_profile h e s ind p = Ok s' -> step h e s s'
  | step_video ind v s' : update_video h e s ind v = Ok s' -> step h e s s'
  | step_endorse ind a hash s' : endorse h e s ind a hash = Ok s' -> step h e s s'
  | step_endorse_all ind s' : endorse_all s ind = Ok s' -> step h e s s'
  | step_create_nft st ind s' sent : create_nft s st ind = Ok (s', sent) -> step h e s s'
  | step_erase ind s' : erase_induction s ind = Ok s' -> step h e s s'
  | step_erase_by_inductee a n s' n' : erase_by_inductee s a n = Ok (s', n') -> step h e s s'
  | step_erase_endorser a s' : erase_endorser s a = Ok s' -> step h e s s'
  | step_gc n s' rem n' : gc h s n = Ok (s', rem, n') -> step h e s s'
  | step_queue_gc a s' : queue_gc s a = Ok s' -> step h e s s'
  | step_meeting enc : step h e s (s <| encrypted := enc |>)
  | step_rename a b s' : 0 <= b -> on_rename s a b = Ok s' -> step h e s s'
  | step_clear : step h e s (clear_all s).

Lemma induction_step_inv h e s s' : inv s -> step h e s s' -> inv s'.
Proof.
  intros Hs. destruct 1.
  - by eapply initialize_induction_inv.
  - by eapply start_induction_inv.
  - by eapply add_endorsement_inv.
  - by eapply update_expiration_inv.
  - by eapply update_profile_inv.
  - by eapply update_video_inv.
  - by eapply endorse_inv.
  - by eapply set_all_inv.
  - by eapply create_nft_inv.
  - by eapply erase_induction_inv.
  - by eapply erase_by_inductee_inv.
  - by eapply erase_endorser_inv.
  - by eapply gc_inv.
  - unfold queue_gc in *. res_inv. by apply other_tables_inv.
  - by apply other_tables_inv.
  - by eapply on_rename_inv.
  - split; cbn; [apply Table.keyed_empty | apply Table.keyed_empty | | |]; intros k r Hr;
      by rewrite lookup_empty in Hr.
Qed.

Definition empty_store : store := mk_store ∅ ∅ ∅ ∅ ∅.
Inductive reachable : store -> Prop :=
  | reachable_init : reachable empty_store
  | reachable_step h e s s' : reachable s -> step h e s s' -> reachable s'.

Lemma inductions_reachable_inv s : reachable s -> inv s.
Proof.
  induction 1 as [|h e s s' _ IH Hst]; [|by eapply induction_step_inv].
  split; cbn; [apply Table.keyed_empty | apply Table.keyed_empty | | |]; intros k r Hr;
    by rewrite lookup_empty in Hr.
Qed.

(** *** Collection of expired inductions *)

Lemma valid_mono h r r' :
  created_at r <= created_at r' -> is_valid_induction h r = true -> is_valid_induction h r' = true.
Proof.
  unfold is_valid_induction. rewrite !Z.leb_le. intros Hle H.
  etransitivity; [|exact H]. unfold Time.to_seconds, Time.to_time_point, Time.milliseconds, Time.block_interval_ms.
  apply Z.quot_le_mono; lia.
Qed.

Lemma erase_induction_total s ind :
  inv s -> is_Some (induction_tb s !! id ind) -> exists s', erase_induction s ind = Ok s'.
Proof.
  intros Hs [r Hr]. unfold erase_induction.
  destruct (Table.erase_all_total (endorsements_of (endorsement_tb s) (id ind)) (endorsement_tb s))
    as [tb ->].
  - apply Table.index_while_NoDup.
  - intros k (x & Hx & _)%elem_of_endorsements_of. eauto.
  - cbn. unfold Encrypt.erase, Table.erase. rewrite Hr. destruct (encrypted s !! id ind) as [d|] eqn:Hd; cbn; eauto.
Qed.

Section expired.
Context (h : host).

(** What a run of the loop over [ks] leaves: the rows it erased had expired,
    and with steps to spare every row of [ks] that is left is valid. *)
Record collected (s s' : store) (limit n : nat) : Prop := {
  col_inv : inv s';
  col_limit : (n <= limit)%nat;
  col_size : (size (induction_tb s) = size (induction_tb s') + (limit - n))%nat;
  col_sub : induction_tb s' ⊆ induction_tb s;
  col_expired : forall k r, induction_tb s !! k = Some r ->
    is_valid_induction h r = true -> induction_tb s' !! k = Some r
}.

Lemma collected_refl s n : inv s -> collected s s n n.
Proof. intros Hs. split; [done | lia | lia | done | done]. Qed.

Lemma collected_erase s s1 s' ind limit n :
  inv s -> induction_tb s !! id ind = Some ind -> is_valid_induction h ind = false ->
  erase_induction s ind = Ok s1 -> collected s1 s' limit n -> collected s s' (S limit) n.
Proof.
  intros Hs Hi Hv H1 [Hinv Hlim Hsize Hsub Hexp].
  destruct (erase_induction_Ok _ _ _ H1) as (Htb & _ & _). rewrite Htb in *. split.
  - done.
  - lia.
  - rewrite map_size_delete, Hi in Hsize.
    assert (size (induction_tb s) <> 0)%nat by (intros Hz%map_size_empty_iff; by rewrite Hz in Hi). lia.
  - etransitivity; [exact Hsub|]. apply delete_subseteq.
  - intros k r Hr Hvr. apply Hexp; [|done]. rewrite lookup_delete_ne; [done|].
    intros <-. congruence.
Qed.

Lemma erase_expired_loop_spec ks s rem limit :
  inv s -> NoDup ks -> (forall k, k ∈ ks -> is_Some (induction_tb s !! k)) ->
  StronglySorted (fun i j => forall r r', induction_tb s !! i = Some r -> induction_tb s !! j = Some r' ->
    created_at r <= created_at r') ks ->
  exists s' rem' n, erase_expired_loop h ks s rem limit = Ok (s', rem', n) /\
    collected s s' limit n /\
    ((0 < n)%nat -> forall k r, k ∈ ks -> induction_tb s' !! k = Some r -> is_valid_induction h r = true).
Proof.
  revert s rem limit. induction ks as [|k ks IH]; intros s rem limit Hs Hn Hin Hsort; cbn.
  - exists s, rem, limit. split; [done|]. split; [by apply collected_refl|].
    intros _ k r Hk. by apply not_elem_of_nil in Hk.
  - destruct limit as [|limit]; [exists s, rem, 0%nat; split; [done|]; split; [by apply collected_refl|lia]|].
    destruct (Hin k) as [ind Hind]; [left|]. rewrite Hind. cbn.
    apply NoDup_cons in Hn as [Hk Hn]. inversion Hsort as [|? ? Hsort' Hhd]; subst.
    pose proof (inv_keyed _ Hs _ _ Hind) as Hid.
    destruct (is_valid_induction h ind) eqn:Hv.
    + exists s, rem, (S limit). split; [done|]. split; [by apply collected_refl|].
      intros _ j r [->|Hj]%elem_of_cons Hr; [congruence|]. rewrite Forall_forall in Hhd.
      eapply valid_mono; [|exact Hv]. by eapply Hhd.
    + destruct (erase_induction_total s ind Hs) as [s1 H1]; [rewrite Hid; eauto|].
      rewrite H1. cbn. pose proof (erase_induction_Ok _ _ _ H1) as (Htb & _ & _). rewrite Hid in Htb.
      assert (forall j, j ∈ ks -> induction_tb s1 !! j = induction_tb s !! j) as Hsame.
      { intros j Hj. rewrite Htb. apply lookup_delete_ne. intros ->. done. }
      edestruct (IH s1 (if has_induction s1 (invitee ind) then rem else rem ++ [invitee ind]) limit)
        as (s' & rem' & n & Hrun & Hcol & Hleft).
      * by eapply erase_induction_inv.
      * done.
      * intros j Hj. rewrite Hsame by done. apply Hin. by right.
      * clear -Hsort' Hsame. induction Hsort' as [|j ks Hs IH Hf]; constructor.
        -- apply IH. intros i Hi. apply Hsame. by right.
        -- rewrite Forall_forall in Hf |- *. intros i Hi r r'. rewrite !Hsame; [by apply Hf|by right|left].
      * exists s', rem', n. split; [exact Hrun|]. split.
        -- eapply collected_erase; [done | by rewrite Hid | done | done | done].
        -- intros Hpos j r [->|Hj]%elem_of_cons Hr; [|by eapply Hleft].
           pose proof (lookup_weaken _ _ _ _ Hr (col_sub _ _ _ _ Hcol)) as Hx.
           by rewrite Htb, lookup_delete_eq in Hx.
Qed.
End expired.

(** Collecting expired inductions never aborts and never touches a valid
    one: it erases one per step, keeps every induction that has not expired,
    and when steps are left over nothing expired remains. *)
Theorem erase_expired_collects (h : host) (s : store) (limit : nat) :
  inv s ->
  exists s' removed n,
    erase_expired h s [] limit = Ok (s', removed, n) /\ inv s' /\ (n <= limit)%nat /\
    (size (induction_tb s) = size (induction_tb s') + (limit - n))%nat /\
    (forall k r, induction_tb s' !! k = Some r -> induction_tb s !! k = Some r) /\
    (forall k r, induction_tb s !! k = Some r -> is_valid_induction h r = true ->
       induction_tb s' !! k = Some r) /\
    ((0 < n)%nat -> forall k r, induction_tb s' !! k = Some r -> is_valid_induction h r = true).
Proof.
  intros Hs.
  destruct (erase_expired_loop_spec h (Table.index get_created_key (induction_tb s)).*2 s [] limit)
    as (s' & rem & n & Hrun & [H1 H2 H3 H4 H5] & Hleft).
  - done.
  - apply Table.index_NoDup.
  - intros k ([c j] & -> & (r & Hr & _)%Table.elem_of_index)%list_elem_of_fmap. eauto.
  - eapply (Table.fmap_StronglySorted Table.idx_le); [apply Table.index_sorted|].
    intros [c i] [d j] (r & Hr & <-)%Table.elem_of_index (x & Hx & <-)%Table.elem_of_index Hle r' x'.
    cbn. rewrite Hr, Hx. intros [= <-] [= <-]. unfold Table.idx_le, get_created_key in Hle. cbn in Hle. lia.
  - exists s', rem, n. split; [exact Hrun|]. split; [done|]. split; [done|]. split; [done|].
    split; [intros k r Hr; by eapply lookup_weaken|]. split; [done|].
    intros Hn k r Hr. eapply Hleft; [done| |exact Hr]. apply list_elem_of_fmap.
    exists (created_at r, k). split; [done|]. apply Table.elem_of_index. exists r. split; [|done].
    by eapply lookup_weaken.
Qed.

(** *** What is endorsed *)

Definition demo_host : host :=
  Host.mk 1 (fun _ => true) (fun _ _ => true) (fun _ => true) 1650000000000000.
Definition demo_profile : new_member_profile := mk_profile "Alice" "img" "bio" "" "".
Definition demo_induction (video : string) : induction :=
  mk_induction 7 10 20 3 1406000000 video demo_profile.
(** Induction 7 of invitee 20, endorsed by 10 and 11 but not by 12. *)
Definition demo_store : store :=
  mk_store {[ 7 := demo_induction "video" ]}
    {[ 0 := mk_endorsement 0 10 20 10 7 true; 1 := mk_endorsement 1 10 20 11 7 true;
       2 := mk_endorsement 2 10 20 12 7 false ]} ∅ ∅ ∅.

Lemma demo_store_inv : inv demo_store.
Proof.
  split.
  - intros k r Hk. cbn in Hk. by apply lookup_singleton_Some in Hk as [<- <-].
  - intros k r Hk. cbn in Hk. rewrite !lookup_insert_Some, lookup_singleton_Some in Hk.
    naive_solver.
  - intros k r Hk. cbn in Hk. rewrite !lookup_insert_Some, lookup_singleton_Some in Hk.
    destruct Hk as [[<- <-]|[_ [[<- <-]|[_ [<- <-]]]]]; cbn; lia.
  - intros k r Hk. cbn in Hk. apply lookup_singleton_Some in Hk as [<- <-]. by vm_compute.
  - intros k r Hk. cbn in Hk. rewrite !lookup_insert_Some, lookup_singleton_Some in Hk.
    destruct Hk as [[<- <-]|[_ [[<- <-]|[_ [<- <-]]]]]; cbn; eauto.
Qed.

Lemma erase_expired_collects_witness :
  exists s' removed n,
    erase_expired demo_host demo_store [] 5 = Ok (s', removed, n) /\ inv s' /\ (n <= 5)%nat /\
    (size (induction_tb demo_store) = size (induction_tb s') + (5 - n))%nat /\
    (forall k r, induction_tb s' !! k = Some r -> induction_tb demo_store !! k = Some r) /\
    (forall k r, induction_tb demo_store !! k = Some r -> is_valid_induction demo_host r = true ->
       induction_tb s' !! k = Some r) /\
    ((0 < n)%nat -> forall k r, induction_tb s' !! k = Some r -> is_valid_induction demo_host r = true).
Proof. apply (erase_expired_collects demo_host demo_store 5 demo_store_inv). Defined.

(** An endorsement is accepted exactly when the induction has not expired,
    video and profile are set, the caller signed the hash of their current
    serialization, and the caller's endorsement exists and is still open; it
    then marks that one row and nothing else. *)
Theorem endorse_spec (h : host) (e : env) (s s' : store) (ind : induction) (account data_hash : Z) :
  inv s ->
  endorse h e s ind account data_hash = Ok s' <->
  is_valid_induction h ind = true /\ video ind <> "" /\ name (profile ind) <> "" /\
  (exists bin, endorsed_bytes ind = Ok bin /\ Host.sha256 e bin = data_hash) /\
  exists k r,
    Table.index_find get_endorser_key (endorsement_tb s) (endorser_key account (id ind)) = Some k /\
    endorsement_tb s !! k = Some r /\ endorsed r = false /\
    s' = s <| endorsement_tb ::= <[k := r <| endorsed := true |>]> |>.
Proof.
  intros Hs. unfold endorse. split.
  - intros H. apply bind_Ok in H as (u1 & Hv & H). apply bind_Ok in H as (u2 & Hvid & H).
    apply bind_Ok in H as (u3 & Hname & H). apply bind_Ok in H as (bin & Hbin & H).
    apply bind_Ok in H as (u4 & Hsha & H). apply bind_Ok in H as (k & Hk & H).
    apply bind_Ok in H as (r & Hr & H). apply bind_Ok in H as (u5 & He & H).
    apply bind_Ok in H as (tb & Ht & H). injection H as <-.
    apply Table.modify_Ok in Ht as (r0 & r1 & Hr0 & Hf & _ & ->). unfold check_valid_induction in Hv.
    res_inv. split; [done|]. split; [done|]. split; [done|]. split; [by exists bin|].
    exists k, r. split; [done|]. split; [done|]. split; [done|].
    assert (r0 = r) as -> by congruence. done.
  - intros (Hv & Hvid & Hname & (bin & Hbin & Hsha) & k & r & Hk & Hr & He & ->).
    unfold check_valid_induction. rewrite Hv. cbn [check mbind result_bind].
    rewrite bool_decide_false by done. cbn [negb check mbind result_bind].
    rewrite bool_decide_false by done. cbn [negb check mbind result_bind].
    rewrite Hbin. cbn [mbind result_bind]. rewrite Hsha, Z.eqb_refl. cbn [check mbind result_bind].
    rewrite Hk. cbn [some_or mbind result_bind]. rewrite Hr. cbn [some_or mbind result_bind].
    rewrite He. cbn [negb check mbind result_bind].
    assert (Table.modify eid (endorsement_tb s) k (fun r => Ok (r <| endorsed := true |>)) =
            Ok (<[k := r <| endorsed := true |>]> (endorsement_tb s))) as ->; [|done].
    apply Table.modify_Ok. exists r, (r <| endorsed := true |>).
    split; [done|]. split; [done|]. split; [by apply (inv_ekeyed _ Hs) in Hr | done].
Qed.

Definition demo_hash : Z :=
  Eval vm_compute in
    match endorsed_bytes (demo_induction "video") with
    | Ok bin => Host.sha256 Host.demo_env bin | Err _ => 0 end.

Lemma endorse_spec_witness :
  is_ok (endorse demo_host Host.demo_env demo_store (demo_induction "video") 12 demo_hash) = true /\
  (endorse demo_host Host.demo_env demo_store (demo_induction "video") 12 demo_hash = Ok demo_store <->
   is_valid_induction demo_host (demo_induction "video") = true /\ "video" <> "" /\ "Alice" <> "" /\
   (exists bin, endorsed_bytes (demo_induction "video") = Ok bin /\
      Host.sha256 Host.demo_env bin = demo_hash) /\
   exists k r,
     Table.index_find get_endorser_key (endorsement_tb demo_store) (endorser_key 12 7) = Some k /\
     endorsement_tb demo_store !! k = Some r /\ endorsed r = false /\
     demo_store = demo_store <| endorsement_tb ::= <[k := r <| endorsed := true |>]> |>).
Proof.
  split; [vm_compute; reflexivity |].
  apply (endorse_spec demo_host Host.demo_env demo_store demo_store (demo_induction "video") 12 demo_hash
           demo_store_inv).
Defined.

#[export] Instance endorsed_lawful : Binary.Lawful endorsed_codec (fun _ => True).
Proof.
  pose proof Binary.string_lawful as L0.
  pose proof (@Binary.pair_lawful _ _ _ _ _ _ L0 L0) as L1.
  pose proof (@Binary.pair_lawful _ _ _ _ _ _ L0 L1) as L2.
  pose proof (@Binary.pair_lawful _ _ _ _ _ _ L0 L2) as L3.
  pose proof (@Binary.pair_lawful _ _ _ _ _ _ L0 L3) as L4.
  pose proof (@Binary.pair_lawful _ _ _ _ _ _ L0 L4) as L5.
  intros x bs rest _ H. apply (@Binary.round_trip _ _ _ L5); [tauto | exact H].
Qed.

Lemma endorsed_data_inj v p v' p' : endorsed_data v p = endorsed_data v' p' -> v = v' /\ p = p'.
Proof. destruct p, p'. unfold endorsed_data. cbn. intros H. split; congruence. Qed.

(** What an endorser signs determines what is endorsed: if two inductions
    accept an endorsement with the same hash, and the hash does not collide
    on their two serializations, their videos and profiles are the same. *)
Theorem endorsement_binds_content (h h' : host) (e : env) (s t s' t' : store) (i j : induction)
    (a b data_hash : Z) :
  (forall x y, endorsed_bytes i = Ok x -> endorsed_bytes j = Ok y ->
     Host.sha256 e x = Host.sha256 e y -> x = y) ->
  endorse h e s i a data_hash = Ok s' -> endorse h' e t j b data_hash = Ok t' ->
  video i = video j /\ profile i = profile j.
Proof.
  assert (forall h s ind a s', endorse h e s ind a data_hash = Ok s' ->
            exists bin, endorsed_bytes ind = Ok bin /\ Host.sha256 e bin = data_hash) as Hbin.
  { clear. intros h s ind a s' H. unfold endorse in H. apply bind_Ok in H as (u1 & _ & H).
    apply bind_Ok in H as (u2 & _ & H). apply bind_Ok in H as (u3 & _ & H).
    apply bind_Ok in H as (bin & Hb & H). apply bind_Ok in H as (u4 & Hh & _). res_inv. by exists bin. }
  intros Hc (x & Hx & Hxh)%Hbin (y & Hy & Hyh)%Hbin.
  assert (x = y) as <- by (apply (Hc x y Hx Hy); congruence).
  apply endorsed_data_inj. by apply (Binary.lawful_inj endorsed_codec (fun _ => True) _ _ x).
Qed.

Lemma endorsement_binds_content_witness :
  exists s', endorse demo_host Host.demo_env demo_store (demo_induction "video") 12 demo_hash = Ok s' /\
  ("video" = "video" /\ demo_profile = demo_profile).
Proof.
  eexists. split; [vm_compute; reflexivity|].
  eapply (endorsement_binds_content demo_host demo_host Host.demo_env demo_store demo_store _ _
           (demo_induction "video") (demo_induction "video") 12 12 demo_hash);
    [congruence | vm_compute; reflexivity | vm_compute; reflexivity].
Defined.

(** An open endorsement of an induction, of one endorser, stops the NFT. *)
Lemma open_endorsement_stops s stage ind k r :
  endorsement_tb s !! k = Some r -> induction_id r = id ind -> endorsed r = false ->
  create_nft s stage ind = Err (Check "induction is not fully endorsed").
Proof.
  intros Hr Hi He. unfold create_nft, check_is_fully_endorsed.
  assert (forallb (fun k => from_option endorsed false (endorsement_tb s !! k))
            (endorsements_of (endorsement_tb s) (id ind)) = false) as ->; [|done].
  apply not_true_iff_false. rewrite forallb_forall. intros Hall.
  assert (k ∈ endorsements_of (endorsement_tb s) (id ind)) as Hin by (apply elem_of_endorsements_of; eauto).
  apply list_elem_of_In, Hall in Hin. rewrite Hr in Hin. cbn in Hin. congruence.
Qed.

(** C38: nothing is minted from content its endorsers have not seen.  Changing
    the video or the profile reopens every endorsement of the induction and of
    no other, so that its NFT is refused; and in any state whatever - however
    many endorsers have endorsed again since - a single endorsement of the
    induction that is open is enough to refuse it. *)
Theorem new_content_needs_endorsements (h : host) (e : env) (s s' : store) (ind : induction) v p stage :
  inv s -> (exists k r, endorsement_tb s !! k = Some r /\ induction_id r = id ind) ->
  update_video h e s ind v = Ok s' \/ update_profile h e s ind p = Ok s' ->
  (forall k, endorsement_tb s' !! k =
     (fun r => if induction_id r =? id ind then r <| endorsed := false |> else r)
       <$> endorsement_tb s !! k) /\
  (forall ind', id ind' = id ind ->
     create_nft s' stage ind' = Err (Check "induction is not fully endorsed")) /\
  forall t stage' ind' k r, id ind' = id ind ->
    endorsement_tb t !! k = Some r -> induction_id r = id ind -> endorsed r = false ->
    create_nft t stage' ind' = Err (Check "induction is not fully endorsed").
Proof.
  intros Hs (k & r & Hr & Hi) H.
  assert (exists itb, set_all false (s <| induction_tb := itb |>) (id ind) = Ok s') as [itb Hset].
  { destruct H as [H|H]; unfold update_video, update_profile, reset_endorsements in H;
      do 3 (apply bind_Ok in H as (? & _ & H)); eauto. }
  apply set_all_Ok in Hset as (tb & -> & _ & Hl). cbn in Hl |- *. split; [exact Hl|]. split.
  - intros ind' Hid. specialize (Hl k). rewrite Hr in Hl. cbn in Hl. rewrite Hi, Z.eqb_refl in Hl.
    by eapply open_endorsement_stops; [exact Hl | cbn; congruence |].
  - intros t stage' ind' k' r' Hid Hk Hr' He. by eapply open_endorsement_stops; [exact Hk | congruence |].
Qed.

(** After the change 10 and 11 have endorsed again, 12 has not. *)
Definition demo_reendorsed : store := Eval vm_compute in
  match update_video demo_host Host.demo_env demo_store (demo_induction "video") "other" with
  | Ok s => s <| endorsement_tb ::= fmap (fun r => if endorser r =? 12 then r else r <| endorsed := true |>) |>
  | Err _ => demo_store
  end.

Lemma new_content_needs_endorsements_witness :
  exists s', update_video demo_host Host.demo_env demo_store (demo_induction "video") "other" = Ok s' /\
  (forall k, endorsement_tb s' !! k =
     (fun r => if induction_id r =? 7 then r <| endorsed := false |> else r)
       <$> endorsement_tb demo_store !! k) /\
  create_nft demo_reendorsed Globals.active (demo_induction "other") =
    Err (Check "induction is not fully endorsed").
Proof.
  eexists. split; [vm_compute; reflexivity|].
  match goal with |- context [endorsement_tb ?s' !! _] =>
    destruct (new_content_needs_endorsements demo_host Host.demo_env demo_store s' (demo_induction "video")
           "other" empty_profile Globals.active demo_store_inv) as (H1 & _ & H2)
  end.
  - exists 0, (mk_endorsement 0 10 20 10 7 true). split; reflexivity.
  - left. vm_compute. reflexivity.
  - split; [exact H1|]. by apply (H2 _ _ _ 2 (mk_endorsement 2 10 20 12 7 false)).
Defined.

(** C37: in every state the inductions can reach, the number of endorsements an
    induction asks for is the number of its endorsement rows (the field has
    32 bits), and every endorsement row belongs to an induction. *)
Theorem endorsements_are_counted (s : store) :
  reachable s ->
  (forall k r, induction_tb s !! k = Some r ->
     endorsements r = wrap 32 (num_endorsements (endorsement_tb s) k)) /\
  (forall k r, endorsement_tb s !! k = Some r -> is_Some (induction_tb s !! induction_id r)).
Proof. intros Hs%inductions_reachable_inv. split; apply Hs. Qed.

Definition demo_reached : store :=
  match initialize_induction demo_host empty_store 7 10 20 [11; 12] with
  | Ok s => s | Err _ => empty_store end.

Lemma endorsements_are_counted_witness :
  endorsements <$> induction_tb demo_reached !! 7 = Some 3 /\
  (forall k r, induction_tb demo_reached !! k = Some r ->
     endorsements r = wrap 32 (num_endorsements (endorsement_tb demo_reached) k)) /\
  (forall k r, endorsement_tb demo_reached !! k = Some r ->
     is_Some (induction_tb demo_reached !! induction_id r)).
Proof.
  split; [vm_compute; reflexivity|]. apply (endorsements_are_counted demo_reached).
  apply (reachable_step demo_host Host.demo_env empty_store); [constructor|].
  apply (step_initialize _ _ _ 7 10 20 [11; 12]); [lia | lia | repeat constructor; lia | vm_compute; reflexivity].
Defined.

End Inductions.
