(* ===== verification/Members.v ===== *)
(** The members of the community: the member table and its statistics
    ([contracts/eden/include/members.hpp], [contracts/eden/src/members.cpp]).
    Operations that also touch sessions, elections or globals are completed in
    MemberOps.v. *)
From S2P Require Import Prelude Name MultiIndex Crypto Encrypt Globals.
Open Scope string_scope.
Open Scope Z_scope.

Module Members.

Definition pending_membership : Z := 0.
Definition active_member : Z := 1.
Definition not_in_election : Z := 0.
(** [eosio::name(-1)] *)
Definition no_representative : Z := 2 ^ 64 - 1.

(** Both versions of the row; version 0 stores the first four fields only and
    the others have their default values. *)
Record member : Type := mk_member {
  is_v1 : bool;
  account : Z;
  name : string;
  status : Z;
  nft_template_id : Z;
  election_participation_status : Z;
  election_rank : Z;
  representative : Z;
  encryption_key : option public_key
}.
#[global] Instance set_is_v1 : Setter is_v1 := fun f m => mk_member (f (is_v1 m)) (account m) (name m)
  (status m) (nft_template_id m) (election_participation_status m) (election_rank m) (representative m) (encryption_key m).
#[global] Instance set_account : Setter account := fun f m => mk_member (is_v1 m) (f (account m)) (name m)
  (status m) (nft_template_id m) (election_participation_status m) (election_rank m) (representative m) (encryption_key m).
#[global] Instance set_nft_template_id : Setter nft_template_id := fun f m => mk_member (is_v1 m) (account m) (name m)
  (status m) (f (nft_template_id m)) (election_participation_status m) (election_rank m) (representative m) (encryption_key m).
#[global] Instance set_participation : Setter election_participation_status := fun f m => mk_member (is_v1 m) (account m) (name m)
  (status m) (nft_template_id m) (f (election_participation_status m)) (election_rank m) (representative m) (encryption_key m).
#[global] Instance set_election_rank : Setter election_rank := fun f m => mk_member (is_v1 m) (account m) (name m)
  (status m) (nft_template_id m) (election_participation_status m) (f (election_rank m)) (representative m) (encryption_key m).
#[global] Instance set_representative : Setter representative := fun f m => mk_member (is_v1 m) (account m) (name m)
  (status m) (nft_template_id m) (election_participation_status m) (election_rank m) (f (representative m)) (encryption_key m).
#[global] Instance set_encryption_key : Setter encryption_key := fun f m => mk_member (is_v1 m) (account m) (name m)
  (status m) (nft_template_id m) (election_participation_status m) (election_rank m) (representative m) (f (encryption_key m)).

(** [member_v0 row]; [member_v1{m}] *)
Definition new_member (a : Z) : member :=
  mk_member false a "" pending_membership 0 0 0 no_representative None.
Definition to_v1 (m : member) : member := m <| is_v1 := true |>.

Definition by_representative (m : member) : Z := Z.lor (Z.shiftl (election_rank m) 64) (representative m).

Record member_stats_v1 : Type := mk_stats {
  active_members : Z;
  pending_members : Z;
  completed_waiting_inductions : Z;
  ranks : list Z
}.
#[global] Instance set_active_members : Setter active_members := fun f s =>
  mk_stats (f (active_members s)) (pending_members s) (completed_waiting_inductions s) (ranks s).
#[global] Instance set_pending_members : Setter pending_members := fun f s =>
  mk_stats (active_members s) (f (pending_members s)) (completed_waiting_inductions s) (ranks s).
#[global] Instance set_ranks_field : Setter ranks := fun f s =>
  mk_stats (active_members s) (pending_members s) (completed_waiting_inductions s) (f (ranks s)).

Inductive member_stats_variant : Type :=
  | stats_v0 (active pending completed : Z)
  | stats_v1 (s : member_stats_v1).

Abbreviation table := (gmap Z member).
Record store : Type := mk_store { member_tb : table; member_stats : option member_stats_variant }.
#[global] Instance set_member_tb : Setter member_tb := fun f s => mk_store (f (member_tb s)) (member_stats s).
#[global] Instance set_member_stats : Setter member_stats := fun f s => mk_store (member_tb s) (f (member_stats s)).

Definition stats (s : store) : member_stats_v1 :=
  match default (stats_v0 0 0 0) (member_stats s) with
  | stats_v0 a p c => mk_stats a p c []
  | stats_v1 st => st
  end.
Definition put_stats (s : store) (st : member_stats_v1) : store :=
  s <| member_stats := Some (stats_v1 st) |>.
Definition modify_member (s : store) (k : Z) (f : member -> result member) : result store :=
  tb ← Table.modify account (member_tb s) k f; Ok (s <| member_tb := tb |>).

Definition get_member (s : store) (a : Z) : result member :=
  Table.get (member_tb s) a ("member " ++ Name.name_to_string a ++ " not found").

Definition check_active_member (s : store) (a : Z) : result unit :=
  m ← get_member s a;
  check (status m =? active_member) ("inactive member " ++ Name.name_to_string a).
Definition check_pending_member (s : store) (a : Z) : result unit :=
  m ← get_member s a;
  check (status m =? pending_membership) ("member " ++ Name.name_to_string a ++ " is not pending").
Definition is_new_member (s : store) (a : Z) : bool := bool_decide (member_tb s !! a = None).

(** [check_keys]: both key lists are sorted, then compared. *)
Definition key_le (a b : public_key) : Prop := Crypto.key_ltb b a = false.
#[global] Instance key_le_dec a b : Decision (key_le a b).
Proof. unfold key_le. apply _. Defined.

Fixpoint keys_of (s : store) (accounts : list Z) : result (list public_key) :=
  match accounts with
  | [] => Ok []
  | a :: rest =>
      m ← Table.get (member_tb s) a "unable to find key";
      ks ← keys_of s rest;
      Ok (match encryption_key m with Some k => k :: ks | None => ks end)
  end.
Definition check_keys (s : store) (accounts : list Z) (keys : list Encrypt.encrypted_key) : result unit :=
  expected_keys ← keys_of s accounts;
  _ ← check (Nat.eqb (length expected_keys) (length keys)) "Wrong number of encyption keys";
  let actual_keys := Encrypt.recipient_key <$> keys in
  check (bool_decide (merge_sort key_le actual_keys = merge_sort key_le expected_keys))
    "Wrong encryption key".

Definition set_key (s : store) (m : Z) (key : public_key) : result store :=
  _ ← get_member s m;
  modify_member s m (fun row => Ok (to_v1 row <| encryption_key := Some key |>)).

Definition create (s : store) (a : Z) : result store :=
  let st := (stats s) <| pending_members ::= fun n => wrap 16 (n + 1) |> in
  _ ← check (negb (pending_members st =? 0)) "Integer overflow";
  let s := put_stats s st in
  tb ← Table.emplace account (member_tb s) (new_member a);
  Ok (s <| member_tb := tb |>).

(** [--stats.ranks[i]]; an index past the end is outside the language. *)
Definition decrement_rank (rs : list Z) (i : Z) : result (list Z) :=
  n ← some_or (Trap "vector index out of range") (rs !! Z.to_nat i);
  Ok (<[Z.to_nat i := wrap 16 (n - 1)]> rs).

(** [members::erase] up to the removal of sessions: the statistics. *)
Definition erase_stats (s : store) (m : member) : result store :=
  let st := stats s in
  st ← (if status m =? pending_membership then
          _ ← check (negb (pending_members st =? 0)) "Integer overflow";
          Ok (st <| pending_members ::= fun n => wrap 16 (n - 1) |>)
        else if status m =? active_member then
          _ ← check (negb (active_members st =? 0)) "Integer overflow";
          let st := st <| active_members ::= fun n => wrap 16 (n - 1) |> in
          if negb (representative m =? no_representative) then
            rs ← decrement_rank (ranks st) (election_rank m); Ok (st <| ranks := rs |>)
          else Ok st
        else Err (Check "Invariant failure: unknown member status"));
  Ok (put_stats s st).
Definition erase_row (s : store) (a : Z) : result store :=
  tb ← Table.erase (member_tb s) a; Ok (s <| member_tb := tb |>).

(** The end of [remove_if_pending], after the row is gone. *)
Definition count_removed_pending (s : store) : result store :=
  let st := stats s in
  _ ← check (negb (pending_members st =? 0)) "Integer overflow";
  Ok (put_stats s (st <| pending_members ::= fun n => wrap 16 (n - 1) |>)).

(** The loop of [rename] over the members who chose [old] as representative
    at one rank; the iterator moves on before the row is modified. *)
Fixpoint rename_delegates (fuel : nat) (tb : table) (it : option (Z * Z)) (old new : Z) : result table :=
  match fuel, it with
  | S fuel', Some entry =>
      row ← some_or (Trap "dangling index entry") (tb !! entry.2);
      if representative row =? old then
        let next := Table.index_next by_representative tb entry in
        tb ← Table.modify account tb entry.2 (fun m => Ok (m <| representative := new |>));
        rename_delegates fuel' tb next old new
      else Ok tb
  | _, _ => Ok tb
  end.
Fixpoint rename_ranks (n : nat) (i : Z) (tb : table) (old new : Z) : result table :=
  match n with
  | O => Ok tb
  | S n' =>
      tb ← rename_delegates (S (size tb)) tb
             (Table.index_lower_bound by_representative tb (Z.lor (Z.shiftl i 64) old)) old new;
      rename_ranks n' (i + 1) tb old new
  end.
(** [members::rename] after the sessions are removed. *)
Definition rename_row (s : store) (a new : Z) : result store :=
  m ← some_or (Check "Unknown member") (member_tb s !! a);
  tb ← Table.emplace account (member_tb s) (m <| account := new |>);
  tb ← Table.erase tb a;
  tb ← rename_ranks (Z.to_nat (election_rank m + 1)) 0 tb a new;
  Ok (s <| member_tb := tb |>).

Definition set_nft (s : store) (a nft : Z) : result store :=
  _ ← check_pending_member s a;
  modify_member s a (fun row => Ok (row <| nft_template_id := wrap 64 nft |>)).

Definition set_active (s : store) (a : Z) (nm : string) : result store :=
  let st := stats s in
  _ ← check (0 <? pending_members st) "Invariant failure: no pending members";
  _ ← check (active_members st <? Globals.max_active_members) "Invariant failure: active members too high";
  let s := put_stats s (st <| pending_members ::= fun n => wrap 16 (n - 1) |>
                           <| active_members ::= fun n => wrap 16 (n + 1) |>) in
  _ ← check_pending_member s a;
  modify_member s a (fun row =>
    Ok (mk_member true (account row) nm active_member (nft_template_id row) 0 0 no_representative None)).

(** [vector::resize] *)
Definition resize (n : nat) (l : list Z) : list Z := take n l ++ repeat 0 (n - length l).

Definition set_rank (s : store) (m rank repr : Z) : result store :=
  _ ← Table.get (member_tb s) m "unable to find key";
  s ← modify_member s m (fun row =>
        Ok (to_v1 row <| election_rank := rank |> <| representative := repr |>
              <| election_participation_status := 0 |>));
  let st := stats s in
  let st :=
    if negb (repr =? no_representative) then
      let rs := if Z.of_nat (length (ranks st)) <=? rank
                then resize (Z.to_nat (rank + 1)) (ranks st) else ranks st in
      st <| ranks := alter (fun n => wrap 16 (n + 1)) (Z.to_nat rank) rs |>
    else st in
  Ok (put_stats s st).

Definition clear_ranks (s : store) : store := put_stats s ((stats s) <| ranks := [] |>).
Definition set_ranks (s : store) (rs : list Z) : store :=
  put_stats s ((stats s) <| ranks ::= fun old => (old ++ rs)%list |>).

(** [election_opt], given the election schedule. *)
Definition election_opt (s : store) (m : member) (participating : bool)
    (election_time : option Z) (schedule_version : Z) (registration_open : Z -> bool) : result store :=
  _ ← check_active_member s (account m);
  _ ← check (match election_time with Some t => registration_open t | None => false end)
        "Registration has closed";
  new_participation_status ←
    (if participating then
       _ ← check (negb (election_participation_status m =? schedule_version)) "Not currently opted out";
       Ok schedule_version
     else
       _ ← check (election_participation_status m =? schedule_version) "Not currently opted in";
       Ok not_in_election);
  modify_member s (account m) (fun row =>
    Ok (to_v1 row <| election_participation_status := new_participation_status |>)).

Definition can_upload_video (s : store) (round m : Z) : bool :=
  match member_tb s !! m with
  | Some row => (round <=? election_rank row) && negb (representative row =? no_representative)
  | None => false
  end.

Definition clear_all (s : store) : store := mk_store ∅ None.

#[global] Arguments stats : simpl never.

(** ** The statistics count the table *)

Definition has_status (st : Z) (m : member) : Z := if status m =? st then 1 else 0.
Definition count (st : Z) (tb : table) : Z := map_sum (has_status st) tb.

Record inv (s : store) : Prop := {
  inv_keyed : Table.keyed account (member_tb s);
  inv_status : forall k m, member_tb s !! k = Some m ->
    status m = pending_membership \/ status m = active_member;
  inv_pending : pending_members (stats s) = count pending_membership (member_tb s);
  inv_active : active_members (stats s) = count active_member (member_tb s);
  inv_range : 0 <= pending_members (stats s) < 2 ^ 16 /\
    0 <= active_members (stats s) <= Globals.max_active_members
}.

(** Every way the contract changes the store. *)
Inductive step (s : store) : store -> Prop :=
  | step_create a s' : create s a = Ok s' -> step s s'
  | step_erase a m s1 s' : member_tb s !! a = Some m ->
      erase_stats s m = Ok s1 -> erase_row s1 a = Ok s' -> step s s'
  | step_remove_pending a m s1 s' : member_tb s !! a = Some m -> status m = pending_membership ->
      erase_row s a = Ok s1 -> count_removed_pending s1 = Ok s' -> step s s'
  | step_rename a new s' : rename_row s a new = Ok s' -> step s s'
  | step_set_key a k s' : set_key s a k = Ok s' -> step s s'
  | step_set_nft a n s' : set_nft s a n = Ok s' -> step s s'
  | step_set_active a nm s' : set_active s a nm = Ok s' -> step s s'
  | step_set_rank a r rep s' : set_rank s a r rep = Ok s' -> step s s'
  | step_clear_ranks : step s (clear_ranks s)
  | step_set_ranks rs : step s (set_ranks s rs)
  | step_election_opt m b t v o s' : election_opt s m b t v o = Ok s' -> step s s'
  | step_clear_all : step s (clear_all s).

Inductive reachable : store -> Prop :=
  | reach_init : reachable (mk_store ∅ None)
  | reach_step s s' : reachable s -> step s s' -> reachable s'.

Lemma stats_put s st : stats (put_stats s st) = st.
Proof. done. Qed.

Lemma stats_set_tb f s : stats (s <| member_tb ::= f |>) = stats s.
Proof. done. Qed.
Lemma tb_set_tb f s : member_tb (s <| member_tb ::= f |>) = f (member_tb s).
Proof. done. Qed.
Lemma tb_put_stats s st : member_tb (put_stats s st) = member_tb s.
Proof. done. Qed.
#[local] Ltac store_simpl :=
  rewrite ?stats_set_tb, ?tb_set_tb, ?stats_put, ?tb_put_stats, ?stats_set_tb; cbn.

Lemma count_insert st tb k m :
  count st (<[k := m]> tb) =
  count st tb - from_option (has_status st) 0 (tb !! k) + has_status st m.
Proof.
  unfold count. destruct (tb !! k) as [m'|] eqn:E; cbn.
  - by apply map_sum_update.
  - rewrite map_sum_insert by done. lia.
Qed.

Lemma count_delete st tb k m :
  tb !! k = Some m -> count st (delete k tb) = count st tb - has_status st m.
Proof. intros Hk. unfold count. rewrite (map_sum_delete _ k m tb Hk). lia. Qed.

Lemma count_pos st tb k m : tb !! k = Some m -> status m = st -> 1 <= count st tb.
Proof.
  intros Hk Hs.
  assert (map_Forall (fun _ m => 0 <= has_status st m) tb) as HF.
  { intros j m' _. unfold has_status. destruct (_ =? _); lia. }
  pose proof (map_sum_lookup_le _ _ _ _ HF Hk) as H. unfold has_status in H at 1.
  rewrite Hs, Z.eqb_refl in H. exact H.
Qed.

(** Statistics whose counters are unchanged. *)
Definition same_counters (st st' : member_stats_v1) : Prop :=
  pending_members st' = pending_members st /\ active_members st' = active_members st.

(** Replacing a row by one with the same status. *)
Lemma inv_update s s' k m m' :
  inv s -> member_tb s !! k = Some m -> status m' = status m -> account m' = k ->
  member_tb s' = <[k := m']> (member_tb s) -> same_counters (stats s) (stats s') -> inv s'.
Proof.
  intros Hi Hk Hs Ha Htb [Hp Hac]. destruct Hi as [Hkd Hst Hpe Hact [Hr1 Hr2]].
  assert (forall st, count st (member_tb s') = count st (member_tb s)) as Hc.
  { intros st. rewrite Htb, count_insert, Hk. cbn. unfold has_status. rewrite Hs. lia. }
  split.
  - rewrite Htb. by apply Table.keyed_insert.
  - intros j x. rewrite Htb. intros [[<- <-]|[_ Hx]]%lookup_insert_Some; [rewrite Hs|]; eauto.
  - by rewrite Hp, Hc.
  - by rewrite Hac, Hc.
  - by rewrite Hp, Hac.
Qed.

Lemma modify_member_inv s s' k f :
  inv s -> (forall m m', f m = Ok m' -> status m' = status m) ->
  modify_member s k f = Ok s' -> inv s'.
Proof.
  intros Hi Hf H. unfold modify_member in H. apply bind_Ok in H as (tb & Htb & H). injection H as <-.
  apply Table.modify_Ok in Htb as (m & m' & Hk & Hm & Ha & ->).
  apply (inv_update s _ k m m' Hi Hk); [by eapply Hf | done | done | by split].
Qed.

Lemma same_stats_inv s st :
  inv s -> same_counters (stats s) st -> inv (put_stats s st).
Proof. intros [] [Hp Ha]. split; rewrite ?stats_put; try done; by rewrite ?Hp, ?Ha. Qed.

Lemma create_member_inv s a s' : inv s -> create s a = Ok s' -> inv s'.
Proof.
  intros [Hkd Hst Hpe Hact [Hr1 Hr2]] H. unfold create in H.
  apply bind_Ok in H as (u & Hc & H). apply bind_Ok in H as (tb & Htb & H). injection H as <-.
  apply check_Ok, negb_true_iff, Z.eqb_neq in Hc. cbn in Hc.
  apply Table.emplace_Ok in Htb as [Hnone ->]. cbn in Hnone.
  assert (wrap 16 (pending_members (stats s) + 1) = pending_members (stats s) + 1) as Hw.
  { destruct (decide (pending_members (stats s) = 2 ^ 16 - 1)) as [He|Hne].
    - rewrite He in Hc. by destruct Hc.
    - apply wrap_small. lia. }
  assert (pending_members (stats s) + 1 < 2 ^ 16).
  { rewrite <- Hw. apply wrap_bounds. lia. }
  split; store_simpl.
  - by apply Table.keyed_insert.
  - intros j x [[<- <-]|[_ Hx]]%lookup_insert_Some; [by left | eauto].
  - rewrite count_insert, Hnone. cbn. rewrite Hw. lia.
  - rewrite count_insert, Hnone. cbn. lia.
  - rewrite Hw. lia.
Qed.

Lemma decrement_rank_Ok rs i rs' : decrement_rank rs i = Ok rs' -> length rs' = length rs.
Proof. unfold decrement_rank. intros H. res_inv. apply length_insert. Qed.

(** What [erase_stats] does to the counters. *)
Lemma erase_stats_Ok s m s' :
  inv s -> erase_stats s m = Ok s' ->
  member_tb s' = member_tb s /\
  (status m = pending_membership /\ pending_members (stats s') = pending_members (stats s) - 1 /\
     active_members (stats s') = active_members (stats s) /\ 0 < pending_members (stats s) \/
   status m = active_member /\ pending_members (stats s') = pending_members (stats s) /\
     active_members (stats s') = active_members (stats s) - 1 /\ 0 < active_members (stats s)).
Proof.
  intros Hi H. destruct (inv_range _ Hi) as [Hp Ha]. unfold erase_stats, Globals.max_active_members in *.
  apply bind_Ok in H as (st & Hst & H). injection H as <-. split; [done|]. rewrite stats_put.
  destruct (Z.eqb_spec (status m) pending_membership) as [Hs|Hs].
  - left. res_inv. cbn. rewrite wrap_small by lia. lia.
  - destruct (Z.eqb_spec (status m) active_member) as [Hs'|Hs']; [|discriminate].
    right. res_inv; cbn; rewrite wrap_small by lia; lia.
Qed.

Lemma erase_inv s a m s1 s' :
  inv s -> member_tb s !! a = Some m -> erase_stats s m = Ok s1 -> erase_row s1 a = Ok s' -> inv s'.
Proof.
  intros Hi Hm H1 H2. apply (erase_stats_Ok _ _ _ Hi) in H1 as [Htb Hs].
  unfold erase_row in H2. apply bind_Ok in H2 as (tb & Ht & H2). injection H2 as <-.
  apply Table.erase_Ok in Ht as [_ ->]. rewrite Htb in *.
  destruct Hi as [Hkd Hst Hpe Hact [Hr1 Hr2]].
  split; store_simpl; rewrite ?(count_delete _ _ _ _ Hm); unfold has_status.
  - by apply Table.keyed_delete.
  - intros j x [_ Hx]%lookup_delete_Some. eauto.
  - destruct Hs as [(-> & -> & _)|(-> & -> & _)]; cbn; lia.
  - destruct Hs as [(-> & _ & -> & _)|(-> & _ & -> & _)]; cbn; lia.
  - lia.
Qed.

Lemma remove_pending_inv s a m s1 s' :
  inv s -> member_tb s !! a = Some m -> status m = pending_membership ->
  erase_row s a = Ok s1 -> count_removed_pending s1 = Ok s' -> inv s'.
Proof.
  intros Hi Hm Hs H1 H2. unfold erase_row in H1. apply bind_Ok in H1 as (tb & Ht & H1).
  injection H1 as <-. apply Table.erase_Ok in Ht as [_ ->].
  unfold count_removed_pending in H2. res_inv.
  destruct Hi as [Hkd Hst Hpe Hact [Hr1 Hr2]].
  rewrite stats_set_tb in *.
  split; store_simpl; rewrite ?(count_delete _ _ _ _ Hm), ?wrap_small; unfold has_status; rewrite ?Hs; cbn; try lia.
  - by apply Table.keyed_delete.
  - intros j x [_ Hx]%lookup_delete_Some. eauto.
Qed.

(** Renaming keeps every status. *)
Definition same_statuses (tb tb' : table) : Prop :=
  (Table.keyed account tb -> Table.keyed account tb') /\
  (forall st, count st tb' = count st tb) /\
  (forall P, (forall k m, tb !! k = Some m -> P (status m)) ->
     forall k m, tb' !! k = Some m -> P (status m)).

Lemma same_statuses_trans tb1 tb2 tb3 :
  same_statuses tb1 tb2 -> same_statuses tb2 tb3 -> same_statuses tb1 tb3.
Proof.
  intros (H1 & H2 & H3) (G1 & G2 & G3). split; [auto|]. split.
  - intros st. by rewrite G2.
  - intros P HP. apply G3. by apply H3.
Qed.

Lemma same_statuses_modify tb k f tb' :
  (forall m m', f m = Ok m' -> status m' = status m) ->
  Table.modify account tb k f = Ok tb' -> same_statuses tb tb'.
Proof.
  intros Hf (m & m' & Hk & Hm & Ha & ->)%Table.modify_Ok. apply Hf in Hm. split.
  - intros Ht. by apply Table.keyed_insert.
  - split.
    + intros st. rewrite count_insert, Hk. cbn. unfold has_status. rewrite Hm. lia.
    + intros P HP j x [[<- <-]|[_ Hx]]%lookup_insert_Some; [rewrite Hm|]; eauto.
Qed.

Lemma rename_delegates_statuses fuel tb it old new tb' :
  rename_delegates fuel tb it old new = Ok tb' -> same_statuses tb tb'.
Proof.
  revert tb it. induction fuel as [|fuel IH]; intros tb it H; cbn in H.
  { injection H as <-. done. }
  destruct it as [entry|]; [|injection H as <-; done].
  apply bind_Ok in H as (row & _ & H). destruct (_ =? _); [|injection H as <-; done].
  apply bind_Ok in H as (tb1 & Hm & H). eapply same_statuses_trans; [|by eapply IH].
  eapply same_statuses_modify; [|exact Hm]. intros m m' [= <-]. done.
Qed.

Lemma rename_ranks_statuses n i tb old new tb' :
  rename_ranks n i tb old new = Ok tb' -> same_statuses tb tb'.
Proof.
  revert i tb. induction n as [|n IH]; intros i tb H; cbn [rename_ranks] in H.
  { injection H as <-. done. }
  apply bind_Ok in H as (tb1 & Hm & H). eapply same_statuses_trans; [|by eapply IH].
  by eapply rename_delegates_statuses.
Qed.

Lemma rename_row_inv s a new s' : inv s -> rename_row s a new = Ok s' -> inv s'.
Proof.
  intros Hi H. unfold rename_row in H.
  apply bind_Ok in H as (m & Hm%some_or_Ok & H). apply bind_Ok in H as (tb1 & He & H).
  apply bind_Ok in H as (tb2 & Hd & H). apply bind_Ok in H as (tb3 & Hr & H). injection H as <-.
  apply Table.emplace_Ok in He as [Hnone ->]. cbn in Hnone.
  apply Table.erase_Ok in Hd as [_ ->].
  apply rename_ranks_statuses in Hr as (Hk & Hc & HP).
  assert (a <> new) as Hne by (intros ->; congruence).
  destruct Hi as [Hkd Hst Hpe Hact [Hr1 Hr2]].
  assert (forall st, count st tb3 = count st (member_tb s)) as Hcount.
  { intros st. rewrite Hc, (count_delete _ _ _ m).
    - cbn. rewrite count_insert, Hnone. cbn. unfold has_status. cbn. lia.
    - cbn. by rewrite lookup_insert_ne. }
  split; store_simpl; rewrite ?Hcount; try done.
  - apply Hk. apply Table.keyed_delete. by apply Table.keyed_insert.
  - apply (HP (fun st => st = pending_membership \/ st = active_member)).
    intros k x [_ [[_ <-]|[_ Hx]]%lookup_insert_Some]%lookup_delete_Some; cbn; eauto.
Qed.

Lemma set_active_inv s a nm s' : inv s -> set_active s a nm = Ok s' -> inv s'.
Proof.
  intros [Hkd Hst Hpe Hact [Hr1 Hr2]] H. unfold set_active in H.
  apply bind_Ok in H as (u1 & H1 & H). apply bind_Ok in H as (u2 & H2 & H).
  apply bind_Ok in H as (u3 & H3 & H). res_inv.
  unfold check_pending_member, get_member in H3. apply bind_Ok in H3 as (m & Hm%Table.get_Ok & H3).
  res_inv. unfold modify_member in H. apply bind_Ok in H as (tb & Ht & H). injection H as <-.
  apply Table.modify_Ok in Ht as (m0 & m1 & Hm0 & Hf & Ha & ->). injection Hf as <-.
  assert (m0 = m) as -> by (cbn in *; congruence). cbn in Hm, Ha.
  unfold Globals.max_active_members in *.
  split; store_simpl; rewrite ?count_insert, ?Hm; cbn; rewrite ?wrap_small by lia;
    unfold has_status, Globals.max_active_members; cbn; try lia.
  - by apply Table.keyed_insert.
  - intros j x [[<- <-]|[_ Hx]]%lookup_insert_Some; [by right | eauto].
  - match goal with H : status m = _ |- _ => rewrite H end. cbn. lia.
  - match goal with H : status m = _ |- _ => rewrite H end. cbn. lia.
Qed.

Lemma set_rank_inv s a r rep s' : inv s -> set_rank s a r rep = Ok s' -> inv s'.
Proof.
  intros Hi H. unfold set_rank in H. apply bind_Ok in H as (m & _ & H).
  apply bind_Ok in H as (s1 & H1 & H). injection H as <-.
  apply same_stats_inv; [|by destruct (negb _)].
  eapply modify_member_inv; [exact Hi | | exact H1]. intros m0 m' [= <-]. done.
Qed.

Lemma step_inv s s' : inv s -> step s s' -> inv s'.
Proof.
  intros Hi Hs. destruct Hs as [a s' H|a m s1 s' Hm H1 H2|a m s1 s' Hm Hp H1 H2|a new s' H|a k s' H
    |a n s' H|a nm s' H|a r rep s' H| |rs|m b t v o s' H|].
  - by eapply create_member_inv.
  - by eapply erase_inv.
  - by eapply remove_pending_inv.
  - by eapply rename_row_inv.
  - unfold set_key in H. apply bind_Ok in H as (m & _ & H).
    eapply modify_member_inv; [exact Hi | | exact H]. intros m0 m' [= <-]. done.
  - unfold set_nft in H. apply bind_Ok in H as (u & _ & H).
    eapply modify_member_inv; [exact Hi | | exact H]. intros m0 m' [= <-]. done.
  - by eapply set_active_inv.
  - by eapply set_rank_inv.
  - by apply same_stats_inv.
  - by apply same_stats_inv.
  - unfold election_opt in H. apply bind_Ok in H as (u1 & _ & H).
    apply bind_Ok in H as (u2 & _ & H). apply bind_Ok in H as (np & _ & H).
    eapply modify_member_inv; [exact Hi | | exact H]. intros m0 m' [= <-]. done.
  - by split.
Qed.

Lemma reachable_members_inv s : reachable s -> inv s.
Proof.
  induction 1 as [|s s' _ IH Hs]; [|by eapply step_inv].
  by split.
Qed.

(** In every reachable state the member statistics are the true counts:
    each row is pending or active and stored under its account, and the two
    counters equal the numbers of pending and active rows, without ever
    wrapping around their 16 bits. *)
Lemma reachable_stats_count (s : store) :
  reachable s ->
  (forall k m, member_tb s !! k = Some m ->
     account m = k /\ (status m = pending_membership \/ status m = active_member)) /\
  pending_members (stats s) = count pending_membership (member_tb s) /\
  active_members (stats s) = count active_member (member_tb s) /\
  count pending_membership (member_tb s) + count active_member (member_tb s)
    = map_sum (fun _ => 1) (member_tb s).
Proof.
  intros [Hkd Hst Hpe Hact _]%reachable_members_inv. split; [|split; [done|split; [done|]]].
  - intros k m Hk. split; [by apply Hkd | eauto].
  - revert Hst. generalize (member_tb s). intros tb Hst. clear -Hst. unfold count.
    induction tb as [|k m tb Hk IH] using map_ind; [done|].
    rewrite !map_sum_insert by done. 
    destruct (Hst k m ltac:(apply lookup_insert_eq)) as [Hm|Hm];
      unfold has_status at 1 3; rewrite Hm; cbn;
      (assert (forall j x, tb !! j = Some x -> status x = pending_membership \/ status x = active_member)
        as Htb by (intros j x Hx; apply (Hst j); rewrite lookup_insert_ne; [done|congruence]));
      specialize (IH Htb); lia.
Qed.

End Members.
