(* ===== verification/ElectionState.v ===== *)
(** The state of elections and the operations on the vote table
    ([contracts/eden/include/elections.hpp], [contracts/eden/src/elections.cpp]).
    The phases of an election are driven in ElectionOps.v. *)
From S2P Require Import Prelude Name Time MultiIndex Crypto Host ElectionConfig Rng Events.
Open Scope string_scope.
Open Scope Z_scope.

Module Votes.
Import Config.

Record election_state_v0 : Type := mk_election_state {
  lead_representative : Z; board : list Z; last_election_time : Z }.
#[global] Instance set_lead : Setter lead_representative := fun f s =>
  mk_election_state (f (lead_representative s)) (board s) (last_election_time s).
#[global] Instance set_board : Setter board := fun f s =>
  mk_election_state (lead_representative s) (f (board s)) (last_election_time s).
#[global] Instance set_last_time : Setter last_election_time := fun f s =>
  mk_election_state (lead_representative s) (board s) (f (last_election_time s)).

Record vote : Type := mk_vote { member : Z; round : Z; index : Z; candidate : Z }.
#[global] Instance set_index : Setter index := fun f v => mk_vote (member v) (round v) (f (index v)) (candidate v).
#[global] Instance set_candidate : Setter candidate := fun f v => mk_vote (member v) (round v) (index v) (f (candidate v)).
Definition group_key (round index : Z) : Z := Z.lor (Z.shiftl round 16) index.
Definition by_index (v : vote) : Z := group_key (round v) (index v).
Abbreviation vote_table := (gmap Z vote).

Record registration : Type := mk_registration {
  reg_start_time : Z; election_threshold : Z; reg_version : Z }.
Record seeding : Type := mk_seeding { seed : Rng.election_seeder; seed_version : Z }.
Record init_voters : Type := mk_init {
  next_member_idx : Z; init_rng : Rng.election_rng; last_processed : Z;
  init_report_index : Z; init_version : Z }.
#[global] Instance set_init_report : Setter init_report_index := fun f s =>
  mk_init (next_member_idx s) (init_rng s) (last_processed s) (f (init_report_index s)) (init_version s).
Record active_round : Type := mk_active {
  active_round_no : Z; config : round_config; saved_seed : Z; round_end : Z }.
Record post_round : Type := mk_post {
  post_rng : Rng.election_rng; prev_round : Z; prev_config : round_config;
  next_input_index : Z; next_output_index : Z; next_report_index : Z }.
#[global] Instance set_post_rng : Setter post_rng := fun f s => mk_post (f (post_rng s)) (prev_round s)
  (prev_config s) (next_input_index s) (next_output_index s) (next_report_index s).
#[global] Instance set_input : Setter next_input_index := fun f s => mk_post (post_rng s) (prev_round s)
  (prev_config s) (f (next_input_index s)) (next_output_index s) (next_report_index s).
#[global] Instance set_output : Setter next_output_index := fun f s => mk_post (post_rng s) (prev_round s)
  (prev_config s) (next_input_index s) (f (next_output_index s)) (next_report_index s).
#[global] Instance set_report : Setter next_report_index := fun f s => mk_post (post_rng s) (prev_round s)
  (prev_config s) (next_input_index s) (next_output_index s) (f (next_report_index s)).

(** The variant; [v1] tells the newer of two versions of an alternative.  The
    version number of the schedule is stored by the newer version only and is
    1 in the older. *)
Inductive current_election_state : Type :=
  | pending_date
  | registering (v1 : bool) (r : registration)
  | seeding_phase (v1 : bool) (s : seeding)
  | init_phase (v1 : bool) (i : init_voters)
  | active_phase (a : active_round)
  | post_phase (p : post_round)
  | final_phase (s : Rng.election_seeder).
#[global] Instance registration_eq_dec : EqDecision registration.
Proof. solve_decision. Defined.
#[global] Instance seeding_eq_dec : EqDecision seeding.
Proof. solve_decision. Defined.
#[global] Instance init_voters_eq_dec : EqDecision init_voters.
Proof. solve_decision. Defined.
#[global] Instance active_round_eq_dec : EqDecision active_round.
Proof. solve_decision. Defined.
#[global] Instance post_round_eq_dec : EqDecision post_round.
Proof. solve_decision. Defined.
#[global] Instance current_election_state_eq_dec : EqDecision current_election_state.
Proof. solve_decision. Defined.

Record store : Type := mk_store {
  vote_tb : vote_table;
  state_sing : option current_election_state;
  election_state : option election_state_v0
}.
#[global] Instance set_vote_tb : Setter vote_tb := fun f s =>
  mk_store (f (vote_tb s)) (state_sing s) (election_state s).
#[global] Instance set_state_sing : Setter state_sing := fun f s =>
  mk_store (vote_tb s) (f (state_sing s)) (election_state s).
#[global] Instance set_election_state : Setter election_state := fun f s =>
  mk_store (vote_tb s) (state_sing s) (f (election_state s)).

(** The singletons. *)
Definition get_state (s : store) : result current_election_state :=
  some_or (Check "singleton does not exist") (state_sing s).
Definition get_election_state (s : store) : result election_state_v0 :=
  some_or (Check "singleton does not exist") (election_state s).

Definition get_next_election_time (s : store) : option Z :=
  match state_sing s with
  | Some (registering _ r) => Some (reg_start_time r)
  | Some (seeding_phase _ sd) => Some (Rng.end_time (seed sd))
  | _ => None
  end.
Definition election_schedule_version (s : store) : Z :=
  match state_sing s with
  | Some (registering _ r) => reg_version r
  | Some (seeding_phase _ sd) => seed_version sd
  | Some (init_phase _ i) => init_version i
  | _ => 1
  end.

Section operations.
Context (e : env).

(** One step of the incremental shuffle. *)
Definition add_voter (vt : vote_table) (rng : Rng.election_rng) (rnd next_index mem : Z)
    : result (vote_table * Rng.election_rng * Z) :=
  let '(pos, rng) := Rng.uniform e next_index rng in
  vt ← (if negb (pos =? next_index) then
          old ← some_or (Check "unable to find secondary key")
                  (Table.index_find by_index vt (group_key rnd pos));
          Table.modify member vt old (fun row => Ok (row <| index := next_index |>))
        else Ok vt);
  vt ← Table.emplace member vt (mk_vote mem rnd pos 0);
  Ok (vt, rng, wrap 16 (next_index + 1)).

(** Counting the votes of a group. *)
Record tally : Type := mk_tally {
  votes : list Events.vote_report;
  votes_by_candidate : gmap Z Z;
  total_votes : Z;
  voted : list Z;
  missing : list Z
}.
Definition empty_tally : tally := mk_tally [] ∅ 0 [] [].

Definition bump (m : gmap Z Z) (c n : Z) : gmap Z Z := <[c := wrap 8 (default 0 (m !! c) + n)]> m.

Definition count_vote (group_size : Z) (t : tally) (v : vote) : tally :=
  let report := (votes t ++ [Events.mk_vote (member v) (candidate v)])%list in
  if negb (candidate v =? 0) then
    let m := if candidate v =? member v then bump (votes_by_candidate t) (candidate v) group_size
             else votes_by_candidate t in
    mk_tally report (bump m (candidate v) 1) (wrap 8 (total_votes t + 1))
      (voted t ++ [member v])%list (missing t)
  else mk_tally report (votes_by_candidate t) (total_votes t) (voted t) (missing t ++ [member v])%list.

(** [std::max_element]: the first of the largest, in the order of names. *)
Fixpoint max_element (ks : list Z) (m : gmap Z Z) (best : option (Z * Z)) : option (Z * Z) :=
  match ks with
  | [] => best
  | k :: ks' =>
      let n := default 0 (m !! k) in
      max_element ks' m
        (match best with
         | None => Some (k, n)
         | Some (_, n') => if n' <? n then Some (k, n) else best
         end)
  end.

(** Walks [n] rows of the index from an iterator, erasing them. *)
Fixpoint take_group (n : nat) (group_size : Z) (vt : vote_table) (it : option (Z * Z)) (t : tally)
    : result (vote_table * option (Z * Z) * tally) :=
  match n with
  | O => Ok (vt, it, t)
  | S n' =>
      entry ← some_or (Trap "dereferenced the end of an index") it;
      row ← some_or (Trap "dangling index entry") (vt !! entry.2);
      let next := Table.index_next by_index vt entry in
      vt ← Table.erase vt entry.2;
      take_group n' group_size vt next (count_vote group_size t row)
  end.

(** Without a winner the result is a value that is not the name of an
    account: the complement of the first member's. *)
Definition no_winner (first : Z) : Z := 2 ^ 64 - 1 - first.
Definition group_winner (first group_size : Z) (t : tally) : Z :=
  match max_element (Table.keys (votes_by_candidate t)) (votes_by_candidate t) None with
  | Some (c, n) => if 2 * total_votes t + 3 * group_size <? 3 * n then c else no_winner first
  | None => no_winner first
  end.

Definition finish_group (vt : vote_table) (it : option (Z * Z)) (group_size : Z)
    : result (vote_table * option (Z * Z) * (Z * tally)) :=
  entry ← some_or (Trap "dereferenced the end of an index") it;
  first ← some_or (Trap "dangling index entry") (vt !! entry.2);
  '(vt, it, t) ← take_group (Z.to_nat group_size) group_size vt it empty_tally;
  Ok (vt, it, (group_winner (member first) group_size t, t)).

(** Empties the vote table into a board, in the order of the index. *)
Fixpoint extract_board_loop (fuel : nat) (vt : vote_table) (it : option (Z * Z)) (acc : list Z)
    : result (vote_table * list Z) :=
  match fuel, it with
  | S fuel', Some entry =>
      row ← some_or (Trap "dangling index entry") (vt !! entry.2);
      let acc := (acc ++ [member row])%list in
      _ ← check (Nat.ltb (length acc) 12) "Too many board members";
      let next := Table.index_next by_index vt entry in
      vt ← Table.erase vt entry.2;
      extract_board_loop fuel' vt next acc
  | _, _ => Ok (vt, acc)
  end.
Definition extract_board (vt : vote_table) : result (vote_table * list Z) :=
  '(vt, acc) ← extract_board_loop (S (size vt)) vt (head (Table.index by_index vt)) [];
  _ ← check (negb (bool_decide (acc = []))) "No board members";
  Ok (vt, acc).

Definition check_active (s : store) (now : Z) : result active_round :=
  state ← some_or (Check "No election is running") (state_sing s);
  r ← (match state with
       | active_phase a => Ok a
       | _ => Err (Check "The election is not ready for voting")
       end);
  _ ← check (now <? round_end r) "Voting period for this round has closed";
  Ok r.

Definition check_member (vt : vote_table) (rnd mem : Z) : result vote :=
  let e := Check (Name.name_to_string mem ++ " is not in round " ++ to_string rnd) in
  v ← some_or e (vt !! mem);
  if round v =? rnd then Ok v else Err e.

Definition cast_vote (s : store) (now rnd voter cand : Z) : result store :=
  state ← check_active s now;
  _ ← check (active_round_no state =? rnd)
        ("Round " ++ to_string rnd ++ " is not running (in round " ++
         to_string (active_round_no state) ++ ")");
  v ← check_member (vote_tb s) rnd voter;
  c ← check_member (vote_tb s) rnd cand;
  _ ← check (member_index_to_group (config state) (index v)
               =? member_index_to_group (config state) (index c))
        (Name.name_to_string voter ++ " and " ++ Name.name_to_string cand ++ " are not in the same group.");
  vt ← Table.modify member (vote_tb s) voter (fun row => Ok (row <| candidate := cand |>));
  Ok (s <| vote_tb := vt |>).

Definition get_group_id (s : store) (now voter rnd : Z) : result Z :=
  state ← check_active s now;
  _ ← check (rnd =? active_round_no state) "Wrong round";
  v ← Table.get (vote_tb s) voter "unable to find key";
  _ ← check (round v =? active_round_no state) "Invariant failure: round mismatch";
  Ok (Z.lor (Z.shiftl rnd 16) (member_index_to_group (config state) (index v))).

(** [get_group_members] stops at the first row of another group. *)
Fixpoint take_while_group (cfg : round_config) (vt : vote_table) (ks : list Z) (group : Z) : list Z :=
  match ks with
  | [] => []
  | k :: ks' =>
      match vt !! k with
      | Some v => if member_index_to_group cfg (index v) =? group
                  then member v :: take_while_group cfg vt ks' group else []
      | None => []
      end
  end.
Definition get_group_members (s : store) (now group_id : Z) : result (list Z) :=
  state ← check_active s now;
  let rnd := Z.shiftr group_id 16 in
  let group := Z.land group_id 0xFFFF in
  Ok (take_while_group (config state) (vote_tb s)
        (Table.index_from by_index (vote_tb s)
           (group_key rnd (group_to_first_member_index (config state) group))) group).

Definition is_election_running (s : store) (now : Z) : bool :=
  match state_sing s with
  | None | Some pending_date => false
  | Some (registering _ r) => reg_start_time r <=? now
  | Some _ => true
  end.

(** [can_upload_video]; [None] is [indeterminate]. *)
Definition can_upload_video (s : store) (now_point rnd voter : Z) : result (option bool) :=
  match vote_tb s !! voter with
  | Some v => Ok (Some (rnd <=? round v))
  | None =>
      current_state ← get_state s;
      let valid_state := match current_state with init_phase _ _ => false | _ => true end in
      state ← get_election_state s;
      let end_time := Time.to_time_point (last_election_time state) + Time.days 14 in
      Ok (if valid_state && (now_point <=? end_time) then None else Some false)
  end.

Definition clear_all (s : store) : store := mk_store ∅ None None.
End operations.

End Votes.
