(* ===== verification/Tally.v ===== *)
(** The consensus rule of a group: what [finish_group] of
    [contracts/eden/src/elections.cpp] (lines 657-712) decides, against its
    specification. *)
From S2P Require Import Prelude MultiIndex Events ElectionState.
Open Scope list_scope.
Open Scope Z_scope.

Module Tally.
Import Votes.

(** ** Specification *)

Definition cast (rows : list vote) : Z := Z.of_nat (length (filter (fun v => candidate v <> 0) rows)).
Definition votes_for (c : Z) (rows : list vote) : Z :=
  Z.of_nat (length (filter (fun v => candidate v = c) rows)).
Definition voted_for_self (c : Z) (rows : list vote) : Prop :=
  Exists (fun v => member v = c /\ candidate v = c) rows.

(** More than two thirds of the votes cast go to [c], and [c] accepts. *)
Definition consensus (c : Z) (rows : list vote) : Prop :=
  c <> 0 /\ voted_for_self c rows /\ 2 * cast rows < 3 * votes_for c rows.

Definition count_all (gs : Z) (rows : list vote) : tally := foldl (count_vote gs) empty_tally rows.

(** ** The tally of a list of rows *)

Definition selfs (c : Z) (rows : list vote) : Z :=
  Z.of_nat (length (filter (fun v => member v = c /\ candidate v = c) rows)).
Definition score (gs c : Z) (rows : list vote) : Z := votes_for c rows + gs * selfs c rows.

Lemma count_all_snoc gs rows v : count_all gs (rows ++ [v]) = count_vote gs (count_all gs rows) v.
Proof. unfold count_all. by rewrite foldl_app. Qed.

Lemma votes_for_snoc c rows v :
  votes_for c (rows ++ [v]) = votes_for c rows + (if decide (candidate v = c) then 1 else 0).
Proof.
  unfold votes_for. rewrite filter_app, length_app, filter_cons, filter_nil.
  destruct (decide _); cbn; lia.
Qed.
Lemma cast_snoc rows v : cast (rows ++ [v]) = cast rows + (if decide (candidate v = 0) then 0 else 1).
Proof.
  unfold cast. rewrite filter_app, length_app, filter_cons, filter_nil.
  repeat destruct (decide _); cbn; try lia; by exfalso.
Qed.
Lemma selfs_snoc c rows v :
  selfs c (rows ++ [v]) = selfs c rows + (if decide (member v = c /\ candidate v = c) then 1 else 0).
Proof.
  unfold selfs. rewrite filter_app, length_app, filter_cons, filter_nil.
  destruct (decide _); cbn; lia.
Qed.

Lemma score_snoc gs c rows v :
  score gs c (rows ++ [v]) = score gs c rows
    + (if decide (member v = c /\ candidate v = c) then gs else 0)
    + (if decide (candidate v = c) then 1 else 0).
Proof. unfold score. rewrite votes_for_snoc, selfs_snoc. repeat destruct (decide _); lia. Qed.

Lemma votes_for_bound c rows : 0 <= votes_for c rows <= Z.of_nat (length rows).
Proof. unfold votes_for. pose proof (length_filter (fun v => candidate v = c) rows). lia. Qed.
Lemma cast_bound rows : 0 <= cast rows <= Z.of_nat (length rows).
Proof. unfold cast. pose proof (length_filter (fun v => candidate v <> 0) rows). lia. Qed.

Lemma votes_for_cast c rows : c <> 0 -> votes_for c rows <= cast rows.
Proof.
  intros Hc. induction rows as [|v rows IH] using rev_ind; [done|].
  rewrite votes_for_snoc, cast_snoc. repeat destruct (decide _); congruence || lia.
Qed.

Lemma votes_for_two c c' rows :
  c <> 0 -> c' <> 0 -> c <> c' -> votes_for c rows + votes_for c' rows <= cast rows.
Proof.
  intros Hc Hc' Hne. induction rows as [|v rows IH] using rev_ind; [done|].
  rewrite !votes_for_snoc, cast_snoc. repeat destruct (decide _); congruence || lia.
Qed.

(** Each member votes once, hence at most once for themselves. *)
Lemma selfs_bound c rows : NoDup (member <$> rows) -> 0 <= selfs c rows <= 1.
Proof.
  induction rows as [|v rows IH] using rev_ind; [done|].
  rewrite fmap_app, NoDup_app. intros (Hn & Hd & _). rewrite selfs_snoc. specialize (IH Hn).
  destruct (decide _) as [[<- _]|_]; [|lia].
  assert (selfs (member v) rows = 0) as ->; [|lia].
  unfold selfs. destruct (filter _ rows) as [|w ws] eqn:E; [done|]. exfalso.
  assert (w ∈ filter (fun v0 => member v0 = member v /\ candidate v0 = member v) rows) as Hw
    by (rewrite E; apply list_elem_of_here).
  apply list_elem_of_filter in Hw as [[Hm _] Hw].
  apply (Hd (member w)); [by apply list_elem_of_fmap_2|]. rewrite Hm. apply list_elem_of_here.
Qed.

Lemma selfs_voted c rows : 1 <= selfs c rows <-> voted_for_self c rows.
Proof.
  unfold selfs, voted_for_self. rewrite Exists_exists. split.
  - destruct (filter _ rows) as [|w ws] eqn:E; cbn; [lia|]. intros _.
    assert (w ∈ filter (fun v0 => member v0 = c /\ candidate v0 = c) rows) as Hw
      by (rewrite E; apply list_elem_of_here).
    apply list_elem_of_filter in Hw as [Hm Hw]. eauto.
  - intros (w & Hw & Hm).
    assert (w ∈ filter (fun v0 => member v0 = c /\ candidate v0 = c) rows) as Hf
      by (by apply list_elem_of_filter).
    destruct (filter _ rows); [by apply not_elem_of_nil in Hf|]. cbn. lia.
Qed.

(** The counters of the tally, while they fit a byte. *)
Lemma count_all_spec gs rows :
  0 <= gs -> NoDup (member <$> rows) -> Z.of_nat (length rows) + gs < 256 ->
  total_votes (count_all gs rows) = cast rows /\
  (forall c, c <> 0 -> default 0 (votes_by_candidate (count_all gs rows) !! c) = score gs c rows) /\
  (forall c, is_Some (votes_by_candidate (count_all gs rows) !! c) <-> c <> 0 /\ 0 < votes_for c rows).
Proof.
  intros Hg. induction rows as [|v rows IH] using rev_ind; intros Hn Hl.
  { split; [done|]. change (count_all gs []) with empty_tally. cbn [votes_by_candidate empty_tally].
    split; [intros c _; rewrite lookup_empty; unfold score, votes_for, selfs; cbn; lia|].
    intros c. rewrite lookup_empty. split; [by intros [? ?]|]. intros [_ H]. by unfold votes_for in H. }
  pose proof Hn as Hn'. rewrite fmap_app, NoDup_app in Hn. destruct Hn as (Hn & Hd & _).
  rewrite length_app in Hl. cbn [length] in Hl.
  destruct (IH Hn ltac:(lia)) as (Ht & Hsc & Hdom). clear IH.
  pose proof (cast_bound rows). rewrite count_all_snoc. set (t := count_all gs rows) in *.
  assert (forall c, 0 <= score gs c (rows ++ [v]) < 256) as Hrange.
  { intros c. unfold score. pose proof (votes_for_bound c (rows ++ [v])) as Hb.
    pose proof (selfs_bound c _ Hn'). rewrite length_app in Hb. cbn [length] in Hb. nia. }
  unfold count_vote. destruct (Z.eqb_spec (candidate v) 0) as [H0|H0]; cbn [negb].
  - cbn [total_votes votes_by_candidate]. rewrite cast_snoc, decide_True by done.
    split; [lia|]. split.
    + intros c Hc. rewrite Hsc, score_snoc by done.
      destruct (decide _) as [[? ?]|_]; [congruence|]. destruct (decide _); [congruence|lia].
    + intros c. rewrite Hdom, votes_for_snoc. destruct (decide _); [|by rewrite Z.add_0_r].
      split; intros [? ?]; congruence.
  - cbn [total_votes votes_by_candidate]. rewrite cast_snoc, decide_False by done.
    split; [rewrite wrap_small by lia; lia|].
    set (m := if candidate v =? member v then _ else _).
    assert (forall c, c <> 0 -> default 0 (m !! c) =
      score gs c rows + (if decide (member v = c /\ candidate v = c) then gs else 0)) as Hm.
    { intros c Hc. unfold m. destruct (Z.eqb_spec (candidate v) (member v)) as [Hvm|Hvm].
      - unfold bump. specialize (Hrange c). rewrite score_snoc in Hrange.
        destruct (decide (candidate v = c)) as [<-|Hne].
        + rewrite lookup_insert_eq. rewrite decide_True in Hrange |- * by done. cbn. rewrite Hsc by done.
          apply wrap_small. pose proof (votes_for_bound (candidate v) rows) as Hb.
          pose proof (selfs_bound (candidate v) rows Hn). unfold score in *. nia.
        + rewrite lookup_insert_ne, Hsc by done. destruct (decide _) as [[_ ?]|_]; [done|lia].
      - rewrite Hsc by done. destruct (decide _) as [[? ?]|_]; [congruence|lia]. }
    split.
    + intros c Hc. unfold bump. specialize (Hrange c). rewrite score_snoc in Hrange |- *.
      destruct (decide (candidate v = c)) as [<-|Hne].
      * rewrite lookup_insert_eq. cbn. rewrite Hm by done. by apply wrap_small.
      * rewrite lookup_insert_ne, Hm by done. lia.
    + intros c. unfold bump. rewrite votes_for_snoc.
      destruct (decide (candidate v = c)) as [<-|Hne].
      * rewrite lookup_insert_eq. pose proof (votes_for_bound (candidate v) rows).
        split; [intros _; split; [done|lia] | eauto].
      * rewrite lookup_insert_ne, Z.add_0_r, <- Hdom by done. unfold m.
        destruct (candidate v =? member v); [|done]. unfold bump. by rewrite lookup_insert_ne.
Qed.

(** [max_element] returns a largest entry. *)
Lemma max_element_spec ks m best r :
  max_element ks m best = r ->
  match r with
  | None => ks = [] /\ best = None
  | Some (k, n) =>
      ((k ∈ ks /\ n = default 0 (m !! k)) \/ best = Some (k, n)) /\
      (forall k', k' ∈ ks -> default 0 (m !! k') <= n) /\
      (forall k' n', best = Some (k', n') -> n' <= n)
  end.
Proof.
  revert best. induction ks as [|k ks IH]; intros best H; cbn in H.
  - subst. destruct r as [[k n]|]; [|done]. split; [by right|]. split; [set_solver|].
    intros k' n' [= -> ->]. lia.
  - apply IH in H. destruct r as [[k1 n1]|].
    + destruct H as (Hin & Hmax & Hbest).
      assert (default 0 (m !! k) <= n1 /\ forall k' n', best = Some (k', n') -> n' <= n1) as [Hk Hb].
      { destruct best as [[k0 n0]|].
        - destruct (Z.ltb_spec n0 (default 0 (m !! k))); specialize (Hbest _ _ eq_refl);
            (split; [lia|]; intros k' n' [= -> ->]; lia).
        - specialize (Hbest _ _ eq_refl). done. }
      split; [|split; [|done]].
      * destruct Hin as [[Hin ->]|Hin]; [left; split; [set_solver|done]|].
        destruct best as [[k0 n0]|].
        -- destruct (n0 <? _); [injection Hin as <- <-; left; split; [set_solver|done] | by right].
        -- injection Hin as <- <-. left. split; [set_solver|done].
      * intros k' [->|Hk']%elem_of_cons; [done | by apply Hmax].
    + destruct H as [_ H]. destruct best as [[k0 n0]|]; [by destruct (n0 <? _)|done].
Qed.

Lemma group_winner_spec first rows :
  let gs := Z.of_nat (length rows) in
  NoDup (member <$> rows) -> gs < 128 ->
  (forall c, consensus c rows -> group_winner first gs (count_all gs rows) = c) /\
  ((forall c, ~ consensus c rows) -> group_winner first gs (count_all gs rows) = no_winner first).
Proof.
  intros gs Hn Hl. destruct (count_all_spec gs rows ltac:(lia) Hn ltac:(lia)) as (Ht & Hsc & Hdom).
  unfold group_winner. rewrite Ht. set (m := votes_by_candidate (count_all gs rows)) in *.
  destruct (max_element (Table.keys m) m None) as [[k n]|] eqn:E; apply max_element_spec in E.
  - destruct E as (Hin & Hmax & _). destruct Hin as [[Hk ->]|]; [|done].
    apply Table.elem_of_keys, Hdom in Hk as [Hk0 Hkv]. rewrite Hsc by done. unfold score.
    pose proof (selfs_bound k rows Hn) as Hs. pose proof (votes_for_cast k rows Hk0).
    pose proof (cast_bound rows). pose proof (votes_for_bound k rows).
    split.
    + intros c (Hc0 & Hself & Hmaj). apply selfs_voted in Hself.
      pose proof (selfs_bound c rows Hn). pose proof (cast_bound rows).
      assert (score gs c rows <= score gs k rows) as Hle.
      { rewrite <- !Hsc by done. apply Hmax, Table.elem_of_keys, Hdom. split; [done|lia]. }
      unfold score in Hle.
      destruct (decide (k = c)) as [->|Hne].
      * destruct (Z.ltb_spec (2 * cast rows + 3 * gs) (3 * (votes_for c rows + gs * selfs c rows))); [done|nia].
      * exfalso. pose proof (votes_for_two k c rows Hk0 Hc0 Hne). nia.
    + intros Hno. destruct (Z.ltb_spec (2 * cast rows + 3 * gs) (3 * (votes_for k rows + gs * selfs k rows)));
        [|done]. exfalso. apply (Hno k). split; [done|]. 
      assert (1 <= selfs k rows) as Hself by nia. split; [by apply selfs_voted | nia].
  - destruct E as [Hks _]. split; [|done]. intros c (Hc0 & Hself & Hmaj). exfalso.
    assert (c ∈ Table.keys m) as Hin.
    { apply Table.elem_of_keys, Hdom. split; [done|]. pose proof (cast_bound rows). lia. }
    rewrite Hks in Hin. by apply not_elem_of_nil in Hin.
Qed.

(** ** The rows a group takes from the table *)

Lemma take_group_rows n gs vt it t vt' it' t' :
  Table.keyed member vt -> take_group n gs vt it t = Ok (vt', it', t') ->
  exists rows, length rows = n /\ NoDup (member <$> rows) /\
    (forall v, v ∈ rows -> vt !! member v = Some v) /\
    (forall k, vt' !! k = if decide (k ∈ member <$> rows) then None else vt !! k) /\
    t' = foldl (count_vote gs) t rows /\
    (forall row rows', rows = row :: rows' -> exists entry, it = Some entry /\ vt !! entry.2 = Some row).
Proof.
  revert vt it t. induction n as [|n IH]; intros vt it t Hk H; cbn [take_group] in H.
  - res_inv. exists []. split; [done|]. split; [constructor|]. split; [set_solver|].
    split; [intros k; rewrite decide_False by set_solver; done|]. split; [done|]. intros row rows' [=].
  - apply bind_Ok in H as (entry & Hit%some_or_Ok & H). apply bind_Ok in H as (row & Hrow%some_or_Ok & H).
    apply bind_Ok in H as (vt1 & Her & H). apply Table.erase_Ok in Her as [_ ->].
    pose proof (Hk _ _ Hrow) as Hkey.
    apply IH in H as (rows & Hlen & Hnd & Hin & Hlk & Ht & _); [|by apply Table.keyed_delete].
    assert (entry.2 ∉ member <$> rows) as Hnot.
    { intros (v & Hv1 & Hv2)%list_elem_of_fmap. apply Hin in Hv2. rewrite <- Hv1 in Hv2.
      by rewrite lookup_delete_eq in Hv2. }
    exists (row :: rows). split; [cbn; lia|]. split; [|split; [|split; [|split]]].
    + cbn. rewrite Hkey. by apply NoDup_cons.
    + intros v [->|Hv]%elem_of_cons; [by rewrite Hkey|]. apply Hin in Hv.
      by apply lookup_delete_Some in Hv as [_ Hv].
    + intros k. rewrite Hlk. cbn. rewrite Hkey. destruct (decide (k ∈ member <$> rows)) as [Hkin|Hkin].
      * rewrite decide_True; [done|]. set_solver.
      * destruct (decide (k = entry.2)) as [->|Hne].
        -- rewrite lookup_delete_eq, decide_True; [done|]. set_solver.
        -- rewrite lookup_delete_ne, decide_False; [done | set_solver | done].
    + done.
    + intros r rs [= <- <-]. eauto.
Qed.

(** Closing a group removes exactly the group's rows from the table and
    decides by consensus: if some member voted for themselves and has more
    than two thirds of the votes cast, that member (there can be only one) is
    the winner; otherwise the result is the mark for "no winner", made from
    the name of the group's first member. *)
Theorem finish_group_consensus (vt vt' : vote_table) it it' (gs w : Z) (t : tally) :
  Table.keyed member vt -> 1 <= gs < 128 ->
  finish_group vt it gs = Ok (vt', it', (w, t)) ->
  exists first rows, Z.of_nat (length (first :: rows)) = gs /\
    NoDup (member <$> first :: rows) /\
    (forall v, v ∈ first :: rows -> vt !! member v = Some v) /\
    (forall k, vt' !! k = if decide (k ∈ member <$> first :: rows) then None else vt !! k) /\
    (forall c, consensus c (first :: rows) -> w = c) /\
    ((forall c, ~ consensus c (first :: rows)) -> w = no_winner (member first)).
Proof.
  intros Hk Hg H. unfold finish_group in H.
  apply bind_Ok in H as (entry & Hit%some_or_Ok & H). apply bind_Ok in H as (first & Hf%some_or_Ok & H).
  apply bind_Ok in H as ([[vt1 it1] t1] & Ht & H). injection H as <- <- <- <-.
  apply take_group_rows in Ht as (rows & Hlen & Hnd & Hin & Hlk & -> & Hhd); [|done].
  destruct rows as [|row rows]; [cbn in Hlen; lia|].
  destruct (Hhd _ _ eq_refl) as (entry' & Hit' & Hrow).
  assert (entry' = entry) as -> by congruence. assert (row = first) as -> by congruence.
  exists first, rows. assert (Z.of_nat (length (first :: rows)) = gs) as Hgs by lia.
  split; [done|]. split; [done|]. split; [done|]. split; [done|].
  pose proof (group_winner_spec (member first) (first :: rows)) as Hw. cbn zeta in Hw.
  rewrite Hgs in Hw. apply Hw; [done|lia].
Qed.

Definition demo_votes : vote_table :=
  {[ 16 := mk_vote 16 0 0 32; 32 := mk_vote 32 0 1 32; 48 := mk_vote 48 0 2 32; 64 := mk_vote 64 0 3 16 ]}.

Lemma finish_group_consensus_witness :
  exists vt' it' t, finish_group demo_votes (Some (0, 16)) 4 = Ok (vt', it', (32, t)) /\
  exists first rows, Z.of_nat (length (first :: rows)) = 4 /\
    (forall c, consensus c (first :: rows) -> 32 = c).
Proof.
  assert (exists vt' it' t, finish_group demo_votes (Some (0, 16)) 4 = Ok (vt', it', (32, t)))
    as (vt' & it' & t & E) by (eexists _, _, _; vm_compute; reflexivity).
  exists vt', it', t. split; [exact E|].
  destruct (finish_group_consensus demo_votes vt' (Some (0, 16)) it' 4 32 t) as (first & rows & Hf).
  - unfold demo_votes. repeat (apply Table.keyed_insert; [|done]). apply Table.keyed_empty.
  - lia.
  - exact E.
  - exists first, rows. split; apply Hf.
Defined.

End Tally.
