(* ===== verification/VoteTable.v ===== *)
(** The rows of the vote table.  Module Shuffle is the incremental shuffle of
    [elections::add_voter] ([contracts/eden/src/elections.cpp]): whatever the
    random numbers are, after adding all voters each has a unique index in
    [0, N).  Module Seats is the table as a list of seats in the order of its
    group index, and what the operations that walk the index do to the list. *)
From S2P Require Import Prelude MultiIndex Host Rng ElectionState.
Open Scope list_scope.
Open Scope Z_scope.

Module Shuffle.
Import Votes.

(** Adding the voters of a round one after the other. *)
Fixpoint add_voters (e : env) (vt : vote_table) (rng : Rng.election_rng) (rnd next : Z) (ms : list Z)
    : result (vote_table * Rng.election_rng * Z) :=
  match ms with
  | [] => Ok (vt, rng, next)
  | m :: ms' =>
      '(vt, rng, next) ← add_voter e vt rng rnd next m;
      add_voters e vt rng rnd next ms'
  end.

Lemma group_key_eq rnd i : 0 <= i < 2 ^ 16 -> group_key rnd i = rnd * 2 ^ 16 + i.
Proof. intros Hi. apply lor_shiftl; lia. Qed.

Lemma group_key_inj r i r' i' :
  0 <= i < 2 ^ 16 -> 0 <= i' < 2 ^ 16 -> group_key r i = group_key r' i' -> r = r' /\ i = i'.
Proof. intros Hi Hi'. rewrite !group_key_eq by done. lia. Qed.

(** The voters of round [rnd] in the order of their indices are [l]. *)
Record shuffled (rnd : Z) (l : list Z) (vt : vote_table) : Prop := {
  sh_keyed : Table.keyed member vt;
  sh_index : forall k v, vt !! k = Some v -> 0 <= index v < 2 ^ 16;
  sh_order : forall (i : nat) m,
    l !! i = Some m <-> exists v, vt !! m = Some v /\ round v = rnd /\ index v = Z.of_nat i
}.

Lemma shuffled_empty rnd : shuffled rnd [] ∅.
Proof.
  split; [apply Table.keyed_empty | intros k v H; by rewrite lookup_empty in H |].
  intros i m. rewrite lookup_nil. split; [done|]. intros (v & H & _). by rewrite lookup_empty in H.
Qed.

Lemma shuffled_NoDup rnd l vt : shuffled rnd l vt -> NoDup l.
Proof.
  intros Hs. apply NoDup_alt. intros i j m Hi Hj.
  apply (sh_order _ _ _ Hs) in Hi as (v & Hv & _ & Hi). apply (sh_order _ _ _ Hs) in Hj as (v' & Hv' & _ & Hj).
  rewrite Hv in Hv'. injection Hv' as <-. lia.
Qed.

(** Appending the new voter itself. *)
Lemma shuffled_append rnd l vt m :
  shuffled rnd l vt -> Z.of_nat (length l) < 2 ^ 16 -> vt !! m = None ->
  shuffled rnd (l ++ [m]) (<[m := mk_vote m rnd (Z.of_nat (length l)) 0]> vt).
Proof.
  intros Hs Hl Hm. split.
  - by apply Table.keyed_insert; [apply (sh_keyed _ _ _ Hs)|].
  - intros k v [[<- <-]|[_ Hv]]%lookup_insert_Some; [cbn; lia | by eapply sh_index].
  - intros i x. rewrite lookup_app_Some, list_lookup_singleton_Some, (sh_order _ _ _ Hs). split.
    + intros [(v & Hv & Hr & Hi)|(Hi & Hi' & ->)].
      * exists v. rewrite lookup_insert_ne by congruence. done.
      * eexists. rewrite lookup_insert_eq. split; [done|]. cbn. split; [done|]. f_equal. lia.
    + intros (v & [[<- <-]|[Hne Hv]]%lookup_insert_Some & Hr & Hi); cbn in *.
      * right. split; [lia|]. split; [lia|done].
      * left. eauto.
Qed.

(** Swapping the voter at [pos] to the end and the new one into its place. *)
Lemma shuffled_swap rnd l vt m (pos : nat) old v :
  shuffled rnd l vt -> Z.of_nat (length l) < 2 ^ 16 -> vt !! m = None ->
  l !! pos = Some old -> vt !! old = Some v ->
  shuffled rnd (<[pos := m]> l ++ [old])
    (<[m := mk_vote m rnd (Z.of_nat pos) 0]> (<[old := v <| index := Z.of_nat (length l) |>]> vt)).
Proof.
  intros Hs Hl Hm Hpos Hv. pose proof Hpos as (v' & Hv' & Hr & Hi)%(sh_order _ _ _ Hs).
  rewrite Hv in Hv'. injection Hv' as <-.
  pose proof (lookup_lt_Some _ _ _ Hpos) as Hlt. assert (m <> old) as Hmo by congruence.
  split.
  - apply Table.keyed_insert; [|done].
    apply Table.keyed_insert; [apply (sh_keyed _ _ _ Hs)|]. cbn. by apply (sh_keyed _ _ _ Hs).
  - intros k x [[<- <-]|[_ [[<- <-]|[_ Hx]]%lookup_insert_Some]]%lookup_insert_Some;
      [cbn; lia | cbn; lia | by eapply sh_index].
  - intros i x. rewrite lookup_app_Some, list_lookup_singleton_Some, length_insert, list_lookup_insert_Some.
    split.
    + intros [[(-> & <- & _)|(Hne & Hx)]|(Hge & Hi0 & <-)].
      * eexists. rewrite lookup_insert_eq. done.
      * apply (sh_order _ _ _ Hs) in Hx as (w & Hw & Hwr & Hwi).
        assert (old <> x) by (intros <-; rewrite Hv in Hw; injection Hw as <-; lia).
        exists w. rewrite !lookup_insert_ne by congruence. done.
      * eexists. rewrite lookup_insert_ne, lookup_insert_eq by done. split; [done|]. cbn.
        split; [done|]. f_equal. lia.
    + intros (w & [[<- <-]|[Hn1 [[<- <-]|[Hn2 Hw]]%lookup_insert_Some]]%lookup_insert_Some & Hwr & Hwi);
        cbn in *.
      * left. left. split_and!; [lia|done|lia].
      * right. split; [lia|]. split; [lia|done].
      * left. right. split; [|by apply (sh_order _ _ _ Hs); eauto].
        intros ->. apply Hn2. assert (l !! i = Some x) as Hx by (apply (sh_order _ _ _ Hs); eauto).
        congruence.
Qed.

Lemma insert_swap_perm (l : list Z) (pos : nat) m old :
  l !! pos = Some old -> <[pos := m]> l ++ [old] ≡ₚ l ++ [m].
Proof.
  intros Hp. rewrite insert_take_drop by (by eapply lookup_lt_Some).
  rewrite <- (take_drop_middle l pos old Hp) at 3. solve_Permutation.
Qed.

(** Finding the row to move: keys of the index are unique. *)
Lemma find_pos rnd l vt (pos : nat) old :
  shuffled rnd l vt -> Z.of_nat (length l) <= 2 ^ 16 -> l !! pos = Some old ->
  Table.index_find by_index vt (group_key rnd (Z.of_nat pos)) = Some old.
Proof.
  intros Hs Hl Hp. pose proof (lookup_lt_Some _ _ _ Hp).
  pose proof Hp as (v & Hv & Hr & Hi)%(sh_order _ _ _ Hs).
  destruct (Table.index_find_is_Some by_index vt (group_key rnd (Z.of_nat pos)) old v Hv) as [k Hk].
  { unfold by_index. by rewrite Hr, Hi. }
  rewrite Hk. apply Table.index_find_Some in Hk as (w & Hw & Hkey). unfold by_index in Hkey.
  apply group_key_inj in Hkey as [Hwr Hwi]; [|by eapply sh_index|lia].
  assert (l !! pos = Some k) as Hk by (apply (sh_order _ _ _ Hs); eauto). congruence.
Qed.

Lemma add_voter_shuffled e vt rng rnd l m :
  env_ok e -> shuffled rnd l vt -> Z.of_nat (length l) + 1 < 2 ^ 16 -> vt !! m = None ->
  exists vt' rng' l', add_voter e vt rng rnd (Z.of_nat (length l)) m
      = Ok (vt', rng', Z.of_nat (length l')) /\
    shuffled rnd l' vt' /\ l' ≡ₚ l ++ [m] /\ dom vt' = dom vt ∪ {[ m ]}.
Proof.
  intros He Hs Hl Hm. unfold add_voter.
  pose proof (Rng.uniform_range e (Z.of_nat (length l)) rng He ltac:(lia)) as Hu.
  destruct (Rng.uniform e (Z.of_nat (length l)) rng) as [pos rng']. cbn in Hu.
  destruct (Z.eqb_spec pos (Z.of_nat (length l))) as [->|Hne]; cbn [negb mbind result_bind].
  - exists (<[m := mk_vote m rnd (Z.of_nat (length l)) 0]> vt), rng', (l ++ [m]).
    unfold Table.emplace. cbn [member]. rewrite Hm. cbn [mbind result_bind].
    rewrite wrap_small, length_app by lia. cbn [length].
    split; [do 2 f_equal; lia|]. split; [apply shuffled_append; [done|lia|done]|].
    split; [done|]. rewrite dom_insert_L. set_solver.
  - destruct (lookup_lt_is_Some_2 l (Z.to_nat pos)) as [old Hold]; [lia|].
    rewrite <- (Z2Nat.id pos) by lia. rewrite (find_pos rnd l vt _ old Hs ltac:(lia) Hold).
    pose proof Hold as (v & Hv & Hr & Hi)%(sh_order _ _ _ Hs). cbn [some_or mbind result_bind].
    unfold Table.modify. rewrite Hv. cbn [some_or mbind result_bind].
    rewrite check_true; [|cbn; apply Z.eqb_eq; symmetry; exact (sh_keyed _ _ _ Hs _ _ Hv)].
    assert (m <> old) by congruence.
    unfold Table.emplace. cbn [member mbind result_bind]. rewrite lookup_insert_ne, Hm by done.
    cbn [mbind result_bind].
    eexists _, rng', (<[Z.to_nat pos := m]> l ++ [old]).
    rewrite wrap_small by lia. split; [|split; [by apply shuffled_swap; [|lia|..]|split]].
    + do 2 f_equal. rewrite length_app, length_insert. cbn [length]. lia.
    + by apply insert_swap_perm.
    + apply elem_of_dom_2 in Hv. rewrite !dom_insert_L. set_solver.
Qed.

Lemma add_voters_shuffled e ms : env_ok e -> forall vt rng rnd l,
  shuffled rnd l vt -> NoDup ms -> (forall m, m ∈ ms -> vt !! m = None) ->
  Z.of_nat (length l + length ms) < 2 ^ 16 ->
  exists vt' rng' l', add_voters e vt rng rnd (Z.of_nat (length l)) ms
      = Ok (vt', rng', Z.of_nat (length l')) /\ shuffled rnd l' vt' /\ l' ≡ₚ l ++ ms.
Proof.
  intros He. induction ms as [|m ms IH]; intros vt rng rnd l Hs Hn Hf Hl.
  - exists vt, rng, l. rewrite app_nil_r. done.
  - apply NoDup_cons in Hn as [Hm Hn]. cbn [length] in Hl.
    destruct (add_voter_shuffled e vt rng rnd l m He Hs ltac:(lia) ltac:(apply Hf; set_solver))
      as (vt1 & rng1 & l1 & H1 & Hs1 & Hp1 & Hd1).
    assert (length l1 = S (length l)) as Hl1 by (rewrite Hp1, length_app; cbn; lia).
    destruct (IH vt1 rng1 rnd l1 Hs1 Hn) as (vt2 & rng2 & l2 & H2 & Hs2 & Hp2).
    { intros x Hx. apply not_elem_of_dom. rewrite Hd1. 
      pose proof (Hf x ltac:(set_solver)) as Hx'. apply not_elem_of_dom in Hx'. set_solver. }
    { rewrite Hl1. lia. }
    exists vt2, rng2, l2. cbn [add_voters]. rewrite H1. cbn [mbind result_bind]. 
    split; [exact H2|]. split; [done|]. rewrite Hp2, Hp1, <- app_assoc. done.
Qed.

(** C15: the incremental shuffle is a bijection: for any random source, adding
    the distinct voters [ms] succeeds and numbers them 0 to N-1 without gaps
    or repetitions: there is an arrangement [l] of exactly these voters in
    which the voter at each position is the one whose row holds that index. *)
Theorem shuffle_is_bijection (e : env) (rng : Rng.election_rng) (rnd : Z) (ms : list Z) :
  env_ok e -> NoDup ms -> Z.of_nat (length ms) < 2 ^ 16 ->
  exists vt rng' l,
    add_voters e ∅ rng rnd 0 ms = Ok (vt, rng', Z.of_nat (length ms)) /\
    l ≡ₚ ms /\
    forall (i : nat) m,
      l !! i = Some m <-> exists v, vt !! m = Some v /\ round v = rnd /\ index v = Z.of_nat i.
Proof.
  intros He Hn Hl.
  destruct (add_voters_shuffled e ms He ∅ rng rnd [] (shuffled_empty rnd) Hn)
    as (vt & rng' & l & H & Hs & Hp); [set_solver | exact Hl |].
  exists vt, rng', l. cbn [app] in Hp. rewrite <- (Permutation_length Hp).
  split; [exact H|]. split; [done|]. apply (sh_order _ _ _ Hs).
Qed.

Lemma shuffle_is_bijection_witness :
  exists vt rng' l,
    add_voters Host.demo_env ∅ (Rng.init 5) 0 0 [11; 22; 33] = Ok (vt, rng', 3) /\ l ≡ₚ [11; 22; 33] /\
    forall (i : nat) m,
      l !! i = Some m <-> exists v, vt !! m = Some v /\ round v = 0 /\ index v = Z.of_nat i.
Proof.
  apply (shuffle_is_bijection Host.demo_env (Rng.init 5) 0 [11; 22; 33] Host.demo_env_ok).
  - repeat constructor; set_solver.
  - reflexivity.
Defined.

End Shuffle.

(** The vote table as seats: the voters of a round sit at consecutive indices.
    What the loops of [contracts/eden/src/elections.cpp] over the index of the
    table ([finish_group], [extract_board], [add_voter]) do to the seats. *)
Open Scope list_scope.
Open Scope Z_scope.

Module Seats.
Import Votes.

(** ** Seats *)

(** Round [r]: [l] sits at [lo], [lo + 1], ...; round [r + 1]: [l'] sits at
    0, 1, ...; nobody else is in the table. *)
Record seats (r lo : Z) (l l' : list Z) (vt : vote_table) : Prop := {
  seats_keyed : Table.keyed member vt;
  seats_index : forall k v, vt !! k = Some v -> 0 <= index v < 2 ^ 16;
  seats_rounds : forall k v, vt !! k = Some v -> round v = r \/ round v = r + 1;
  seats_this : forall (i : nat) m,
    l !! i = Some m <-> exists v, vt !! m = Some v /\ round v = r /\ index v = lo + Z.of_nat i;
  seats_next : forall (i : nat) m,
    l' !! i = Some m <-> exists v, vt !! m = Some v /\ round v = r + 1 /\ index v = Z.of_nat i;
  seats_low : forall k v, vt !! k = Some v -> round v = r -> lo <= index v;
  seats_bound : 0 <= lo /\ lo + Z.of_nat (length l) < 2 ^ 16 /\ Z.of_nat (length l') < 2 ^ 16
}.

Lemma seats_empty r lo : 0 <= lo < 2 ^ 16 -> seats r lo [] [] ∅.
Proof.
  intros Hlo.
  assert (forall k v, (∅ : vote_table) !! k = Some v -> False) as He.
  { intros k v H. by rewrite lookup_empty in H. }
  split; [apply Table.keyed_empty | try (intros; exfalso; by eapply He).. | cbn; lia].
  all: intros i m; rewrite lookup_nil; split; [done|]; intros (v & H & _); by apply He in H.
Qed.

Section seats.
Context {r lo : Z} {l l' : list Z} {vt : vote_table} (Hs : seats r lo l l' vt).

Lemma seats_row k v :
  vt !! k = Some v ->
  (round v = r /\ exists i : nat, l !! i = Some k /\ index v = lo + Z.of_nat i) \/
  (round v = r + 1 /\ exists i : nat, l' !! i = Some k /\ index v = Z.of_nat i).
Proof using Hs.
  intros Hk. pose proof (seats_index _ _ _ _ _ Hs _ _ Hk).
  destruct (seats_rounds _ _ _ _ _ Hs _ _ Hk) as [Hr|Hr]; [left|right]; (split; [done|]).
  - pose proof (seats_low _ _ _ _ _ Hs _ _ Hk Hr). exists (Z.to_nat (index v - lo)).
    split; [|lia]. apply (seats_this _ _ _ _ _ Hs). exists v. split_and!; [done|done|lia].
  - exists (Z.to_nat (index v)). split; [|lia].
    apply (seats_next _ _ _ _ _ Hs). exists v. split_and!; [done|done|lia].
Qed.

(** No two rows have the same place. *)
Lemma seats_unique k k' v v' :
  vt !! k = Some v -> vt !! k' = Some v' -> by_index v = by_index v' -> k = k'.
Proof using Hs.
  intros Hk Hk' He. unfold by_index in He.
  apply Shuffle.group_key_inj in He as [Hr Hi]; try by eapply (seats_index _ _ _ _ _ Hs).
  destruct (seats_row _ _ Hk) as [(H1 & i & Hl & Hx)|(H1 & i & Hl & Hx)],
    (seats_row _ _ Hk') as [(H2 & j & Hl' & Hy)|(H2 & j & Hl' & Hy)]; try lia;
    assert (i = j) as -> by lia; congruence.
Qed.

Lemma seats_key k v : vt !! k = Some v -> by_index v = round v * 2 ^ 16 + index v.
Proof using Hs. intros Hk. apply Shuffle.group_key_eq. by eapply (seats_index _ _ _ _ _ Hs). Qed.

Lemma seats_member m : m ∈ l -> is_Some (vt !! m).
Proof using Hs. intros [i (v & Hv & _)%(seats_this _ _ _ _ _ Hs)]%list_elem_of_lookup. eauto. Qed.

Lemma seats_NoDup : NoDup l.
Proof using Hs.
  apply NoDup_alt. intros i j m Hi Hj.
  apply (seats_this _ _ _ _ _ Hs) in Hi as (v & Hv & _ & Hi), Hj as (v' & Hv' & _ & Hj).
  rewrite Hv in Hv'. injection Hv' as <-. lia.
Qed.
Lemma seats_NoDup_next : NoDup l'.
Proof using Hs.
  apply NoDup_alt. intros i j m Hi Hj.
  apply (seats_next _ _ _ _ _ Hs) in Hi as (v & Hv & _ & Hi), Hj as (v' & Hv' & _ & Hj).
  rewrite Hv in Hv'. injection Hv' as <-. lia.
Qed.

(** ** Iterators of the index *)

(** The iterator that walks round [r]: at its first seat, or past them. *)
Definition at_seat (r lo : Z) (l : list Z) (vt : vote_table) (it : option (Z * Z)) : Prop :=
  match l with
  | m :: _ => it = Some (group_key r lo, m)
  | [] => forall e, it = Some e -> exists v, vt !! e.2 = Some v /\ round v = r + 1
  end.

Lemma entry_row e : e ∈ Table.index by_index vt -> exists v, vt !! e.2 = Some v /\ by_index v = e.1.
Proof using. destruct e as [s k]. by intros H%Table.elem_of_index. Qed.

Lemma head_filter_least (P : Z * Z -> Prop) `{!forall x, Decision (P x)} (ix : list (Z * Z)) x y :
  StronglySorted Table.idx_le ix -> head (filter P ix) = Some x -> y ∈ ix -> P y -> Table.idx_le x y.
Proof using.
  intros Hsort. induction Hsort as [|z ix Hsort IH Hz]; [done|]. rewrite filter_cons.
  destruct (decide (P z)) as [Hp|Hp].
  - intros [= ->] [->|Hy]%elem_of_cons _; [unfold Table.idx_le; lia|].
    rewrite Forall_forall in Hz. by apply Hz.
  - intros Hh [->|Hy]%elem_of_cons Hyp; [done|]. by apply IH.
Qed.

(** A filter of the index that lets pass exactly the places from seat [j] on
    starts at that seat. *)
Lemma first_entry (j : nat) (P : Z * Z -> Prop) `{!forall x, Decision (P x)} :
  (forall e v, vt !! e.2 = Some v -> by_index v = e.1 ->
     (P e <-> group_key r (lo + Z.of_nat j) <= e.1)) ->
  (j <= length l)%nat ->
  at_seat r (lo + Z.of_nat j) (drop j l) vt (head (filter P (Table.index by_index vt))).
Proof using Hs.
  intros HP Hj. pose proof (seats_bound _ _ _ _ _ Hs) as (Hlo & Hhi & _).
  unfold at_seat. case_eq (drop j l); [intros El | intros m rest El].
  - intros e He%Table.head_filter_Some. destruct He as [(v & Hv & Hk)%entry_row Hp]. exists v.
    split; [done|]. apply (HP _ v Hv Hk) in Hp.
    destruct (seats_row _ _ Hv) as [(Hr & i & Hi & Hx)|[Hr _]]; [exfalso|done].
    apply (f_equal length) in El. rewrite length_drop in El. cbn in El.
    apply lookup_lt_Some in Hi. rewrite <- Hk, (seats_key _ _ Hv), Shuffle.group_key_eq in Hp by lia. lia.
  - assert (l !! j = Some m) as Hm by (rewrite <- (Nat.add_0_r j), <- lookup_drop, El; done).
    pose proof (lookup_lt_Some _ _ _ Hm). pose proof Hm as (v & Hv & Hr & Hi)%(seats_this _ _ _ _ _ Hs).
    set (key := group_key r (lo + Z.of_nat j)) in *.
    assert (by_index v = key) as Hk by (unfold by_index; by rewrite Hr, Hi).
    assert ((key, m) ∈ Table.index by_index vt) as Hin by (apply Table.elem_of_index; eauto).
    assert (P (key, m)) as Hp by (apply (HP _ v); [done|done|cbn; lia]).
    destruct (head (filter P (Table.index by_index vt))) as [e|] eqn:Eh;
      [|by eapply Table.head_filter_None in Eh; [exfalso; apply Eh|]].
    pose proof (head_filter_least P _ _ _ (Table.index_sorted by_index vt) Eh Hin Hp) as Hle.
    apply Table.head_filter_Some in Eh as [(w & Hw & Hkw)%entry_row Hpe].
    apply (HP _ w Hw Hkw) in Hpe. unfold Table.idx_le in Hle. cbn in Hle.
    assert (e.1 = key) as He1 by lia. destruct e as [s k]. cbn in *. subst s.
    assert (k = m) as -> by (eapply seats_unique; [exact Hw | exact Hv | congruence]). by rewrite He1.
Qed.

Lemma lower_bound_seat :
  at_seat r lo l vt (Table.index_lower_bound by_index vt (group_key r lo)).
Proof using Hs.
  pose proof (first_entry 0 (fun sk => group_key r lo <= sk.1)) as H. rewrite Z.add_0_r in H.
  apply H; [done|lia].
Qed.

Lemma next_seat m rest :
  l = m :: rest -> at_seat r (lo + 1) rest vt (Table.index_next by_index vt (group_key r lo, m)).
Proof using Hs.
  intros El. pose proof (seats_bound _ _ _ _ _ Hs) as (Hlo & Hhi & _). rewrite El in Hhi. cbn in Hhi.
  pose proof (first_entry 1 (fun sk => Table.idx_le (group_key r lo, m) sk /\ sk <> (group_key r lo, m))) as H.
  rewrite El in H. apply H; [|cbn; lia]. clear H.
  intros [s k] v Hv Hk. cbn [fst snd] in Hv, Hk |- *. subst s.
  rewrite (seats_key _ _ Hv), !Shuffle.group_key_eq by lia. unfold Table.idx_le. cbn [fst snd].
  destruct (proj1 (seats_this _ _ _ _ _ Hs 0%nat m)) as (w & Hw & Hr & Hi); [by rewrite El|].
  assert (round v * 2 ^ 16 + index v = r * 2 ^ 16 + lo -> k = m) as Hu.
  { intros He. eapply seats_unique; [exact Hv | exact Hw |].
    rewrite (seats_key _ _ Hv), (seats_key _ _ Hw). lia. }
  split.
  - intros [Hle Hne]. destruct (Z.eq_dec (round v * 2 ^ 16 + index v) (r * 2 ^ 16 + lo)) as [He|]; [|lia].
    exfalso. apply Hne. rewrite (Hu He), He. done.
  - intros Hle. split; [lia|]. intros [= He _]. lia.
Qed.

End seats.

(** ** Emptying seats *)

Lemma seats_pop r lo m rest l' vt : seats r lo (m :: rest) l' vt -> seats r (lo + 1) rest l' (delete m vt).
Proof.
  intros Hs. pose proof (seats_bound _ _ _ _ _ Hs) as (Hlo & Hhi & Hl'). cbn [length] in Hhi.
  pose proof (seats_NoDup Hs) as [Hm _]%NoDup_cons.
  destruct (proj1 (seats_this _ _ _ _ _ Hs 0%nat m) eq_refl) as (v & Hv & Hr & Hi).
  split.
  - apply Table.keyed_delete, Hs.
  - intros k x [_ Hx]%lookup_delete_Some. by eapply (seats_index _ _ _ _ _ Hs).
  - intros k x [_ Hx]%lookup_delete_Some. by eapply (seats_rounds _ _ _ _ _ Hs).
  - intros i x. change (rest !! i) with ((m :: rest) !! S i). rewrite (seats_this _ _ _ _ _ Hs). split.
    + intros (w & Hw & Hwr & Hwi). exists w. rewrite lookup_delete_ne; [split_and!; [done|done|lia]|].
      intros ->. rewrite Hv in Hw. injection Hw as <-. lia.
    + intros (w & [_ Hw]%lookup_delete_Some & Hwr & Hwi). exists w. split_and!; [done|done|lia].
  - intros i x. rewrite (seats_next _ _ _ _ _ Hs). split.
    + intros (w & Hw & Hwr & Hwi). exists w. rewrite lookup_delete_ne; [done|].
      intros ->. rewrite Hv in Hw. injection Hw as <-. lia.
    + intros (w & [_ Hw]%lookup_delete_Some & Hw'). eauto.
  - intros k x [Hne Hx]%lookup_delete_Some Hxr.
    destruct (seats_row Hs _ _ Hx) as [(_ & i & Hk & Hxi)|[? _]]; [|lia].
    destruct i; [injection Hk as <-; done | lia].
  - lia.
Qed.

Lemma at_seat_pop r lo m rest l' vt it :
  seats r lo (m :: rest) l' vt -> at_seat r (lo + 1) rest vt it -> at_seat r (lo + 1) rest (delete m vt) it.
Proof.
  intros Hs. destruct rest as [|m' rest]; [|done]. intros H e He.
  destruct (proj1 (seats_this _ _ _ _ _ Hs 0%nat m) eq_refl) as (v & Hv & Hr & Hi).
  destruct (H e He) as (w & Hw & Hwr). exists w. rewrite lookup_delete_ne; [done|].
  intros Heq. rewrite <- Heq, Hv in Hw. injection Hw as <-. lia.
Qed.

(** Taking a group from the table succeeds and takes the voters of its
    seats. *)
Lemma take_group_seats r l' gs g : forall lo rest vt it t,
  seats r lo (g ++ rest) l' vt -> at_seat r lo (g ++ rest) vt it ->
  exists vt' it' rows,
    take_group (length g) gs vt it t = Ok (vt', it', foldl (count_vote gs) t rows) /\
    member <$> rows = g /\ Forall (fun v => vt !! member v = Some v) rows /\
    (forall k, vt' !! k = if decide (k ∈ g) then None else vt !! k) /\
    let lo' := lo + Z.of_nat (length g) in seats r lo' rest l' vt' /\ at_seat r lo' rest vt' it'.
Proof.
  induction g as [|m g IH]; intros lo rest vt it t Hs Hit.
  - exists vt, it, []. rewrite Z.add_0_r. by split_and!.
  - cbn [app at_seat] in Hs, Hit. subst it.
    destruct (proj1 (seats_this _ _ _ _ _ Hs 0%nat m) eq_refl) as (v & Hv & Hr & Hi).
    pose proof (seats_keyed _ _ _ _ _ Hs _ _ Hv) as Hkv.
    pose proof (next_seat Hs m (g ++ rest) eq_refl) as Hnext.
    destruct (IH (lo + 1) rest (delete m vt) (Table.index_next by_index vt (group_key r lo, m))
      (count_vote gs t v)) as (vt' & it' & rows & Ht & Hg & Hrows & Hlk & Hs' & Hit');
      [by apply seats_pop | by eapply at_seat_pop |].
    exists vt', it', (v :: rows). cbn [take_group length some_or mbind result_bind snd]. rewrite Hv.
    cbn [some_or mbind result_bind]. unfold Table.erase at 1. rewrite Hv. cbn [some_or mbind result_bind].
    split; [exact Ht|]. split; [cbn; by rewrite Hg, Hkv|]. split; [constructor; [by rewrite Hkv|]|].
    { eapply Forall_impl; [exact Hrows|]. intros w Hw. by apply lookup_delete_Some in Hw as [_ Hw]. }
    split.
    + intros k. rewrite Hlk. destruct (decide (k ∈ g)).
      * rewrite decide_True by set_solver. done.
      * destruct (decide (k = m)) as [->|Hne].
        -- rewrite lookup_delete_eq, decide_True by set_solver. done.
        -- rewrite lookup_delete_ne, decide_False by set_solver. done.
    + cbn zeta in *. replace (lo + Z.of_nat (S (length g))) with (lo + 1 + Z.of_nat (length g)) by lia. done.
Qed.

(** The board is everyone seated, in order, and the table is left empty. *)
Lemma seats_nil_empty r lo vt : seats r lo [] [] vt -> vt = ∅.
Proof.
  intros Hs. apply map_empty. intros k. apply eq_None_not_Some. intros [v Hv].
  destruct (seats_row Hs _ _ Hv) as [(_ & i & Hi & _)|(_ & i & Hi & _)]; by rewrite lookup_nil in Hi.
Qed.

Lemma extract_board_seats r l : forall fuel lo vt acc,
  seats r lo l [] vt -> (length acc + length l < 12)%nat -> (length l < fuel)%nat ->
  forall it, at_seat r lo l vt it -> extract_board_loop fuel vt it acc = Ok (∅, acc ++ l).
Proof.
  induction l as [|m l IH]; intros fuel lo vt acc Hs Hb Hf it Hit.
  - destruct it as [e|].
    { destruct (Hit e eq_refl) as (v & Hv & Hr). exfalso.
      destruct (seats_row Hs _ _ Hv) as [(? & _)|(_ & i & Hi & _)]; [lia | by rewrite lookup_nil in Hi]. }
    rewrite (seats_nil_empty _ _ _ Hs), app_nil_r. by destruct fuel.
  - cbn [at_seat] in Hit. subst it. destruct fuel as [|fuel]; [lia|]. cbn [length] in *.
    destruct (proj1 (seats_this _ _ _ _ _ Hs 0%nat m) eq_refl) as (v & Hv & Hr & Hi).
    pose proof (seats_keyed _ _ _ _ _ Hs _ _ Hv) as Hkv.
    cbn [extract_board_loop snd]. rewrite Hv. cbn [some_or mbind result_bind].
    rewrite check_true; [|apply Nat.ltb_lt; rewrite length_app; cbn; lia]. cbn [mbind result_bind].
    unfold Table.erase at 1. rewrite Hv. cbn [some_or mbind result_bind].
    rewrite (IH fuel (lo + 1) (delete m vt)).
    + rewrite Hkv, <- app_assoc. done.
    + by apply seats_pop.
    + rewrite length_app. cbn. lia.
    + lia.
    + eapply at_seat_pop; [exact Hs|]. by apply (next_seat Hs).
Qed.

Lemma seats_size r lo l l' vt : seats r lo l l' vt -> (length l <= size vt)%nat.
Proof.
  intros Hs. rewrite <- size_dom. rewrite <- (size_list_to_set (C:=gset Z) l) by apply (seats_NoDup Hs).
  apply subseteq_size. intros m Hm%elem_of_list_to_set. apply elem_of_dom. by apply (seats_member Hs).
Qed.

Lemma extract_board_all r lo l vt :
  seats r lo l [] vt -> l <> [] -> (length l < 12)%nat -> extract_board vt = Ok (∅, l).
Proof.
  intros Hs Hne Hl. unfold extract_board. pose proof (seats_size _ _ _ _ _ Hs).
  rewrite (extract_board_seats r l _ lo vt [] Hs); [| cbn; lia | lia |].
  - cbn. rewrite bool_decide_eq_false_2 by done. done.
  - pose proof (first_entry Hs 0 (fun _ => True)) as H0. rewrite Z.add_0_r in H0.
    assert (filter (fun _ : Z * Z => True) (Table.index by_index vt) = Table.index by_index vt) as Hf.
    { generalize (Table.index by_index vt). intros ix. induction ix; [done|].
      rewrite filter_cons, decide_True by done. by f_equal. }
    rewrite Hf in H0. apply H0; [|lia].
    intros e v Hv <-. split; [intros _|done]. pose proof (seats_bound _ _ _ _ _ Hs) as (Hlo & Hhi & _).
    rewrite (seats_key Hs _ _ Hv), Shuffle.group_key_eq by lia.
    destruct (seats_row Hs _ _ Hv) as [(-> & i & Hi & ->)|(_ & i & Hi & _)]; [lia | by rewrite lookup_nil in Hi].
Qed.

(** ** Taking a seat *)

(** Apart from the new voter, adding one changes at most the index of another
    of the same round. *)
Lemma add_voter_rows e vt rng rnd next m vt' rng' idx :
  env_ok e -> (forall k v, vt !! k = Some v -> 0 <= index v < 2 ^ 16) -> 0 <= next < 2 ^ 16 ->
  add_voter e vt rng rnd next m = Ok (vt', rng', idx) ->
  vt !! m = None /\
  (forall k v, round v <> rnd -> vt' !! k = Some v <-> vt !! k = Some v) /\
  (forall k v, vt' !! k = Some v -> round v = rnd ->
     candidate v = 0 \/ exists v0, vt !! k = Some v0 /\ round v0 = rnd /\ candidate v0 = candidate v) /\
  (forall k v, vt !! k = Some v -> exists v1, vt' !! k = Some v1 /\ round v1 = round v).
Proof.
  intros He Hix Hn H. unfold add_voter in H.
  pose proof (Rng.uniform_range e next rng He ltac:(lia)) as Hu.
  destruct (Rng.uniform e next rng) as [pos rng1]. cbn [fst] in Hu.
  apply bind_Ok in H as (vt1 & H1 & H). apply bind_Ok in H as (vt2 & H2 & H). injection H as <- <- <-.
  apply Table.emplace_Ok in H2 as [Hm ->]. cbn [member] in Hm |- *.
  destruct (negb (pos =? next)).
  - apply bind_Ok in H1 as (old & Hold%some_or_Ok & H1).
    apply Table.index_find_Some in Hold as (v & Hv & Hk).
    apply Table.modify_Ok in H1 as (v' & v1 & Hv' & [= <-] & _ & ->).
    rewrite Hv in Hv'. injection Hv' as <-. unfold by_index in Hk.
    apply Shuffle.group_key_inj in Hk as [Hr _]; [|by eapply Hix|lia].
    apply lookup_insert_None in Hm as [Hm Hne]. split; [done|]. split.
    + intros k w Hw. destruct (decide (k = m)) as [->|Hkm].
      { rewrite lookup_insert_eq, Hm. split; [intros [= <-]; done|done]. }
      rewrite lookup_insert_ne by done. destruct (decide (k = old)) as [->|Hko].
      { rewrite lookup_insert_eq, Hv. split; intros [= <-]; cbn in Hw; congruence. }
      by rewrite lookup_insert_ne.
    + split.
      * intros k w [[<- <-]|[_ [[<- <-]|[_ Hw]]%lookup_insert_Some]]%lookup_insert_Some Hwr;
          [by left | right; by exists v | right; by exists w].
      * intros k w Hw. rewrite lookup_insert_ne by congruence.
        destruct (decide (old = k)) as [<-|Hko]; [rewrite lookup_insert_eq; eexists; split; [done|] |
          rewrite lookup_insert_ne by done; by exists w].
        cbn. congruence.
  - injection H1 as <-. split; [done|]. split.
    + intros k w Hw. destruct (decide (k = m)) as [->|Hkm]; [|by rewrite lookup_insert_ne].
      rewrite lookup_insert_eq, Hm. split; [intros [= <-]; done|done].
    + split; [intros k w [[<- <-]|[_ Hw]]%lookup_insert_Some Hwr; [by left | right; by exists w]|].
      intros k w Hw. rewrite lookup_insert_ne by congruence. by exists w.
Qed.

Lemma seats_shuffled r l vt : seats r 0 l [] vt -> Shuffle.shuffled r l vt.
Proof. intros Hs. split; apply Hs. Qed.
Lemma seats_shuffled_next r lo l l' vt : seats r lo l l' vt -> Shuffle.shuffled (r + 1) l' vt.
Proof. intros Hs. split; apply Hs. Qed.

(** Everyone in round [r + 1] is in round [r] of the next count. *)
Lemma seats_shift r lo l' vt : seats r lo [] l' vt -> seats (r + 1) 0 l' [] vt.
Proof.
  intros Hs. pose proof (seats_bound _ _ _ _ _ Hs) as (Hlo & Hhi & Hl').
  assert (forall k v, vt !! k = Some v -> round v = r + 1) as Hr.
  { intros k v Hv. destruct (seats_row Hs _ _ Hv) as [(_ & i & Hi & _)|[Hr _]]; [by rewrite lookup_nil in Hi|done]. }
  split; [apply Hs | apply Hs | | | | |].
  - intros k v Hv. left. by eapply Hr.
  - apply Hs.
  - intros i m. rewrite lookup_nil. split; [done|]. intros (v & Hv & Hvr & _). apply Hr in Hv. lia.
  - intros k v Hv _. apply (seats_index _ _ _ _ _ Hs) in Hv. lia.
  - cbn. lia.
Qed.

Section taking.
Context (e : env) (He : env_ok e).

(** The first round fills up. *)
Lemma add_voter_first r l vt rng m vt' rng' idx :
  seats r 0 l [] vt -> Z.of_nat (length l) + 1 < 2 ^ 16 ->
  add_voter e vt rng r (Z.of_nat (length l)) m = Ok (vt', rng', idx) ->
  exists l1, seats r 0 l1 [] vt' /\ l1 ≡ₚ l ++ [m] /\ idx = Z.of_nat (length l1).
Proof using He.
  intros Hs Hl H. pose proof (seats_index _ _ _ _ _ Hs) as Hix.
  destruct (add_voter_rows e vt rng r (Z.of_nat (length l)) m _ _ _ He Hix ltac:(lia) H) as (Hm & Hother & _ & _).
  destruct (Shuffle.add_voter_shuffled e vt rng r l m He (seats_shuffled _ _ _ Hs) ltac:(lia) Hm)
    as (vt1 & rng1 & l1 & H1 & Hsh & Hp & _).
  rewrite H in H1. injection H1 as <- <- ->. exists l1. split; [|done].
  assert (forall k v, vt' !! k = Some v -> round v = r) as Hr.
  { intros k v Hv. destruct (Z.eq_dec (round v) r) as [|Hne]; [done|].
    apply Hother in Hv; [|done].
    destruct (seats_row Hs _ _ Hv) as [[? _]|(_ & i & Hi & _)]; [done | by rewrite lookup_nil in Hi]. }
  split; [apply Hsh | apply Hsh | | | | |].
  - intros k v Hv. left. by eapply Hr.
  - apply Hsh.
  - intros i x. rewrite lookup_nil. split; [done|]. intros (v & Hv & Hvr & _). apply Hr in Hv. lia.
  - intros k v Hv _. apply (Shuffle.sh_index _ _ _ Hsh) in Hv. lia.
  - rewrite (Permutation_length Hp), length_app. cbn. lia.
Qed.

(** The next round fills up while this one empties. *)
Lemma add_voter_next r lo l l' vt rng m vt' rng' idx :
  seats r lo l l' vt -> Z.of_nat (length l') + 1 < 2 ^ 16 ->
  add_voter e vt rng (r + 1) (Z.of_nat (length l')) m = Ok (vt', rng', idx) ->
  exists l1, seats r lo l l1 vt' /\ l1 ≡ₚ l' ++ [m] /\ idx = Z.of_nat (length l1).
Proof using He.
  intros Hs Hl H. pose proof (seats_index _ _ _ _ _ Hs) as Hix.
  destruct (add_voter_rows e vt rng (r + 1) (Z.of_nat (length l')) m _ _ _ He Hix ltac:(lia) H) as (Hm & Hother & _ & _).
  destruct (Shuffle.add_voter_shuffled e vt rng (r + 1) l' m He (seats_shuffled_next _ _ _ _ _ Hs) ltac:(lia) Hm)
    as (vt1 & rng1 & l1 & H1 & Hsh & Hp & _).
  rewrite H in H1. injection H1 as <- <- ->. exists l1. split; [|done].
  pose proof (seats_bound _ _ _ _ _ Hs) as (Hlo & Hhi & Hl').
  split; [apply Hsh | apply Hsh | | | apply Hsh | |].
  - intros k v Hv. destruct (Z.eq_dec (round v) (r + 1)) as [|Hne]; [by right|].
    apply Hother in Hv; [|done]. by apply (seats_rounds _ _ _ _ _ Hs) in Hv.
  - intros i x. rewrite (seats_this _ _ _ _ _ Hs).
    split; intros (v & Hv & Hvr & Hvi); exists v; (split; [apply Hother; [lia|done] | done]).
  - intros k v Hv Hvr. apply Hother in Hv; [|lia]. by eapply (seats_low _ _ _ _ _ Hs).
  - rewrite (Permutation_length Hp), length_app. cbn. lia.
Qed.
End taking.

End Seats.
