(* ===== verification/Sessions.v ===== *)
(** Session keys ([contracts/eden/include/sessions.hpp],
    [contracts/eden/src/actions/sessions.cpp]): an account registers up to four keys;
    an action signed by one of them carries a sequence number, which the
    contract accepts at most once.  Operations return the changed table and
    the events they push; Governance.v runs them in the contract's state. *)
From S2P Require Import Prelude Name Time MultiIndex Crypto Host Events.
Open Scope string_scope.
Open Scope list_scope.
Open Scope Z_scope.

Module Sessions.

Record session : Type := mk_session {
  key : public_key; expiration : Z; description : string; sequences : list Z }.
#[global] Instance set_sequences : Setter sequences := fun f s =>
  mk_session (key s) (expiration s) (description s) (f (sequences s)).

Record session_container : Type := mk_container {
  eden_account : Z; earliest_expiration : Z; sessions : list session }.
#[global] Instance set_earliest : Setter earliest_expiration := fun f c =>
  mk_container (eden_account c) (f (earliest_expiration c)) (sessions c).
#[global] Instance set_sessions : Setter sessions := fun f c =>
  mk_container (eden_account c) (earliest_expiration c) (f (sessions c)).

Definition by_expiration (c : session_container) : Z := earliest_expiration c.
Abbreviation table := (gmap Z session_container).

Definition min_expiration (ss : list session) : Z :=
  foldl (fun e s => Z.min e (expiration s)) Time.block_max ss.
Definition set_expiration (c : session_container) : session_container :=
  c <| earliest_expiration := min_expiration (sessions c) |>.

Definition expired (now : Z) (s : session) : Prop := expiration s <= now.
#[global] Instance expired_dec now s : Decision (expired now s).
Proof. unfold expired. apply _. Defined.

Definition expire (now : Z) (c : session_container) : session_container * list event :=
  (c <| sessions ::= filter (fun s => ~ expired now s) |>,
   (fun s => Events.session_del_event (eden_account c) (key s)) <$> filter (expired now) (sessions c)).

(** Each round handles the container that expires first. *)
Fixpoint gc_sessions (now : Z) (tb : table) (remaining : nat) : result (table * list event * nat) :=
  match remaining with
  | O => Ok (tb, [], O)
  | S n =>
      match head (Table.index by_expiration tb) with
      | None => Ok (tb, [], remaining)
      | Some (_, k) =>
          sc ← some_or (Trap "dangling index entry") (tb !! k);
          if earliest_expiration sc <=? now then
            let '(sc', evs) := expire now sc in
            tb ← Table.modify eden_account tb k (fun _ => Ok (set_expiration sc'));
            tb ← (if bool_decide (sessions sc' = []) then Table.erase tb k else Ok tb);
            '(tb, evs', rest) ← gc_sessions now tb n;
            Ok (tb, evs ++ evs', rest)
          else Ok (tb, [], remaining)
      end
  end.

Definition clearall_sessions (tb : table) : table := ∅.

Definition remove_sessions (tb : table) (a : Z) : result (table * list event) :=
  match tb !! a with
  | None => Ok (tb, [])
  | Some c =>
      tb ← Table.erase tb a;
      Ok (tb, (fun s => Events.session_del_event a (key s)) <$> sessions c)
  end.

Definition find_session (k : public_key) (ss : list session) : option (nat * session) :=
  list_find (fun s => key s = k) ss.

(** [newsession] after its checks on the arguments. *)
Definition new_session (now : Z) (tb : table) (a : Z) (k : public_key) (exp : Z) (desc : string)
    : result (table * list event) :=
  let s := mk_session k exp desc [] in
  match tb !! a with
  | None =>
      tb ← Table.emplace eden_account tb (mk_container a exp [s]);
      Ok (tb, [Events.session_new_event a k exp desc])
  | Some sc =>
      let '(sc, evs) := expire now sc in
      _ ← check (bool_decide (find_session k (sessions sc) = None)) "session key already exists";
      let ss := sessions sc ++ [s] in
      let ss := if Nat.ltb 4 (length ss) then tail ss else ss in
      tb ← Table.modify eden_account tb a (fun _ => Ok (set_expiration (sc <| sessions := ss |>)));
      Ok (tb, evs ++ [Events.session_new_event a k exp desc])
  end.

Definition not_found : error := Check "Session key is either expired or not found".

Definition del_session (now : Z) (tb : table) (a : Z) (k : public_key) : result (table * list event) :=
  sc ← some_or not_found (tb !! a);
  '(i, s) ← some_or not_found (find_session k (sessions sc));
  let ev := Events.session_del_event (eden_account sc) (key s) in
  let '(sc, evs) := expire now (sc <| sessions ::= delete i |>) in
  let sc := set_expiration sc in
  tb ← Table.modify eden_account tb a (fun _ => Ok sc);
  tb ← (if bool_decide (sessions sc = []) then Table.erase tb a else Ok tb);
  Ok (tb, ev :: evs).

(** Accepting a sequence number: the session remembers the last 20. *)
Definition duplicate (s : Z) : error := Check ("received duplicate sequence " ++ to_string s)%string.
Definition skips (s : Z) : error := Check ("sequence " ++ to_string s ++ " skips too many")%string.

(** [std::lower_bound], then [insert] unless the number is there. *)
Fixpoint insert_sequence (seqs : list Z) (s : Z) : result (list Z) :=
  match seqs with
  | [] => Ok [s]
  | x :: xs =>
      if x <? s then r ← insert_sequence xs s; Ok (x :: r)
      else if x =? s then Err (duplicate s)
      else Ok (s :: x :: xs)
  end.

Definition accept_sequence (seqs : list Z) (s : Z) : result (list Z) :=
  _ ← (match head seqs, last seqs with
       | Some first, Some lst =>
           if (s <? first) && Nat.leb 20 (length seqs) then Err (duplicate s)
           else if wrap 32 (lst + 10) <? s then Err (skips s) else Ok tt
       | _, _ => if 10 <? s then Err (skips s) else Ok tt
       end);
  seqs ← insert_sequence seqs s;
  Ok (if Nat.ltb 20 (length seqs) then tail seqs else seqs).

(** The signature branch of [run] after the key is recovered. *)
Definition use_session (text : public_key -> string) (now : Z) (tb : table) (a : Z) (recovered : public_key) (s : Z)
    : result (table * list event) :=
  let missing :=
    Check ("Recovered session key " ++ text recovered ++ " is either expired or not found")%string in
  sc ← some_or missing (tb !! a);
  let '(sc, evs) := expire now sc in
  let sc := set_expiration sc in
  '(i, ses) ← some_or missing (find_session recovered (sessions sc));
  seqs ← accept_sequence (sequences ses) s;
  tb ← Table.modify eden_account tb a (fun _ =>
         Ok (sc <| sessions ::= <[i := ses <| sequences := seqs |>]> |>));
  Ok (tb, evs).

(** ** Sequence numbers are accepted once *)

Fixpoint accept_all (seqs : list Z) (ss : list Z) : result (list Z) :=
  match ss with
  | [] => Ok seqs
  | s :: ss' => seqs ← accept_sequence seqs s; accept_all seqs ss'
  end.

Lemma insert_sequence_Ok seqs s r :
  StronglySorted Z.lt seqs -> insert_sequence seqs s = Ok r ->
  StronglySorted Z.lt r /\ s ∉ seqs /\ (r ≡ₚ s :: seqs) /\
  (forall x, head seqs = Some x -> x < s -> head r = Some x).
Proof.
  intros Hs. revert r. induction Hs as [|x xs Hs IH Hx]; intros r H; cbn in H.
  - injection H as <-. split; [repeat constructor|]. split; [apply not_elem_of_nil|]. done.
  - destruct (Z.ltb_spec x s).
    + apply bind_Ok in H as (r' & Hr & H). injection H as <-.
      destruct (IH _ Hr) as (Hsr & Hn & Hp & _). split.
      * constructor; [done|]. rewrite Hp. constructor; done.
      * split; [|split].
        -- rewrite not_elem_of_cons. split; [lia|done].
        -- rewrite Hp. constructor.
        -- intros y [= <-] _. done.
    + destruct (Z.eqb_spec x s); [discriminate|]. injection H as <-.
      assert (Forall (Z.lt s) xs) as Hsx by (eapply Forall_impl; [exact Hx | cbn; lia]).
      split; [|split; [|split]].
      * constructor; [by constructor|]. constructor; [lia|done].
      * rewrite not_elem_of_cons. split; [lia|]. intros Hin. rewrite Forall_forall in Hsx.
        specialize (Hsx _ Hin). lia.
      * done.
      * intros y [= <-]. lia.
Qed.

(** What the session knows of the numbers it has accepted. *)
Record remembers (seqs history : list Z) : Prop := {
  rem_sorted : StronglySorted Z.lt seqs;
  rem_length : (length seqs <= 20)%nat;
  rem_seqs : forall x, x ∈ seqs -> x ∈ history;
  rem_history : forall h, h ∈ history ->
    h ∈ seqs \/ (length seqs = 20%nat /\ exists x, head seqs = Some x /\ h < x)
}.

Lemma accept_sequence_once seqs history s r :
  remembers seqs history -> accept_sequence seqs s = Ok r ->
  s ∉ history /\ remembers r (s :: history).
Proof.
  intros [Hs Hl Hsq Hh] H. unfold accept_sequence in H.
  apply bind_Ok in H as (u & Hc & H). apply bind_Ok in H as (r0 & Hi & H). injection H as <-.
  destruct (insert_sequence_Ok _ _ _ Hs Hi) as (Hsr & Hn & Hp & Hhd).
  assert (length seqs = 20%nat -> exists x, head seqs = Some x /\ x < s) as Hfull.
  { intros H20. destruct seqs as [|x xs]; [done|]. exists x. split; [done|]. cbn [head] in Hc.
    destruct (last (x :: xs)) as [y|] eqn:El; [|by apply last_None in El].
    rewrite H20 in Hc. cbn in Hc. destruct (Z.ltb_spec s x); [discriminate|].
    apply not_elem_of_cons in Hn as [Hn _]. lia. }
  assert (length r0 = S (length seqs)) as Hlr by (by rewrite Hp).
  split.
  - intros Hin. destruct (Hh _ Hin) as [?|(H20 & x & Hx & Hlt)]; [done|].
    destruct (Hfull H20) as (x' & Hx' & Hlt'). assert (x = x') as -> by congruence. lia.
  - destruct (Nat.ltb_spec 20 (length r0)) as [H21|H20].
    + assert (length seqs = 20%nat) as Hl20 by lia. destruct (Hfull Hl20) as (x & Hx & Hlt).
      specialize (Hhd x Hx Hlt). destruct r0 as [|x' r]; [done|]. injection Hhd as ->.
      inversion Hsr as [|? ? Hsr' Hfx]; subst. cbn [tail length] in *.
      assert (forall y, y ∈ r -> x < y) as Hxr by (by apply Forall_forall).
      assert ((x :: r) ≡ₚ (s :: seqs)) as Hp' by done.
      split; [done | cbn; lia | |].
      * intros y Hy. assert (y ∈ s :: seqs) as Hy' by (rewrite <- Hp'; by constructor).
        apply elem_of_cons in Hy' as [->|Hy']; [by constructor | constructor; by apply Hsq].
      * intros h Hin. assert (h ∈ x :: r \/ h < x) as [Hin'|Hlt'].
        { apply elem_of_cons in Hin as [->|Hin]; [left; rewrite Hp'; by constructor|].
          destruct (Hh _ Hin) as [?|(_ & x' & Hx' & Hlt')].
          - left. rewrite Hp'. by constructor.
          - right. assert (x = x') as -> by congruence. done. }
        -- apply elem_of_cons in Hin' as [->|?]; [|by left]. right. split; [lia|].
           destruct r as [|y r]; [cbn in *; lia|]. exists y. split; [done|]. apply Hxr. by constructor.
        -- right. split; [lia|]. destruct r as [|y r]; [cbn in *; lia|]. exists y.
           split; [done|]. specialize (Hxr y ltac:(by constructor)). lia.
    + split; [done | done | |].
      * intros y Hy. rewrite Hp in Hy.
        apply elem_of_cons in Hy as [->|Hy]; [by constructor | constructor; by apply Hsq].
      * intros h Hin. left. rewrite Hp. apply elem_of_cons in Hin as [->|Hin]; [by constructor|].
        destruct (Hh _ Hin) as [?|(H20' & _)]; [by constructor | lia].
Qed.

Lemma accept_all_once seqs history ss r :
  remembers seqs history -> accept_all seqs ss = Ok r ->
  NoDup ss /\ (forall s, s ∈ ss -> s ∉ history) /\ remembers r (rev ss ++ history).
Proof.
  revert seqs history. induction ss as [|s ss IH]; intros seqs history Hr H; cbn in H.
  - injection H as <-. split; [constructor|]. split; [set_solver|done].
  - apply bind_Ok in H as (seqs' & Hs & H).
    destruct (accept_sequence_once _ _ _ _ Hr Hs) as [Hn Hr'].
    destruct (IH _ _ Hr' H) as (Hnd & Hni & Hrem). split; [|split].
    + constructor; [|done]. intros Hin. apply (Hni s Hin). by constructor.
    + intros x [->|Hx]%elem_of_cons; [done|]. specialize (Hni x Hx). 
      rewrite not_elem_of_cons in Hni. tauto.
    + cbn [rev]. by rewrite <- app_assoc.
Qed.

(** Replay protection: whatever numbers a client signs, the numbers one
    session accepts over its life are pairwise different, although the session
    remembers 20 of them at most, in increasing order. *)
Theorem sequences_accepted_once (ss seqs : list Z) :
  accept_all [] ss = Ok seqs ->
  NoDup ss /\ (length seqs <= 20)%nat /\ StronglySorted Z.lt seqs /\ (forall s, s ∈ seqs -> s ∈ ss).
Proof.
  intros H. destruct (accept_all_once [] [] ss seqs) as (Hnd & _ & [Hs Hl Hsq _]); [|done|].
  - split; [constructor | cbn; lia | set_solver | set_solver].
  - split; [done|]. split; [done|]. split; [done|]. intros s Hs'. apply Hsq in Hs'.
    rewrite app_nil_r in Hs'. by apply list_elem_of_In, in_rev, list_elem_of_In.
Qed.

Lemma sequences_accepted_once_witness :
  accept_all [] [3; 1; 2; 12; 9] = Ok [1; 2; 3; 9; 12] /\ NoDup [3; 1; 2; 12; 9].
Proof.
  split; [reflexivity|]. apply (sequences_accepted_once [3; 1; 2; 12; 9] [1; 2; 3; 9; 12]). reflexivity.
Defined.

(** ** What the operations leave of the sessions *)

(** The sessions of an account, of different keys, each in order. *)
Definition orderly (tb : table) : Prop := forall a sc, tb !! a = Some sc ->
  NoDup (key <$> sessions sc) /\ forall ss, ss ∈ sessions sc -> remembers (sequences ss) (sequences ss).

(** The account's session of a key, if it has one, has accepted a number. *)
Definition spent (a : Z) (k : public_key) (q : Z) (tb : table) : Prop := forall sc ss,
  tb !! a = Some sc -> ss ∈ sessions sc -> key ss = k -> remembers (sequences ss) (q :: sequences ss).

(** Sessions only go. *)
Definition kept (tb tb' : table) : Prop := forall a sc', tb' !! a = Some sc' ->
  exists sc, tb !! a = Some sc /\ sessions sc' `sublist_of` sessions sc.
#[global] Instance kept_preorder : PreOrder kept.
Proof.
  split; [by intros tb a sc H; exists sc|]. intros t1 t2 t3 H12 H23 a sc H.
  destruct (H23 _ _ H) as (sc2 & H2 & Hs2). destruct (H12 _ _ H2) as (sc1 & H1 & Hs1).
  exists sc1. split; [done|]. by etransitivity.
Qed.

Lemma sublist_elem {A} (x : A) l k : x ∈ l -> l `sublist_of` k -> x ∈ k.
Proof. intros Hx Hs%sublist_submseteq. by eapply elem_of_submseteq. Qed.
Lemma kept_orderly tb tb' : kept tb tb' -> orderly tb -> orderly tb'.
Proof.
  intros Hk Ho a sc' H. destruct (Hk _ _ H) as (sc & Hsc & Hs). destruct (Ho _ _ Hsc) as [Hn Hr]. split.
  - eapply sublist_NoDup; [exact Hn|]. by apply fmap_sublist.
  - intros ss Hss. apply Hr. by eapply sublist_elem.
Qed.
Lemma kept_spent a k q tb tb' : kept tb tb' -> spent a k q tb -> spent a k q tb'.
Proof.
  intros Hk Hs sc' ss H Hss. destruct (Hk _ _ H) as (sc & Hsc & Hsub). apply (Hs sc); [done|].
  by eapply sublist_elem.
Qed.

Lemma kept_delete tb a : kept tb (delete a tb).
Proof. intros b sc' [_ H]%lookup_delete_Some. by exists sc'. Qed.
Lemma kept_insert tb a sc sc' :
  tb !! a = Some sc -> sessions sc' `sublist_of` sessions sc -> kept tb (<[a := sc']> tb).
Proof.
  intros H Hs b x [[<- <-]|[_ Hx]]%lookup_insert_Some; [by exists sc | by exists x].
Qed.
Lemma expire_sessions now sc : sessions (expire now sc).1 = filter (fun s => ~ expired now s) (sessions sc).
Proof. done. Qed.

Lemma shrink_kept tb a sc sc' tb1 tb2 :
  tb !! a = Some sc -> sessions sc' `sublist_of` sessions sc ->
  Table.modify eden_account tb a (fun _ => Ok sc') = Ok tb1 ->
  (if bool_decide (sessions sc' = []) then Table.erase tb1 a else Ok tb1) = Ok tb2 -> kept tb tb2.
Proof.
  intros Ha Hs (x & y & _ & [= <-] & _ & ->)%Table.modify_Ok H. transitivity (<[a := sc']> tb).
  - by eapply kept_insert.
  - destruct (bool_decide _); [apply Table.erase_Ok in H as [_ ->]; apply kept_delete | by injection H as <-].
Qed.

Lemma gc_kept now tb n r : gc_sessions now tb n = Ok r -> kept tb r.1.1.
Proof.
  revert tb r. induction n as [|n IH]; intros tb r H; cbn [gc_sessions] in H; [by injection H as <-|].
  destruct (head _) as [[i k]|]; [|by injection H as <-].
  apply bind_Ok in H as (sc & Hsc%some_or_Ok & H). destruct (_ <=? _); [|by injection H as <-].
  cbn in H. apply bind_Ok in H as (t1 & H1 & H). apply bind_Ok in H as (t2 & H2 & H).
  apply bind_Ok in H as ([[t3 evs] m] & H3 & [= <-]). apply IH in H3. cbn in *.
  etransitivity; [|exact H3]. eapply shrink_kept; [exact Hsc | | exact H1 | exact H2].
  apply sublist_filter.
Qed.
Lemma remove_kept tb a r : remove_sessions tb a = Ok r -> kept tb r.1.
Proof.
  unfold remove_sessions. destruct (tb !! a); [|by intros [= <-]].
  intros (t & [_ ->]%Table.erase_Ok & [= <-])%bind_Ok. apply kept_delete.
Qed.
Lemma clear_kept tb : kept tb (clearall_sessions tb).
Proof. intros a sc H. unfold clearall_sessions in H. by rewrite lookup_empty in H. Qed.
Lemma del_kept now tb a k r : del_session now tb a k = Ok r -> kept tb r.1.
Proof.
  unfold del_session. intros (sc & Hsc%some_or_Ok & H)%bind_Ok.
  apply bind_Ok in H as ([i ss] & _ & H). cbn in H.
  apply bind_Ok in H as (t1 & H1 & H). apply bind_Ok in H as (t2 & H2 & [= <-]).
  eapply shrink_kept; [exact Hsc | | exact H1 | exact H2].
  cbn. etransitivity; [apply sublist_filter | apply sublist_delete].
Qed.

Lemma orderly_empty : orderly ∅.
Proof. intros a sc H. by rewrite lookup_empty in H. Qed.

(** Accepting a number keeps what was accepted before. *)
Lemma accept_remembers seqs s r q :
  remembers seqs (q :: seqs) -> accept_sequence seqs s = Ok r ->
  remembers r (q :: r) /\ remembers r (s :: r) /\ s <> q.
Proof.
  intros Hr H. destruct (accept_sequence_once _ _ _ _ Hr H) as [Hn [H1 H2 H3 H4]].
  split_and!; [| |intros ->; apply Hn; by left].
  1, 2: split; [done|done|intros x Hx; by right|intros x [->|Hx]%elem_of_cons; [|by left]];
    apply H4; rewrite !elem_of_cons; auto.
Qed.
Lemma remembers_self seqs q : remembers seqs (q :: seqs) -> remembers seqs seqs.
Proof. intros [H1 H2 H3 H4]. split; [done|done|done|intros h Hh; by left]. Qed.
Lemma accept_orderly seqs s r :
  remembers seqs seqs -> accept_sequence seqs s = Ok r -> remembers r r /\ remembers r (s :: r).
Proof.
  intros Hr H. destruct (accept_sequence_once _ _ _ _ Hr H) as [Hn [H1 H2 H3 H4]].
  split; (split; [done|done| |]).
  - done.
  - intros h Hh. by left.
  - intros x Hx. by right.
  - intros x [->|Hx]%elem_of_cons; [apply H4; by left | by left].
Qed.

(** The sessions of an account after a number was accepted from a key. *)
Lemma use_session_Ok text now tb a k q tb' evs :
  use_session text now tb a k q = Ok (tb', evs) ->
  exists sc i ses seqs, tb !! a = Some sc /\
    let live := filter (fun s => ~ expired now s) (sessions sc) in
    live !! i = Some ses /\ key ses = k /\ accept_sequence (sequences ses) q = Ok seqs /\
    exists sc', tb' = <[a := sc']> tb /\ sessions sc' = <[i := ses <| sequences := seqs |>]> live.
Proof.
  unfold use_session. intros (sc & Hsc%some_or_Ok & H)%bind_Ok. cbn in H.
  apply bind_Ok in H as ([i ses] & Hf%some_or_Ok & H).
  apply bind_Ok in H as (seqs & Hq & H). apply bind_Ok in H as (t & Ht & [= <- _]).
  apply Table.modify_Ok in Ht as (x & y & _ & [= <-] & _ & ->).
  apply list_find_Some in Hf as (Hi & Hk & _). exists sc, i, ses, seqs. cbn. split_and!; try done.
  eexists. split; done.
Qed.

Lemma elem_of_update {A} (l : list A) i x y z :
  l !! i = Some x -> z ∈ <[i := y]> l -> z = y \/ z ∈ l.
Proof.
  intros Hi [j Hj]%list_elem_of_lookup. destruct (decide (i = j)) as [<-|Hne].
  - rewrite list_lookup_insert_eq in Hj by (by eapply lookup_lt_Some). left. congruence.
  - rewrite list_lookup_insert_ne in Hj by done. right. by eapply list_elem_of_lookup_2.
Qed.

Lemma use_session_orderly text now tb a k q tb' evs :
  use_session text now tb a k q = Ok (tb', evs) -> orderly tb -> orderly tb' /\ spent a k q tb'.
Proof.
  intros (sc & i & ses & seqs & Hsc & Hi & Hk & Hq & sc' & -> & Hs)%use_session_Ok Ho.
  set (live := filter _ _) in *. destruct (Ho _ _ Hsc) as [Hn Hr].
  assert (live `sublist_of` sessions sc) as Hsub by apply sublist_filter.
  assert (NoDup (key <$> live)) as Hnl by (eapply sublist_NoDup; [exact Hn | by apply fmap_sublist]).
  destruct (accept_orderly _ _ _ (Hr ses ltac:(eapply sublist_elem, Hsub; by eapply list_elem_of_lookup_2)) Hq)
    as [Hr1 Hr2]. split.
  - intros b x [[<- <-]|[_ Hx]]%lookup_insert_Some; [|exact (Ho _ _ Hx)]. rewrite Hs. split.
    + rewrite list_fmap_insert. cbn. rewrite list_insert_id; [done|]. by rewrite list_lookup_fmap, Hi.
    + intros ss [->|Hss]%(elem_of_update _ _ _ _ _ Hi); [done|]. apply Hr. by eapply sublist_elem.
  - intros x ss [[_ <-]|[? _]]%lookup_insert_Some Hss Hkey; [|done]. rewrite Hs in Hss.
    apply list_elem_of_lookup in Hss as [j Hj]. destruct (decide (i = j)) as [<-|Hne].
    + rewrite list_lookup_insert_eq in Hj by (by eapply lookup_lt_Some). by injection Hj as <-.
    + rewrite list_lookup_insert_ne in Hj by done. exfalso. apply Hne.
      eapply (NoDup_lookup _ _ _ k Hnl); rewrite list_lookup_fmap; [rewrite Hi | rewrite Hj]; cbn; congruence.
Qed.

Lemma use_session_spent text now tb a k q tb' evs a0 k0 q0 :
  use_session text now tb a k q = Ok (tb', evs) -> spent a0 k0 q0 tb -> spent a0 k0 q0 tb'.
Proof.
  intros (sc & i & ses & seqs & Hsc & Hi & Hk & Hq & sc' & -> & Hs)%use_session_Ok Hsp.
  set (live := filter _ _) in *.
  assert (live `sublist_of` sessions sc) as Hsub by apply sublist_filter.
  intros x ss [[-> <-]|[_ Hx]]%lookup_insert_Some; [|by apply Hsp]. rewrite Hs.
  intros [->|Hss]%(elem_of_update _ _ _ _ _ Hi) Hkey; [|apply (Hsp sc); [done|by eapply sublist_elem|done]].
  eapply (accept_remembers _ _ _ q0) in Hq as [Hr _]; [exact Hr|]. apply (Hsp sc); [done| |done].
  eapply sublist_elem, Hsub. by eapply list_elem_of_lookup_2.
Qed.

(** A number that was accepted is refused. *)
Lemma spent_refused text now tb a k q : spent a k q tb -> is_ok (use_session text now tb a k q) = false.
Proof.
  intros Hsp. destruct (use_session _ _ _ _ _ _) as [[tb' evs]|] eqn:H; [|done]. exfalso.
  apply use_session_Ok in H as (sc & i & ses & seqs & Hsc & Hi & Hk & Hq & _).
  apply list_elem_of_lookup_2, list_elem_of_filter in Hi as [_ Hi].
  pose proof (Hsp sc ses Hsc Hi Hk) as Hr. by apply (accept_remembers _ _ _ q) in Hq as (_ & _ & ?).
Qed.

Lemma drop_oldest (l : list session) : (if Nat.ltb 4 (length l) then tail l else l) `sublist_of` l.
Proof. destruct (Nat.ltb _ _); [|done]. destruct l; [done|by constructor]. Qed.

(** Registering a key: only its own session is new. *)
Lemma new_session_Ok now tb a k exp desc tb' evs :
  new_session now tb a k exp desc = Ok (tb', evs) ->
  exists old sc', tb' = <[a := sc']> tb /\
    sessions sc' `sublist_of` (old ++ [mk_session k exp desc []]) /\ k ∉ (key <$> old) /\
    match tb !! a with Some sc => old `sublist_of` sessions sc | None => old = [] end.
Proof.
  unfold new_session. destruct (tb !! a) as [sc|].
  - intros H. cbn in H. apply bind_Ok in H as (u & Hf%check_Ok & H).
    apply bind_Ok in H as (t & (x & y & _ & [= <-] & _ & ->)%Table.modify_Ok & [= <- _]).
    eexists (filter (fun s => ~ expired now s) (sessions sc)), _. split; [done|]. apply bool_decide_eq_true in Hf. split; [|split].
    + apply drop_oldest.
    + intros (ss & -> & Hss)%list_elem_of_fmap. apply list_find_None in Hf.
      rewrite Forall_forall in Hf. by apply (Hf ss).
    + apply sublist_filter.
  - intros (t & [_ ->]%Table.emplace_Ok & [= <- _])%bind_Ok. eexists [], _.
    split; [done|]. split; [done|]. split; [apply not_elem_of_nil|done].
Qed.

Lemma new_session_orderly now tb a k exp desc tb' evs :
  new_session now tb a k exp desc = Ok (tb', evs) -> orderly tb -> orderly tb'.
Proof.
  intros (old & sc' & -> & Hs & Hn & Hold)%new_session_Ok Ho b x [[<- <-]|[_ Hx]]%lookup_insert_Some; [|exact (Ho _ _ Hx)].
  assert (NoDup (key <$> old) /\ forall ss, ss ∈ old -> remembers (sequences ss) (sequences ss)) as [Hno Hro].
  { destruct (tb !! a) as [sc|] eqn:E; [|subst; split; [constructor | by intros ss ?%not_elem_of_nil]].
    destruct (Ho _ _ E) as [Hd Hr]. split.
    - eapply sublist_NoDup; [exact Hd|by apply fmap_sublist].
    - intros ss Hss. apply Hr. by eapply sublist_elem. }
  split.
  - eapply sublist_NoDup; [|apply fmap_sublist, Hs]. rewrite fmap_app. apply NoDup_app.
    split; [done|]. split; [|repeat constructor; apply not_elem_of_nil].
    intros y Hy [->|[]%not_elem_of_nil]%elem_of_cons. by apply Hn.
  - intros ss Hss. eapply sublist_elem in Hss; [|exact Hs].
    apply elem_of_app in Hss as [Hss|[->|[]%not_elem_of_nil]%elem_of_cons]; [by apply Hro|].
    split; [constructor | cbn; lia | done | intros h []%not_elem_of_nil].
Qed.

Lemma new_session_spent now tb a k exp desc tb' evs a0 k0 q0 :
  new_session now tb a k exp desc = Ok (tb', evs) -> spent a0 k0 q0 tb -> ~ (a = a0 /\ k = k0) -> spent a0 k0 q0 tb'.
Proof.
  intros (old & sc' & -> & Hs & _ & Hold)%new_session_Ok Hsp Hne.
  intros x ss [[-> <-]|[_ Hx]]%lookup_insert_Some Hss Hkey; [|by apply (Hsp x)].
  eapply sublist_elem in Hss; [|exact Hs].
  apply elem_of_app in Hss as [Hss|[->|[]%not_elem_of_nil]%elem_of_cons]; [|by destruct Hne].
  destruct (tb !! a0) as [sc|] eqn:E; [|subst; by apply not_elem_of_nil in Hss].
  apply (Hsp sc); [done| |done]. by eapply sublist_elem.
Qed.

End Sessions.
