(* ===== verification/Bylaws.v ===== *)
(** The bylaws ([contracts/eden/include/bylaws.hpp],
    [contracts/eden/src/bylaws.cpp]): proposed by the lead representative,
    moved to pending and then to ratified by approvals of board members. *)
From S2P Require Import Prelude Name Time MultiIndex Host ElectionState.
Open Scope string_scope.
Open Scope list_scope.
Open Scope Z_scope.

Module Bylaws.

Definition proposed : Z := Eval vm_compute in Name.n "proposed".
Definition pending : Z := Eval vm_compute in Name.n "pending".
Definition ratified : Z := Eval vm_compute in Name.n "ratified".

Record bylaws : Type := mk { type : Z; text : string; time : Z; approvals : list Z }.
#[global] Instance set_approvals : Setter approvals := fun f b =>
  mk (type b) (text b) (time b) (f (approvals b)).
Abbreviation table := (gmap Z bylaws).

(** Writes the row of a type, whether or not it exists. *)
Definition put (tb : table) (b : bylaws) : result table :=
  match tb !! type b with
  | Some _ => Table.modify type tb (type b) (fun _ => Ok b)
  | None => Table.emplace type tb b
  end.

Definition bytes_of_string (s : string) : list Z :=
  (fun c => Z.of_N (Ascii.N_of_ascii c)) <$> String.list_ascii_of_string s.

Section bylaws.
Context (e : env) (now : Z).

Definition set_proposed (tb : table) (state : Votes.election_state_v0) (proposer : Z) (proposal : string)
    : result table :=
  _ ← check (proposer =? Votes.lead_representative state)
        "Only the lead representative can set the proposed bylaws";
  put tb (mk proposed proposal now []).

Definition approve (tb : table) (state : Votes.election_state_v0) (next_election_time : option Z)
    (current_state next_state approver proposal_hash : Z) : result table :=
  pos ← some_or (Check ("No " ++ Name.name_to_string current_state ++ " bylaws")%string)
          (tb !! current_state);
  _ ← check (Host.sha256 e (bytes_of_string (text pos)) =? proposal_hash)
        ("bylaws hash does not match " ++ Name.name_to_string current_state ++ " bylaws")%string;
  _ ← check (match next_election_time with Some t => now <? t | None => false end)
        "Bylaws cannot be approved while an election is running";
  _ ← check (negb (bool_decide (approver ∈ approvals pos))) "Already approved";
  _ ← check (bool_decide (approver ∈ Votes.board state)) "Not a board member";
  _ ← (if next_state =? ratified then
         check (Time.to_time_point (time pos) + Time.days 90
                  <=? Time.to_time_point (Votes.last_election_time state))
           "Bylaws can only be approved if they were proposed at least 90 days before the last election."
       else Ok tt);
  if Nat.leb (length (Votes.board state) * 2 / 3) (length (approvals pos)) then
    tb ← put tb (mk next_state (text pos) now []);
    Table.erase tb current_state
  else
    Table.modify type tb current_state (fun row => Ok (row <| approvals ::= fun l => l ++ [approver] |>)).

Definition approve_proposed tb state next_election approver hash :=
  approve tb state next_election proposed pending approver hash.
Definition approve_pending tb state next_election approver hash :=
  approve tb state next_election pending ratified approver hash.
End bylaws.

(** At the beginning of a term. *)
Definition new_board (tb : table) : result table :=
  tb ← (match tb !! proposed with Some _ => Table.erase tb proposed | None => Ok tb end);
  match tb !! pending with
  | Some _ => Table.modify type tb pending (fun row => Ok (row <| approvals := [] |>))
  | None => Ok tb
  end.

(** Erasing the first occurrence. *)
Fixpoint erase_first (m : Z) (l : list Z) : list Z :=
  match l with [] => [] | x :: l' => if x =? m then l' else x :: erase_first m l' end.

Definition on_resign_row (tb : table) (m key : Z) : result table :=
  match tb !! key with
  | Some row =>
      if bool_decide (m ∈ approvals row)
      then Table.modify type tb key (fun row => Ok (row <| approvals ::= erase_first m |>))
      else Ok tb
  | None => Ok tb
  end.
Definition on_resign (tb : table) (m : Z) : result table :=
  tb ← on_resign_row tb m proposed; on_resign_row tb m pending.

Definition on_rename_row (tb : table) (old new key : Z) : result table :=
  match tb !! key with
  | Some _ => Table.modify type tb key (fun row =>
      Ok (row <| approvals ::= fmap (fun x => if x =? old then new else x) |>))
  | None => Ok tb
  end.
Definition on_rename (tb : table) (old new : Z) : result table :=
  tb ← on_rename_row tb old new proposed; on_rename_row tb old new pending.

Definition clear_all (tb : table) : table := ∅.

(** ** Resignation *)

Lemma erase_first_absent a l : a ∉ l -> erase_first a l = l.
Proof.
  induction l as [|x l IH]; cbn; [done|]. intros Hn. destruct (Z.eqb_spec x a) as [->|Hx]; [set_solver|].
  f_equal. apply IH. set_solver.
Qed.

Definition withdraw_approval (m : Z) (row : bylaws) : bylaws := row <| approvals ::= erase_first m |>.

Lemma on_resign_row_Ok tb m key tb' :
  on_resign_row tb m key = Ok tb' -> tb' = alter (withdraw_approval m) key tb.
Proof.
  unfold on_resign_row. intros H. destruct (tb !! key) as [row|] eqn:E.
  - case_bool_decide as Ha.
    + apply Table.modify_Ok in H as (r & r' & Hr & [= <-] & _ & ->). rewrite E in Hr. injection Hr as <-.
      apply map_eq. intros k. destruct (decide (k = key)) as [->|Hk].
      * by rewrite lookup_insert_eq, lookup_alter_eq, E.
      * by rewrite lookup_insert_ne, lookup_alter_ne by done.
    + injection H as <-. symmetry. apply alter_id. intros r Hr. rewrite E in Hr. injection Hr as <-.
      unfold withdraw_approval. destruct row as [t x y l]; cbn in *. unfold set_approvals, set_field. cbn.
      by rewrite erase_first_absent.
  - injection H as <-. symmetry. apply alter_id. intros r Hr. congruence.
Qed.

Lemma on_resign_Ok tb m tb' :
  on_resign tb m = Ok tb' -> tb' = alter (withdraw_approval m) pending (alter (withdraw_approval m) proposed tb).
Proof. intros (t & ->%on_resign_row_Ok & ->%on_resign_row_Ok)%bind_Ok. done. Qed.

(** ** Approval *)

Lemma put_Ok tb b : Table.keyed type tb -> put tb b = Ok (<[type b := b]> tb).
Proof.
  intros Hk. unfold put, Table.modify, Table.emplace. destruct (tb !! type b) eqn:E; cbn; [|done].
  by rewrite Z.eqb_refl.
Qed.

(** The conditions under which an approval counts. *)
Definition may_approve (e : env) (now : Z) (state : Votes.election_state_v0) (next_election : option Z)
    (next_state approver hash : Z) (b : bylaws) : Prop :=
  Host.sha256 e (bytes_of_string (text b)) = hash /\
  (exists t, next_election = Some t /\ now < t) /\
  approver ∉ approvals b /\ approver ∈ Votes.board state /\
  (next_state = ratified ->
     Time.to_time_point (time b) + Time.days 90 <= Time.to_time_point (Votes.last_election_time state)).

(** An approval is accepted exactly from a board member who has not
    approved yet, of the exact text, outside elections (and, for ratification,
    90 days after the proposal by the time of the last election).  When more
    than two thirds of the board have approved, counting this approval, the
    text moves to the next state with no approvals; otherwise the approver
    is recorded.  Nothing else changes. *)
Theorem approve_spec (e : env) (now : Z) (tb tb' : table) state next_election cur next approver hash :
  Table.keyed type tb -> cur <> next ->
  approve e now tb state next_election cur next approver hash = Ok tb' <->
  exists b, tb !! cur = Some b /\ may_approve e now state next_election next approver hash b /\
    tb' = if decide (2 * Z.of_nat (length (Votes.board state)) < 3 * Z.of_nat (length (approver :: approvals b)))
          then delete cur (<[next := mk next (text b) now []]> tb)
          else <[cur := b <| approvals ::= fun l => l ++ [approver] |>]> tb.
Proof.
  intros Hk Hne. unfold approve, may_approve.
  assert (forall b : bylaws, Nat.leb (length (Votes.board state) * 2 / 3) (length (approvals b)) =
    bool_decide (2 * Z.of_nat (length (Votes.board state)) < 3 * Z.of_nat (length (approver :: approvals b))))
    as Hq.
  { intros b. apply eq_true_iff_eq. rewrite Nat.leb_le, bool_decide_eq_true. cbn [length].
    pose proof (Nat.div_mod (length (Votes.board state) * 2) 3 ltac:(lia)).
    pose proof (Nat.mod_upper_bound (length (Votes.board state) * 2) 3 ltac:(lia)). lia. }
  split.
  - intros H. apply bind_Ok in H as (b & Hb%some_or_Ok & H).
    apply bind_Ok in H as (? & Hh%check_Ok%Z.eqb_eq & H). apply bind_Ok in H as (? & Hel%check_Ok & H).
    apply bind_Ok in H as (? & Hna%check_Ok%negb_true_iff%bool_decide_eq_false & H).
    apply bind_Ok in H as (? & Hin%check_Ok%bool_decide_eq_true & H).
    apply bind_Ok in H as (u & Hrat & H).
    exists b. split; [done|]. split.
    { split_and!; try done.
      - destruct next_election as [t|]; [|done]. apply Z.ltb_lt in Hel. eauto.
      - intros ->. rewrite Z.eqb_refl in Hrat. by apply check_Ok, Z.leb_le in Hrat. }
    rewrite Hq in H. case_bool_decide as Hcase.
    + rewrite decide_True by done. rewrite put_Ok in H by done. cbn in H.
      by apply Table.erase_Ok in H as [_ ->].
    + rewrite decide_False by done. apply Table.modify_Ok in H as (b' & b'' & Hb' & [= <-] & _ & ->).
      by assert (b' = b) as -> by congruence.
  - intros (b & Hb & (Hh & (t & -> & Ht) & Hna & Hin & Hrat) & ->). rewrite Hb. cbn [some_or mbind result_bind].
    rewrite (check_true _ _ _ (proj2 (Z.eqb_eq _ _) Hh)), (check_true _ _ _ (proj2 (Z.ltb_lt _ _) Ht)).
    rewrite check_true by (by rewrite bool_decide_eq_false_2).
    rewrite check_true by (by apply bool_decide_eq_true).
    assert ((if next =? ratified then
       check (Time.to_time_point (time b) + Time.days 90 <=? Time.to_time_point (Votes.last_election_time state))
         "Bylaws can only be approved if they were proposed at least 90 days before the last election."
       else Ok tt) = Ok tt) as ->.
    { destruct (Z.eqb_spec next ratified) as [He|]; [|done]. apply check_Ok, Z.leb_le. auto. }
    cbn [mbind result_bind]. rewrite Hq. case_bool_decide as Hcase.
    + rewrite decide_True by done. rewrite put_Ok by done. cbn. apply Table.erase_Ok.
      rewrite lookup_insert_ne by done. split; [eauto|done].
    + rewrite decide_False by done. apply Table.modify_Ok. eexists b, _. split; [done|].
      split; [done|]. split; [|done]. cbn. by apply Hk.
Qed.

Definition demo_bylaws : table := {[ proposed := mk proposed "text" 5 [1; 2] ]}.
Definition demo_state : Votes.election_state_v0 := Votes.mk_election_state 1 [1; 2; 3] 0.

Lemma approve_spec_witness :
  approve Host.demo_env 10 demo_bylaws demo_state (Some 20) proposed pending 3
    (Host.sha256 Host.demo_env (bytes_of_string "text"))
  = Ok (delete proposed (<[pending := mk pending "text" 10 []]> demo_bylaws)).
Proof.
  apply (approve_spec Host.demo_env 10 demo_bylaws _ demo_state (Some 20) proposed pending 3 _).
  - apply Table.keyed_insert; [apply Table.keyed_empty|done].
  - discriminate.
  - exists (mk proposed "text" 5 [1; 2]). split; [reflexivity|]. split; [|reflexivity].
    split_and!; [done | exists 20; done | | | done].
    + cbn. set_solver.
    + cbn. set_solver.
Defined.

End Bylaws.
