(* ===== verification/DistributionTables.v ===== *)
(** Distributions: data and the operations that touch no other component
    ([contracts/eden/include/distributions.hpp],
    [contracts/eden/src/distributions.cpp]).  The flows that move money between
    tables are in DistributionOps.v. *)
From S2P Require Import Prelude Name Time Asset MultiIndex Ledger.
Open Scope list_scope.
Open Scope Z_scope.

Module Distribution.
Import Asset.

Definition distribution_account_key (owner distribution_time rank : Z) : Z :=
  Z.lor (Z.lor (Z.shiftl owner 64) (Z.shiftl distribution_time 32)) rank.

Record pool : Type := mk_pool { pool_name : Z; monthly_distribution_pct : Z }.

Record current_distribution : Type := mk_current {
  current_time : Z; last_processed : Z; rank_distribution : list asset }.
#[global] Instance set_last_processed : Setter last_processed := fun f d =>
  mk_current (current_time d) (f (last_processed d)) (rank_distribution d).

Inductive distribution : Type :=
  | next_distribution (time : Z)
  | election_distribution (time : Z) (amount : asset)
  | current (d : current_distribution).
Definition distribution_time (d : distribution) : Z :=
  match d with next_distribution t => t | election_distribution t _ => t | current c => current_time c end.

Record distribution_account : Type := mk_account {
  id : Z; owner : Z; account_time : Z; rank : Z; balance : asset }.
#[global] Instance set_owner : Setter owner := fun f a =>
  mk_account (id a) (f (owner a)) (account_time a) (rank a) (balance a).
#[global] Instance set_balance : Setter balance := fun f a =>
  mk_account (id a) (owner a) (account_time a) (rank a) (f (balance a)).
Definition by_owner (a : distribution_account) : Z :=
  distribution_account_key (owner a) (account_time a) (rank a).

Abbreviation account_table := (gmap Z distribution_account).
Record store : Type := mk_store {
  distribution_tb : gmap Z distribution;
  account_tb : account_table;
  pool_tb : gmap Z pool
}.
#[global] Instance set_distribution_tb : Setter distribution_tb := fun f s =>
  mk_store (f (distribution_tb s)) (account_tb s) (pool_tb s).
#[global] Instance set_account_tb : Setter account_tb := fun f s =>
  mk_store (distribution_tb s) (f (account_tb s)) (pool_tb s).
#[global] Instance set_pool_tb : Setter pool_tb := fun f s =>
  mk_store (distribution_tb s) (account_tb s) (f (pool_tb s)).

Definition master_pool : pool := mk_pool (Name.n "master") 5.

(** [make_distribution]: the loop goes from the highest rank down to rank 1;
    [k] counts the ranks done.  The highest gets nothing here, the one below
    it a double share. *)
Fixpoint make_loop (rev_ranks : list Z) (k : nat) (per_rank : asset) (total : Z) (used : asset)
    (acc : list asset) : result (asset * list asset) :=
  match rev_ranks with
  | n :: ((_ :: _) as rest) =>
      let total := wrap 16 (total + n) in
      if 0 <? total then
        match k with
        | O => make_loop rest 1 per_rank total used (Asset.mk 0 (symbol used) :: acc)
        | S k' =>
            share ← (match k' with O => Asset.mul per_rank 2 | _ => Ok per_rank end);
            this_rank ← Asset.div share total;
            spent ← Asset.mul this_rank total;
            used ← Asset.add used spent;
            make_loop rest (S k) per_rank total used (this_rank :: acc)
        end
      else make_loop rest (S k) per_rank total used acc
  | _ => Ok (used, acc)
  end.

(** Adding to the last element of a vector. *)
Definition add_last (l : list asset) (a : asset) : result (list asset) :=
  x ← some_or (Trap "back of an empty vector") (last l);
  b ← Asset.add x a;
  Ok (<[(length l - 1)%nat := b]> l).

(** Returns the distribution and the amount it uses. *)
Definition make_distribution (ranks : list Z) (start_time : Z) (amount : asset)
    : result (current_distribution * asset) :=
  top ← some_or (Trap "end of an empty vector") (last ranks);
  per_rank ← Asset.div amount (Z.of_nat (length ranks) - 1);
  zero ← Asset.make 0 (symbol amount);
  '(used, dist) ← make_loop (reverse ranks) 0 per_rank 0 zero [];
  if negb (top =? 0) then
    rest ← Asset.sub amount used;
    dist ← add_last dist rest;
    Ok (mk_current start_time 0 dist, amount)
  else Ok (mk_current start_time 0 dist, used).

(** [distributions::sub_balance] *)
Definition sub_balance (tb : account_table) (from time rnk : Z) (amount : asset) : result account_table :=
  k ← some_or (Check "unable to find secondary key")
        (Table.index_find by_owner tb (distribution_account_key from time rnk));
  row ← some_or (Trap "dangling index entry") (tb !! k);
  enough ← Asset.geb (balance row) amount;
  _ ← check enough "insufficient balance";
  exact ← Asset.eqb (balance row) amount;
  if (exact : bool) then Table.erase tb k
  else Table.modify id tb k (fun row =>
         b ← Asset.sub (balance row) amount; Ok (row <| balance := b |>)).

(** A new account with the next free number. *)
Definition emplace_account (tb : account_table) (own time rnk : Z) (bal : asset) : result account_table :=
  i ← Table.available_primary_key tb;
  Table.emplace id tb (mk_account i own time rnk bal).

Definition clear_all (s : store) : store := mk_store ∅ ∅ ∅.

(** ** What a distribution pays *)

(** How many members have a rank above [r]. *)
Fixpoint sum (l : list Z) : Z := match l with [] => 0 | x :: l' => x + sum l' end.
Definition members_above (ranks : list Z) (r : nat) : Z := sum (drop (S r) ranks).

(** A member of rank [n] receives the first [n] entries. *)
Fixpoint payout (ranks : list Z) (r : nat) (dist : list Z) : Z :=
  match dist with
  | [] => 0
  | a :: dist' => members_above ranks r * a + payout ranks (S r) dist'
  end.




(** ** The loop *)

Lemma mul_Ok a k r : Asset.mul a k = Ok r ->
  amount r = amount a * k /\ symbol r = symbol a /\ ranged r.
Proof. unfold Asset.mul. intros H. res_inv. unfold ranged. cbn. lia. Qed.

Lemma div_Ok a k r : Asset.div a k = Ok r ->
  k <> 0 /\ amount r = Z.quot (amount a) k /\ symbol r = symbol a.
Proof. unfold Asset.div. intros H. res_inv. cbn. done. Qed.

Lemma quot_share a k : 0 <= a -> 0 < k -> 0 <= Z.quot a k /\ k * Z.quot a k <= a.
Proof.
  intros Ha Hk. rewrite Z.quot_div_nonneg by lia. split; [by apply Z.div_pos|].
  by apply Z.mul_div_le.
Qed.

(** One entry of the loop: what a rank costs. *)
Lemma share_cost share total this spent :
  0 <= amount share -> 0 < total ->
  Asset.div share total = Ok this -> Asset.mul this total = Ok spent ->
  0 <= amount this /\ amount spent = total * amount this /\ amount spent <= amount share /\
  symbol this = symbol share /\ symbol spent = symbol share /\ ranged spent.
Proof.
  intros Hs Ht H1 H2. apply div_Ok in H1 as (_ & Ha & Hsy). apply mul_Ok in H2 as (Hb & Hsy' & Hr).
  pose proof (quot_share (amount share) total Hs Ht). rewrite Ha in *. rewrite Hb, Hsy', Hsy.
  split; [lia|]. split; [lia|]. split; [lia|]. done.
Qed.














Definition demo_symbol : Z := Symbol.make 0x534F45 4.     (* 4,EOS *)

(** With two members at the top the rest, 7, is paid twice. *)
Example two_at_the_top :
  (fun r => (payout [30; 6; 2] 0 (amount <$> rank_distribution r.1), r.2))
    <$> make_distribution [30; 6; 2] 1000 (mk 10007 demo_symbol) = Ok (10014, mk 10007 demo_symbol).
Proof. reflexivity. Qed.


(** ** The accounts as a ledger *)

Record wf (tb : account_table) : Prop := {
  wf_keyed : Table.keyed id tb;
  wf_ranged : forall k a, tb !! k = Some a -> ranged (balance a)
}.

Definition held (sym : Z) (tb : account_table) : Z :=
  map_sum (fun a => Ledger.in_symbol sym (balance a)) tb.

Lemma dist_wf_insert tb k a : wf tb -> id a = k -> ranged (balance a) -> wf (<[k := a]> tb).
Proof.
  intros Hw Hi Hr. split; [by apply Table.keyed_insert; [apply wf_keyed|]|].
  intros k' a' [[<- <-]|[_ Ha]]%lookup_insert_Some; [done | by eapply wf_ranged].
Qed.

Lemma dist_wf_delete tb k : wf tb -> wf (delete k tb).
Proof.
  intros Hw. split; [by apply Table.keyed_delete, wf_keyed|].
  intros k' a' [_ Ha]%lookup_delete_Some. by eapply wf_ranged.
Qed.

(** Paying [q] out of the row [k]: erased when it is exactly spent. *)
Lemma debit_row tb k a q b :
  wf tb -> tb !! k = Some a -> ranged q -> Asset.sub (balance a) q = Ok b ->
  wf (<[k := a <| balance := b |>]> tb) /\
  forall sym, held sym (<[k := a <| balance := b |>]> tb) = held sym tb - Ledger.in_symbol sym q.
Proof.
  intros Hw Hk Hq Hs. pose proof (wf_ranged _ Hw _ _ Hk) as Hr.
  apply sub_Ok in Hs as (Hsy & Ha & Hsb & Hrb); [|done ..]. split.
  - apply dist_wf_insert; [done | exact (wf_keyed _ Hw _ _ Hk) | done].
  - intros sym. unfold held. rewrite (map_sum_update _ _ a) by done. cbn.
    unfold Ledger.in_symbol. rewrite Hsb, Ha, Hsy. destruct (_ =? _); lia.
Qed.

Lemma erase_row tb k a q :
  wf tb -> tb !! k = Some a -> symbol (balance a) = symbol q -> amount (balance a) = amount q ->
  wf (delete k tb) /\ forall sym, held sym (delete k tb) = held sym tb - Ledger.in_symbol sym q.
Proof.
  intros Hw Hk Hs Ha. split; [by apply dist_wf_delete|].
  intros sym. unfold held. rewrite (map_sum_delete _ k a tb Hk). unfold Ledger.in_symbol. rewrite Hs, Ha. lia.
Qed.

Lemma sub_balance_ledger tb o t r q tb' :
  wf tb -> ranged q -> sub_balance tb o t r q = Ok tb' ->
  wf tb' /\ forall sym, held sym tb' = held sym tb - Ledger.in_symbol sym q.
Proof.
  intros Hw Hq H. unfold sub_balance in H.
  apply bind_Ok in H as (k & _ & H). apply bind_Ok in H as (a & Ha%some_or_Ok & H).
  apply bind_Ok in H as (en & _ & H). apply bind_Ok in H as (u & _ & H).
  apply bind_Ok in H as (ex & [Hs ->]%compare_with_Ok & H).
  destruct (Z.eqb_spec (amount (balance a)) (amount q)) as [Heq|Hne].
  - apply Table.erase_Ok in H as [_ ->]. by eapply erase_row.
  - apply Table.modify_Ok in H as (a' & a'' & Ha' & Hf & _ & ->). 
    assert (a' = a) as -> by congruence. apply bind_Ok in Hf as (b & Hb & [= <-]).
    by eapply debit_row.
Qed.

Lemma emplace_account_ledger tb o t r q tb' :
  wf tb -> ranged q -> emplace_account tb o t r q = Ok tb' ->
  wf tb' /\ forall sym, held sym tb' = held sym tb + Ledger.in_symbol sym q.
Proof.
  intros Hw Hq H. unfold emplace_account in H. apply bind_Ok in H as (i & _ & H).
  apply Table.emplace_Ok in H as [Hn ->]. cbn in *. split; [by apply dist_wf_insert|].
  intros sym. unfold held. rewrite map_sum_insert by done. cbn. lia.
Qed.

#[global] Program Instance distribution_ledger : Ledger.Ledger account_table (Z * Z * Z) := {|
  Ledger.wf := wf;
  Ledger.held := held;
  Ledger.credit := fun tb k q => emplace_account tb k.1.1 k.1.2 k.2 q;
  Ledger.debit := fun tb k q => sub_balance tb k.1.1 k.1.2 k.2 q
|}.
Next Obligation. intros tb k q tb' sym Hw Hq H. exact (proj2 (emplace_account_ledger _ _ _ _ _ _ Hw Hq H) sym). Qed.
Next Obligation. intros tb k q tb' Hw Hq H. exact (proj1 (emplace_account_ledger _ _ _ _ _ _ Hw Hq H)). Qed.
Next Obligation. intros tb k q tb' sym Hw Hq H. exact (proj2 (sub_balance_ledger _ _ _ _ _ _ Hw Hq H) sym). Qed.
Next Obligation. intros tb k q tb' Hw Hq H. exact (proj1 (sub_balance_ledger _ _ _ _ _ _ Hw Hq H)). Qed.

End Distribution.
#[export] Hint Resolve Distribution.dist_wf_insert Distribution.dist_wf_delete : eden.
