(* ===== verification/State.v ===== *)
(** The contract's state and the computations of its actions.  The state is
    the product of the components' tables plus what the running transaction
    has emitted; an action is a state transformer that may abort, in which case
    the host undoes everything. *)
From S2P Require Import Prelude Time Host Globals Events Members ElectionState Accounts Encrypt.
From S2P Require Import DistributionTables Nft Inductions Bylaws Sessions Accounts.
Open Scope list_scope.
Open Scope Z_scope.

Record state : Type := mk_state {
  globals : Globals.singleton; (* the singleton of globals.hpp *)
  members : Members.store; (* member table and statistics *)
  elections : Votes.store; (* votes, election phase, results *)
  users : Accounts.table; (* account table, default scope *)
  owned : Accounts.table; (* account table, scope "owned" *)
  outgoing : Accounts.table; (* account table, scope "outgoing" *)
  distributions : Distribution.store; (* distributions, their accounts, pools *)
  inductions : Inductions.store; (* inductions, endorsements, encrypted data *)
  auctions : Auctions.table; (* auctions of NFTs *)
  bylaws : Bylaws.table; (* bylaws by type *)
  sessions : Sessions.table; (* session keys *)
  enc_election : Encrypt.table; (* encrypted data, scope "election" *)
  migration : option Migrations.migration_variant; (* the migration singleton *)
  events : list event; (* pushed in this transaction, in order *)
  sent : list inline_action (* inline actions, in order *)
}.
#[global] Instance set_globals : Setter globals := fun f s =>
  mk_state (f (globals s)) (members s) (elections s) (users s) (owned s) (outgoing s) (distributions s)
    (inductions s) (auctions s) (bylaws s) (sessions s) (enc_election s) (migration s) (events s)
    (sent s).
#[global] Instance set_members : Setter members := fun f s =>
  mk_state (globals s) (f (members s)) (elections s) (users s) (owned s) (outgoing s) (distributions s)
    (inductions s) (auctions s) (bylaws s) (sessions s) (enc_election s) (migration s) (events s)
    (sent s).
#[global] Instance set_elections : Setter elections := fun f s =>
  mk_state (globals s) (members s) (f (elections s)) (users s) (owned s) (outgoing s) (distributions s)
    (inductions s) (auctions s) (bylaws s) (sessions s) (enc_election s) (migration s) (events s)
    (sent s).
#[global] Instance set_users : Setter users := fun f s =>
  mk_state (globals s) (members s) (elections s) (f (users s)) (owned s) (outgoing s) (distributions s)
    (inductions s) (auctions s) (bylaws s) (sessions s) (enc_election s) (migration s) (events s)
    (sent s).
#[global] Instance set_owned : Setter owned := fun f s =>
  mk_state (globals s) (members s) (elections s) (users s) (f (owned s)) (outgoing s) (distributions s)
    (inductions s) (auctions s) (bylaws s) (sessions s) (enc_election s) (migration s) (events s)
    (sent s).
#[global] Instance set_outgoing : Setter outgoing := fun f s =>
  mk_state (globals s) (members s) (elections s) (users s) (owned s) (f (outgoing s)) (distributions s)
    (inductions s) (auctions s) (bylaws s) (sessions s) (enc_election s) (migration s) (events s)
    (sent s).
#[global] Instance set_distributions : Setter distributions := fun f s =>
  mk_state (globals s) (members s) (elections s) (users s) (owned s) (outgoing s) (f (distributions s))
    (inductions s) (auctions s) (bylaws s) (sessions s) (enc_election s) (migration s) (events s)
    (sent s).
#[global] Instance set_inductions : Setter inductions := fun f s =>
  mk_state (globals s) (members s) (elections s) (users s) (owned s) (outgoing s) (distributions s)
    (f (inductions s)) (auctions s) (bylaws s) (sessions s) (enc_election s) (migration s)
    (events s) (sent s).
#[global] Instance set_auctions : Setter auctions := fun f s =>
  mk_state (globals s) (members s) (elections s) (users s) (owned s) (outgoing s) (distributions s)
    (inductions s) (f (auctions s)) (bylaws s) (sessions s) (enc_election s) (migration s)
    (events s) (sent s).
#[global] Instance set_bylaws : Setter bylaws := fun f s =>
  mk_state (globals s) (members s) (elections s) (users s) (owned s) (outgoing s) (distributions s)
    (inductions s) (auctions s) (f (bylaws s)) (sessions s) (enc_election s) (migration s)
    (events s) (sent s).
#[global] Instance set_sessions : Setter sessions := fun f s =>
  mk_state (globals s) (members s) (elections s) (users s) (owned s) (outgoing s) (distributions s)
    (inductions s) (auctions s) (bylaws s) (f (sessions s)) (enc_election s) (migration s)
    (events s) (sent s).
#[global] Instance set_enc_election : Setter enc_election := fun f s =>
  mk_state (globals s) (members s) (elections s) (users s) (owned s) (outgoing s) (distributions s)
    (inductions s) (auctions s) (bylaws s) (sessions s) (f (enc_election s)) (migration s)
    (events s) (sent s).
#[global] Instance set_migration : Setter migration := fun f s =>
  mk_state (globals s) (members s) (elections s) (users s) (owned s) (outgoing s) (distributions s)
    (inductions s) (auctions s) (bylaws s) (sessions s) (enc_election s) (f (migration s))
    (events s) (sent s).
#[global] Instance set_events : Setter events := fun f s =>
  mk_state (globals s) (members s) (elections s) (users s) (owned s) (outgoing s) (distributions s)
    (inductions s) (auctions s) (bylaws s) (sessions s) (enc_election s) (migration s)
    (f (events s)) (sent s).
#[global] Instance set_sent : Setter sent := fun f s =>
  mk_state (globals s) (members s) (elections s) (users s) (owned s) (outgoing s) (distributions s)
    (inductions s) (auctions s) (bylaws s) (sessions s) (enc_election s) (migration s) (events s)
    (f (sent s)).

Definition empty_state : state :=
  mk_state None (Members.mk_store ∅ None) (Votes.mk_store ∅ None None) ∅ ∅ ∅
    (Distribution.mk_store ∅ ∅ ∅) Inductions.empty_store ∅ ∅ ∅ ∅ None [] [].

(** What an action is given: the host, the library environment and the NFT
    contracts' tables. *)
Record ctx : Type := mk_ctx { host_of : host; env_of : env; nft_of : Nft.tables }.

(** ** The monad *)

Definition M (A : Type) : Type := state -> result (A * state).
#[global] Instance M_ret : MRet M := fun A a s => Ok (a, s).
#[global] Instance M_bind : MBind M := fun A B f m s =>
  match m s with Ok (a, s') => f a s' | Err e => Err e end.

Definition lift {A} (r : result A) : M A := fun s => a ← r; Ok (a, s).
Definition gets {A} (f : state -> A) : M A := fun s => Ok (f s, s).
Definition reads {A} (f : state -> result A) : M A := fun s => a ← f s; Ok (a, s).
Definition abort {A} (msg : string) : M A := lift (Err (Check msg)).
Definition checkM (b : bool) (msg : string) : M unit := lift (check b msg).

(** Running an operation of a component on its part of the state. *)
Definition on {S} (part : state -> S) `{!Setter part} (f : S -> result S) : M unit :=
  fun s => x ← f (part s); Ok (tt, s <| part := x |>).
Definition on_with {S A} (part : state -> S) `{!Setter part} (f : S -> result (S * A)) : M A :=
  fun s => '(x, a) ← f (part s); Ok (a, s <| part := x |>).

Definition push_event (ev : event) : M unit := fun s => Ok (tt, s <| events ::= fun l => l ++ [ev] |>).
Definition push_events (evs : list event) : M unit := fun s => Ok (tt, s <| events ::= fun l => l ++ evs |>).
Definition send (a : inline_action) : M unit := fun s => Ok (tt, s <| sent ::= fun l => l ++ [a] |>).
Definition send_all (l : list inline_action) : M unit := fun s => Ok (tt, s <| sent ::= fun l' => l' ++ l |>).
Definition when (b : bool) (m : M unit) : M unit := if b then m else mret tt.

(** ** Reasoning *)

Lemma M_bind_Ok {A B} (m : M A) (f : A -> M B) s b s' :
  (m ≫= f) s = Ok (b, s') <-> exists a s1, m s = Ok (a, s1) /\ f a s1 = Ok (b, s').
Proof.
  unfold mbind at 1, M_bind. split.
  - destruct (m s) as [[a s1]|e]; [eauto | discriminate].
  - intros (a & s1 & -> & H). exact H.
Qed.

Lemma lift_Ok {A} (r : result A) s a s' : lift r s = Ok (a, s') <-> r = Ok a /\ s' = s.
Proof. unfold lift. destruct r; cbn; split; [intros [= <- <-]; done | intros [[= ->] ->]; done | done | naive_solver]. Qed.

Lemma reads_Ok {A} (f : state -> result A) s a s' : reads f s = Ok (a, s') <-> f s = Ok a /\ s' = s.
Proof. unfold reads. destruct (f s); cbn; split; [intros [= <- <-]; done | intros [[= ->] ->]; done | done | naive_solver]. Qed.

Lemma checkM_Ok b msg s u s' : checkM b msg s = Ok (u, s') <-> b = true /\ s' = s.
Proof. unfold checkM. rewrite lift_Ok, check_Ok. done. Qed.

Lemma abort_Ok {A} msg s (p : A * state) : abort msg s = Ok p <-> False.
Proof. done. Qed.

Lemma on_Ok {S} (part : state -> S) `{!Setter part} f s u s' :
  on part f s = Ok (u, s') <-> exists x, f (part s) = Ok x /\ s' = s <| part := x |>.
Proof.
  unfold on. rewrite bind_Ok. destruct u.
  split; intros (x & Hx & H); exists x; [injection H as <-; done | subst; done].
Qed.

Lemma on_with_Ok {S A} (part : state -> S) `{!Setter part} (f : S -> result (S * A)) s a s' :
  on_with part f s = Ok (a, s') <-> exists x, f (part s) = Ok (x, a) /\ s' = s <| part := x |>.
Proof.
  unfold on_with. rewrite bind_Ok. split.
  - intros ([x b] & Hx & H). injection H as <- <-. eauto.
  - intros (x & Hx & ->). exists (x, a). done.
Qed.

(** [within R m]: every successful run of [m] relates the states before and
    after by [R]. *)
Section within.
Context (R : state -> state -> Prop) `{!PreOrder R}.

Definition within {A} (m : M A) : Prop := forall s a s', m s = Ok (a, s') -> R s s'.

Lemma within_ret {A} (a : A) : within (mret a).
Proof. intros s a' s' [= _ <-]. reflexivity. Qed.
Lemma within_bind {A B} (m : M A) (f : A -> M B) :
  within m -> (forall a, within (f a)) -> within (m ≫= f).
Proof.
  intros Hm Hf s b s' (a & s1 & H1 & H2)%M_bind_Ok. etransitivity; [by eapply Hm | by eapply Hf].
Qed.
Lemma within_lift {A} (r : result A) : within (lift r).
Proof. intros s a s' [_ ->]%lift_Ok. reflexivity. Qed.
Lemma within_gets {A} (f : state -> A) : within (gets f).
Proof. intros s a s' [= _ <-]. reflexivity. Qed.
Lemma within_reads {A} (f : state -> result A) : within (reads f).
Proof. intros s a s' [_ ->]%reads_Ok. reflexivity. Qed.
Lemma within_on {S} (part : state -> S) `{!Setter part} f :
  (forall s x, f (part s) = Ok x -> R s (s <| part := x |>)) -> within (on part f).
Proof. intros H s u s' (x & Hx & ->)%on_Ok. by apply H. Qed.
Lemma within_on_with {S A} (part : state -> S) `{!Setter part} (f : S -> result (S * A)) :
  (forall s x a, f (part s) = Ok (x, a) -> R s (s <| part := x |>)) -> within (on_with part f).
Proof. intros H s u s' (x & Hx & ->)%on_with_Ok. by eapply H. Qed.
Lemma within_when b m : within m -> within (when b m).
Proof. intros Hm. destruct b; [exact Hm | apply within_ret]. Qed.
Lemma within_foldM {S A} (f : S -> A -> M S) l x :
  (forall y a, within (f y a)) -> within (foldM f l x).
Proof.
  intros Hf. revert x. induction l as [|a l IH]; intros x; cbn; [apply within_ret|].
  apply within_bind; [apply Hf | exact IH].
Qed.
End within.

#[global] Hint Opaque within : core.

(** Looks at the computation and applies the rule of its head; leaves the
    goals about [on] and about operations it has no rule for. *)
Ltac within_step :=
  match goal with
  | |- within _ (mbind _ _) => apply (within_bind _); [|intros ?]
  | |- within _ (mret _) => apply (within_ret _)
  | |- within _ (lift _) => apply (within_lift _)
  | |- within _ (checkM _ _) => apply (within_lift _)
  | |- within _ (abort _) => apply (within_lift _)
  | |- within _ (gets _) => apply (within_gets _)
  | |- within _ (reads _) => apply (within_reads _)
  | |- within _ (when _ _) => apply (within_when _)
  | |- within _ (foldM _ _ _) => apply (within_foldM _); intros ? ?
  | |- within _ (let '(_, _) := ?p in _) => destruct p
  | |- within _ (match ?x with _ => _ end) => destruct x
  | |- within _ (let _ := _ in _) => cbv zeta
  end.
Ltac withins := repeat (first [within_step | solve [eauto with within]]).
Create HintDb within discriminated.
