(* ===== verification/DistributionOps.v ===== *)
(** The monthly budget ([contracts/eden/src/distributions.cpp]): reserving a
    share of the pools for a distribution, dividing it between the ranks,
    funding the members a few at a time, and what happens to the money of a
    member who leaves. *)
From S2P Require Import Prelude Name Time Asset MultiIndex Host Globals Events Members ElectionState.
From S2P Require Import Accounts DistributionTables State.
Open Scope string_scope.
Open Scope list_scope.
Open Scope Z_scope.

Module DistributionOps.
Import Distribution.

Definition master : Z := Name.n "master".
Definition no_distribution : error := Trap "dangling distribution row".

Section ops.
Context (c : ctx).
Abbreviation self := (Host.self (host_of c)).
Abbreviation now := (Host.current_block_time (host_of c)).

(** ** Access to the tables *)

Definition put_distribution (d : distribution) : M unit :=
  on distributions (fun s => tb ← Table.emplace distribution_time (distribution_tb s) d;
                             Ok (s <| distribution_tb := tb |>)).
Definition change_distribution (k : Z) (d : distribution) : M unit :=
  on distributions (fun s => tb ← Table.modify distribution_time (distribution_tb s) k (fun _ => Ok d);
                             Ok (s <| distribution_tb := tb |>)).
Definition erase_distribution (k : Z) : M unit :=
  on distributions (fun s => tb ← Table.erase (distribution_tb s) k; Ok (s <| distribution_tb := tb |>)).
Definition on_accounts (f : account_table -> result account_table) : M unit :=
  on distributions (fun s => tb ← f (account_tb s); Ok (s <| account_tb := tb |>)).
Definition add_master (q : asset) : M unit := on owned (fun tb => Accounts.add_balance tb master q false).

(** The contract's own account of a distribution: rank 0. *)
Definition reserve_key (time : Z) (s : state) : option Z :=
  Table.index_find by_owner (account_tb (distributions s)) (distribution_account_key self time 0).

Definition init_pools : M unit :=
  push_event (Events.set_pool_event master 5);;
  on distributions (fun s => tb ← Table.emplace pool_name (pool_tb s) master_pool;
                             Ok (s <| pool_tb := tb |>)).

(** ** Setting up distributions that are due *)

Definition prorate_den : Z := 30 * 24 * 60 * 60 * 100.

(** The part of a pool's balance to distribute: its monthly percentage, or
    the part of it that falls before the election. *)
Definition pool_share (prorate : option Z) (pct : Z) (balance : asset) : result asset :=
  match prorate with
  | Some num =>
      Asset.make (swrap 64 (wrap 128 (num * pct * Asset.amount balance) / prorate_den))
        (Asset.symbol balance)
  | None => a ← Asset.mul balance pct; Asset.div a 100
  end.

(** One pool: reserves its share and adds it to the total. *)
Definition reserve_pool (prorate : option Z) (time : Z) (total : asset) (k : Z) : M asset :=
  p ← reads (fun s => some_or no_distribution (pool_tb (distributions s) !! k));
  account ← gets (fun s => Accounts.get_account (owned s) (pool_name p));
  match account with
  | None => mret total
  | Some a =>
      amount ← lift (pool_share prorate (monthly_distribution_pct p) (Accounts.balance a));
      push_event (Events.distribution_event_reserve time (pool_name p) amount);;
      on owned (fun tb => Accounts.sub_balance tb (pool_name p) amount);;
      if Asset.amount total =? 0 then mret amount else lift (Asset.add total amount)
  end.

(** The time of the next distribution: in 30 days, or at the election if that
    comes first; then only the part of the month until it is distributed. *)
Definition next_time (next_election : option Z) (time : Z) : Z * option Z :=
  let month := Time.block_of_time_point (Time.to_time_point time + Time.days 30) in
  match next_election with
  | Some ne => if (ne <? month) && (time <? ne) then (ne, Some ((ne - time) / 2)) else (month, None)
  | None => (month, None)
  end.

(** Turns the scheduled distribution [k] into one that pays out. *)
Definition start_distribution (next_election : option Z) (k time : Z) (total : asset) : M unit :=
  used ← (if match next_election with Some ne => time <? ne | None => false end then
            st ← gets (fun s => Members.stats (members s));
            '(d, used) ← lift (make_distribution (Members.ranks st) time total);
            push_event (Events.distribution_event_begin (current_time d) (rank_distribution d));;
            change_distribution k (current d);;
            mret used
          else
            change_distribution k (election_distribution time total);; mret total);
  differs ← lift (Asset.neqb used total);
  when differs
    (excess ← lift (Asset.sub total used);
     push_event (Events.distribution_event_return_excess time master excess);;
     add_master excess);;
  on_accounts (fun tb => emplace_account tb self time 0 used).

Definition ensure_pools : M unit :=
  tb ← gets (fun s => pool_tb (distributions s));
  when (bool_decide (tb = ∅)) init_pools.

(** One round of the loop: [None] when nothing is due. *)
Definition setup_one (next_election : option Z) (k : Z) : M (option Z) :=
  row ← reads (fun s => some_or no_distribution (distribution_tb (distributions s) !! k));
  match row with
  | next_distribution time =>
      if time <=? now then
        let '(next, prorate) := next_time next_election time in
        ensure_pools;;
        ps ← gets (fun s => Table.keys (pool_tb (distributions s)));
        total ← foldM (reserve_pool prorate time) ps Asset.empty;
        (if negb (Asset.amount total =? 0) then start_distribution next_election k time total
         else
           push_event (Events.distribution_event_begin time []);;
           push_event (Events.distribution_event_end time);;
           erase_distribution k);;
        push_event (Events.distribution_event_schedule next);;
        put_distribution (next_distribution next);;
        mret (Some next)
      else mret None
  | _ => abort "Invariant failure: no next distribution"
  end.

(** The loop; [None] would be running out of fuel, which does not happen
    ([setup_loop_ends]). *)
Fixpoint setup_loop (fuel : nat) (next_election : option Z) (k : Z) (result_ : bool) : M (option bool) :=
  match fuel with
  | O => mret None
  | S fuel' =>
      next ← setup_one next_election k;
      match next with
      | Some k' => setup_loop fuel' next_election k' true
      | None => mret (Some result_)
      end
  end.

(** One round for every 30 days since the first, one that an election may cut
    short, one that finds nothing due. *)
Definition month_slots : Z := 30 * 24 * 60 * 60 * 2.
Definition setup_fuel (k : Z) : nat := Z.to_nat (Z.max 0 ((now - k) / month_slots) + 3).

(** [setup_distribution(contract, init)]; slot 0 is [block_timestamp()]. *)
Definition setup_distribution (init : Z) : M bool :=
  tb ← gets (fun s => distribution_tb (distributions s));
  if bool_decide (tb = ∅) && (init =? 0) then mret false else
    when (bool_decide (tb = ∅))
      (push_event (Events.distribution_event_schedule init);;
       put_distribution (next_distribution init));;
    k ← reads (fun s => some_or no_distribution (last (Table.keys (distribution_tb (distributions s)))));
    next_election ← gets (fun s => if negb (init =? 0) then Some init
                                   else Votes.get_next_election_time (elections s));
    r ← setup_loop (setup_fuel k) next_election k false;
    lift (some_or (Trap "out of fuel") r).

(** [add_to_pool] *)
Definition add_to_pool (pool : Z) (amount : asset) : M unit :=
  setup_distribution 0;;
  on owned (fun tb => Accounts.add_balance tb pool amount false).

(** ** Paying out *)

(** The accounts of one member, one per rank. *)
Fixpoint fund_ranks (n : nat) (rank : Z) (dist : current_distribution) (own : Z) (reserve : option Z)
    : M unit :=
  match n with
  | O => mret tt
  | S n' =>
      amount ← lift (some_or (Trap "vector index out of range") (rank_distribution dist !! Z.to_nat rank));
      let r := wrap 8 (rank + 1) in
      push_event (Events.distribution_event_fund own (current_time dist) r amount);;
      on_accounts (fun tb => emplace_account tb own (current_time dist) r amount);;
      (match reserve with
       | Some k => on_accounts (fun tb => Table.modify id tb k (fun row =>
                     b ← Asset.sub (balance row) amount; Ok (row <| balance := b |>)))
       | None => checkM (Asset.amount amount =? 0) "Overdrawn balance"
       end);;
      fund_ranks n' (rank + 1) dist own reserve
  end.

Fixpoint fund_members (ks : list Z) (dist : current_distribution) (reserve : option Z) (max_steps : nat)
    : M (current_distribution * nat) :=
  match ks, max_steps with
  | k :: ks', S n =>
      m ← reads (fun s => some_or (Trap "dangling member row") (Members.member_tb (members s) !! k));
      checkM (Members.election_rank m <=? Z.of_nat (length (rank_distribution dist)))
        "Invariant failure: rank too high";;
      fund_ranks (Z.to_nat (Members.election_rank m)) 0 dist (Members.account m) reserve;;
      fund_members ks' (dist <| last_processed := Members.account m |>) reserve n
  | _, _ => mret (dist, max_steps)
  end.

(** The reserve must not be overdrawn, and is erased when it is spent. *)
Definition settle_reserve (reserve : option Z) : M unit :=
  match reserve with
  | Some k =>
      row ← reads (fun s => some_or no_distribution (account_tb (distributions s) !! k));
      checkM (0 <=? Asset.amount (balance row)) "Overdrawn balance";;
      when (Asset.amount (balance row) =? 0) (on_accounts (fun tb => Table.erase tb k))
  | None => mret tt
  end.

(** [distribute_monthly(contract, max_steps, dist)] *)
Definition fund_distribution (dist : current_distribution) (max_steps : nat)
    : M (current_distribution * nat) :=
  reserve ← gets (reserve_key (current_time dist));
  ks ← gets (fun s => Table.upper_bound_keys (Members.member_tb (members s)) (last_processed dist));
  '(dist, steps) ← fund_members ks dist reserve max_steps;
  settle_reserve reserve;;
  mret (dist, steps).

Fixpoint distribute_loop (ks : list Z) (max_steps : nat) : M nat :=
  match ks, max_steps with
  | k :: ks', S _ =>
      row ← reads (fun s => some_or no_distribution (distribution_tb (distributions s) !! k));
      match row with
      | current dist =>
          '(copy, steps) ← fund_distribution dist max_steps;
          match steps with
          | S n =>
              push_event (Events.distribution_event_end (current_time dist));;
              erase_distribution k;;
              distribute_loop ks' n
          | O => change_distribution k (current copy);; mret O
          end
      | _ => mret max_steps
      end
  | _, _ => mret max_steps
  end.

(** [distribute_monthly(contract, max_steps)] *)
Definition distribute_monthly (max_steps : nat) : M nat :=
  max_steps ← (match max_steps with
               | O => mret O
               | S n => b ← setup_distribution 0; mret (if b : bool then n else S n)
               end);
  ks ← gets (fun s => Table.keys (distribution_tb (distributions s)));
  distribute_loop ks max_steps.

(** ** At the end of an election *)

Fixpoint election_loop (ks : list Z) : M unit :=
  match ks with
  | [] => mret tt
  | k :: ks' =>
      row ← reads (fun s => some_or no_distribution (distribution_tb (distributions s) !! k));
      match row with
      | election_distribution time amount =>
          st ← gets (fun s => Members.stats (members s));
          '(d, used) ← lift (make_distribution (Members.ranks st) time amount);
          push_event (Events.distribution_event_begin (current_time d) (rank_distribution d));;
          change_distribution k (current d);;
          same ← lift (Asset.eqb used amount);
          checkM same
            "Invariant failure: post-election distribution should not be missing a satoshi";;
          election_loop ks'
      | next_distribution _ => mret tt
      | current _ => election_loop ks'
      end
  end.
Definition process_election_distribution : M unit :=
  ks ← gets (fun s => Table.keys (distribution_tb (distributions s)));
  election_loop ks.

(** ** Members who leave or change their name *)

Definition accounts_of (a : Z) (s : state) : list Z :=
  Table.index_while by_owner (account_tb (distributions s)) (Z.shiftl a 64) (fun r => owner r =? a).

(** One account goes back to the pool. *)
Definition return_account (_ : unit) (k : Z) : M unit :=
  row ← reads (fun s => some_or no_distribution (account_tb (distributions s) !! k));
  push_event (Events.distribution_event_return (owner row) (account_time row) (rank row) (balance row) master);;
  add_master (balance row);;
  on_accounts (fun tb => Table.erase tb k).

Definition on_election_kick (a : Z) (max_steps : nat) : M nat :=
  ks ← gets (accounts_of a);
  foldM return_account (take max_steps ks) tt;;
  mret (max_steps - length ks)%nat.

(** The amounts a member of the given rank would still receive. *)
Definition sum_assets (l : list asset) : result asset :=
  match l with
  | [] => Err (Trap "front of an empty vector")
  | a :: l' => foldM Asset.add l' a
  end.

Definition return_pending (m : Members.member) (dist : current_distribution) : M unit :=
  when ((last_processed dist <? Members.account m) && (0 <? Members.election_rank m))
    (checkM (Members.election_rank m <=? Z.of_nat (length (rank_distribution dist)))
       "Invariant failure: rank too high";;
     amount ← lift (sum_assets (take (Z.to_nat (Members.election_rank m)) (rank_distribution dist)));
     reserve ← gets (reserve_key (current_time dist));
     (match reserve with
      | Some k =>
          row ← reads (fun s => some_or no_distribution (account_tb (distributions s) !! k));
          enough ← lift (Asset.leb amount (balance row));
          checkM enough "insufficient balance";;
          exact ← lift (Asset.eqb (balance row) amount);
          on_accounts (fun tb =>
            if exact : bool then Table.erase tb k
            else Table.modify id tb k (fun row =>
                   b ← Asset.sub (balance row) amount; Ok (row <| balance := b |>)))
      | None => checkM (Asset.amount amount =? 0) "insufficient balance"
      end);;
     push_event (Events.distribution_event_return_excess (current_time dist) master amount);;
     add_master amount).

Fixpoint resign_loop (ks : list Z) (m : Members.member) : M unit :=
  match ks with
  | [] => mret tt
  | k :: ks' =>
      row ← reads (fun s => some_or no_distribution (distribution_tb (distributions s) !! k));
      match row with
      | current dist => return_pending m dist;; resign_loop ks' m
      | _ => mret tt
      end
  end.

Definition on_resign (m : Members.member) : M unit :=
  setup_distribution 0;;
  ks ← gets (accounts_of (Members.account m));
  foldM return_account ks tt;;
  ds ← gets (fun s => Table.keys (distribution_tb (distributions s)));
  resign_loop ds m.

Definition on_rename (old_account new_account : Z) : M unit :=
  first ← gets (fun s => head (Table.keys (distribution_tb (distributions s))) ≫=
                         fun k => distribution_tb (distributions s) !! k);
  checkM (match first with Some (current _) => false | _ => true end)
    "Cannot rename member while a distribution is in progress";;
  setup_distribution 0;;
  ks ← gets (accounts_of old_account);
  on_accounts (fun tb => foldM (fun tb k => Table.modify id tb k (fun r => Ok (r <| owner := new_account |>))) ks tb).

(** [distributions::sub_balance] *)
Definition sub_balance (from time rnk : Z) (amount : asset) : M unit :=
  on_accounts (fun tb => Distribution.sub_balance tb from time rnk amount).

End ops.
End DistributionOps.
