(* ===== verification/Money.v ===== *)
(** The contract's funds: what it holds for users, for itself, in withdrawals
    under way and in the distributions' accounts.  [moves] says that a
    computation keeps the money tables well formed and changes the funds of
    each currency by a given amount. *)
From S2P Require Import Prelude Asset MultiIndex Ledger Accounts DistributionTables State.
Open Scope Z_scope.

Module Money.

(** Amounts that a distribution will pay are in range. *)
Definition payable (d : Distribution.distribution) : Prop :=
  match d with
  | Distribution.next_distribution _ => True
  | Distribution.election_distribution _ a => Asset.ranged a
  | Distribution.current c => Forall Asset.ranged (Distribution.rank_distribution c)
  end.

Record wf (s : state) : Prop := {
  wf_users : Accounts.wf (users s);
  wf_owned : Accounts.wf (owned s);
  wf_outgoing : Accounts.wf (outgoing s);
  wf_accounts : Distribution.wf (Distribution.account_tb (distributions s));
  wf_payable : forall k d, Distribution.distribution_tb (distributions s) !! k = Some d -> payable d
}.

(** All the funds in a currency. *)
Definition funds (sym : Z) (s : state) : Z :=
  Accounts.held sym (users s) + Accounts.held sym (owned s) + Accounts.held sym (outgoing s)
  + Distribution.held sym (Distribution.account_tb (distributions s)).

(** [s'] holds [q] more than [s]. *)
Definition shift (q : Z -> Z) (s s' : state) : Prop :=
  wf s -> wf s' /\ forall sym, funds sym s' = funds sym s + q sym.
Definition same : state -> state -> Prop := shift (fun _ => 0).
Definition moves (q : Z -> Z) {A} (m : M A) : Prop := within (shift q) m.
Abbreviation conserves := (within same).

#[global] Instance same_preorder : PreOrder same.
Proof.
  split.
  - intros s Hs. split; [done|]. intros sym. lia.
  - intros s1 s2 s3 H12 H23 H1. destruct (H12 H1) as [H2 E2]. destruct (H23 H2) as [H3 E3].
    split; [done|]. intros sym. rewrite E3, E2. lia.
Qed.

Lemma shift_trans q1 q2 q s1 s2 s3 :
  (forall sym, q sym = q1 sym + q2 sym) -> shift q1 s1 s2 -> shift q2 s2 s3 -> shift q s1 s3.
Proof.
  intros Hq H12 H23 H1. destruct (H12 H1) as [H2 E2]. destruct (H23 H2) as [H3 E3].
  split; [done|]. intros sym. rewrite E3, E2, Hq. lia.
Qed.

Lemma shift_ext q q' s s' : (forall sym, q sym = q' sym) -> shift q s s' -> shift q' s s'.
Proof. intros Hq H Hs. destruct (H Hs) as [H' E]. split; [done|]. intros sym. by rewrite E, Hq. Qed.

Lemma shift_wf q s s' : (wf s -> shift q s s') -> shift q s s'.
Proof. intros H Hs. by apply H. Qed.

(** Changes of the other tables, of events and of what is sent. *)
Lemma same_other s s' :
  users s' = users s -> owned s' = owned s -> outgoing s' = outgoing s ->
  distributions s' = distributions s -> same s s'.
Proof.
  intros H1 H2 H3 H4 [W1 W2 W3 W4 W5]. split.
  - by split; rewrite ?H1, ?H2, ?H3, ?H4.
  - intros sym. unfold funds. rewrite H1, H2, H3, H4. lia.
Qed.

Lemma conserves_push_event ev : conserves (push_event ev).
Proof. intros s a s' [= _ <-]. by apply same_other. Qed.
Lemma conserves_push_events evs : conserves (push_events evs).
Proof. intros s a s' [= _ <-]. by apply same_other. Qed.
Lemma conserves_send a : conserves (send a).
Proof. intros s x s' [= _ <-]. by apply same_other. Qed.
Lemma conserves_send_all l : conserves (send_all l).
Proof. intros s x s' [= _ <-]. by apply same_other. Qed.

(** Computations on the other parts of the state. *)
Lemma conserves_on {S} (part : state -> S) `{!Setter part} f :
  (forall s x, same s (s <| part := x |>)) -> conserves (on part f).
Proof. intros H. apply within_on. intros s x _. apply H. Qed.
Lemma conserves_on_with {S A} (part : state -> S) `{!Setter part} (f : S -> result (S * A)) :
  (forall s x, same s (s <| part := x |>)) -> conserves (on_with part f).
Proof. intros H. apply within_on_with. intros s x a _. apply H. Qed.

(** *** The four ledgers *)

Section ledgers.
Context (q : asset) (Hq : Asset.ranged q).
Abbreviation plus := (fun sym => Ledger.in_symbol sym q).
Abbreviation minus := (fun sym => - Ledger.in_symbol sym q).

Lemma users_credit s o e tb :
  Accounts.add_balance (users s) o q e = Ok tb -> shift plus s (s <| users := tb |>).
Proof.
  intros H [W1 W2 W3 W4 W5]. split.
  - split; cbn; try done. exact (Accounts.add_balance_wf _ _ _ _ _ W1 Hq H).
  - intros sym. unfold funds. cbn. rewrite (Accounts.add_balance_held _ _ _ _ _ sym W1 Hq H). lia.
Qed.
Lemma users_debit s o tb :
  Accounts.sub_balance (users s) o q = Ok tb -> shift minus s (s <| users := tb |>).
Proof.
  intros H [W1 W2 W3 W4 W5]. split.
  - split; cbn; try done. exact (Accounts.sub_balance_wf _ _ _ _ W1 Hq H).
  - intros sym. unfold funds. cbn. rewrite (Accounts.sub_balance_held _ _ _ _ sym W1 Hq H). lia.
Qed.
Lemma owned_credit s o e tb :
  Accounts.add_balance (owned s) o q e = Ok tb -> shift plus s (s <| owned := tb |>).
Proof.
  intros H [W1 W2 W3 W4 W5]. split.
  - split; cbn; try done. exact (Accounts.add_balance_wf _ _ _ _ _ W2 Hq H).
  - intros sym. unfold funds. cbn. rewrite (Accounts.add_balance_held _ _ _ _ _ sym W2 Hq H). lia.
Qed.
Lemma owned_debit s o tb :
  Accounts.sub_balance (owned s) o q = Ok tb -> shift minus s (s <| owned := tb |>).
Proof.
  intros H [W1 W2 W3 W4 W5]. split.
  - split; cbn; try done. exact (Accounts.sub_balance_wf _ _ _ _ W2 Hq H).
  - intros sym. unfold funds. cbn. rewrite (Accounts.sub_balance_held _ _ _ _ sym W2 Hq H). lia.
Qed.
Lemma outgoing_credit s o e tb :
  Accounts.add_balance (outgoing s) o q e = Ok tb -> shift plus s (s <| outgoing := tb |>).
Proof.
  intros H [W1 W2 W3 W4 W5]. split.
  - split; cbn; try done. exact (Accounts.add_balance_wf _ _ _ _ _ W3 Hq H).
  - intros sym. unfold funds. cbn. rewrite (Accounts.add_balance_held _ _ _ _ _ sym W3 Hq H). lia.
Qed.
Lemma outgoing_debit s o tb :
  Accounts.sub_balance (outgoing s) o q = Ok tb -> shift minus s (s <| outgoing := tb |>).
Proof.
  intros H [W1 W2 W3 W4 W5]. split.
  - split; cbn; try done. exact (Accounts.sub_balance_wf _ _ _ _ W3 Hq H).
  - intros sym. unfold funds. cbn. rewrite (Accounts.sub_balance_held _ _ _ _ sym W3 Hq H). lia.
Qed.
End ledgers.

Lemma users_rename s a b tb :
  Accounts.on_rename (users s) a b = Ok tb -> same s (s <| users := tb |>).
Proof.
  intros H [W1 W2 W3 W4 W5]. destruct (Accounts.on_rename_held _ _ _ _ W1 H) as [W E]. split.
  - split; cbn; done.
  - intros sym. unfold funds. cbn. rewrite E. lia.
Qed.

(** The accounts of distributions, given how the table changes. *)
Lemma accounts_shift q s tb :
  (Distribution.wf (Distribution.account_tb (distributions s)) ->
   Distribution.wf tb /\
   forall sym, Distribution.held sym tb =
     Distribution.held sym (Distribution.account_tb (distributions s)) + q sym) ->
  shift q s (s <| distributions := (distributions s) <| Distribution.account_tb := tb |> |>).
Proof.
  intros H [W1 W2 W3 W4 W5]. destruct (H W4) as [W E]. split.
  - by split.
  - intros sym. unfold funds. cbn. rewrite E. lia.
Qed.

(** Changing a distribution keeps the funds when what it promises is payable. *)
Lemma distribution_same s tb :
  (wf s -> forall k d, tb !! k = Some d -> payable d) ->
  same s (s <| distributions := (distributions s) <| Distribution.distribution_tb := tb |> |>).
Proof.
  intros H Hs. pose proof Hs as [W1 W2 W3 W4 W5]. split.
  - split; cbn; try done. by apply H.
  - intros sym. unfold funds. cbn. lia.
Qed.

End Money.
#[export] Hint Extern 2 (within Money.same (on _ _)) =>
  (apply Money.conserves_on; intros; apply Money.same_other; reflexivity) : within.
#[export] Hint Extern 2 (within Money.same (on_with _ _)) =>
  (apply Money.conserves_on_with; intros; apply Money.same_other; reflexivity) : within.
#[export] Hint Resolve Money.conserves_push_event Money.conserves_push_events
  Money.conserves_send Money.conserves_send_all : within.
