(* ===== verification/DistributionMoney.v ===== *)
(** What the operations of DistributionOps.v do to the funds: they move money
    between the owned accounts and the distributions' accounts and never create
    or lose any; and the loop that sets up due distributions ends. *)
From S2P Require Import Prelude Name Time Asset MultiIndex Ledger Host Globals Events Members.
From S2P Require Import ElectionState Accounts DistributionTables State DistributionOps Money.
Open Scope list_scope.
Open Scope Z_scope.

Module DistributionMoney.
Import Distribution DistributionOps Money.

(** ** Amounts stay in range *)

Lemma pool_share_ranged p pct b a :
  Asset.ranged b -> pool_share p pct b = Ok a -> Asset.ranged a.
Proof.
  intros Hb H. unfold pool_share in H. destruct p as [num|].
  - by apply Asset.make_ranged in H as [H _].
  - apply bind_Ok in H as (x & [Hx _]%Asset.mul_ranged & H). by apply (Asset.div_ranged _ _ _ Hx H).
Qed.

Lemma make_loop_ranged rev k per total used acc used' dist :
  Asset.ranged per -> Asset.ranged used -> Forall Asset.ranged acc ->
  make_loop rev k per total used acc = Ok (used', dist) ->
  Asset.ranged used' /\ Forall Asset.ranged dist.
Proof.
  intros Hp. revert k total used acc. induction rev as [|n rev IH]; intros k total used acc Hu Hacc H.
  - injection H as <- <-. done.
  - cbn in H. destruct rev as [|n' rev]; [injection H as <- <-; done|].
    destruct (0 <? wrap 16 (total + n)); [|by eapply IH in H].
    destruct k as [|k].
    + eapply IH in H; [done|done|]. constructor; [|done]. unfold Asset.ranged, Asset.max_amount. cbn. lia.
    + apply bind_Ok in H as (share & Hs & H). apply bind_Ok in H as (this & Ht & H).
      apply bind_Ok in H as (spent & Hsp & H). apply bind_Ok in H as (u & [Hu' _]%Asset.add_ranged & H).
      assert (Asset.ranged share) as Hshare.
      { destruct k; [by apply Asset.mul_ranged in Hs as [? _] | by injection Hs as <-]. }
      apply (Asset.div_ranged _ _ _ Hshare) in Ht as [Ht _]. eapply IH in H; [done|done|by constructor].
Qed.

Lemma make_distribution_ranged ranks t a d used :
  Asset.ranged a -> make_distribution ranks t a = Ok (d, used) ->
  Asset.ranged used /\ Forall Asset.ranged (rank_distribution d) /\ current_time d = t.
Proof.
  intros Ha H. unfold make_distribution in H. apply bind_Ok in H as (top & _ & H).
  apply bind_Ok in H as (per & Hper & H). apply (Asset.div_ranged _ _ _ Ha) in Hper as [Hper _].
  apply bind_Ok in H as (zero & [Hz _]%Asset.make_ranged & H).
  apply bind_Ok in H as ([u dist] & Hl & H). apply make_loop_ranged in Hl as [Hu Hd]; [|done..].
  destruct (negb (top =? 0)).
  - apply bind_Ok in H as (rest & _ & H). apply bind_Ok in H as (dist' & Hadd & H).
    injection H as <- <-. split; [done|]. split; [|done]. cbn.
    unfold add_last in Hadd. apply bind_Ok in Hadd as (x & _ & Hadd).
    apply bind_Ok in Hadd as (b & [Hb _]%Asset.add_ranged & Hadd). injection Hadd as <-.
    by apply Forall_insert.
  - injection H as <- <-. done.
Qed.

(** ** Tables that carry no money *)

Lemma change_distribution_conserves k d : payable d -> conserves (change_distribution k d).
Proof.
  intros Hd. apply within_on. intros s x H. apply bind_Ok in H as (tb & Ht & H). injection H as <-.
  apply Table.modify_Ok in Ht as (r & r' & Hr & [= <-] & Hk & ->).
  apply distribution_same. intros Hs j e [[<- <-]|[_ He]]%lookup_insert_Some; [done|].
  by eapply wf_payable.
Qed.
Lemma put_distribution_conserves d : payable d -> conserves (put_distribution d).
Proof.
  intros Hd. apply within_on. intros s x H. apply bind_Ok in H as (tb & Ht & H). injection H as <-.
  apply Table.emplace_Ok in Ht as [_ ->].
  apply distribution_same. intros Hs j e [[<- <-]|[_ He]]%lookup_insert_Some; [done|].
  by eapply wf_payable.
Qed.
Lemma erase_distribution_conserves k : conserves (erase_distribution k).
Proof.
  apply within_on. intros s x H. apply bind_Ok in H as (tb & Ht & H). injection H as <-.
  apply Table.erase_Ok in Ht as [_ ->].
  apply distribution_same. intros Hs j e [_ He]%lookup_delete_Some. by eapply wf_payable.
Qed.

Lemma init_pools_conserves : conserves init_pools.
Proof.
  unfold init_pools. withins. apply within_on. intros s x H. apply bind_Ok in H as (tb & _ & H).
  injection H as <-. intros [W1 W2 W3 W4 W5]. split; [by split|]. intros sym. unfold funds. cbn. lia.
Qed.
Lemma ensure_pools_conserves : conserves ensure_pools.
Proof. unfold ensure_pools. withins. apply init_pools_conserves. Qed.
#[local] Hint Resolve init_pools_conserves ensure_pools_conserves erase_distribution_conserves : within.

(** ** Reserving and starting *)

Section ops.
Context (c : ctx).

Lemma add_master_shift q : Asset.ranged q -> moves (fun sym => Ledger.in_symbol sym q) (add_master q).
Proof. intros Hq. apply within_on. intros s tb H. by eapply owned_credit. Qed.

Lemma emplace_account_shift own t r q :
  Asset.ranged q ->
  moves (fun sym => Ledger.in_symbol sym q) (on_accounts (fun tb => emplace_account tb own t r q)).
Proof.
  intros Hq. apply within_on. intros s x H. apply bind_Ok in H as (tb & Ht & H). injection H as <-.
  apply accounts_shift. intros Hw. by apply (emplace_account_ledger _ _ _ _ _ _ Hw Hq Ht).
Qed.

Lemma in_symbol_zero sym q : Asset.amount q = 0 -> Ledger.in_symbol sym q = 0.
Proof. unfold Ledger.in_symbol. intros ->. by destruct (_ =? _). Qed.

Lemma in_symbol_add sym a b x :
  Asset.ranged a -> Asset.ranged b -> Asset.add a b = Ok x ->
  Ledger.in_symbol sym x = Ledger.in_symbol sym a + Ledger.in_symbol sym b.
Proof.
  intros Ha Hb (Hs & Hx & Hsx & _)%Asset.add_Ok; [|done..].
  unfold Ledger.in_symbol. rewrite Hx, Hsx, Hs. destruct (_ =? _); lia.
Qed.

Lemma in_symbol_sub sym a b x :
  Asset.ranged a -> Asset.ranged b -> Asset.sub a b = Ok x ->
  Ledger.in_symbol sym x = Ledger.in_symbol sym a - Ledger.in_symbol sym b.
Proof.
  intros Ha Hb (Hs & Hx & Hsx & _)%Asset.sub_Ok; [|done..].
  unfold Ledger.in_symbol. rewrite Hx, Hsx, Hs. destruct (_ =? _); lia.
Qed.

(** What leaves the pools is what the total gains. *)
Lemma reserve_pool_shift p t total k s total' s' :
  wf s -> Asset.ranged total -> reserve_pool p t total k s = Ok (total', s') ->
  Asset.ranged total' /\
  shift (fun sym => Ledger.in_symbol sym total - Ledger.in_symbol sym total') s s'.
Proof.
  intros Hs Ht H. unfold reserve_pool in H.
  apply M_bind_Ok in H as (pl & s1 & [_ ->]%reads_Ok & H).
  apply M_bind_Ok in H as (acc & s1 & Hg & H). injection Hg as <- <-.
  destruct (Accounts.get_account (owned s) (pool_name pl)) as [a|] eqn:Ha.
  - apply M_bind_Ok in H as (am & s1 & [Hsh ->]%lift_Ok & H).
    assert (Asset.ranged am) as Ham.
    { eapply pool_share_ranged, Hsh. by eapply Accounts.wf_ranged; [apply wf_owned|]. }
    apply M_bind_Ok in H as (u & s1 & Hev & H). apply M_bind_Ok in H as (u' & s2 & Hd & H).
    apply conserves_push_event in Hev. apply on_Ok in Hd as (tb & Htb & ->).
    pose proof (owned_debit am Ham _ _ _ Htb) as Hd.
    assert (shift (fun sym => - Ledger.in_symbol sym am) s (s1 <| owned := tb |>)) as Hsd
      by (eapply shift_trans; [|exact Hev|exact Hd]; intros sym; cbn; lia).
    destruct (Z.eqb_spec (Asset.amount total) 0) as [Hz|Hnz].
    + injection H as <- <-. split; [done|]. eapply shift_ext; [|exact Hsd]. intros sym. cbn.
      rewrite (in_symbol_zero sym total Hz). lia.
    + apply lift_Ok in H as [Hadd ->]. split; [by apply Asset.add_ranged in Hadd as [? _]|].
      eapply shift_ext; [|exact Hsd]. intros sym. cbn.
      rewrite (in_symbol_add sym _ _ _ Ht Ham Hadd). lia.
  - injection H as <- <-. split; [done|]. intros Hw. split; [done|]. intros sym. lia.
Qed.

Lemma reserve_pools_shift p t ks total s total' s' :
  wf s -> Asset.ranged total -> foldM (reserve_pool p t) ks total s = Ok (total', s') ->
  Asset.ranged total' /\
  shift (fun sym => Ledger.in_symbol sym total - Ledger.in_symbol sym total') s s'.
Proof.
  revert total s. induction ks as [|k ks IH]; intros total s Hs Ht H; cbn in H.
  - injection H as <- <-. split; [done|]. intros Hw. split; [done|]. intros sym. lia.
  - apply M_bind_Ok in H as (t1 & s1 & H1 & H).
    apply reserve_pool_shift in H1 as [Ht1 Hs1]; [|done..].
    destruct (Hs1 Hs) as [Hw1 _]. apply IH in H as [Ht' Hs']; [|done..].
    split; [done|]. eapply shift_trans; [|exact Hs1|exact Hs']. intros sym. cbn. lia.
Qed.

(** Starting a distribution pays the total into its account, less what goes
    back to the pool. *)
Lemma start_distribution_shift ne k t total :
  Asset.ranged total ->
  moves (fun sym => Ledger.in_symbol sym total) (start_distribution c ne k t total).
Proof.
  intros Ht s u s' H. unfold start_distribution in H.
  apply M_bind_Ok in H as (used & s1 & Hused & H).
  assert (Asset.ranged used /\ same s s1) as [Hu Hs1].
  { destruct (match ne with Some n => t <? n | None => false end).
    - apply M_bind_Ok in Hused as (st & s2 & Hg & Hused). injection Hg as <- <-.
      apply M_bind_Ok in Hused as ([d us] & s2 & [Hmk ->]%lift_Ok & Hused).
      apply make_distribution_ranged in Hmk as (Hus & Hd & _); [|done].
      assert (conserves (push_event (Events.distribution_event_begin (current_time d) (rank_distribution d));;
                change_distribution k (current d);; mret us)) as Hc.
      { withins. by apply change_distribution_conserves. }
      split; [|by eapply Hc]. apply M_bind_Ok in Hused as (u1 & s2 & _ & Hused).
      apply M_bind_Ok in Hused as (u2 & s3 & _ & Hused). by injection Hused as <- _.
    - assert (conserves (change_distribution k (election_distribution t total);; mret total)) as Hc.
      { withins. by apply change_distribution_conserves. }
      split; [|by eapply Hc]. apply M_bind_Ok in Hused as (u2 & s3 & _ & Hused).
      by injection Hused as <- _. }
  apply M_bind_Ok in H as (df & s2 & [Hdf ->]%lift_Ok & H).
  apply M_bind_Ok in H as (u1 & s2 & Hback & H).
  apply fmap_Ok in Hdf as (eq & [Hsy ->]%Asset.compare_with_Ok & <-).
  assert (shift (fun sym => Ledger.in_symbol sym total - Ledger.in_symbol sym used) s1 s2) as Hs2.
  { destruct (Z.eqb_spec (Asset.amount used) (Asset.amount total)) as [Heq|Hne]; cbn in Hback.
    - injection Hback as _ <-. intros Hw. split; [done|]. intros sym.
      unfold Ledger.in_symbol. rewrite Hsy, Heq. lia.
    - apply M_bind_Ok in Hback as (ex & s3 & [Hex ->]%lift_Ok & Hback).
      apply M_bind_Ok in Hback as (u2 & s3 & Hev & Hback).
      apply conserves_push_event in Hev. apply add_master_shift in Hback;
        [|by apply Asset.sub_ranged in Hex as [? _]].
      eapply shift_trans; [|exact Hev|exact Hback]. intros sym. cbn.
      rewrite (in_symbol_sub sym _ _ _ Ht Hu Hex). lia. }
  apply (emplace_account_shift (Host.self (host_of c)) t 0 used Hu) in H.
  assert (shift (fun sym => Ledger.in_symbol sym total) s1 s') as Hs3
    by (eapply shift_trans; [|exact Hs2|exact H]; intros sym; cbn; lia).
  eapply shift_trans; [|exact Hs1|exact Hs3]. intros sym. cbn. lia.
Qed.

Lemma setup_one_conserves ne k : conserves (setup_one c ne k).
Proof.
  intros s r s' H. apply shift_wf. intros Hs. unfold setup_one in H.
  apply M_bind_Ok in H as (row & s1 & [_ ->]%reads_Ok & H).
  destruct row as [t|t a|d]; [|by apply abort_Ok in H..].
  destruct (t <=? _); [|by injection H as _ <-].
  destruct (next_time ne t) as [next prorate].
  apply M_bind_Ok in H as (u1 & s1 & H1%ensure_pools_conserves & H).
  apply M_bind_Ok in H as (ps & s2 & Hg & H). injection Hg as <- <-.
  apply M_bind_Ok in H as (total & s2 & H2 & H).
  destruct (H1 Hs) as [Hw1 _].
  apply reserve_pools_shift in H2 as [Ht H2]; [|done|by unfold Asset.ranged, Asset.max_amount; cbn].
  apply M_bind_Ok in H as (u2 & s3 & H3 & H).
  assert (conserves (push_event (Events.distribution_event_schedule next);;
            put_distribution (next_distribution next);; mret (Some next))) as Hrest.
  { withins. by apply put_distribution_conserves. }
  apply Hrest in H.
  assert (shift (fun sym => Ledger.in_symbol sym total) s2 s3) as H3'.
  { destruct (Z.eqb_spec (Asset.amount total) 0) as [Hz|Hnz]; cbn [negb] in H3.
    - eapply shift_ext; [intros sym; symmetry; by apply in_symbol_zero|].
      assert (conserves (push_event (Events.distribution_event_begin t []);;
         push_event (Events.distribution_event_end t);; erase_distribution k)) as Hc by withins.
      by eapply Hc.
    - by eapply start_distribution_shift. }
  assert (same s1 s3) as H13.
  { eapply shift_trans; [|exact H2|exact H3']. intros sym. cbn.
    rewrite (in_symbol_zero sym Asset.empty eq_refl). lia. }
  etransitivity; [exact H1|]. by etransitivity.
Qed.
#[local] Hint Resolve setup_one_conserves : within.

Lemma setup_loop_conserves fuel ne k b : conserves (setup_loop c fuel ne k b).
Proof.
  revert k b. induction fuel as [|fuel IH]; intros k b; cbn [setup_loop]; [withins|].
  withins; try apply IH.
Qed.

Lemma setup_distribution_conserves init : conserves (setup_distribution c init).
Proof.
  unfold setup_distribution. withins; first [apply setup_loop_conserves | by apply put_distribution_conserves].
Qed.
#[local] Hint Resolve setup_distribution_conserves : within.

Lemma add_to_pool_shift pool q :
  Asset.ranged q -> moves (fun sym => Ledger.in_symbol sym q) (add_to_pool c pool q).
Proof.
  intros Hq s u s' (b & s1 & H1%setup_distribution_conserves & H2)%M_bind_Ok.
  apply on_Ok in H2 as (tb & Htb & ->). eapply shift_trans; [|exact H1|by eapply owned_credit].
  intros sym. cbn. lia.
Qed.

(** ** Paying out *)

(** Taking [q] out of the account [k]. *)
Lemma debit_account_shift k q :
  Asset.ranged q ->
  moves (fun sym => - Ledger.in_symbol sym q)
    (on_accounts (fun tb => Table.modify id tb k (fun row =>
       b ← Asset.sub (balance row) q; Ok (row <| balance := b |>)))).
Proof.
  intros Hq. apply within_on. intros s x H. apply bind_Ok in H as (tb & Ht & H). injection H as <-.
  apply Table.modify_Ok in Ht as (r & r' & Hr & Hf & _ & ->).
  apply bind_Ok in Hf as (b & Hb & Hf). injection Hf as <-.
  apply accounts_shift. intros Hw. destruct (debit_row _ _ _ _ _ Hw Hr Hq Hb) as [Hw' Hh].
  split; [done|]. intros sym. rewrite Hh. lia.
Qed.

Lemma erase_account_shift k a :
  forall s u s', account_tb (distributions s) !! k = Some a ->
  on_accounts (fun tb => Table.erase tb k) s = Ok (u, s') ->
  shift (fun sym => - Ledger.in_symbol sym (balance a)) s s'.
Proof.
  intros s u s' Ha H. unfold on_accounts in H. apply on_Ok in H as (x & H & ->). apply bind_Ok in H as (tb & Ht & H). injection H as <-.
  apply Table.erase_Ok in Ht as [_ ->]. apply accounts_shift. intros Hw.
  destruct (erase_row _ _ _ (balance a) Hw Ha eq_refl eq_refl) as [Hw' Hh].
  split; [done|]. intros sym. rewrite Hh. lia.
Qed.

Lemma within_seq_shift {A B} q1 q2 (m : M A) (f : A -> M B) :
  moves q1 m -> (forall a, moves q2 (f a)) -> moves (fun sym => q1 sym + q2 sym) (m ≫= f).
Proof.
  intros Hm Hf s b s' (a & s1 & H1%Hm & H2%Hf)%M_bind_Ok. by eapply shift_trans.
Qed.

(** What is left of the reserve covers the amount, or the amount is 0. *)
Lemma fund_ranks_conserves n r dist own reserve :
  Forall Asset.ranged (rank_distribution dist) ->
  conserves (fund_ranks n r dist own reserve).
Proof.
  intros Hd. revert r. induction n as [|n IH]; intros r; cbn [fund_ranks]; [withins|].
  intros s u s' H. apply M_bind_Ok in H as (am & s1 & [Ham%some_or_Ok ->]%lift_Ok & H).
  assert (Asset.ranged am) as Hr by (rewrite Forall_lookup in Hd; by eapply Hd).
  apply M_bind_Ok in H as (u1 & s1 & H1%conserves_push_event & H).
  apply M_bind_Ok in H as (u2 & s2 & H2 & H). apply (emplace_account_shift _ _ _ _ Hr) in H2.
  apply M_bind_Ok in H as (u3 & s3 & H3 & H). apply IH in H.
  assert (same s1 s3) as H13.
  { destruct reserve as [k|].
    - apply (debit_account_shift _ _ Hr) in H3. eapply shift_trans; [|exact H2|exact H3].
      intros sym. cbn. lia.
    - apply checkM_Ok in H3 as [Hz%Z.eqb_eq ->]. eapply shift_ext; [|exact H2].
      intros sym. by apply in_symbol_zero. }
  etransitivity; [exact H1|]. by etransitivity.
Qed.

Lemma fund_members_conserves ks dist reserve n :
  Forall Asset.ranged (rank_distribution dist) ->
  conserves (fund_members ks dist reserve n) /\
  forall s d' n' s', fund_members ks dist reserve n s = Ok ((d', n'), s') ->
    rank_distribution d' = rank_distribution dist /\ current_time d' = current_time dist.
Proof.
  revert dist n. induction ks as [|k ks IH]; intros dist n Hd; cbn [fund_members].
  - split; [withins|]. by intros s d' n' s' [= <- <- <-].
  - destruct n as [|n]; [split; [withins|]; by intros s d' n' s' [= <- <- <-]|]. split.
    + withins; [by apply fund_ranks_conserves|]. by apply IH.
    + intros s d' n' s' H. apply M_bind_Ok in H as (m & s1 & _ & H).
      apply M_bind_Ok in H as (u1 & s2 & _ & H). apply M_bind_Ok in H as (u2 & s3 & _ & H).
      by apply IH in H.
Qed.

Lemma settle_conserves reserve : conserves (settle_reserve reserve).
Proof.
  unfold settle_reserve. destruct reserve as [k|]; [|withins].
  intros s u s' H. apply M_bind_Ok in H as (row & s1 & [Hrow%some_or_Ok ->]%reads_Ok & H).
  apply M_bind_Ok in H as (u1 & s1 & [_ ->]%checkM_Ok & H).
  destruct (Z.eqb_spec (Asset.amount (balance row)) 0) as [Hz|]; cbn in H; [|by injection H as _ <-].
  eapply shift_ext; [|by eapply erase_account_shift].
  intros sym. cbn. rewrite (in_symbol_zero _ _ Hz). lia.
Qed.

Lemma fund_distribution_conserves dist n :
  Forall Asset.ranged (rank_distribution dist) ->
  conserves (fund_distribution c dist n) /\
  forall s d' n' s', fund_distribution c dist n s = Ok ((d', n'), s') ->
    Forall Asset.ranged (rank_distribution d').
Proof.
  intros Hd. unfold fund_distribution. split.
  - withins; [by apply fund_members_conserves | apply settle_conserves].
  - intros s d' n' s' H. apply M_bind_Ok in H as (res & s1 & _ & H).
    apply M_bind_Ok in H as (ks & s2 & _ & H). apply M_bind_Ok in H as ([d2 n2] & s3 & Hf & H).
    apply M_bind_Ok in H as (u & s4 & _ & H). injection H as <- _ _.
    destruct (fund_members_conserves ks dist res n Hd) as [_ Hsame].
    by destruct (Hsame _ _ _ _ Hf) as [-> _].
Qed.

Lemma distribute_loop_conserves ks n : conserves (distribute_loop c ks n).
Proof.
  revert n. induction ks as [|k ks IH]; intros n; cbn [distribute_loop]; [withins|].
  destruct n as [|n]; [withins|].
  intros s r s' H. apply shift_wf. intros Hs.
  apply M_bind_Ok in H as (row & s1 & [Hrow%some_or_Ok ->]%reads_Ok & H).
  destruct row as [t|t a|dist]; [by injection H as _ <-..|].
  pose proof (wf_payable _ Hs _ _ Hrow) as Hd. cbn in Hd.
  apply M_bind_Ok in H as ([copy steps] & s1 & Hf & H).
  destruct (fund_distribution_conserves dist (S n) Hd) as [Hc Hcopy].
  etransitivity; [by eapply Hc|].
  destruct steps as [|steps].
  - assert (conserves (change_distribution k (current copy);; mret 0%nat)) as Hx; [|by eapply Hx].
    withins. apply change_distribution_conserves. cbn. by eapply Hcopy.
  - assert (conserves (push_event (Events.distribution_event_end (current_time dist));;
              erase_distribution k;; distribute_loop c ks steps)) as Hx; [|by eapply Hx].
    withins.
Qed.

Lemma distribute_monthly_conserves n : conserves (distribute_monthly c n).
Proof. unfold distribute_monthly. withins; apply distribute_loop_conserves. Qed.

Lemma election_loop_conserves ks : conserves (election_loop ks).
Proof.
  induction ks as [|k ks IH]; cbn [election_loop]; [withins|].
  intros s r s' H. apply shift_wf. intros Hs.
  apply M_bind_Ok in H as (row & s1 & [Hrow%some_or_Ok ->]%reads_Ok & H).
  destruct row as [t|t a|dist]; [by injection H as _ <- | | by eapply IH].
  pose proof (wf_payable _ Hs _ _ Hrow) as Ha. cbn in Ha.
  apply M_bind_Ok in H as (st & s1 & Hg & H). injection Hg as <- <-.
  apply M_bind_Ok in H as ([d us] & s1 & [Hmk ->]%lift_Ok & H).
  apply make_distribution_ranged in Hmk as (_ & Hd & _); [|done].
  assert (conserves (push_event (Events.distribution_event_begin (current_time d) (rank_distribution d));;
            change_distribution k (current d);;
            same ← lift (Asset.eqb us a);
            checkM same
              "Invariant failure: post-election distribution should not be missing a satoshi";;
            election_loop ks)) as Hx; [|by eapply Hx].
  withins. by apply change_distribution_conserves.
Qed.

Lemma process_election_distribution_conserves : conserves process_election_distribution.
Proof. unfold process_election_distribution. withins. apply election_loop_conserves. Qed.

(** ** Money that comes back *)

Lemma return_account_conserves u k : conserves (return_account u k).
Proof.
  intros s r s' H. apply shift_wf. intros Hs. unfold return_account in H.
  apply M_bind_Ok in H as (row & s1 & [Hrow%some_or_Ok ->]%reads_Ok & H).
  pose proof (wf_ranged _ (wf_accounts _ Hs) _ _ Hrow) as Hr.
  apply M_bind_Ok in H as (u1 & s1 & Hev & H). pose proof Hev as Hev'.
  apply conserves_push_event in Hev. injection Hev' as _ <-.
  apply M_bind_Ok in H as (u2 & s2 & Ha & H). pose proof Ha as Ha'.
  apply (add_master_shift _ Hr) in Ha. unfold add_master in Ha'. apply on_Ok in Ha' as (tb & _ & ->).
  eapply erase_account_shift in H; [|exact Hrow].
  etransitivity; [exact Hev|]. eapply shift_trans; [|exact Ha|exact H]. intros sym. cbn. lia.
Qed.

Lemma on_election_kick_conserves a n : conserves (on_election_kick a n).
Proof. unfold on_election_kick. withins. apply return_account_conserves. Qed.

Lemma sum_assets_ranged l a : Forall Asset.ranged l -> sum_assets l = Ok a -> Asset.ranged a.
Proof.
  destruct l as [|x l]; [done|]. intros Hl H. inversion Hl as [|? ? Hx _]; subst. cbn in H.
  eapply (foldM_inv Asset.ranged); [|exact Hx|exact H].
  intros y z y' _ _ Hyz. by apply Asset.add_ranged in Hyz as [? _].
Qed.

Lemma return_pending_conserves m dist :
  Forall Asset.ranged (rank_distribution dist) -> conserves (return_pending c m dist).
Proof.
  intros Hd. unfold return_pending. apply within_when; [apply _|].
  apply within_bind; [apply _|withins|intros ?].
  intros s r s' H. apply shift_wf. intros Hs.
  apply M_bind_Ok in H as (am & s1 & [Hsum ->]%lift_Ok & H).
  assert (Asset.ranged am) as Ham.
  { eapply sum_assets_ranged, Hsum. by apply Forall_take. }
  apply M_bind_Ok in H as (res & s1 & Hg & H). injection Hg as <- <-.
  apply M_bind_Ok in H as (u1 & s1 & H1 & H).
  apply M_bind_Ok in H as (u2 & s2 & H2%conserves_push_event & H).
  apply (add_master_shift _ Ham) in H.
  assert (shift (fun sym => - Ledger.in_symbol sym am) s s1) as Hs1.
  { destruct (reserve_key c (current_time dist) s) as [k|].
    - apply M_bind_Ok in H1 as (row & s3 & [Hrow%some_or_Ok ->]%reads_Ok & H1).
      apply M_bind_Ok in H1 as (en & s3 & [_ ->]%lift_Ok & H1).
      apply M_bind_Ok in H1 as (u3 & s3 & [_ ->]%checkM_Ok & H1).
      apply M_bind_Ok in H1 as (ex & s3 & [[Hsy ->]%Asset.compare_with_Ok ->]%lift_Ok & H1).
      destruct (Z.eqb_spec (Asset.amount (balance row)) (Asset.amount am)) as [Heq|Hne].
      + eapply shift_ext; [|by eapply erase_account_shift]. intros sym. cbn.
        unfold Ledger.in_symbol. by rewrite Hsy, Heq.
      + by apply (debit_account_shift _ _ Ham) in H1.
    - apply checkM_Ok in H1 as [Hz%Z.eqb_eq ->]. intros Hw. split; [done|]. intros sym.
      rewrite (in_symbol_zero _ _ Hz). lia. }
  eapply shift_trans; [|exact Hs1|]; [|eapply shift_trans; [|exact H2|exact H]; reflexivity].
  intros sym. cbn. lia.
Qed.

Lemma resign_loop_conserves ks m : conserves (resign_loop c ks m).
Proof.
  induction ks as [|k ks IH]; cbn [resign_loop]; [withins|].
  intros s r s' H. apply shift_wf. intros Hs.
  apply M_bind_Ok in H as (row & s1 & [Hrow%some_or_Ok ->]%reads_Ok & H).
  destruct row as [t|t a|dist]; [by injection H as _ <-..|].
  pose proof (wf_payable _ Hs _ _ Hrow) as Hd. cbn in Hd.
  apply M_bind_Ok in H as (u & s1 & H1 & H). etransitivity; [by eapply return_pending_conserves|].
  by eapply IH.
Qed.

Lemma on_resign_conserves m : conserves (on_resign c m).
Proof. unfold on_resign. withins; [apply return_account_conserves | apply resign_loop_conserves]. Qed.

Lemma on_rename_conserves a b : conserves (DistributionOps.on_rename c a b).
Proof.
  unfold DistributionOps.on_rename. withins. apply within_on. intros s x H.
  apply bind_Ok in H as (tb & Ht & H). injection H as <-. apply accounts_shift. intros Hw.
  eapply (foldM_inv (fun tb => Distribution.wf tb /\ forall sym, held sym tb =
            held sym (account_tb (distributions s)) + 0)); [| |exact Ht].
  - cbn. intros t k t' _ [Hwt Hh] Hm. apply Table.modify_Ok in Hm as (r & r' & Hr & [= <-] & Hk & ->).
    pose proof (wf_ranged _ Hwt _ _ Hr) as Hb. split; [by apply dist_wf_insert|].
    intros sym. rewrite <- Hh. unfold held. rewrite (map_sum_update _ _ r) by done. cbn. lia.
  - split; [done|]. intros sym. lia.
Qed.

Lemma sub_balance_shift from t r q :
  Asset.ranged q ->
  moves (fun sym => - Ledger.in_symbol sym q) (DistributionOps.sub_balance from t r q).
Proof.
  intros Hq. apply within_on. intros s x H. apply bind_Ok in H as (tb & Ht & H). injection H as <-.
  apply accounts_shift. intros Hw. destruct (sub_balance_ledger _ _ _ _ _ _ Hw Hq Ht) as [Hw' Hh].
  split; [done|]. intros sym. rewrite Hh. lia.
Qed.

(** ** The loop ends *)

Lemma month_later t :
  0 <= t -> t + month_slots < 2 ^ 32 ->
  Time.block_of_time_point (Time.to_time_point t + Time.days 30) = t + month_slots.
Proof.
  intros H0 Ht. unfold Time.block_of_time_point, Time.to_time_point, Time.days, Time.hours, Time.minutes,
    Time.seconds, Time.milliseconds, Time.block_timestamp_epoch, Time.block_interval_ms, month_slots in *.
  rewrite (Z.quot_div_nonneg (_ + _)) by lia.
  replace ((t * 500 + 946684800000) * 1000 + 60 * (60 * (24 * 30)) * 1000000)
    with ((t * 500 + 946684800000 + 2592000000) * 1000) by lia.
  rewrite Z.div_mul by lia.
  replace (t * 500 + 946684800000 + 2592000000 - 946684800000) with ((t + 5184000) * 500) by lia.
  rewrite Z.quot_mul by lia. rewrite wrap_small; lia.
Qed.

Abbreviation now := (Host.current_block_time (host_of c)).

(** A round that does something goes on at the next distribution's row. *)
Lemma setup_one_next ne k s k' s' :
  (forall d, distribution_tb (distributions s) !! k = Some d -> distribution_time d = k) ->
  setup_one c ne k s = Ok (Some k', s') ->
  k <= now /\ k' = (next_time ne k).1 /\
  distribution_tb (distributions s') !! k' = Some (next_distribution k').
Proof.
  intros Hk H. unfold setup_one in H.
  apply M_bind_Ok in H as (row & s1 & [Hrow%some_or_Ok ->]%reads_Ok & H). apply Hk in Hrow.
  destruct row as [t|t a|d]; [|by apply abort_Ok in H..]. cbn in Hrow. subst t.
  destruct (Z.leb_spec k now) as [Hle|Hgt]; [|done]. split; [done|].
  destruct (next_time ne k) as [next prorate]. cbn.
  apply M_bind_Ok in H as (u1 & s1 & _ & H). apply M_bind_Ok in H as (ps & s2 & _ & H).
  apply M_bind_Ok in H as (total & s3 & _ & H). apply M_bind_Ok in H as (u2 & s4 & _ & H).
  apply M_bind_Ok in H as (u3 & s5 & _ & H). apply M_bind_Ok in H as (u4 & s6 & H5 & H).
  injection H as <- <-. split; [done|]. unfold put_distribution in H5. apply on_Ok in H5 as (x & Hx & ->).
  apply bind_Ok in Hx as (tb & [_ ->]%Table.emplace_Ok & Hx). injection Hx as <-. cbn.
  by rewrite lookup_insert_eq.
Qed.

(** How many more rounds there can be. *)
Definition rounds_left (ne : option Z) (k : Z) : Z :=
  Z.max 0 ((now - k) / month_slots) + (match ne with Some n => if k <? n then 1 else 0 | None => 0 end)
  + (if k <=? now then 1 else 0) + 1.

Lemma rounds_left_fuel ne k : rounds_left ne k <= Z.of_nat (setup_fuel c k).
Proof.
  unfold rounds_left, setup_fuel. rewrite Z2Nat.id by lia.
  destruct ne as [n|]; [destruct (k <? n)|]; destruct (k <=? _); lia.
Qed.

Lemma rounds_left_decreases ne k :
  0 <= k <= now -> now + month_slots < 2 ^ 32 ->
  rounds_left ne (next_time ne k).1 < rounds_left ne k /\ 0 <= (next_time ne k).1.
Proof.
  intros Hk Hn. unfold next_time. rewrite month_later by lia.
  assert (0 < month_slots) as Hm by (unfold month_slots; lia).
  assert (rounds_left ne (k + month_slots) < rounds_left ne k) as Hmonth.
  { unfold rounds_left. replace (now - (k + month_slots)) with (now - k + (-1) * month_slots) by lia.
    rewrite Z.div_add by lia. pose proof (Z.div_pos (now - k) month_slots ltac:(lia) Hm).
    destruct (Z.leb_spec k now) as [_|]; [|lia].
    assert (0 < (now - k) / month_slots \/ now < k + month_slots) as [Hd|Hd].
    { destruct (Z.lt_ge_cases now (k + month_slots)); [by right|]. left.
      apply Z.div_str_pos. lia. }
    - destruct (_ <=? now); destruct ne as [n|]; try destruct (Z.ltb_spec k n);
        try destruct (Z.ltb_spec (k + month_slots) n); lia.
    - rewrite (Z.div_small (now - k)) by lia. destruct (Z.leb_spec (k + month_slots) now); [lia|].
      destruct ne as [n|]; try destruct (Z.ltb_spec k n);
        try destruct (Z.ltb_spec (k + month_slots) n); lia. }
  destruct ne as [n|]; cbn; [|split; [done|lia]].
  destruct (Z.ltb_spec n (k + month_slots)); cbn; [|split; [done|lia]].
  destruct (Z.ltb_spec k n); cbn; [|split; [done|lia]]. split; [|lia].
  unfold rounds_left. rewrite Z.ltb_irrefl. destruct (Z.ltb_spec k n); [|lia].
  assert ((now - n) / month_slots <= (now - k) / month_slots) by (apply Z.div_le_mono; lia).
  destruct (Z.leb_spec k now); [|lia]. destruct (Z.leb_spec n now); lia.
Qed.

Lemma setup_loop_ends fuel ne k b s r s' :
  0 <= k -> now + month_slots < 2 ^ 32 -> rounds_left ne k <= Z.of_nat fuel ->
  (forall d, distribution_tb (distributions s) !! k = Some d -> distribution_time d = k) ->
  setup_loop c fuel ne k b s = Ok (r, s') ->
  exists b' k', r = Some b' /\ now < k' /\
    distribution_tb (distributions s') !! k' = Some (next_distribution k').
Proof.
  revert k b s. induction fuel as [|fuel IH]; intros k b s H0 Hn Hf Hk H.
  - exfalso. unfold rounds_left in Hf. destruct (k <=? now); destruct ne as [n|]; try destruct (k <? n); lia.
  - cbn [setup_loop] in H. apply M_bind_Ok in H as (next & s1 & H1 & H).
    destruct next as [k'|].
    + apply setup_one_next in H1 as (Hle & -> & Hk'); [|done].
      destruct (rounds_left_decreases ne k) as [Hlt Hpos]; [lia|done|].
      eapply IH; [exact Hpos|done|lia| |exact H]. intros d. rewrite Hk'. by intros [= <-].
    + injection H as <- <-. exists b, k. split; [done|]. unfold setup_one in H1.
      apply M_bind_Ok in H1 as (row & s2 & [Hrow%some_or_Ok ->]%reads_Ok & H1).
      pose proof (Hk _ Hrow) as Hd. destruct row as [t|t a|d]; [|by apply abort_Ok in H1..].
      cbn in Hd. subst t. destruct (Z.leb_spec k now) as [Hle|Hgt].
      * destruct (next_time ne k) as [nx pr]. exfalso.
        apply M_bind_Ok in H1 as (u1 & s3 & _ & H1). apply M_bind_Ok in H1 as (ps & s4 & _ & H1).
        apply M_bind_Ok in H1 as (total & s5 & _ & H1). apply M_bind_Ok in H1 as (u2 & s6 & _ & H1).
        apply M_bind_Ok in H1 as (u3 & s7 & _ & H1). by apply M_bind_Ok in H1 as (u4 & s8 & _ & H1).
      * injection H1 as <-. done.
Qed.

Lemma setup_loop_more fuel extra ne k b s :
  0 <= k -> now + month_slots < 2 ^ 32 -> rounds_left ne k <= Z.of_nat fuel ->
  (forall d, distribution_tb (distributions s) !! k = Some d -> distribution_time d = k) ->
  setup_loop c (fuel + extra) ne k b s = setup_loop c fuel ne k b s.
Proof.
  revert k b s. induction fuel as [|fuel IH]; intros k b s H0 Hn Hf Hk.
  - exfalso. unfold rounds_left in Hf. destruct (k <=? now); destruct ne as [n|]; try destruct (k <? n); lia.
  - cbn [Nat.add setup_loop]. unfold mbind, M_bind.
    destruct (setup_one c ne k s) as [[[k'|] s1]|e] eqn:H1; [|done..]. cbn.
    apply setup_one_next in H1 as (Hle & -> & Hk'); [|done].
    destruct (rounds_left_decreases ne k) as [Hlt Hpos]; [lia|done|].
    apply IH; [exact Hpos|done|lia|]. intros d. rewrite Hk'. by intros [= <-].
Qed.

(** C40: the loop that reserves the money of the distributions that are due
    ends: with as many rounds as months have passed since the first one, and
    three more, its outcome, aborts included, no longer depends on the number
    of rounds allowed; and when it succeeds it leaves a distribution scheduled
    in the future. *)
Theorem setup_distribution_ends ne k b s :
  0 <= k -> now + month_slots < 2 ^ 32 ->
  (forall d, distribution_tb (distributions s) !! k = Some d -> distribution_time d = k) ->
  (forall fuel, (setup_fuel c k <= fuel)%nat ->
    setup_loop c fuel ne k b s = setup_loop c (setup_fuel c k) ne k b s) /\
  forall r s', setup_loop c (setup_fuel c k) ne k b s = Ok (r, s') ->
    exists b' k', r = Some b' /\ now < k' /\
      distribution_tb (distributions s') !! k' = Some (next_distribution k').
Proof.
  intros H0 Hn Hk. pose proof (rounds_left_fuel ne k) as Hf. split.
  - intros fuel Hle. replace fuel with (setup_fuel c k + (fuel - setup_fuel c k))%nat by lia.
    by apply setup_loop_more.
  - intros r s' H. by apply (setup_loop_ends _ _ _ _ _ _ _ H0 Hn Hf Hk H).
Qed.
End ops.

(** Nothing was distributed for about three months. *)
Definition late_ctx : ctx :=
  mk_ctx (Host.mk (Name.n "eden.gm") (fun _ => true) (fun _ _ => true) (fun _ => true) 1700000000000000)
    Host.demo_env (Nft.Nft.mk_tables ∅ (fun _ => 0) (fun _ => None) (fun _ => None) ∅ ∅).
Definition late : Z := Host.current_block_time (host_of late_ctx) - 3 * month_slots.
Definition late_state : state :=
  empty_state <| distributions := mk_store {[ late := next_distribution late ]} ∅ ∅ |>.

Lemma setup_distribution_ends_witness :
  (exists s', setup_loop late_ctx (setup_fuel late_ctx late) None late false late_state = Ok (Some true, s') /\
     length (events s') = 13%nat) /\
  (forall fuel, (setup_fuel late_ctx late <= fuel)%nat ->
    setup_loop late_ctx fuel None late false late_state =
    setup_loop late_ctx (setup_fuel late_ctx late) None late false late_state) /\
  forall r s', setup_loop late_ctx (setup_fuel late_ctx late) None late false late_state = Ok (r, s') ->
    exists b' k', r = Some b' /\ Host.current_block_time (host_of late_ctx) < k' /\
      distribution_tb (distributions s') !! k' = Some (next_distribution k').
Proof.
  split.
  - eexists. split; vm_compute; reflexivity.
  - apply (setup_distribution_ends late_ctx None late false late_state).
    + by vm_compute.
    + by vm_compute.
    + intros d Hd. cbn in Hd. rewrite lookup_singleton_eq in Hd. by injection Hd as <-.
Defined.
End DistributionMoney.
#[export] Hint Resolve DistributionMoney.init_pools_conserves DistributionMoney.setup_distribution_conserves
  DistributionMoney.distribute_monthly_conserves DistributionMoney.process_election_distribution_conserves
  DistributionMoney.on_election_kick_conserves DistributionMoney.on_resign_conserves
  DistributionMoney.on_rename_conserves : within.
