(* ===== verification/MemberOps.v ===== *)
(** The operations on members that also touch sessions, elections or the
    configuration ([contracts/eden/src/members.cpp]), as computations on the
    state of the contract. *)
From S2P Require Import Prelude Name Time MultiIndex Host Globals Events Members ElectionState.
From S2P Require Import Sessions State.
Open Scope string_scope.
Open Scope list_scope.
Open Scope Z_scope.

Module MemberOps.

(** The constructors of most components read the configuration; without it
    every action that uses them aborts. *)
Definition global : M Globals.global_data_v1 := reads (fun s => Globals.get (globals s)).
Definition installed : M unit := global;; mret tt.

Section ops.
Context (c : ctx).
Abbreviation now := (Host.current_time_point (host_of c)).

Definition check_active_member (a : Z) : M unit :=
  reads (fun s => Members.check_active_member (members s) a).
Definition check_pending_member (a : Z) : M unit :=
  reads (fun s => Members.check_pending_member (members s) a).

(** [remove_sessions(contract, eden_account)] *)
Definition remove_sessions (a : Z) : M unit :=
  evs ← on_with sessions (fun tb => Sessions.remove_sessions tb a);
  push_events evs.

(** [members::erase] *)
Definition erase (m : Members.member) : M unit :=
  on members (fun s => Members.erase_stats s m);;
  remove_sessions (Members.account m);;
  on members (fun s => Members.erase_row s (Members.account m)).

Definition remove (a : Z) : M unit :=
  m ← reads (fun s => some_or (Check "Unknown member") (Members.member_tb (members s) !! a));
  erase m.

Definition remove_if_pending (a : Z) : M unit :=
  m ← reads (fun s => Table.get (Members.member_tb (members s)) a "unable to find key");
  when (Members.status m =? Members.pending_membership)
    (remove_sessions a;;
     on members (fun s => Members.erase_row s a);;
     on members Members.count_removed_pending).

Definition rename (a new : Z) : M unit :=
  reads (fun s => some_or (Check "Unknown member") (Members.member_tb (members s) !! a));;
  remove_sessions a;;
  on members (fun s => Members.rename_row s a new).

(** Registration closes a day before the election. *)
Definition registration_open (election_time : Z) : bool :=
  now + Time.seconds Globals.election_seeding_window <? Time.to_time_point election_time.
Definition election_opt (m : Members.member) (participating : bool) : M unit :=
  s ← gets elections;
  on members (fun ms => Members.election_opt ms m participating
                          (Votes.get_next_election_time s) (Votes.election_schedule_version s)
                          registration_open).

(** Genesis is over once no initial member is pending; then the supply of
    their NFTs is locked. *)
Definition maybe_activate_contract : M unit :=
  g ← global;
  st ← gets (fun s => Members.stats (members s));
  when (bool_decide (Globals.stage (Globals.base g) = Globals.genesis) &&
        (Members.pending_members st =? 0))
    (on globals (fun s => Globals.set_stage s Globals.active);;
     ms ← gets (fun s => Table.rows (Members.member_tb (members s)));
     send_all ((fun m => Events.locktemplate (Members.nft_template_id m)) <$> ms)).

Definition clear_all : M unit := on members (fun s => Ok (Members.clear_all s)).

End ops.
End MemberOps.
