(* ===== verification/ElectionOps.v ===== *)
(** The phases of an election ([contracts/eden/src/elections.cpp]): how it is
    scheduled, seeded, started, prepared, run round by round and finished, and
    how the board follows resignations and changes of name.  The work of a
    phase is bounded by a number of steps and resumes where it stopped. *)
From S2P Require Import Prelude Name Time MultiIndex Crypto Host Globals Events Members ElectionConfig Rng.
From S2P Require Import ElectionState Time Encrypt Bylaws State DistributionOps MemberOps.
Open Scope string_scope.
Open Scope list_scope.
Open Scope Z_scope.

Module ElectionOps.
Import Votes Config.

(** [operator==] of the states: the seeding alternatives compare the seed
    only, and version 0 of the others does not compare the schedule version. *)
Definition same_state (a b : current_election_state) : bool :=
  match a, b with
  | seeding_phase v s, seeding_phase v' s' => Bool.eqb v v' && bool_decide (seed s = seed s')
  | registering false r, registering false r' =>
      (reg_start_time r =? reg_start_time r') && (election_threshold r =? election_threshold r')
  | init_phase false i, init_phase false i' =>
      (next_member_idx i =? next_member_idx i') && bool_decide (init_rng i = init_rng i') &&
      (last_processed i =? last_processed i') && (init_report_index i =? init_report_index i')
  | _, _ => bool_decide (a = b)
  end.

(** [vector::front] *)
Definition front {A} (l : list A) : result A := some_or (Trap "front of an empty vector") (head l).

(** [set_board_permission]: two permissions whose authority is the board. *)
Definition actor_le (a b : Z * Z) : Prop := a.1 <= b.1.
#[global] Instance actor_le_dec a b : Decision (actor_le a b).
Proof. unfold actor_le. apply _. Defined.
Definition board_accounts (self : Z) (board : list Z) : list (Z * Z) :=
  merge_sort actor_le
    ((if bool_decide (board = []) then [(self, 1)] else []) ++ ((fun m => (m, 1)) <$> board)).
Definition major_threshold (board : list Z) : Z :=
  wrap 32 (Z.of_nat (length board) * 2 / 3 + 1).
Definition minor_threshold (self : Z) (board : list Z) : Z :=
  wrap 32 (Z.of_nat (length (board_accounts self board)) + 1 - major_threshold board).
Definition board_permission (self : Z) (board : list Z) : list inline_action :=
  let accounts := board_accounts self board in
  [Events.updateauth self (Name.n "board.major") (Name.n "active")
     (Events.mk_authority (major_threshold board) accounts);
   Events.updateauth self (Name.n "board.minor") (Name.n "active")
     (Events.mk_authority (minor_threshold self board) accounts)].

(** The size of the group that starts at an index: the larger groups come
    first. *)
Definition group_size_at (cfg : round_config) (i : Z) : Z :=
  wrap 32 (group_min_size cfg +
           (if i <? wrap 32 (num_large_groups cfg * group_max_size cfg) then 1 else 0)).

Section ops.
Context (c : ctx).
Abbreviation self := (Host.self (host_of c)).
Abbreviation now := (Host.current_time_point (host_of c)).
Abbreviation now_block := (Host.current_block_time (host_of c)).
Abbreviation e := (env_of c).
Abbreviation make_config := (make_election_config (Host.log_floor e)).

Definition get_state : M current_election_state := reads (fun s => Votes.get_state (elections s)).
Definition put_state (v : current_election_state) : M unit :=
  on elections (fun s => Ok (s <| state_sing := Some v |>)).
Definition get_results : M election_state_v0 := reads (fun s => Votes.get_election_state (elections s)).
Definition put_results (r : election_state_v0) : M unit :=
  on elections (fun s => Ok (s <| election_state := Some r |>)).
Definition state_exists : M bool := gets (fun s => bool_decide (is_Some (state_sing (elections s)))).

Definition report_state (v : current_election_state) : M unit :=
  match v with
  | registering true r =>
      push_event (Events.election_event_schedule (reg_start_time r) (election_threshold r))
  | seeding_phase true sd =>
      push_event (Events.election_event_seeding (Rng.end_time (seed sd)) (Rng.start_time (seed sd))
                    (Rng.end_time (seed sd)) (Rng.current (seed sd)))
  | final_phase sd =>
      r ← get_results;
      push_event (Events.election_event_seeding (last_election_time r) (Rng.start_time sd)
                    (Rng.end_time sd) (Rng.current sd))
  | _ => mret tt
  end.
Definition set_state_sing (v : current_election_state) : M unit :=
  old ← gets (fun s => state_sing (elections s));
  if (match old with Some o => same_state o v | None => false end) then mret tt
  else report_state v;; put_state v.

(** ** Scheduling *)

Definition set_next_election_time (election_time : Z) : M unit :=
  let lock_time := now + Time.days 1 in
  checkM (lock_time <=? election_time) "New election time is too close!";;
  state ← gets (fun s => state_sing (elections s));
  sequence ← (match state with
    | None => mret 1
    | Some (registering _ r) =>
        let sequence := wrap 8 (reg_version r + 1) in
        checkM (negb (sequence =? 0)) "Integer overflow: election rescheduled too many times";;
        checkM (Time.block_of_time_point lock_time <=? reg_start_time r)
          "Election cannot be rescheduled";;
        mret sequence
    | Some _ => abort "Election cannot be rescheduled"
    end);
  set_state_sing (registering true
    (mk_registration (Time.block_of_time_point election_time) (Globals.max_active_members + 1) sequence)).

Definition finish_curr_election (election_time : Z) : M unit :=
  set_state_sing (registering true
    (mk_registration (Time.block_of_time_point election_time) (Globals.max_active_members + 1) 1)).

(** [time_point_sec + microseconds] as seconds again. *)
Definition sec_plus (s us : Z) : Z := Time.sec_of_time_point (Time.time_point_of_sec s + us).

Definition threshold_for (active_members : Z) : Z :=
  let t := wrap 16 (active_members + (active_members + 9) / 10) in
  Z.min (Z.max t Globals.min_election_threshold) Globals.max_active_members.

Definition set_default_election (origin_time : Z) : M unit :=
  g ← MemberOps.global;
  st ← gets (fun s => Members.stats (members s));
  set_state_sing (registering true
    (mk_registration
       (Time.block_of_sec (Schedule.get_election_time (Globals.election_start_time g)
                             (sec_plus origin_time (Time.days 3))))
       (threshold_for (Members.active_members st)) 1)).

Definition trigger_election : M unit :=
  g ← MemberOps.global;
  if Globals.election_start_time g =? 0xffffffff then set_state_sing pending_date
  else
    exists_ ← state_exists;
    checkM exists_ "Invariant failure: missing election state";;
    current_state ← get_state;
    match current_state with
    | registering _ current =>
        let new_start_time := Time.block_of_sec
          (Schedule.get_election_time (Globals.election_start_time g)
             (sec_plus (Time.sec_of_time_point now) (Time.days 30))) in
        when (new_start_time <? reg_start_time current)
          (let sequence := wrap 8 (reg_version current + 1) in
           checkM (negb (sequence =? 0)) "Integer overflow: election rescheduled too many times";;
           set_state_sing (registering true
             (mk_registration new_start_time (Globals.max_active_members + 1) sequence)))
    | _ => mret tt
    end.

Definition set_time (day : Z) (time : string) : M unit :=
  t ← lift (Schedule.parse_time day time);
  on globals (fun g => Globals.set_election_start_time g t);;
  state ← gets (fun s => state_sing (elections s));
  match state with
  | None => set_default_election (Time.sec_of_time_point now)
  | Some pending_date => trigger_election
  | Some _ => mret tt
  end.

(** ** Seeding and start *)

(** Registration closes when the first seed arrives. *)
Definition open_seeding (state : current_election_state) : M current_election_state :=
  match state with
  | registering _ r =>
      let seeding_start := Time.block_of_time_point
        (Time.to_time_point (reg_start_time r) - Time.seconds Globals.election_seeding_window) in
      checkM (seeding_start <=? now_block) "Cannot start seeding yet";;
      push_event (Events.election_event_begin (reg_start_time r));;
      mret (seeding_phase true
        (mk_seeding (Rng.mk_seeder Rng.default_current seeding_start (reg_start_time r)) (reg_version r)))
  | _ => mret state
  end.

Definition seed_with (btc_header : list Z) : M unit :=
  checkM (Nat.eqb (length btc_header) 80) "Wrong size for BTC block header";;
  state ← get_state;
  state ← open_seeding state;
  state ← (match state with
    | seeding_phase v1 sd =>
        s' ← lift (Rng.update e (seed sd) btc_header);
        mret (seeding_phase v1 (mk_seeding s' (seed_version sd)))
    | final_phase sd => s' ← lift (Rng.update e sd btc_header); mret (final_phase s')
    | _ => abort "Cannot seed election now"
    end);
  set_state_sing state.

Definition start_election : M unit :=
  old_state ← get_state;
  match old_state with
  | seeding_phase _ sd =>
      let election_start := Rng.end_time (seed sd) in
      checkM (election_start <=? now_block) "Seeding window is still open";;
      set_state_sing (init_phase true
        (mk_init 0 (Rng.init (Rng.current (seed sd))) 0 0 (seed_version sd)));;
      push_event (Events.election_event_end_seeding election_start);;
      (* must happen after the election is started *)
      DistributionOps.setup_distribution c election_start;;
      old ← gets (fun s => default (mk_election_state 0 [] 0) (election_state (elections s)));
      put_results (old <| last_election_time := election_start |>);;
      on members (fun s => Ok (Members.clear_ranks s));;
      on bylaws Bylaws.new_board
  | _ => abort "Election seed not set"
  end.

(** ** Preparing the first round *)

Fixpoint randomize_voters (ks : list Z) (st : init_voters) (max_steps : nat) : M (init_voters * nat) :=
  match max_steps, ks with
  | S n, k :: ks' =>
      m ← reads (fun s => some_or (Trap "dangling member") (Members.member_tb (members s) !! k));
      st ← (if Members.status m =? Members.active_member then
              if Members.election_participation_status m =? init_version st then
                '(rng, idx) ← on_with elections (fun s =>
                   '(vt, rng, idx) ← add_voter e (vote_tb s) (init_rng st) 0 (next_member_idx st)
                                       (Members.account m);
                   Ok (s <| vote_tb := vt |>, (rng, idx)));
                mret (mk_init idx rng (last_processed st) (init_report_index st) (init_version st))
              else
                on members (fun s => Members.set_rank s (Members.account m) 0 Members.no_representative);;
                mret st
            else mret st);
      randomize_voters ks'
        (mk_init (next_member_idx st) (init_rng st) (Members.account m) (init_report_index st) (init_version st)) n
  | _, _ => mret (st, max_steps)
  end.

(** [report_create_group]: the members of the next rows of the index. *)
Fixpoint report_rows (n : nat) (vt : vote_table) (it : option (Z * Z)) (voters : list Z)
    : result (list Z * option (Z * Z)) :=
  match n with
  | O => Ok (voters, it)
  | S n' =>
      entry ← some_or (Trap "dereferenced the end of an index") it;
      row ← some_or (Trap "dangling index entry") (vt !! entry.2);
      report_rows n' vt (Table.index_next by_index vt entry) (voters ++ [member row])
  end.
(** Reports groups until the index ends; returns the next index to report. *)
Fixpoint report_groups (max_steps : nat) (cfg : round_config) (rnd election_start : Z)
    (it : option (Z * Z)) (next : Z) : M (Z * nat) :=
  match max_steps, it with
  | S n, Some _ =>
      let group_size := group_size_at cfg next in
      vt ← gets (fun s => vote_tb (elections s));
      '(voters, it') ← lift (report_rows (Z.to_nat (wrap 8 group_size)) vt it []);
      push_event (Events.election_event_create_group election_start rnd voters);;
      report_groups n cfg rnd election_start it' (wrap 16 (next + group_size))
  | _, _ => mret (next, max_steps)
  end.

Definition round_end_in (secs : Z) : Z := Time.block_of_time_point (now + Time.seconds secs).
Definition index_at (rnd i : Z) (s : state) : option (Z * Z) :=
  Table.index_lower_bound by_index (vote_tb (elections s)) (group_key rnd i).

(** ** The end of an election *)

Definition set_board_permission (board : list Z) : M unit := send_all (board_permission self board).
Definition link_board_permission : M unit :=
  send (Events.linkauth self self (Name.n "rename") (Name.n "board.major")).

Definition take_board : M (list Z) :=
  on_with elections (fun s => '(vt, board) ← extract_board (vote_tb s); Ok (s <| vote_tb := vt |>, board)).
Definition set_rank (m rnk repr : Z) : M unit := on members (fun s => Members.set_rank s m rnk repr).

Definition finish_election (new_board : list Z) (winner : Z) : M unit :=
  result ← get_results;
  let result := result <| lead_representative := winner |> <| board := new_board |> in
  st ← gets (fun s => Members.stats (members s));
  let rnd := wrap 8 (Z.of_nat (length (Members.ranks st))) in
  foldM (fun _ m => when (negb (m =? winner)) (set_rank m rnd winner)) new_board tt;;
  set_rank winner (wrap 8 (rnd + 1)) winner;;
  put_results result;;
  DistributionOps.process_election_distribution;;
  set_board_permission new_board;;
  r ← get_results;
  let start := last_election_time r in
  push_events
    ((if negb (rnd =? 0) then [Events.election_event_end_seeding start] else []) ++
     [Events.election_event_end_round_voting start rnd;
      Events.election_event_report_group start rnd winner ((fun m => Events.mk_vote m 0) <$> new_board);
      Events.election_event_end_round start rnd;
      Events.election_event_end start]);;
  set_default_election (Time.sec_of_time_point (Time.to_time_point (last_election_time result))).

(** The part of [prepare_election] after the voters are shuffled: the first
    round is reported and voting begins.  [None] as a state: the election is
    already over. *)
Definition announce_election (v1 : bool) (st : init_voters) (max_steps : nat)
    : M (option current_election_state * nat) :=
  checkM (0 <? next_member_idx st) "No voters";;
  r ← get_results;
  let start := last_election_time r in
  configs ← lift (make_config (next_member_idx st));
  cfg ← lift (front configs);
  let one_round := Nat.eqb (length configs) 1 in
  when (init_report_index st =? 0)
    (push_events
       [Events.election_event_config_summary start (wrap 8 (Z.of_nat (length configs))) (num_participants cfg);
        Events.election_event_create_round start 0 (negb one_round) (num_participants cfg) (num_groups cfg)]);;
  it ← gets (index_at 0 (init_report_index st));
  '(next, steps) ← report_groups max_steps cfg 0 start it (init_report_index st);
  let st := st <| init_report_index := next |> in
  match steps with
  | O => mret (Some (init_phase v1 st), O)
  | S n =>
      g ← MemberOps.global;
      push_event (Events.election_event_begin_round_voting start 0 (Time.block_of_time_point now)
                    (round_end_in (if one_round then 0 else Globals.election_round_time_sec g)));;
      if one_round then
        new_board ← take_board;
        winner ← lift (front new_board);
        finish_election new_board winner;;
        mret (None, n)
      else
        mret (Some (active_phase (mk_active 0 cfg (Rng.seed (init_rng st))
                                    (round_end_in (Globals.election_round_time_sec g)))), n)
  end.

Definition save (result : option current_election_state * nat) : M nat :=
  (match result.1 with Some state => set_state_sing state | None => mret tt end);;
  mret result.2.

(** The voters are shuffled after the distributions of the past term are
    complete: ranks must not change before. *)
Definition prepare_voters (v1 : bool) (st : init_voters) (max_steps : nat) : M nat :=
  max_steps ← DistributionOps.distribute_monthly c max_steps;
  match max_steps with
  | O => mret O
  | S _ =>
      ks ← gets (fun s => Table.upper_bound_keys (Members.member_tb (members s)) (last_processed st));
      '(st, max_steps) ← randomize_voters ks st max_steps;
      match max_steps with
      | O => save (Some (init_phase v1 st), O)
      | S _ => result ← announce_election v1 st max_steps; save result
      end
  end.

Definition prepare_election (max_steps : nat) : M nat :=
  state ← get_state;
  match state, max_steps with
  | seeding_phase _ _, O => mret O
  | seeding_phase _ _, S n =>
      start_election;;
      state ← get_state;
      match state with
      | init_phase v1 st => prepare_voters v1 st n
      | _ => save (Some state, n)
      end
  | init_phase v1 st, _ => prepare_voters v1 st max_steps
  | _, _ => save (Some state, max_steps)
  end.

(** ** Between rounds *)

Definition adjust_seed (sd : Z) : Z :=
  Host.sha256 e (Crypto.extract_as_byte_array sd ++ Crypto.le_bytes 4 now_block).

(** [name.value & 0xF]: no name of an account ends in these bits. *)
Definition is_account_name (n : Z) : bool := Z.land n 0xF =? 0.

(** Closes the group at an iterator: its winner goes on to the next round,
    the others get the rank they reached. *)
Definition close_group (start : Z) (data : post_round) (it : option (Z * Z)) (first : vote)
    : M (post_round * option (Z * Z)) :=
  let cfg := prev_config data in
  let rnd := prev_round data in
  let group_size := group_size_at cfg (next_input_index data) in
  on enc_election (fun tb => Encrypt.erase tb (group_key rnd (member_index_to_group cfg (index first))));;
  '(it, (winner, t)) ← on_with elections (fun s =>
     '(vt, it, r) ← finish_group (vote_tb s) it (wrap 8 group_size); Ok (s <| vote_tb := vt |>, (it, r)));
  push_event (Events.election_event_report_group start rnd winner (votes t));;
  data ← (if is_account_name winner then
            '(rng, idx) ← on_with elections (fun s =>
               '(vt, rng, idx) ← add_voter e (vote_tb s) (post_rng data) (wrap 8 (rnd + 1))
                                   (next_output_index data) winner;
               Ok (s <| vote_tb := vt |>, (rng, idx)));
            mret (data <| post_rng := rng |> <| next_output_index := idx |>)
          else mret data);
  foldM (fun _ v => when (negb (v =? winner)) (set_rank v rnd winner)) (voted t ++ missing t) tt;;
  mret (data <| next_input_index ::= fun i => wrap 16 (i + group_size) |>, it).

Fixpoint close_groups (max_steps : nat) (start : Z) (data : post_round) (it : option (Z * Z))
    : M (post_round * nat) :=
  match max_steps, it with
  | S n, Some entry =>
      row ← reads (fun s => some_or (Trap "dangling index entry") (vote_tb (elections s) !! entry.2));
      if round row =? prev_round data then
        '(data, it) ← close_group start data it row;
        close_groups n start data it
      else mret (data, max_steps)
  | _, _ => mret (data, max_steps)
  end.

(** The next round is announced; if it has one group its members are the
    board, and the lead representative is drawn after a final seeding. *)
Definition next_round (start : Z) (data : post_round) (config : list round_config) (max_steps : nat)
    : M (current_election_state * nat) :=
  let rnd := wrap 8 (prev_round data + 1) in
  match max_steps with
  | O => mret (post_phase data, O)
  | S _ =>
      cfg ← lift (front config);
      let one_round := Nat.eqb (length config) 1 in
      when (next_report_index data =? 0)
        (push_events
           [Events.election_event_end_round start (prev_round data);
            Events.election_event_create_round start rnd (negb one_round) (num_participants cfg) (num_groups cfg)]);;
      it ← gets (index_at rnd (next_report_index data));
      '(next, steps) ← report_groups max_steps cfg rnd start it (next_report_index data);
      let data := data <| next_report_index := next |> in
      match steps with
      | O => mret (post_phase data, O)
      | S n =>
          g ← MemberOps.global;
          let time := if one_round then Globals.election_final_seeding_window
                      else Globals.election_round_time_sec g in
          push_event (Events.election_event_begin_round_voting start rnd (Time.block_of_time_point now)
                        (round_end_in time));;
          mret (if one_round then
                  final_phase (Rng.mk_seeder Rng.default_current (Time.block_of_time_point now)
                                 (round_end_in Globals.election_final_seeding_window))
                else active_phase (mk_active rnd cfg (Rng.seed (post_rng data)) (round_end_in time)), n)
      end
  end.

Definition finish_post (start : Z) (data : post_round) (max_steps : nat) : M nat :=
  it ← gets (index_at (prev_round data) (next_input_index data));
  '(data, max_steps) ← close_groups max_steps start data it;
  config ← lift (make_config (next_output_index data));
  '(state, max_steps) ← next_round start data config max_steps;
  set_state_sing state;;
  mret max_steps.

Definition finish_final (sd : Rng.election_seeder) (max_steps : nat) : M nat :=
  match max_steps with
  | S n =>
      if Rng.end_time sd <=? now_block then
        new_board ← take_board;
        let '(i, _) := Rng.uniform e (Z.of_nat (length new_board) - 1) (Rng.init (Rng.current sd)) in
        winner ← lift (some_or (Trap "vector index out of range") (new_board !! Z.to_nat i));
        finish_election new_board winner;;
        mret n
      else mret max_steps
  | O => mret O
  end.

Definition finish_round (max_steps : nat) : M nat :=
  exists_ ← state_exists;
  if (exists_ : bool) then
    state ← get_state;
    r ← get_results;
    let start := last_election_time r in
    match state with
    | active_phase prev =>
        if now_block <? round_end prev then mret max_steps
        else
          push_event (Events.election_event_end_round_voting start (active_round_no prev));;
          finish_post start
            (mk_post (Rng.init (adjust_seed (saved_seed prev))) (active_round_no prev) (config prev) 0 0 0)
            max_steps
    | final_phase sd => finish_final sd max_steps
    | post_phase data => finish_post start data max_steps
    | _ => mret max_steps
    end
  else mret max_steps.

(** ** Votes and the board *)

Definition vote_for (rnd voter cand : Z) : M unit :=
  on elections (fun s => cast_vote s now_block rnd voter cand).

(** Returns whether the member was the lead representative.  The row is
    written before that field is cleared, in a local copy. *)
Definition remove_from_board (m : Z) : M bool :=
  r ← gets (fun s => election_state (elections s));
  match r with
  | None => mret false
  | Some value =>
      (if bool_decide (m ∈ board value) then
         let value := value <| board ::= Bylaws.erase_first m |> in
         put_results value;; set_board_permission (board value)
       else mret tt);;
      mret (m =? lead_representative value)
  end.

Definition check_not_running (msg : string) : M unit :=
  running ← gets (fun s => is_election_running (elections s) now_block);
  checkM (negb running) msg.

Definition on_resign (m : Z) : M unit :=
  check_not_running "Cannot resign during an election";;
  lead ← remove_from_board m;
  when lead trigger_election.

(** [*pos = new_account] at the first occurrence. *)
Fixpoint replace_first (old new : Z) (l : list Z) : list Z :=
  match l with [] => [] | x :: l' => if x =? old then new :: l' else x :: replace_first old new l' end.

Definition on_rename (old_account new_account : Z) : M unit :=
  check_not_running "Cannot rename account during an election";;
  r ← gets (fun s => election_state (elections s));
  match r with
  | None => mret tt
  | Some value =>
      value ← (if bool_decide (old_account ∈ board value) then
                 let value := value <| board ::= replace_first old_account new_account |> in
                 put_results value;; set_board_permission (board value);; mret value
               else mret value);
      when (old_account =? lead_representative value)
        (put_results (value <| lead_representative := new_account |>))
  end.

Definition clear_all : M unit := on elections (fun s => Ok (Votes.clear_all s)).

End ops.
End ElectionOps.
