(* ===== verification/Actions.v ===== *)
(** The actions of the contract ([contracts/eden/src/actions/]), each as the
    computation its method performs, with the authorizations it asks for. *)
From S2P Require Import Prelude Name Time Asset MultiIndex Crypto Host Globals Events Members ElectionConfig.
From S2P Require Import Rng ElectionState Encrypt Accounts Nft Inductions Bylaws Sessions.
From S2P Require Import DistributionTables State DistributionOps MemberOps ElectionOps.
Open Scope string_scope.
Open Scope list_scope.
Open Scope Z_scope.

Module Actions.
Import MemberOps.

Definition edendelegate : Z := Name.n "edendelegate".
Definition master : Z := Name.n "master".

Section actions.
Context (c : ctx).
Abbreviation h := (host_of c).
Abbreviation e := (env_of c).
Abbreviation self := (Host.self h).
Abbreviation now_block := (Host.current_block_time h).

Definition require_auth (a : Z) : M unit := lift (Host.require_auth h a).
Definition require_permission (a p : Z) : M unit := lift (Host.require_permission h a p).
Definition current_time_sec : Z := Time.sec_of_time_point (Host.current_time_point h).

(** [session_info::require_auth]: an action inside [run] is authorized by the
    session, any other by the transaction. *)
Definition session_auth (session : option Z) (a : Z) : M unit :=
  match session with
  | None => require_auth a
  | Some b =>
      checkM (a =? b)
        ("need authorization of " ++ Name.name_to_string a ++ " but have authorization of " ++
         Name.name_to_string b)%string
  end.

Definition check_active : M unit := g ← global; lift (Globals.check_active g).
Definition check_token (quantity : asset) : M unit :=
  g ← global;
  checkM (Asset.symbol quantity =? Globals.default_token g)
    ("token must be a valid " ++ Symbol.to_string (Globals.default_token g))%string.
Definition is_genesis : M bool :=
  g ← global; mret (bool_decide (Globals.stage (Globals.base g) = Globals.genesis)).

(** Parts of the state. *)
Definition add_user (a : Z) (q : asset) (enforce_minimum : bool) : M unit :=
  on users (fun tb => Accounts.add_balance tb a q enforce_minimum).
Definition sub_user (a : Z) (q : asset) : M unit := on users (fun tb => Accounts.sub_balance tb a q).
Definition on_inductions (f : Inductions.store -> result Inductions.store) : M unit := on inductions f.
Definition get_induction (i : Z) : M Inductions.induction :=
  reads (fun s => Inductions.get_induction (inductions s) i).
Definition get_endorsed_induction (a : Z) : M Inductions.induction :=
  reads (fun s => Inductions.get_endorsed_induction (inductions s) a).

(** While the accounts are being summed the running total follows the
    balances already visited. *)
Definition adjust_migration (m : Accounts.migrate_account_v0) (a : Z) (q : asset) : M unit :=
  m ← lift (Accounts.adjust_balance m a q);
  on migration (fun s => Migrations.set s (Migrations.migrate_account_v0 m)).
Definition get_account_migration : M (option Accounts.migrate_account_v0) :=
  gets (fun s => Migrations.get_account_migration (migration s)).
Definition migration_completed : M bool := gets (fun s => Migrations.is_completed (migration s)).

(** ** Money (actions/accounts.cpp) *)

Definition notify_transfer (from to : Z) (quantity : asset) (memo : string) : M unit :=
  if from =? self then
    installed;;
    owner ← (if to =? edendelegate then lift (Name.of_string memo) else mret to);
    on outgoing (fun tb => Accounts.sub_balance tb owner quantity)
  else if negb (to =? self) then mret tt
  else
    check_token quantity;;
    if Accounts.is_possible_deposit_account from Accounts.atomic_assets_account
         Accounts.atomic_market_account && negb (bool_decide (memo = "donate")) then
      add_user from quantity true;;
      m ← get_account_migration;
      match m with
      | Some m => adjust_migration m from quantity
      | None => mret tt
      end
    else
      completed ← migration_completed;
      when completed (DistributionOps.add_to_pool c master quantity).

Definition withdraw (owner : Z) (quantity : asset) : M unit :=
  require_auth owner;;
  check_token quantity;;
  sub_user owner quantity;;
  m ← get_account_migration;
  (match m with Some m => adjust_migration m owner (Asset.opp quantity) | None => mret tt end);;
  on outgoing (fun tb => Accounts.add_balance tb owner quantity false);;
  send (Events.token_transfer self edendelegate quantity (Name.name_to_string owner)).

Definition donate (owner : Z) (quantity : asset) : M unit :=
  require_auth owner;;
  check_token quantity;;
  checkM (0 <? Asset.amount quantity) "Donation must be positive";;
  completed ← migration_completed;
  checkM completed "Tables must be migrated to enable donations";;
  sub_user owner quantity;;
  DistributionOps.add_to_pool c master quantity.

(** An action that bounds its work by a number of steps has to make some. *)
Definition must_progress (max_steps : nat) (work : nat -> M nat) : M unit :=
  remaining ← work max_steps;
  checkM (negb (Nat.eqb remaining max_steps)) "Nothing to do".

Definition distribute (max_steps : nat) : M unit :=
  must_progress max_steps (fun n => when (negb (Nat.eqb n 0)) installed;;
                                    DistributionOps.distribute_monthly c n).

Definition check_transfer (from to : Z) (amount : asset) (memo : string) : M unit :=
  checkM (0 <? Asset.amount amount) "amount must be positive";;
  checkM (Nat.leb (String.length memo) 256) "Memo has more than 256 bytes";;
  require_auth from;;
  installed;;
  check_active_member from;;
  check_active_member to.

Definition fundtransfer (from distribution_time rank to : Z) (amount : asset) (memo : string) : M unit :=
  check_transfer from to amount memo;;
  DistributionOps.sub_balance from distribution_time rank amount;;
  add_user to amount false.

Definition usertransfer (from to : Z) (amount : asset) (memo : string) : M unit :=
  check_transfer from to amount memo;;
  sub_user from amount;;
  add_user to amount false.

(** ** Inductions (actions/induct.cpp) *)

Definition inductinit (session : option Z) (i inviter invitee : Z) (witnesses : list Z) : M unit :=
  session_auth session inviter;;
  check_active;;
  check_active_member inviter;;
  foldM (fun _ w => check_active_member w) witnesses tt;;
  new ← gets (fun s => Members.is_new_member (members s) invitee);
  (if new : bool then on members (fun s => Members.create s invitee) else check_pending_member invitee);;
  on_inductions (fun s => Inductions.initialize_induction h s i inviter invitee witnesses).

Definition inductmeetin (session : option Z) (a i : Z) (keys : list Encrypt.encrypted_key)
    (data : list Z) (old_data : option (list Z)) : M unit :=
  session_auth session a;;
  check_active;;
  endorser ← gets (fun s => Inductions.is_endorser (inductions s) i a);
  checkM endorser "Cannot create this meeting";;
  ind ← get_induction i;
  participants ← gets (fun s => Inductions.get_endorsers (inductions s) i ++ [Inductions.invitee ind]);
  reads (fun s => Members.check_keys (members s) participants keys);;
  on_inductions (fun s => enc ← Encrypt.set (Inductions.encrypted s) i keys data old_data;
                          Ok (s <| Inductions.encrypted := enc |>)).

Definition inductprofil (session : option Z) (i : Z) (p : Inductions.new_member_profile) : M unit :=
  installed;;
  ind ← get_induction i;
  session_auth session (Inductions.invitee ind);;
  check_pending_member (Inductions.invitee ind);;
  on_inductions (fun s => Inductions.update_profile h e s ind p);;
  genesis_ ← is_genesis;
  when genesis_ (on_inductions (fun s => Inductions.endorse_all s ind)).

Definition inductvideo (session : option Z) (a i : Z) (video : string) : M unit :=
  session_auth session a;;
  installed;;
  ind ← get_induction i;
  check_active;;
  check_pending_member (Inductions.invitee ind);;
  endorser ← gets (fun s => Inductions.is_endorser (inductions s) i a);
  checkM endorser "Video can only be set by inviter or a witness";;
  on_inductions (fun s => Inductions.update_video h e s ind video).

Definition inductendors (session : option Z) (a i data_hash : Z) : M unit :=
  session_auth session a;;
  installed;;
  ind ← get_induction i;
  check_pending_member (Inductions.invitee ind);;
  endorser ← gets (fun s => Inductions.is_endorser (inductions s) i a);
  checkM endorser "Induction can only be endorsed by inviter or a witness";;
  check_active_member a;;
  on_inductions (fun s => Inductions.endorse h e s ind a data_hash).

Definition inductdonate (payer i : Z) (quantity : asset) : M unit :=
  require_auth payer;;
  g ← global;
  ind ← get_induction i;
  lift (Inductions.check_valid_induction h ind);;
  checkM (payer =? Inductions.invitee ind) "only inductee may donate using this action";;
  right_amount ← lift (Asset.eqb quantity (Globals.minimum_donation (Globals.base g)));
  checkM right_amount "incorrect donation";;
  sub_user payer quantity;;
  m ← get_account_migration;
  completed ← migration_completed;
  (match m with
   | Some m => adjust_migration m payer (Asset.opp quantity)
   | None => when completed (DistributionOps.add_to_pool c master quantity)
   end);;
  sends ← on_with inductions (fun s => Inductions.create_nft s (Globals.stage (Globals.base g)) ind);
  send_all sends.

(** A new member may bring the next election forward. *)
Definition maybe_trigger : M unit :=
  state ← gets (fun s => Votes.state_sing (elections s));
  st ← gets (fun s => Members.stats (members s));
  match state with
  | Some (Votes.registering _ r) =>
      when (Votes.election_threshold r <=? Members.active_members st) (ElectionOps.trigger_election c)
  | _ => mret tt
  end.

Definition inducted (inductee : Z) : M unit :=
  require_auth self;;
  installed;;
  ind ← get_endorsed_induction inductee;
  on members (fun s => Members.set_active s inductee (Inductions.name (Inductions.profile ind)));;
  on_inductions (fun s => Inductions.erase_induction s ind);;
  remaining ← on_with inductions (fun s => Inductions.erase_by_inductee s inductee Globals.max_gc_on_induction);
  when (Nat.eqb remaining 0) (on_inductions (fun s => Inductions.queue_gc s inductee));;
  maybe_activate_contract;;
  maybe_trigger.

(** The key of an asset in the market's index. *)
Definition asset_key (asset_id : Z) : Z := Host.sha256 e (Crypto.le_bytes 8 asset_id).

Definition gc (limit : nat) : M unit :=
  installed;;
  '(removed_members, remaining) ← on_with inductions (fun s =>
     '(s, removed, n) ← Inductions.gc h s limit; Ok (s, (removed, n)));
  remaining ← (if negb (Nat.eqb remaining 0) then
     '(sent, n) ← on_with auctions (fun tb =>
        '(tb, sent, n) ← Auctions.finish_auctions h (nft_of c) asset_key tb remaining; Ok (tb, (sent, n)));
     send_all sent;; mret n
   else mret remaining);
  '(evs, remaining) ← on_with sessions (fun tb =>
     '(tb, evs, n) ← Sessions.gc_sessions now_block tb remaining; Ok (tb, (evs, n)));
  push_events evs;;
  checkM (negb (Nat.eqb remaining limit)) "Nothing to do.";;
  when (negb (bool_decide (removed_members = [])))
    (foldM (fun _ m => remove_if_pending m) removed_members tt;; maybe_activate_contract).

Definition inductcancel (session : option Z) (a i : Z) : M unit :=
  session_auth session a;;
  genesis_ ← is_genesis;
  (if genesis_ : bool then checkM (a =? self) "Only an admin can cancel genesis inductions"
   else
     is_invitee ← reads (fun s => Inductions.is_invitee (inductions s) i a);
     endorser ← gets (fun s => Inductions.is_endorser (inductions s) i a);
     checkM (is_invitee || endorser)
       "Induction can only be canceled by an endorser or the invitee itself");;
  ind ← get_induction i;
  let invitee := Inductions.invitee ind in
  on_inductions (fun s => Inductions.erase_induction s ind);;
  more ← gets (fun s => Inductions.has_induction (inductions s) invitee);
  when (negb more)
    (remove_if_pending invitee;;
     when genesis_
       (on_inductions (fun s => Inductions.erase_endorser s invitee);; maybe_activate_contract)).

Definition resign (a : Z) : M unit :=
  require_auth a;;
  installed;;
  check_active_member a;;
  m ← reads (fun s => Members.get_member (members s) a);
  DistributionOps.on_resign c m;;
  ElectionOps.on_resign c a;;
  remove a;;
  on bylaws (fun tb => Bylaws.on_resign tb a).

Definition rename (a new : Z) : M unit :=
  require_auth new;;
  require_permission self (Name.n "board.major");;
  installed;;
  on users (fun tb => Accounts.on_rename tb a new);;
  check_active_member a;;
  DistributionOps.on_rename c a new;;
  ElectionOps.on_rename c a new;;
  on_inductions (fun s => Inductions.on_rename s a new);;
  MemberOps.rename a new;;
  on bylaws (fun tb => Bylaws.on_rename tb a new);;
  reads (fun s => Migrations.on_rename (migration s)).

End actions.
End Actions.
