(* ===== verification/Governance.v ===== *)
(** The actions about elections, bylaws, keys, sessions and the notifications
    of the NFT contract ([contracts/eden/src/actions/elect.cpp], bylaws.cpp,
    encrypt.cpp, sessions.cpp, notify_assets.cpp). *)
From S2P Require Import Prelude Name Time Asset MultiIndex Crypto Host Globals Events Members ElectionConfig.
From S2P Require Import Rng ElectionState Encrypt Accounts Nft Inductions Bylaws Sessions.
From S2P Require Import DistributionTables State DistributionOps MemberOps ElectionOps Actions.
Open Scope string_scope.
Open Scope list_scope.
Open Scope Z_scope.

Module Governance.
Import MemberOps Actions.

Section actions.
Context (c : ctx).
Abbreviation h := (host_of c).
Abbreviation e := (env_of c).
Abbreviation self := (Host.self h).
Abbreviation now := (Host.current_time_point h).
Abbreviation now_block := (Host.current_block_time h).

(** ** Elections *)

Definition electsettime (election_time : Z) : M unit :=
  require_auth c self;;
  installed;;
  ElectionOps.set_next_election_time c (Time.time_point_of_sec election_time).

Definition electconfig (day : Z) (time : string) (round_duration : Z) : M unit :=
  require_auth c self;;
  installed;;
  ElectionOps.set_time c day time;;
  on globals (fun g => Globals.set_election_round_duration g round_duration).

Definition electopt (session : option Z) (voter : Z) (participating : bool) : M unit :=
  session_auth c session voter;;
  installed;;
  m ← reads (fun s => Members.get_member (members s) voter);
  election_opt c m participating.

Definition electseed (btc_header : list Z) : M unit :=
  installed;;
  ElectionOps.seed_with c btc_header.

Definition electmeeting (session : option Z) (a rnd : Z) (keys : list Encrypt.encrypted_key)
    (data : list Z) (old_data : option (list Z)) : M unit :=
  session_auth c session a;;
  installed;;
  group_id ← reads (fun s => Votes.get_group_id (elections s) now_block a rnd);
  group ← reads (fun s => Votes.get_group_members (elections s) now_block group_id);
  reads (fun s => Members.check_keys (members s) group keys);;
  on enc_election (fun tb => Encrypt.set tb group_id keys data old_data).

Definition electvote (session : option Z) (rnd voter cand : Z) : M unit :=
  session_auth c session voter;;
  installed;;
  ElectionOps.vote_for c rnd voter cand.

Definition electvideo (session : option Z) (rnd voter : Z) (video : string) : M unit :=
  session_auth c session voter;;
  installed;;
  allowed ← reads (fun s => Votes.can_upload_video (elections s) now rnd voter);
  member_allowed ← gets (fun s => Members.can_upload_video (members s) rnd voter);
  checkM (default member_allowed allowed) "Cannot upload video for this election round";;
  lift (Nft.validate_ipfs e video).

Definition electprocess (max_steps : nat) : M unit :=
  installed;;
  must_progress max_steps (fun n => r ← ElectionOps.prepare_election c n; ElectionOps.finish_round c r).

Definition finishelect (election_time : Z) : M unit :=
  require_auth c self;;
  installed;;
  ElectionOps.finish_curr_election (Time.time_point_of_sec election_time).

(** The statistics may be those of any contract, but only one's own tables can
    be written. *)
Definition own_table (contract : Z) : M unit :=
  lift (if contract =? self then Ok tt else Err (Trap "db access violation")).
Definition changerank (contract : Z) (ranks : list Z) : M unit :=
  require_auth c self;;
  installed;;
  own_table contract;;
  on members (fun s => Ok (Members.set_ranks s ranks)).
Definition clearrank (contract : Z) (ranks : list Z) : M unit :=
  require_auth c self;;
  installed;;
  own_table contract;;
  on members (fun s => Ok (Members.clear_ranks s)).

(** ** Bylaws *)

Definition bylawspropose (proposer : Z) (text : string) : M unit :=
  require_auth c proposer;;
  state ← ElectionOps.get_results;
  on bylaws (fun tb => Bylaws.set_proposed now_block tb state proposer text).

(** The bylaws of the given state must exist before the board is looked at. *)
Definition approve_bylaws (current_state next_state approver hash : Z) : M unit :=
  require_auth c approver;;
  pos ← gets (fun s => bylaws s !! current_state);
  (match pos with
   | Some pos =>
       checkM (Host.sha256 e (Bylaws.bytes_of_string (Bylaws.text pos)) =? hash)
         ("bylaws hash does not match " ++ Name.name_to_string current_state ++ " bylaws")%string
   | None => abort ("No " ++ Name.name_to_string current_state ++ " bylaws")%string
   end);;
  state ← ElectionOps.get_results;
  installed;;
  next_election_time ← gets (fun s => Votes.get_next_election_time (elections s));
  on bylaws (fun tb =>
    Bylaws.approve e now_block tb state next_election_time current_state next_state approver hash).
Definition bylawsapprove (approver hash : Z) : M unit :=
  approve_bylaws Bylaws.proposed Bylaws.pending approver hash.
Definition bylawsratify (approver hash : Z) : M unit :=
  approve_bylaws Bylaws.pending Bylaws.ratified approver hash.

(** ** Keys and sessions *)

Definition setencpubkey (m : Z) (key : public_key) : M unit :=
  require_auth c m;;
  installed;;
  on members (fun s => Members.set_key s m key).

Definition newsession (a : Z) (key : public_key) (expiration : Z) (description : string) : M unit :=
  require_auth c a;;
  checkM (Crypto.index key <? 2) "unsupported key type";;
  checkM (now_block <? expiration) "session is expired";;
  checkM (expiration <=? Time.block_of_time_point (Time.to_time_point now_block + Time.days 90))
    "expiration is too far in the future";;
  checkM (Nat.leb (String.length description) 20) "description is too long";;
  installed;;
  reads (fun s => Members.get_member (members s) a);;
  evs ← on_with sessions (fun tb => Sessions.new_session now_block tb a key expiration description);
  push_events evs.

Definition delsession (session : option Z) (a : Z) (key : public_key) : M unit :=
  session_auth c session a;;
  evs ← on_with sessions (fun tb => Sessions.del_session now_block tb a key);
  push_events evs.

(** ** Notifications of the NFT contract *)

Definition notify_lognewtempl (template_id creator collection schema : Z)
    (immutable_data : list (string * string)) : M unit :=
  checkM (creator =? self) "Wrong authorized creator";;
  checkM (collection =? self) "Wrong collection";;
  checkM (schema =? Nft.schema_name) "Wrong schema";;
  invitee ← lift (Nft.account_of immutable_data "lognewtempl");
  installed;;
  ind ← get_endorsed_induction invitee;
  s ← gets inductions;
  send_all (Inductions.create_nfts h s ind template_id);;
  on members (fun s => Members.set_nft s invitee template_id).

Definition notify_logmint (asset_id minter collection schema template_id new_owner : Z) : M unit :=
  if negb (new_owner =? self) then mret tt
  else
    checkM (minter =? self) "Wrong authorized creator";;
    checkM (collection =? self) "Wrong collection";;
    checkM (schema =? Nft.schema_name) "Wrong schema";;
    data ← lift (Nft.read_immutable_data (nft_of c) template_id);
    invitee ← lift (Nft.account_of data "logmint");
    g ← global;
    get_endorsed_induction invitee;;
    send_all (Inductions.start_auction g asset_id);;
    on auctions (fun tb =>
      Auctions.add_auction tb now (Globals.auction_duration (Globals.base g)) asset_id).

(** ** Actions signed by a session key *)

(** A verb is one of the actions above inside [run]; any other index is
    refused. *)
Inductive verb : Type :=
  | v_delsession (a : Z) (key : public_key)
  | v_inductmeetin (a i : Z) (keys : list Encrypt.encrypted_key) (data : list Z) (old : option (list Z))
  | v_inductprofil (i : Z) (p : Inductions.new_member_profile)
  | v_inductvideo (a i : Z) (video : string)
  | v_inductendors (a i data_hash : Z)
  | v_electopt (voter : Z) (participating : bool)
  | v_electmeeting (a rnd : Z) (keys : list Encrypt.encrypted_key) (data : list Z) (old : option (list Z))
  | v_electvote (rnd voter cand : Z)
  | v_electvideo (rnd voter : Z) (video : string)
  | v_inductcancel (a i : Z)
  | v_inductinit (i inviter invitee : Z) (witnesses : list Z)
  | v_other (index : Z).

(** [actions::session_dispatch]; verb 0 is not in the list of actions. *)
Definition session_dispatch (session : option Z) (v : verb) : M unit :=
  match v with
  | v_inductmeetin a i keys data old => inductmeetin c session a i keys data old
  | v_inductprofil i p => inductprofil c session i p
  | v_inductvideo a i video => inductvideo c session a i video
  | v_inductendors a i data_hash => inductendors c session a i data_hash
  | v_electopt voter b => electopt session voter b
  | v_electmeeting a rnd keys data old => electmeeting session a rnd keys data old
  | v_electvote rnd voter cand => electvote session rnd voter cand
  | v_electvideo rnd voter video => electvideo session rnd voter video
  | v_inductcancel a i => inductcancel c session a i
  | v_inductinit i inviter invitee witnesses => inductinit c session i inviter invitee witnesses
  | v_delsession _ _ | v_other _ => abort "unsupported verb index"
  end.

Inductive run_auth : Type :=
  | no_auth
  | account_auth (contract contract_account eosio_account : Z)
  | signature_auth (signature : list Z) (contract account sequence : Z).

(** [run]; [signed] is what follows the signature in the action's data, and
    [verbs] the verbs it encodes. *)
Definition authorize_run (auth : run_auth) (signed : list Z) : M Z :=
  match auth with
  | no_auth => mret 0
  | account_auth contract contract_account eosio_account =>
      checkM (contract =? self) "unsupported contract for auth";;
      checkM (contract_account =? eosio_account) "account recovery not yet implemented";;
      require_auth c eosio_account;;
      mret contract_account
  | signature_auth signature contract account sequence =>
      let recovered := Host.recover_key e (Host.sha256 e signed) signature in
      checkM (contract =? self) "unsupported contract for auth";;
      evs ← on_with sessions (fun tb =>
        Sessions.use_session (Host.key_text e) now_block tb account recovered sequence);
      push_events evs;;
      mret account
  end.
Definition run (auth : run_auth) (signed : list Z) (verbs : list verb) : M unit :=
  account ← authorize_run auth signed;
  checkM (negb (Nat.eqb (length verbs) 0)) "verbs is empty";;
  foldM (fun _ v => session_dispatch (Some account) v) verbs tt.

End actions.
End Governance.
