(* ===== verification/Admin.v ===== *)
(** Genesis and migration ([contracts/eden/src/actions/genesis.cpp],
    migrate.cpp, [contracts/eden/src/migrations.cpp]). *)
From S2P Require Import Prelude Name Time Asset MultiIndex Crypto Host Globals Events Members.
From S2P Require Import ElectionState Encrypt Accounts Nft Inductions Bylaws Sessions.
From S2P Require Import DistributionTables State DistributionOps MemberOps ElectionOps Actions.
Open Scope string_scope.
Open Scope list_scope.
Open Scope Z_scope.

Module Admin.
Import MemberOps Actions.

Section actions.
Context (c : ctx).
Abbreviation h := (host_of c).
Abbreviation e := (env_of c).
Abbreviation self := (Host.self h).

(** ** Migrations *)

(** [migrate_some] of the alternative in progress. *)
Definition migrate_current (v : Migrations.migration_variant) (max_steps : nat)
    : M (Migrations.migration_variant * nat) :=
  match v with
  | Migrations.migrate_auction_v0 last =>
      installed;;
      '(last, n) ← on_with auctions (fun tb =>
         '(tb, last, n) ← Auctions.migrate_some h (nft_of c) tb last max_steps; Ok (tb, (last, n)));
      mret (Migrations.migrate_auction_v0 last, n)
  | Migrations.migrate_account_v0 m =>
      g ← global;
      us ← gets users;
      '(m, n) ← on_with owned (fun tb =>
         '(m, tb, n) ← Accounts.migrate_some us tb (Globals.default_token g) (Host.token_balance e) m max_steps;
         Ok (tb, (m, n)));
      mret (Migrations.migrate_account_v0 m, n)
  | Migrations.migrate_member_v0 next =>
      ms ← gets (fun s => Members.member_tb (members s));
      let '(next, n) := Table.update_index ms next max_steps in
      mret (Migrations.migrate_member_v0 next, n)
  | _ => mret (v, max_steps)
  end.

(** The alternatives still to come bound the loop. *)
Fixpoint migrate_loop (alternatives : nat) (v : Migrations.migration_variant) (max_steps : nat)
    : M (Migrations.migration_variant * nat) :=
  match alternatives, max_steps with
  | S n, S _ =>
      if Migrations.index v =? Migrations.last_index then mret (v, max_steps)
      else
        '(v', steps) ← migrate_current v max_steps;
        match steps with
        | O => mret (v', O)
        | S _ =>
            push_event (Events.migration_event (Migrations.index v'));;
            migrate_loop n (Migrations.next v') steps
        end
  | _, _ => mret (v, max_steps)
  end.
Definition alternatives : nat := 6.

Definition migrate_some (max_steps : nat) : M nat :=
  v ← gets (fun s => default Migrations.default_variant (migration s));
  '(v, steps) ← migrate_loop alternatives v max_steps;
  on migration (fun _ => Ok (Some v));;
  mret steps.
Definition migrate (max_steps : nat) : M unit := must_progress max_steps migrate_some.

(** For tests: the index of the members by representative, which is cleared
    too, has no state of its own here. *)
Definition unmigrate : M unit :=
  require_auth c self;;
  on migration (fun s => Ok (Migrations.clear_all s));;
  installed;;
  on auctions (fun tb => Ok (Auctions.clear_all tb));;
  on owned (fun tb => Ok (Accounts.clear_all tb)).

(** ** Genesis *)

Definition clearall : M unit :=
  require_auth c self;;
  installed;;
  on users (fun tb => Ok (Accounts.clear_all tb));;
  MemberOps.clear_all;;
  on_inductions (fun s => Ok (Inductions.clear_all s));;
  on auctions (fun tb => Ok (Auctions.clear_all tb));;
  on migration (fun s => Ok (Migrations.clear_all s));;
  on distributions (fun s => Ok (Distribution.clear_all s));;
  ElectionOps.clear_all;;
  on globals (fun _ => Ok None);;
  on bylaws (fun tb => Ok (Bylaws.clear_all tb));;
  on_inductions (fun s => Ok (s <| Inductions.encrypted := Encrypt.clear_all (Inductions.encrypted s) |>));;
  on enc_election (fun tb => Ok (Encrypt.clear_all tb));;
  on sessions (fun tb => Ok (Sessions.clearall_sessions tb)).

Definition check_genesis : M unit :=
  genesis_ ← is_genesis; checkM genesis_ "Not in genesis".

Definition gensetexpire (i new_expiration : Z) : M unit :=
  require_auth c self;;
  installed;;
  ind ← get_induction i;
  check_genesis;;
  on_inductions (fun s => Inductions.update_expiration h s ind new_expiration).

(** NFTs that were issued while their supply is still open are issued to the
    new member too. *)
Definition mint_open (newmember : Z) (m : Members.member) : M unit :=
  when (Members.status m =? Members.active_member)
    (let template := swrap 32 (Members.nft_template_id m) in
     locked ← lift (Nft.is_locked (nft_of c) template);
     when (negb locked) (send (Events.mintasset template newmember))).

Definition endorse_existing (newmember : Z) (k : Z) : M unit :=
  ind ← reads (fun s => some_or (Trap "dangling induction") (Inductions.induction_tb (inductions s) !! k));
  on_inductions (fun s => Inductions.add_endorsement s ind newmember true).

Definition create_endorsements (inviter invitee i : Z) (endorsers : list Z) : M unit :=
  foldM (fun _ a => when (negb (a =? invitee))
           (on_inductions (fun s => Inductions.create_endorsement s inviter invitee a i false)))
    endorsers tt.

Definition addtogenesis (newmember expiration : Z) : M unit :=
  require_auth c self;;
  installed;;
  check_genesis;;
  ms ← gets (fun s => Table.rows (Members.member_tb (members s)));
  foldM (fun _ m => mint_open newmember m) ms tt;;
  on members (fun s => Members.create s newmember);;
  ks ← gets (fun s => Table.keys (Inductions.induction_tb (inductions s)));
  foldM (fun _ k => endorse_existing newmember k) ks tt;;
  i ← reads (fun s => Table.available_primary_key (Inductions.induction_tb (inductions s)));
  first ← reads (fun s => some_or (Check "No inductions") (head (Table.rows (Inductions.induction_tb (inductions s)))));
  on_inductions (fun s =>
    Inductions.create_induction h s i self newmember (wrap 32 (Z.of_nat (length ms))) (Inductions.video first));;
  ind ← get_induction i;
  on_inductions (fun s => Inductions.update_expiration h s ind expiration);;
  create_endorsements self newmember i (Members.account <$> ms).

(** One initial member: pending, with an induction every other one endorses. *)
Definition add_initial (initial_members : list Z) (video : string) (i invitee : Z) : M Z :=
  on members (fun s => Members.create s invitee);;
  on_inductions (fun s =>
    Inductions.create_induction h s i self invitee
      (wrap 32 (Z.of_nat (length initial_members) - 1)) video);;
  create_endorsements self invitee i initial_members;;
  mret (wrap 64 (i + 1)).

Definition genesis (community : string) (community_symbol : Z) (minimum_donation : asset)
    (initial_members : list Z) (genesis_video : string) (collection_attributes : list (string * string))
    (auction_starting_bid : asset) (auction_duration : Z) (day : Z) (time : string) : M unit :=
  require_auth c self;;
  checkM (community_symbol =? Asset.symbol minimum_donation)
    "community symbol does not match minimum donation";;
  checkM (community_symbol =? Asset.symbol auction_starting_bid)
    "community symbol does not match auction starting bid";;
  on migration (fun _ => Ok (Some Migrations.fix_inductdonate_expiration_check));;
  push_event (Events.migration_event Migrations.last_index);;
  on globals (fun g => Globals.init g
    (Globals.mk_v1 (Globals.mk_v0 community minimum_donation auction_starting_bid auction_duration
                      Globals.genesis) 0xffffffff (60 * 60)));;
  DistributionOps.init_pools;;
  on owned (fun tb => Accounts.init tb (Host.token_balance e));;
  ElectionOps.set_time c day time;;
  ElectionOps.set_board_permission c [];;
  ElectionOps.link_board_permission c;;
  foldM (add_initial initial_members genesis_video) initial_members 1;;
  sends ← lift (Nft.init_collection (nft_of c) self self Nft.schema_name collection_attributes);
  send_all sends.

End actions.
End Admin.
