(* ===== verification/Contract.v ===== *)
(** The contract as a transition system ([EDEN_ACTIONS] of
    [contracts/eden/include/eden.hpp]): the actions and notifications it
    accepts, their dispatch, transactions that leave no trace when they abort,
    and the states the contract can reach. *)
From S2P Require Import Prelude Name Time Asset Crypto Host Globals Events Encrypt Inductions State.
From S2P Require Import Actions Governance Admin.
Open Scope string_scope.
Open Scope list_scope.
Open Scope Z_scope.

Module Contract.
Import Actions Governance Admin.

Inductive action : Type :=
  | a_withdraw (owner : Z) (quantity : asset)
  | a_donate (owner : Z) (quantity : asset)
  | a_fundtransfer (from distribution_time rank to : Z) (amount : asset) (memo : string)
  | a_usertransfer (from to : Z) (amount : asset) (memo : string)
  | a_genesis (community : string) (community_symbol : Z) (minimum_donation : asset)
      (initial_members : list Z) (genesis_video : string) (collection_attributes : list (string * string))
      (auction_starting_bid : asset) (auction_duration day : Z) (time : string)
  | a_addtogenesis (newmember expiration : Z)
  | a_gensetexpire (i new_expiration : Z)
  | a_clearall
  | a_verb (v : verb)                       (* the verbs are actions as well *)
  | a_setencpubkey (m : Z) (key : public_key)
  | a_electsettime (election_time : Z)
  | a_electconfig (day : Z) (time : string) (round_duration : Z)
  | a_electseed (btc_header : list Z)
  | a_electprocess (max_steps : nat)
  | a_finishelect (election_time : Z)
  | a_changerank (contract : Z) (ranks : list Z)
  | a_clearrank (contract : Z) (ranks : list Z)
  | a_bylawspropose (proposer : Z) (text : string)
  | a_bylawsapprove (approver hash : Z)
  | a_bylawsratify (approver hash : Z)
  | a_distribute (max_steps : nat)
  | a_inductdonate (payer i : Z) (quantity : asset)
  | a_inducted (inductee : Z)
  | a_resign (a : Z)
  | a_rename (a new : Z)
  | a_gc (limit : nat)
  | a_migrate (limit : nat)
  | a_unmigrate
  | n_transfer (from to : Z) (quantity : asset) (memo : string)
  | n_lognewtempl (template_id creator collection schema : Z) (immutable_data : list (string * string))
  | n_logmint (asset_id minter collection schema template_id new_owner : Z).

Definition apply (c : ctx) (a : action) : M unit :=
  match a with
  | a_withdraw owner q => withdraw c owner q
  | a_donate owner q => donate c owner q
  | a_fundtransfer from time rank to q memo => fundtransfer c from time rank to q memo
  | a_usertransfer from to q memo => usertransfer c from to q memo
  | a_genesis community sym least members video attrs bid duration day time =>
      genesis c community sym least members video attrs bid duration day time
  | a_addtogenesis m t => addtogenesis c m t
  | a_gensetexpire i t => gensetexpire c i t
  | a_clearall => clearall c
  | a_verb v => session_dispatch c None v
  | a_setencpubkey m key => setencpubkey c m key
  | a_electsettime t => electsettime c t
  | a_electconfig day time d => electconfig c day time d
  | a_electseed header => electseed c header
  | a_electprocess n => electprocess c n
  | a_finishelect t => finishelect c t
  | a_changerank k l => changerank c k l
  | a_clearrank k l => clearrank c k l
  | a_bylawspropose p text => bylawspropose c p text
  | a_bylawsapprove p hash => bylawsapprove c p hash
  | a_bylawsratify p hash => bylawsratify c p hash
  | a_distribute n => distribute c n
  | a_inductdonate p i q => inductdonate c p i q
  | a_inducted m => inducted c m
  | a_resign m => resign c m
  | a_rename m new => rename c m new
  | a_gc n => gc c n
  | a_migrate n => migrate c n
  | a_unmigrate => unmigrate c
  | n_transfer from to q memo => notify_transfer c from to q memo
  | n_lognewtempl t creator collection schema data =>
      notify_lognewtempl c t creator collection schema data
  | n_logmint asset minter collection schema t owner =>
      notify_logmint c asset minter collection schema t owner
  end.

(** What an action pushes and sends starts empty; an abort restores the
    state. *)
Definition begin (s : state) : state := s <| events := [] |> <| sent := [] |>.
Definition transact (c : ctx) (a : action) (s : state) : state :=
  match apply c a (begin s) with Ok (_, s') => s' | Err _ => s end.

(** One account runs the contract; the clock and the other contracts' tables
    change freely between transactions. *)
Inductive reachable (self : Z) : state -> Prop :=
  | reach_start : reachable self empty_state
  | reach_step s c a : reachable self s -> Host.self (host_of c) = self -> reachable self (transact c a s).

(** An invariant of every action is one of every reachable state. *)
Lemma reachable_ind_within (self : Z) (I : state -> Prop) :
  I empty_state ->
  (forall c a s s', Host.self (host_of c) = self -> I (begin s) -> apply c a (begin s) = Ok (tt, s') -> I s') ->
  (forall s, I s -> I (begin s)) ->
  forall s, reachable self s -> I s.
Proof.
  intros H0 Hs Hb s H. induction H as [|s c a H IH Hc]; [exact H0|].
  unfold transact. destruct (apply c a (begin s)) as [[[] s']|] eqn:E; [|exact IH].
  eapply Hs; [exact Hc | apply Hb, IH | exact E].
Qed.

End Contract.
