(* ===== verification/Frame.v ===== *)
(** One walk over the code of the actions for every relation between the states
    before and after.  The classes state what a relation promises about the
    elementary changes (an event, an inline action, an operation on one
    component): [Base] about what concerns neither elections nor money, [Frame]
    also about the operations on an election as wholes, [Parts] about any change
    of elections and members, [Loose] about any change of money.  The lemmas
    extend the promise to whatever the actions compose from them.  The instances
    are in ContractMoney.v, ContractMembers.v, AccountMigration.v,
    ElectionPhases.v and ElectionRun.v. *)
From S2P Require Import Prelude Name Asset MultiIndex Host Globals Events Members ElectionState Sessions.
From S2P Require Import Accounts Inductions DistributionTables State DistributionOps.
From S2P Require Import MemberOps ElectionOps Actions Governance Admin Contract.
Open Scope string_scope.
Open Scope list_scope.
Open Scope Z_scope.

Module Frame.
Import Contract Actions Governance Admin MemberOps.

(** The operations that change the member table in one go, those that move or
    drop rows apart. *)
Inductive member_op : (Members.store -> result Members.store) -> Prop :=
  | op_create a : member_op (fun s => Members.create s a)
  | op_set_key a k : member_op (fun s => Members.set_key s a k)
  | op_set_nft a n : member_op (fun s => Members.set_nft s a n)
  | op_set_active a n : member_op (fun s => Members.set_active s a n)
  | op_set_rank a r b : member_op (fun s => Members.set_rank s a r b)
  | op_clear_ranks : member_op (fun s => Ok (Members.clear_ranks s))
  | op_set_ranks l : member_op (fun s => Ok (Members.set_ranks s l))
  | op_election_opt m b t v o : member_op (fun s => Members.election_opt s m b t v o).
Inductive any_member_op : (Members.store -> result Members.store) -> Prop :=
  | op_any f : member_op f -> any_member_op f
  | op_rename a b : any_member_op (fun s => Members.rename_row s a b)
  | op_clear_all : any_member_op (fun s => Ok (Members.clear_all s)).

(** A relation that holds of what does not concern elections. *)
Class Base (R : state -> state -> Prop) : Prop := {
  base_events l : within R (push_events l);
  base_event ev : within R (push_event ev);
  base_send_all l : within R (send_all l);
  base_send a : within R (send a);
  base_globals f : within R (on globals f);
  base_members f : member_op f -> within R (on members f);
  base_remove_if_pending a : within R (remove_if_pending a);
  base_enc_election f : within R (on enc_election f);
  base_inductions f : within R (on inductions f);
  base_inductions_with A (f : _ -> result (_ * A)) : within R (on_with inductions f);
  base_auctions f : within R (on auctions f);
  base_auctions_with A (f : _ -> result (_ * A)) : within R (on_with auctions f);
  base_bylaws f : within R (on bylaws f);
  base_gc_sessions now n : within R (on_with sessions (fun tb =>
    '(tb, evs, k) ← Sessions.gc_sessions now tb n; Ok (tb, (evs, k))));
  base_remove_sessions a : within R (on_with sessions (fun tb => Sessions.remove_sessions tb a));
  base_clear_sessions : within R (on sessions (fun tb => Ok (Sessions.clearall_sessions tb)));
  base_migration f : within R (on migration f);
  base_setup c t : within R (DistributionOps.setup_distribution c t);
  base_monthly c n : within R (DistributionOps.distribute_monthly c n);
  base_election_end : within R DistributionOps.process_election_distribution;
  base_dist_resign c m : within R (DistributionOps.on_resign c m);
  base_dist_rename c a b : within R (DistributionOps.on_rename c a b)
}.
#[global] Hint Resolve base_events base_event base_send_all base_send base_globals
  base_remove_if_pending base_enc_election base_inductions base_inductions_with base_auctions
  base_auctions_with base_bylaws base_gc_sessions base_remove_sessions base_clear_sessions base_migration base_setup
  base_monthly base_election_end base_dist_resign base_dist_rename : within.
#[global] Hint Extern 3 (within _ (on members _)) => (apply base_members; constructor) : within.

(** What the actions do to elections, and the one that drops an active member,
    each as a whole. *)
Class Frame (R : state -> state -> Prop) (c : ctx) : Prop := {
  frame_base :: Base R;
  frame_set_time d t : within R (ElectionOps.set_time c d t);
  frame_set_next t : within R (ElectionOps.set_next_election_time c t);
  frame_trigger : within R (maybe_trigger c);
  frame_seed h : within R (ElectionOps.seed_with c h);
  frame_vote r a b : within R (ElectionOps.vote_for c r a b);
  frame_prepare n : within R (ElectionOps.prepare_election c n);
  frame_finish_round n : within R (ElectionOps.finish_round c n);
  frame_resign a : within R (Actions.resign c a)
}.
#[global] Hint Resolve frame_set_time frame_set_next frame_trigger frame_seed frame_vote frame_prepare
  frame_finish_round frame_resign : within.

(** A relation that holds of every change of the elections and the members has
    a frame. *)
Class Parts (R : state -> state -> Prop) : Prop := {
  parts_base :: Base R;
  part_members f : any_member_op f -> within R (on members f);
  part_remove a : within R (remove a);
  part_elections f : within R (on elections f);
  part_elections_with A (f : _ -> result (_ * A)) : within R (on_with elections f)
}.
#[global] Hint Resolve part_remove part_elections part_elections_with : within.
#[global] Hint Extern 4 (within _ (on members _)) =>
  (apply part_members; first [apply op_rename | apply op_clear_all | apply op_any; constructor]) : within.

(** The actions that reset tables, for tests and set-up only, and the
    migration that first computes the contract's own balance. *)
Definition resets (a : action) : bool :=
  match a with a_clearall | a_unmigrate | a_migrate _ => true | _ => false end.

(** Actions whose amounts are not their own. *)
Definition moves_money (a : action) : bool :=
  match a with
  | a_withdraw _ _ | a_donate _ _ | a_fundtransfer _ _ _ _ _ _ | a_usertransfer _ _ _ _
  | a_inductdonate _ _ _ | n_transfer _ _ _ _ | a_rename _ _ | a_genesis _ _ _ _ _ _ _ _ _ _ => true
  | _ => resets a
  end.

(** A relation that holds whatever happens to the money tables. *)
Class Loose (R : state -> state -> Prop) : Prop := {
  loose_users f : within R (on users f);
  loose_owned f : within R (on owned f);
  loose_owned_with A (f : _ -> result (_ * A)) : within R (on_with owned f);
  loose_outgoing f : within R (on outgoing f);
  loose_distributions f : within R (on distributions f)
}.
#[global] Hint Resolve loose_users loose_owned loose_owned_with loose_outgoing loose_distributions : within.

(** The same, with the actions that touch both the members and the money. *)
Class LooseFrame (R : state -> state -> Prop) (c : ctx) : Prop := {
  loose_loose :: Loose R;
  loose_frame :: Frame R c;
  loose_rename a b : within R (Actions.rename c a b);
  loose_clearall : within R (Admin.clearall c)
}.
#[global] Hint Resolve loose_rename loose_clearall : within.

(** Which of these classes a relation has is found by instances. *)
#[global] Hint Extern 0 (PreOrder _) => typeclasses eauto : within.
#[global] Hint Extern 0 (Base _) => typeclasses eauto : within.
#[global] Hint Extern 0 (Frame _ _) => typeclasses eauto : within.
#[global] Hint Extern 0 (Parts _) => typeclasses eauto : within.
#[global] Hint Extern 0 (Loose _) => typeclasses eauto : within.
#[global] Hint Extern 0 (LooseFrame _ _) => typeclasses eauto : within.

(** Unfolds the parts of actions that only check or read. *)
Ltac open_action := unfold session_auth, require_auth, require_permission, check_active, check_token,
  check_genesis, is_genesis, check_active_member, check_pending_member, get_induction,
  get_endorsed_induction, get_account_migration, migration_completed, on_inductions, must_progress,
  ElectionOps.get_results, own_table in *.
Ltac walk := open_action; withins.

(** Reading the configuration changes nothing. *)
Lemma global_frame (R : state -> state -> Prop) `{!PreOrder R} : within R global.
Proof. apply within_reads, _. Qed.
Lemma installed_frame (R : state -> state -> Prop) `{!PreOrder R} : within R installed.
Proof. unfold installed. withins. apply global_frame, _. Qed.
#[global] Hint Resolve global_frame installed_frame : within.

Section parts.
Context (R : state -> state -> Prop) `{!PreOrder R} `{!Parts R} (c : ctx).

(** ** The operations of the components *)

Lemma remove_sessions_frame a : within R (remove_sessions a).
Proof. unfold remove_sessions. withins. Qed.
#[local] Hint Resolve remove_sessions_frame : within.
Lemma rename_frame a b : within R (MemberOps.rename a b).
Proof. unfold MemberOps.rename. withins. Qed.
#[local] Hint Resolve rename_frame : within.

Lemma set_state_sing_frame v : within R (ElectionOps.set_state_sing v).
Proof.
  unfold ElectionOps.set_state_sing, ElectionOps.report_state, ElectionOps.put_state,
    ElectionOps.get_results. withins.
Qed.
#[local] Hint Resolve set_state_sing_frame : within.

Lemma set_default_election_frame t : within R (ElectionOps.set_default_election t).
Proof. unfold ElectionOps.set_default_election. withins. Qed.
Lemma trigger_election_frame : within R (ElectionOps.trigger_election c).
Proof. unfold ElectionOps.trigger_election, ElectionOps.state_exists, ElectionOps.get_state. withins. Qed.
#[local] Hint Resolve set_default_election_frame trigger_election_frame : within.
Lemma set_time_frame d t : within R (ElectionOps.set_time c d t).
Proof. unfold ElectionOps.set_time. withins. Qed.
Lemma start_election_frame : within R (ElectionOps.start_election c).
Proof. unfold ElectionOps.start_election, ElectionOps.get_state, ElectionOps.put_results. withins. Qed.
Lemma randomize_frame ks st n : within R (ElectionOps.randomize_voters c ks st n).
Proof. revert st n. induction ks as [|k ks IH]; intros st [|n]; cbn; withins. Qed.
Lemma report_groups_frame n cfg r start it next :
  within R (ElectionOps.report_groups n cfg r start it next).
Proof. revert it next. induction n as [|n IH]; intros [?|] next; cbn; withins. Qed.
Lemma finish_election_frame b w : within R (ElectionOps.finish_election c b w).
Proof.
  unfold ElectionOps.finish_election, ElectionOps.get_results, ElectionOps.put_results,
    ElectionOps.set_rank, ElectionOps.set_board_permission. withins.
Qed.
#[local] Hint Resolve set_time_frame start_election_frame randomize_frame
  report_groups_frame finish_election_frame : within.
Lemma announce_frame v st n : within R (ElectionOps.announce_election c v st n).
Proof. unfold ElectionOps.announce_election, ElectionOps.get_results, ElectionOps.take_board. withins. Qed.
Lemma save_frame r : within R (ElectionOps.save r).
Proof. unfold ElectionOps.save. withins. Qed.
#[local] Hint Resolve announce_frame save_frame : within.
Lemma prepare_voters_frame v st n : within R (ElectionOps.prepare_voters c v st n).
Proof. unfold ElectionOps.prepare_voters. withins. Qed.
#[local] Hint Resolve prepare_voters_frame : within.
Lemma prepare_election_frame n : within R (ElectionOps.prepare_election c n).
Proof. unfold ElectionOps.prepare_election, ElectionOps.get_state. withins. Qed.
Lemma close_group_frame start d it f : within R (ElectionOps.close_group c start d it f).
Proof. unfold ElectionOps.close_group, ElectionOps.set_rank. withins. Qed.
#[local] Hint Resolve close_group_frame : within.
Lemma close_groups_frame n start d it : within R (ElectionOps.close_groups c n start d it).
Proof. revert d it. induction n as [|n IH]; intros d [?|]; cbn; withins. Qed.
Lemma next_round_frame start d cfg n : within R (ElectionOps.next_round c start d cfg n).
Proof. unfold ElectionOps.next_round. withins. Qed.
#[local] Hint Resolve close_groups_frame next_round_frame : within.
Lemma finish_round_frame n : within R (ElectionOps.finish_round c n).
Proof.
  unfold ElectionOps.finish_round, ElectionOps.finish_post, ElectionOps.finish_final,
    ElectionOps.state_exists, ElectionOps.get_state, ElectionOps.get_results, ElectionOps.take_board.
  withins.
Qed.
Lemma election_resign_frame a : within R (ElectionOps.on_resign c a).
Proof.
  unfold ElectionOps.on_resign, ElectionOps.check_not_running, ElectionOps.remove_from_board,
    ElectionOps.put_results, ElectionOps.set_board_permission. withins.
Qed.
Lemma election_rename_frame a b : within R (ElectionOps.on_rename c a b).
Proof.
  unfold ElectionOps.on_rename, ElectionOps.check_not_running, ElectionOps.put_results,
    ElectionOps.set_board_permission. withins.
Qed.
#[local] Hint Resolve set_state_sing_frame prepare_election_frame finish_round_frame election_resign_frame
  election_rename_frame trigger_election_frame set_time_frame : within.

#[export] Instance parts_frame : Frame R c.
Proof.
  split; intros; try solve [eauto with within]; try apply _.
  - unfold ElectionOps.set_next_election_time. withins.
  - unfold maybe_trigger. withins.
  - unfold ElectionOps.seed_with, ElectionOps.open_seeding, ElectionOps.get_state. withins.
  - unfold Actions.resign. walk.
Qed.
Lemma finish_curr_frame t : within R (ElectionOps.finish_curr_election t).
Proof. unfold ElectionOps.finish_curr_election. withins. Qed.

Lemma parts_loose_frame : Loose R -> LooseFrame R c.
Proof.
  intros HL. split; intros; try apply _.
  - unfold Actions.rename. walk.
  - unfold clearall, MemberOps.clear_all, ElectionOps.clear_all. walk.
Qed.

End parts.

Section frame.
Context (R : state -> state -> Prop) `{!PreOrder R} (c : ctx) `{!Frame R c}.

Lemma maybe_activate_frame : within R maybe_activate_contract.
Proof. unfold maybe_activate_contract. withins. Qed.
Lemma adjust_migration_frame m a q : within R (adjust_migration m a q).
Proof. unfold adjust_migration. withins. Qed.
#[local] Hint Resolve maybe_activate_frame adjust_migration_frame : within.

(** ** The actions *)

(** The action that ends an election whatever its phase. *)
Definition cuts_election (a : action) : bool := match a with a_finishelect _ => true | _ => false end.

Lemma verb_frame session v : within R (session_dispatch c session v).
Proof.
  destruct v; cbn [session_dispatch].
  all: unfold inductmeetin, inductprofil, inductvideo, inductendors, electopt, electmeeting, electvote,
    electvideo, inductcancel, inductinit, election_opt; walk.
Qed.

Lemma other_action_frame a :
  moves_money a = false -> cuts_election a = false -> within R (apply c a).
Proof.
  intros Hm Hc. destruct a; try done; cbn [apply]; first [apply verb_frame | idtac].
  all: unfold addtogenesis, gensetexpire, setencpubkey, electsettime, electconfig, electseed, electprocess,
    changerank, clearrank, bylawspropose, bylawsapprove, bylawsratify, approve_bylaws,
    distribute, inducted, gc, notify_lognewtempl, notify_logmint, mint_open, endorse_existing,
    create_endorsements; walk.
Qed.

End frame.

(** The rest, when the money tables do not matter. *)
Section loose.
Context (R : state -> state -> Prop) `{!PreOrder R} (c : ctx) `{!LooseFrame R c}.

Lemma add_to_pool_frame p q : within R (DistributionOps.add_to_pool c p q).
Proof. unfold DistributionOps.add_to_pool. withins. Qed.
Lemma init_pools_frame : within R DistributionOps.init_pools.
Proof. unfold DistributionOps.init_pools. withins. Qed.
Lemma adjust_frame m a q : within R (adjust_migration m a q).
Proof. by apply (adjust_migration_frame R c). Qed.
#[local] Hint Resolve add_to_pool_frame init_pools_frame adjust_frame : within.

Lemma migrate_loop_frame n v k : within R (migrate_loop c n v k).
Proof.
  revert v k. induction n as [|n IH]; intros v [|k]; cbn [migrate_loop]; try apply (within_ret R).
  destruct (_ =? _); [apply (within_ret R)|]. apply (within_bind R).
  - destruct v; cbn [migrate_current]; walk.
  - intros [v' [|m]]; walk.
Qed.
#[local] Hint Resolve migrate_loop_frame : within.

Lemma action_frame a : cuts_election a = false -> within R (apply c a).
Proof.
  intros Hc. destruct (moves_money a) eqn:Em; [|by apply other_action_frame; first [apply _ | done]].
  destruct a; try discriminate; cbn [apply]; try solve [eauto with within].
  all: unfold withdraw, donate, fundtransfer, usertransfer, check_transfer, genesis, inductdonate,
    notify_transfer, unmigrate, migrate, migrate_some,
    DistributionOps.sub_balance, DistributionOps.on_accounts, add_user, sub_user,
    add_initial, create_endorsements, ElectionOps.set_board_permission, ElectionOps.link_board_permission; walk.
Qed.
End loose.

(** Relations that elections cannot break keep every action. *)
Section every_action.
Context (R : state -> state -> Prop) `{!PreOrder R} `{!Parts R} (c : ctx).

Lemma finishelect_frame t : within R (finishelect c t).
Proof. unfold finishelect. walk. by apply (finish_curr_frame R). Qed.
Lemma still_action_frame a : moves_money a = false -> within R (apply c a).
Proof.
  intros Hm. destruct (cuts_election a) eqn:Hc; [destruct a; try done; apply finishelect_frame|].
  by apply other_action_frame; first [apply _ | done].
Qed.
Lemma every_action_frame `{!Loose R} a : within R (apply c a).
Proof.
  destruct (cuts_election a) eqn:Hc; [destruct a; try done; apply finishelect_frame|].
  by apply action_frame; [apply _ | apply parts_loose_frame; apply _ | done].
Qed.
End every_action.

(** *** Distributions change the money tables and push events *)

Section distributions.
Context (R : state -> state -> Prop) `{!PreOrder R} `{!Loose R}.
Context (events_ok : forall l, within R (push_events l)) (event_ok : forall ev, within R (push_event ev)).
Context (c : ctx).
Import DistributionOps.
#[local] Hint Resolve events_ok event_ok : within.
Ltac open_tables := unfold start_distribution, settle_reserve, return_account, return_pending,
  ensure_pools, init_pools, reserve_pool, put_distribution, change_distribution,
  erase_distribution, on_accounts, add_master in *.

Lemma setup_one_loose ne k : within R (setup_one c ne k).
Proof. unfold setup_one. open_tables. withins. Qed.
#[local] Hint Resolve setup_one_loose : within.
Lemma setup_loop_loose n ne k b : within R (setup_loop c n ne k b).
Proof. revert k b. induction n as [|n IH]; intros k b; cbn [setup_loop]; withins. Qed.
#[local] Hint Resolve setup_loop_loose : within.
Lemma setup_loose t : within R (setup_distribution c t).
Proof. unfold setup_distribution. open_tables. withins. Qed.
#[local] Hint Resolve setup_loose : within.
Lemma fund_ranks_loose n r d o res : within R (fund_ranks n r d o res).
Proof. revert r. induction n as [|n IH]; intros r; cbn [fund_ranks]; open_tables; withins. Qed.
#[local] Hint Resolve fund_ranks_loose : within.
Lemma fund_members_loose ks d res n : within R (fund_members ks d res n).
Proof. revert d n. induction ks as [|k ks IH]; intros d [|n]; cbn [fund_members]; withins. Qed.
#[local] Hint Resolve fund_members_loose : within.
Lemma distribute_loop_loose ks n : within R (distribute_loop c ks n).
Proof.
  revert n. induction ks as [|k ks IH]; intros [|n]; cbn [distribute_loop]; unfold fund_distribution;
    open_tables; withins.
Qed.
#[local] Hint Resolve distribute_loop_loose : within.
Lemma monthly_loose n : within R (distribute_monthly c n).
Proof. unfold distribute_monthly. withins. Qed.
Lemma election_loop_loose ks : within R (election_loop ks).
Proof. induction ks as [|k ks IH]; cbn [election_loop]; open_tables; withins. Qed.
#[local] Hint Resolve election_loop_loose : within.
Lemma election_end_loose : within R process_election_distribution.
Proof. unfold process_election_distribution. withins. Qed.
Lemma resign_loop_loose ks m : within R (resign_loop c ks m).
Proof. induction ks as [|k ks IH]; cbn [resign_loop]; open_tables; withins. Qed.
#[local] Hint Resolve resign_loop_loose : within.
Lemma dist_resign_loose m : within R (DistributionOps.on_resign c m).
Proof. unfold DistributionOps.on_resign. open_tables. withins. Qed.
Lemma dist_rename_loose a b : within R (DistributionOps.on_rename c a b).
Proof. unfold DistributionOps.on_rename. open_tables. withins. Qed.
End distributions.

End Frame.
