(* ===== verification/AccountMigration.v ===== *)
(** The migration that finds out what belongs to the community
    ([migrate_account_v0] of [contracts/eden/src/accounts.cpp]): it sums the
    users' balances a few at a time while deposits and withdrawals go on, and
    books the rest of the token balance to the pool. *)
From S2P Require Import Prelude Name Asset MultiIndex Ledger Host Globals Events Accounts.
From S2P Require Import State DistributionOps MemberOps Actions Contract Frame.
Open Scope string_scope.
Open Scope list_scope.
Open Scope Z_scope.

Module AccountMigration.
Import Asset Accounts.

(** The balances of the accounts up to a name. *)
Definition up_to (last : Z) (a : account) : Z := if owner a <=? last then amount (balance a) else 0.
Definition visited (last : Z) (tb : table) : Z := map_sum (up_to last) tb.
Definition total (tb : table) : Z := map_sum (fun a => amount (balance a)) tb.

(** The running total is the sum of the balances already visited. *)
Record running (m : migrate_account_v0) (tb : table) : Prop := {
  run_ranged : ranged (user_total m);
  run_total : amount (user_total m) = visited (last_visited m) tb;
  run_fresh : symbol (user_total m) = 0 -> amount (user_total m) = 0
}.

Lemma visited_next tb last k ks a :
  wf tb -> Table.upper_bound_keys tb last = k :: ks -> tb !! k = Some a ->
  visited k tb = visited last tb + amount (balance a).
Proof.
  intros Hw Hks Ha. unfold visited.
  assert (forall j x, delete k tb !! j = Some x -> up_to k x = up_to last x) as Heq.
  { intros j x [Hj Hx]%lookup_delete_Some. unfold up_to. rewrite (wf_owner _ Hw _ _ Hx).
    assert (last < k) as Hlk.
    { assert (k ∈ k :: ks) as Hin by apply list_elem_of_here. rewrite <- Hks in Hin.
      by apply Table.elem_of_upper_bound_keys in Hin as [_ ?]. }
    destruct (Z.leb_spec j last) as [Hl|Hl]; destruct (Z.leb_spec j k) as [Hjk|Hjk]; try lia. exfalso.
    assert (j ∈ Table.upper_bound_keys tb last) as Hin by (apply Table.elem_of_upper_bound_keys; eauto).
    assert (StronglySorted Z.lt (Table.upper_bound_keys tb last)) as Hs.
    { apply Table.filter_StronglySorted, Table.keys_strictly_sorted. }
    rewrite Hks in Hin, Hs. inversion Hs as [|? ? _ Hlt]; subst. rewrite Forall_forall in Hlt.
    apply elem_of_cons in Hin as [->|Hin]; [done|]. specialize (Hlt _ Hin). cbn in Hlt. lia. }
  rewrite !(map_sum_delete _ _ _ _ Ha), (map_sum_eq _ _ _ Heq).
  unfold up_to at 1 3. rewrite (wf_owner _ Hw _ _ Ha), Z.leb_refl.
  assert (k ∈ k :: ks) as Hin by apply list_elem_of_here. rewrite <- Hks in Hin.
  apply Table.elem_of_upper_bound_keys in Hin as [_ Hlt]. destruct (Z.leb_spec k last); lia.
Qed.

Lemma visited_all tb last : wf tb -> Table.upper_bound_keys tb last = [] -> visited last tb = total tb.
Proof.
  intros Hw Hks. apply map_sum_eq. intros k a Ha. unfold up_to. rewrite (wf_owner _ Hw _ _ Ha).
  destruct (Z.leb_spec k last) as [|Hl]; [done|]. exfalso.
  assert (k ∈ Table.upper_bound_keys tb last) as Hin by (apply Table.elem_of_upper_bound_keys; eauto).
  rewrite Hks in Hin. by apply not_elem_of_nil in Hin.
Qed.

(** A total that is in range, and empty before it has a currency; how far it is
    off. *)
Record sound (m : migrate_account_v0) : Prop := {
  sound_ranged : ranged (user_total m);
  sound_fresh : symbol (user_total m) = 0 -> amount (user_total m) = 0
}.
Definition drift (m : migrate_account_v0) (tb : table) : Z :=
  amount (user_total m) - visited (last_visited m) tb.
Lemma running_sound m tb : running m tb <-> sound m /\ drift m tb = 0.
Proof. unfold drift. split; [intros [? ? ?]; split; [by split|lia] | intros [[? ?] ?]; split; [done|lia|done]]. Qed.

Lemma sum_users_drift tb n m m' fin n' :
  wf tb -> sound m -> symbol (user_total m) <> 0 ->
  sum_users tb (Table.upper_bound_keys tb (last_visited m)) m n = Ok (m', fin, n') ->
  sound m' /\ symbol (user_total m') = symbol (user_total m) /\ drift m' tb = drift m tb /\ (n' <= n)%nat /\
  (fin = false -> n' = 0%nat) /\ (fin = true -> (0 < n')%nat /\ amount (user_total m') = total tb + drift m tb).
Proof.
  intros Hw. revert m. induction n as [|n IH]; intros m Hr Hs H;
    destruct (Table.upper_bound_keys tb (last_visited m)) as [|k ks] eqn:Hks; cbn [sum_users] in H;
    [inversion H; subst; auto with lia .. | |].
  { inversion H; subst. split_and!; try done. intros _. split; [lia|].
    unfold drift. rewrite (visited_all _ _ Hw Hks). lia. }
  apply bind_Ok in H as (a & Ha%some_or_Ok & H). apply bind_Ok in H as (t & Ht & H).
  pose proof (wf_ranged _ Hw _ _ Ha) as Hra. pose proof (wf_owner _ Hw _ _ Ha) as Ho.
  apply add_Ok in Ht as (_ & Hta & Hts & Htr); [|apply Hr|done].
  pose proof (Table.upper_bound_resume _ _ _ _ Hks) as Hk.
  assert (drift (mk_migrate (owner a) t) tb = drift m tb) as Hd.
  { unfold drift. cbn. rewrite Hta, Ho, (visited_next tb (last_visited m) k ks a) by done. lia. }
  destruct (IH (mk_migrate (owner a) t)) as (H1 & H2 & H3 & H4 & H5 & H6).
  - split; cbn; [exact Htr | by rewrite Hts].
  - cbn. by rewrite Hts.
  - cbn [last_visited]. rewrite Ho in H |- *. rewrite Hk. exact H.
  - rewrite Hd in *. cbn in H2. rewrite H2, Hts. split_and!; [done .. | lia | done | done].
Qed.

Definition token_held (bal : option asset) : Z := from_option amount 0 bal.

(** What is held beyond the users' balances, when the sum comes to its end with
    the total it has now. *)
Definition surplus (us : table) (tok : Z) (bal : option asset) (m : migrate_account_v0) : asset :=
  Asset.mk (token_held bal - (total us + drift m us)) (symbol (default (Asset.mk 0 tok) bal)).

(** One run changes the contract's own accounts in one way at most: it opens
    the pool with the surplus. *)
Lemma migrate_some_books us ow tok bal m n m' ow' n' :
  wf us -> sound m -> from_option ranged True bal ->
  Accounts.migrate_some us ow tok bal m n = Ok (m', ow', n') ->
  sound m' /\ drift m' us = drift m us /\ (n' <= n)%nat /\
  (ow' = ow \/ ow !! Name.n "master" = None /\ ranged (surplus us tok bal m) /\
     ow' = <[Name.n "master" := mk (Name.n "master") (surplus us tok bal m)]> ow) /\
  ((0 < n')%nat ->
     amount (user_total m') = total us + drift m us /\ total us + drift m us <= token_held bal /\
     if token_held bal =? total us + drift m us then ow' = ow
     else exists a, ow' !! Name.n "master" = Some a /\
       amount (balance a) = token_held bal - (total us + drift m us)).
Proof.
  intros Hw Hr Hb H. unfold Accounts.migrate_some in H.
  apply bind_Ok in H as (m1 & Hm1 & H). apply bind_Ok in H as ([[m2 fin] k] & Hsum & H).
  assert (sound m1 /\ symbol (user_total m1) <> 0 /\ drift m1 us = drift m us) as (Hr1 & Hs1 & Hd1).
  { revert Hm1. destruct (Z.eqb_spec (symbol (user_total m)) 0) as [Hz|Hz]; [|by intros [= <-]].
    intros (z & Hv & [= <-])%bind_Ok. apply make_ranged in Hv as Hv'. destruct Hv' as [Hzr ->].
    split; [by split|]. unfold drift. cbn. rewrite (sound_fresh _ Hr Hz). split; [|done].
    intros Hs0. subst tok. vm_compute in Hv. discriminate. }
  destruct (sum_users_drift _ _ _ _ _ _ Hw Hr1 Hs1 Hsum) as (Hr2 & _ & Hd & Hn & Hf & Ht). clear Hsum.
  rewrite Hd1 in *. set (t := total us + drift m us) in *.
  destruct fin; [|injection H as <- <- <-; split_and!; [done|done|done|by left|rewrite Hf by done; lia]].
  specialize (Ht eq_refl) as [Hk Ht].
  apply bind_Ok in H as (z & Hz & H). apply make_ranged in Hz as [Hzr ->].
  apply bind_Ok in H as (cov & [_ ->]%compare_with_Ok & H).
  apply bind_Ok in H as (u & Hle%check_Ok%Z.leb_le & H).
  assert (amount (default (Asset.mk 0 tok) bal) = token_held bal) as Hbal by (by destruct bal).
  assert (ranged (default (Asset.mk 0 tok) bal)) as Hbr by (by destruct bal).
  rewrite Hbal, Ht in Hle. unfold neqb in H. apply bind_Ok in H as (d & Hdf & H).
  apply fmap_Ok in Hdf as (e & [_ ->]%compare_with_Ok & <-). rewrite Hbal, Ht in H.
  destruct (Z.eqb_spec (token_held bal) t) as [He|He]; cbn [negb] in H.
  { injection H as <- <- <-. split_and!; [done|done|done|by left|by intros _]. }
  apply bind_Ok in H as (rest & Hrest & H).
  apply sub_Ok in Hrest as (_ & Hra & Hrs & Hrr); [|done|apply Hr2]. rewrite Hbal, Ht in Hra.
  assert (rest = surplus us tok bal m) as -> by (unfold surplus; fold t; destruct rest; cbn in *; congruence).
  destruct (ow !! Name.n "master") as [a|] eqn:Em.
  - apply bind_Ok in H as (same & [_ ->]%compare_with_Ok & H).
    apply bind_Ok in H as (u1 & Heq%check_Ok%Z.eqb_eq & H). injection H as <- <- <-.
    split_and!; [done|done|done|by left|]. intros _. do 2 (split; [done|]). exists a. split; [done|]. lia.
  - apply bind_Ok in H as (ow1 & [_ ->]%Table.emplace_Ok & H). injection H as <- <- <-.
    split_and!; [done|done|lia|by right|]. intros _. do 2 (split; [done|]). eexists.
    split; [apply lookup_insert_eq|]. exact Hra.
Qed.

(** The account migration finds what belongs to the community.  However
    many steps it is given at a time, the running total stays the sum of the
    balances of the users already visited; and when a run ends with steps left
    over, every user has been counted, the token balance covers all of them,
    and what exceeds their balances is booked to the pool "master" (nothing is
    booked when nothing exceeds). *)
Theorem migrate_some_finds_pool us ow tok bal m n m' ow' n' :
  wf us -> running m us -> from_option ranged True bal ->
  Accounts.migrate_some us ow tok bal m n = Ok (m', ow', n') ->
  running m' us /\ (n' <= n)%nat /\
  ((0 < n')%nat ->
     amount (user_total m') = total us /\ total us <= token_held bal /\
     if token_held bal =? total us then ow' = ow
     else exists a, ow' !! Name.n "master" = Some a /\ amount (balance a) = token_held bal - total us).
Proof.
  intros Hw [Hs Hd]%running_sound Hb H.
  destruct (migrate_some_books _ _ _ _ _ _ _ _ _ Hw Hs Hb H) as (Hs' & Hd' & Hn & _ & Hbook).
  rewrite Hd, Z.add_0_r in Hbook. split; [|done]. apply running_sound. split; [done|congruence].
Qed.

(** ** While money comes and goes *)

Lemma visited_put last tb o b :
  wf tb -> visited last (<[o := mk o b]> tb) =
  visited last tb - from_option (up_to last) 0 (tb !! o) + up_to last (mk o b).
Proof.
  intros Hw. unfold visited. destruct (tb !! o) as [a|] eqn:E; cbn.
  - by rewrite (map_sum_update _ _ a).
  - rewrite map_sum_insert by done. lia.
Qed.

Lemma credit_visited tb o q e tb' last :
  wf tb -> ranged q -> add_balance tb o q e = Ok tb' ->
  visited last tb' = visited last tb + up_to last (mk o q).
Proof.
  intros Hw Hq H. destruct (account_add_Ok _ _ _ _ _ Hw Hq H) as [(E & ->)|(a & E & _ & _ & ->)];
    rewrite visited_put, E by done; cbn; [lia|].
  unfold up_to. cbn. rewrite (wf_owner _ Hw _ _ E). destruct (o <=? last); lia.
Qed.

Lemma debit_visited tb o q tb' last :
  wf tb -> ranged q -> sub_balance tb o q = Ok tb' ->
  visited last tb' = visited last tb - up_to last (mk o q).
Proof.
  intros Hw Hq H. destruct (account_sub_Ok _ _ _ _ Hw Hq H) as (a & E & _ & _ & _ & ->).
  pose proof (wf_owner _ Hw _ _ E) as Ho.
  destruct (Z.eqb_spec (amount (balance a)) (amount q)) as [Heq|Hne].
  - unfold visited. rewrite (map_sum_delete _ _ _ _ E). unfold up_to. cbn.
    rewrite Ho, Heq. destruct (o <=? last); lia.
  - rewrite visited_put, E by done. unfold up_to. cbn. rewrite Ho. destruct (o <=? last); lia.
Qed.

Lemma adjust_running m tb tb' o q m' :
  running m tb -> ranged q -> symbol q <> 0 ->
  (forall last, visited last tb' = visited last tb + up_to last (mk o q)) ->
  adjust_balance m o q = Ok m' -> running m' tb'.
Proof.
  intros Hr Hq Hs Hv H. unfold adjust_balance in H. specialize (Hv (last_visited m)).
  unfold up_to in Hv. cbn [owner balance] in Hv. destruct (o <=? last_visited m).
  - apply bind_Ok in H as (t & Ht & [= <-]).
    apply add_Ok in Ht as (Hsq & Ha & Hts & Htr); [|apply Hr|done].
    split; cbn; [done | rewrite Ha, Hv, (run_total _ _ Hr); lia | rewrite Hts, <- Hsq; lia].
  - injection H as <-. split; [apply Hr | rewrite Hv, (run_total _ _ Hr); lia | apply Hr].
Qed.

(** While the migration sums the accounts its total is right. *)
Definition summing (s : state) : Prop :=
  forall m, Migrations.get_account_migration (migration s) = Some m -> running m (users s).

Lemma completed_summing s : Migrations.is_completed (migration s) = true -> summing s.
Proof.
  intros H m Hm. destruct (migration s) as [[]|]; cbn in Hm; try discriminate.
Qed.

(** Distributions leave the migration alone. *)
Definition migration_kept (s s' : state) : Prop := migration s' = migration s.
#[local] Instance migration_kept_preorder : PreOrder migration_kept.
Proof. split; [done|]. intros s1 s2 s3 H1 H2. unfold migration_kept in *. congruence. Qed.
#[local] Instance migration_kept_loose : Frame.Loose migration_kept.
Proof.
  split; intros; first [apply within_on | apply within_on_with]; by intros.
Qed.

Section actions.
Context (c : ctx).
Import Actions DistributionOps Contract.

Lemma pool_keeps_migration p q : within migration_kept (add_to_pool c p q).
Proof.
  unfold add_to_pool. withins. apply (Frame.setup_loose migration_kept).
  - intros l s a s' [= _ <-]. done.
Qed.

Lemma adjusted_summing s tb o q u s' m :
  summing s -> ranged q -> symbol q <> 0 -> Migrations.get_account_migration (migration s) = Some m ->
  (forall last, visited last tb = visited last (users s) + up_to last (mk o q)) ->
  adjust_migration m o q (s <| users := tb |>) = Ok (u, s') -> summing s'.
Proof.
  intros Hsum Hq Hs Hm Hv H. unfold adjust_migration in H.
  apply M_bind_Ok in H as (m' & s1 & [Ha ->]%lift_Ok & H).
  apply on_Ok in H as (v & Hset & ->). intros m2 Hm2. cbn in Hm2 |- *.
  unfold Migrations.set in Hset. apply bind_Ok in Hset as (cur & _ & Hset).
  apply bind_Ok in Hset as (u1 & _ & [= <-]). injection Hm2 as <-. eapply adjust_running; eauto.
Qed.

Lemma opp_spec q : ranged q -> ranged (Asset.opp q) /\ amount (Asset.opp q) = - amount q.
Proof.
  intros Hq. unfold ranged, max_amount, Asset.opp in *. cbn. rewrite swrap64_small by lia. lia.
Qed.

(** A user pays, and the total follows. *)
Lemma paid_summing s o q u1 s1 u s' (rest : M unit) :
  Accounts.wf (users s) -> summing s -> ranged q -> symbol q <> 0 -> within migration_kept rest ->
  sub_user o q s = Ok (u1, s1) ->
  (match Migrations.get_account_migration (migration s1) with
   | Some m => adjust_migration m o (Asset.opp q)
   | None => rest
   end) s1 = Ok (u, s') -> summing s'.
Proof.
  intros Hw Hsum Hq Hs Hk H1 H. unfold sub_user in H1. apply on_Ok in H1 as (tb & H1 & ->).
  destruct (Migrations.get_account_migration _) as [m|] eqn:Em.
  - destruct (opp_spec q Hq) as [Hoq Hoa].
    eapply (adjusted_summing s tb o (Asset.opp q)); eauto. intros last.
    rewrite (debit_visited _ _ _ _ _ Hw Hq H1). unfold up_to. cbn [owner balance]. rewrite Hoa.
    destruct (o <=? last); lia.
  - intros m. rewrite (Hk _ _ _ H), Em. done.
Qed.

(** What leaves the users and the migration alone keeps the total. *)
Definition books_kept (s s' : state) : Prop := users s' = users s /\ migration s' = migration s.
#[local] Instance books_kept_preorder : PreOrder books_kept.
Proof.
  split; [done|]. intros s1 s2 s3 [H1 H2] [H3 H4]. split; congruence.
Qed.
Lemma books_kept_summing s s' : books_kept s s' -> summing s -> summing s'.
Proof. intros [Hu Hm] Hs m. rewrite Hu, Hm. apply Hs. Qed.
Lemma on_books {S} (part : state -> S) `{!Setter part} f :
  (forall s x, books_kept s (s <| part := x |>)) -> within books_kept (on part f).
Proof. intros H. apply within_on. intros s x _. apply H. Qed.
Lemma on_with_books {S A} (part : state -> S) `{!Setter part} (f : S -> result (S * A)) :
  (forall s x, books_kept s (s <| part := x |>)) -> within books_kept (on_with part f).
Proof. intros H. apply within_on_with. intros s x a _. apply H. Qed.
Lemma send_books a : within books_kept (send a).
Proof. by intros s u s' [= _ <-]. Qed.
Lemma send_all_books l : within books_kept (send_all l).
Proof. by intros s u s' [= _ <-]. Qed.
#[local] Hint Resolve send_books send_all_books : within.
#[local] Hint Extern 2 (within books_kept (on _ _)) => (apply on_books; by intros) : within.
#[local] Hint Extern 2 (within books_kept (on_with _ _)) => (apply on_with_books; by intros) : within.

Definition ready (s : state) : Prop := Accounts.wf (users s) /\ summing s.
Lemma books_ready s s' : books_kept s s' -> ready s -> ready s'.
Proof.
  intros Hk [Hw Hs]. split; [by rewrite (proj1 Hk) | by eapply books_kept_summing].
Qed.

(** A step that leaves both alone, before or after. *)
Lemma books_before {A B} (m : M A) (f : A -> M B) s b s' (P : Prop) :
  within books_kept m -> ready s -> (m ≫= f) s = Ok (b, s') ->
  (forall a s1, ready s1 -> f a s1 = Ok (b, s') -> P) -> P.
Proof.
  intros Hm Hr (a & s1 & H1%Hm & H2)%M_bind_Ok HP. eapply HP; [by eapply books_ready|exact H2].
Qed.

Ltac keep := unfold require_auth, check_token, MemberOps.installed, MemberOps.global, get_induction in *;
  withins.

Lemma deposit_summing from to q memo s u s' :
  ready s -> ranged q -> symbol q <> 0 ->
  notify_transfer c from to q memo s = Ok (u, s') -> summing s'.
Proof.
  intros Hr Hq Hs H. unfold notify_transfer in H.
  destruct (from =? _).
  { eapply books_before; [|exact Hr|exact H|]; [keep|]. intros ? s1 Hr1 H1.
    apply M_bind_Ok in H1 as (o & s2 & Ho & H1). apply on_Ok in H1 as (x & _ & ->).
    assert (s2 = s1) as ->; [|apply Hr1].
    destruct (to =? _); [by apply lift_Ok in Ho as [_ ->] | by injection Ho]. }
  destruct (negb _); [injection H as _ <-; apply Hr|].
  eapply books_before; [|exact Hr|exact H|]; [keep|]. clear s Hr H. intros ? s [Hw Hsum] H.
  destruct (_ && _).
  - apply M_bind_Ok in H as (u2 & s1 & H2 & H). unfold add_user in H2.
    apply on_Ok in H2 as (tb & H2 & ->). apply M_bind_Ok in H as (om & s1 & [= <- <-] & H).
    destruct (Migrations.get_account_migration _) as [m|] eqn:Em.
    + eapply (adjusted_summing s tb from q); eauto. intros last. by eapply credit_visited.
    + injection H as _ <-. intros m Hm. revert Hm Em; cbn; congruence.
  - apply M_bind_Ok in H as (cm & s1 & [= <- <-] & H).
    destruct (Migrations.is_completed (migration s)) eqn:Ec.
    + apply completed_summing. apply pool_keeps_migration in H. by rewrite H.
    + by injection H as _ <-.
Qed.

Lemma books_after {A} (m : M A) s a s' :
  within books_kept m -> summing s -> m s = Ok (a, s') -> summing s'.
Proof. intros Hm Hs H%Hm. by eapply books_kept_summing. Qed.

Lemma withdrawal_summing o q s u s' :
  ready s -> ranged q -> symbol q <> 0 -> withdraw c o q s = Ok (u, s') -> summing s'.
Proof.
  intros Hr Hq Hs H. unfold withdraw in H.
  eapply books_before; [|exact Hr|exact H|]; [keep|]. clear s Hr H. intros ? s Hr H.
  eapply books_before; [|exact Hr|exact H|]; [keep|]. clear s Hr H. intros ? s [Hw Hsum] H.
  apply M_bind_Ok in H as (u1 & s1 & H1 & H). apply M_bind_Ok in H as (om & s2 & [= <- <-] & H).
  apply M_bind_Ok in H as (u2 & s2 & H2 & H).
  eapply books_after; [|eapply paid_summing; [exact Hw|exact Hsum|exact Hq|exact Hs| |exact H1|exact H2]|exact H].
  - keep.
  - apply (within_ret _).
Qed.

Lemma fee_summing p i q s u s' :
  ready s -> ranged q -> symbol q <> 0 -> inductdonate c p i q s = Ok (u, s') -> summing s'.
Proof.
  intros Hr Hq Hs H. unfold inductdonate in H.
  do 7 (eapply books_before; [|exact Hr|exact H|]; [keep|]; clear s Hr H; intros ? s Hr H).
  destruct Hr as [Hw Hsum].
  apply M_bind_Ok in H as (u1 & s1 & H1 & H). apply M_bind_Ok in H as (om & s2 & [= <- <-] & H).
  apply M_bind_Ok in H as (cm & s2 & [= <- <-] & H). apply M_bind_Ok in H as (u2 & s2 & H2 & H).
  eapply books_after; [|eapply paid_summing; [exact Hw|exact Hsum|exact Hq|exact Hs| |exact H1|exact H2]|exact H].
  - keep.
  - apply within_when; [apply _|apply pool_keeps_migration].
Qed.

(** The payments that come with a change of a user's balance. *)
Definition paid (a : action) : option asset :=
  match a with
  | n_transfer _ _ q _ | a_withdraw _ q | a_inductdonate _ _ q => Some q
  | _ => None
  end.

(** While the migration is summing the accounts, money keeps coming and
    going without spoiling the total: a deposit, a withdrawal and an induction
    fee that succeed leave the running total equal to the sum of the balances
    of the accounts already visited, whether the account that pays or is paid
    was visited or not. *)
Theorem payments_keep_total (a : action) (q : asset) (s s' : state) :
  paid a = Some q -> ranged q -> symbol q <> 0 -> Accounts.wf (users s) -> summing s ->
  apply c a s = Ok (tt, s') -> summing s'.
Proof.
  intros Ha Hq Hs Hw Hsum H. destruct a; try discriminate Ha; injection Ha as ->; cbn [apply] in H.
  - by eapply withdrawal_summing.
  - by eapply fee_summing.
  - by eapply deposit_summing.
Qed.

(** Transfers between members are not followed.  A transfer from an
    account already visited to one not yet visited leaves the running total
    too high by the amount sent, which will be counted again when the payee is
    visited; the migration then books too little to the pool or aborts. *)
Theorem usertransfer_spoils_total (from to : Z) (q : asset) (memo : string) (s s' : state) m :
  Accounts.wf (users s) -> summing s -> ranged q ->
  Migrations.get_account_migration (migration s) = Some m -> from <= last_visited m < to ->
  apply c (a_usertransfer from to q memo) s = Ok (tt, s') ->
  amount (user_total m) = visited (last_visited m) (users s') + amount q /\ ~ summing s'.
Proof.
  intros Hw Hsum Hq Hm Hft H. cbn [apply] in H. unfold usertransfer, check_transfer in H.
  apply M_bind_Ok in H as (u1 & s1 & H1 & H). apply M_bind_Ok in H1 as (u2 & s2 & [Hpos ->]%checkM_Ok & H1).
  apply Z.ltb_lt in Hpos.
  assert (books_kept s s1) as [Hu Em].
  { refine ((_ : within books_kept _) _ _ _ H1). unfold MemberOps.check_active_member. keep. }
  rewrite <- Hu in Hw. apply M_bind_Ok in H as (u3 & s2 & H2 & H). unfold sub_user, add_user in *.
  apply on_Ok in H2 as (t2 & H2 & ->). apply on_Ok in H as (t3 & H3 & ->). cbn in H3.
  assert (amount (user_total m) = visited (last_visited m) t3 + amount q) as Ht.
  { rewrite (run_total _ _ (Hsum _ Hm)), <- Hu.
    rewrite (credit_visited _ _ _ _ _ _ (sub_balance_wf _ _ _ _ Hw Hq H2) Hq H3).
    rewrite (debit_visited _ _ _ _ _ Hw Hq H2). unfold up_to. cbn.
    destruct (Z.leb_spec from (last_visited m)), (Z.leb_spec to (last_visited m)); lia. }
  split; [exact Ht|]. intros Hsum'. specialize (Hsum' m). cbn in Hsum'. rewrite Em in Hsum'.
  apply run_total in Hsum'; [|exact Hm]. cbn in Ht. lia.
Qed.

End actions.

Import Contract.
(** *** A community in the middle of the migration *)

Definition eos : Z := Symbol.make 5459781 4.
Definition alice : Z := Name.n "alice".
Definition bob : Z := Name.n "bob".
Definition demo_self : Z := Name.n "eden.gm".
Definition demo_users : table :=
  {[ alice := mk alice (Asset.mk 50000 eos); bob := mk bob (Asset.mk 20000 eos) ]}.
Definition demo_ctx : ctx :=
  mk_ctx (Host.mk demo_self (fun _ => true) (fun _ _ => true) (fun _ => true) 1700000000000000)
    Host.demo_env (Nft.Nft.mk_tables ∅ (fun _ => 0) (fun _ => None) (fun _ => None) ∅ ∅).
Definition demo_globals : Globals.global_data_v1 :=
  Globals.mk_v1 (Globals.mk_v0 "Eden" (Asset.mk 100000 eos) (Asset.mk 10000 eos) 604800 Globals.active)
    57600 3600.
Definition demo_member (a : Z) : Members.Members.member :=
  Members.Members.mk_member true a "" Members.Members.active_member 0 Members.Members.not_in_election 0 0 None.
(** Alice has been visited, bob has not. *)
Definition demo_progress : migrate_account_v0 := mk_migrate alice (Asset.mk 50000 eos).
Definition demo_state : state :=
  empty_state <| globals := Some (Globals.v1 demo_globals) |> <| users := demo_users |>
    <| migration := Some (Migrations.migrate_account_v0 demo_progress) |>
    <| members := Members.Members.mk_store {[ alice := demo_member alice; bob := demo_member bob ]}
         None |>.

Lemma demo_users_wf : Accounts.wf demo_users.
Proof.
  unfold demo_users. apply account_wf_insert; [|done|by split].
  rewrite <- insert_empty. apply account_wf_insert; [apply wf_empty|done|by split].
Qed.

Lemma demo_running : running demo_progress demo_users.
Proof. split; [by split | vm_compute; reflexivity | by vm_compute]. Qed.

Lemma migrate_some_finds_pool_witness :
  exists m ow, Accounts.migrate_some demo_users ∅ eos (Some (Asset.mk 100000 eos)) (mk_migrate 0 Migrations.empty_asset) 5
    = Ok (m, ow, 2%nat) /\
    exists a, ow !! Name.n "master" = Some a /\ amount (balance a) = 30000.
Proof.
  do 2 eexists. split; [vm_compute; reflexivity|].
  match goal with |- context [ ?t !! _ = Some _ ] =>
    pose proof (migrate_some_finds_pool demo_users ∅ eos (Some (Asset.mk 100000 eos))
      (mk_migrate 0 Migrations.empty_asset) 5 (mk_migrate bob (Asset.mk 70000 eos)) t 2 demo_users_wf) as H end.
  apply H; [split; [by split | by vm_compute | done] | by split | vm_compute; reflexivity | lia].
Defined.

Lemma payments_keep_total_witness :
  exists s', apply demo_ctx (a_withdraw alice (Asset.mk 20000 eos)) demo_state = Ok (tt, s') /\
    running (mk_migrate alice (Asset.mk 30000 eos)) (users s').
Proof.
  eexists. split; [vm_compute; reflexivity|].
  match goal with |- running _ (users ?t) =>
    assert (summing t) as H end.
  { apply (payments_keep_total demo_ctx (a_withdraw alice (Asset.mk 20000 eos)) (Asset.mk 20000 eos) demo_state).
    - reflexivity.
    - by split.
    - by vm_compute.
    - exact demo_users_wf.
    - intros m [= <-]. exact demo_running.
    - vm_compute. reflexivity. }
  apply (H (mk_migrate alice (Asset.mk 30000 eos))). vm_compute. reflexivity.
Defined.

Lemma usertransfer_spoils_total_witness :
  exists s', apply demo_ctx (a_usertransfer alice bob (Asset.mk 10000 eos) "rent") demo_state = Ok (tt, s') /\
    50000 = visited alice (users s') + 10000.
Proof.
  eexists. split; [vm_compute; reflexivity|].
  match goal with |- _ = visited _ (users ?t) + _ =>
    apply (usertransfer_spoils_total demo_ctx alice bob (Asset.mk 10000 eos) "rent" demo_state t demo_progress) end.
  - exact demo_users_wf.
  - intros m [= <-]. exact demo_running.
  - by split.
  - reflexivity.
  - by split.
  - vm_compute. reflexivity.
Defined.
End AccountMigration.
