(* ===== verification/ContractMoney.v ===== *)
(** Where the money goes: how much every action adds to the contract's funds,
    and that this is what the action is meant to move. *)
From S2P Require Import Prelude Name Asset MultiIndex Ledger Host Globals Events Members ElectionState.
From S2P Require Import Accounts Inductions DistributionTables State DistributionOps Money.
From S2P Require Import DistributionMoney MemberOps ElectionOps Actions Governance Admin Contract Frame.
From S2P Require Import AccountMigration.
Open Scope string_scope.
Open Scope list_scope.
Open Scope Z_scope.

Module ContractMoney.
Import Money Contract Actions Governance Admin MemberOps.
Import (hints) Frame.

(** What the money tables do not see. *)
#[export] Instance same_base : Frame.Base same.
Proof.
  split; intros; try solve [eauto with within]. unfold remove_if_pending, remove_sessions. withins.
Qed.
#[export] Instance same_parts : Frame.Parts same.
Proof.
  split; intros; try solve [eauto with within | apply _].
  unfold remove, erase, remove_sessions. withins.
Qed.
#[local] Hint Extern 1 (within same installed) => (apply (Frame.installed_frame same)) : within.
#[local] Hint Extern 1 (within same global) => (apply (Frame.global_frame same)) : within.
#[local] Hint Extern 1 (within same (ElectionOps.set_time _ _ _)) => (apply (Frame.set_time_frame same)) : within.
#[local] Hint Extern 1 (within same (ElectionOps.on_rename _ _ _)) => (apply (Frame.election_rename_frame same)) : within.
#[local] Hint Extern 1 (within same (MemberOps.rename _ _)) => (apply (Frame.rename_frame same)) : within.

Section actions.
Context (c : ctx).
Abbreviation self := (Host.self (host_of c)).

Lemma adjust_migration_conserves m a q : conserves (adjust_migration m a q).
Proof. unfold adjust_migration. withins. Qed.
#[local] Hint Resolve adjust_migration_conserves : within.

Ltac conserve := unfold session_auth, require_auth, require_permission, check_active, check_token,
  check_active_member, check_pending_member, get_induction, get_account_migration,
  migration_completed, on_inductions in *; withins.

(** What an action brings into the contract's funds, in each currency. *)
Definition plus (q : asset) (sym : Z) : Z := Ledger.in_symbol sym q.
Definition minus (q : asset) (sym : Z) : Z := - Ledger.in_symbol sym q.
Definition nothing (_ : Z) : Z := 0.

Lemma moves_nothing {A} (m : M A) : conserves m -> moves nothing m.
Proof. exact id. Qed.

(** The account that the migration opens, where it is with its sum, and what
    the token contract holds beyond the users' balances by that sum. *)
Definition master : Z := Name.n "master".
#[local] Arguments master : simpl never.
Definition progress (v : Migrations.migration_variant) : Accounts.migrate_account_v0 :=
  match v with
  | Migrations.migrate_account_v0 m => m
  | _ => Accounts.mk_migrate 0 Migrations.empty_asset
  end.
Definition token_of (s : state) : Z :=
  match Globals.get (globals s) with Ok g => Globals.default_token g | Err _ => 0 end.
Definition surplus (s : state) (m : Accounts.migrate_account_v0) : asset :=
  AccountMigration.surplus (users s) (token_of s)
    (Host.token_balance (env_of c)) m.

Definition brings (a : action) (s s' : state) : Z -> Z :=
  match a with
  | a_clearall => fun sym =>
      - Accounts.held sym (users s) - Distribution.held sym (Distribution.account_tb (distributions s))
  | a_unmigrate => fun sym => - Accounts.held sym (owned s)
  | a_migrate _ =>
      match owned s !! master, owned s' !! master with
      | None, Some _ => plus (surplus s (progress (default Migrations.default_variant (migration s))))
      | _, _ => nothing
      end
  | n_transfer from to q memo =>
      if from =? self then minus q
      else if negb (to =? self) then nothing
      else if (Accounts.is_possible_deposit_account from Accounts.atomic_assets_account
                 Accounts.atomic_market_account && negb (bool_decide (memo = "donate")))
              || Migrations.is_completed (migration s) then plus q
      else nothing
  | a_inductdonate _ _ q => if Migrations.is_completed (migration s) then nothing else minus q
  | a_genesis _ _ _ _ _ _ _ _ _ _ => from_option plus nothing (Host.token_balance (env_of c))
  | _ => nothing
  end.

(** The amounts an action is given, the token contract's answer, and the sum of
    a migration under way, are in the range of assets. *)
Definition amounts_in_range (a : action) (s : state) : Prop :=
  match a with
  | a_migrate _ => from_option Asset.ranged True (Host.token_balance (env_of c)) /\
      AccountMigration.sound (progress (default Migrations.default_variant (migration s)))
  | a_withdraw _ q | a_donate _ q | a_fundtransfer _ _ _ _ q _ | a_usertransfer _ _ q _
  | a_inductdonate _ _ q | n_transfer _ _ q _ => Asset.ranged q
  | a_genesis _ _ _ _ _ _ _ _ _ _ => from_option Asset.ranged True (Host.token_balance (env_of c))
  | _ => True
  end.

(** One ledger of the contract. *)
Lemma add_user_moves a q b : Asset.ranged q -> moves (plus q) (add_user a q b).
Proof. intros Hq. apply within_on. intros s tb H. by eapply users_credit. Qed.
Lemma sub_user_moves a q : Asset.ranged q -> moves (minus q) (sub_user a q).
Proof. intros Hq. apply within_on. intros s tb H. by eapply users_debit. Qed.
Lemma add_outgoing_moves a q b :
  Asset.ranged q -> moves (plus q) (on outgoing (fun tb => Accounts.add_balance tb a q b)).
Proof. intros Hq. apply within_on. intros s tb H. by eapply outgoing_credit. Qed.
Lemma sub_outgoing_moves a q :
  Asset.ranged q -> moves (minus q) (on outgoing (fun tb => Accounts.sub_balance tb a q)).
Proof. intros Hq. apply within_on. intros s tb H. by eapply outgoing_debit. Qed.

(** Sequencing: what comes before or after moves nothing. *)
Lemma moves_after {A B} q (m : M A) (f : A -> M B) :
  conserves m -> (forall a, moves q (f a)) -> moves q (m ≫= f).
Proof.
  intros Hm Hf s b s' (a & s1 & H1%Hm & H2%Hf)%M_bind_Ok. eapply shift_trans; [|exact H1|exact H2].
  intros sym. cbn. lia.
Qed.
Lemma moves_before {A B} q (m : M A) (f : A -> M B) :
  moves q m -> (forall a, conserves (f a)) -> moves q (m ≫= f).
Proof.
  intros Hm Hf s b s' (a & s1 & H1%Hm & H2%Hf)%M_bind_Ok. eapply shift_trans; [|exact H1|exact H2].
  intros sym. cbn. lia.
Qed.
Lemma moves_back {A B} q (m : M A) (f : A -> M B) :
  moves (minus q) m -> (forall a, moves (plus q) (f a)) -> conserves (m ≫= f).
Proof.
  intros Hm Hf s b s' (a & s1 & H1%Hm & H2%Hf)%M_bind_Ok. eapply shift_trans; [|exact H1|exact H2].
  intros sym. unfold minus, plus. lia.
Qed.

Lemma withdraw_conserves o q : Asset.ranged q -> conserves (withdraw c o q).
Proof.
  intros Hq. unfold withdraw. apply within_bind; [apply _|conserve|intros _].
  apply within_bind; [apply _|conserve|intros _].
  apply (moves_back q); [by apply sub_user_moves|intros _].
  apply moves_after; [conserve|intros m]. apply moves_after; [conserve|intros _].
  apply moves_before; [by apply add_outgoing_moves|intros _]. conserve.
Qed.

Lemma donate_conserves o q : Asset.ranged q -> conserves (donate c o q).
Proof.
  intros Hq. unfold donate. do 3 (apply within_bind; [apply _|conserve|intros _]).
  apply within_bind; [apply _|conserve|intros ?]. apply within_bind; [apply _|conserve|intros _].
  apply (moves_back q); [by apply sub_user_moves|intros _]. by apply DistributionMoney.add_to_pool_shift.
Qed.

Lemma check_transfer_conserves from to q memo : conserves (check_transfer c from to q memo).
Proof. unfold check_transfer. conserve. Qed.

Lemma fundtransfer_conserves from t r to q memo :
  Asset.ranged q -> conserves (fundtransfer c from t r to q memo).
Proof.
  intros Hq. unfold fundtransfer. apply within_bind; [apply _|apply check_transfer_conserves|intros _].
  apply (moves_back q); [by apply DistributionMoney.sub_balance_shift|intros _]. by apply add_user_moves.
Qed.

Lemma usertransfer_conserves from to q memo :
  Asset.ranged q -> conserves (usertransfer c from to q memo).
Proof.
  intros Hq. unfold usertransfer. apply within_bind; [apply _|apply check_transfer_conserves|intros _].
  apply (moves_back q); [by apply sub_user_moves|intros _]. by apply add_user_moves.
Qed.

Lemma rename_action_conserves a b : conserves (Actions.rename c a b).
Proof.
  unfold Actions.rename. conserve. apply within_on. intros s tb H. by eapply users_rename.
Qed.

Lemma global_same s g s' : global s = Ok (g, s') -> s' = s.
Proof. unfold global. by intros [_ ->]%reads_Ok. Qed.
Lemma check_token_same q s u s' : check_token q s = Ok (u, s') -> s' = s.
Proof.
  unfold check_token. intros (g & s1 & ->%global_same & [_ ->]%checkM_Ok)%M_bind_Ok. done.
Qed.
Lemma installed_same s u s' : installed s = Ok (u, s') -> s' = s.
Proof. unfold installed. intros (g & s1 & ->%global_same & [= _ ->])%M_bind_Ok. done. Qed.

Lemma notify_transfer_brings from to q memo s u s' :
  Asset.ranged q -> notify_transfer c from to q memo s = Ok (u, s') ->
  shift (brings (n_transfer from to q memo) s s') s s'.
Proof.
  intros Hq H. unfold notify_transfer in H. cbn [brings].
  destruct (from =? self).
  { apply M_bind_Ok in H as (u1 & s1 & ->%installed_same & H).
    apply M_bind_Ok in H as (o & s1 & Ho & H).
    assert (s1 = s) as ->; [|by eapply sub_outgoing_moves].
    destruct (to =? _); [by apply lift_Ok in Ho as [_ ->] | by injection Ho]. }
  destruct (negb (to =? self)).
  { injection H as _ <-. by apply same_other. }
  apply M_bind_Ok in H as (u1 & s1 & ->%check_token_same & H).
  destruct (_ && _); cbn [orb].
  - revert H. apply moves_before; [by apply add_user_moves|intros _]. conserve.
  - apply M_bind_Ok in H as (cm & s1 & Hc & H). injection Hc as <- <-.
    destruct (Migrations.is_completed (migration s)); [by eapply DistributionMoney.add_to_pool_shift|].
    injection H as _ <-. by apply same_other.
Qed.

Lemma inductdonate_brings p i q s u s' :
  Asset.ranged q -> inductdonate c p i q s = Ok (u, s') ->
  shift (brings (a_inductdonate p i q) s s') s s'.
Proof.
  intros Hq H. unfold inductdonate, get_induction, require_auth in H. cbn [brings].
  apply M_bind_Ok in H as (u1 & s1 & [_ ->]%lift_Ok & H).
  apply M_bind_Ok in H as (g & s1 & ->%global_same & H).
  apply M_bind_Ok in H as (ind & s1 & [_ ->]%reads_Ok & H).
  apply M_bind_Ok in H as (u2 & s1 & [_ ->]%lift_Ok & H).
  apply M_bind_Ok in H as (u3 & s1 & [_ ->]%checkM_Ok & H).
  apply M_bind_Ok in H as (ok & s1 & [_ ->]%lift_Ok & H).
  apply M_bind_Ok in H as (u4 & s1 & [_ ->]%checkM_Ok & H).
  apply M_bind_Ok in H as (u5 & s1 & H1 & H). pose proof H1 as H1'.
  unfold sub_user in H1'. apply on_Ok in H1' as (tb & _ & E1). apply (sub_user_moves _ _ Hq) in H1.
  assert (migration s1 = migration s) as Em by (by rewrite E1). clear E1.
  apply M_bind_Ok in H as (m & s2 & Hm & H). injection Hm as <- <-.
  apply M_bind_Ok in H as (cm & s2 & Hc & H). injection Hc as <- <-. rewrite Em in H.
  assert (shift (if Migrations.is_completed (migration s) then plus q else nothing) s1 s') as H2.
  { revert H. apply moves_before; [|intros _; conserve].
    destruct (migration s) as [[]|]; cbn;
      first [by apply DistributionMoney.add_to_pool_shift | apply moves_nothing; conserve]. }
  destruct (Migrations.is_completed (migration s)); eapply shift_trans; [|exact H1|exact H2| |exact H1|exact H2];
    intros sym; unfold minus, plus, nothing; lia.
Qed.

Lemma genesis_brings co sy ml im vi at_ bi du d t s u s' :
  from_option Asset.ranged True (Host.token_balance (env_of c)) ->
  genesis c co sy ml im vi at_ bi du d t s = Ok (u, s') ->
  shift (from_option plus nothing (Host.token_balance (env_of c))) s s'.
Proof.
  intros Hq H. revert H. unfold genesis, require_auth, add_initial, create_endorsements,
    ElectionOps.set_board_permission, ElectionOps.link_board_permission, on_inductions.
  do 7 (apply moves_after; [conserve|intros _]).
  apply moves_before; [|intros _; conserve].
  apply within_on. intros s1 tb H. unfold Accounts.init in H.
  destruct (Host.token_balance (env_of c)) as [b|]; cbn in Hq |- *.
  - by eapply owned_credit.
  - injection H as <-. by apply same_other.
Qed.

(** *** The actions that reset tables, and the migration *)

(** The tables that hold money, and the configuration. *)
Definition books_same (s s' : state) : Prop :=
  users s' = users s /\ owned s' = owned s /\ outgoing s' = outgoing s /\
  distributions s' = distributions s /\ globals s' = globals s.
#[local] Instance books_same_preorder : PreOrder books_same.
Proof.
  unfold books_same. split; [done|]. intros s1 s2 s3 (?&?&?&?&?) (?&?&?&?&?). repeat split; congruence.
Qed.
Lemma books_same_money s s' : books_same s s' -> same s s'.
Proof. intros (?&?&?&?&_). by apply same_other. Qed.

Lemma migrate_auction_same last k s r s' :
  migrate_current c (Migrations.migrate_auction_v0 last) k s = Ok (r, s') ->
  books_same s s' /\ exists last', r.1 = Migrations.migrate_auction_v0 last'.
Proof.
  cbn [migrate_current]. intros (u & s1 & ->%installed_same & H)%M_bind_Ok.
  apply M_bind_Ok in H as ([last' n] & s2 & (x & _ & ->)%on_with_Ok & [= <- <-]). split; [done|]. by eexists.
Qed.

Lemma migrate_later_same v k s r s' :
  1 < Migrations.index v -> migrate_current c v k s = Ok (r, s') ->
  books_same s s' /\ Migrations.index r.1 = Migrations.index v.
Proof.
  destruct v; cbn [Migrations.index]; intros Hv; try lia; cbn [migrate_current].
  2: intros (ms & s1 & [= <- <-] & H)%M_bind_Ok; destruct (Table.update_index _ _ _); injection H as <- <-; done.
  all: by intros [= <- <-].
Qed.

Lemma migrate_loop_later n v k s r s' :
  1 < Migrations.index v -> migrate_loop c n v k s = Ok (r, s') -> books_same s s'.
Proof.
  revert v k s. induction n as [|n IH]; intros v [|k] s Hv H; try (injection H as _ <-; done).
  cbn [migrate_loop] in H. destruct (_ =? _); [by injection H as _ <-|].
  apply M_bind_Ok in H as ([v1 k1] & s1 & [H1 Hi]%migrate_later_same & H); [|done]. cbn in Hi.
  destruct k1; [by injection H as _ <-|]. apply M_bind_Ok in H as (u & s2 & [= _ <-] & H).
  apply IH in H; [|rewrite Migrations.index_next; unfold Migrations.last_index; lia].
  etransitivity; [exact H1|exact H].
Qed.

(** One run of the migrations opens the pool at most once, with the surplus. *)
Definition pool_opened (s s' : state) (m : Accounts.migrate_account_v0) : Prop :=
  owned s !! master = None /\ Asset.ranged (surplus s m) /\
  books_same (s <| owned := <[master := Accounts.mk master (surplus s m)]> (owned s) |>) s'.

Lemma pool_opened_after s1 s2 s' m : books_same s1 s2 -> pool_opened s2 s' m -> pool_opened s1 s' m.
Proof.
  intros (Hu & Ho & Hout & Hd & Hg) (Hn & Hr & H1 & H2 & H3 & H4 & H5).
  assert (surplus s1 m = surplus s2 m) as Hs by (unfold surplus, token_of; by rewrite Hu, Hg).
  cbn in *. split; [by rewrite <- Ho|]. rewrite Hs. split; [done|]. cbn.
  repeat split; cbn; congruence.
Qed.

Lemma migrate_account_opens m k s r s' :
  Accounts.wf (users s) -> AccountMigration.sound m ->
  from_option Asset.ranged True (Host.token_balance (env_of c)) ->
  migrate_current c (Migrations.migrate_account_v0 m) k s = Ok (r, s') ->
  (books_same s s' \/ pool_opened s s' m) /\ Migrations.index r.1 = 1.
Proof.
  intros Hw Hm Hb H. cbn [migrate_current] in H.
  apply M_bind_Ok in H as (g & s1 & Hg & H). pose proof (global_same _ _ _ Hg) as ->.
  apply M_bind_Ok in H as (us & s1 & [= <- <-] & H).
  apply M_bind_Ok in H as ([m' n] & s1 & (ow & H1 & ->)%on_with_Ok & [= <- <-]). split; [|done].
  apply bind_Ok in H1 as ([[m1 ow1] n1] & H1 & [= <- _ _]).
  destruct (AccountMigration.migrate_some_books _ _ _ _ _ _ _ _ _ Hw Hm Hb H1) as (_ & _ & _ & Ho & _).
  assert (token_of s = Globals.default_token g) as Ht.
  { unfold token_of. by apply reads_Ok in Hg as [-> _]. }
  destruct Ho as [->|(Hn & Hr & ->)]; [left|right].
  - repeat split. 
  - unfold pool_opened, surplus. rewrite Ht. split; [done|]. split; [done|]. repeat split.
Qed.

Lemma migrate_loop_opens n v k s r s' :
  Accounts.wf (users s) -> AccountMigration.sound (progress v) ->
  from_option Asset.ranged True (Host.token_balance (env_of c)) ->
  migrate_loop c n v k s = Ok (r, s') -> books_same s s' \/ pool_opened s s' (progress v).
Proof.
  revert v k s. induction n as [|n IH]; intros v [|k] s Hw Hm Hb H; try (injection H as _ <-; by left).
  destruct (Z.lt_ge_cases 1 (Migrations.index v)) as [Hv|Hv]; [left; by eapply migrate_loop_later|].
  cbn [migrate_loop] in H. destruct (_ =? _); [injection H as _ <-; by left|].
  apply M_bind_Ok in H as ([v1 k1] & s1 & H1 & H). destruct v as [last|m| | | |]; cbn in Hv; try lia.
  - apply migrate_auction_same in H1 as [H1 [last' Hl]]. cbn in Hl. subst v1.
    destruct k1; [injection H as _ <-; by left|]. apply M_bind_Ok in H as (u & s2 & H2 & H).
    assert (books_same s s2) as H12 by (etransitivity; [exact H1 | by injection H2 as _ <-]).
    apply IH in H; [| by rewrite (proj1 H12) | done | done].
    destruct H as [H|H]; [left; etransitivity; [exact H12|exact H] | right; by eapply pool_opened_after].
  - apply (migrate_account_opens m) in H1 as [H1 Hi]; [|done..]. cbn in Hi.
    destruct k1; [by injection H as _ <-|]. apply M_bind_Ok in H as (u & s2 & [= _ <-] & H).
    apply migrate_loop_later in H; [|rewrite Migrations.index_next, Hi; done].
    destruct H1 as [H1|(Hn & Hr & H1)]; [left|right; split; [done|]; split; [done|]];
      (etransitivity; [exact H1|exact H]).
Qed.

Lemma migrate_brings n s u s' :
  amounts_in_range (a_migrate n) s -> migrate c n s = Ok (u, s') -> shift (brings (a_migrate n) s s') s s'.
Proof.
  intros [Hb Hm] H. apply shift_wf. intros Hw. unfold migrate, must_progress in H.
  apply M_bind_Ok in H as (k & s1 & H & [_ ->]%checkM_Ok). unfold migrate_some in H.
  apply M_bind_Ok in H as (v & s2 & [= <- <-] & H). apply M_bind_Ok in H as ([v1 k1] & s3 & H & H2).
  apply M_bind_Ok in H2 as (u2 & s4 & (x & _ & ->)%on_Ok & [= _ <-]).
  apply migrate_loop_opens in H; [| apply Hw | done..]. cbn [brings].
  destruct H as [(H1&H2&H3&H4&_)|(Hn & Hr & H1&H2&H3&H4&_)]; cbn in *.
  - rewrite H2. destruct (owned s !! master); by apply same_other.
  - rewrite H2, Hn, lookup_insert_eq. intros [W1 W2 W3 W4 W5]. split.
    + split; cbn; rewrite ?H1, ?H2, ?H3, ?H4; try done. by apply Accounts.account_wf_insert.
    + intros sym. unfold funds. cbn. rewrite H1, H2, H3, H4. unfold Accounts.held.
      rewrite map_sum_insert by done. cbn. unfold plus. lia.
Qed.

Lemma unmigrate_brings s u s' : unmigrate c s = Ok (u, s') -> shift (brings a_unmigrate s s') s s'.
Proof.
  unfold unmigrate, require_auth. intros (u1 & s1 & [_ ->]%lift_Ok & H)%M_bind_Ok.
  apply M_bind_Ok in H as (u2 & s2 & (x & _ & ->)%on_Ok & H).
  apply M_bind_Ok in H as (u3 & s3 & ->%installed_same & H).
  apply M_bind_Ok in H as (u4 & s4 & (y & _ & ->)%on_Ok & (z & [= <-] & ->)%on_Ok).
  intros [W1 W2 W3 W4 W5]. split; [split; cbn; try done; apply Accounts.wf_empty|].
  intros sym. unfold funds, brings. cbn. unfold Accounts.clear_all, Accounts.held at 2. rewrite map_sum_empty. lia.
Qed.

Lemma clearall_brings s u s' : clearall c s = Ok (u, s') -> shift (brings a_clearall s s') s s'.
Proof.
  intros H. assert (users s' = ∅ /\ owned s' = owned s /\ outgoing s' = outgoing s /\
    distributions s' = Distribution.clear_all (distributions s)) as (Hu & Ho & Hout & Hd).
  { revert H. unfold clearall, require_auth, MemberOps.clear_all, ElectionOps.clear_all, on_inductions.
    intros (u1 & s1 & [_ ->]%lift_Ok & H)%M_bind_Ok.
    apply M_bind_Ok in H as (u2 & s2 & ->%installed_same & H).
    repeat (let Hs := fresh in apply M_bind_Ok in H as (? & ? & Hs & H); apply on_Ok in Hs as (? & Hs & ->)).
    apply on_Ok in H as (? & _ & ->). cbn in *.
    repeat match goal with Hs : Ok _ = Ok _ |- _ => injection Hs as <- end. done. }
  intros [W1 W2 W3 W4 W5]. split.
  - by split; rewrite ?Hu, ?Ho, ?Hout, ?Hd.
  - intros sym. unfold funds, brings. rewrite Hu, Ho, Hout, Hd. cbn.
    unfold Accounts.held at 1, Distribution.held at 1. rewrite !map_sum_empty. lia.
Qed.

(** C9: every action moves what it is meant to and nothing else.  The funds are the users' balances,
    the contract's own, the withdrawals under way and the accounts of the
    distributions.  Every action that succeeds, the tables being well formed
    and the amounts, the sum of a migration under way among them, in the range
    of assets, leaves them well formed and changes the funds of each currency by exactly what it is meant to bring: the amount
    of a deposit or donation received, minus that of a withdrawal sent, minus
    an induction fee paid before the contract's own balance is known, the token
    balance at genesis, and what the token balance exceeds the users' balances
    by, as the migration summed them, when the migration opens the pool;
    everything else, distributions and elections included, moves money only
    inside.  The two actions that reset tables drop what was in them: [clearall]
    the users' balances and the distributions' accounts - the contract's own
    balance and the withdrawals stay - and [unmigrate] the contract's own. *)
Theorem action_moves_funds (a : action) (s s' : state) :
  amounts_in_range a s -> wf s -> apply c a s = Ok (tt, s') ->
  wf s' /\ forall sym, funds sym s' = funds sym s + brings a s s' sym.
Proof.
  intros Ha Hw H. revert Hw. change (shift (brings a s s') s s').
  destruct (Frame.moves_money a) eqn:Em.
  - destruct a; try done; cbn [apply amounts_in_range] in *;
      first [ by eapply withdraw_conserves | by eapply donate_conserves
            | by eapply fundtransfer_conserves | by eapply usertransfer_conserves
            | by eapply rename_action_conserves | by eapply notify_transfer_brings
            | by eapply inductdonate_brings | by eapply genesis_brings
            | by eapply clearall_brings | by eapply unmigrate_brings | by eapply migrate_brings ].
  - assert (brings a s s' = nothing) as -> by (destruct a; done).
    by eapply (Frame.still_action_frame same c a Em).
Qed.

End actions.

(** A deposit of 5.0000 EOS opens an account. *)
Definition demo_self : Z := Name.n "eden.gm".
Definition demo_ctx : ctx :=
  mk_ctx (Host.mk demo_self (fun _ => true) (fun _ _ => true) (fun _ => true) 1700000000000000)
    Host.demo_env (Nft.Nft.mk_tables ∅ (fun _ => 0) (fun _ => None) (fun _ => None) ∅ ∅).
Definition demo_eos : Z := Eval vm_compute in Symbol.make (default 0 (match Symbol.code_of_string "EOS" with Ok v => Some v | Err _ => None end)) 4.
Definition demo_globals : Globals.global_data_v1 :=
  Globals.mk_v1 (Globals.mk_v0 "Eden" (Asset.mk 100000 demo_eos) (Asset.mk 10000 demo_eos) 604800 Globals.active)
    57600 3600.
Definition demo_state : state := empty_state <| globals := Some (Globals.v1 demo_globals) |>.

Lemma action_moves_funds_witness :
  exists s', apply demo_ctx (n_transfer (Name.n "alice") demo_self (Asset.mk 50000 demo_eos) "hello") demo_state
               = Ok (tt, s') /\
    wf s' /\ funds demo_eos s' = 50000.
Proof.
  eexists. split; [vm_compute; reflexivity|].
  match goal with |- wf ?s' /\ _ =>
    destruct (action_moves_funds demo_ctx
                (n_transfer (Name.n "alice") demo_self (Asset.mk 50000 demo_eos) "hello") demo_state s')
      as [Hw Hf]
  end.
  - split; vm_compute; discriminate.
  - split; try apply Accounts.wf_empty; [split|]; intros k d Hd; cbn in Hd; by rewrite lookup_empty in Hd.
  - vm_compute; reflexivity.
  - split; [exact Hw|]. rewrite Hf. vm_compute. reflexivity.
Defined.

End ContractMoney.
