(* ===== verification/ContractMembers.v ===== *)
(** The member table as every action of the contract changes it: only by the
    operations of the component, each followed to its end, so what holds of
    the component holds of the contract. *)
From S2P Require Import Prelude Name MultiIndex Host Globals Members ElectionState.
From S2P Require Import Inductions DistributionTables State DistributionOps MemberOps ElectionOps Actions.
From S2P Require Import Governance Admin Contract Frame.
From stdpp Require Import relations.
Open Scope list_scope.
Open Scope Z_scope.

Module ContractMembers.
Import Contract Actions Governance Admin MemberOps.

(** The member store, its invariant given, went through steps of its
    component. *)
Definition follows (s s' : state) : Prop :=
  Members.inv (members s) -> rtc Members.step (members s) (members s').

Lemma steps_inv m m' : rtc Members.step m m' -> Members.inv m -> Members.inv m'.
Proof. induction 1; [done|]. intros Hi. by apply IHrtc, (Members.step_inv x). Qed.
#[global] Instance follows_preorder : PreOrder follows.
Proof.
  split; [intros s _; apply rtc_refl|]. intros s1 s2 s3 H12 H23 H1.
  etransitivity; [by apply H12|]. apply H23. eapply steps_inv; [by apply H12|done].
Qed.

Lemma follows_other s s' : members s' = members s -> follows s s'.
Proof. intros H _. rewrite H. apply rtc_refl. Qed.
Lemma follows_step s s' : (Members.inv (members s) -> Members.step (members s) (members s')) -> follows s s'.
Proof. intros H Hi. by apply rtc_once, H. Qed.

Abbreviation tracks := (within follows).

Lemma tracks_event ev : tracks (push_event ev).
Proof. intros s a s' [= _ <-]. by apply follows_other. Qed.
Lemma tracks_events evs : tracks (push_events evs).
Proof. intros s a s' [= _ <-]. by apply follows_other. Qed.
Lemma tracks_send a : tracks (send a).
Proof. intros s x s' [= _ <-]. by apply follows_other. Qed.
Lemma tracks_send_all l : tracks (send_all l).
Proof. intros s x s' [= _ <-]. by apply follows_other. Qed.

Lemma tracks_on {S} (part : state -> S) `{!Setter part} f :
  (forall s x, members (s <| part := x |>) = members s) -> tracks (on part f).
Proof. intros H. apply within_on. intros s x _. by apply follows_other. Qed.
Lemma tracks_on_with {S A} (part : state -> S) `{!Setter part} (f : S -> result (S * A)) :
  (forall s x, members (s <| part := x |>) = members s) -> tracks (on_with part f).
Proof. intros H. apply within_on_with. intros s x a _. by apply follows_other. Qed.
Lemma tracks_members (f : Members.store -> result Members.store) :
  (forall s s', f s = Ok s' -> Members.step s s') -> tracks (on members f).
Proof. intros H. apply within_on. intros s x Hx. apply follows_step. intros _. by apply H. Qed.

Lemma member_op_step f m m' : Frame.member_op f -> f m = Ok m' -> Members.step m m'.
Proof.
  intros [] Hm; first [by eapply Members.step_create | by eapply Members.step_set_key
    | by eapply Members.step_set_nft | by eapply Members.step_set_active | by eapply Members.step_set_rank
    | by eapply Members.step_election_opt | injection Hm as <-; constructor].
Qed.

(** Removing sessions leaves the members alone. *)
Lemma remove_sessions_members a s u s' : remove_sessions a s = Ok (u, s') -> members s' = members s.
Proof.
  unfold remove_sessions. intros (evs & s1 & (x & _ & ->)%on_with_Ok & [= _ <-])%M_bind_Ok. done.
Qed.

(** Removing a member takes two changes of the store: one step. *)
Lemma erase_tracks m k s u s' :
  Members.member_tb (members s) !! k = Some m -> erase m s = Ok (u, s') -> follows s s'.
Proof.
  intros Hm H. apply follows_step. intros Hi.
  assert (Members.account m = k) as Ha by (by apply (Members.inv_keyed _ Hi)).
  unfold erase in H. apply M_bind_Ok in H as (u1 & s1 & (x & Hx & ->)%on_Ok & H).
  apply M_bind_Ok in H as (u2 & s2 & H2%remove_sessions_members & (y & Hy & ->)%on_Ok).
  rewrite H2, Ha in Hy. by eapply Members.step_erase.
Qed.
Lemma remove_tracks a : tracks (remove a).
Proof.
  intros s u s' H. unfold remove in H. apply M_bind_Ok in H as (m & s1 & [Hm%some_or_Ok ->]%reads_Ok & H).
  by eapply erase_tracks.
Qed.
Lemma remove_if_pending_tracks a : tracks (remove_if_pending a).
Proof.
  intros s u s' H. unfold remove_if_pending in H.
  apply M_bind_Ok in H as (m & s1 & [Hm%Table.get_Ok ->]%reads_Ok & H).
  unfold when in H. destruct (Z.eqb_spec (Members.status m) Members.pending_membership) as [Hp|Hp];
    [|injection H as _ <-; by apply follows_other].
  apply follows_step. intros Hi.
  apply M_bind_Ok in H as (u1 & s1 & H1%remove_sessions_members & H).
  apply M_bind_Ok in H as (u2 & s2 & (x & Hx & ->)%on_Ok & (y & Hy & ->)%on_Ok).
  rewrite H1 in Hx. by eapply Members.step_remove_pending.
Qed.

(** ** All of the contract *)

#[local] Instance follows_loose : Frame.Loose follows.
Proof. split; intros; first [apply tracks_on | apply tracks_on_with]; reflexivity. Qed.
#[local] Instance follows_base : Frame.Base follows.
Proof.
  split; intros; try (first [apply tracks_on | apply tracks_on_with]; reflexivity).
  - apply tracks_events.
  - apply tracks_event.
  - apply tracks_send_all.
  - apply tracks_send.
  - apply tracks_members. intros m m' Hm. by eapply member_op_step.
  - apply remove_if_pending_tracks.
  - apply Frame.setup_loose; first [apply _ | apply tracks_events | apply tracks_event].
  - apply Frame.monthly_loose; first [apply _ | apply tracks_events | apply tracks_event].
  - apply Frame.election_end_loose; first [apply _ | apply tracks_events | apply tracks_event].
  - apply Frame.dist_resign_loose; first [apply _ | apply tracks_events | apply tracks_event].
  - apply Frame.dist_rename_loose; first [apply _ | apply tracks_events | apply tracks_event].
Qed.
#[local] Instance follows_parts : Frame.Parts follows.
Proof.
  split; intros; try (first [apply tracks_on | apply tracks_on_with]; reflexivity).
  - apply _.
  - apply tracks_members. intros m m' Hm. destruct H;
      [by eapply member_op_step | by eapply Members.step_rename | injection Hm as <-; constructor].
  - apply remove_tracks.
Qed.

Lemma transact_steps c a s :
  Members.inv (members s) -> rtc Members.step (members s) (members (transact c a s)).
Proof.
  intros Hi. unfold transact. destruct (apply c a (begin s)) as [[[] s']|e] eqn:E; [|apply rtc_refl].
  exact (Frame.every_action_frame follows c a _ _ _ E Hi).
Qed.

Lemma steps_reachable m m' : rtc Members.step m m' -> Members.reachable m -> Members.reachable m'.
Proof. induction 1; [done|]. intros Hr. apply IHrtc. by eapply Members.reach_step. Qed.
Lemma members_reach self s : reachable self s -> Members.reachable (members s).
Proof.
  induction 1 as [|s c a H IH Hc]; [apply Members.reach_init|].
  eapply steps_reachable; [by apply transact_steps, Members.reachable_members_inv | done].
Qed.

(** The rows of a status. *)
Definition number_of (status : Z) (s : state) : Z :=
  Members.count status (Members.member_tb (members s)).

(** C20: in every state the contract reaches, whatever actions run and however
    they interleave, the member statistics are the true counts: each row of
    the member table is pending or active and stored under its account, and
    the two counters equal the numbers of pending and active rows, without
    ever wrapping around their 16 bits. *)
Theorem stats_count_members (self : Z) (s : state) :
  reachable self s ->
  (forall k m, Members.member_tb (members s) !! k = Some m ->
     Members.account m = k /\
     (Members.status m = Members.pending_membership \/ Members.status m = Members.active_member)) /\
  Members.pending_members (Members.stats (members s)) = number_of Members.pending_membership s /\
  Members.active_members (Members.stats (members s)) = number_of Members.active_member s /\
  number_of Members.pending_membership s + number_of Members.active_member s =
    map_sum (fun _ => 1) (Members.member_tb (members s)).
Proof. intros H%members_reach. by apply Members.reachable_stats_count. Qed.

(** Genesis with two initial members, both pending. *)
Definition demo_self : Z := Name.n "eden.gm".
Definition demo_ctx : ctx :=
  mk_ctx (Host.mk demo_self (fun _ => true) (fun _ _ => true) (fun _ => true) 1700000000000000)
    Host.demo_env (Nft.Nft.mk_tables ∅ (fun _ => 0) (fun _ => None) (fun _ => None) ∅ ∅).
Definition demo_genesis : action :=
  a_genesis "Eden" 0 (Asset.Asset.mk 10 0) [Name.n "alice"; Name.n "bob"] "video" []
    (Asset.Asset.mk 10 0) 604800 6 "15:30".
Definition demo_state : state := Eval vm_compute in transact demo_ctx demo_genesis empty_state.

Lemma stats_count_members_witness :
  Members.pending_members (Members.stats (members demo_state)) = 2 /\
  2 = number_of Members.pending_membership demo_state.
Proof.
  split; [vm_compute; reflexivity|].
  apply (stats_count_members demo_self demo_state).
  assert (demo_state = transact demo_ctx demo_genesis empty_state) as -> by (vm_compute; reflexivity).
  apply reach_step; [apply reach_start | reflexivity].
Defined.

End ContractMembers.
