(* ===== verification/ElectionPhases.v ===== *)
(** The phases of an election as a state machine over all the actions of the
    contract ([contracts/eden/src/elections.cpp]): what the vote table holds in
    each phase, and that no action, in whatever order the actions come and
    however the work of a phase is cut into steps, leaves it otherwise. *)
From S2P Require Import Prelude Name Asset MultiIndex Crypto Host Globals Events Members ElectionConfig Rng ElectionState.
From S2P Require Import Nft Inductions VoteTable Tally State DistributionOps MemberOps ElectionOps Actions.
From S2P Require Import Governance Admin Contract Frame ContractMembers.
From stdpp Require Import relations.
Open Scope list_scope.
Open Scope Z_scope.

Module ElectionPhases.
Import Votes Config Seats ElectionOps MemberOps Actions Governance Admin Contract.

(** ** The rounds of an election *)

(** Round [r] with [n] participants, when it is not the last: groups of four
    to six, and four times fewer participants than the round before. *)
Record round_shape (c : round_config) (r n : Z) : Prop := {
  shape_wf : round_wf c;
  shape_participants : num_participants c = n;
  shape_groups : 4 * num_groups c <= n <= 6 * num_groups c;
  shape_round : 0 <= r;
  shape_shrinks : n * 4 ^ r <= 10000
}.

Lemma shape_bounds c r n : round_shape c r n -> 1 <= num_groups c /\ 4 <= n <= 10000 /\ r < 7.
Proof.
  intros [(Hg & _) Hp Hn Hr Hs].
  assert (r < 7) by (destruct (Z.lt_ge_cases r 7) as [|H7]; [done|];
    pose proof (Z.pow_le_mono_r 4 7 r ltac:(lia) H7) as Hm; change (4 ^ 7) with 16384 in Hm; nia).
  pose proof (Z.pow_pos_nonneg 4 r ltac:(lia) Hr). split_and!; nia.
Qed.

Lemma balanced_groups c lo hi :
  balanced c -> num_participants c < 2 ^ 16 -> 1 <= lo <= smallest c -> group_max_size c <= hi ->
  1 <= num_groups c /\ lo * num_groups c <= num_participants c <= hi * num_groups c.
Proof.
  intros (Hp & Hs & Hb) Hn. unfold smallest.
  assert (0 <= group_max_size c) as Hmax0 by (apply wrap_bounds; lia).
  assert (group_max_size c = 0 -> group_min_size c = 2 ^ 32 - 1) as Hmin0
    by (unfold group_min_size; intros ->; done).
  assert (0 < group_max_size c < 2 ^ 32 -> group_min_size c = group_max_size c - 1) as Hmin
    by (intros; apply wrap_small; lia).
  assert (group_max_size c < 2 ^ 8) by (apply wrap_bounds; lia).
  destruct (Z.eqb_spec (num_short_groups c) 0) as [H0|H0]; intros Hsm Hmax; (split; [lia|]); [nia|].
  destruct (Z.eq_dec (group_max_size c) 0) as [Hz|Hz]; [exfalso; specialize (Hmin0 Hz); nia|].
  specialize (Hmin ltac:(lia)). nia.
Qed.

(** What the configuration of [n] voters says about its first round. *)
Lemma first_config e n cfgs :
  env_ok e -> 1 <= n <= 10000 -> make_election_config (Host.log_floor e) n = Ok cfgs ->
  exists cfg, head cfgs = Some cfg /\
    if Nat.eqb (length cfgs) 1 then n <= 11
    else forall r, 0 <= r -> n * 4 ^ r <= 10000 -> round_shape cfg r n.
Proof.
  intros He Hn H. destruct (election_config_shape e n He Hn) as (cfgs' & H' & [Hf Hl _ Hb Hr Hfin]).
  rewrite H in H'. injection H' as <-. destruct cfgs as [|cfg cfgs]; [done|]. cbn in Hf.
  injection Hf as Hf. exists cfg. split; [done|]. apply Forall_cons in Hb as [Hb _].
  destruct (Nat.eqb_spec (length (cfg :: cfgs)) 1) as [H1|H1].
  - destruct cfgs; [|done]. cbn in Hl. injection Hl as Hl.
    destruct (Hfin cfg eq_refl) as [Hmax Hsm]. destruct (Z.le_gt_cases n 11) as [|H11]; [done|].
    destruct (balanced_groups cfg 3 11 Hb ltac:(lia) ltac:(lia) Hmax) as [_ Hc]. lia.
  - destruct (Hr 0%nat cfg eq_refl) as [Hsm Hmax]; [destruct cfgs; cbn in *; [done|lia]|].
    destruct (balanced_groups cfg 4 6 Hb ltac:(lia) ltac:(lia) Hmax) as [Hg Hc].
    intros r Hr0 Hs. split; [unfold round_wf | ..]; lia.
Qed.

(** The groups that remain start where the closed ones end. *)
Lemma group_size_first c g :
  round_wf c -> 0 <= g < num_groups c ->
  group_size_at c (group_to_first_member_index c g)
    = group_to_first_member_index c (g + 1) - group_to_first_member_index c g.
Proof.
  intros Hc Hg. pose proof Hc as (Hg' & Hp & _).
  destruct (round_parts c Hc) as (m & q & Hm & Hq & Hmax & Hmb & Hqb & HN).
  unfold group_size_at, group_to_first_member_index. rewrite Hm, Hq, Hmax.
  rewrite (wrap_small 32 ((m + 1) * q)), (wrap_small 32 (q * (m + 1))) by nia.
  rewrite (wrap_small 32 (m + _)) by (destruct (_ <? _); lia).
  destruct (Z.ltb_spec g q) as [Hlt|Hge].
  - rewrite (wrap_small 32 (g * (m + 1))) by nia. destruct (Z.ltb_spec (g * (m + 1)) (q * (m + 1))); [|nia].
    destruct (Z.ltb_spec (g + 1) q); rewrite wrap_small by nia; [lia|].
    assert (g = q - 1) as -> by lia. lia.
  - rewrite (wrap_small 32 ((m + 1) * q + (g - q) * m)) by nia.
    destruct (Z.ltb_spec ((m + 1) * q + (g - q) * m) (q * (m + 1))); [nia|].
    destruct (Z.ltb_spec (g + 1) q); [lia|]. rewrite wrap_small by nia. lia.
Qed.

(** Where the groups start; every group has four to six members. *)
Lemma firsts c r n g :
  round_shape c r n -> 0 <= g <= num_groups c ->
  let first := group_to_first_member_index c in
  first 0 = 0 /\ first (num_groups c) = n /\ 4 * g <= first g <= n /\
  (g < num_groups c -> 4 <= first (g + 1) - first g <= 6 /\ first (g + 1) <= n).
Proof.
  intros [Hc Hp Hn _ _] Hg. pose proof Hc as (Hg' & Hp' & _).
  destruct (round_parts c Hc) as (m & q & Hm & Hq & Hmax & Hmb & Hqb & HN). subst n.
  assert (3 <= m <= 5 /\ (m = 3 -> q = num_groups c)) as [Hm3 Hm4] by nia.
  assert (forall g, 0 <= g <= num_groups c ->
    group_to_first_member_index c g = if g <? q then g * (m + 1) else (m + 1) * q + (g - q) * m) as Hf.
  { intros j Hj. unfold group_to_first_member_index. rewrite Hm, Hq.
    rewrite (wrap_small 32 ((m + 1) * q)) by nia.
    destruct (Z.ltb_spec j q); apply wrap_small; nia. }
  cbn zeta. rewrite !Hf by lia. split_and!.
  - destruct (Z.ltb_spec 0 q); lia.
  - destruct (Z.ltb_spec (num_groups c) q); nia.
  - destruct (Z.ltb_spec g q); nia.
  - destruct (Z.ltb_spec g q); nia.
  - intros Hlt. rewrite Hf by lia. destruct (Z.ltb_spec g q), (Z.ltb_spec (g + 1) q); nia.
Qed.

(** ** What the vote table holds *)

Definition no_votes (vt : vote_table) : Prop := forall k v, vt !! k = Some v -> candidate v = 0.

(** A vote is for a voter of the same round and group. *)
Definition votes_in_groups (c : round_config) (r : Z) (vt : vote_table) : Prop :=
  forall k v, vt !! k = Some v ->
    candidate v = 0 \/
    (round v = r /\ exists w, vt !! candidate v = Some w /\ round w = r /\
       member_index_to_group c (index w) = member_index_to_group c (index v)).

Definition is_active (ms : Members.store) (m : Z) : Prop :=
  exists x, Members.member_tb ms !! m = Some x /\ Members.status x = Members.active_member.

(** Round [prev_round] is being counted: its first [g] groups are closed, the
    others sit where they voted, and at most one voter of each closed group
    sits in the next round. *)
Record counting (p : post_round) (vt : vote_table) (l l' : list Z) (g : Z) : Prop := {
  count_seats : seats (prev_round p) (next_input_index p) l l' vt;
  count_shape : round_shape (prev_config p) (prev_round p) (num_participants (prev_config p));
  count_closed : 0 <= g <= num_groups (prev_config p) /\
    next_input_index p = group_to_first_member_index (prev_config p) g;
  count_open : next_input_index p + Z.of_nat (length l) = num_participants (prev_config p);
  count_winners : next_output_index p = Z.of_nat (length l') /\ Z.of_nat (length l') <= g;
  count_votes : votes_in_groups (prev_config p) (prev_round p) vt
}.

Definition ballot (phase : option current_election_state) (vt : vote_table) (ms : Members.store) : Prop :=
  match phase with
  | None | Some pending_date | Some (registering _ _) | Some (seeding_phase _ _) => vt = ∅
  | Some (init_phase _ i) =>
      exists l, seats 0 0 l [] vt /\ Z.of_nat (length l) = next_member_idx i /\ no_votes vt /\
        forall m, m ∈ l -> is_active ms m
  | Some (active_phase a) =>
      exists l, seats (active_round_no a) 0 l [] vt /\
        round_shape (config a) (active_round_no a) (Z.of_nat (length l)) /\
        votes_in_groups (config a) (active_round_no a) vt
  | Some (post_phase p) => exists l l' g, counting p vt l l' g
  | Some (final_phase _) =>
      exists r l, seats r 0 l [] vt /\ (0 < length l <= 11)%nat /\ no_votes vt
  end.

(** No voter is seated. *)
Definition idle (phase : option current_election_state) : Prop :=
  match phase with
  | None | Some pending_date | Some (registering _ _) | Some (seeding_phase _ _) => True
  | _ => False
  end.
Definition phase_of (s : state) : option current_election_state := state_sing (elections s).
Definition votes_of (s : state) : vote_table := vote_tb (elections s).

Record good (s : state) : Prop := {
  good_members : Members.inv (members s);
  good_ballot : ballot (phase_of s) (votes_of s) (members s)
}.
Definition keeps (s s' : state) : Prop := good s -> good s'.
#[global] Instance keeps_preorder : PreOrder keeps.
Proof. split; unfold keeps; [by intros s|]. intros s1 s2 s3. auto. Qed.

(** States equal as far as the code compares them hold the same votes. *)
Lemma ballot_same o v vt ms : same_state o v = true -> ballot (Some v) vt ms -> ballot (Some o) vt ms.
Proof.
  destruct o as [| [] | [] | [] | | |], v as [| [] | [] | [] | | |];
    cbn [same_state]; intros H; try done; try (apply bool_decide_eq_true in H; by (injection H as -> || injection H as -> ->)).
  cbn. rewrite !andb_true_iff in H. destruct H as [[[Hn _] _] _]. apply Z.eqb_eq in Hn. by rewrite Hn.
Qed.

(** ** What leaves the election alone *)

Definition untouched (s s' : state) : Prop := elections s' = elections s /\ members s' = members s.
#[global] Instance untouched_preorder : PreOrder untouched.
Proof. split; [done|]. intros s1 s2 s3 [H1 H2] [H3 H4]. split; congruence. Qed.

Lemma untouched_keeps s s' : untouched s s' -> keeps s s'.
Proof. intros [He Hm] [Hi Hb]. split; unfold phase_of, votes_of in *; by rewrite ?He, ?Hm. Qed.
Lemma untouched_within {A} (m : M A) : within untouched m -> within keeps m.
Proof. intros Hw s a s' H. by eapply untouched_keeps, Hw. Qed.

#[export] Instance untouched_loose : Frame.Loose untouched.
Proof. split; intros; first [apply within_on | apply within_on_with]; by intros. Qed.
Lemma untouched_events l : within untouched (push_events l).
Proof. by intros s a s' [= _ <-]. Qed.
Lemma untouched_event ev : within untouched (push_event ev).
Proof. by intros s a s' [= _ <-]. Qed.
#[export] Hint Resolve untouched_events untouched_event : within.
Ltac untouched_part :=
  first [ by intros ? ? ? [= _ <-]
        | first [apply within_on | apply within_on_with]; by intros ].
Ltac untouched_distribution :=
  first [ apply (Frame.setup_loose untouched) | apply (Frame.monthly_loose untouched)
        | apply (Frame.election_end_loose untouched) | apply (Frame.dist_resign_loose untouched)
        | apply (Frame.dist_rename_loose untouched) ]; eauto with within.

(** ** Members *)

Definition actives_stay (ms ms' : Members.store) : Prop := forall m, is_active ms m -> is_active ms' m.

Lemma ballot_actives phase vt ms ms' : actives_stay ms ms' -> ballot phase vt ms -> ballot phase vt ms'.
Proof.
  intros Ha. destruct phase as [[| | | | | |]|]; try done.
  intros (l & Hs & Hn & Hv & Hl). exists l. split_and!; [done|done|done|]. auto.
Qed.

(** Rows of a status are counted, so there are no more voters than active
    members. *)
Lemma count_at_least st l : forall tb, NoDup l ->
  (forall m, m ∈ l -> exists x, tb !! m = Some x /\ Members.status x = st) ->
  Z.of_nat (length l) <= Members.count st tb.
Proof.
  induction l as [|m l IH]; intros tb Hn Hl; cbn [length].
  - apply map_sum_nonneg. intros k x _. unfold Members.has_status. destruct (_ =? _); lia.
  - apply NoDup_cons in Hn as [Hm Hn]. destruct (Hl m ltac:(left)) as (x & Hx & Hs).
    pose proof (Members.count_delete st tb m x Hx) as Hd. unfold Members.has_status in Hd.
    rewrite Hs, Z.eqb_refl in Hd. specialize (IH (delete m tb) Hn).
    assert (Z.of_nat (length l) <= Members.count st (delete m tb)); [|lia].
    apply IH. intros j Hj. destruct (Hl j ltac:(by right)) as (y & Hy & Hys). exists y.
    rewrite lookup_delete_ne; [done|]. by intros <-.
Qed.
Lemma active_voters ms l :
  Members.inv ms -> NoDup l -> (forall m, m ∈ l -> is_active ms m) -> Z.of_nat (length l) <= 10000.
Proof.
  intros Hi Hn Hl. pose proof (count_at_least Members.active_member l (Members.member_tb ms) Hn Hl).
  pose proof (Members.inv_active _ Hi). destruct (Members.inv_range _ Hi) as [_ Hr].
  unfold Globals.max_active_members in Hr. lia.
Qed.

(** Replacing a row by one that is active if it was. *)
Lemma update_actives ms k f ms' :
  (forall x x', f x = Ok x' -> Members.status x = Members.active_member -> Members.status x' = Members.active_member) ->
  Members.modify_member ms k f = Ok ms' -> actives_stay ms ms'.
Proof.
  intros Hf H m (x & Hx & Hs). unfold Members.modify_member in H.
  apply bind_Ok in H as (tb & (y & y' & Hy & Hy' & _ & ->)%Table.modify_Ok & [= <-]).
  destruct (decide (k = m)) as [->|Hne].
  - exists y'. cbn. rewrite lookup_insert_eq. split; [done|]. apply (Hf y); [done|congruence].
  - exists x. cbn. by rewrite lookup_insert_ne.
Qed.

Lemma set_rank_actives ms a r b ms' : Members.set_rank ms a r b = Ok ms' -> actives_stay ms ms'.
Proof.
  unfold Members.set_rank. intros H. apply bind_Ok in H as (x & _ & H). apply bind_Ok in H as (ms1 & H1 & H).
  injection H as <-. intros m Hm. eapply (update_actives ms a) in H1; [|by intros y y' [= <-]].
  exact (H1 m Hm).
Qed.

Lemma member_op_actives f ms ms' : Frame.member_op f -> f ms = Ok ms' -> actives_stay ms ms'.
Proof.
  intros [a|a k|a n|a n|a r b| |l|m b t v o] H.
  - unfold Members.create in H. apply bind_Ok in H as (_ & _ & H).
    apply bind_Ok in H as (tb & [Hn ->]%Table.emplace_Ok & [= <-]).
    intros m (x & Hx & Hs). exists x. cbn in Hn |- *. rewrite lookup_insert_ne by congruence. done.
  - unfold Members.set_key in H. apply bind_Ok in H as (_ & _ & H).
    eapply update_actives; [|exact H]. by intros x x' [= <-].
  - unfold Members.set_nft in H. apply bind_Ok in H as (_ & _ & H).
    eapply update_actives; [|exact H]. by intros x x' [= <-].
  - unfold Members.set_active in H. apply bind_Ok in H as (_ & _ & H). apply bind_Ok in H as (_ & _ & H).
    apply bind_Ok in H as (_ & _ & H). intros m Hm.
    eapply update_actives in H; [apply (H m Hm)|]. by intros x x' [= <-].
  - by eapply set_rank_actives.
  - injection H as <-. by intros x.
  - injection H as <-. by intros x.
  - unfold Members.election_opt in H. apply bind_Ok in H as (_ & _ & H). apply bind_Ok in H as (_ & _ & H).
    apply bind_Ok in H as (np & _ & H). eapply update_actives; [|exact H]. by intros x x' [= <-].
Qed.

Lemma keeps_members f : Frame.member_op f -> within keeps (on members f).
Proof.
  intros Hf. apply within_on. intros s x Hx [Hi Hb]. split.
  - cbn. eapply Members.step_inv; [exact Hi|]. by eapply ContractMembers.member_op_step.
  - unfold phase_of, votes_of in *. cbn. eapply ballot_actives; [|exact Hb]. by eapply member_op_actives.
Qed.

Lemma keeps_remove_pending a : within keeps (remove_if_pending a).
Proof.
  intros s u s' H [Hi Hb]. pose proof (ContractMembers.remove_if_pending_tracks a s u s' H Hi) as Hr.
  split; [by eapply ContractMembers.steps_inv|].
  unfold remove_if_pending in H. apply M_bind_Ok in H as (m & s1 & [Hm%Table.get_Ok ->]%reads_Ok & H).
  unfold when in H. destruct (Z.eqb_spec (Members.status m) Members.pending_membership) as [Hp|Hp];
    [|by injection H as _ <-].
  unfold remove_sessions in H. repeat (apply M_bind_Ok in H as (? & ? & ? & H)).
  repeat match goal with H : (_ ≫= _) _ = Ok _ |- _ => apply M_bind_Ok in H as (? & ? & ? & H) end.
  repeat match goal with
    | H : on_with _ _ _ = Ok _ |- _ => apply on_with_Ok in H as (? & _ & ->)
    | H : push_events _ _ = Ok _ |- _ => injection H as _ <-
    | H : on _ _ _ = Ok _ |- _ => apply on_Ok in H as (? & ? & ->) end.
  unfold phase_of, votes_of in *. cbn in *. eapply ballot_actives; [|exact Hb].
  rename H0 into He. unfold Members.erase_row in He.
  apply bind_Ok in He as (tb & [_ ->]%Table.erase_Ok & [= <-]).
  unfold Members.count_removed_pending in H. apply bind_Ok in H as (_ & _ & [= <-]).
  intros j (y & Hy & Hs). exists y. cbn. split; [|done]. rewrite lookup_delete_ne; [done|].
  intros <-. rewrite Hm in Hy. injection Hy as <-. by rewrite Hp in Hs.
Qed.

#[export] Instance keeps_base : Frame.Base keeps.
Proof.
  split; intros; first [by apply keeps_members | apply keeps_remove_pending | apply untouched_within].
  all: first [untouched_part | untouched_distribution].
Qed.

(** ** Between elections *)

(** No election has voters, and none may start from here but by seeding. *)
Record resting (s : state) : Prop := {
  rest_members : Members.inv (members s);
  rest_votes : votes_of s = ∅;
  rest_idle : idle (phase_of s)
}.
Lemma resting_good s : resting s -> good s.
Proof. intros [Hi Hv Hp]. split; [done|]. rewrite Hv. by destruct (phase_of s) as [[| | | | | |]|]. Qed.
Lemma idle_vacant phase vt ms : ballot phase vt ms -> idle phase -> vt = ∅.
Proof. by destruct phase as [[| | | | | |]|]. Qed.
Lemma idle_resting s : good s -> idle (phase_of s) -> resting s.
Proof. intros [Hi Hb] Hp. split; [done| |done]. by eapply idle_vacant. Qed.

(** The members exist and nobody is seated, in whatever phase. *)
Record vacant (s : state) : Prop := {
  vacant_members : Members.inv (members s);
  vacant_votes : votes_of s = ∅
}.
Definition stays_vacant (s s' : state) : Prop := vacant s -> vacant s' /\ (idle (phase_of s) -> idle (phase_of s')).
#[global] Instance stays_vacant_preorder : PreOrder stays_vacant.
Proof.
  split; unfold stays_vacant; [by intros s|]. intros s1 s2 s3 H12 H23 H1.
  destruct (H12 H1) as [H2 Hp2]. destruct (H23 H2) as [H3 Hp3]. auto.
Qed.
Lemma resting_vacant s s' : stays_vacant s s' -> resting s -> resting s'.
Proof. intros H [Hi Hv Hp]. destruct H as [[] Hp']; [by split|]. split; auto. Qed.

Lemma untouched_vacant s s' : untouched s s' -> stays_vacant s s'.
Proof. intros [He Hm] [Hi Hv]. unfold votes_of, phase_of in *. rewrite He. split; [split|]; unfold votes_of; rewrite ?He, ?Hm; done. Qed.
Lemma members_vacant s s' : elections s' = elections s -> rtc Members.step (members s) (members s') -> stays_vacant s s'.
Proof.
  intros He Hm [Hi Hv]. unfold votes_of, phase_of in *. rewrite He. split; [|done].
  split; [by eapply ContractMembers.steps_inv | unfold votes_of; by rewrite He].
Qed.
Definition same_elections (s s' : state) : Prop := elections s' = elections s.
#[global] Instance same_elections_preorder : PreOrder same_elections.
Proof. split; [done|]. intros s1 s2 s3 H1 H2. unfold same_elections in *. congruence. Qed.
Lemma remove_pending_elections a : within same_elections (remove_if_pending a).
Proof.
  unfold remove_if_pending, remove_sessions. withins.
  all: first [by apply within_on | by apply within_on_with | by intros s x s' [= _ <-]].
Qed.
Lemma untouched_stays {A} (m : M A) : within untouched m -> within stays_vacant m.
Proof. intros Hw s a s' H. by eapply untouched_vacant, Hw. Qed.

Lemma stays_members f :
  (forall ms ms', f ms = Ok ms' -> Members.step ms ms') -> within stays_vacant (on members f).
Proof. intros Hf. apply within_on. intros s x Hx. apply members_vacant; [done|]. by apply rtc_once, Hf. Qed.
Lemma stays_remove_pending a : within stays_vacant (remove_if_pending a).
Proof.
  intros s x s' H Hv. pose proof (remove_pending_elections _ _ _ _ H) as He.
  apply ContractMembers.remove_if_pending_tracks in H. pose proof Hv as [Hi _]. revert Hv.
  by apply members_vacant, H.
Qed.

#[export] Instance vacant_base : Frame.Base stays_vacant.
Proof.
  split; intros; first [ apply stays_members; intros ? ? ?; by eapply ContractMembers.member_op_step
                       | apply stays_remove_pending | apply untouched_stays ].
  all: first [untouched_part | untouched_distribution].
Qed.

(** ** Changing the phase *)

Lemma put_state_Ok v s u s1 u' s' :
  report_state v s = Ok (u, s1) -> put_state v s1 = Ok (u', s') ->
  members s' = members s /\ votes_of s' = votes_of s /\
  (phase_of s' = Some v \/ exists o, phase_of s' = Some o /\ same_state o v = true).
Proof.
  unfold put_state. intros H1 (x & [= <-] & ->)%on_Ok. 
  assert (within untouched (report_state v)) as Hw by (unfold report_state, get_results; withins).
  destruct (Hw _ _ _ H1) as [He Hm].
  unfold votes_of, phase_of. cbn. rewrite He, Hm. auto.
Qed.
Lemma set_state_Ok v s u s' :
  set_state_sing v s = Ok (u, s') ->
  members s' = members s /\ votes_of s' = votes_of s /\
  (phase_of s' = Some v \/ exists o, phase_of s' = Some o /\ same_state o v = true).
Proof.
  unfold set_state_sing. intros (old & s1 & [= <- <-] & H)%M_bind_Ok.
  destruct (state_sing (elections s)) as [o|] eqn:Eo; [destruct (same_state o v) eqn:Es|].
  - injection H as _ <-. unfold phase_of. rewrite Eo. split_and!; eauto.
  - apply M_bind_Ok in H as (u1 & s1 & H1 & H). by eapply put_state_Ok.
  - apply M_bind_Ok in H as (u1 & s1 & H1 & H). by eapply put_state_Ok.
Qed.

Lemma set_state_good v s u s' :
  set_state_sing v s = Ok (u, s') -> Members.inv (members s) ->
  ballot (Some v) (votes_of s) (members s) -> good s'.
Proof.
  intros (Hm & Hv & Hp)%set_state_Ok Hi Hb. split; rewrite Hm; [done|]. rewrite Hv.
  destruct Hp as [-> | (o & -> & Ho)]; [done|]. by eapply ballot_same.
Qed.

(** With nobody seated the state may become any without voters. *)
Lemma set_state_idle v s u s' :
  idle (Some v) -> set_state_sing v s = Ok (u, s') -> idle (phase_of s') /\ votes_of s' = votes_of s.
Proof.
  intros Hv (_ & Hvt & Hp)%set_state_Ok. split; [|done].
  destruct Hp as [-> | (o & -> & Ho)]; [done|].
  destruct o as [| [] | [] | [] | | |], v as [| [] | [] | [] | | |]; try done;
    cbn [same_state] in Ho; by apply bool_decide_eq_true in Ho.
Qed.
Lemma set_state_rests v s u s' :
  idle (Some v) -> set_state_sing v s = Ok (u, s') -> vacant s -> resting s'.
Proof.
  intros Hv H [Hi He]. pose proof (set_state_idle _ _ _ _ Hv H) as [Hp Hvt].
  apply set_state_Ok in H as (Hm & _). split; rewrite ?Hm, ?Hvt; done.
Qed.
Lemma set_state_stays v : idle (Some v) -> within stays_vacant (set_state_sing v).
Proof.
  intros Hv s u s' H Hs. apply (set_state_rests _ _ _ _ Hv H) in Hs as [Hi He Hp]. split; [by split|done].
Qed.

#[export] Hint Extern 1 (within stays_vacant (set_state_sing _)) => (by apply set_state_stays) : within.

Lemma set_default_stays t : within stays_vacant (set_default_election t).
Proof. unfold set_default_election. withins. Qed.
Lemma set_default_rests t s u s' :
  set_default_election t s = Ok (u, s') -> vacant s -> resting s'.
Proof.
  unfold set_default_election. intros H Hv.
  apply M_bind_Ok in H as (g & s1 & [_ ->]%reads_Ok & H).
  apply M_bind_Ok in H as (st & s1 & [= _ <-] & H). by eapply set_state_rests in H.
Qed.

Section phases.
Context (c : ctx).

Lemma trigger_stays : within stays_vacant (trigger_election c).
Proof. unfold trigger_election, state_exists, ElectionOps.get_state. withins. Qed.
#[local] Hint Resolve set_default_stays trigger_stays : within.
Lemma set_time_stays d t : within stays_vacant (set_time c d t).
Proof. unfold set_time. withins. Qed.
Lemma set_next_stays t : within stays_vacant (set_next_election_time c t).
Proof. unfold set_next_election_time. withins. Qed.

(** A computation that keeps rest, run where there is rest. *)
Lemma rests_good {A} (m : M A) s a s' :
  within stays_vacant m -> good s -> idle (phase_of s) -> m s = Ok (a, s') -> good s'.
Proof.
  intros Hw Hg Hi H. apply resting_good. eapply resting_vacant; [by eapply Hw | by apply idle_resting].
Qed.

Lemma set_time_keeps d t : within keeps (set_time c d t).
Proof.
  intros s u s' H Hg. destruct (phase_of s) as [ph|] eqn:Eph.
  - unfold set_time in H. apply M_bind_Ok in H as (x & s1 & [_ ->]%lift_Ok & H).
    apply M_bind_Ok in H as (u1 & s1 & (g & _ & ->)%on_Ok & H).
    apply M_bind_Ok in H as (st & s1 & [= <- <-] & H). cbn in H.
    assert (good (s <| State.globals := g |>)) as Hg1 by (destruct Hg; by split).
    change (state_sing (elections s)) with (phase_of s) in H. rewrite Eph in H.
    destruct ph; try (by injection H as _ <-). eapply (rests_good _ _ _ _ trigger_stays Hg1); [|exact H].
    unfold phase_of in *. cbn. by rewrite Eph.
  - eapply (rests_good _ _ _ _ (set_time_stays d t) Hg); [by rewrite Eph | exact H].
Qed.

Lemma set_next_keeps t : within keeps (set_next_election_time c t).
Proof.
  intros s u s' H Hg. assert (idle (phase_of s)) as Hi.
  { unfold set_next_election_time in H. apply M_bind_Ok in H as (u1 & s1 & [_ ->]%checkM_Ok & H).
    apply M_bind_Ok in H as (st & s1 & [= <- <-] & H). unfold phase_of.
    apply M_bind_Ok in H as (sq & s1 & H & _).
    destruct (state_sing (elections s)) as [[]|]; try done. }
  by eapply (rests_good _ _ _ _ (set_next_stays t) Hg).
Qed.

Lemma maybe_trigger_keeps : within keeps (maybe_trigger c).
Proof.
  intros s u s' H Hg. unfold maybe_trigger in H.
  apply M_bind_Ok in H as (st & s1 & [= <- <-] & H). apply M_bind_Ok in H as (n & s1 & [= _ <-] & H).
  destruct (state_sing (elections s)) as [[]|] eqn:E; try (by injection H as _ <-).
  eapply rests_good; [|exact Hg| |exact H]; [withins | unfold phase_of; by rewrite E].
Qed.

Lemma seed_keeps h : within keeps (seed_with c h).
Proof.
  intros s u s' H [Hi Hb]. unfold seed_with in H.
  apply M_bind_Ok in H as (u1 & s1 & [_ ->]%checkM_Ok & H).
  apply M_bind_Ok in H as (st & s1 & [Hst%some_or_Ok ->]%reads_Ok & H).
  apply M_bind_Ok in H as (st1 & s1 & H1 & H).
  assert (within untouched (open_seeding c st)) as Hw1 by (unfold open_seeding; withins).
  destruct (Hw1 _ _ _ H1) as [He1 Hm1].
  apply M_bind_Ok in H as (st2 & s2 & H2 & H).
  assert (untouched s1 s2) as [He2 Hm2].
  { match type of H2 with ?m s1 = _ => assert (within untouched m) as Hw2 by withins end. by eapply Hw2. }
  unfold phase_of, votes_of in Hb. eapply set_state_good; [exact H | by rewrite Hm2, Hm1 |].
  unfold votes_of. rewrite He2, He1, Hm2, Hm1. rewrite Hst in Hb.
  assert (ballot (Some st1) (vote_tb (elections s)) (members s)) as Hb1.
  { unfold open_seeding in H1. destruct st; try (by injection H1 as <- _).
    apply M_bind_Ok in H1 as (u2 & s3 & _ & H1). apply M_bind_Ok in H1 as (u3 & s4 & _ & [= <- _]). done. }
  destruct st1; try done; apply M_bind_Ok in H2 as (sd & s3 & _ & [= <- _]); done.
Qed.

(** ** Votes *)

Lemma check_member_Ok vt r m v : check_member vt r m = Ok v -> vt !! m = Some v /\ round v = r.
Proof.
  unfold check_member. intros H. apply bind_Ok in H as (w & Hw%some_or_Ok & H).
  destruct (Z.eqb_spec (round w) r); [|done]. by injection H as <-.
Qed.

(** Voting leaves everyone seated. *)
Lemma seats_candidate r lo l l' vt k v cand :
  seats r lo l l' vt -> vt !! k = Some v -> seats r lo l l' (<[k := v <| candidate := cand |>]> vt).
Proof.
  intros Hs Hk.
  assert (forall m (P : vote -> Prop), (forall w, P (w <| candidate := cand |>) <-> P w) ->
    (exists w, <[k := v <| candidate := cand |>]> vt !! m = Some w /\ P w) <-> exists w, vt !! m = Some w /\ P w) as Hx.
  { intros m P HP. destruct (decide (k = m)) as [<-|Hne].
    - rewrite lookup_insert_eq, Hk. split; intros (w & [= <-] & Hw); eexists; (split; [done|]); by apply HP.
    - by rewrite lookup_insert_ne. }
  assert (forall m w, <[k := v <| candidate := cand |>]> vt !! m = Some w ->
    exists w0, vt !! m = Some w0 /\ round w0 = round w /\ index w0 = index w) as Hrow.
  { intros m w [[<- <-]|[_ Hw]]%lookup_insert_Some; eauto. }
  split.
  - apply Table.keyed_insert; [apply Hs|]. cbn. by apply (seats_keyed _ _ _ _ _ Hs).
  - intros m w (w0 & Hw0 & _ & <-)%Hrow. by eapply (seats_index _ _ _ _ _ Hs).
  - intros m w (w0 & Hw0 & <- & _)%Hrow. by eapply (seats_rounds _ _ _ _ _ Hs).
  - intros i m. rewrite (seats_this _ _ _ _ _ Hs). symmetry. by apply Hx.
  - intros i m. rewrite (seats_next _ _ _ _ _ Hs). symmetry. by apply Hx.
  - intros m w (w0 & Hw0 & <- & <-)%Hrow. by eapply (seats_low _ _ _ _ _ Hs).
  - apply Hs.
Qed.

Lemma vote_keeps r voter cand : within keeps (vote_for c r voter cand).
Proof.
  unfold vote_for. apply within_on. intros s x H [Hi Hb]. split; [done|].
  unfold cast_vote in H. apply bind_Ok in H as (a & Ha & H).
  apply bind_Ok in H as (u1 & Hr%check_Ok & H). apply bind_Ok in H as (v & Hv & H).
  apply bind_Ok in H as (w & Hw & H). apply bind_Ok in H as (u2 & Hg%check_Ok & H).
  apply bind_Ok in H as (vt & Hvt & H). injection H as <-.
  apply Z.eqb_eq in Hr, Hg. subst r. apply check_member_Ok in Hv as [Hv Hvr], Hw as [Hw Hwr].
  apply Table.modify_Ok in Hvt as (v0 & v1 & Hv0 & [= <-] & _ & ->).
  rewrite Hv in Hv0. injection Hv0 as <-.
  unfold check_active in Ha. apply bind_Ok in Ha as (st & Hst%some_or_Ok & Ha).
  apply bind_Ok in Ha as (a' & Ha' & Ha). apply bind_Ok in Ha as (u3 & _ & [= ->]).
  destruct st; try done. injection Ha' as ->. unfold phase_of, votes_of in *. cbn. rewrite Hst in *.
  destruct Hb as (l & Hs & Hsh & Hvotes). exists l. split; [by apply seats_candidate|]. split; [done|].
  assert (forall k y, vote_tb (elections s) !! k = Some y -> exists y',
    <[voter := v <| candidate := cand |>]> (vote_tb (elections s)) !! k = Some y' /\
    round y' = round y /\ index y' = index y) as Hrow.
  { intros k y Hy. destruct (decide (voter = k)) as [<-|Hne].
    - rewrite lookup_insert_eq. rewrite Hv in Hy. injection Hy as <-. eauto.
    - rewrite lookup_insert_ne by done. eauto. }
  intros k y [[<- <-]|[_ Hy]]%lookup_insert_Some; cbn.
  - right. split; [done|]. destruct (Hrow _ _ Hw) as (w' & Hw' & Hr' & Hi').
    exists w'. rewrite Hr', Hi'. done.
  - destruct (Hvotes k y Hy) as [|(Hyr & z & Hz & Hzr & Hzg)]; [by left|right]. split; [done|].
    destruct (Hrow _ _ Hz) as (z' & Hz' & Hr' & Hi'). exists z'. by rewrite Hr', Hi'.
Qed.

(** ** Members who leave or move *)

Lemma not_running_idle msg s u s' : check_not_running c msg s = Ok (u, s') -> s' = s /\ idle (phase_of s).
Proof.
  unfold check_not_running. intros (b & s1 & [= <- <-] & [Hb ->]%checkM_Ok)%M_bind_Ok.
  split; [done|]. unfold is_election_running, phase_of in *. by destruct (state_sing (elections s)) as [[]|].
Qed.

Lemma put_results_stays r : within stays_vacant (put_results r).
Proof. apply within_on. intros s x [= <-] [Hi Hv]. split; [by split|done]. Qed.
Lemma remove_stays a : within stays_vacant (remove a).
Proof.
  intros s u s' H Hv. apply ContractMembers.remove_tracks in H as Hm. pose proof Hv as [Hi _].
  assert (within same_elections (remove a)) as He.
  { unfold remove, erase, remove_sessions. withins.
    all: first [by apply within_on | by apply within_on_with | by intros ? ? ? [= _ <-]]. }
  revert Hv. apply members_vacant; [by eapply He | by apply Hm].
Qed.
#[local] Hint Resolve put_results_stays remove_stays : within.

(** A computation that needs rest and keeps it. *)
Definition needs_rest {A} (m : M A) : Prop :=
  forall s a s', m s = Ok (a, s') -> idle (phase_of s) /\ stays_vacant s s'.
Lemma guarded_rests {A} msg (m : M A) :
  within stays_vacant m -> needs_rest (check_not_running c msg;; m).
Proof.
  intros Hw s a s' (u & s1 & [-> Hi]%not_running_idle & H)%M_bind_Ok. split; [done|]. by eapply Hw.
Qed.
Lemma needs_rest_keeps {A B D} (pre : M A) (m : A -> M B) (post : B -> M D) :
  within untouched pre -> (forall a, needs_rest (m a)) -> (forall b, within stays_vacant (post b)) ->
  within keeps (a ← pre; b ← m a; post b).
Proof.
  intros Hpre Hm Hpost s d s' (a & s1 & H1 & (b & s2 & H2 & H3)%M_bind_Ok)%M_bind_Ok Hg.
  apply Hpre, untouched_keeps in H1. specialize (H1 Hg). apply Hm in H2 as [Hi H2].
  apply resting_good. eapply resting_vacant; [by eapply Hpost|].
  eapply resting_vacant; [exact H2|]. by apply idle_resting.
Qed.

Lemma remove_from_board_stays m : within stays_vacant (remove_from_board c m).
Proof. unfold remove_from_board, set_board_permission. withins. Qed.
#[local] Hint Resolve remove_from_board_stays trigger_stays : within.
Lemma on_resign_rests a : needs_rest (ElectionOps.on_resign c a).
Proof. apply guarded_rests. withins. Qed.
Lemma on_rename_rests a b : needs_rest (ElectionOps.on_rename c a b).
Proof. apply guarded_rests. unfold set_board_permission. withins. Qed.

Lemma resign_keeps a : within keeps (Actions.resign c a).
Proof.
  unfold Actions.resign, Actions.require_auth, check_active_member.
  do 4 (apply (within_bind keeps); [apply untouched_within; solve [withins]|intros ?]).
  apply needs_rest_keeps; intros.
  - untouched_distribution.
  - apply on_resign_rests.
  - withins.
Qed.

Lemma rename_stays a b : within stays_vacant (MemberOps.rename a b).
Proof.
  unfold MemberOps.rename, remove_sessions. withins. apply stays_members. intros ms ms' H.
  by eapply Members.step_rename.
Qed.
#[local] Hint Resolve rename_stays : within.
Lemma rename_keeps a b : within keeps (Actions.rename c a b).
Proof.
  unfold Actions.rename, Actions.require_auth, Actions.require_permission, check_active_member.
  do 5 (apply (within_bind keeps); [apply untouched_within; first [solve [withins] | by apply within_on]|intros ?]).
  apply needs_rest_keeps; intros.
  - untouched_distribution.
  - apply on_rename_rests.
  - unfold on_inductions. withins.
Qed.

(** Clearing the tables leaves nothing seated, whatever was. *)
Lemma clearall_keeps : within keeps (Admin.clearall c).
Proof.
  intros s u s' H _. apply resting_good.
  unfold Admin.clearall, Actions.require_auth, on_inductions, MemberOps.clear_all, ElectionOps.clear_all in H.
  apply M_bind_Ok in H as (u1 & s1 & [_ ->]%lift_Ok & H).
  apply M_bind_Ok in H as (u2 & s1 & (g & s2 & [_ ->]%reads_Ok & [= _ <-])%M_bind_Ok & H).
  repeat (apply M_bind_Ok in H as (? & ? & (? & ?He & ->)%on_Ok & H)).
  apply on_Ok in H as (? & _ & ->).
  repeat match goal with H : Ok _ = Ok _ |- _ => injection H as <- end.
  by split.
Qed.

End phases.

End ElectionPhases.
