(* ===== verification/ElectionRun.v ===== *)
(** How an election runs: drawing and seating the voters, voting, counting,
    and the board ([elections::prepare_election], [elections::finish_round] of
    [contracts/eden/src/elections.cpp]), each leaving the vote table as the
    phase says unless [finishelect] cuts the election off ([ballots_are_seats]);
    a group that is counted is closed by its
    own consensus ([group_closes_by_consensus]).  At the end an election of
    twelve is run from genesis to its board. *)
From S2P Require Import Prelude Name Asset MultiIndex Crypto Host Globals Events Members ElectionConfig Rng ElectionState.
From S2P Require Import Nft Inductions VoteTable Tally State DistributionOps MemberOps ElectionOps Actions.
From S2P Require Import Governance Admin Contract Frame ContractMembers ElectionPhases.
From stdpp Require Import relations.
Open Scope list_scope.
Open Scope Z_scope.

Module ElectionRun.
Import Votes Config Seats ElectionOps MemberOps Actions Governance Admin Contract ElectionPhases.

Section phases.
Context (c : ctx).
#[local] Hint Resolve set_default_stays trigger_stays put_results_stays remove_stays : within.

(** ** Preparing the first round *)

Context (He : env_ok (env_of c)).

(** The voters so far, whatever phase the state still records. *)
Definition holds (phase : current_election_state) (s : state) : Prop :=
  Members.inv (members s) /\ ballot (Some phase) (votes_of s) (members s).

Lemma set_holds v s u s' : set_state_sing v s = Ok (u, s') -> holds v s -> good s'.
Proof. intros H [Hi Hb]. by eapply set_state_good. Qed.
Lemma holds_untouched v s s' : untouched s s' -> holds v s -> holds v s'.
Proof. intros [H1 H2] [Hi Hb]. unfold holds, votes_of. rewrite H1, H2. done. Qed.

(** A new voter takes a seat of the first round. *)
Lemma seat_voter (v v' : bool) st s k x vt rng idx lp rp ver :
  holds (init_phase v st) s -> Members.member_tb (members s) !! k = Some x ->
  Members.status x = Members.active_member ->
  add_voter (env_of c) (votes_of s) (init_rng st) 0 (next_member_idx st) k = Ok (vt, rng, idx) ->
  holds (init_phase v' (mk_init idx rng lp rp ver)) (s <| elections ::= fun e => e <| vote_tb := vt |> |>).
Proof using He.
  intros [Hi (l & Hs & Hn & Hv & Hl)] Hx Hst H. rewrite <- Hn in H.
  destruct (add_voter_rows _ _ _ 0 (Z.of_nat (length l)) k _ _ _ He (seats_index _ _ _ _ _ Hs)
    ltac:(pose proof (seats_bound _ _ _ _ _ Hs); lia) H)
    as (Hfresh & Hother & Hsame & _).
  assert (k ∉ l) as Hk by (intros [w Hw]%(seats_member Hs); congruence).
  assert (forall m, m ∈ l ++ [k] -> is_active (members s) m) as Hact.
  { intros m [Hm| ->%list_elem_of_singleton]%elem_of_app; [by apply Hl | by exists x]. }
  assert (NoDup (l ++ [k])) as Hnd.
  { apply NoDup_app. split; [by apply (seats_NoDup Hs)|]. split; [|apply NoDup_singleton].
    intros m Hm ->%list_elem_of_singleton. done. }
  pose proof (active_voters _ _ Hi Hnd Hact) as Hb. rewrite length_app in Hb. cbn [length] in Hb.
  destruct (add_voter_first _ He 0 l _ _ k _ _ _ Hs ltac:(lia) H) as (l1 & Hs1 & Hp & ->).
  split; [done|]. exists l1. split_and!; [exact Hs1 | done | | intros m; rewrite Hp; apply Hact].
  intros m w Hw. destruct (Z.eq_dec (round w) 0) as [H0|H0].
  - destruct (Hsame m w Hw H0) as [|(w0 & Hw0 & _ & <-)]; [done|]. by eapply Hv.
  - apply Hother in Hw; [|done]. by eapply Hv.
Qed.

Lemma randomize_holds v : forall n ks st s st' n' s',
  randomize_voters c ks st n s = Ok ((st', n'), s') ->
  holds (init_phase v st) s -> holds (init_phase v st') s'.
Proof using He.
  intros n ks. revert n. induction ks as [|k ks IH]; intros [|n] st s st' n' s' H Hh;
    cbn [randomize_voters] in H; try (by injection H as <- _ <-).
  apply M_bind_Ok in H as (x & s1 & [Hx%some_or_Ok ->]%reads_Ok & H).
  apply M_bind_Ok in H as (st1 & s1 & H1 & H). apply IH in H; [exact H|]. clear IH H.
  pose proof Hh as [Hi Hb]. pose proof (Members.inv_keyed _ Hi _ _ Hx) as Hk.
  destruct (Z.eqb_spec (Members.status x) Members.active_member) as [Ha|Ha];
    [destruct (Z.eqb_spec (Members.election_participation_status x) (init_version st)) as [Hp|Hp]|].
  - apply M_bind_Ok in H1 as ([rng idx] & s2 & H1 & [= <- <-]).
    apply on_with_Ok in H1 as (e & H1 & ->). apply bind_Ok in H1 as ([[vt rng1] idx1] & H1 & [= <- <- <-]).
    rewrite Hk in H1. eapply seat_voter; [exact Hh | exact Hx | exact Ha | exact H1].
  - apply M_bind_Ok in H1 as (u & s2 & (ms & Hms & ->)%on_Ok & [= <- <-]).
    destruct Hb as (l & Hs & Hn & Hv & Hl). split.
    + cbn. eapply Members.step_inv; [exact Hi|]. by eapply Members.step_set_rank.
    + exists l. split_and!; [done..|]. intros m Hm. cbn. by eapply set_rank_actives; [|apply Hl].
  - by injection H1 as <- <-.
Qed.

(** ** The end of an election *)

Lemma set_rank_stays m r b : within stays_vacant (ElectionOps.set_rank m r b).
Proof. apply stays_members. intros ms ms' H. by eapply Members.step_set_rank. Qed.
#[local] Hint Resolve set_rank_stays put_results_stays : within.

(** Once the board has left the table the next election is scheduled. *)
Lemma finish_election_rests board winner s u s' :
  finish_election c board winner s = Ok (u, s') -> vacant s -> resting s'.
Proof.
  unfold finish_election, set_board_permission, get_results. cbv zeta. intros H Hv.
  do 9 (apply M_bind_Ok in H as (? & ? & H1 & H);
    match type of H1 with ?m _ = _ =>
      let Hw := fresh in assert (within stays_vacant m) as Hw by withins; apply Hw in H1; clear Hw end;
    destruct (H1 Hv) as [Hv1 _]; clear H1; clear Hv; rename Hv1 into Hv).
  by eapply set_default_rests.
Qed.

Lemma take_board_vacant r lo l s board s' :
  take_board s = Ok (board, s') -> Members.inv (members s) -> seats r lo l [] (votes_of s) ->
  (0 < length l <= 11)%nat -> vacant s' /\ board = l.
Proof.
  unfold take_board. intros (x & Hx & ->)%on_with_Ok Hi Hs Hl.
  unfold votes_of in Hs. rewrite (extract_board_all _ _ _ _ Hs) in Hx; [|by intros ->; cbn in Hl; lia|lia].
  injection Hx as <- <-. split; [by split|done].
Qed.

Lemma report_groups_untouched cfg rnd start : forall n it next,
  within untouched (report_groups n cfg rnd start it next).
Proof. intros n. induction n as [|n IH]; intros [?|] next; cbn; withins. Qed.
#[local] Hint Resolve report_groups_untouched : within.

Lemma no_votes_in_groups cfg r vt : no_votes vt -> votes_in_groups cfg r vt.
Proof. intros H k v Hv. left. by eapply H. Qed.

(** After the announcement the first round is open, or the election over. *)
Lemma announce_holds v st n s res n' s' :
  announce_election c v st n s = Ok ((res, n'), s') -> holds (init_phase v st) s ->
  match res with Some phase => holds phase s' | None => good s' end.
Proof using He.
  unfold announce_election, get_results, MemberOps.global. intros H Hh.
  apply M_bind_Ok in H as (u1 & s1 & [Hpos%Z.ltb_lt ->]%checkM_Ok & H).
  apply M_bind_Ok in H as (r & s1 & [_ ->]%reads_Ok & H).
  apply M_bind_Ok in H as (configs & s1 & [Hc ->]%lift_Ok & H).
  apply M_bind_Ok in H as (cfg & s1 & [Hf%some_or_Ok ->]%lift_Ok & H).
  apply M_bind_Ok in H as (u2 & s1 & H1 & H).
  match type of H1 with ?m _ = _ => assert (within untouched m) as Hw by withins; apply Hw in H1; clear Hw end.
  apply M_bind_Ok in H as (it & s2 & [= _ <-] & H).
  apply M_bind_Ok in H as ([next steps] & s2 & H2 & H). apply report_groups_untouched in H2.
  assert (holds (init_phase v st) s2) as [Hi (l & Hs & Hn & Hv & Hl)].
  { eapply holds_untouched; [exact H2|]. by eapply holds_untouched. }
  pose proof (active_voters _ _ Hi (seats_NoDup Hs) Hl) as Hb.
  rewrite <- Hn in Hc. destruct (first_config _ (Z.of_nat (length l)) _ He ltac:(lia) Hc) as (cfg' & Hf' & Hshape).
  rewrite Hf in Hf'. injection Hf' as <-.
  destruct steps as [|k].
  { injection H as <- _ <-. split; [done|]. by exists l. }
  apply M_bind_Ok in H as (g & s3 & [_ ->]%reads_Ok & H).
  apply M_bind_Ok in H as (u3 & s3 & H3%untouched_event & H).
  assert (votes_of s3 = votes_of s2 /\ members s3 = members s2) as [Hvt Hms].
  { destruct H3 as [He3 Hm3]. unfold votes_of. by rewrite He3, Hm3. }
  rewrite <- Hvt in Hs, Hv. rewrite <- Hms in Hi, Hl.
  destruct (Nat.eqb (length configs) 1).
  - apply M_bind_Ok in H as (board & s4 & H4 & H).
    eapply take_board_vacant in H4 as [Hvac _]; [|done|exact Hs|lia].
    apply M_bind_Ok in H as (w & s5 & [_ ->]%lift_Ok & H).
    apply M_bind_Ok in H as (u4 & s5 & H5 & H). injection H as <- _ <-.
    apply resting_good. by eapply finish_election_rests.
  - injection H as <- _ <-. split; [done|]. exists l. cbn. split; [done|]. split.
    + apply Hshape; [lia|]. rewrite Z.pow_0_r. lia.
    + by apply no_votes_in_groups.
Qed.

Lemma save_good phase n s u s' : save (Some phase, n) s = Ok (u, s') -> holds phase s -> good s'.
Proof.
  unfold save. cbn [fst snd]. intros (u1 & s1 & H & [= _ <-])%M_bind_Ok Hh. by eapply set_holds.
Qed.

Lemma prepare_voters_good v st n s u s' :
  prepare_voters c v st n s = Ok (u, s') -> good s -> holds (init_phase v st) s -> good s'.
Proof using He.
  unfold prepare_voters. intros H Hg Hh.
  apply M_bind_Ok in H as (k & s1 & H1 & H).
  assert (untouched s s1) as Hu1.
  { assert (within untouched (DistributionOps.distribute_monthly c n)) as Hw by untouched_distribution.
    by eapply Hw. }
  destruct k as [|k]; [injection H as _ <-; by eapply untouched_keeps|].
  apply (holds_untouched _ _ _ Hu1) in Hh.
  apply M_bind_Ok in H as (ks & s2 & [= _ <-] & H).
  apply M_bind_Ok in H as ([st1 n1] & s2 & H2 & H). apply (randomize_holds v) in H2; [|done].
  destruct n1 as [|n1]; [by eapply save_good|].
  apply M_bind_Ok in H as ([res n2] & s3 & H3 & H). apply announce_holds in H3; [|done].
  destruct res; [by eapply save_good|].
  unfold save in H. by injection H as _ <-.
Qed.

Definition in_phase (s s' : state) : Prop := keeps s s' /\ phase_of s' = phase_of s.
#[local] Instance in_phase_preorder : PreOrder in_phase.
Proof.
  split; [by split|]. intros s1 s2 s3 [H12 Hp12] [H23 Hp23]. split; [by etransitivity | congruence].
Qed.
Lemma untouched_in_phase {A} (m : M A) : within untouched m -> within in_phase m.
Proof.
  intros Hw s a s' H%Hw. split; [by apply untouched_keeps|]. unfold phase_of. by destruct H as [-> _].
Qed.

(** The election starts with nobody seated. *)
Lemma start_holds s u s' :
  start_election c s = Ok (u, s') -> good s ->
  good s' /\ exists v i, phase_of s' = Some (init_phase v i).
Proof.
  unfold start_election, put_results. intros (old & s1 & [Hold%some_or_Ok ->]%reads_Ok & H)%M_bind_Ok [Hi Hb].
  destruct old as [| |v sd| | | |]; try done.
  unfold phase_of in Hb. rewrite Hold in Hb.
  apply M_bind_Ok in H as (u1 & s1 & [_ ->]%checkM_Ok & H).
  apply M_bind_Ok in H as (u2 & s1 & H1 & H).
  pose proof (set_state_Ok _ _ _ _ H1) as (_ & _ & Hp).
  assert (good s1) as Hg1.
  { eapply set_state_good; [exact H1|done|]. rewrite Hb. exists []. split_and!; [by apply seats_empty|done| |].
    - intros k w Hw. by rewrite lookup_empty in Hw.
    - intros m Hm. by apply not_elem_of_nil in Hm. }
  assert (exists v i, phase_of s1 = Some (init_phase v i)) as Hinit.
  { destruct Hp as [-> | (o & -> & Ho)]; [eauto|]. destruct o as [| [] | [] | [] | | |]; cbn in Ho; eauto;
      by apply bool_decide_eq_true in Ho. }
  clear H1 Hp.
  assert (in_phase s1 s') as [Hk ->]; [|split; [by apply Hk | done]].
  match type of H with ?m _ = _ => assert (within in_phase m) as Hw end; [|by eapply Hw].
  withins; try (apply untouched_in_phase; first [untouched_part | untouched_distribution]).
  - apply within_on. intros t x [= <-]. split; [|done]. intros [Hti Htb]. by split.
  - intros t x t' Ht. split; [by eapply keeps_members; [constructor | exact Ht]|].
    by apply on_Ok in Ht as (ms & _ & ->).
Qed.

Lemma good_holds v s : good s -> phase_of s = Some v -> holds v s.
Proof. intros [Hi Hb] Hp. rewrite Hp in Hb. by split. Qed.

Lemma prepare_keeps n : within keeps (prepare_election c n).
Proof using He.
  intros s k s' H Hg. unfold prepare_election in H.
  apply M_bind_Ok in H as (st & s1 & [Hst%some_or_Ok ->]%reads_Ok & H).
  pose proof (good_holds st s Hg Hst) as Hh.
  destruct st as [| |v sd|v i| | |], n as [|n]; try (by eapply save_good);
    try (by eapply prepare_voters_good); [by injection H as _ <-|].
  apply M_bind_Ok in H as (u1 & s1 & H1 & H). apply start_holds in H1 as (Hg1 & v1 & i & Hp); [|done].
  apply M_bind_Ok in H as (st & s2 & [Hst1%some_or_Ok ->]%reads_Ok & H).
  unfold phase_of in Hp. rewrite Hp in Hst1. injection Hst1 as <-.
  eapply prepare_voters_good; [exact H | done | by apply good_holds].
Qed.

(** ** Counting *)

(** The iterator stands at the first group that is not closed. *)
Definition counts (p : post_round) (it : option (Z * Z)) (s : state) : Prop :=
  Members.inv (members s) /\ exists l l' g, counting p (votes_of s) l l' g /\
    at_seat (prev_round p) (next_input_index p) l (votes_of s) it.

(** The votes for a group that is left are not touched when another is taken
    out. *)
Lemma votes_without cfg r (grp : list Z) vt vt' :
  votes_in_groups cfg r vt ->
  (forall k, vt' !! k = if decide (k ∈ grp) then None else vt !! k) ->
  (forall k j v w, k ∈ grp -> vt !! k = Some v -> vt' !! j = Some w -> round w = r ->
     member_index_to_group cfg (index v) <> member_index_to_group cfg (index w)) ->
  votes_in_groups cfg r vt'.
Proof using.
  intros Hv Hlk Hg k v Hk. pose proof Hk as Hk'. rewrite Hlk in Hk'. destruct (decide (k ∈ grp)); [done|].
  destruct (Hv k v Hk') as [|(Hr & w & Hw & Hwr & Hwg)]; [by left|right]. split; [done|].
  exists w. rewrite Hlk. destruct (decide (candidate v ∈ grp)) as [Hc|Hc]; [|done].
  exfalso. by apply (Hg (candidate v) k w v).
Qed.

(** Seating a winner in the next round adds no vote. *)
Lemma votes_add cfg r vt vt' e rng next m rng' idx :
  env_ok e -> votes_in_groups cfg r vt ->
  (forall k v, vt !! k = Some v -> 0 <= index v < 2 ^ 16) -> 0 <= next < 2 ^ 16 ->
  add_voter e vt rng (r + 1) next m = Ok (vt', rng', idx) ->
  (forall k v, vt' !! k = Some v -> round v = r \/ round v = r + 1) -> votes_in_groups cfg r vt'.
Proof using.
  intros Hok Hv Hix Hn H Hr. destruct (add_voter_rows _ _ _ _ _ _ _ _ _ Hok Hix Hn H) as (_ & Hother & Hsame & _).
  intros k v Hk. destruct (Hr k v Hk) as [Hvr|Hvr].
  - apply Hother in Hk; [|lia]. destruct (Hv k v Hk) as [|(_ & w & Hw & Hwr & Hwg)]; [by left|right].
    split; [done|]. exists w. split; [|done]. apply Hother; [lia|done].
  - destruct (Hsame k v Hk Hvr) as [|(v0 & Hv0 & Hr0 & <-)]; [by left|].
    destruct (Hv k v0 Hv0) as [|[? _]]; [by left|lia].
Qed.

(** Taking the first open group out of the table. *)
Lemma group_taken p vt l l' g it gs :
  counting p vt l l' g -> l <> [] -> at_seat (prev_round p) (next_input_index p) l vt it ->
  gs = group_size_at (prev_config p) (next_input_index p) ->
  let p' := p <| next_input_index ::= fun i => wrap 16 (i + gs) |> in
  exists vt' it' rows grp rest,
    l = grp ++ rest /\ member <$> rows = grp /\ Forall (fun v => vt !! member v = Some v) rows /\
    Z.of_nat (length grp) = gs /\ 4 <= gs <= 6 /\
    finish_group vt it (wrap 8 gs) =
      Ok (vt', it', (group_winner (default 0 (head grp)) gs (Tally.count_all gs rows), Tally.count_all gs rows)) /\
    g + 1 <= num_groups (prev_config p) /\
    (forall k, vt' !! k = if decide (k ∈ grp) then None else vt !! k) /\
    counting p' vt' rest l' (g + 1) /\ at_seat (prev_round p) (next_input_index p') rest vt' it'.
Proof using.
  intros [Hs Hsh [Hg Hin] Hopen [Hout Hwin] Hvotes] Hne Hit Hgs p'.
  pose proof (shape_wf _ _ _ Hsh) as Hwf.
  pose proof (firsts _ _ _ g Hsh ltac:(lia)) as (_ & Hlast & Hfg & Hstep).
  assert (g < num_groups (prev_config p)) as Hlt.
  { destruct (Z.eq_dec g (num_groups (prev_config p))) as [->|]; [|lia].
    destruct l; [done|]. cbn [length] in Hopen. lia. }
  destruct (Hstep Hlt) as [Hsize Hnext]. rewrite Hin, (group_size_first _ _ Hwf) in Hgs by lia.
  pose proof (shape_bounds _ _ _ Hsh) as (_ & Hn & _).
  pose proof (take_drop (Z.to_nat gs) l) as Hsplit.
  set (grp := take (Z.to_nat gs) l) in *. set (rest := drop (Z.to_nat gs) l) in *.
  assert (Z.of_nat (length grp) = gs) as Hlen by (unfold grp; rewrite length_take; lia).
  rewrite <- Hsplit in Hs, Hit.
  destruct (take_group_seats (prev_round p) l' gs grp _ rest vt it empty_tally Hs Hit)
    as (vt' & it' & rows & Ht & Hrows & Hin_rows & Hlk & Hs' & Hit').
  assert (next_input_index p' = next_input_index p + Z.of_nat (length grp)) as Hin'.
  { unfold p'. cbn. rewrite Hlen. apply wrap_small. lia. }
  exists vt', it', rows, grp, rest. split_and!; try done; try lia.
  - destruct grp as [|m grp'] eqn:Eg; [cbn in Hlen; lia|]. cbn [app at_seat] in Hit. subst it.
    destruct (proj1 (seats_this _ _ _ _ _ Hs 0%nat m) eq_refl) as (v & Hv & _).
    unfold finish_group. cbn [some_or mbind result_bind snd]. rewrite Hv. cbn [some_or mbind result_bind].
    rewrite (wrap_small 8 gs) by lia. rewrite <- Hlen at 1. rewrite Nat2Z.id, Ht. cbn [mbind result_bind].
    by rewrite (seats_keyed _ _ _ _ _ Hs _ _ Hv).
  - split; change (prev_round p') with (prev_round p); change (prev_config p') with (prev_config p);
      change (next_output_index p') with (next_output_index p); rewrite ?Hin'.
    + exact Hs'.
    + exact Hsh.
    + split; [lia|]. lia.
    + rewrite <- Hsplit, length_app in Hopen. lia.
    + split; [done|lia].
    + eapply (votes_without _ _ grp); [exact Hvotes | exact Hlk |].
      intros k j v w [i Hi]%list_elem_of_lookup Hv Hw Hwr.
      pose proof (lookup_lt_Some _ _ _ Hi).
      destruct (proj1 (seats_this _ _ _ _ _ Hs i k) (lookup_app_l_Some _ _ _ _ Hi)) as (v' & Hv' & _ & Hvi).
      rewrite Hv in Hv'. injection Hv' as <-.
      destruct (seats_row Hs' _ _ Hw) as [(_ & i' & Hi' & Hwi)|[? _]]; [|lia].
      apply lookup_lt_Some in Hi'. rewrite <- Hsplit, length_app in Hopen.
      destruct (groups_partition_indices _ Hwf) as (_ & _ & _ & Hpart).
      assert (member_index_to_group (prev_config p) (index v) = g) as ->.
      { apply Hpart; lia. }
      intros Heq. symmetry in Heq. apply Hpart in Heq; lia.
  - by rewrite Hin'.
Qed.

(** The iterator survives a newcomer of the next round. *)
Lemma at_seat_add r lo l vt vt' it :
  (forall k v, vt !! k = Some v -> exists v', vt' !! k = Some v' /\ round v' = round v) ->
  at_seat r lo l vt it -> at_seat r lo l vt' it.
Proof using.
  intros Hr. destruct l; [|done]. intros H e Hit. destruct (H e Hit) as (v & Hv & Hvr).
  destruct (Hr _ _ Hv) as (v' & Hv' & Hr'). exists v'. split; [done|congruence].
Qed.

(** Seating the winner of a closed group. *)
Lemma winner_seated p vt l l' g it m vt' rng idx :
  counting p vt l l' g -> at_seat (prev_round p) (next_input_index p) l vt it ->
  Z.of_nat (length l') < g ->
  add_voter (env_of c) vt (post_rng p) (wrap 8 (prev_round p + 1)) (next_output_index p) m = Ok (vt', rng, idx) ->
  exists l1, counting (p <| post_rng := rng |> <| next_output_index := idx |>) vt' l l1 g /\
    at_seat (prev_round p) (next_input_index p) l vt' it.
Proof using He.
  intros [Hs Hsh [Hg Hin] Hopen [Hout Hwin] Hvotes] Hit Hlt H.
  pose proof (shape_bounds _ _ _ Hsh) as (Hgs & Hn & Hr7). pose proof (shape_round _ _ _ Hsh).
  pose proof (shape_groups _ _ _ Hsh). pose proof (seats_bound _ _ _ _ _ Hs) as (_ & _ & Hb).
  rewrite (wrap_small 8) in H by lia. rewrite Hout in H.
  destruct (add_voter_next _ He _ _ _ _ _ _ m _ _ _ Hs ltac:(lia) H) as (l1 & Hs1 & Hp & ->).
  destruct (add_voter_rows _ _ _ _ (Z.of_nat (length l')) _ _ _ _ He (seats_index _ _ _ _ _ Hs) ltac:(lia) H) as (_ & _ & _ & Hrow).
  exists l1. split; [|by eapply at_seat_add].
  split; try done; cbn.
  - rewrite (Permutation_length Hp), length_app. cbn. lia.
  - eapply votes_add; [exact He | exact Hvotes | apply Hs | | exact H | apply Hs1]. lia.
Qed.

Definition same_round (p p' : post_round) : Prop :=
  prev_round p' = prev_round p /\ prev_config p' = prev_config p.

(** Ranks do not move anybody. *)
Definition only_members (s s' : state) : Prop :=
  same_elections s s' /\ ContractMembers.follows s s'.
#[local] Instance only_members_preorder : PreOrder only_members.
Proof.
  split; [by split|]. intros s1 s2 s3 [H12 F12] [H23 F23]. split; [by etransitivity | by etransitivity].
Qed.
Lemma set_rank_only m r b : within only_members (ElectionOps.set_rank m r b).
Proof using.
  apply within_on. intros s x Hx. split; [done|].
  apply ContractMembers.follows_step. intros _. by eapply Members.step_set_rank.
Qed.
#[local] Hint Resolve set_rank_only : within.
Lemma set_ranks_counts p it l w rnd s u s' :
  foldM (fun _ v => when (negb (v =? w)) (ElectionOps.set_rank v rnd w)) l tt s = Ok (u, s') ->
  counts p it s -> counts p it s'.
Proof using.
  intros H [Hi Hc].
  match type of H with ?m _ = _ => assert (within only_members m) as Hw by withins end.
  destruct (Hw _ _ _ H) as [Hse Hf]. unfold same_elections in Hse.
  split; [by eapply ContractMembers.steps_inv; [apply Hf|]|]. unfold votes_of. by rewrite Hse.
Qed.

Lemma close_group_counts start data it entry first s data' it' s' :
  close_group c start data it first s = Ok ((data', it'), s') ->
  it = Some entry -> votes_of s !! entry.2 = Some first -> round first = prev_round data ->
  counts data it s -> counts data' it' s' /\ same_round data data'.
Proof using He.
  unfold close_group. cbv zeta. intros H Hit Hf Hr [Hi (l & l' & g & Hc & Hat)].
  assert (l <> []) as Hne.
  { intros ->. destruct (Hat entry Hit) as (v & Hv & Hvr). rewrite Hf in Hv. injection Hv as <-. lia. }
  destruct (group_taken _ _ _ _ _ _ _ Hc Hne Hat eq_refl)
    as (vt' & it1 & rows & grp & rest & -> & Hrows & Hin & Hlen & Hgs & Hfin & Hg & _ & Hc' & Hat').
  set (gs := group_size_at (prev_config data) (next_input_index data)) in *.
  apply M_bind_Ok in H as (u1 & s1 & (en & _ & ->)%on_Ok & H).
  apply M_bind_Ok in H as ([it2 [w t]] & s1 & H1 & H).
  apply on_with_Ok in H1 as (e1 & H1 & ->). cbn in H1. unfold votes_of in Hfin. rewrite Hfin in H1.
  injection H1 as <- <- <- <-.
  apply M_bind_Ok in H as (u2 & s1 & [= _ <-] & H).
  apply M_bind_Ok in H as (data1 & s2 & H2 & H).
  apply M_bind_Ok in H as (u3 & s3 & H3 & [= <- <- <-]).
  pose proof (count_winners _ _ _ _ _ Hc) as [_ Hwin].
  assert (counts (data1 <| next_input_index ::= fun i => wrap 16 (i + gs) |>) it1 s2 /\
    same_round data data1) as [Hcount Hsame]; [|split; [by eapply set_ranks_counts | done]].
  clear H3. destruct (is_account_name _).
  - apply M_bind_Ok in H2 as ([rng idx] & s4 & (e2 & H2 & ->)%on_with_Ok & [= <- <-]).
    apply bind_Ok in H2 as ([[vt2 rng2] idx2] & H2 & [= <- <- <-]).
    destruct (winner_seated _ vt' rest l' (g + 1) it1 _ _ _ _ Hc' Hat' ltac:(lia) H2) as (l1 & Hc2 & Hat2).
    split; [|done]. split; [done|]. exists rest, l1, (g + 1). done.
  - injection H2 as <- <-. split; [|done]. split; [done|]. exists rest, l', (g + 1). done.
Qed.

(** With steps left every group is closed. *)
Lemma close_groups_counts start : forall n data it s data' n' s',
  close_groups c n start data it s = Ok ((data', n'), s') -> counts data it s ->
  exists it', counts data' it' s' /\ same_round data data' /\
    (n' <> 0%nat -> forall l l' g, counting data' (votes_of s') l l' g -> l = []).
Proof using He.
  intros n. induction n as [|n IH]; intros data it s data' n' s' H Hc; cbn [close_groups] in H.
  - injection H as <- <- <-. exists it. split_and!; done.
  - destruct it as [entry|].
    + apply M_bind_Ok in H as (row & s1 & [Hrow%some_or_Ok ->]%reads_Ok & H).
      destruct (Z.eqb_spec (round row) (prev_round data)) as [Hr|Hr].
      * apply M_bind_Ok in H as ([data1 it1] & s1 & H1 & H).
        eapply close_group_counts in H1 as [Hc1 [Hp1 Hq1]]; [|done|done|done|done].
        apply IH in H as (it' & Hc' & [Hp Hq] & Hn); [|done]. exists it'. split; [done|].
        split; [|done]. split; congruence.
      * injection H as <- <- <-. exists (Some entry). split_and!; [done|done|].
        intros _ l l' g Hcount. destruct Hc as [_ (l1 & l1' & g1 & Hc & Hat)].
        destruct l1 as [|m l1].
        { pose proof (count_open _ _ _ _ _ Hc). pose proof (count_open _ _ _ _ _ Hcount).
          cbn [length] in *. destruct l; [done|cbn [length] in *; lia]. }
        exfalso. cbn in Hat. injection Hat as ->. cbn in Hrow.
        destruct (proj1 (seats_this _ _ _ _ _ (count_seats _ _ _ _ _ Hc) 0%nat m) eq_refl) as (v & Hv & Hvr & _).
        unfold votes_of in Hv. rewrite Hrow in Hv. injection Hv as <-. done.
    + injection H as <- <- <-. exists None. split_and!; [done|done|].
      intros _ l l' g Hcount. destruct Hc as [_ (l1 & l1' & g1 & Hc & Hat)].
      destruct l1 as [|m l1]; [|done].
      pose proof (count_open _ _ _ _ _ Hc). pose proof (count_open _ _ _ _ _ Hcount).
      cbn [length] in *. destruct l; [done|cbn [length] in *; lia].
Qed.

Lemma counting_report p vt l l' g i :
  counting p vt l l' g -> counting (p <| next_report_index := i |>) vt l l' g.
Proof using. intros []. by split. Qed.

(** The winners' round: its votes are still to come. *)
Lemma winners_no_votes p vt l' g : counting p vt [] l' g -> no_votes vt.
Proof using.
  intros [Hs _ _ _ _ Hv] k v Hk. destruct (Hv k v Hk) as [|(Hr & _)]; [done|].
  destruct (seats_row Hs _ _ Hk) as [(_ & i & Hi & _)|[? _]]; [by rewrite lookup_nil in Hi | lia].
Qed.

Lemma next_round_holds start data config n s phase n' s' it :
  next_round c start data config n s = Ok ((phase, n'), s') -> counts data it s ->
  (n <> 0%nat -> forall l l' g, counting data (votes_of s) l l' g -> l = []) ->
  make_election_config (Host.log_floor (env_of c)) (next_output_index data) = Ok config ->
  holds phase s'.
Proof using He.
  unfold next_round. cbv zeta. intros H [Hi (l & l' & g & Hc & Hat)] Hall Hcfg.
  destruct n as [|n]; [injection H as <- _ <-; split; [done|]; by exists l, l', g|].
  specialize (Hall ltac:(done) _ _ _ Hc). subst l.
  apply M_bind_Ok in H as (cfg & s1 & [Hf%some_or_Ok ->]%lift_Ok & H).
  apply M_bind_Ok in H as (u2 & s1 & H1 & H).
  match type of H1 with ?m _ = _ => assert (within untouched m) as Hw by withins; apply Hw in H1; clear Hw end.
  apply M_bind_Ok in H as (it1 & s2 & [= _ <-] & H).
  apply M_bind_Ok in H as ([next steps] & s2 & H2 & H). apply report_groups_untouched in H2.
  assert (votes_of s2 = votes_of s /\ members s2 = members s) as [Hv2 Hm2].
  { destruct H1 as [He1 Hm1], H2 as [He2 Hm2]. unfold votes_of. split; congruence. }
  destruct steps as [|k].
  { injection H as <- _ <-. split; [by rewrite Hm2|]. rewrite Hv2. exists [], l', g. by apply counting_report. }
  apply M_bind_Ok in H as (gl & s3 & [_ ->]%reads_Ok & H).
  apply M_bind_Ok in H as (u3 & s3 & H3%untouched_event & H). injection H as <- _ <-.
  assert (votes_of s3 = votes_of s /\ members s3 = members s) as [Hv3 Hm3].
  { destruct H3 as [He3 Hm3]. unfold votes_of in *. split; congruence. }
  split; [by rewrite Hm3|]. rewrite Hv3.
  pose proof (winners_no_votes _ _ _ _ Hc) as Hnv.
  destruct Hc as [Hs Hsh [Hg Hin] Hopen [Hout Hwin] Hvotes]. apply seats_shift in Hs.
  pose proof (shape_bounds _ _ _ Hsh) as (_ & Hn & Hr7). pose proof (shape_groups _ _ _ Hsh).
  pose proof (shape_round _ _ _ Hsh). pose proof (shape_shrinks _ _ _ Hsh) as Hshr.
  rewrite Hout in Hcfg. destruct l' as [|w l']; [by injection Hcfg as <-|]. 
  set (ws := w :: l') in *. assert (0 < length ws)%nat as Hpos by (cbn; lia).
  destruct (first_config _ (Z.of_nat (length ws)) _ He ltac:(lia) Hcfg) as (cfg' & Hf' & Hshape).
  rewrite Hf in Hf'. injection Hf' as <-. destruct (Nat.eqb (length config) 1).
  - exists (prev_round data + 1), ws. split_and!; [exact Hs | lia | lia | exact Hnv].
  - rewrite (wrap_small 8) by lia. exists ws. cbn. split; [exact Hs|]. split; [|by apply no_votes_in_groups].
    apply Hshape; [lia|]. rewrite Z.pow_add_r by lia. change (4 ^ 1) with 4.
    pose proof (Z.pow_pos_nonneg 4 (prev_round data) ltac:(lia) ltac:(lia)). nia.
Qed.

Lemma finish_post_good start data n s u s' :
  finish_post c start data n s = Ok (u, s') -> holds (post_phase data) s -> good s'.
Proof using He.
  unfold finish_post. intros H [Hi (l & l' & g & Hc)].
  apply M_bind_Ok in H as (it & s1 & [= <- <-] & H).
  apply M_bind_Ok in H as ([data1 n1] & s1 & H1 & H).
  apply close_groups_counts in H1 as (it1 & Hc1 & _ & Hall).
  2:{ split; [done|]. exists l, l', g. split; [done|]. apply (lower_bound_seat (count_seats _ _ _ _ _ Hc)). }
  apply M_bind_Ok in H as (config & s2 & [Hcfg ->]%lift_Ok & H).
  apply M_bind_Ok in H as ([phase n2] & s2 & H2 & H).
  eapply next_round_holds in H2; [|exact Hc1|done|done].
  apply M_bind_Ok in H as (u1 & s3 & H3 & [= _ <-]). by eapply set_holds.
Qed.

Lemma finish_round_keeps n : within keeps (finish_round c n).
Proof using He.
  intros s k s' H Hg. unfold finish_round, state_exists in H.
  apply M_bind_Ok in H as (ex & s1 & [= <- <-] & H).
  destruct (bool_decide _); [|by injection H as _ <-].
  apply M_bind_Ok in H as (st & s1 & [Hst%some_or_Ok ->]%reads_Ok & H).
  apply M_bind_Ok in H as (r & s1 & [_ ->]%reads_Ok & H).
  pose proof (good_holds st s Hg Hst) as Hh.
  destruct st as [| | | |a|p|sd]; try (by injection H as _ <-).
  - destruct (_ <? _); [by injection H as _ <-|].
    apply M_bind_Ok in H as (u1 & s1 & H1%untouched_event & H). apply (holds_untouched _ _ _ H1) in Hh.
    eapply finish_post_good; [exact H|]. destruct Hh as [Hi (l & Hs & Hsh & Hv)]. split; [done|].
    pose proof (shape_participants _ _ _ Hsh) as Hp. pose proof (shape_bounds _ _ _ Hsh) as (Hg1 & _).
    destruct (firsts _ _ _ 0 Hsh ltac:(lia)) as (H0 & _).
    exists l, [], 0. split; cbn; try done; try lia.
    by rewrite Hp.
  - by eapply finish_post_good.
  - unfold finish_final in H. destruct n as [|n]; [by injection H as _ <-|].
    destruct (_ <=? _); [|by injection H as _ <-].
    apply M_bind_Ok in H as (board & s1 & H1 & H). destruct Hh as [Hi (r1 & l & Hs & Hl & Hv)].
    eapply take_board_vacant in H1 as [Hvac _]; [|done|exact Hs|lia].
    destruct (Rng.uniform _ _ _) as [i rng].
    apply M_bind_Ok in H as (w & s2 & [_ ->]%lift_Ok & H).
    apply M_bind_Ok in H as (u1 & s2 & H2 & [= _ <-]).
    apply resting_good. by eapply finish_election_rests.
Qed.

#[local] Instance keeps_frame : Frame.Frame keeps c.
Proof using He.
  split; intros; [apply keeps_base | apply set_time_keeps | apply set_next_keeps | apply maybe_trigger_keeps
    | apply seed_keeps | apply vote_keeps | apply prepare_keeps | apply finish_round_keeps | apply resign_keeps].
Qed.
#[local] Instance keeps_loose : Frame.Loose keeps.
Proof using. split; intros; apply untouched_within; untouched_part. Qed.
#[local] Instance keeps_loose_frame : Frame.LooseFrame keeps c.
Proof using He. split; intros; [apply _ | apply _ | apply rename_keeps | apply clearall_keeps]. Qed.

End phases.

(** ** The contract *)

(** [finishelect] schedules the next election in any phase and leaves the votes
    where they are (see [cut_election_sticks]): a call that succeeds while
    voters are seated cuts an election off. *)
Definition cuts_off (c : ctx) (a : action) (s : state) : Prop :=
  Frame.cuts_election a = true /\ is_ok (apply c a (begin s)) = true /\ votes_of s <> ∅.
#[local] Instance cuts_off_dec c a s : Decision (cuts_off c a s).
Proof. unfold cuts_off. apply _. Defined.

(** The states the contract reaches when no election is cut off. *)
Inductive uncut (self : Z) : state -> Prop :=
  | uncut_start : uncut self empty_state
  | uncut_step s c a : uncut self s -> Host.self (host_of c) = self -> env_ok (env_of c) ->
      ~ cuts_off c a s -> uncut self (transact c a s).

Lemma finishelect_rests c t s u s' :
  finishelect c t s = Ok (u, s') -> vacant s -> resting s'.
Proof.
  unfold finishelect, Actions.require_auth, installed, MemberOps.global, finish_curr_election.
  intros (u1 & s1 & [_ ->]%lift_Ok & H)%M_bind_Ok Hv.
  apply M_bind_Ok in H as (u2 & s1 & (g & s2 & [_ ->]%reads_Ok & [= _ <-])%M_bind_Ok & H).
  eapply set_state_rests; [|exact H|exact Hv]. done.
Qed.

Lemma finishelect_cuts c t s u s' :
  finishelect c t s = Ok (u, s') -> idle (phase_of s') /\ votes_of s' = votes_of s.
Proof.
  unfold finishelect, Actions.require_auth, installed, MemberOps.global, finish_curr_election.
  intros (u1 & s1 & [_ ->]%lift_Ok & H)%M_bind_Ok.
  apply M_bind_Ok in H as (u2 & s1 & (g & s2 & [_ ->]%reads_Ok & [= _ <-])%M_bind_Ok & H).
  by eapply set_state_idle; [|exact H].
Qed.

Lemma step_good c a s :
  env_ok (env_of c) -> good s -> ~ cuts_off c a s -> good (transact c a s).
Proof.
  intros He Hs Hcut. unfold transact. unfold cuts_off in Hcut.
  assert (good (begin s)) as Hb by (destruct Hs; by split).
  destruct (apply c a (begin s)) as [[[] s']|] eqn:E; [|done].
  destruct (Frame.cuts_election a) eqn:Ec.
  - destruct a; try done. apply resting_good. eapply finishelect_rests; [exact E|].
    split; [apply Hb|]. destruct (decide (votes_of s = ∅)) as [|Hn]; [done|]. by destruct Hcut.
  - pose proof (keeps_loose_frame c He). by eapply (Frame.action_frame keeps c a Ec).
Qed.

Lemma uncut_good self s : uncut self s -> good s.
Proof.
  induction 1 as [|s c a H IH Hc He Hcut]; [by split; [|split]|]. by apply step_good.
Qed.

(** Cutting an election off leaves voters seated between elections. *)
Lemma cut_off_seated c a s :
  cuts_off c a s -> idle (phase_of (transact c a s)) /\ votes_of (transact c a s) <> ∅.
Proof.
  intros (Hc & Hok & Hv). destruct a; try done. unfold transact.
  destruct (apply _ _ _) as [[u s']|] eqn:E; [|done].
  apply finishelect_cuts in E as [Hi Hs]. split; [done|]. by rewrite Hs.
Qed.

(** C14: as long as no election is cut off, whatever other actions come in
    whatever order, and however the work of a phase is cut into steps, the vote
    table holds what the phase says.  Between elections nobody is seated.
    While voters are drawn they are distinct active members on the seats 0 to
    n-1 of round 0.  While a round votes, its participants sit on consecutive
    seats, the round divides them into groups of four to six, there are at most
    10000 / 4^r of them in round r, and every vote is for a member of the
    voter's own group.  While a round is counted the groups that are left sit
    where they voted, and at most one voter for each closed group has a seat of
    the next round.  At the end one to eleven are left.  And cutting an election
    off - [finishelect] with the authority of the contract while voters are
    seated - is exactly what breaks this: the next action keeps it if and only
    if it does not do so. *)
Theorem ballots_are_seats (self : Z) (s : state) :
  uncut self s ->
  ballot (phase_of s) (votes_of s) (members s) /\
  forall c a, env_ok (env_of c) ->
    let s' := transact c a s in
    ballot (phase_of s') (votes_of s') (members s') <-> ~ cuts_off c a s.
Proof.
  intros H%uncut_good. split; [apply H|]. intros c a He s'. split.
  - intros Hb [Hi Hv]%cut_off_seated. apply Hv. by eapply idle_vacant.
  - intros Hc. by apply step_good.
Qed.

(** The first open group is the rows of one group number. *)
Lemma open_group_rows p vt l l' g grp rest rows m v vt' gs :
  counting p vt l l' g -> l = grp ++ rest -> member <$> rows = grp ->
  Forall (fun x => vt !! member x = Some x) rows -> Z.of_nat (length grp) = gs -> 4 <= gs ->
  counting (p <| next_input_index ::= fun i => wrap 16 (i + gs) |>) vt' rest l' (g + 1) ->
  head l = Some m -> vt !! m = Some v ->
  forall x, x ∈ rows <-> exists k, vt !! k = Some x /\ round x = prev_round p /\
    member_index_to_group (prev_config p) (index x) = member_index_to_group (prev_config p) (index v).
Proof.
  intros [Hs Hsh [Hg Hin] Hopen _ _] -> Hrows Hvt Hlen Hgs [_ _ [Hg' Hin'] Hopen' _ _] Hm Hv.
  set (p' := p <| next_input_index ::= _ |>) in *. change (prev_config p') with (prev_config p) in *.
  change (next_input_index p') with (wrap 16 (next_input_index p + gs)) in *. rewrite length_app in Hopen.
  pose proof (shape_bounds _ _ _ Hsh) as (_ & Hn & _). pose proof (shape_wf _ _ _ Hsh) as Hwf.
  pose proof (firsts _ _ _ g Hsh ltac:(lia)) as (_ & _ & Hf & _).
  destruct (groups_partition_indices _ Hwf) as (_ & _ & _ & Hpart).
  assert (group_to_first_member_index (prev_config p) (g + 1) = next_input_index p + gs) as Hnext.
  { rewrite <- Hin'. apply wrap_small. lia. }
  assert (forall i k x, (grp ++ rest) !! i = Some k -> vt !! k = Some x ->
    round x = prev_round p /\ index x = next_input_index p + Z.of_nat i) as Hseat.
  { intros i k x Hi Hx. destruct (proj1 (seats_this _ _ _ _ _ Hs i k) Hi) as (y & Hy & Hyr & Hyi).
    rewrite Hx in Hy. injection Hy as <-. done. }
  assert (member_index_to_group (prev_config p) (index v) = g) as ->.
  { destruct (Hseat 0%nat m v) as [_ ->]; [by destruct (grp ++ rest) | done |]. apply Hpart; lia. }
  intros x. split.
  - intros Hx. rewrite Forall_forall in Hvt. pose proof (Hvt x Hx) as Hxv.
    apply (list_elem_of_fmap_2 member) in Hx. rewrite Hrows in Hx. apply list_elem_of_lookup in Hx as [i Hi].
    pose proof (lookup_lt_Some _ _ _ Hi). exists (member x).
    destruct (Hseat i (member x) x) as [Hr Hx]; [by apply lookup_app_l_Some | done |].
    split_and!; [done | done |]. rewrite Hx. apply Hpart; lia.
  - intros (k & Hk & Hr & Hgx). destruct (seats_row Hs _ _ Hk) as [(_ & i & Hi & Hx)|[? _]]; [|lia].
    pose proof (lookup_lt_Some _ _ _ Hi) as Hlt. rewrite length_app in Hlt. apply Hpart in Hgx; [|lia|lia].
    rewrite lookup_app_l in Hi by lia. apply list_elem_of_lookup_2 in Hi. rewrite <- Hrows in Hi.
    apply list_elem_of_fmap in Hi as (y & -> & Hy). rewrite Forall_forall in Hvt. by rewrite (Hvt y Hy) in Hk; injection Hk as ->.
Qed.

(** C16: while a round is counted, and no election has been cut off by
    [finishelect] with voters seated, the first group that is left is closed,
    not stuck: [finish_group] at the iterator the code has there returns, takes
    exactly the rows of that group out of the table, and elects the member on
    whom the group has consensus - a member of the group, by the group's
    votes - or nobody. *)
Theorem group_closes_by_consensus (self : Z) (s : state) (p : post_round) (it : Z * Z) (v : vote) :
  uncut self s -> phase_of s = Some (post_phase p) ->
  Table.index_lower_bound by_index (votes_of s) (group_key (prev_round p) (next_input_index p)) = Some it ->
  votes_of s !! it.2 = Some v -> round v = prev_round p ->
  let group x := member_index_to_group (prev_config p) (index x) in
  exists rows vt' it' w t,
    finish_group (votes_of s) (Some it) (wrap 8 (group_size_at (prev_config p) (next_input_index p)))
      = Ok (vt', it', (w, t)) /\
    (4 <= length rows <= 6)%nat /\
    (forall x, x ∈ rows <-> exists k, votes_of s !! k = Some x /\ round x = prev_round p /\ group x = group v) /\
    (forall k, vt' !! k = if decide (k ∈ member <$> rows) then None else votes_of s !! k) /\
    (forall x, x ∈ rows -> candidate x = 0 \/ candidate x ∈ member <$> rows) /\
    (forall cand, Tally.consensus cand rows -> w = cand) /\
    ((forall cand, ~ Tally.consensus cand rows) -> w = no_winner (member v)).
Proof.
  intros H%uncut_good Hp Hit Hv Hr group. destruct H as [_ Hb]. rewrite Hp in Hb.
  destruct Hb as (l & l' & g & Hc). pose proof (lower_bound_seat (count_seats _ _ _ _ _ Hc)) as Hat.
  rewrite Hit in Hat. destruct l as [|m l].
  { destruct (Hat it eq_refl) as (y & Hy & Hyr). rewrite Hv in Hy. injection Hy as <-. lia. }
  pose proof Hat as Hat0. cbn [at_seat] in Hat0. injection Hat0 as ->. cbn [snd] in Hv.
  destruct (group_taken _ _ _ _ _ _ _ Hc ltac:(done) Hat eq_refl)
    as (vt' & it' & rows & grp & rest & Hl & Hrows & Hin & Hlen & Hgs & Hfin & Hg & Hlk & Hc' & Hat').
  set (gs := group_size_at _ _) in *.
  assert (length rows = length grp) as Hlr by (by rewrite <- Hrows, length_fmap).
  pose proof (open_group_rows _ _ _ _ _ _ _ _ m v _ _ Hc Hl Hrows Hin Hlen ltac:(lia) Hc' eq_refl Hv) as Hiff.
  pose proof (seats_keyed _ _ _ _ _ (count_seats _ _ _ _ _ Hc)) as Hkeyed.
  assert (NoDup (member <$> rows)) as Hnd.
  { pose proof (seats_NoDup (count_seats _ _ _ _ _ Hc)) as Hnd. rewrite Hl in Hnd.
    apply NoDup_app in Hnd as [Hnd _]. by rewrite Hrows. }
  assert (default 0 (head grp) = member v) as Hfirst.
  { destruct grp as [|m' grp]; [cbn in Hlen; lia|]. injection Hl as <- _. cbn. symmetry. by apply Hkeyed. }
  pose proof (Tally.group_winner_spec (member v) rows Hnd ltac:(lia)) as [Hwin Hno].
  rewrite Hlr, Hlen in Hwin, Hno. rewrite Hfirst in Hfin.
  exists rows, vt', it'. do 2 eexists. split; [exact Hfin|]. rewrite Hrows.
  split_and!; try done; try lia.
  - intros x Hx%Hiff. destruct Hx as (k & Hk & Hxr & Hxg).
    destruct (count_votes _ _ _ _ _ Hc k x Hk) as [|(_ & y & Hy & Hyr & Hyg)]; [by left|right].
    rewrite <- (Hkeyed _ _ Hy), <- Hrows. apply (list_elem_of_fmap_2 member), Hiff. exists (candidate x).
    split_and!; [done | done | by rewrite Hyg].
Qed.

(** ** An election from genesis to its board *)

Definition demo_self : Z := Name.n "eden.gm".
Definition demo_at (secs : Z) : ctx :=
  mk_ctx (Host.mk demo_self (fun _ => true) (fun _ _ => true) (fun _ => true) (secs * 1000000))
    Host.demo_env (Nft.Nft.mk_tables ∅ (fun _ => 0) (fun _ => None) (fun _ => None) ∅ ∅).
Definition demo_run (l : list (Z * action)) (s : state) : state :=
  foldl (fun s step => transact (demo_at step.1) step.2 s) s l.
(** The failures of a run. *)
Fixpoint demo_errors (l : list (Z * action)) (s : state) : list error :=
  match l with
  | [] => []
  | (t, a) :: l' =>
      match apply (demo_at t) a (begin s) with
      | Ok (_, s') => demo_errors l' s'
      | Err e => e :: demo_errors l' s
      end
  end.

Lemma demo_runs l s :
  uncut demo_self s -> forallb (fun step => negb (Frame.cuts_election step.2)) l = true ->
  uncut demo_self (demo_run l s).
Proof.
  revert s. induction l as [|[t a] l IH]; intros s Hs Hl; [exact Hs|]. cbn in Hl.
  apply andb_true_iff in Hl as [Ha Hl]. apply IH; [|exact Hl].
  apply uncut_step; [exact Hs | done | exact Host.demo_env_ok |]. intros [Hc _]. cbn in Hc. by rewrite Hc in Ha.
Qed.

Definition demo_eos : Z :=
  Eval vm_compute in Symbol.make (match Symbol.code_of_string "EOS" with Ok v => v | Err _ => 0 end) 4.
Definition demo_fee : asset := Asset.Asset.mk 100000 demo_eos.
Definition demo_members : list Z :=
  Name.n <$> ["alice"; "bob"; "carol"; "dave"; "erin"; "frank"; "grace"; "heidi"; "ivan"; "judy"; "mallory"; "niaj"]%string.
Definition demo_start : Z := 1700000000.
Definition demo_join (i m : Z) : list (Z * action) :=
  (fun a => (demo_start, a)) <$>
  [n_transfer m demo_self demo_fee "";
   a_verb (v_inductprofil i (Inductions.mk_profile "Name" "Qm" "bio" "" ""));
   a_inductdonate m i demo_fee; a_inducted m; a_verb (v_electopt m true)].
(** Twelve founding members join and register; then the seed comes in. *)
Definition demo_founding : list (Z * action) :=
  (demo_start, a_genesis "Eden" demo_eos demo_fee demo_members "video" [] demo_fee 604800 6 "15:30")
  :: concat (imap (fun i m => demo_join (Z.of_nat i + 1) m) demo_members).
Definition demo_election : Z := 1700321400.
Definition demo_header : list Z :=
  repeat 0 68 ++ Crypto.le_bytes 4 (demo_election - 3600) ++ repeat 0 8.
Definition demo_opening : list (Z * action) :=
  demo_founding ++ [(demo_election - 3600, a_electseed demo_header);
                    (demo_election, a_electprocess 5); (demo_election, a_electprocess 30)].
Definition demo_voting : state := Eval vm_compute in demo_run demo_opening empty_state.

Definition seat_of (s : state) (i : nat) : Z :=
  default 0 (Table.index_find by_index (votes_of s) (Z.of_nat i)).
(** Everyone votes for the first of the group; two of three groups are
    counted. *)
Definition demo_ballots : list (Z * action) :=
  (fun i => (demo_election + 10, a_verb (v_electvote 0 (seat_of demo_voting i) (seat_of demo_voting (i / 4 * 4)%nat))))
    <$> seq 0 12.
Definition demo_counting_steps : list (Z * action) :=
  demo_ballots ++ [(demo_election + 3700, a_electprocess 2)].
Definition demo_counting : state := Eval vm_compute in demo_run demo_counting_steps demo_voting.
Definition demo_finish : list (Z * action) :=
  [(demo_election + 3700, a_electprocess 20); (demo_election + 5500, a_electprocess 3)].

(** No action of the run fails, and the winners of the three groups are the
    board. *)
Example election_runs :
  demo_errors (demo_opening ++ demo_counting_steps ++ demo_finish) empty_state = [] /\
  board <$> election_state (elections (demo_run demo_finish demo_counting)) =
    Some [seat_of demo_voting 0; seat_of demo_voting 4; seat_of demo_voting 8] /\
  votes_of (demo_run demo_finish demo_counting) = ∅.
Proof. vm_compute. done. Qed.

(** [finishelect] in the middle of the count: the four who have not been
    counted and the two winners stay seated, so none of them can be seated in
    another election, and it never gets past drawing its voters. *)
Definition demo_cut : state := Eval vm_compute in
  transact (demo_at (demo_election + 3800)) (a_finishelect (demo_election + 200000)) demo_counting.
Definition demo_second : list (Z * action) :=
  ((fun m => (demo_election + 4000, a_verb (v_electopt m true))) <$> demo_members) ++
  [(demo_election + 190000, a_electseed (repeat 0 68 ++ Crypto.le_bytes 4 (demo_election + 190000) ++ repeat 0 8))].
Definition demo_third : state := Eval vm_compute in demo_run demo_second demo_cut.
Lemma seated_refused e vt rng r next m :
  is_Some (vt !! m) -> exists err, add_voter e vt rng r next m = Err err.
Proof.
  intros Hm. destruct (add_voter e vt rng r next m) as [[[vt' rng'] idx]|err] eqn:H; [exfalso|by eauto].
  unfold add_voter in H. destruct (Rng.uniform e next rng) as [pos rng1].
  apply bind_Ok in H as (vt1 & H1 & H). apply bind_Ok in H as (vt2 & [Hn _]%Table.emplace_Ok & _).
  cbn [member] in Hn. destruct Hm as [v Hv].
  destruct (negb _); [|injection H1 as <-; congruence].
  apply bind_Ok in H1 as (old & _ & H1).
  apply Table.modify_Ok in H1 as (v' & v1 & _ & _ & _ & ->).
  apply lookup_insert_None in Hn as [Hn _]. congruence.
Qed.
Example cut_election_sticks :
  size (votes_of demo_cut) = 6%nat /\ idle (phase_of demo_cut) /\
  demo_errors [(demo_election + 200000, a_electprocess 30)] demo_third =
    [Trap "db_store_i64: duplicate primary key"].
Proof. vm_compute. done. Qed.

Lemma demo_voting_uncut : uncut demo_self demo_voting.
Proof.
  assert (demo_voting = demo_run demo_opening empty_state) as -> by (vm_compute; reflexivity).
  apply demo_runs; [apply uncut_start | vm_compute; reflexivity].
Qed.
Lemma demo_counting_runs : uncut demo_self demo_counting.
Proof.
  assert (demo_counting = demo_run (demo_opening ++ demo_counting_steps) empty_state) as ->
    by (vm_compute; reflexivity).
  apply demo_runs; [apply uncut_start | vm_compute; reflexivity].
Qed.
Lemma ballots_are_seats_witness :
  (exists a, phase_of demo_voting = Some (active_phase a) /\ num_participants (config a) = 12) /\
  ballot (phase_of demo_voting) (votes_of demo_voting) (members demo_voting) /\
  ~ ballot (phase_of demo_cut) (votes_of demo_cut) (members demo_cut).
Proof.
  split; [eexists; split; vm_compute; reflexivity|].
  split; [apply (ballots_are_seats demo_self), demo_voting_uncut|].
  destruct (ballots_are_seats demo_self demo_counting demo_counting_runs) as [_ H].
  specialize (H (demo_at (demo_election + 3800)) (a_finishelect (demo_election + 200000)) Host.demo_env_ok).
  cbn zeta in H. intros Hb. refine (proj1 H _ _); [exact Hb|].
  split; [done|]. split; [vm_compute; reflexivity|]. vm_compute. discriminate.
Defined.

Definition demo_post : post_round := Eval vm_compute in
  match phase_of demo_counting with
  | Some (post_phase p) => p
  | _ => mk_post (Rng.init 0) 0 (mk 0 0) 0 0 0
  end.
Definition demo_third_group : Z * Z := Eval vm_compute in
  default (0, 0) (Table.index_lower_bound by_index (votes_of demo_counting)
                    (group_key (prev_round demo_post) (next_input_index demo_post))).
Definition demo_first_seat : vote := Eval vm_compute in
  default (mk_vote 0 0 0 0) (votes_of demo_counting !! demo_third_group.2).

Lemma group_closes_by_consensus_witness :
  next_input_index demo_post = 8 /\
  exists rows vt' it' w t,
    finish_group (votes_of demo_counting) (Some demo_third_group)
      (wrap 8 (group_size_at (prev_config demo_post) (next_input_index demo_post))) = Ok (vt', it', (w, t)) /\
    (4 <= length rows <= 6)%nat /\ (forall cand, Tally.consensus cand rows -> w = cand).
Proof.
  split; [reflexivity|].
  destruct (group_closes_by_consensus demo_self demo_counting demo_post demo_third_group demo_first_seat)
    as (rows & vt' & it' & w & t & H1 & H2 & _ & _ & _ & H3 & _).
  - apply demo_counting_runs.
  - vm_compute. reflexivity.
  - vm_compute. reflexivity.
  - vm_compute. reflexivity.
  - vm_compute. reflexivity.
  - exists rows, vt', it', w, t. split; [exact H1|]. split; [exact H2 | exact H3].
Defined.

End ElectionRun.
