(* ===== verification/Authority.v ===== *)
(** Who may do what: the authority every action asks for, and that a key of a
    session acts for the account it is registered with, for no other, and once
    for each sequence number. *)
From S2P Require Import Prelude Name Asset Crypto Host Globals Events Inductions Sessions State.
From S2P Require Import DistributionOps MemberOps ElectionOps Actions Governance Admin Contract Frame.
Open Scope list_scope.
Open Scope Z_scope.

Module Authority.
Import Contract Actions Governance Admin MemberOps.
Import (hints) Frame.

Section authority.
Context (c : ctx).
Abbreviation self := (Host.self (host_of c)).
Abbreviation has_auth := (Host.has_auth (host_of c)).

(** The account a verb speaks for. *)
Definition acts_as (v : verb) (s : state) : option Z :=
  match v with
  | v_inductmeetin a _ _ _ _ | v_inductvideo a _ _ | v_inductendors a _ _ | v_electmeeting a _ _ _ _
  | v_inductcancel a _ => Some a
  | v_inductprofil i _ => Inductions.invitee <$> Inductions.induction_tb (inductions s) !! i
  | v_electopt voter _ | v_electvote _ voter _ | v_electvideo _ voter _ => Some voter
  | v_inductinit _ inviter _ _ => Some inviter
  | v_delsession _ _ | v_other _ => None
  end.

(** The accounts that must have authorized an action, and the permission. *)
Definition authority (a : action) (s : state) : list Z :=
  match a with
  | a_withdraw o _ | a_donate o _ | a_fundtransfer o _ _ _ _ _ | a_usertransfer o _ _ _
  | a_inductdonate o _ _ | a_setencpubkey o _ | a_bylawspropose o _ | a_bylawsapprove o _
  | a_bylawsratify o _ | a_resign o => [o]
  | a_rename _ new => [new]
  | a_genesis _ _ _ _ _ _ _ _ _ _ | a_addtogenesis _ _ | a_gensetexpire _ _ | a_clearall
  | a_electsettime _ | a_electconfig _ _ _ | a_finishelect _ | a_changerank _ _ | a_clearrank _ _
  | a_inducted _ | a_unmigrate => [self]
  | a_verb v => option_list (acts_as v s)
  | a_electseed _ | a_electprocess _ | a_distribute _ | a_gc _ | a_migrate _
  | n_transfer _ _ _ _ | n_lognewtempl _ _ _ _ _ | n_logmint _ _ _ _ _ _ => []
  end.

Lemma auth_required a s u s' : require_auth c a s = Ok (u, s') -> has_auth a = true /\ s' = s.
Proof. unfold require_auth. intros [H ->]%lift_Ok. by apply Host.require_auth_Ok in H. Qed.

Lemma session_auth_Ok session a s u s' :
  session_auth c session a s = Ok (u, s') ->
  (match session with Some b => a = b | None => has_auth a = true end) /\ s' = s.
Proof.
  unfold session_auth. destruct session as [b|]; [|apply auth_required].
  intros [H ->]%checkM_Ok. split; [by apply Z.eqb_eq|done].
Qed.

(** The first computation of a sequence succeeded. *)
Lemma first_Ok {A B} (m : M A) (f : A -> M B) s b s' :
  (m ≫= f) s = Ok (b, s') -> exists a s1, m s = Ok (a, s1) /\ f a s1 = Ok (b, s').
Proof. apply M_bind_Ok. Qed.

Lemma installed_sessions s u s' : installed s = Ok (u, s') -> s' = s.
Proof. unfold installed, global. by intros (g & s1 & [_ ->]%reads_Ok & [= _ ->])%M_bind_Ok. Qed.

Lemma verb_authority session v s u s' :
  session_dispatch c session v s = Ok (u, s') ->
  exists a, acts_as v s = Some a /\
    match session with Some b => a = b | None => has_auth a = true end.
Proof.
  intros H. destruct v; cbn [session_dispatch acts_as] in *; try (by apply abort_Ok in H);
    try (apply first_Ok in H as (u1 & s1 & [H1 _]%session_auth_Ok & _); by eauto).
  unfold inductprofil, installed, global, get_induction in H.
  apply first_Ok in H as (u1 & s1 & H1 & H).
  apply first_Ok in H1 as (g & s2 & [_ ->]%reads_Ok & [= _ ->]).
  apply first_Ok in H as (ind & s2 & [Hind ->]%reads_Ok & H).
  unfold Inductions.get_induction, MultiIndex.Table.get in Hind. apply some_or_Ok in Hind as ->.
  apply first_Ok in H as (u2 & s2 & [H2 _]%session_auth_Ok & _). eauto.
Qed.

End authority.

(** C10: nobody acts for another account.  An action succeeds only if the
    accounts it speaks for authorized the transaction: the owner of the money,
    the member, the voter, the proposer, or the contract's own account for what
    only the community may do; only a board majority changes a name; the
    actions without an author are those anybody may trigger. *)
Theorem action_authority (c : ctx) (a : action) (s s' : state) :
  apply c a s = Ok (tt, s') ->
  Forall (fun o => Host.has_auth (host_of c) o = true) (authority c a s) /\
  match a with
  | a_rename _ _ =>
      Host.has_permission (host_of c) (Host.self (host_of c)) (Name.n "board.major") = true
  | _ => True
  end.
Proof.
  intros H. destruct a; cbn [apply authority] in *; try done;
    try (split; [|done]; apply first_Ok in H as (u1 & s1 & [H1 _]%auth_required & _);
         by repeat constructor).
  - split; [|done]. unfold fundtransfer, check_transfer in H.
    apply first_Ok in H as (u1 & s1 & H1 & _). apply first_Ok in H1 as (u2 & s2 & _ & H1).
    apply first_Ok in H1 as (u3 & s3 & _ & H1).
    apply first_Ok in H1 as (u4 & s4 & [H4 _]%auth_required & _). by repeat constructor.
  - split; [|done]. unfold usertransfer, check_transfer in H.
    apply first_Ok in H as (u1 & s1 & H1 & _). apply first_Ok in H1 as (u2 & s2 & _ & H1).
    apply first_Ok in H1 as (u3 & s3 & _ & H1).
    apply first_Ok in H1 as (u4 & s4 & [H4 _]%auth_required & _). by repeat constructor.
  - split; [|done]. apply verb_authority in H as (a & -> & Ha). by repeat constructor.
  - unfold Actions.rename in H. apply first_Ok in H as (u1 & s1 & [H1 ->]%auth_required & H).
    apply first_Ok in H as (u2 & s2 & H2 & _). unfold require_permission in H2.
    apply lift_Ok in H2 as [H2%Host.require_permission_Ok _]. split; [by repeat constructor|done].
Qed.

(** A donation by alice, who signed. *)
Definition demo_self : Z := Name.n "eden.gm".
Definition demo_host : host :=
  Host.mk demo_self (fun a => a =? Name.n "alice") (fun _ _ => false) (fun _ => true) 1700000000000000.
Definition demo_ctx : ctx :=
  mk_ctx demo_host Host.demo_env (Nft.Nft.mk_tables ∅ (fun _ => 0) (fun _ => None) (fun _ => None) ∅ ∅).
Definition demo_globals : Globals.global_data_v1 :=
  Globals.mk_v1 (Globals.mk_v0 "Eden" (Asset.Asset.mk 10 0) (Asset.Asset.mk 10 0) 604800 Globals.active) 0 3600.
Definition demo_state : state :=
  empty_state <| globals := Some (Globals.v1 demo_globals) |>
    <| users := {[ Name.n "alice" := Accounts.Accounts.mk (Name.n "alice") (Asset.Asset.mk 50 0) ]} |>.
Definition demo_action : action := a_withdraw (Name.n "alice") (Asset.Asset.mk 20 0).

Lemma action_authority_witness :
  exists s', apply demo_ctx demo_action demo_state = Ok (tt, s') /\
    Forall (fun o => Host.has_auth demo_host o = true) [Name.n "alice"].
Proof.
  eexists. split; [vm_compute; reflexivity|].
  eapply (action_authority demo_ctx demo_action demo_state). vm_compute. reflexivity.
Defined.

(** ** Sessions *)

(** The verbs run one after the other, each speaking for the account. *)
Inductive acts (c : ctx) (a : Z) : list verb -> state -> state -> Prop :=
  | acts_nil s : acts c a [] s s
  | acts_cons v vs s s1 s' : acts_as v s = Some a ->
      session_dispatch c (Some a) v s = Ok (tt, s1) -> acts c a vs s1 s' -> acts c a (v :: vs) s s'.

Lemma verbs_act c a vs s s' :
  foldM (fun _ v => session_dispatch c (Some a) v) vs tt s = Ok (tt, s') -> acts c a vs s s'.
Proof.
  revert s. induction vs as [|v vs IH]; intros s H; cbn in H.
  - injection H as <-. constructor.
  - apply first_Ok in H as ([] & s1 & H1 & H). destruct (verb_authority _ _ _ _ _ _ H1) as (b & Hb & ->).
    econstructor; [exact Hb | exact H1 | by apply IH].
Qed.

(** A key of a session that has not expired. *)
Definition registered (now : Z) (s : state) (a : Z) (k : public_key) : Prop :=
  exists sc ss, sessions s !! a = Some sc /\ ss ∈ Sessions.sessions sc /\
    Sessions.key ss = k /\ now < Sessions.expiration ss.

Lemma use_session_registered text now tb a k q tb' evs :
  Sessions.use_session text now tb a k q = Ok (tb', evs) ->
  exists sc ss, tb !! a = Some sc /\ ss ∈ Sessions.sessions sc /\ Sessions.key ss = k /\
    now < Sessions.expiration ss.
Proof.
  intros H. unfold Sessions.use_session in H. apply bind_Ok in H as (sc & Hsc%some_or_Ok & H).
  cbn in H. apply bind_Ok in H as ([i ss] & Hf%some_or_Ok & _).
  unfold Sessions.find_session in Hf. apply list_find_Some in Hf as (Hi & Hk & _).
  exists sc, ss. apply list_elem_of_lookup_2 in Hi. cbn in Hi.
  apply list_elem_of_filter in Hi as [Hn Hin]. unfold Sessions.expired in Hn.
  split; [done|]. split; [done|]. split; [done|lia].
Qed.

(** *** Sequence numbers over the life of the contract *)

(** The actions of the contract end sessions and change nothing else of them. *)
Definition sessions_kept (s s' : state) : Prop := Sessions.kept (sessions s) (sessions s').
#[local] Instance sessions_kept_preorder : PreOrder sessions_kept.
Proof.
  split; unfold sessions_kept; [intros s; reflexivity|]. intros s1 s2 s3 H12 H23. by etransitivity.
Qed.
Lemma sessions_same s s' : sessions s' = sessions s -> sessions_kept s s'.
Proof. unfold sessions_kept. intros ->. reflexivity. Qed.
Lemma on_sessions {S} (part : state -> S) `{!Setter part} f :
  (forall s x, sessions (s <| part := x |>) = sessions s) -> within sessions_kept (on part f).
Proof. intros H. apply within_on. intros s x _. apply sessions_same, H. Qed.
Lemma on_with_sessions {S A} (part : state -> S) `{!Setter part} (f : S -> result (S * A)) :
  (forall s x, sessions (s <| part := x |>) = sessions s) -> within sessions_kept (on_with part f).
Proof. intros H. apply within_on_with. intros s x a _. apply sessions_same, H. Qed.
Lemma events_sessions l : within sessions_kept (push_events l).
Proof. intros s a s' [= _ <-]. by apply sessions_same. Qed.
Lemma event_sessions ev : within sessions_kept (push_event ev).
Proof. intros s a s' [= _ <-]. by apply sessions_same. Qed.
Lemma send_sessions a : within sessions_kept (send a).
Proof. intros s x s' [= _ <-]. by apply sessions_same. Qed.
Lemma send_all_sessions l : within sessions_kept (send_all l).
Proof. intros s x s' [= _ <-]. by apply sessions_same. Qed.
Lemma gc_sessions_kept now n : within sessions_kept (on_with sessions (fun tb =>
  '(tb, evs, k) ← Sessions.gc_sessions now tb n; Ok (tb, (evs, k)))).
Proof.
  apply within_on_with. intros s x a ([[tb evs] k] & H%Sessions.gc_kept & [= <- _])%bind_Ok. exact H.
Qed.
Lemma remove_sessions_kept a : within sessions_kept (on_with sessions (fun tb => Sessions.remove_sessions tb a)).
Proof. apply within_on_with. intros s x evs H%Sessions.remove_kept. exact H. Qed.
Lemma clear_sessions_kept : within sessions_kept (on sessions (fun tb => Ok (Sessions.clearall_sessions tb))).
Proof. apply within_on. intros s x [= <-]. apply Sessions.clear_kept. Qed.
#[local] Hint Resolve events_sessions event_sessions send_sessions send_all_sessions gc_sessions_kept
  remove_sessions_kept clear_sessions_kept : within.
#[local] Hint Extern 2 (within sessions_kept (on _ _)) => (apply on_sessions; by intros) : within.
#[local] Hint Extern 2 (within sessions_kept (on_with _ _)) => (apply on_with_sessions; by intros) : within.

#[local] Instance kept_loose : Frame.Loose sessions_kept.
Proof. split; intros; eauto with within. Qed.
#[local] Instance kept_base : Frame.Base sessions_kept.
Proof.
  split; intros; try solve [eauto with within].
  - unfold remove_if_pending, remove_sessions. withins.
  - apply (Frame.setup_loose sessions_kept); eauto with within.
  - apply (Frame.monthly_loose sessions_kept); eauto with within.
  - apply (Frame.election_end_loose sessions_kept); eauto with within.
  - apply (Frame.dist_resign_loose sessions_kept); eauto with within.
  - apply (Frame.dist_rename_loose sessions_kept); eauto with within.
Qed.
#[local] Instance kept_parts : Frame.Parts sessions_kept.
Proof.
  split; intros; try solve [eauto with within | apply _].
  unfold remove, erase, remove_sessions. withins.
Qed.

(** Everything that may happen to the contract.  The functions for sessions are
    commented out of the list of its actions ([eden.hpp]); here they may be
    called all the same. *)
Inductive call : Type :=
  | call_action (a : action)
  | call_run (auth : run_auth) (signed : list Z) (verbs : list verb)
  | call_newsession (a : Z) (key : public_key) (expiration : Z) (description : string)
  | call_delsession (a : Z) (key : public_key).
Definition perform (c : ctx) (x : call) : M unit :=
  match x with
  | call_action a => apply c a
  | call_run auth signed verbs => run c auth signed verbs
  | call_newsession a key exp desc => newsession c a key exp desc
  | call_delsession a key => delsession c None a key
  end.
Definition happens (c : ctx) (x : call) (s : state) : state :=
  match perform c x (begin s) with Ok (_, s') => s' | Err _ => s end.
Inductive lives : state -> Prop :=
  | lives_start : lives empty_state
  | lives_step s c x : lives s -> lives (happens c x s).
Definition registers (a : Z) (k : public_key) (x : call) : Prop :=
  match x with call_newsession b k' _ _ => b = a /\ k' = k | _ => False end.

Lemma run_sessions c auth signed verbs s s' :
  run c auth signed verbs s = Ok (tt, s') ->
  exists s1, sessions_kept s1 s' /\
    match auth with
    | signature_auth sig _ b q => exists evs,
        Sessions.use_session (Host.key_text (env_of c))
          (Host.current_block_time (host_of c)) (sessions s) b
          (Host.recover_key (env_of c) (Host.sha256 (env_of c) signed) sig) q = Ok (sessions s1, evs)
    | _ => sessions s1 = sessions s
    end.
Proof.
  intros H. unfold run in H. apply first_Ok in H as (a & s1 & Ha & H).
  exists s1. split.
  { revert H. assert (forall l, within sessions_kept (foldM (fun _ v => session_dispatch c (Some a) v) l tt)) as Hf.
    { intros l. apply (within_foldM sessions_kept). intros x v. refine (Frame.verb_frame sessions_kept c (Some a) v). }
    intros H. apply first_Ok in H as (u & s2 & [_ ->]%checkM_Ok & H). by apply Hf in H. }
  destruct auth as [|k b o|sig k b q]; cbn [authorize_run] in Ha.
  - by injection Ha as _ <-.
  - apply first_Ok in Ha as (u1 & s3 & [_ ->]%checkM_Ok & Ha).
    apply first_Ok in Ha as (u2 & s3 & [_ ->]%checkM_Ok & Ha).
    apply first_Ok in Ha as (u3 & s3 & [_ ->]%auth_required & Ha). by injection Ha as _ <-.
  - apply first_Ok in Ha as (u1 & s3 & [_ ->]%checkM_Ok & Ha).
    apply first_Ok in Ha as (evs & s3 & H2 & Ha). apply on_with_Ok in H2 as (tb & H2 & ->).
    apply first_Ok in Ha as (u2 & s4 & [= _ <-] & [= _ <-]). by exists evs.
Qed.

(** What a call does to the sessions: they stay orderly, and a number that was
    accepted stays so while the key is not registered anew. *)
Lemma happens_sessions c x s :
  Sessions.orderly (sessions s) -> Sessions.orderly (sessions (happens c x s)) /\
  forall a k q, ~ registers a k x -> Sessions.spent a k q (sessions s) ->
    Sessions.spent a k q (sessions (happens c x s)).
Proof.
  unfold happens. intros Ho. destruct (perform c x (begin s)) as [[[] s']|] eqn:H; [|done].
  change (sessions s) with (sessions (begin s)) in *. destruct x as [a|auth signed verbs|a k exp desc|a k];
    cbn [perform] in H.
  - apply (Frame.every_action_frame sessions_kept) in H; [|apply _]. split; [by eapply Sessions.kept_orderly|].
    intros b k q _. by eapply Sessions.kept_spent.
  - apply run_sessions in H as (s1 & Hk & H1).
    assert (Sessions.orderly (sessions s1) /\ forall b k q, Sessions.spent b k q (sessions (begin s)) ->
      Sessions.spent b k q (sessions s1)) as [Ho1 Hs1].
    { destruct auth as [|?|sig k b q]; [by rewrite H1|by rewrite H1|]. destruct H1 as [evs H1]. split.
      - by apply Sessions.use_session_orderly in H1 as [H1 _].
      - intros b0 k0 q0. by eapply Sessions.use_session_spent. }
    split; [by eapply Sessions.kept_orderly|]. intros b k q _ Hs%Hs1. by eapply Sessions.kept_spent.
  - unfold newsession in H. apply first_Ok in H as (u1 & s1 & [_ ->]%auth_required & H).
    do 4 (apply first_Ok in H as (? & ? & [_ ->]%checkM_Ok & H)).
    apply first_Ok in H as (? & ? & ->%installed_sessions & H).
    apply first_Ok in H as (? & ? & [_ ->]%reads_Ok & H).
    apply first_Ok in H as (evs & s1 & H1 & [= <-]). apply on_with_Ok in H1 as (tb & H1 & ->). cbn.
    split; [by eapply Sessions.new_session_orderly|]. intros b k0 q Hn Hs. by eapply Sessions.new_session_spent.
  - unfold delsession in H. apply first_Ok in H as (u1 & s1 & [_ ->]%session_auth_Ok & H).
    apply first_Ok in H as (evs & s1 & H1 & [= <-]). apply on_with_Ok in H1 as (tb & H1 & ->).
    apply Sessions.del_kept in H1. cbn in *. split; [by eapply Sessions.kept_orderly|].
    intros b k0 q _. by eapply Sessions.kept_spent.
Qed.

Lemma lives_orderly s : lives s -> Sessions.orderly (sessions s).
Proof. induction 1 as [|s c x H IH]; [apply Sessions.orderly_empty | by apply happens_sessions]. Qed.

(** After a number is accepted from a key, whatever happens but registering
    the key again, it is refused. *)
Lemma replay_refused later a k q s :
  Sessions.orderly (sessions s) -> Sessions.spent a k q (sessions s) ->
  Forall (fun st : ctx * call => ~ registers a k st.2) later ->
  forall c sig self signed verbs,
    Host.recover_key (env_of c) (Host.sha256 (env_of c) signed) sig = k ->
    is_ok (run c (signature_auth sig self a q) signed verbs
      (foldl (fun s st => happens st.1 st.2 s) s later)) = false.
Proof.
  intros Ho Hs Hl. revert s Ho Hs. induction Hl as [|[c x] later Hx Hl IH]; intros s Ho Hs.
  - intros c sig self signed verbs Hk. cbn [foldl]. destruct (run _ _ _ _ _) as [[[] s']|] eqn:H; [|done].
    apply run_sessions in H as (s1 & _ & evs & H). rewrite Hk in H. 
    by apply (Sessions.spent_refused (Host.key_text (env_of c))
      (Host.current_block_time (host_of c))) in Hs; rewrite H in Hs.
  - cbn [foldl]. destruct (happens_sessions c x s Ho) as [Ho' Hs']. apply IH; [done|by apply Hs'].
Qed.

(** C11: [run] gives a key the rights of its account, once for each sequence
    number, and no more.  If it succeeds, every verb it ran spoke for one
    account: the account named in the data when it authorized the transaction
    itself, or the account for which the key recovered from the signature of
    exactly these bytes is registered in a session that has not expired; a run
    without authorization speaks for the empty name.  And the sequence number
    of a signature is used up: in every state the contract can live through
    afterwards - any actions, runs with other numbers, sessions that are made or
    deleted, in any order - another run for the account that is signed by the
    key with the same number fails, unless the account registers the key
    anew. *)
Theorem run_acts_for_session (c : ctx) (auth : run_auth) (signed : list Z) (verbs : list verb) (s s' : state) :
  run c auth signed verbs s = Ok (tt, s') ->
  exists a s1, acts c a verbs s1 s' /\ verbs <> [] /\
    match auth with
    | no_auth => a = 0
    | account_auth k b o =>
        k = Host.self (host_of c) /\ a = b /\ b = o /\ Host.has_auth (host_of c) a = true
    | signature_auth sig k b q =>
        let key := Host.recover_key (env_of c) (Host.sha256 (env_of c) signed) sig in
        k = Host.self (host_of c) /\ a = b /\
        registered (Host.current_block_time (host_of c)) s a key /\
        (lives s -> forall later, Forall (fun st : ctx * call => ~ registers a key st.2) later ->
           forall c' sig' k' signed' verbs',
             Host.recover_key (env_of c') (Host.sha256 (env_of c') signed') sig' = key ->
             is_ok (run c' (signature_auth sig' k' a q) signed' verbs'
               (foldl (fun s st => happens st.1 st.2 s) s' later)) = false)
    end.
Proof.
  intros H. pose proof H as H0. unfold run in H. apply first_Ok in H as (a & s1 & Ha & H).
  apply first_Ok in H as ([] & s2 & [Hv ->]%checkM_Ok & H%verbs_act). exists a, s1.
  split; [done|]. split; [by destruct verbs|].
  destruct auth as [|k b o|sig k b q]; cbn [authorize_run] in Ha.
  - by injection Ha as <- _.
  - apply first_Ok in Ha as (u1 & s3 & [H1 ->]%checkM_Ok & Ha).
    apply first_Ok in Ha as (u2 & s3 & [H2 ->]%checkM_Ok & Ha).
    apply first_Ok in Ha as (u3 & s3 & [H3 ->]%auth_required & Ha). injection Ha as <- _.
    apply Z.eqb_eq in H1, H2. by subst.
  - apply first_Ok in Ha as (u1 & s3 & [H1 ->]%checkM_Ok & Ha).
    apply first_Ok in Ha as (evs & s3 & H2 & Ha). apply on_with_Ok in H2 as (tb & H2 & ->).
    apply first_Ok in Ha as (u2 & s3 & _ & [= <- _]). apply Z.eqb_eq in H1.
    split; [done|]. split; [done|]. split; [by apply use_session_registered in H2|].
    intros Hs%lives_orderly later. apply run_sessions in H0 as (s4 & Hk & evs' & H4).
    apply Sessions.use_session_orderly in H4 as [Ho4 Hs4]; [|done].
    apply replay_refused; [by eapply Sessions.kept_orderly | by eapply Sessions.kept_spent].
Qed.

(** Alice, invited at genesis, registers a key, and a run that it signs with the
    number 5 fills in her profile. *)
Definition demo_key : public_key := Crypto.key_k1 [1; 2; 3].
Definition demo_open : ctx :=
  mk_ctx (Host.mk demo_self (fun _ => true) (fun _ _ => true) (fun _ => true) 1700000000000000)
    Host.demo_env (Nft.Nft.mk_tables ∅ (fun _ => 0) (fun _ => None) (fun _ => None) ∅ ∅).
Definition demo_fee : asset := Asset.mk 100000 (Asset.Symbol.make 0x534F45 4).
Definition demo_alice : Z := Name.n "alice".
Definition demo_calls : list call :=
  [call_action (a_genesis "Eden" (Asset.symbol demo_fee) demo_fee [demo_alice; Name.n "bob"] "video" [] demo_fee
     604800 6 "15:30");
   call_newsession demo_alice demo_key (Host.current_block_time (host_of demo_open) + 1000) "phone"].
Definition demo_lived : state := Eval vm_compute in
  foldl (fun s x => happens demo_open x s) empty_state demo_calls.
Definition demo_verbs : list verb := [v_inductprofil 1 (Inductions.mk_profile "Alice" "Qm" "bio" "" "")].
Definition demo_auth (q : Z) : run_auth := signature_auth [1; 2; 3] demo_self demo_alice q.
Definition demo_later : list (ctx * call) :=
  [(demo_open, call_run (demo_auth 6) [] demo_verbs); (demo_open, call_action (a_gc 5))].

Lemma demo_lives : lives demo_lived.
Proof.
  assert (demo_lived = foldl (fun s x => happens demo_open x s) empty_state demo_calls) as -> by (vm_compute; reflexivity).
  unfold demo_calls. cbn [foldl]. repeat apply lives_step. apply lives_start.
Qed.

Lemma run_acts_for_session_witness :
  exists s', run demo_open (demo_auth 5) [] demo_verbs demo_lived = Ok (tt, s') /\
    (exists s1, acts demo_open demo_alice demo_verbs s1 s') /\
    registered (Host.current_block_time (host_of demo_open)) demo_lived demo_alice demo_key /\
    is_ok (run demo_open (demo_auth 5) [] demo_verbs
             (foldl (fun s st => happens st.1 st.2 s) s' demo_later)) = false.
Proof.
  eexists. split; [vm_compute; reflexivity|].
  match goal with |- (exists s1, acts _ _ _ s1 ?s') /\ _ =>
    destruct (run_acts_for_session demo_open (demo_auth 5) [] demo_verbs demo_lived s')
      as (a & s1 & Ha & _ & _ & -> & Hk & Hr)
  end; [vm_compute; reflexivity|].
  split; [by exists s1|]. split; [exact Hk|].
  apply (Hr demo_lives demo_later); [|reflexivity]. repeat constructor; intros [].
Defined.

End Authority.
