(* ===== verification/Board.v ===== *)
(** The board: the permissions its members hold together, and what a
    resignation does to the board, to the membership and to the post of the
    lead representative. *)
From S2P Require Import Prelude Name MultiIndex Host Globals Events Members ElectionState Sessions.
From S2P Require Import Bylaws DistributionTables State DistributionOps MemberOps ElectionOps Actions.
From S2P Require Import Governance Contract Frame.
Open Scope string_scope.
Open Scope list_scope.
Open Scope Z_scope.

Module Board.
Import Votes ElectionOps Actions Contract.

(** ** Quorum *)

(** Who may sign for a permission: each with a weight of one. *)
Definition signers (self : Z) (board : list Z) : list Z := if decide (board = []) then [self] else board.

Lemma board_accounts_perm self board : board_accounts self board ≡ₚ (fun m => (m, 1)) <$> signers self board.
Proof.
  unfold board_accounts, signers. rewrite merge_sort_Permutation.
  destruct (decide (board = [])) as [->|Hb]; [done|].
  by rewrite bool_decide_eq_false_2.
Qed.

Lemma board_accounts_length self board : length (board_accounts self board) = length (signers self board).
Proof. by rewrite board_accounts_perm, length_fmap. Qed.

#[local] Instance actor_le_total : Total actor_le.
Proof. intros a b. unfold actor_le. lia. Qed.
#[local] Instance actor_le_trans : Transitive actor_le.
Proof. intros a b d. unfold actor_le. lia. Qed.

(** The host refuses an authority whose accounts are not strictly sorted. *)
Lemma board_accounts_sorted self board :
  NoDup board -> StronglySorted (fun a b => a.1 < b.1) (board_accounts self board).
Proof.
  intros Hn. assert (NoDup (board_accounts self board).*1) as Hd.
  { rewrite (fmap_Permutation fst _ _ (board_accounts_perm self board)), <- list_fmap_compose.
    rewrite (list_fmap_ext _ id), list_fmap_id by done. unfold signers.
    destruct (decide _); [apply NoDup_singleton|done]. }
  pose proof (StronglySorted_merge_sort actor_le
    ((if bool_decide (board = []) then [(self, 1)] else []) ++ ((fun m => (m, 1)) <$> board))) as Hs.
  fold (board_accounts self board) in Hs. induction Hs as [|a l Hs IH Hf]; [constructor|].
  cbn in Hd. apply NoDup_cons in Hd as [Ha Hd]. constructor; [by apply IH|].
  rewrite Forall_forall in Hf |- *. intros b Hb. specialize (Hf _ Hb). unfold actor_le in Hf.
  assert (a.1 <> b.1); [|lia]. intros E. apply Ha. rewrite E. by apply list_elem_of_fmap_2.
Qed.

(** C39: the board permissions.  The accounts of both permissions are the board
    members (the contract itself when there are none), strictly sorted, each
    with a weight of one.  "board.major" needs the least number of them that
    is more than two thirds of the board; "board.minor" needs as many as it
    takes for the others to miss the major quorum, so that any group of
    members can either act as the majority or be blocked by the rest. *)
Theorem board_quorum (self : Z) (board : list Z) :
  NoDup board -> Z.of_nat (length board) < 2 ^ 30 ->
  exists accounts major minor n,
    board_permission self board =
      [Events.updateauth self (Name.n "board.major") (Name.n "active") (Events.mk_authority major accounts);
       Events.updateauth self (Name.n "board.minor") (Name.n "active") (Events.mk_authority minor accounts)] /\
    accounts ≡ₚ (fun m => (m, 1)) <$> signers self board /\
    StronglySorted (fun a b => a.1 < b.1) accounts /\
    n = Z.of_nat (length accounts) /\
    2 * Z.of_nat (length board) < 3 * major <= 2 * Z.of_nat (length board) + 3 /\
    0 < minor /\ major <= n /\
    forall k, major <= k <-> ~ minor <= n - k.
Proof.
  intros Hn Hl. exists (board_accounts self board), (major_threshold board), (minor_threshold self board),
    (Z.of_nat (length (board_accounts self board))).
  split; [done|]. split; [apply board_accounts_perm|]. split; [by apply board_accounts_sorted|]. split; [done|].
  set (n := Z.of_nat (length board)) in *.
  assert (major_threshold board = 2 * n / 3 + 1) as Hmaj.
  { unfold major_threshold. fold n. rewrite wrap_small; [f_equal; f_equal; lia|].
    pose proof (Z.div_le_upper_bound (n * 2) 3 n). pose proof (Z.div_pos (n * 2) 3). lia. }
  assert (Z.of_nat (length (board_accounts self board)) = Z.max 1 n) as Hlen.
  { rewrite board_accounts_length. unfold signers. destruct (decide (board = [])) as [->|Hb]; [done|].
    destruct board; [done|]. unfold n. cbn [length]. lia. }
  pose proof (Z.div_mod (2 * n) 3). pose proof (Z.mod_pos_bound (2 * n) 3).
  assert (minor_threshold self board = Z.max 1 n + 1 - (2 * n / 3 + 1)) as Hmin.
  { unfold minor_threshold. rewrite Hmaj, Hlen. apply wrap_small. lia. }
  rewrite Hmaj, Hmin, Hlen. repeat split; try lia.
Qed.

Lemma board_quorum_witness :
  exists accounts major minor n,
    board_permission 7 [3; 1; 2] =
      [Events.updateauth 7 (Name.n "board.major") (Name.n "active") (Events.mk_authority major accounts);
       Events.updateauth 7 (Name.n "board.minor") (Name.n "active") (Events.mk_authority minor accounts)] /\
    n = Z.of_nat (length accounts) /\ forall k, major <= k <-> ~ minor <= n - k.
Proof.
  destruct (board_quorum 7 [3; 1; 2]) as (ac & ma & mi & n & H1 & _ & _ & H2 & _ & _ & _ & H3).
  - by repeat constructor; set_solver.
  - reflexivity.
  - exists ac, ma, mi, n. done.
Defined.

(** ** Resigning *)

(** Everything but money, events and inline actions. *)
Definition offices_kept (s s' : state) : Prop :=
  members s' = members s /\ sessions s' = sessions s /\ bylaws s' = bylaws s /\
  election_state (elections s') = election_state (elections s).
#[local] Instance offices_preorder : PreOrder offices_kept.
Proof.
  split; [done|]. intros s1 s2 s3 (H1 & H2 & H3 & H4) (K1 & K2 & K3 & K4).
  split; [|split; [|split]]; congruence.
Qed.
#[local] Instance offices_loose : Frame.Loose offices_kept.
Proof. split; intros; first [apply within_on | apply within_on_with]; by intros. Qed.

Lemma push_events_offices l : within offices_kept (push_events l).
Proof. by intros s u s' [= _ <-]. Qed.
Lemma push_event_offices ev : within offices_kept (push_event ev).
Proof. by intros s u s' [= _ <-]. Qed.
Lemma send_all_offices l : within offices_kept (send_all l).
Proof. by intros s u s' [= _ <-]. Qed.
#[local] Hint Resolve push_events_offices push_event_offices send_all_offices : within.

Lemma put_state_offices v : within offices_kept (put_state v).
Proof. by apply within_on; intros s x [= <-]. Qed.
Lemma set_state_offices v : within offices_kept (set_state_sing v).
Proof. unfold set_state_sing, report_state, get_results. withins. apply put_state_offices. Qed.
#[local] Hint Resolve set_state_offices : within.

Section resign.
Context (c : ctx).

Lemma trigger_offices : within offices_kept (trigger_election c).
Proof. unfold trigger_election, MemberOps.global, state_exists, get_state. withins. Qed.

(** The board without a member who leaves; nothing else of the results of the
    last election changes. *)
Definition without (a : Z) (r : election_state_v0) : election_state_v0 :=
  mk_election_state (lead_representative r) (Bylaws.erase_first a (board r)) (last_election_time r).

Lemma election_resign_spec a s u s' :
  ElectionOps.on_resign c a s = Ok (u, s') ->
  members s' = members s /\ sessions s' = sessions s /\ bylaws s' = bylaws s /\
  election_state (elections s') = without a <$> election_state (elections s).
Proof.
  intros H. unfold ElectionOps.on_resign in H.
  apply M_bind_Ok in H as (u1 & s1 & H1 & H).
  assert (s1 = s) as ->.
  { unfold check_not_running in H1. apply M_bind_Ok in H1 as (b & s2 & [= <- <-] & H1).
    by apply checkM_Ok in H1 as [_ ->]. }
  apply M_bind_Ok in H as (lead & s1 & H2 & H).
  assert (offices_kept s1 s') as (K1 & K2 & K3 & K4).
  { exact (within_when offices_kept _ _ trigger_offices _ _ _ H). }
  rewrite K1, K2, K3, K4. clear K1 K2 K3 K4 H. unfold remove_from_board in H2.
  apply M_bind_Ok in H2 as (r & s2 & [= <- <-] & H2).
  destruct (election_state (elections s)) as [r|] eqn:Er; [|by injection H2 as _ <-].
  apply M_bind_Ok in H2 as (u2 & s2 & H2 & [= _ ->]). case_bool_decide as Ha.
  - apply M_bind_Ok in H2 as (u3 & s3 & H3 & H2). unfold put_results in H3.
    apply on_Ok in H3 as (x & [= <-] & ->).
    apply send_all_offices in H2 as (K1 & K2 & K3 & K4). rewrite K1, K2, K3, K4. done.
  - injection H2 as _ <-. do 3 (split; [done|]). rewrite Er. cbn. unfold without.
    rewrite Bylaws.erase_first_absent by done. by destruct r.
Qed.

(** The four parts of a resignation; the checks before them change nothing. *)
Lemma resign_steps a s u s' :
  resign c a s = Ok (u, s') ->
  exists s1 s2 s3, offices_kept s s1 /\ ElectionOps.on_resign c a s1 = Ok (tt, s2) /\
    MemberOps.remove a s2 = Ok (tt, s3) /\ on bylaws (fun tb => Bylaws.on_resign tb a) s3 = Ok (u, s').
Proof.
  intros H. unfold resign, require_auth, MemberOps.installed, MemberOps.global, MemberOps.check_active_member in H.
  apply M_bind_Ok in H as (u1 & s1 & [_ ->]%lift_Ok & H).
  apply M_bind_Ok in H as (u2 & s1 & H2 & H). apply M_bind_Ok in H2 as (g & s2 & [_ ->]%reads_Ok & [= _ <-]).
  apply M_bind_Ok in H as (u3 & s1 & [_ ->]%reads_Ok & H).
  apply M_bind_Ok in H as (m & s1 & [_ ->]%reads_Ok & H).
  apply M_bind_Ok in H as (u4 & s1 & H4 & H). apply M_bind_Ok in H as ([] & s2 & H5 & H).
  apply M_bind_Ok in H as ([] & s3 & H6 & H). exists s1, s2, s3. split; [|done].
  exact (Frame.dist_resign_loose offices_kept push_events_offices c m _ _ _ H4).
Qed.

Lemma removed_spec a s u s' :
  Members.inv (members s) -> MemberOps.remove a s = Ok (u, s') ->
  Members.member_tb (members s') = delete a (Members.member_tb (members s)) /\
  sessions s' = delete a (sessions s) /\ bylaws s' = bylaws s /\ elections s' = elections s.
Proof.
  intros Hi H. unfold MemberOps.remove in H.
  apply M_bind_Ok in H as (m & s1 & [Hm%some_or_Ok ->]%reads_Ok & H).
  assert (Members.account m = a) as Ha by (by apply (Members.inv_keyed _ Hi)).
  unfold MemberOps.erase in H. apply M_bind_Ok in H as (u1 & s1 & (x & Hx & ->)%on_Ok & H).
  apply (Members.erase_stats_Ok _ _ _ Hi) in Hx as [Hx _].
  apply M_bind_Ok in H as (u2 & s2 & H2 & (y & Hy & ->)%on_Ok). unfold MemberOps.remove_sessions in H2.
  apply M_bind_Ok in H2 as (evs & s3 & (z & Hz & ->)%on_with_Ok & [= _ <-]). cbn in Hy, Hz |- *.
  unfold Members.erase_row in Hy. apply bind_Ok in Hy as (tb & [_ ->]%Table.erase_Ok & [= <-]). cbn.
  rewrite Hx, Ha. split; [done|]. split; [|done]. rewrite Ha in Hz. unfold Sessions.remove_sessions in Hz.
  destruct (sessions s !! a) as [sc|] eqn:Es.
  - by apply bind_Ok in Hz as (t & [_ ->]%Table.erase_Ok & [= <- <-]).
  - injection Hz as <- <-. symmetry. by apply delete_id.
Qed.

End resign.

(** A resignation removes the member from everything that counts members:
    exactly its row goes from the member table, its sessions end, its seat on
    the board (the first occurrence) is vacated and its approval is taken back
    from the bylaws that are proposed or pending; nobody else's is touched. *)
Theorem resign_spec (c : ctx) (a : Z) (s s' : state) :
  Members.inv (members s) -> apply c (a_resign a) s = Ok (tt, s') ->
  Members.member_tb (members s') = delete a (Members.member_tb (members s)) /\
  sessions s' = delete a (sessions s) /\
  election_state (elections s') = without a <$> election_state (elections s) /\
  bylaws s' = alter (Bylaws.withdraw_approval a) Bylaws.pending
                (alter (Bylaws.withdraw_approval a) Bylaws.proposed (bylaws s)).
Proof.
  intros Hi H. destruct (resign_steps _ _ _ _ _ H) as (s1 & s2 & s3 & K & H2 & H3 & H4).
  destruct K as (K1 & K2 & K3 & K4).
  apply election_resign_spec in H2 as (L1 & L2 & L3 & L4).
  rewrite <- K1, <- L1 in Hi |- *. destruct (removed_spec _ _ _ _ Hi H3) as (N1 & N2 & N3 & N4).
  apply on_Ok in H4 as (x & Hx%Bylaws.on_resign_Ok & ->). cbn.
  rewrite N1, N2, N4, L4, K4, L2, K2, Hx, N3, L3, K3. done.
Qed.


Lemma withdraw_approval_keyed a tb key :
  Table.keyed Bylaws.type tb -> Table.keyed Bylaws.type (alter (Bylaws.withdraw_approval a) key tb).
Proof.
  intros Hk k row [[-> (r & Hr & ->)]|[_ Hr]]%lookup_alter_Some; [|by apply Hk]. cbn. by apply Hk.
Qed.

(** A lead representative who resigns keeps the post.  The results of the
    election still name the former member as the lead (the code clears the
    field in a copy that is not stored), and the only check on proposed bylaws
    is against that name: whoever resigned can still propose. *)
Theorem resigned_lead_may_propose (c c' : ctx) (a : Z) (text : string) (r : election_state_v0) (s s' : state) :
  Members.inv (members s) -> Table.keyed Bylaws.type (bylaws s) ->
  election_state (elections s) = Some r -> lead_representative r = a ->
  apply c (a_resign a) s = Ok (tt, s') -> Host.has_auth (host_of c') a = true ->
  Members.member_tb (members s') !! a = None /\
  exists s'' row, apply c' (a_bylawspropose a text) s' = Ok (tt, s'') /\
    bylaws s'' !! Bylaws.proposed = Some row /\ Bylaws.text row = text.
Proof.
  intros Hi Hk Hr Hl H Hauth. destruct (resign_steps _ _ _ _ _ H) as (s1 & s2 & s3 & K & H2 & H3 & H4).
  destruct K as (K1 & K2 & K3 & K4). apply election_resign_spec in H2 as (L1 & L2 & L3 & L4).
  rewrite <- K1, <- L1 in Hi. destruct (removed_spec _ _ _ _ Hi H3) as (N1 & N2 & N3 & N4).
  apply on_Ok in H4 as (x & ->%Bylaws.on_resign_Ok & ->). rewrite N3, L3, K3.
  split; [cbn; rewrite N1; apply lookup_delete_eq|].
  assert (election_state (elections s3) = Some (without a r)) as Hr3 by (by rewrite N4, L4, K4, Hr).
  set (tb := alter _ _ _). assert (Table.keyed Bylaws.type tb) as Hk'.
  { by do 2 apply withdraw_approval_keyed. }
  set (row := Bylaws.mk Bylaws.proposed text (Host.current_block_time (host_of c')) []).
  set (s0 := s3 <| bylaws := tb |>).
  exists (s0 <| bylaws := <[Bylaws.proposed := row]> tb |>), row. split; [|split; [apply lookup_insert_eq|done]].
  assert (Bylaws.set_proposed (Host.current_block_time (host_of c')) tb (without a r) a text
          = Ok (<[Bylaws.proposed := row]> tb)) as Hset.
  { unfold Bylaws.set_proposed. cbn [lead_representative without]. rewrite Hl, Z.eqb_refl.
    exact (Bylaws.put_Ok tb row Hk'). }
  assert (get_election_state (elections s0) = Ok (without a r)) as Hget.
  { unfold get_election_state. change (elections s0) with (elections s3). by rewrite Hr3. }
  cbn [apply]. unfold Governance.bylawspropose, require_auth, get_results, reads, lift, on, Host.require_auth.
  unfold mbind, M_bind, result_bind. rewrite Hauth, Hget. change (bylaws s0) with tb. by rewrite Hset.
Qed.

(** *** Alice leads a board of two and resigns *)

Definition alice : Z := Name.n "alice".
Definition bob : Z := Name.n "bob".
Definition demo_ctx : ctx :=
  mk_ctx (Host.mk (Name.n "eden.gm") (fun _ => true) (fun _ _ => true) (fun _ => true) 1700000000000000)
    Host.demo_env (Nft.Nft.mk_tables ∅ (fun _ => 0) (fun _ => None) (fun _ => None) ∅ ∅).
Definition demo_globals : Globals.global_data_v1 :=
  Globals.mk_v1 (Globals.mk_v0 "Eden" (Asset.Asset.mk 10 0) (Asset.Asset.mk 10 0) 604800 Globals.active)
    0xffffffff 3600.
Definition demo_member (a : Z) : Members.member :=
  Members.mk_member true a "" Members.active_member 0 Members.not_in_election 0 Members.no_representative None.
Definition demo_results : election_state_v0 := mk_election_state alice [alice; bob] 1000.
Definition demo_state : state :=
  empty_state <| globals := Some (Globals.v1 demo_globals) |>
    <| members := Members.mk_store {[ alice := demo_member alice; bob := demo_member bob ]}
         (Some (Members.stats_v1 (Members.mk_stats 2 0 0 []))) |>
    <| elections := Votes.mk_store ∅ (Some pending_date) (Some demo_results) |>
    <| bylaws := {[ Bylaws.pending := Bylaws.mk Bylaws.pending "be kind" 0 [alice; bob] ]} |>.

Lemma demo_inv : Members.inv (members demo_state).
Proof.
  split.
  - apply Table.keyed_insert; [|done]. rewrite <- insert_empty. apply Table.keyed_insert; [|done].
    apply Table.keyed_empty.
  - intros k m Hm. cbn in Hm.
    apply lookup_insert_Some in Hm as [(_ & <-)|(_ & [_ <-]%lookup_singleton_Some)]; by right.
  - vm_compute. reflexivity.
  - vm_compute. reflexivity.
  - vm_compute. done.
Qed.

Lemma resign_spec_witness :
  exists s', apply demo_ctx (a_resign alice) demo_state = Ok (tt, s') /\
    election_state (elections s') = Some (mk_election_state alice [bob] 1000) /\
    Bylaws.approvals <$> bylaws s' !! Bylaws.pending = Some [bob].
Proof.
  eexists. split; [vm_compute; reflexivity|].
  match goal with |- election_state (elections ?t) = _ /\ _ =>
    destruct (resign_spec demo_ctx alice demo_state t demo_inv) as (_ & _ & He & Hb) end.
  - vm_compute. reflexivity.
  - split; [exact He | rewrite Hb; vm_compute; reflexivity].
Defined.

Lemma resigned_lead_may_propose_witness :
  exists s' s'' row, apply demo_ctx (a_resign alice) demo_state = Ok (tt, s') /\
    apply demo_ctx (a_bylawspropose alice "mine") s' = Ok (tt, s'') /\
    bylaws s'' !! Bylaws.proposed = Some row /\ Bylaws.text row = "mine".
Proof.
  eexists. match goal with |- exists s'' row, _ = Ok (tt, ?t) /\ _ =>
    destruct (resigned_lead_may_propose demo_ctx demo_ctx alice "mine" demo_results demo_state t demo_inv)
      as (_ & s'' & row & H1 & H2 & H3) end.
  - intros k r Hr. cbn in Hr. by apply lookup_singleton_Some in Hr as [<- <-].
  - reflexivity.
  - reflexivity.
  - vm_compute. reflexivity.
  - reflexivity.
  - exists s'', row. split; [vm_compute; reflexivity|]. done.
Defined.

End Board.
