(* ===== verification/Chainbase.v ===== *)
(** The undo index of the history node's database
    ([libraries/clchain/include/chainbase/undo_index.hpp]): a table that can
    return to the state it had when a session began.  Instead of copies it
    keeps, per session, the first overwritten value of each row, the removed
    rows and the next id.  The trees of the secondary indices are represented
    by the keys of the rows, which have to be unique; [squash], which nothing
    uses, and the iterators are not modelled. *)
From S2P Require Import Prelude.
Open Scope string_scope.
Open Scope list_scope.
Open Scope Z_scope.

Module Undo.

Section index.
(** The rows, and their keys in the indices after the first: a key is tagged
    with its index, so only keys of one index are ever equal. *)
Context {V K : Type} `{EqDecision K} (keys : Z -> V -> list K).

Record node : Type := mk_node { item : V; mtime : Z }.
Record old_node : Type := mk_old {
  old_address : Z; old_item : V; old_mtime : Z;
  current : Z  (* the id of the node the value was saved from *) }.
Record undo_state : Type := mk_state {
  old_values_end : option Z; removed_values_end : option Z; old_next_id : Z; ctime : Z }.
Record undo_index : Type := mk_index {
  indices : gmap Z node;
  undo_stack : list undo_state;          (* the top first *)
  old_values : list old_node;
  removed_values : list (Z * node);
  next_id : Z;
  revision : Z;
  monotonic_revision : Z;
  next_address : Z                       (* of the allocator of old values *)
}.
Definition empty_index : undo_index := mk_index ∅ [] [] [] 0 0 0 0.

#[global] Instance set_indices : Setter indices := fun f u =>
  mk_index (f (indices u)) (undo_stack u) (old_values u) (removed_values u) (next_id u) (revision u)
    (monotonic_revision u) (next_address u).
#[global] Instance set_old_values : Setter old_values := fun f u =>
  mk_index (indices u) (undo_stack u) (f (old_values u)) (removed_values u) (next_id u) (revision u)
    (monotonic_revision u) (next_address u).
#[global] Instance set_removed_values : Setter removed_values := fun f u =>
  mk_index (indices u) (undo_stack u) (old_values u) (f (removed_values u)) (next_id u) (revision u)
    (monotonic_revision u) (next_address u).
#[global] Instance set_undo_stack : Setter undo_stack := fun f u =>
  mk_index (indices u) (f (undo_stack u)) (old_values u) (removed_values u) (next_id u) (revision u)
    (monotonic_revision u) (next_address u).
#[global] Instance set_next_id : Setter next_id := fun f u =>
  mk_index (indices u) (undo_stack u) (old_values u) (removed_values u) (f (next_id u)) (revision u)
    (monotonic_revision u) (next_address u).
#[global] Instance set_revision_field : Setter revision := fun f u =>
  mk_index (indices u) (undo_stack u) (old_values u) (removed_values u) (next_id u) (f (revision u))
    (monotonic_revision u) (next_address u).
#[global] Instance set_next_address : Setter next_address := fun f u =>
  mk_index (indices u) (undo_stack u) (old_values u) (removed_values u) (next_id u) (revision u)
    (monotonic_revision u) (f (next_address u)).

(** Two rows clash when they share a key of some index. *)
Definition clash (i : Z) (v : V) (j : Z) (w : V) : bool :=
  existsb (fun k => bool_decide (k ∈ keys j w)) (keys i v).
(** [insert_impl] and [post_modify<true>] refuse a row that clashes with
    another one. *)
Definition fits (m : gmap Z V) (i : Z) (v : V) : bool :=
  forallb (fun p => (p.1 =? i) || negb (clash i v p.1 p.2)) (map_to_list m).
Definition rows_of (m : gmap Z node) : gmap Z V := item <$> m.

(** ** Changing rows *)

Definition emplace (u : undo_index) (c : Z -> V) : result undo_index :=
  let new_id := next_id u in
  let v := c new_id in
  _ ← check (fits (rows_of (indices u)) new_id v)
        "could not insert object, most likely a uniqueness constraint was violated";
  let mt := match undo_stack u with [] => 0 | _ :: _ => monotonic_revision u end in
  Ok (u <| indices ::= <[new_id := mk_node v mt]> |> <| next_id := new_id + 1 |>).

(** Saves the value of a row the session has not touched yet. *)
Definition on_modify (u : undo_index) (id : Z) (obj : node) : undo_index :=
  match undo_stack u with
  | [] => u
  | undo_info :: _ =>
      if ctime undo_info <=? mtime obj then u
      else u <| old_values ::= cons (mk_old (next_address u) (item obj) (mtime obj) id) |>
             <| next_address := next_address u + 1 |>
             <| indices ::= <[id := mk_node (item obj) (monotonic_revision u)]> |>
  end.

Definition modify (u : undo_index) (id : Z) (m : V -> V) : result undo_index :=
  obj ← some_or (Trap "dangling reference") (indices u !! id);
  let u := on_modify u id obj in
  let v := m (item obj) in
  _ ← check (fits (rows_of (indices u)) id v)
        "could not modify object, most likely a uniqueness constraint was violated";
  Ok (u <| indices ::= alter (fun n => mk_node v (mtime n)) id |>).

Definition remove (u : undo_index) (id : Z) : result undo_index :=
  obj ← some_or (Trap "dangling reference") (indices u !! id);
  let u := u <| indices ::= delete id |> in
  Ok (match undo_stack u with
      | [] => u
      | undo_info :: _ =>
          if old_next_id undo_info <=? id then u
          else u <| removed_values ::= cons (id, obj) |>
      end).

(** ** Sessions *)

Definition add_session (u : undo_index) : undo_index :=
  mk_index (indices u)
    (mk_state (old_address <$> head (old_values u)) (fst <$> head (removed_values u)) (next_id u)
       (monotonic_revision u + 1) :: undo_stack u)
    (old_values u) (removed_values u) (next_id u) (revision u + 1) (monotonic_revision u + 1)
    (next_address u).

(** [get_old_values_end], [get_removed_values_end]: the elements before an
    end, and the rest. *)
Fixpoint before {A} (address : A -> Z) (stop : option Z) (l : list A) : list A :=
  match l with
  | [] => []
  | x :: l' => if bool_decide (stop = Some (address x)) then [] else x :: before address stop l'
  end.
Fixpoint from {A} (address : A -> Z) (stop : option Z) (l : list A) : list A :=
  match l with
  | [] => []
  | x :: l' => if bool_decide (stop = Some (address x)) then l else from address stop l'
  end.

(** Writes a saved value back into its node, in the table or among the
    removed ones. *)
Definition restore (ct : Z) (ms : gmap Z node * list (Z * node)) (o : old_node)
    : gmap Z node * list (Z * node) :=
  if old_mtime o <? ct then
    let n := mk_node (old_item o) (old_mtime o) in
    (alter (fun _ => n) (current o) ms.1,
     (fun p => if p.1 =? current o then (p.1, n) else p) <$> ms.2)
  else ms.
(** Reinserts a removed node, unless it is new or clashes. *)
Definition reinsert (old_next : Z) (m : gmap Z node) (p : Z * node) : gmap Z node :=
  if p.1 <? old_next then
    match m !! p.1 with
    | Some _ => m
    | None => if fits (rows_of m) p.1 (item p.2) then <[p.1 := p.2]> m else m
    end
  else m.

Definition undo (u : undo_index) : undo_index :=
  match undo_stack u with
  | [] => u
  | st :: stack =>
      let m := filter (fun p => p.1 < old_next_id st) (indices u) in
      let '(m, removed) := foldl (restore (ctime st))
                             (m, before fst (removed_values_end st) (removed_values u))
                             (before old_address (old_values_end st) (old_values u)) in
      mk_index (foldl (reinsert (old_next_id st)) m removed) stack
        (from old_address (old_values_end st) (old_values u))
        (from fst (removed_values_end st) (removed_values u))
        (old_next_id st) (revision u - 1) (monotonic_revision u) (next_address u)
  end.

Fixpoint undo_all (fuel : nat) (u : undo_index) : undo_index :=
  match fuel with O => u | S n => match undo_stack u with [] => u | _ => undo_all n (undo u) end end.

(** [dispose]: one element may be left, the one the end points to. *)
Definition keep_end {A} (address : A -> Z) (stop : option Z) (l : list A) : list A :=
  before address stop l ++ take 1 (from address stop l).

Definition commit (u : undo_index) (rev : Z) : undo_index :=
  let rev := Z.min rev (revision u) in
  if rev =? revision u then u <| old_values := [] |> <| removed_values := [] |> <| undo_stack := [] |>
  else if revision u - rev <? Z.of_nat (length (undo_stack u)) then
    let kept := take (Z.to_nat (revision u - rev)) (undo_stack u) in
    match last kept with
    | Some iter =>
        u <| old_values ::= keep_end old_address (old_values_end iter) |>
          <| removed_values ::= keep_end fst (removed_values_end iter) |>
          <| undo_stack := kept |>
    | None => u
    end
  else u.

Definition set_revision (u : undo_index) (rev : Z) : result undo_index :=
  _ ← check (bool_decide (undo_stack u = [])) "cannot set revision while there is an existing undo stack";
  _ ← check (rev <=? 2 ^ 63 - 1) "revision to set is too high";
  _ ← check (revision u <=? rev) "revision cannot decrease";
  Ok (u <| revision := rev |>).

(** ** The contract: snapshots *)

(** A table that keeps whole copies: what a session and its undo promise. *)
Record snapshots : Type := mk_snap {
  rows : gmap Z V; snap_next : Z; saved : list (gmap Z V * Z); snap_revision : Z }.

Definition snap_emplace (d : snapshots) (c : Z -> V) : result snapshots :=
  _ ← check (fits (rows d) (snap_next d) (c (snap_next d)))
        "could not insert object, most likely a uniqueness constraint was violated";
  Ok (mk_snap (<[snap_next d := c (snap_next d)]> (rows d)) (snap_next d + 1) (saved d) (snap_revision d)).
Definition snap_modify (d : snapshots) (id : Z) (m : V -> V) : result snapshots :=
  v ← some_or (Trap "dangling reference") (rows d !! id);
  _ ← check (fits (rows d) id (m v))
        "could not modify object, most likely a uniqueness constraint was violated";
  Ok (mk_snap (<[id := m v]> (rows d)) (snap_next d) (saved d) (snap_revision d)).
Definition snap_remove (d : snapshots) (id : Z) : result snapshots :=
  _ ← some_or (Trap "dangling reference") (rows d !! id);
  Ok (mk_snap (delete id (rows d)) (snap_next d) (saved d) (snap_revision d)).
Definition snap_start (d : snapshots) : snapshots :=
  mk_snap (rows d) (snap_next d) ((rows d, snap_next d) :: saved d) (snap_revision d + 1).
Definition snap_undo (d : snapshots) : snapshots :=
  match saved d with
  | [] => d
  | (m, n) :: l => mk_snap m n l (snap_revision d - 1)
  end.
(** Only the sessions after a revision can still be undone. *)
Definition snap_commit (d : snapshots) (rev : Z) : snapshots :=
  mk_snap (rows d) (snap_next d)
    (if (snap_revision d <=? rev) || (snap_revision d - rev <? Z.of_nat (length (saved d)))
     then take (Z.to_nat (snap_revision d - rev)) (saved d) else saved d) (snap_revision d).
Definition snap_set_revision (d : snapshots) (rev : Z) : result snapshots :=
  _ ← check (bool_decide (saved d = [])) "cannot set revision while there is an existing undo stack";
  _ ← check (rev <=? 2 ^ 63 - 1) "revision to set is too high";
  _ ← check (snap_revision d <=? rev) "revision cannot decrease";
  Ok (mk_snap (rows d) (snap_next d) (saved d) rev).

(** Everything a client does to a table. *)
Inductive op : Type :=
  | op_emplace (c : Z -> V)
  | op_modify (id : Z) (m : V -> V)
  | op_remove (id : Z)
  | op_start
  | op_undo
  | op_commit (rev : Z)
  | op_set_revision (rev : Z).
Definition run_index (u : undo_index) (o : op) : result undo_index :=
  match o with
  | op_emplace c => emplace u c
  | op_modify id m => modify u id m
  | op_remove id => remove u id
  | op_start => Ok (add_session u)
  | op_undo => Ok (undo u)
  | op_commit r => Ok (commit u r)
  | op_set_revision r => set_revision u r
  end.
Definition run_snap (d : snapshots) (o : op) : result snapshots :=
  match o with
  | op_emplace c => snap_emplace d c
  | op_modify id m => snap_modify d id m
  | op_remove id => snap_remove d id
  | op_start => Ok (snap_start d)
  | op_undo => Ok (snap_undo d)
  | op_commit r => Ok (snap_commit d r)
  | op_set_revision r => snap_set_revision d r
  end.
Definition empty_snap : snapshots := mk_snap ∅ 0 [] 0.

End index.
Arguments node V : clear implicits.
Arguments old_node V : clear implicits.
Arguments undo_index V : clear implicits.
Arguments snapshots V : clear implicits.
Arguments op V : clear implicits.
End Undo.
