(* ===== verification/ChainbaseUndo.v ===== *)
(** The undo index implements its contract: whatever is done to it, it holds
    the rows a table with whole snapshots would hold. *)
From S2P Require Import Prelude Chainbase.
Open Scope list_scope.
Open Scope Z_scope.

Module UndoRefinement.
Import Undo.

(** ** Segments of the lists *)

Section segments.
Context {A : Type} (address : A -> Z).

Lemma before_from stop l : before address stop l ++ from address stop l = l.
Proof. induction l as [|x l IH]; cbn; [done|]. case_bool_decide; cbn; [done|by rewrite IH]. Qed.
Lemma before_push stop x l :
  stop <> Some (address x) -> before address stop (x :: l) = x :: before address stop l.
Proof. intros H. cbn. by rewrite bool_decide_eq_false_2. Qed.
Lemma from_push stop x l : stop <> Some (address x) -> from address stop (x :: l) = from address stop l.
Proof. intros H. cbn. by rewrite bool_decide_eq_false_2. Qed.
Lemma segments_head l :
  before address (address <$> head l) l = [] /\ from address (address <$> head l) l = l.
Proof. destruct l as [|x l]; cbn; [done|]. by rewrite bool_decide_eq_true_2. Qed.
Lemma before_None l : before address None l = l.
Proof. induction l as [|x l IH]; cbn; [done|by rewrite IH]. Qed.
Lemma from_None l : from address None l = [].
Proof. induction l as [|x l IH]; cbn; done. Qed.

Definition points (stop : option Z) (l : list A) : Prop :=
  match stop with Some a => a ∈ address <$> l | None => True end.

Lemma points_head stop l :
  points stop l <-> match stop with Some a => address <$> head (from address stop l) = Some a | None => True end.
Proof.
  destruct stop as [a|]; [|done]. cbn. induction l as [|x l IH]; cbn.
  - split; [by intros ?%not_elem_of_nil|done].
  - rewrite elem_of_cons. case_bool_decide as Hx; cbn; [naive_solver|].
    rewrite <- IH. split; [intros [->|]|]; naive_solver.
Qed.
Lemma head_keep_end stop l : head (keep_end address stop l) = head l.
Proof. unfold keep_end. destruct l as [|x l]; cbn; [done|]. by case_bool_decide. Qed.

(** What a session keeps is what it points to. *)
Lemma keep_end_self stop l :
  before address stop (keep_end address stop l) = before address stop l /\
  from address stop (keep_end address stop l) = take 1 (from address stop l).
Proof.
  unfold keep_end. induction l as [|x l [IH1 IH2]]; cbn; [done|].
  case_bool_decide as Hs; cbn; rewrite ?Hs; [rewrite bool_decide_eq_true_2 by done; done|].
  rewrite bool_decide_eq_false_2 by done. split; [f_equal; apply IH1|apply IH2].
Qed.

Lemma keep_end_below stop stop' l :
  NoDup (address <$> l) -> points stop' (from address stop l) ->
  before address stop (keep_end address stop' l) = before address stop l /\
  from address stop (keep_end address stop' l) = keep_end address stop' (from address stop l).
Proof.
  intros Hn Hp. unfold keep_end. induction l as [|x l IH]; cbn in *; [done|].
  apply NoDup_cons in Hn as [Hx Hn]. case_bool_decide as Hs.
  - cbn. case_bool_decide as Hs'; cbn; by rewrite bool_decide_eq_true_2.
  - destruct (IH Hn Hp) as [IH1 IH2].
    assert (stop' <> Some (address x)) as Hs'.
    { intros ->. apply Hx. cbn in Hp. rewrite <- (before_from stop l), fmap_app. apply elem_of_app. by right. }
    rewrite (bool_decide_eq_false_2 _ Hs'). cbn. rewrite bool_decide_eq_false_2 by done.
    split; [by f_equal|done].
Qed.
End segments.

(** ** Rows that fit *)

Section refinement.
Context {V K : Type} `{EqDecision K} (keys : Z -> V -> list K).
Abbreviation index := (undo_index V).
Abbreviation fits := (fits keys).
Abbreviation clash := (clash keys).

Lemma clash_sym i v j w : clash i v j w = clash j w i v.
Proof.
  apply eq_true_iff_eq. unfold Undo.clash. rewrite !existsb_exists.
  split; intros (k & Hk%list_elem_of_In & Hw%bool_decide_eq_true); exists k;
    (split; [by apply list_elem_of_In | by apply bool_decide_eq_true]).
Qed.

Lemma fits_spec m i v :
  fits m i v = true <-> forall j w, m !! j = Some w -> j <> i -> clash i v j w = false.
Proof.
  unfold Undo.fits. rewrite forallb_forall. split.
  - intros H j w Hj Hne. specialize (H (j, w)). cbn in H. rewrite <- list_elem_of_In, elem_of_map_to_list in H.
    specialize (H Hj). apply orb_true_iff in H as [H%Z.eqb_eq|H%negb_true_iff]; done.
  - intros H [j w]. rewrite <- list_elem_of_In, elem_of_map_to_list. cbn. intros Hj.
    destruct (Z.eqb_spec j i) as [|Hne]; [done|]. cbn. by rewrite (H j w).
Qed.

(** No two rows share a key. *)
Definition unique (m : gmap Z V) : Prop :=
  forall i j v w, m !! i = Some v -> m !! j = Some w -> j <> i -> clash i v j w = false.
Lemma unique_empty : unique ∅.
Proof. intros i j v w Hi. by rewrite lookup_empty in Hi. Qed.
Lemma unique_subseteq m m' : m ⊆ m' -> unique m' -> unique m.
Proof. intros Hs Hu i j v w Hi Hj. apply Hu; by eapply lookup_weaken. Qed.
Lemma unique_insert m i v : unique m -> fits m i v = true -> unique (<[i := v]> m).
Proof.
  rewrite fits_spec. intros Hu Hf a b x y [(<- & <-)|(Ha & Hx)]%lookup_insert_Some
    [(<- & <-)|(Hb & Hy)]%lookup_insert_Some Hne; [done|by apply Hf|rewrite clash_sym; by apply Hf|by eapply Hu].
Qed.
Lemma unique_fits m i v m' : unique m -> m !! i = Some v -> m' ⊆ m -> fits m' i v = true.
Proof. intros Hu Hi Hs. apply fits_spec. intros j w Hj Hne. eapply Hu; [done| |done]. by eapply lookup_weaken. Qed.

(** ** What a session can restore *)

(** The values written back, in order. *)
Definition overlay (os : list (old_node V)) (m : gmap Z (node V)) : gmap Z (node V) :=
  foldl (fun m o => alter (fun _ => mk_node (old_item o) (old_mtime o)) (current o) m) m os.

Lemma overlay_cons o os m :
  overlay (o :: os) m = overlay os (alter (fun _ => mk_node (old_item o) (old_mtime o)) (current o) m).
Proof. done. Qed.
Lemma overlay_lookup_ne os m i : i ∉ current <$> os -> overlay os m !! i = m !! i.
Proof.
  revert m. induction os as [|o os IH]; intros m H; [done|].
  rewrite fmap_cons, not_elem_of_cons in H. destruct H as [H1 H2].
  by rewrite overlay_cons, IH, lookup_alter_ne.
Qed.
(** A value that will be overwritten does not matter. *)
Lemma overlay_alter os m i f : i ∈ current <$> os -> overlay os (alter f i m) = overlay os m.
Proof.
  revert m. induction os as [|o os IH]; intros m H; [by apply not_elem_of_nil in H|].
  rewrite fmap_cons in H. rewrite !overlay_cons. destruct (decide (current o = i)) as [<-|Hne].
  - f_equal. apply map_eq. intros j. destruct (decide (j = current o)) as [->|Hj].
    + rewrite !lookup_alter_eq. by destruct (m !! _).
    + by rewrite !lookup_alter_ne.
  - assert (alter (fun _ => mk_node (old_item o) (old_mtime o)) (current o) (alter f i m)
            = alter f i (alter (fun _ => mk_node (old_item o) (old_mtime o)) (current o) m)) as ->.
    { apply map_eq. intros j. rewrite !lookup_alter. repeat case_decide; congruence. }
    apply IH. apply elem_of_cons in H as [H|H]; [congruence|done].
Qed.
Lemma overlay_dom os m : dom (overlay os m) = dom m.
Proof. revert m. induction os as [|o os IH]; intros m; [done|]. by rewrite overlay_cons, IH, dom_alter_L. Qed.

Definition removed_map (l : list (Z * node V)) : gmap Z (node V) := list_to_map l.

Lemma restore_union ct o m l :
  old_mtime o < ct -> NoDup l.*1 -> (forall i, i ∈ l.*1 -> m !! i = None) ->
  let '(m', l') := restore ct (m, l) o in
  m' ∪ removed_map l' = alter (fun _ => mk_node (old_item o) (old_mtime o)) (current o) (m ∪ removed_map l) /\
  l'.*1 = l.*1 /\ forall i, i ∈ l'.*1 -> m' !! i = None.
Proof.
  intros Ho Hn Hd. unfold restore. rewrite (proj2 (Z.ltb_lt _ _) Ho). cbn [fst snd].
  set (n := mk_node _ _).
  assert (forall l : list (Z * node V), ((fun p => if p.1 =? current o then (p.1, n) else p) <$> l).*1 = l.*1) as Hf.
  { intros l0. rewrite <- list_fmap_compose. apply list_fmap_ext. intros k [i x] _. cbn. by destruct (i =? _). }
  split; [|split; [apply Hf|intros i; rewrite Hf; intros Hi; apply lookup_alter_None; by apply Hd]].
  assert (removed_map ((fun p => if p.1 =? current o then (p.1, n) else p) <$> l)
          = alter (fun _ => n) (current o) (removed_map l)) as ->.
  { clear Hd. induction l as [|[i x] l IH]; cbn; [by rewrite alter_empty|].
    apply NoDup_cons in Hn as [Hi Hn]. unfold removed_map in *. cbn in *.
    destruct (Z.eqb_spec i (current o)) as [->|Hne]; cbn; rewrite IH by done.
    - rewrite alter_insert_eq. f_equal. apply alter_id. intros y Hy.
      exfalso. apply Hi. apply elem_of_list_to_map_2 in Hy. by apply (list_elem_of_fmap_2 fst) in Hy.
    - by rewrite alter_insert_ne. }
  apply map_eq. intros i. rewrite lookup_union. destruct (decide (i = current o)) as [->|Hne].
  - rewrite !lookup_alter_eq, lookup_union. by destruct (m !! _), (removed_map l !! _).
  - by rewrite !lookup_alter_ne, lookup_union.
Qed.

Lemma restore_all ct os m l :
  Forall (fun o => old_mtime o < ct) os -> NoDup l.*1 -> (forall i, i ∈ l.*1 -> m !! i = None) ->
  let '(m', l') := foldl (restore ct) (m, l) os in
  m' ∪ removed_map l' = overlay os (m ∪ removed_map l) /\
  l'.*1 = l.*1 /\ forall i, i ∈ l'.*1 -> m' !! i = None.
Proof.
  intros Ho. revert m l. induction Ho as [|o os Ho Hos IH]; intros m l Hn Hd; [by split; [|split]|]. cbn [foldl].
  pose proof (restore_union ct o m l Ho Hn Hd) as H. destruct (restore ct (m, l) o) as [m1 l1].
  destruct H as (H1 & H2 & H3). rewrite <- H2 in Hn. specialize (IH m1 l1 Hn H3).
  destruct (foldl _ _ os) as [m2 l2]. destruct IH as (I1 & I2 & I3).
  split; [by rewrite I1, overlay_cons, H1|]. split; [by rewrite I2|done].
Qed.

Lemma rows_subseteq (m m' : gmap Z (node V)) : m ⊆ m' -> rows_of m ⊆ rows_of m'.
Proof. apply map_fmap_mono. Qed.

Lemma reinsert_all next l m :
  NoDup l.*1 -> (forall i, i ∈ l.*1 -> i < next /\ m !! i = None) ->
  unique (rows_of (m ∪ removed_map l)) -> foldl (reinsert keys next) m l = m ∪ removed_map l.
Proof.
  revert m. induction l as [|[i n] l IH]; intros m Hn Hd Hu; [unfold removed_map; cbn; by rewrite map_union_empty|].
  apply NoDup_cons in Hn as [Hi Hn]. destruct (Hd i) as [Hlt Hm]; [by left|].
  assert (m ∪ removed_map ((i, n) :: l) = <[i := n]> m ∪ removed_map l) as E.
  { unfold removed_map. cbn. by rewrite <- insert_union_r, insert_union_l. }
  rewrite E in Hu |- *. cbn [foldl]. unfold reinsert at 2. cbn [fst snd].
  rewrite (proj2 (Z.ltb_lt _ _) Hlt), Hm.
  rewrite (unique_fits _ _ (item n) _ Hu).
  - apply IH; [done| |done]. intros j Hj. destruct (Hd j) as [Hj1 Hj2]; [by right|]. split; [done|].
    rewrite lookup_insert_ne; [done|]. intros ->. done.
  - unfold rows_of. by rewrite lookup_fmap, lookup_union, lookup_insert_eq, union_Some_l.
  - apply rows_subseteq. etrans; [by apply insert_subseteq|apply map_union_subseteq_l].
Qed.

(** ** Invariants *)

Definition contents (u : index) : gmap Z V := rows_of (indices u).

Record table_ok (u : index) : Prop := {
  ids_below : forall i n, indices u !! i = Some n -> i < next_id u;
  clock_started : 0 <= monotonic_revision u;
  times_past : forall i n, indices u !! i = Some n -> mtime n <= monotonic_revision u;
  rows_unique : unique (contents u);
  removed_distinct : NoDup (removed_values u).*1;
  removed_gone : forall i, i ∈ (removed_values u).*1 -> indices u !! i = None /\ i < next_id u;
  addresses_distinct : NoDup (old_address <$> old_values u);
  addresses_used : forall a, a ∈ old_address <$> old_values u -> a < next_address u
}.

(** What the session on top of the stack has saved. *)
Abbreviation saved_values st u := (before old_address (old_values_end st) (old_values u)).
Abbreviation removed_rows st u := (before fst (removed_values_end st) (removed_values u)).

(** What undoing the top session gives, without the order of its steps. *)
Definition base (st : undo_state) (u : index) : gmap Z (node V) :=
  filter (fun p => p.1 < old_next_id st) (indices u) ∪ removed_map (removed_rows st u).
Definition restored (st : undo_state) (u : index) : gmap Z (node V) := overlay (saved_values st u) (base st u).

Record session_ok (st : undo_state) (u : index) : Prop := {
  so_next : old_next_id st <= next_id u;
  so_ctime : ctime st <= monotonic_revision u;
  so_old_end : points old_address (old_values_end st) (old_values u);
  so_removed_end : points fst (removed_values_end st) (removed_values u);
  so_removed : forall i n, (i, n) ∈ removed_rows st u -> i < old_next_id st;
  so_saved : Forall (fun o => old_mtime o < ctime st /\ current o < old_next_id st /\
                       (is_Some (indices u !! current o) \/ current o ∈ (removed_rows st u).*1)) (saved_values st u);
  so_once : NoDup (current <$> saved_values st u);
  so_touched : forall i n, indices u !! i = Some n \/ (i, n) ∈ removed_rows st u ->
    ctime st <= mtime n <-> old_next_id st <= i \/ i ∈ current <$> saved_values st u;
  so_unique : unique (rows_of (restored st u))
}.

Lemma removed_rows_distinct st u : table_ok u -> NoDup (removed_rows st u).*1.
Proof.
  intros Ht. pose proof (removed_distinct _ Ht) as H.
  rewrite <- (before_from fst (removed_values_end st) (removed_values u)), fmap_app in H.
  by apply NoDup_app in H as [H _].
Qed.
Lemma removed_rows_gone st u i : table_ok u -> i ∈ (removed_rows st u).*1 -> indices u !! i = None.
Proof.
  intros Ht Hi. apply (removed_gone _ Ht).
  rewrite <- (before_from fst (removed_values_end st) (removed_values u)), fmap_app.
  apply elem_of_app. by left.
Qed.

(** [undo] in one step. *)
Lemma undo_eq st stack u :
  undo_stack u = st :: stack -> table_ok u -> session_ok st u ->
  undo keys u = mk_index (restored st u) stack (from old_address (old_values_end st) (old_values u))
    (from fst (removed_values_end st) (removed_values u)) (old_next_id st) (revision u - 1)
    (monotonic_revision u) (next_address u).
Proof.
  intros Hst Ht Hs. unfold undo. rewrite Hst.
  pose proof (restore_all (ctime st) (saved_values st u)
    (filter (fun p => p.1 < old_next_id st) (indices u)) (removed_rows st u)) as H.
  destruct (foldl (restore _) _ _) as [m l]. destruct H as (H1 & H2 & H3).
  - eapply Forall_impl; [apply Hs|]. by intros o (H & _).
  - by apply removed_rows_distinct.
  - intros i Hi. apply map_lookup_filter_None. left. by eapply removed_rows_gone.
  - f_equal. pose proof (so_unique _ _ Hs) as Hu. unfold restored, base in *. rewrite <- H1 in Hu |- *.
    apply reinsert_all; [| |done].
    + rewrite H2. by apply removed_rows_distinct.
    + intros i Hi. split; [|by apply H3]. rewrite H2 in Hi.
      apply list_elem_of_fmap in Hi as ([j n] & -> & Hj). by apply (so_removed _ _ Hs j n).
Qed.

(** Counters that only grow. *)
Definition bump (u : index) (mono addr : Z) : index :=
  mk_index (indices u) (undo_stack u) (old_values u) (removed_values u) (next_id u) (revision u) mono addr.

Lemma undo_bump u a b : undo_stack u <> [] -> undo keys (bump u a b) = bump (undo keys u) a b.
Proof. unfold undo. cbn. destruct (undo_stack u) as [|st l]; [done|]. intros _. by destruct (foldl _ _ _). Qed.

Lemma table_ok_bump u a b :
  table_ok u -> monotonic_revision u <= a -> next_address u <= b -> table_ok (bump u a b).
Proof.
  intros Ht Ha Hb. split; cbn; try apply Ht.
  - pose proof (clock_started _ Ht). lia.
  - intros i n H. pose proof (times_past _ Ht _ _ H). lia.
  - intros x H. pose proof (addresses_used _ Ht _ H). lia.
Qed.
Lemma session_ok_bump st u a b : session_ok st u -> monotonic_revision u <= a -> session_ok st (bump u a b).
Proof. intros Hs Ha. split; cbn; try apply Hs. pose proof (so_ctime _ _ Hs). lia. Qed.

(** The stack stands for snapshots: undoing reaches them one by one. *)
Inductive good : index -> list (gmap Z V * Z) -> Prop :=
  | good_bottom u : undo_stack u = [] -> table_ok u -> good u []
  | good_session u st stack snaps : undo_stack u = st :: stack -> table_ok u -> session_ok st u ->
      good (undo keys u) snaps -> good u ((contents (undo keys u), next_id (undo keys u)) :: snaps).

Lemma good_table u l : good u l -> table_ok u.
Proof. by destruct 1. Qed.
Lemma good_length u l : good u l -> length l = length (undo_stack u).
Proof.
  induction 1 as [u Hu _|u st stack snaps Hu Ht Hs _ IH]; rewrite Hu; [done|]. cbn. rewrite IH.
  by rewrite (undo_eq _ _ _ Hu Ht Hs).
Qed.

Lemma good_bump u l a b :
  good u l -> monotonic_revision u <= a -> next_address u <= b -> good (bump u a b) l.
Proof.
  intros Hg. revert a b. induction Hg as [u Hu Ht|u st stack snaps Hu Ht Hs _ IH]; intros a b Ha Hb.
  - constructor; [done|by apply table_ok_bump].
  - assert (undo_stack u <> []) as Hn by (by rewrite Hu).
    rewrite (undo_eq _ _ _ Hu Ht Hs) in IH. pose proof (undo_bump u a b Hn) as E.
    rewrite (undo_eq _ _ _ Hu Ht Hs) in E |- *. specialize (IH a b Ha Hb).
    pose proof (good_session (bump u a b) st stack snaps) as G. rewrite E in G. cbn in G |- *. apply G; try done.
    + by apply table_ok_bump.
    + by apply session_ok_bump.
Qed.

(** A change of the table that leaves what the session restores. *)
Lemma good_step u u' st stack l :
  good u l -> undo_stack u = st :: stack -> undo_stack u' = st :: stack -> table_ok u' -> session_ok st u' ->
  restored st u' = restored st u -> revision u' = revision u ->
  from old_address (old_values_end st) (old_values u') = from old_address (old_values_end st) (old_values u) ->
  from fst (removed_values_end st) (removed_values u') = from fst (removed_values_end st) (removed_values u) ->
  monotonic_revision u <= monotonic_revision u' -> next_address u <= next_address u' -> good u' l.
Proof.
  intros Hg Hu Hu' Ht' Hs' Hr Hrev Hf1 Hf2 Hm Ha. destruct Hg as [u H|u st0 stack0 snaps H Ht Hs Hg]; [congruence|].
  rewrite Hu in H. injection H as <- <-.
  assert (undo keys u' = bump (undo keys u) (monotonic_revision u') (next_address u')) as E.
  { rewrite (undo_eq _ _ _ Hu Ht Hs), (undo_eq _ _ _ Hu' Ht' Hs'), Hr, Hrev, Hf1, Hf2. done. }
  pose proof (good_session u' st stack snaps Hu' Ht' Hs') as G. rewrite E in G. apply G.
  apply good_bump; [done| |]; rewrite (undo_eq _ _ _ Hu Ht Hs); done.
Qed.

(** ** Each operation *)

(** The index and the table with snapshots agree. *)
Record sim (u : index) (d : snapshots V) : Prop := {
  sim_rows : contents u = rows d;
  sim_next : next_id u = snap_next d;
  sim_revision : revision u = snap_revision d;
  sim_saved : good u (saved d)
}.
Definition rsim (r : result index) (r' : result (snapshots V)) : Prop :=
  match r, r' with Ok u, Ok d => sim u d | Err e, Err e' => e = e' | _, _ => False end.

Lemma good_session_ok u l st stack : good u l -> undo_stack u = st :: stack -> session_ok st u.
Proof. intros Hg Hu. destruct Hg as [u H|u st0 stack0 snaps H Ht Hs Hg]; congruence. Qed.

Lemma filter_new (m : gmap Z (node V)) k i n :
  k <= i -> filter (fun p => p.1 < k) (<[i := n]> m) = filter (fun p => p.1 < k) (delete i m).
Proof.
  intros H. apply map_eq. intros j. apply option_eq. intros x.
  rewrite !map_lookup_filter_Some, lookup_insert_Some, lookup_delete_Some. cbn. naive_solver lia.
Qed.

Lemma filter_gone (m : gmap Z (node V)) k i :
  k <= i -> filter (fun p => p.1 < k) (delete i m) = filter (fun p => p.1 < k) m.
Proof.
  intros H. apply map_eq. intros j. apply option_eq. intros x.
  rewrite !map_lookup_filter_Some, lookup_delete_Some. cbn. naive_solver lia.
Qed.

Lemma emplace_sim u d c : sim u d -> rsim (emplace keys u c) (snap_emplace keys d c).
Proof.
  intros [Hr Hn Hv Hg]. unfold emplace, snap_emplace. fold (contents u). rewrite Hr, Hn.
  destruct (fits _ _ _) eqn:Hf; cbn; [|done]. pose proof (good_table _ _ Hg) as Ht.
  set (n := mk_node (c (snap_next d)) _).
  assert (indices u !! snap_next d = None) as Hfresh.
  { destruct (indices u !! snap_next d) eqn:E; [|done]. apply (ids_below _ Ht) in E. lia. }
  assert (contents (u <| indices ::= <[snap_next d := n]> |>) = <[snap_next d := c (snap_next d)]> (rows d)) as Hc.
  { unfold contents, rows_of. cbn. by rewrite fmap_insert, <- Hr. }
  split; cbn; [exact Hc|lia|done|].
  set (u' := u <| indices ::= <[snap_next d := n]> |> <| next_id := snap_next d + 1 |>).
  assert (mtime n <= monotonic_revision u) as Hmt.
  { pose proof (clock_started _ Ht). subst n. cbn. by destruct (undo_stack u). }
  assert (table_ok u') as Ht'.
  { split; cbn; try apply Ht.
    - intros i x [(<- & <-)|(_ & H)]%lookup_insert_Some; [lia|]. apply (ids_below _ Ht) in H. lia.
    - intros i x [(<- & <-)|(_ & H)]%lookup_insert_Some; [done|]. by apply (times_past _ Ht) in H.
    - change (unique (contents (u <| indices ::= <[snap_next d := n]> |>))). rewrite Hc.
      apply unique_insert; [|done]. rewrite <- Hr. apply Ht.
    - intros i Hi. destruct (removed_gone _ Ht _ Hi) as [H1 H2]. split; [|lia].
      rewrite lookup_insert_ne; [done|lia]. }
  destruct (undo_stack u) as [|st stack] eqn:Hu.
  { inversion Hg; [|congruence]. by constructor. }
  pose proof (good_session_ok _ _ _ _ Hg Hu) as Hs.
  assert (restored st u' = restored st u) as Hres.
  { unfold restored, base. cbn. rewrite filter_new; [|pose proof (so_next _ _ Hs); lia]. by rewrite delete_id. }
  eapply (good_step u u'); try done; [|cbn; lia..].
  split; cbn; try apply Hs.
  - pose proof (so_next _ _ Hs). lia.
  - eapply Forall_impl; [apply Hs|]. intros o (H1 & H2 & H3). split; [done|]. split; [done|].
    destruct H3 as [H3|H3]; [left|by right]. rewrite lookup_insert. by destruct (decide _).
  - intros i x [[(<- & <-)|(_ & H)]%lookup_insert_Some|H]; [|by apply (so_touched _ _ Hs); left|
      by apply (so_touched _ _ Hs); right].
    subst n. cbn. pose proof (so_ctime _ _ Hs). pose proof (so_next _ _ Hs). split; [left|]; lia.
  - change (unique (rows_of (restored st u'))). rewrite Hres. apply Hs.
Qed.

Lemma contents_lookup u i : contents u !! i = item <$> indices u !! i.
Proof. unfold contents, rows_of. by rewrite lookup_fmap. Qed.

(** Saving a value first changes nothing that can be seen. *)
Lemma on_modify_sim u d i n :
  sim u d -> indices u !! i = Some n ->
  sim (on_modify u i n) d /\ exists n', indices (on_modify u i n) !! i = Some n' /\ item n' = item n /\
    forall st stack, undo_stack u = st :: stack -> ctime st <= mtime n'.
Proof.
  intros Hsim Hi. pose proof Hsim as [Hr Hn Hv Hg]. unfold on_modify.
  destruct (undo_stack u) as [|st stack] eqn:Hu; [by split; [|exists n]|].
  destruct (Z.leb_spec (ctime st) (mtime n)) as [Hm|Hm].
  { split; [done|]. exists n. split; [done|]. split; [done|]. by intros ?? [= <- <-]. }
  pose proof (good_table _ _ Hg) as Ht. pose proof (good_session_ok _ _ _ _ Hg Hu) as Hs.
  set (n' := mk_node (item n) (monotonic_revision u)).
  set (o := mk_old (next_address u) (item n) (mtime n) i).
  set (u' := u <| old_values ::= cons o |> <| next_address := next_address u + 1 |>
               <| indices ::= <[i := n']> |>).
  assert (contents u' = contents u) as Hc.
  { unfold contents, rows_of. cbn. rewrite fmap_insert. apply insert_id. by rewrite lookup_fmap, Hi. }
  assert (old_values_end st <> Some (next_address u)) as Hend.
  { intros E. pose proof (so_old_end _ _ Hs) as Hp. rewrite E in Hp. apply (addresses_used _ Ht) in Hp. lia. }
  assert (saved_values st u' = o :: saved_values st u) as Hsv by (by apply before_push).
  assert (i < old_next_id st /\ i ∉ current <$> saved_values st u) as [Hlt Hnew].
  { pose proof (so_touched _ _ Hs i n (or_introl Hi)) as Hto. split.
    - destruct (Z.lt_ge_cases i (old_next_id st)); [done|]. destruct Hto as [_ Hto]. specialize (Hto (or_introl H)). lia.
    - intros H. destruct Hto as [_ Hto]. specialize (Hto (or_intror H)). lia. }
  assert (table_ok u') as Ht'.
  { assert (indices u' = <[i := n']> (indices u)) as Ei by done.
    split; rewrite ?Ei; try apply Ht.
    - intros j x [(<- & <-)|(_ & H)]%lookup_insert_Some; by eapply (ids_below _ Ht).
    - intros j x [(<- & <-)|(_ & H)]%lookup_insert_Some; [done|]. by apply (times_past _ Ht) in H.
    - rewrite Hc. apply Ht.
    - intros j Hj. destruct (removed_gone _ Ht _ Hj) as [H1 H2]. split; [|done].
      rewrite lookup_insert_ne; [done|]. intros ->. congruence.
    - cbn. apply NoDup_cons. split; [|apply Ht]. intros H%(addresses_used _ Ht). lia.
    - cbn. intros a [->|H]%elem_of_cons; [lia|]. apply (addresses_used _ Ht) in H. lia. }
  assert (restored st u' = restored st u) as Hres.
  { unfold restored. rewrite Hsv, overlay_cons. f_equal. unfold base. cbn [old_item old_mtime current o].
    apply map_eq. intros j. rewrite lookup_alter, !lookup_union. cbn. destruct (decide (i = j)) as [<-|Hne].
    - rewrite !map_lookup_filter, lookup_insert_eq, Hi. cbn. rewrite !option_guard_True by done.
      rewrite !union_Some_l. cbn. by destruct n.
    - rewrite !map_lookup_filter, lookup_insert_ne by done. done. }
  split.
  - split; [by rewrite Hc|done|done|]. eapply (good_step u u'); try done; [|by apply from_push|cbn; lia..].
    split; rewrite ?Hsv; try apply Hs.
    + unfold points. cbn. destruct (old_values_end st) eqn:E; [|done]. right. pose proof (so_old_end _ _ Hs) as Hp. by rewrite E in Hp.
    + constructor.
      * cbn. split; [done|]. split; [done|]. left. cbn. by rewrite lookup_insert_eq.
      * eapply Forall_impl; [apply Hs|]. intros x (H1 & H2 & H3). split; [done|]. split; [done|].
        destruct H3 as [H3|H3]; [left|by right]. cbn. rewrite lookup_insert. by destruct (decide _).
    + cbn. apply NoDup_cons. split; [done|apply Hs].
    + intros j x Hj. rewrite fmap_cons, elem_of_cons. cbn [current o].
      destruct (decide (j = i)) as [->|Hne].
      * assert (mtime x = monotonic_revision u) as ->.
        { destruct Hj as [Hj|Hj]; [cbn in Hj; rewrite lookup_insert_eq in Hj; by injection Hj as <-|].
          exfalso. assert (indices u !! i = None); [|congruence]. eapply removed_rows_gone; [done|].
          apply list_elem_of_fmap. by exists (i, x). }
        pose proof (so_ctime _ _ Hs). split; [|lia]. intros _. right. by left.
      * assert (indices u !! j = Some x \/ (j, x) ∈ removed_rows st u) as Hj'.
        { destruct Hj as [Hj|Hj]; [left; cbn in Hj; by rewrite lookup_insert_ne in Hj|by right]. }
        pose proof (so_touched _ _ Hs j x Hj') as Hto. rewrite Hto. naive_solver.
    + change (unique (rows_of (restored st u'))). rewrite Hres. apply Hs.
  - exists n'. split; [apply lookup_insert_eq|]. split; [done|]. intros ?? [= <- <-]. apply Hs.
Qed.

(** Overwriting a row the session has already saved. *)
Lemma overwrite_sim u d i n v :
  sim u d -> indices u !! i = Some n -> fits (rows d) i v = true ->
  (forall st stack, undo_stack u = st :: stack -> ctime st <= mtime n) ->
  sim (u <| indices ::= alter (fun n => mk_node v (mtime n)) i |>)
      (mk_snap (<[i := v]> (rows d)) (snap_next d) (saved d) (snap_revision d)).
Proof.
  intros [Hr Hn Hv Hg] Hi Hf Hm. set (u' := u <| indices ::= _ |>).
  assert (indices u' = <[i := mk_node v (mtime n)]> (indices u)) as Ei.
  { cbn. by rewrite alter_alt, Hi. }
  assert (contents u' = <[i := v]> (rows d)) as Hc.
  { unfold contents, rows_of. by rewrite Ei, fmap_insert, <- Hr. }
  pose proof (good_table _ _ Hg) as Ht.
  assert (table_ok u') as Ht'.
  { split; rewrite ?Ei; try apply Ht.
    - intros j x [(<- & <-)|(_ & H)]%lookup_insert_Some; by eapply (ids_below _ Ht).
    - intros j x [(<- & <-)|(_ & H)]%lookup_insert_Some; [apply (times_past _ Ht i n Hi)|by eapply (times_past _ Ht)].
    - rewrite Hc. apply unique_insert; [|done]. rewrite <- Hr. apply Ht.
    - intros j Hj. destruct (removed_gone _ Ht _ Hj) as [H1 H2]. split; [|done].
      rewrite lookup_insert_ne; [done|]. intros ->. congruence. }
  split; [done|done|done|]. destruct (undo_stack u) as [|st stack] eqn:Hu.
  { inversion Hg; [|congruence]. by constructor. }
  pose proof (good_session_ok _ _ _ _ Hg Hu) as Hs. specialize (Hm _ _ eq_refl).
  pose proof (so_touched _ _ Hs i n (or_introl Hi)) as Hto.
  assert (restored st u' = restored st u) as Hres.
  { unfold restored, base. rewrite Ei. destruct Hto as [[Hge|Hin] _]; [done| |].
    - cbn. by rewrite filter_new, filter_gone by done.
    - transitivity (overlay (saved_values st u) (alter (fun n => mk_node v (mtime n)) i (base st u)));
        [|by apply overlay_alter].
      change (saved_values st u') with (saved_values st u). apply (f_equal (overlay _)).
      change (removed_rows st u') with (removed_rows st u). unfold base.
      apply map_eq. intros j. rewrite lookup_alter, !lookup_union, !map_lookup_filter. destruct (decide (i = j)) as [<-|Hne].
      + rewrite lookup_insert_eq, Hi. cbn. pose proof (so_saved _ _ Hs) as Hsv. rewrite Forall_forall in Hsv.
        apply list_elem_of_fmap in Hin as (o & -> & Ho). destruct (Hsv o Ho) as (_ & Hlt & _).
        rewrite !option_guard_True by done. by rewrite !union_Some_l.
      + by rewrite lookup_insert_ne. }
  eapply (good_step u u'); try done; [|cbn; lia..].
  split; try apply Hs.
  - eapply Forall_impl; [apply Hs|]. intros o (H1 & H2 & H3). split; [done|]. split; [done|].
    destruct H3 as [H3|H3]; [left|by right]. rewrite Ei, lookup_insert. by destruct (decide _).
  - intros j x [Hj|Hj]; [|by apply (so_touched _ _ Hs); right]. rewrite Ei in Hj.
    apply lookup_insert_Some in Hj as [(<- & <-)|(_ & Hj)]; [done|]. apply (so_touched _ _ Hs). by left.
  - rewrite Hres. apply Hs.
Qed.

Lemma modify_sim u d i m : sim u d -> rsim (modify keys u i m) (snap_modify keys d i m).
Proof.
  intros Hsim. unfold modify, snap_modify. rewrite <- (sim_rows _ _ Hsim), contents_lookup.
  destruct (indices u !! i) as [n|] eqn:Hi; cbn; [|done].
  destruct (on_modify_sim _ _ _ _ Hsim Hi) as (Hsim' & n' & Hi' & Hit & Hm).
  fold (contents (on_modify u i n)). rewrite (sim_rows _ _ Hsim'), (sim_rows _ _ Hsim).
  destruct (fits _ _ _) eqn:Hf; cbn; [|done]. apply (overwrite_sim _ _ _ n'); try done.
  intros st stack. unfold on_modify. destruct (undo_stack u) as [|st0 stack0] eqn:Hu; [by rewrite Hu|].
  intros H. apply (Hm st stack). revert H. destruct (_ <=? _); cbn; congruence.
Qed.

Lemma remove_sim u d i : sim u d -> rsim (remove u i) (snap_remove d i).
Proof.
  intros [Hr Hn Hv Hg]. unfold remove, snap_remove. rewrite <- Hr, contents_lookup.
  destruct (indices u !! i) as [n|] eqn:Hi; cbn; [|done]. pose proof (good_table _ _ Hg) as Ht.
  assert (forall u', indices u' = delete i (indices u) -> contents u' = delete i (contents u)) as Hc.
  { intros u' E. unfold contents, rows_of. by rewrite E, fmap_delete. }
  assert (forall u', indices u' = delete i (indices u) -> next_id u' = next_id u ->
    monotonic_revision u' = monotonic_revision u -> old_values u' = old_values u ->
    next_address u' = next_address u ->
    removed_values u' = removed_values u \/ removed_values u' = (i, n) :: removed_values u -> table_ok u') as Hok.
  { intros u' E1 E2 E3 E4 E5 E6. split; rewrite ?E1, ?E2, ?E3, ?E4, ?E5; try apply Ht.
    - intros j x [_ H]%lookup_delete_Some. by apply (ids_below _ Ht) in H.
    - intros j x [_ H]%lookup_delete_Some. by apply (times_past _ Ht) in H.
    - rewrite Hc by done. eapply unique_subseteq; [apply delete_subseteq|apply Ht].
    - destruct E6 as [-> | ->]; [apply Ht|]. cbn. apply NoDup_cons. split; [|apply Ht].
      intros H%(removed_gone _ Ht). destruct H. congruence.
    - intros j Hj. assert (j = i \/ j ∈ (removed_values u).*1) as [->|H].
      { destruct E6 as [E | E]; rewrite E in Hj; [by right|]. by apply elem_of_cons in Hj. }
      + split; [apply lookup_delete_eq|by apply (ids_below _ Ht) in Hi].
      + destruct (removed_gone _ Ht _ H). split; [|done]. by apply lookup_delete_None; right. }
  destruct (undo_stack u) as [|st stack] eqn:Hu.
  { split; try done; [by rewrite Hc|]. inversion Hg; [|congruence]. constructor; [done|]. apply Hok; auto. }
  pose proof (good_session_ok _ _ _ _ Hg Hu) as Hs.
  pose proof (so_touched _ _ Hs i n (or_introl Hi)) as Hto.
  destruct (Z.leb_spec (old_next_id st) i) as [Hge|Hlt].
  - set (u' := u <| indices ::= delete i |>).
    assert (restored st u' = restored st u) as Hres.
    { unfold restored, base. cbn. by rewrite filter_gone by done. }
    split; try done; [by rewrite Hc|]. eapply (good_step u u'); try done; [apply Hok; auto|].
    split; try apply Hs.
    + pose proof (so_saved _ _ Hs) as Hsv. rewrite Forall_forall in Hsv |- *. intros o Ho.
      destruct (Hsv o Ho) as (H1 & H2 & H3). split; [done|]. split; [done|].
      destruct H3 as [H3|H3]; [left|by right]. cbn. rewrite lookup_delete_ne; [done|]. intros ->. lia.
    + intros j x [Hj|Hj]; [|by apply (so_touched _ _ Hs); right]. cbn in Hj.
      apply lookup_delete_Some in Hj as [_ Hj]. apply (so_touched _ _ Hs). by left.
    + rewrite Hres. apply Hs.
  - set (u' := u <| indices ::= delete i |> <| removed_values ::= cons (i, n) |>).
    assert (removed_values_end st <> Some i) as Hend.
    { intros E. pose proof (so_removed_end _ _ Hs) as Hp. rewrite E in Hp.
      apply (removed_gone _ Ht) in Hp as [Hp _]. congruence. }
    assert (removed_rows st u' = (i, n) :: removed_rows st u) as Hrr by (by apply before_push).
    assert (restored st u' = restored st u) as Hres.
    { unfold restored. change (saved_values st u') with (saved_values st u). f_equal. unfold base. rewrite Hrr.
      assert (removed_map (removed_rows st u) !! i = None) as Hni.
      { apply not_elem_of_list_to_map_1. intros H. apply (removed_rows_gone _ _ _ Ht) in H. congruence. }
      unfold removed_map in *. cbn. apply map_eq. intros j. rewrite !lookup_union, !map_lookup_filter.
      destruct (decide (i = j)) as [<-|Hne].
      - rewrite lookup_delete_eq, Hi, lookup_insert_eq. cbn. rewrite option_guard_True by done. by rewrite union_Some_l.
      - by rewrite lookup_delete_ne, lookup_insert_ne. }
    split; try done; [by rewrite Hc|]. eapply (good_step u u'); try done; [apply Hok; auto| |by apply from_push].
    split; rewrite ?Hrr; try apply Hs.
    + unfold points. cbn. destruct (removed_values_end st) eqn:E; [|done]. right.
      pose proof (so_removed_end _ _ Hs) as Hp. by rewrite E in Hp.
    + intros j x [[= -> ->]|H]%elem_of_cons; [done|]. by eapply (so_removed _ _ Hs).
    + eapply Forall_impl; [apply Hs|]. intros o (H1 & H2 & H3). split; [done|]. split; [done|]. cbn.
      destruct (decide (current o = i)) as [->|Hne]; [right; by left|].
      rewrite lookup_delete_ne by done. destruct H3 as [H3|H3]; [by left|right; by right].
    + intros j x Hj. apply (so_touched _ _ Hs). cbn [u' indices set_field set_indices set_removed_values] in Hj.
      destruct Hj as [[_ Hj]%lookup_delete_Some|Hj]; [by left|].
      apply elem_of_cons in Hj as [[= -> ->]|Hj]; [by left|by right].
    + rewrite Hres. apply Hs.
Qed.

Lemma start_sim u d : sim u d -> sim (add_session u) (snap_start d).
Proof.
  intros [Hr Hn Hv Hg]. pose proof (good_table _ _ Hg) as Ht. set (u' := add_session u).
  set (st := mk_state (old_address <$> head (old_values u)) (fst <$> head (removed_values u)) (next_id u)
               (monotonic_revision u + 1)).
  destruct (segments_head old_address (old_values u)) as [Ho1 Ho2].
  destruct (segments_head fst (removed_values u)) as [Hr1 Hr2].
  assert (restored st u' = indices u) as Hres.
  { unfold restored, base. cbn. rewrite Ho1, Hr1. cbn. unfold removed_map. cbn. rewrite map_union_empty.
    apply map_eq. intros j. apply option_eq. intros x. rewrite map_lookup_filter_Some. cbn.
    split; [by intros [? _]|]. intros H. split; [done|]. by apply (ids_below _ Ht) in H. }
  assert (table_ok u') as Ht'.
  { split; cbn; try apply Ht; [pose proof (clock_started _ Ht); lia|].
    intros i n H%(times_past _ Ht). lia. }
  assert (unique (rows_of (restored st u'))) as Huq by (rewrite Hres; apply Ht).
  assert (session_ok st u') as Hs.
  { split; cbn; rewrite ?Ho1, ?Hr1; try done; try lia.
    - by destruct (old_values u); cbn; [|left].
    - by destruct (removed_values u); cbn; [|left].
    - intros i n H. by apply not_elem_of_nil in H.
    - constructor.
    - intros i n [H|H]; [|by apply not_elem_of_nil in H].
      pose proof (ids_below _ Ht _ _ H). pose proof (times_past _ Ht _ _ H).
      split; [lia|]. intros [?|?%not_elem_of_nil]; [lia|done].
    - revert Huq. unfold restored, base. cbn. by rewrite Ho1, Hr1. }
  split; [done|done|cbn; lia|].
  pose proof (good_session u' st (undo_stack u) (saved d) eq_refl Ht' Hs) as G.
  assert (undo keys u' = bump u (monotonic_revision u + 1) (next_address u)) as E.
  { rewrite (undo_eq st (undo_stack u)) by done. rewrite Hres. cbn. rewrite Ho2, Hr2. unfold bump. f_equal. lia. }
  rewrite E in G. cbn. rewrite <- Hr, <- Hn. apply G. apply good_bump; [done|lia|done].
Qed.

Lemma undo_sim u d : sim u d -> sim (undo keys u) (snap_undo d).
Proof.
  intros [Hr Hn Hv Hg]. destruct d as [rs nx sv rv]. cbn in *.
  destruct Hg as [u Hu Ht|u st stack snaps Hu Ht Hs Hg].
  - unfold undo, snap_undo. cbn. rewrite Hu. split; [done|done|done|]. by constructor.
  - cbn. split; [done|done| |done]. cbn. rewrite (undo_eq _ _ _ Hu Ht Hs). cbn. by rewrite Hv.
Qed.

(** Dropping the oldest sessions. *)
Definition trim (iter : undo_state) (k : nat) (u : index) : index :=
  u <| old_values ::= keep_end old_address (old_values_end iter) |>
    <| removed_values ::= keep_end fst (removed_values_end iter) |> <| undo_stack ::= take k |>.

Lemma keep_end_sublist {A} (address : A -> Z) stop l : keep_end address stop l `sublist_of` l.
Proof.
  unfold keep_end. rewrite <- (before_from address stop l) at 3. apply sublist_app; [done|]. apply sublist_take.
Qed.

(** The lists of a table without sessions may shrink. *)
Lemma table_ok_lists u stack os rs :
  table_ok u -> os `sublist_of` old_values u -> rs `sublist_of` removed_values u ->
  table_ok (mk_index (indices u) stack os rs (next_id u) (revision u) (monotonic_revision u) (next_address u)).
Proof.
  intros Ht Ho Hr. apply (fmap_sublist old_address) in Ho. apply (fmap_sublist fst) in Hr.
  split; cbn; try apply Ht.
  - eapply sublist_NoDup; [exact (removed_distinct _ Ht)|exact Hr].
  - intros i Hi. apply (removed_gone _ Ht). by eapply sublist_subseteq.
  - eapply sublist_NoDup; [exact (addresses_distinct _ Ht)|exact Ho].
  - intros a Ha. apply (addresses_used _ Ht). by eapply sublist_subseteq.
Qed.

Lemma good_points u l k iter :
  good u l -> undo_stack u !! k = Some iter ->
  points old_address (old_values_end iter) (old_values u) /\
  points fst (removed_values_end iter) (removed_values u).
Proof.
  intros Hg. revert k. induction Hg as [u Hu _|u st stack snaps Hu Ht Hs _ IH]; intros k; rewrite Hu.
  - by rewrite lookup_nil.
  - destruct k as [|k]; cbn; [intros [= <-]; split; apply Hs|]. intros Hk.
    rewrite (undo_eq _ _ _ Hu Ht Hs) in IH. destruct (IH k Hk) as [H1 H2]. cbn in H1, H2.
    assert (forall A (ad : A -> Z) stop stop' (l : list A), points ad stop (from ad stop' l) -> points ad stop l) as Hp.
    { intros A ad stop stop' l H. destruct stop; [|done]. unfold points in *.
      rewrite <- (before_from ad stop' l), fmap_app. apply elem_of_app. by right. }
    split; by eapply Hp.
Qed.

(** A session whose segments survive the trimming is as good as before. *)
Lemma trim_session st stack u iter k :
  undo_stack u = st :: stack -> table_ok u -> session_ok st u ->
  before old_address (old_values_end st) (keep_end old_address (old_values_end iter) (old_values u))
    = saved_values st u ->
  before fst (removed_values_end st) (keep_end fst (removed_values_end iter) (removed_values u))
    = removed_rows st u ->
  head (from old_address (old_values_end st) (keep_end old_address (old_values_end iter) (old_values u)))
    = head (from old_address (old_values_end st) (old_values u)) ->
  head (from fst (removed_values_end st) (keep_end fst (removed_values_end iter) (removed_values u)))
    = head (from fst (removed_values_end st) (removed_values u)) ->
  table_ok (trim iter k u) /\ session_ok st (trim iter k u) /\ restored st (trim iter k u) = restored st u.
Proof.
  intros Hu Ht Hs E1 E2 F1 F2.
  assert (table_ok (trim iter k u)) as Ht'.
  { exact (table_ok_lists u _ _ _ Ht (keep_end_sublist _ _ _) (keep_end_sublist _ _ _)). }
  assert (restored st (trim iter k u) = restored st u) as Hres.
  { change (restored st (trim iter k u)) with
      (overlay (before old_address (old_values_end st) (keep_end old_address (old_values_end iter) (old_values u)))
         (filter (fun p => p.1 < old_next_id st) (indices u) ∪
          removed_map (before fst (removed_values_end st)
                         (keep_end fst (removed_values_end iter) (removed_values u))))).
    by rewrite E1, E2. }
  split; [done|]. split; [|done].
  assert (saved_values st (trim iter k u) = saved_values st u) as G1 by exact E1.
  assert (removed_rows st (trim iter k u) = removed_rows st u) as G2 by exact E2.
  split; rewrite ?G1, ?G2; try apply Hs.
  - apply points_head. change (old_values (trim iter k u)) with (keep_end old_address (old_values_end iter) (old_values u)).
    rewrite F1. apply points_head, Hs.
  - apply points_head.
    change (removed_values (trim iter k u)) with (keep_end fst (removed_values_end iter) (removed_values u)).
    rewrite F2. apply points_head, Hs.
  - rewrite Hres. apply Hs.
Qed.

Lemma good_trim k u l iter :
  good u l -> undo_stack u !! k = Some iter -> good (trim iter (S k) u) (take (S k) l).
Proof.
  intros Hg. revert k. induction Hg as [u Hu _|u st stack snaps Hu Ht Hs Hg IH]; intros k Hk; rewrite Hu in Hk.
  { by rewrite lookup_nil in Hk. }
  assert (undo_stack (trim iter (S k) u) = st :: take k stack) as Hu' by (cbn; by rewrite Hu).
  destruct k as [|k].
  - injection Hk as <-. destruct (keep_end_self old_address (old_values_end st) (old_values u)) as [E1 F1].
    destruct (keep_end_self fst (removed_values_end st) (removed_values u)) as [E2 F2].
    assert (forall A (l : list A), head (take 1 l) = head l) as Hh by (by intros A [|]).
    destruct (trim_session st stack u st 1 Hu Ht Hs E1 E2) as (Ht' & Hs' & Hres);
      [by rewrite F1, Hh|by rewrite F2, Hh|].
    pose proof (good_session _ st [] [] Hu' Ht' Hs') as G. cbn [take].
    rewrite (undo_eq _ _ _ Hu' Ht' Hs'), Hres in G. rewrite (undo_eq _ _ _ Hu Ht Hs) in Hg |- *.
    apply G. constructor; [done|]. apply good_table in Hg.
    assert (from old_address (old_values_end st) (old_values (trim st 1 u))
            = take 1 (from old_address (old_values_end st) (old_values u))) as -> by exact F1.
    assert (from fst (removed_values_end st) (removed_values (trim st 1 u))
            = take 1 (from fst (removed_values_end st) (removed_values u))) as -> by exact F2.
    exact (table_ok_lists _ [] _ _ Hg (sublist_take _ _) (sublist_take _ _)).
  - rewrite (undo_eq _ _ _ Hu Ht Hs) in Hg, IH. destruct (good_points _ _ _ _ Hg Hk) as [P1 P2]. cbn in P1, P2.
    destruct (keep_end_below old_address (old_values_end st) (old_values_end iter) (old_values u)) as [E1 F1];
      [apply Ht|done|].
    destruct (keep_end_below fst (removed_values_end st) (removed_values_end iter) (removed_values u)) as [E2 F2];
      [apply Ht|done|].
    destruct (trim_session st stack u iter (S (S k)) Hu Ht Hs E1 E2) as (Ht' & Hs' & Hres);
      [by rewrite F1, head_keep_end|by rewrite F2, head_keep_end|].
    pose proof (good_session _ st _ (take (S k) snaps) Hu' Ht' Hs') as G. specialize (IH k Hk).
    rewrite (undo_eq _ _ _ Hu' Ht' Hs'), Hres in G. rewrite (undo_eq _ _ _ Hu Ht Hs). apply G.
    assert (from old_address (old_values_end st) (old_values (trim iter (S (S k)) u))
            = keep_end old_address (old_values_end iter) (from old_address (old_values_end st) (old_values u))) as ->
      by exact F1.
    assert (from fst (removed_values_end st) (removed_values (trim iter (S (S k)) u))
            = keep_end fst (removed_values_end iter) (from fst (removed_values_end st) (removed_values u))) as ->
      by exact F2.
    exact IH.
Qed.

Lemma commit_sim u d r : sim u d -> sim (commit u r) (snap_commit d r).
Proof.
  intros [Hr Hn Hv Hg]. unfold commit, snap_commit. rewrite <- Hv. pose proof (good_length _ _ Hg) as Hl.
  destruct (Z.eqb_spec (Z.min r (revision u)) (revision u)) as [He|He].
  - rewrite (proj2 (Z.leb_le _ _)) by lia. cbn [orb]. replace (Z.to_nat (revision u - r)) with 0%nat by lia.
    split; [done|done|done|]. constructor; [done|].
    exact (table_ok_lists u [] [] [] (good_table _ _ Hg) (sublist_nil_l _) (sublist_nil_l _)).
  - replace (Z.min r (revision u)) with r by lia. rewrite (proj2 (Z.leb_gt _ _)) by lia. cbn [orb]. rewrite Hl.
    destruct (Z.ltb_spec (revision u - r) (Z.of_nat (length (undo_stack u)))) as [Hlt|Hge].
    + destruct (Z.to_nat (revision u - r)) as [|k] eqn:Ek; [lia|].
      destruct (lookup_lt_is_Some_2 (undo_stack u) k) as [iter Hk]; [lia|].
      assert (last (take (S k) (undo_stack u)) = Some iter) as ->.
      { rewrite (take_S_r _ _ _ Hk). by rewrite last_snoc. }
      split; [done|done|done|]. assert (trim iter (S k) u = u <| old_values ::= keep_end old_address (old_values_end iter) |>
        <| removed_values ::= keep_end fst (removed_values_end iter) |> <| undo_stack := take (S k) (undo_stack u) |>) as <- by done.
      by apply good_trim.
    + by split.
Qed.

Lemma set_revision_sim u d r : sim u d -> rsim (set_revision u r) (snap_set_revision d r).
Proof.
  intros [Hr Hn Hv Hg]. unfold set_revision, snap_set_revision. rewrite <- Hv. pose proof (good_length _ _ Hg) as Hl.
  assert (bool_decide (undo_stack u = []) = bool_decide (saved d = [])) as ->.
  { apply bool_decide_ext. rewrite <- !length_zero_iff_nil. lia. }
  case_bool_decide as Hs; cbn; [|done]. destruct (r <=? _); cbn; [|done]. destruct (_ <=? r); cbn; [|done].
  split; [done|done|done|]. cbn. rewrite Hs in *. destruct (undo_stack u) as [|] eqn:E; [|done].
  constructor; [done|]. destruct (good_table _ _ Hg). by split.
Qed.

Lemma run_sim u d o : sim u d -> rsim (run_index keys u o) (run_snap keys d o).
Proof.
  intros H. destruct o; cbn [run_index run_snap]; [by apply emplace_sim|by apply modify_sim|by apply remove_sim| | | |
    by apply set_revision_sim]; cbn; [by apply start_sim|by apply undo_sim|by apply commit_sim].
Qed.

Lemma empty_sim : sim empty_index (empty_snap (V := V)).
Proof.
  assert (forall i (n : node V), indices empty_index !! i <> Some n) as He
    by (intros i n; cbn; by rewrite lookup_empty).
  split; [by apply fmap_empty|done|done|]. constructor; [done|]. split.
  - intros i n H. by apply He in H.
  - done.
  - intros i n H. by apply He in H.
  - unfold contents, rows_of. cbn. rewrite fmap_empty. apply unique_empty.
  - constructor.
  - by intros i ?%not_elem_of_nil.
  - constructor.
  - by intros i ?%not_elem_of_nil.
Qed.

Lemma run_all_sim os u d : sim u d -> rsim (foldM (run_index keys) os u) (foldM (run_snap keys) os d).
Proof.
  revert u d. induction os as [|o os IH]; intros u d H; cbn [foldM]; [done|].
  pose proof (run_sim u d o H) as Ho. destruct (run_index keys u o), (run_snap keys d o); cbn in *; try done.
  by apply IH.
Qed.

End refinement.

(** What can be seen of an index. *)
Definition observe {V} (u : undo_index V) : gmap Z V * Z * Z := (rows_of (indices u), next_id u, revision u).
Definition observe_snap {V} (d : snapshots V) : gmap Z V * Z * Z := (rows d, snap_next d, snap_revision d).

(** C3: the undo index is a table with snapshots.  Whatever sequence of
    insertions, modifications, removals, sessions, undos, commits and changes
    of the revision a client makes, the index and a table that simply copies
    itself at every session show the same rows, the same next id and the same
    revision, and fail at the same operation with the same error. *)
Theorem undo_index_is_snapshots {V K : Type} `{EqDecision K} (keys : Z -> V -> list K) (ops : list (op V)) :
  (observe <$> foldM (run_index keys) ops empty_index) = (observe_snap <$> foldM (run_snap keys) ops empty_snap).
Proof.
  pose proof (run_all_sim keys ops _ _ (empty_sim keys)) as H. unfold rsim in H.
  destruct (foldM (run_index keys) ops empty_index), (foldM (run_snap keys) ops empty_snap); cbn; try done.
  - unfold observe, observe_snap. destruct H as [Hr Hn Hv _]. unfold contents in Hr. by rewrite Hr, Hn, Hv.
  - by rewrite H.
Qed.

End UndoRefinement.
