(* ===== verification/BlockLog.v ===== *)
(** The log of blocks of the history node
    ([libraries/clchain/include/clchain/subchain.hpp]): a chain without gaps
    whose end can be replaced by a fork down to the last irreversible block. *)
From S2P Require Import Prelude.
Open Scope string_scope.
Open Scope list_scope.
Open Scope Z_scope.

Module BlockLog.

Section log.
(** What a block carries. *)
Context {T : Type}.

Record eosio_block : Type := mk_eosio {
  eosio_num : Z; eosio_id : Z; eosio_previous : Z; timestamp : Z; transactions : list T }.
Record block_with_id : Type := mk_block {
  num : Z; previous : Z; eosioBlock : eosio_block; id : Z }.

Inductive status : Type := appended | duplicate | unlinkable.

Record block_log : Type := mk_log { blocks : list block_with_id; irreversible : Z }.
Definition empty_log : block_log := mk_log [] 0.

(** ** Lookup: positions stand for iterators, the length for [end()]. *)

Definition lower_bound_by_num (l : list block_with_id) (n : Z) : nat :=
  match l with
  | [] => 0
  | b :: _ =>
      if n <=? num b then 0
      else if n - num b <? Z.of_nat (length l) then Z.to_nat (n - num b)
      else length l
  end.
Definition upper_bound_by_num (l : list block_with_id) (n : Z) : nat :=
  if n =? 2 ^ 32 - 1 then length l else lower_bound_by_num l (wrap 32 (n + 1)).

(** [std::lower_bound]: bisection of the range of a given length. *)
Fixpoint bisect {A} (fuel : nat) (less : A -> bool) (l : list A) (first len : nat) : nat :=
  match fuel, len with
  | S fuel', S _ =>
      let half := Nat.div len 2 in
      match l !! (first + half)%nat with
      | Some x => if less x then bisect fuel' less l (first + half + 1) (len - half - 1)
                  else bisect fuel' less l first half
      | None => first
      end
  | _, _ => first
  end.
Definition lower_bound {A} (less : A -> bool) (l : list A) : nat :=
  bisect (S (length l)) less l 0 (length l).
Definition lower_bound_by_eosio_num (l : list block_with_id) (n : Z) : nat :=
  lower_bound (fun b => eosio_num (eosioBlock b) <? n) l.

Definition head (l : list block_with_id) : option block_with_id := last l.
Definition block_by_num (l : list block_with_id) (n : Z) : option block_with_id :=
  match l !! lower_bound_by_num l n with
  | Some b => if num b =? n then Some b else None
  | None => None
  end.
Definition block_by_eosio_num (l : list block_with_id) (n : Z) : option block_with_id :=
  match l !! lower_bound_by_eosio_num l n with
  | Some b => if eosio_num (eosioBlock b) =? n then Some b else None
  | None => None
  end.
(** [it[-1]], unless [it] is the beginning. *)
Definition block_before (l : list block_with_id) (it : nat) : option block_with_id :=
  match it with O => None | S i => l !! i end.
Definition block_before_num (l : list block_with_id) (n : Z) : option block_with_id :=
  block_before l (lower_bound_by_num l n).
Definition block_before_eosio_num (l : list block_with_id) (n : Z) : option block_with_id :=
  block_before l (lower_bound_by_eosio_num l n).

(** ** Changes *)

(** Returns the log, the status and how many blocks the new one replaces. *)
Definition add_block (log : block_log) (b : block_with_id) : block_log * status * nat :=
  let l := blocks log in
  let it := lower_bound_by_num l (num b) in
  let here := l !! it in
  let before := block_before l it in
  if match here with Some x => id b =? id x | None => false end then (log, duplicate, 0%nat)
  else if Nat.eqb it 0 && negb (num b =? 1) then (log, unlinkable, 0%nat)
  else if match before with
          | Some p => negb (previous b =? id p) || negb (num b =? wrap 32 (num p + 1))
          | None => false
          end then (log, unlinkable, 0%nat)
  else if match here with Some x => num x <=? irreversible log | None => false end
       then (log, unlinkable, 0%nat)
  else (mk_log (take it l ++ [b]) (irreversible log), appended, (length l - it)%nat).

(** Returns the log and how many blocks were removed. *)
Definition undo (log : block_log) (block_num : Z) : block_log * nat :=
  let l := blocks log in
  if block_num <=? irreversible log then (log, 0%nat)
  else
    let it := lower_bound_by_num l block_num in
    match l !! it with
    | Some b => if num b =? block_num then (mk_log (take it l) (irreversible log), (length l - it)%nat)
                else (log, 0%nat)
    | None => (log, 0%nat)
    end.

(** Keeps one irreversible block. *)
Definition trim (log : block_log) : block_log :=
  mk_log (drop (lower_bound_by_num (blocks log) (irreversible log)) (blocks log)) (irreversible log).

(** ** The chain has no gaps *)

Definition follows (p b : block_with_id) : Prop := num b = num p + 1 /\ previous b = id p.
Fixpoint linked (l : list block_with_id) : Prop :=
  match l with
  | [] => True
  | b :: l' => match l' with [] => True | b' :: _ => follows b b' end /\ linked l'
  end.

(** Block numbers fit in 32 bits. *)
Definition in_range (b : block_with_id) : Prop := 0 <= num b < 2 ^ 32.

Lemma linked_num l i b b0 :
  linked l -> l !! 0%nat = Some b0 -> l !! i = Some b -> num b = num b0 + Z.of_nat i.
Proof.
  revert l b0. induction i as [|i IH]; intros l b0 Hl H0 Hi.
  - rewrite H0 in Hi. injection Hi as <-. lia.
  - destruct l as [|x [|y l]]; [done|done|]. cbn in H0, Hi. injection H0 as <-.
    destruct Hl as [[Hn _] Hl]. rewrite (IH (y :: l) y Hl eq_refl Hi). lia.
Qed.

Lemma linked_app l1 l2 :
  linked (l1 ++ l2) <-> linked l1 /\ linked l2 /\
    match last l1, l2 !! 0%nat with Some p, Some b => follows p b | _, _ => True end.
Proof.
  induction l1 as [|x l1 IH]; [cbn; tauto|].
  destruct l1 as [|y l1]; [destruct l2 as [|y l2]; cbn; tauto|]. cbn [app linked] in *.
  rewrite IH. cbn [last]. tauto.
Qed.

Lemma linked_take n l : linked l -> linked (take n l).
Proof. intros H. rewrite <- (take_drop n l) in H. by apply linked_app in H as [H _]. Qed.
Lemma linked_drop n l : linked l -> linked (drop n l).
Proof. intros H. rewrite <- (take_drop n l) in H. by apply linked_app in H as (_ & H & _). Qed.

(** Where a number is found. *)
Lemma lower_bound_spec b0 l n :
  linked (b0 :: l) ->
  lower_bound_by_num (b0 :: l) n = Z.to_nat (Z.min (Z.max 0 (n - num b0)) (Z.of_nat (length (b0 :: l)))).
Proof.
  intros _. unfold lower_bound_by_num. destruct (Z.leb_spec n (num b0)); [f_equal; lia|].
  destruct (Z.ltb_spec (n - num b0) (Z.of_nat (length (b0 :: l)))); [f_equal; lia|].
  rewrite <- (Nat2Z.id (length (b0 :: l))) at 1. f_equal. lia.
Qed.

Lemma block_by_num_spec l n b :
  linked l -> block_by_num l n = Some b <-> b ∈ l /\ num b = n.
Proof.
  intros Hl. unfold block_by_num. split.
  - destruct (l !! _) as [x|] eqn:E; [|done]. destruct (Z.eqb_spec (num x) n) as [Hn|]; [|done].
    intros [= <-]. split; [by eapply list_elem_of_lookup_2|done].
  - intros [Hb Hn]. apply list_elem_of_lookup_1 in Hb as [i Hi].
    destruct l as [|b0 l]; [done|]. pose proof (linked_num _ i b b0 Hl eq_refl Hi) as Hnum.
    apply lookup_lt_Some in Hi as Hlt. rewrite (lower_bound_spec _ _ _ Hl).
    replace (Z.to_nat _) with i by lia. rewrite Hi, Hn. by rewrite Z.eqb_refl.
Qed.

Lemma linked_range l i j b b' :
  linked l -> l !! i = Some b -> l !! j = Some b' -> num b' = num b + Z.of_nat j - Z.of_nat i.
Proof.
  intros Hl Hi Hj. destruct l as [|b0 l]; [done|].
  rewrite (linked_num _ i b b0 Hl eq_refl Hi), (linked_num _ j b' b0 Hl eq_refl Hj). lia.
Qed.

Lemma lower_bound_le l n : linked l -> (lower_bound_by_num l n <= length l)%nat.
Proof. intros Hl. destruct l as [|b0 l]; [done|]. rewrite lower_bound_spec by done. lia. Qed.
Lemma lower_bound_low l n : Forall (fun b => n <= num b) l -> lower_bound_by_num l n = 0%nat.
Proof.
  destruct l as [|b0 l]; [done|]. intros [H _]%Forall_cons. cbn. by rewrite (proj2 (Z.leb_le _ _)).
Qed.

(** A change of the log's end: [k] reversible blocks go, [new] comes. *)
Record cuts (log log' : block_log) (k : nat) (new : list block_with_id) : Prop := {
  cut_le : (k <= length (blocks log))%nat;
  cut_blocks : blocks log' = take (length (blocks log) - k) (blocks log) ++ new;
  cut_irreversible : irreversible log' = irreversible log;
  cut_reversible : forall i x, (length (blocks log) - k <= i)%nat -> blocks log !! i = Some x ->
    irreversible log < num x
}.
(** The new block continues what is left. *)
Record continues (log : block_log) (k : nat) (b : block_with_id) : Prop := {
  cont_first : k = length (blocks log) -> num b = 1;
  cont_follows : forall p, blocks log !! (length (blocks log) - k - 1)%nat = Some p ->
    (k < length (blocks log))%nat -> follows p b
}.

Lemma add_block_appended log b log' forked :
  linked (blocks log) -> Forall in_range (blocks log) -> in_range b ->
  add_block log b = (log', appended, forked) -> cuts log log' forked [b] /\ continues log forked b.
Proof.
  intros Hl Hlr Hb H.
  unfold add_block in H. set (l := blocks log) in *. set (it := lower_bound_by_num l (num b)) in *.
  destruct (match l !! it with Some x => id b =? id x | None => false end) eqn:E1; [done|].
  destruct (Nat.eqb it 0 && negb (num b =? 1)) eqn:E2; [done|].
  destruct (match block_before l it with Some p => _ | None => false end) eqn:E3; [done|].
  destruct (match l !! it with Some x => num x <=? irreversible log | None => false end) eqn:E4; [done|].
  injection H as <- <-.
  assert (it <= length l)%nat as Hit.
  { by apply lower_bound_le. }
  assert (length l - (length l - it) = it)%nat as Hk by lia.
  assert (num b = 1 \/ it <> 0%nat) as Hfirst.
  { destruct (Nat.eqb_spec it 0) as [|]; [|by right]. cbn in E2. left. apply negb_false_iff, Z.eqb_eq in E2. done. }
  assert (forall p, block_before l it = Some p -> follows p b) as Hfol.
  { intros p Hp. rewrite Hp in E3. apply orb_false_iff in E3 as [E3 E3'].
    apply negb_false_iff, Z.eqb_eq in E3. apply negb_false_iff, Z.eqb_eq in E3'. split; [|done].
    assert (in_range p) as Hr.
    { destruct it as [|i]; [done|]. rewrite Forall_forall in Hlr. apply Hlr.
      by eapply list_elem_of_lookup_2. }
    destruct (decide (num p = 2 ^ 32 - 1)) as [Hmax|Hmax].
    - exfalso. rewrite Hmax in E3'. change (wrap 32 (2 ^ 32 - 1 + 1)) with 0 in E3'. assert (it = 0%nat) as H0; [|by rewrite H0 in Hp].
      apply lower_bound_low. eapply Forall_impl; [exact Hlr|]. unfold in_range. intros x Hx. cbn in Hx. lia.
    - rewrite wrap_small in E3'; [done|]. unfold in_range in Hr. lia. }
  split; split; cbn; fold l.
  - lia.
  - by rewrite Hk.
  - done.
  - rewrite Hk. intros i x Hi Hx. destruct (lookup_lt_is_Some_2 l it) as [y Hy].
    { apply lookup_lt_Some in Hx. lia. }
    rewrite Hy in E4. apply Z.leb_gt in E4. rewrite (linked_range l it i y x) by done. lia.
  - intros Hf. destruct Hfirst as [|Hne]; [done|]. lia.
  - rewrite Hk. intros p Hp Hlt. apply Hfol. assert (exists i, it = S i) as [i Hi] by (exists (it - 1)%nat; lia).
    rewrite Hi in *. cbn. rewrite <- Hp. f_equal. lia.
Qed.

Lemma undo_removes log n log' k :
  linked (blocks log) -> undo log n = (log', k) -> cuts log log' k [].
Proof.
  intros Hl H. unfold undo in H. set (l := blocks log) in *. set (it := lower_bound_by_num l n) in *.
  assert (cuts log log 0 []) as Hnone.
  { split; fold l; [lia | by rewrite Nat.sub_0_r, firstn_all, app_nil_r | done |].
    intros i x Hi Hx. apply lookup_lt_Some in Hx. fold l in Hx. lia. }
  destruct (Z.leb_spec n (irreversible log)); [by injection H as <- <-|].
  destruct (l !! it) as [b|] eqn:E; [|by injection H as <- <-].
  destruct (Z.eqb_spec (num b) n) as [Hn|]; [|by injection H as <- <-].
  injection H as <- <-. apply lookup_lt_Some in E as Hit.
  assert (length l - (length l - it) = it)%nat as Hk by lia.
  split; cbn; fold l; [lia | by rewrite Hk, app_nil_r | done |].
  rewrite Hk. intros i x Hi Hx. rewrite (linked_range l it i b x) by done. lia.
Qed.

End log.
Arguments eosio_block T : clear implicits.
Arguments block_with_id T : clear implicits.
Arguments block_log T : clear implicits.
End BlockLog.
