(* ===== verification/MicroTables.v ===== *)
(** The tables of the history node
    ([contracts/eden/src/eden-micro-chain.cpp], lines 147-660): the rows, the
    keys of their unique indices, and the helpers the handlers change them
    with.  A table is represented by what [ChainbaseUndo] shows an undo index
    to be: its rows by id, the next id, and, in the database, the copies the
    open sessions keep. *)
From S2P Require Import Prelude Asset Crypto Inductions Chainbase.
Open Scope string_scope.
Open Scope list_scope.
Open Scope Z_scope.

Module MicroTables.

(** ** Tables *)

(** A key of an index: the index it belongs to and its value, a tuple. *)
Inductive key : Type :=
  | by_pk (parts : list Z)
  | by_invitee (parts : list Z)
  | by_createdAt (parts : list Z)
  | by_round (parts : list Z)
  | by_group (parts : list Z)
  | by_member (parts : list Z)
  | by_owner (parts : list Z)
  | by_session (eden_account : Z) (k : public_key).
#[global] Instance key_eq_dec : EqDecision key.
Proof. solve_decision. Defined.

(** The keys of a row besides its id. *)
Class Keyed (V : Type) := keys_of : Z -> V -> list key.

Record table (V : Type) : Type := mk_table { rows : gmap Z V; next_id : Z }.
Arguments mk_table {V} rows next_id.
Arguments rows {V} t.
Arguments next_id {V} t.

Section table.
Context {V : Type} `{Keyed V}.

Definition empty_table : table V := mk_table ∅ 0.

(** The operations of the undo index ([Chainbase.Undo]). *)
Definition on_index (f : Undo.snapshots V -> result (Undo.snapshots V)) (t : table V) : result (table V) :=
  d ← f (Undo.mk_snap (rows t) (next_id t) [] 0);
  Ok (mk_table (Undo.rows d) (Undo.snap_next d)).
Definition emplace (t : table V) (c : Z -> V) : result (table V) :=
  on_index (fun d => Undo.snap_emplace keys_of d c) t.
Definition modify_row (t : table V) (id : Z) (m : V -> V) : result (table V) :=
  on_index (fun d => Undo.snap_modify keys_of d id m) t.
Definition remove_row (t : table V) (id : Z) : result (table V) :=
  on_index (fun d => Undo.snap_remove d id) t.

Definition has_key (k : key) (p : Z * V) : bool := bool_decide (k ∈ keys_of p.1 p.2).
(** [idx.find(key)] *)
Definition find (t : table V) (k : key) : option (Z * V) :=
  head (filter (has_key k) (map_to_list (rows t))).
(** [for (auto& obj : table)]: by id. *)
Definition ids (t : table V) : list Z := merge_sort Z.le (elements (dom (rows t))).
Definition in_order (order : V -> Z) (x y : Z * V) : Prop := order x.2 <= order y.2.
#[global] Instance in_order_dec order x y : Decision (in_order order x y).
Proof. unfold in_order. apply _. Defined.
(** The ids of the rows a scan of another index visits, in the order of its
    key. *)
Definition scan (p : V -> bool) (order : V -> Z) (t : table V) : list Z :=
  fst <$> merge_sort (in_order order)
            (filter (fun x => p x.2) (map_to_list (rows t))).
(** [--idx.end()], of an index by a number. *)
Definition last_by (order : V -> Z) (t : table V) : option (Z * V) :=
  last (merge_sort (in_order order) (map_to_list (rows t))).

Definition add_or_modify (t : table V) (k : key) (fresh : Z -> V) (f : V -> V) : result (table V) :=
  match find t k with
  | Some (i, _) => modify_row t i f
  | None => emplace t fresh
  end.
Definition add_or_replace (t : table V) (k : key) (fresh : Z -> V) : result (table V) :=
  t ← match find t k with Some (i, _) => remove_row t i | None => Ok t end;
  emplace t fresh.
Definition get (t : table V) (k : key) : result (Z * V) :=
  some_or (Check "missing record") (find t k).
Definition modify (t : table V) (k : key) (f : V -> V) : result (table V) :=
  p ← get t k; modify_row t p.1 f.
Definition remove_if_exists (t : table V) (k : key) : result (table V) :=
  match find t k with Some (i, _) => remove_row t i | None => Ok t end.
Definition get_ptr (t : table V) (k : key) : option V := snd <$> find t k.
Definition modify_all (t : table V) (l : list Z) (f : V -> V) : result (table V) :=
  foldM (fun t i => modify_row t i f) l t.
Definition remove_all (t : table V) (l : list Z) : result (table V) := foldM remove_row l t.
Definition clear_table (t : table V) : result (table V) := remove_all t (ids t).

Definition available_pk (pk : V -> Z) (t : table V) (first : Z) : Z :=
  match last_by pk t with Some p => wrap 64 (pk p.2 + 1) | None => first end.

End table.

(** ** Rows *)

(** An attribute of an NFT; [None] is a value that is not text. *)
Definition attribute : Type := string * option string.

Inductive history_desc : Type :=
  | deposit | withdraw | external_spend | manual_transfer | fund_transfer | user_transfer | fund
  | donate | inductdonate | reserve_distribution | return_excess_distribution | return_distribution.

Module Status.
Record object : Type := mk {
  active : bool; community : string; communitySymbol : Z; minimumDonation : asset; initialMembers :
  list Z; genesisVideo : string; collectionAttributes : list attribute; auctionStartingBid : asset;
  auctionDuration : Z; memo : string; nextElection : Z; electionThreshold : Z;
  numElectionParticipants : Z; migrationIndex : Z }.
Definition initial : object := mk false "" 0 Asset.empty [] "" [] Asset.empty 0 "" 0 0 0 0.
#[global] Instance set_active : Setter active := fun f r => mk (f (active r)) (community r)
  (communitySymbol r) (minimumDonation r) (initialMembers r) (genesisVideo r) (collectionAttributes
  r) (auctionStartingBid r) (auctionDuration r) (memo r) (nextElection r) (electionThreshold r)
  (numElectionParticipants r) (migrationIndex r).
#[global] Instance set_initialMembers : Setter initialMembers := fun f r => mk (active r) (community
  r) (communitySymbol r) (minimumDonation r) (f (initialMembers r)) (genesisVideo r)
  (collectionAttributes r) (auctionStartingBid r) (auctionDuration r) (memo r) (nextElection r)
  (electionThreshold r) (numElectionParticipants r) (migrationIndex r).
#[global] Instance set_nextElection : Setter nextElection := fun f r => mk (active r) (community r)
  (communitySymbol r) (minimumDonation r) (initialMembers r) (genesisVideo r) (collectionAttributes
  r) (auctionStartingBid r) (auctionDuration r) (memo r) (f (nextElection r)) (electionThreshold r)
  (numElectionParticipants r) (migrationIndex r).
#[global] Instance set_electionThreshold : Setter electionThreshold := fun f r => mk (active r)
  (community r) (communitySymbol r) (minimumDonation r) (initialMembers r) (genesisVideo r)
  (collectionAttributes r) (auctionStartingBid r) (auctionDuration r) (memo r) (nextElection r) (f
  (electionThreshold r)) (numElectionParticipants r) (migrationIndex r).
#[global] Instance set_numElectionParticipants : Setter numElectionParticipants := fun f r => mk
  (active r) (community r) (communitySymbol r) (minimumDonation r) (initialMembers r) (genesisVideo
  r) (collectionAttributes r) (auctionStartingBid r) (auctionDuration r) (memo r) (nextElection r)
  (electionThreshold r) (f (numElectionParticipants r)) (migrationIndex r).
#[global] Instance set_migrationIndex : Setter migrationIndex := fun f r => mk (active r) (community
  r) (communitySymbol r) (minimumDonation r) (initialMembers r) (genesisVideo r)
  (collectionAttributes r) (auctionStartingBid r) (auctionDuration r) (memo r) (nextElection r)
  (electionThreshold r) (numElectionParticipants r) (f (migrationIndex r)).
#[global] Instance keyed : Keyed object := fun i r => [].
End Status.

Module Balance.
Record object : Type := mk {
  account : Z; amount : asset }.
Definition initial : object := mk 0 Asset.empty.
#[global] Instance set_account : Setter account := fun f r => mk (f (account r)) (amount r).
#[global] Instance set_amount : Setter amount := fun f r => mk (account r) (f (amount r)).
#[global] Instance keyed : Keyed object := fun i r => [by_pk [account r]].
End Balance.

Module History.
Record object : Type := mk {
  time : Z; account : Z; delta : asset; new_amount : asset; other_account : Z; description :
  history_desc }.
Definition initial : object := mk 0 0 Asset.empty Asset.empty 0 deposit.
#[global] Instance set_account : Setter account := fun f r => mk (time r) (f (account r)) (delta r)
  (new_amount r) (other_account r) (description r).
#[global] Instance set_other_account : Setter other_account := fun f r => mk (time r) (account r)
  (delta r) (new_amount r) (f (other_account r)) (description r).
#[global] Instance keyed : Keyed object := fun i r => [by_pk [account r; time r; i]].
End History.

Module EncryptionKey.
Record object : Type := mk {
  account : Z; encryptionKey : public_key }.
Definition initial : object := mk 0 (Crypto.key_k1 []).
#[global] Instance set_account : Setter account := fun f r => mk (f (account r)) (encryptionKey r).
#[global] Instance set_encryptionKey : Setter encryptionKey := fun f r => mk (account r) (f
  (encryptionKey r)).
#[global] Instance keyed : Keyed object := fun i r => [by_pk [account r]].
End EncryptionKey.

Module Induction.
Record object : Type := mk {
  id : Z; inviter : Z * bool; invitee : Z; witnesses : list (Z * bool); profile :
  Inductions.new_member_profile; video : string; createdAt : Z }.
Definition initial : object := mk 0 (0,false) 0 [] Inductions.empty_profile "" 0.
#[global] Instance set_inviter : Setter inviter := fun f r => mk (id r) (f (inviter r)) (invitee r)
  (witnesses r) (profile r) (video r) (createdAt r).
#[global] Instance set_witnesses : Setter witnesses := fun f r => mk (id r) (inviter r) (invitee r)
  (f (witnesses r)) (profile r) (video r) (createdAt r).
#[global] Instance set_profile : Setter profile := fun f r => mk (id r) (inviter r) (invitee r)
  (witnesses r) (f (profile r)) (video r) (createdAt r).
#[global] Instance set_video : Setter video := fun f r => mk (id r) (inviter r) (invitee r)
  (witnesses r) (profile r) (f (video r)) (createdAt r).
#[global] Instance keyed : Keyed object := fun i r => [by_pk [id r]; by_invitee [invitee r; id r];
  by_createdAt [createdAt r; id r]].
End Induction.

Module Member.
Record object : Type := mk {
  account : Z; inviter : Z; inductionWitnesses : list Z; profile : Inductions.new_member_profile;
  inductionVideo : string; participating : bool; createdAt : Z }.
Definition initial : object := mk 0 0 [] Inductions.empty_profile "" false 0.
#[global] Instance set_account : Setter account := fun f r => mk (f (account r)) (inviter r)
  (inductionWitnesses r) (profile r) (inductionVideo r) (participating r) (createdAt r).
#[global] Instance set_inviter : Setter inviter := fun f r => mk (account r) (f (inviter r))
  (inductionWitnesses r) (profile r) (inductionVideo r) (participating r) (createdAt r).
#[global] Instance set_inductionWitnesses : Setter inductionWitnesses := fun f r => mk (account r)
  (inviter r) (f (inductionWitnesses r)) (profile r) (inductionVideo r) (participating r) (createdAt
  r).
#[global] Instance set_participating : Setter participating := fun f r => mk (account r) (inviter r)
  (inductionWitnesses r) (profile r) (inductionVideo r) (f (participating r)) (createdAt r).
#[global] Instance keyed : Keyed object := fun i r => [by_pk [account r]; by_createdAt [createdAt r;
  account r]].
End Member.

Module Session.
Record object : Type := mk {
  eden_account : Z; key : public_key; expiration : Z; description : string }.
Definition initial : object := mk 0 (Crypto.key_k1 []) 0 "".
#[global] Instance keyed : Keyed object := fun i r => [by_session (eden_account r) (key r)].
End Session.

Module Election.
Record object : Type := mk {
  time : Z; seeding : bool; results_available : bool; seeding_start_time : option Z;
  seeding_end_time : option Z; seed : option Z; num_rounds : option Z; num_participants : option Z;
  final_group_id : option Z }.
Definition initial : object := mk 0 false false None None None None None None.
#[global] Instance set_seeding : Setter seeding := fun f r => mk (time r) (f (seeding r))
  (results_available r) (seeding_start_time r) (seeding_end_time r) (seed r) (num_rounds r)
  (num_participants r) (final_group_id r).
#[global] Instance set_results_available : Setter results_available := fun f r => mk (time r)
  (seeding r) (f (results_available r)) (seeding_start_time r) (seeding_end_time r) (seed r)
  (num_rounds r) (num_participants r) (final_group_id r).
#[global] Instance set_seeding_start_time : Setter seeding_start_time := fun f r => mk (time r)
  (seeding r) (results_available r) (f (seeding_start_time r)) (seeding_end_time r) (seed r)
  (num_rounds r) (num_participants r) (final_group_id r).
#[global] Instance set_seeding_end_time : Setter seeding_end_time := fun f r => mk (time r) (seeding
  r) (results_available r) (seeding_start_time r) (f (seeding_end_time r)) (seed r) (num_rounds r)
  (num_participants r) (final_group_id r).
#[global] Instance set_seed : Setter seed := fun f r => mk (time r) (seeding r) (results_available
  r) (seeding_start_time r) (seeding_end_time r) (f (seed r)) (num_rounds r) (num_participants r)
  (final_group_id r).
#[global] Instance set_num_rounds : Setter num_rounds := fun f r => mk (time r) (seeding r)
  (results_available r) (seeding_start_time r) (seeding_end_time r) (seed r) (f (num_rounds r))
  (num_participants r) (final_group_id r).
#[global] Instance set_num_participants : Setter num_participants := fun f r => mk (time r) (seeding
  r) (results_available r) (seeding_start_time r) (seeding_end_time r) (seed r) (num_rounds r) (f
  (num_participants r)) (final_group_id r).
#[global] Instance set_final_group_id : Setter final_group_id := fun f r => mk (time r) (seeding r)
  (results_available r) (seeding_start_time r) (seeding_end_time r) (seed r) (num_rounds r)
  (num_participants r) (f (final_group_id r)).
#[global] Instance keyed : Keyed object := fun i r => [by_pk [time r]].
End Election.

Module Round.
Record object : Type := mk {
  election_time : Z; round : Z; num_participants : Z; num_groups : Z; requires_voting : bool;
  groups_available : bool; voting_started : bool; voting_finished : bool; results_available : bool;
  voting_begin : option Z; voting_end : option Z }.
Definition initial : object := mk 0 0 0 0 false false false false false None None.
#[global] Instance set_groups_available : Setter groups_available := fun f r => mk (election_time r)
  (round r) (num_participants r) (num_groups r) (requires_voting r) (f (groups_available r))
  (voting_started r) (voting_finished r) (results_available r) (voting_begin r) (voting_end r).
#[global] Instance set_voting_started : Setter voting_started := fun f r => mk (election_time r)
  (round r) (num_participants r) (num_groups r) (requires_voting r) (groups_available r) (f
  (voting_started r)) (voting_finished r) (results_available r) (voting_begin r) (voting_end r).
#[global] Instance set_voting_finished : Setter voting_finished := fun f r => mk (election_time r)
  (round r) (num_participants r) (num_groups r) (requires_voting r) (groups_available r)
  (voting_started r) (f (voting_finished r)) (results_available r) (voting_begin r) (voting_end r).
#[global] Instance set_results_available : Setter results_available := fun f r => mk (election_time
  r) (round r) (num_participants r) (num_groups r) (requires_voting r) (groups_available r)
  (voting_started r) (voting_finished r) (f (results_available r)) (voting_begin r) (voting_end r).
#[global] Instance set_voting_begin : Setter voting_begin := fun f r => mk (election_time r) (round
  r) (num_participants r) (num_groups r) (requires_voting r) (groups_available r) (voting_started r)
  (voting_finished r) (results_available r) (f (voting_begin r)) (voting_end r).
#[global] Instance set_voting_end : Setter voting_end := fun f r => mk (election_time r) (round r)
  (num_participants r) (num_groups r) (requires_voting r) (groups_available r) (voting_started r)
  (voting_finished r) (results_available r) (voting_begin r) (f (voting_end r)).
#[global] Instance keyed : Keyed object := fun i r => [by_round [election_time r; round r]].
End Round.

Module Group.
Record object : Type := mk {
  election_time : Z; round : Z; first_member : Z; winner : Z }.
Definition initial : object := mk 0 0 0 0.
#[global] Instance set_winner : Setter winner := fun f r => mk (election_time r) (round r)
  (first_member r) (f (winner r)).
#[global] Instance keyed : Keyed object := fun i r => [by_pk [election_time r; round r; first_member
  r]; by_round [election_time r; round r; i]].
End Group.

Module Vote.
Record object : Type := mk {
  election_time : Z; round : Z; group_id : Z; voter : Z; candidate : Z; video : string }.
Definition initial : object := mk 0 0 0 0 0 "".
#[global] Instance set_voter : Setter voter := fun f r => mk (election_time r) (round r) (group_id
  r) (f (voter r)) (candidate r) (video r).
#[global] Instance set_candidate : Setter candidate := fun f r => mk (election_time r) (round r)
  (group_id r) (voter r) (f (candidate r)) (video r).
#[global] Instance set_video : Setter video := fun f r => mk (election_time r) (round r) (group_id
  r) (voter r) (candidate r) (f (video r)).
#[global] Instance keyed : Keyed object := fun i r => [by_pk [voter r; election_time r; round r];
  by_group [group_id r; voter r]].
End Vote.

Module Distribution.
Record object : Type := mk {
  time : Z; started : bool; target_amount : option asset; target_rank_distribution : option (list
  asset) }.
Definition initial : object := mk 0 false None None.
#[global] Instance set_started : Setter started := fun f r => mk (time r) (f (started r))
  (target_amount r) (target_rank_distribution r).
#[global] Instance set_target_amount : Setter target_amount := fun f r => mk (time r) (started r) (f
  (target_amount r)) (target_rank_distribution r).
#[global] Instance set_target_rank_distribution : Setter target_rank_distribution := fun f r => mk
  (time r) (started r) (target_amount r) (f (target_rank_distribution r)).
#[global] Instance keyed : Keyed object := fun i r => [by_pk [time r]].
End Distribution.

Module Fund.
Record object : Type := mk {
  owner : Z; distribution_time : Z; rank : Z; initial_balance : asset; current_balance : asset }.
Definition initial : object := mk 0 0 0 Asset.empty Asset.empty.
#[global] Instance set_owner : Setter owner := fun f r => mk (f (owner r)) (distribution_time r)
  (rank r) (initial_balance r) (current_balance r).
#[global] Instance set_current_balance : Setter current_balance := fun f r => mk (owner r)
  (distribution_time r) (rank r) (initial_balance r) (f (current_balance r)).
#[global] Instance keyed : Keyed object := fun i r => [by_pk [owner r; distribution_time r; rank
  r]].
End Fund.

Module NftRow.
Record object : Type := mk {
  member : Z; owner : Z; templateId : Z; assetId : Z; templateMint : Z; createdAt : Z }.
Definition initial : object := mk 0 0 0 0 0 0.
#[global] Instance set_member : Setter member := fun f r => mk (f (member r)) (owner r) (templateId
  r) (assetId r) (templateMint r) (createdAt r).
#[global] Instance set_owner : Setter owner := fun f r => mk (member r) (f (owner r)) (templateId r)
  (assetId r) (templateMint r) (createdAt r).
#[global] Instance keyed : Keyed object := fun i r => [by_pk [assetId r]; by_member [member r;
  createdAt r; assetId r]; by_owner [owner r; createdAt r; assetId r]].
End NftRow.

(** ** The database *)

Record db : Type := mk_db {
  status : table Status.object;
  balances : table Balance.object;
  balance_history : table History.object;
  encryption_keys : table EncryptionKey.object;
  inductions : table Induction.object;
  members : table Member.object;
  sessions : table Session.object;
  elections : table Election.object;
  election_rounds : table Round.object;
  election_groups : table Group.object;
  votes : table Vote.object;
  distributions : table Distribution.object;
  distribution_funds : table Fund.object;
  nfts : table NftRow.object
}.
#[global] Instance set_status : Setter status := fun f d => mk_db (f (status d)) (balances d)
  (balance_history d) (encryption_keys d) (inductions d) (members d) (sessions d) (elections d)
  (election_rounds d) (election_groups d) (votes d) (distributions d) (distribution_funds d) (nfts
  d).
#[global] Instance set_balances : Setter balances := fun f d => mk_db (status d) (f (balances d))
  (balance_history d) (encryption_keys d) (inductions d) (members d) (sessions d) (elections d)
  (election_rounds d) (election_groups d) (votes d) (distributions d) (distribution_funds d) (nfts
  d).
#[global] Instance set_balance_history : Setter balance_history := fun f d => mk_db (status d)
  (balances d) (f (balance_history d)) (encryption_keys d) (inductions d) (members d) (sessions d)
  (elections d) (election_rounds d) (election_groups d) (votes d) (distributions d)
  (distribution_funds d) (nfts d).
#[global] Instance set_encryption_keys : Setter encryption_keys := fun f d => mk_db (status d)
  (balances d) (balance_history d) (f (encryption_keys d)) (inductions d) (members d) (sessions d)
  (elections d) (election_rounds d) (election_groups d) (votes d) (distributions d)
  (distribution_funds d) (nfts d).
#[global] Instance set_inductions : Setter inductions := fun f d => mk_db (status d) (balances d)
  (balance_history d) (encryption_keys d) (f (inductions d)) (members d) (sessions d) (elections d)
  (election_rounds d) (election_groups d) (votes d) (distributions d) (distribution_funds d) (nfts
  d).
#[global] Instance set_members : Setter members := fun f d => mk_db (status d) (balances d)
  (balance_history d) (encryption_keys d) (inductions d) (f (members d)) (sessions d) (elections d)
  (election_rounds d) (election_groups d) (votes d) (distributions d) (distribution_funds d) (nfts
  d).
#[global] Instance set_sessions : Setter sessions := fun f d => mk_db (status d) (balances d)
  (balance_history d) (encryption_keys d) (inductions d) (members d) (f (sessions d)) (elections d)
  (election_rounds d) (election_groups d) (votes d) (distributions d) (distribution_funds d) (nfts
  d).
#[global] Instance set_elections : Setter elections := fun f d => mk_db (status d) (balances d)
  (balance_history d) (encryption_keys d) (inductions d) (members d) (sessions d) (f (elections d))
  (election_rounds d) (election_groups d) (votes d) (distributions d) (distribution_funds d) (nfts
  d).
#[global] Instance set_election_rounds : Setter election_rounds := fun f d => mk_db (status d)
  (balances d) (balance_history d) (encryption_keys d) (inductions d) (members d) (sessions d)
  (elections d) (f (election_rounds d)) (election_groups d) (votes d) (distributions d)
  (distribution_funds d) (nfts d).
#[global] Instance set_election_groups : Setter election_groups := fun f d => mk_db (status d)
  (balances d) (balance_history d) (encryption_keys d) (inductions d) (members d) (sessions d)
  (elections d) (election_rounds d) (f (election_groups d)) (votes d) (distributions d)
  (distribution_funds d) (nfts d).
#[global] Instance set_votes : Setter votes := fun f d => mk_db (status d) (balances d)
  (balance_history d) (encryption_keys d) (inductions d) (members d) (sessions d) (elections d)
  (election_rounds d) (election_groups d) (f (votes d)) (distributions d) (distribution_funds d)
  (nfts d).
#[global] Instance set_distributions : Setter distributions := fun f d => mk_db (status d) (balances
  d) (balance_history d) (encryption_keys d) (inductions d) (members d) (sessions d) (elections d)
  (election_rounds d) (election_groups d) (votes d) (f (distributions d)) (distribution_funds d)
  (nfts d).
#[global] Instance set_distribution_funds : Setter distribution_funds := fun f d => mk_db (status d)
  (balances d) (balance_history d) (encryption_keys d) (inductions d) (members d) (sessions d)
  (elections d) (election_rounds d) (election_groups d) (votes d) (distributions d) (f
  (distribution_funds d)) (nfts d).
#[global] Instance set_nfts : Setter nfts := fun f d => mk_db (status d) (balances d)
  (balance_history d) (encryption_keys d) (inductions d) (members d) (sessions d) (elections d)
  (election_rounds d) (election_groups d) (votes d) (distributions d) (distribution_funds d) (f
  (nfts d)).
Definition empty_db : db :=
  mk_db empty_table empty_table empty_table empty_table empty_table empty_table empty_table
    empty_table empty_table empty_table empty_table empty_table empty_table empty_table.

(** Changes one table. *)
Definition on {V} (t : db -> table V) `{!Setter t} (f : table V -> result (table V)) (d : db) : result db :=
  r ← f (t d); Ok (d <| t := r |>).

Definition get_status (d : db) : result (Z * Status.object) :=
  match map_to_list (rows (status d)) with
  | [p] => Ok p
  | _ => Err (Check "missing genesis action")
  end.
(** [db.status.modify(get_status(), f)] *)
Definition modify_status (f : Status.object -> Status.object) (d : db) : result db :=
  p ← get_status d; on status (fun t => modify_row t p.1 f) d.

Definition get_balance (d : db) (account : Z) : option asset :=
  Balance.amount <$> get_ptr (balances d) (by_pk [account]).
Definition get_encryption_key (d : db) (account : Z) : option public_key :=
  EncryptionKey.encryptionKey <$> get_ptr (encryption_keys d) (by_pk [account]).

(** ** [chainbase::database]: the tables move together *)

Record database : Type := mk_database {
  current : db;
  saved : list db;       (* one per open session, the newest first *)
  revision : Z
}.
Definition initial_database : database := mk_database empty_db [] 0.

Definition start_undo_session (enabled : bool) (b : database) : database :=
  if enabled then mk_database (current b) (current b :: saved b) (revision b + 1) else b.
Definition undo (b : database) : database :=
  match saved b with
  | [] => b
  | d :: l => mk_database d l (revision b - 1)
  end.
Definition commit (rev : Z) (b : database) : database :=
  mk_database (current b)
    (if (revision b <=? rev) || (revision b - rev <? Z.of_nat (length (saved b)))
     then take (Z.to_nat (revision b - rev)) (saved b) else saved b) (revision b).
Definition set_revision (rev : Z) (b : database) : result database :=
  _ ← check (bool_decide (saved b = [])) "cannot set revision while there is an existing undo stack";
  _ ← check (rev <=? 2 ^ 63 - 1) "revision to set is too high";
  _ ← check (revision b <=? rev) "revision cannot decrease";
  Ok (mk_database (current b) (saved b) rev).

End MicroTables.
Export MicroTables (table, db).
