(* ===== verification/MicroChain.v ===== *)
(** The handlers of the history node
    ([contracts/eden/src/eden-micro-chain.cpp], lines 1242-1869): what each
    action and notification of the contract does to the node's tables; the
    events and the replay of a block are in MicroReplay.v.  The arguments of an
    action arrive decoded; ActionReplay.v reads them from its bytes, and
    EventWire.v the events. *)
From S2P Require Import Prelude Name Time Asset Crypto Accounts Globals Events Nft Inductions MicroTables.
Open Scope string_scope.
Open Scope list_scope.
Open Scope Z_scope.

Module MicroChain.
Import MicroTables.

(** ** What a block contains *)

Inductive handler : Type :=
  | h_clearall
  | h_delsession (a : Z) (k : public_key)
  | h_withdraw (owner : Z) (quantity : asset)
  | h_donate (payer : Z) (quantity : asset)
  | h_transfer (to : Z) (quantity : asset) (memo : string)
  | h_fundtransfer (from distribution_time rank to : Z) (amount : asset) (memo : string)
  | h_usertransfer (from to : Z) (amount : asset) (memo : string)
  | h_genesis (community : string) (community_symbol : Z) (minimum_donation : asset)
      (initial_members : list Z) (genesis_video : string) (attributes : list attribute)
      (auction_starting_bid : asset) (auction_duration : Z) (memo : string)
  | h_addtogenesis (member : Z)
  | h_inductinit (id inviter invitee : Z) (witnesses : list Z)
  | h_inductprofil (id : Z) (profile : Inductions.new_member_profile)
  | h_inductmeetin (account id : Z)
  | h_inductvideo (account id : Z) (video : string)
  | h_inductcancel (account id : Z)
  | h_inductdonate (payer id : Z) (quantity : asset)
  | h_inductendors (account id data_hash : Z)
  | h_resign (account : Z)
  | h_rename (old_account new_account : Z)
  | h_electopt (voter : Z) (participating : bool)
  | h_electvote (round voter candidate : Z)
  | h_electmeeting (account round : Z)
  | h_electvideo (round voter : Z) (video : string)
  | h_setencpubkey (member : Z) (k : public_key).

(** A verb of [run]; an index without handler is known by its name. *)
Inductive verb : Type := v_handler (f : handler) | v_unknown (index : Z) (name : string).
Inductive call : Type := c_handler (f : handler) | c_run (verbs : list verb) (extra_data : bool).

Record mint : Type := mk_mint {
  asset_id : Z; authorized_minter : Z; mint_collection : Z; mint_schema : Z; template_id : Z;
  new_asset_owner : Z; immutable_data : list attribute; immutable_template_data : list attribute }.

(** The data of an action, decoded. *)
Inductive action_data : Type :=
  | d_call (c : call)
  | d_transfer (from to : Z) (quantity : asset) (memo : string)
  | d_events (events : list event)
  | d_mint (m : mint)
  | d_nft_transfer (collection from to : Z) (asset_ids : list Z) (memo : string)
  | d_other.
Record action : Type := mk_action {
  firstReceiver : Z; receiver : Z; name : Z; creator : option Z; hexData : action_data }.
Abbreviation transaction := (list action).

(** The tables, with the state of the block being replayed. *)
Record replay : Type := mk_replay { data : db; in_withdraw : bool; in_manual_transfer : bool }.
#[global] Instance set_data : Setter data := fun f r =>
  mk_replay (f (data r)) (in_withdraw r) (in_manual_transfer r).
#[global] Instance set_in_withdraw : Setter in_withdraw := fun f r =>
  mk_replay (data r) (f (in_withdraw r)) (in_manual_transfer r).
#[global] Instance set_in_manual_transfer : Setter in_manual_transfer := fun f r =>
  mk_replay (data r) (in_withdraw r) (f (in_manual_transfer r)).
Definition on_data (f : db -> result db) (r : replay) : result replay :=
  d ← f (data r); Ok (r <| data := d |>).

(** The accounts [initialize] is called with. *)
Class Node : Type := mk_node_accounts {
  eden_account : Z; token_account : Z; atomic_account : Z; atomicmarket_account : Z }.

Definition pool_account (pool : Z) : Z := Z.lor pool 0x0f.
Definition master_pool : Z := pool_account (Name.n "master").

Section handlers.
Context {accounts : Node}.

Definition distribution_fund : Z := wrap 64 (eden_account + 1).

(** The time of the block, as a slot. *)
Context (now : Z).

(** ** Money *)

(** Returns the new balance. *)
Definition add_balance (d : db) (account : Z) (delta : asset) : result (db * asset) :=
  match find (balances d) (by_pk [account]) with
  | Some (i, a) =>
      amount ← Asset.add (Balance.amount a) delta;
      d ← on balances (fun t => modify_row t i (fun a => a <| Balance.amount := amount |>)) d;
      Ok (d, amount)
  | None =>
      d ← on balances (fun t => emplace t (fun _ => Balance.mk account delta)) d;
      Ok (d, delta)
  end.

Definition transfer_funds (from to : Z) (amount : asset) (desc : history_desc) (d : db) : result db :=
  '(d, new_from) ← add_balance d from (Asset.opp amount);
  '(d, new_to) ← add_balance d to amount;
  d ← on balance_history (fun t => emplace t (fun _ =>
        History.mk now from (Asset.opp amount) new_from to desc)) d;
  on balance_history (fun t => emplace t (fun _ => History.mk now to amount new_to from desc)) d.

Definition notify_transfer (from to : Z) (quantity : asset) (r : replay) : result replay :=
  if to =? eden_account then
    r ← on_data (transfer_funds token_account from quantity deposit) r;
    if negb (Accounts.is_possible_deposit_account from atomic_account atomicmarket_account)
    then on_data (transfer_funds from master_pool quantity fund) r
    else Ok r
  else if in_withdraw r then
    r ← on_data (transfer_funds to token_account quantity withdraw) r;
    Ok (r <| in_withdraw := false |>)
  else
    r ← on_data (transfer_funds master_pool to quantity
                   (if in_manual_transfer r then manual_transfer else external_spend)) r;
    r ← on_data (transfer_funds to token_account quantity withdraw) r;
    Ok (r <| in_manual_transfer := false |>).

Definition check_transfer_order (r : replay) : result unit :=
  check (negb (in_withdraw r) && negb (in_manual_transfer r)) "transfer notifications have incorrect order".
Definition withdraw_ (r : replay) : result replay :=
  _ ← check_transfer_order r; Ok (r <| in_withdraw := true |>).
Definition transfer_ (r : replay) : result replay :=
  _ ← check_transfer_order r; Ok (r <| in_manual_transfer := true |>).

Definition donate_ (payer : Z) (quantity : asset) (d : db) : result db :=
  transfer_funds payer master_pool quantity donate d.

(** Takes an amount out of a fund. *)
Definition spend_fund (owner time rank : Z) (amount : asset) (d : db) : result db :=
  on distribution_funds (fun t =>
    p ← get t (by_pk [owner; time; rank]);
    balance ← Asset.sub (Fund.current_balance p.2) amount;
    modify_row t p.1 (fun f => f <| Fund.current_balance := balance |>)) d.
Definition fundtransfer (from distribution_time rank to : Z) (amount : asset) (d : db) : result db :=
  d ← transfer_funds distribution_fund to amount fund_transfer d;
  spend_fund from distribution_time rank amount d.
Definition usertransfer (from to : Z) (amount : asset) (d : db) : result db :=
  transfer_funds from to amount user_transfer d.

(** ** Genesis *)

Definition clearall (d : db) : result db :=
  d ← on status clear_table d;
  d ← on balances clear_table d;
  d ← on balance_history clear_table d;
  d ← on inductions clear_table d;
  d ← on members clear_table d;
  d ← on sessions clear_table d;
  d ← on elections clear_table d;
  d ← on election_rounds clear_table d;
  d ← on election_groups clear_table d;
  d ← on votes clear_table d;
  d ← on distributions clear_table d;
  d ← on distribution_funds clear_table d;
  d ← on nfts clear_table d;
  on encryption_keys clear_table d.

Definition add_genesis_member (initialMembers : list Z) (member : Z) (d : db) : result db :=
  on inductions (fun t => emplace t (fun _ =>
    Induction.mk (available_pk Induction.id t 1) (eden_account, false) member
      ((fun w => (w, false)) <$> filter (fun w => w <> member) initialMembers)
      Inductions.empty_profile "" 0)) d.

Definition genesis (community : string) (community_symbol : Z) (minimum_donation : asset)
    (initial_members : list Z) (genesis_video : string) (attributes : list attribute)
    (auction_starting_bid : asset) (auction_duration : Z) (memo : string) (d : db) : result db :=
  _ ← check (bool_decide (rows (status d) = ∅)) "duplicate genesis action";
  d ← foldM (fun d m => add_genesis_member initial_members m d) initial_members d;
  on status (fun t => emplace t (fun _ =>
    Status.mk false community community_symbol minimum_donation initial_members genesis_video
      attributes auction_starting_bid auction_duration memo 0 0 0 0)) d.

Definition addtogenesis (member : Z) (d : db) : result db :=
  d ← modify_status (fun s => s <| Status.initialMembers ::= fun l => l ++ [member] |>) d;
  d ← on inductions (fun t => modify_all t (ids t) (fun i =>
        i <| Induction.witnesses ::= fun l => l ++ [(member, false)] |>)) d;
  p ← get_status d;
  add_genesis_member (Status.initialMembers p.2) member d.

(** ** Inductions *)

Definition inductinit (id inviter invitee : Z) (witnesses : list Z) (d : db) : result db :=
  p ← get_status d;
  d ← (if Status.active p.2 then Ok d else modify_status (fun s => s <| Status.active := true |>) d);
  on inductions (fun t => add_or_replace t (by_pk [id]) (fun _ =>
    Induction.mk id (inviter, false) invitee ((fun w => (w, false)) <$> witnesses)
      Inductions.empty_profile "" now)) d.

Definition reset_endorsements (i : Induction.object) : Induction.object :=
  i <| Induction.inviter ::= fun p => (p.1, false) |>
    <| Induction.witnesses ::= fmap (fun w => (w.1, false)) |>.
Definition inductprofil (id : Z) (profile : Inductions.new_member_profile) (d : db) : result db :=
  on inductions (fun t => modify t (by_pk [id]) (fun i =>
    reset_endorsements (i <| Induction.profile := profile |>))) d.
Definition inductvideo (id : Z) (video : string) (d : db) : result db :=
  on inductions (fun t => modify t (by_pk [id]) (fun i =>
    reset_endorsements (i <| Induction.video := video |>))) d.
Definition inductcancel (id : Z) (d : db) : result db :=
  on inductions (fun t => remove_if_exists t (by_pk [id])) d.

Definition inductdonate_ (payer id : Z) (quantity : asset) (d : db) : result db :=
  p ← get (inductions d) (by_pk [id]);
  let ind := p.2 in
  video ← (if bool_decide (Induction.video ind = "")
           then s ← get_status d; Ok (Status.genesisVideo s.2)
           else Ok (Induction.video ind));
  d ← on members (fun t => emplace t (fun _ =>
        Member.mk (Induction.invitee ind) (Induction.inviter ind).1 (Induction.witnesses ind).*1
          (Induction.profile ind) video false now)) d;
  d ← transfer_funds payer master_pool quantity inductdonate d;
  on inductions (fun t => remove_all t
    (scan (fun i => Induction.invitee i =? Induction.invitee ind) Induction.id t)) d.

(** The first witness with the account. *)
Fixpoint endorse (account : Z) (l : list (Z * bool)) : list (Z * bool) :=
  match l with
  | [] => []
  | w :: l' => if w.1 =? account then (w.1, true) :: l' else w :: endorse account l'
  end.
Definition inductendors (account id : Z) (d : db) : result db :=
  on inductions (fun t => modify t (by_pk [id]) (fun i =>
    if account =? (Induction.inviter i).1
    then i <| Induction.inviter ::= fun p => (p.1, true) |>
    else i <| Induction.witnesses ::= endorse account |>)) d.

(** ** Members *)

Definition resign (account : Z) (d : db) : result db :=
  on members (fun t => remove_if_exists t (by_pk [account])) d.

Definition renamed (old_account new_account a : Z) : Z := if a =? old_account then new_account else a.
Definition rename (old_account new_account : Z) (d : db) : result db :=
  let u := renamed old_account new_account in
  let by_time2 (time rank : Z) := time * 2 ^ 64 + rank in
  d ← modify_status (fun s => s <| Status.initialMembers ::= fmap u |>) d;
  d ← on balances (fun t => match find t (by_pk [old_account]) with
        | Some (i, _) => modify_row t i (fun b => b <| Balance.account := new_account |>)
        | None => Ok t end) d;
  d ← on balance_history (fun t => modify_all t (ids t) (fun h =>
        h <| History.account ::= u |> <| History.other_account ::= u |>)) d;
  d ← on encryption_keys (fun t => match find t (by_pk [old_account]) with
        | Some (i, _) => modify_row t i (fun k => k <| EncryptionKey.account := new_account |>)
        | None => Ok t end) d;
  d ← on inductions (fun t => modify_all t (ids t) (fun i =>
        i <| Induction.inviter ::= (fun p => (u p.1, p.2)) |>
          <| Induction.witnesses ::= fmap (fun w => (u w.1, w.2)) |>)) d;
  d ← on members (fun t => modify_all t (ids t) (fun m =>
        m <| Member.account ::= u |> <| Member.inviter ::= u |>
          <| Member.inductionWitnesses ::= fmap u |>)) d;
  d ← on election_groups (fun t => modify_all t (ids t) (fun g => g <| Group.winner ::= u |>)) d;
  d ← on votes (fun t => modify_all t (ids t) (fun v =>
        v <| Vote.voter ::= u |> <| Vote.candidate ::= u |>)) d;
  d ← on distribution_funds (fun t => modify_all t
        (scan (fun f => Fund.owner f =? old_account)
           (fun f => by_time2 (Fund.distribution_time f) (Fund.rank f)) t)
        (fun f => f <| Fund.owner := new_account |>)) d;
  d ← on nfts (fun t => modify_all t
        (scan (fun n => NftRow.member n =? old_account)
           (fun n => by_time2 (NftRow.createdAt n) (NftRow.assetId n)) t)
        (fun n => n <| NftRow.member := new_account |>)) d;
  on nfts (fun t => modify_all t
    (scan (fun n => NftRow.owner n =? old_account)
       (fun n => by_time2 (NftRow.createdAt n) (NftRow.assetId n)) t)
    (fun n => n <| NftRow.owner := new_account |>)) d.

Definition setencpubkey (member : Z) (k : public_key) (d : db) : result db :=
  on encryption_keys (fun t => add_or_modify t (by_pk [member]) (fun _ => EncryptionKey.mk member k)
    (fun r => r <| EncryptionKey.account := member |> <| EncryptionKey.encryptionKey := k |>)) d.

(** ** Elections *)

Definition clear_participating (d : db) : result db :=
  d ← on members (fun t => modify_all t (scan Member.participating Member.account t)
        (fun m => m <| Member.participating := false |>)) d;
  modify_status (fun s => s <| Status.numElectionParticipants := 0 |>) d.
Definition electopt (voter : Z) (participating : bool) (d : db) : result db :=
  d ← on members (fun t => modify t (by_pk [voter]) (fun m =>
        m <| Member.participating := participating |>)) d;
  modify_status (fun s => s <| Status.numElectionParticipants ::= fun n =>
    wrap 16 (n + if participating then 1 else -1) |>) d.
Definition electvote (round voter candidate : Z) (d : db) : result db :=
  election ← some_or (Check "electvote without any elections") (last_by Election.time (elections d));
  on votes (fun t => modify t (by_pk [voter; Election.time election.2; round]) (fun v =>
    v <| Vote.candidate := candidate |>)) d.
Definition electvideo (round voter : Z) (video : string) (d : db) : result db :=
  match last_by Election.time (elections d) with
  | None => Ok d
  | Some election =>
      on votes (fun t => match find t (by_pk [voter; Election.time election.2; round]) with
        | Some (i, _) => modify_row t i (fun v => v <| Vote.video := video |>)
        | None => Ok t end) d
  end.

(** ** NFTs *)

(** [find_if] runs from the beginning of the template's attributes to the end
    of the asset's: without an account it leaves its container, unless both
    are empty. *)
Definition logmint (m : mint) (d : db) : result db :=
  if negb (authorized_minter m =? eden_account) || negb (mint_collection m =? eden_account)
     || negb (mint_schema m =? Nft.schema_name) then Ok d
  else
    match head (filter (fun attr : attribute => attr.1 = "account") (immutable_template_data m)) with
    | None =>
        match immutable_template_data m, immutable_data m with
        | [], [] => Ok d
        | _, _ => Err (Trap "find_if past the end of a vector")
        end
    | Some account_pos =>
        text ← some_or (Trap "bad_variant_access") account_pos.2;
        member_account ← Name.of_string text;
        on nfts (fun t =>
          let template_mint := Z.of_nat (length (scan (fun n => NftRow.member n =? member_account)
                                                   NftRow.assetId t)) in
          emplace t (fun _ => NftRow.mk member_account (new_asset_owner m) (template_id m) (asset_id m)
                                (wrap 32 template_mint) now)) d
    end.
Definition logtransfer (collection to : Z) (asset_ids : list Z) (d : db) : result db :=
  if negb (collection =? eden_account) then Ok d
  else foldM (fun d asset_id => on nfts (fun t =>
         match find t (by_pk [asset_id]) with
         | Some (i, _) => modify_row t i (fun n => n <| NftRow.owner := to |>)
         | None => Ok t end) d) asset_ids d.

End handlers.
End MicroChain.
