(* ===== verification/MicroReplay.v ===== *)
(** The events of the contract and the replay of whole blocks
    ([contracts/eden/src/eden-micro-chain.cpp], lines 1871-2254). *)
From S2P Require Import Prelude Name Time Asset Crypto Events Nft Inductions MicroTables MicroChain BlockLog.
Open Scope string_scope.
Open Scope list_scope.
Open Scope Z_scope.

Module MicroReplay.
Import MicroTables MicroChain.

(** [*std::min_element(voters)] of a non-empty list. *)
Definition min_of (l : list Z) : Z :=
  match l with [] => 0 | x :: l' => foldl Z.min x l' end.

Section events.
Context {accounts : Node} (now : Z).

Definition modify_election (time : Z) (f : Election.object -> Election.object) (d : db) : result db :=
  on elections (fun t => modify t (by_pk [time]) f) d.
Definition modify_round (time round : Z) (f : Round.object -> Round.object) (d : db) : result db :=
  on election_rounds (fun t => modify t (by_round [time; round]) f) d.

(** [idx.lower_bound({time, num_rounds - 1, 0})] and the test of what it
    finds: the first group of the last round. *)
Definition final_group (t : table Group.object) (time : Z) (num_rounds : option Z) : option Z :=
  n ← num_rounds;
  head (scan (fun g => (Group.election_time g =? time) && (Group.round g =? n - 1))
          Group.first_member t).

Definition handle_create_group (election_time round : Z) (voters : list Z) (d : db) : result db :=
  _ ← check (negb (Nat.eqb (length voters) 0)) "group has no voters";
  let group_id := next_id (election_groups d) in
  d ← on election_groups (fun t => emplace t (fun _ =>
        Group.mk election_time round (min_of voters) 0)) d;
  foldM (fun d voter => on votes (fun t => emplace t (fun _ =>
    Vote.mk election_time round group_id voter 0 "")) d) voters d.

Definition handle_report_group (election_time round winner : Z) (vs : list Events.vote_report) (d : db)
    : result db :=
  _ ← check (negb (Nat.eqb (length vs) 0)) "group has no votes";
  let first_member := min_of (Events.voter <$> vs) in
  d ← on election_groups (fun t => modify t (by_pk [election_time; round; first_member]) (fun g =>
        g <| Group.winner := winner |>)) d;
  foldM (fun d v => on votes (fun t => modify t (by_pk [Events.voter v; election_time; round])
    (fun w => w <| Vote.candidate := Events.candidate v |>)) d) vs d.

Definition handle_event (ev : event) (d : db) : result db :=
  match ev with
  | Events.migration_event index => modify_status (fun s => s <| Status.migrationIndex := index |>) d
  | Events.election_event_schedule election_time election_threshold =>
      d ← modify_status (fun s => s <| Status.nextElection := election_time |>
                                   <| Status.electionThreshold := election_threshold |>) d;
      on members (fun t => modify_all t (ids t) (fun m => m <| Member.participating := false |>)) d
  | Events.election_event_begin election_time =>
      on elections (fun t => emplace t (fun _ =>
        Election.mk election_time false false None None None None None None)) d
  | Events.election_event_seeding election_time start_time end_time seed =>
      modify_election election_time (fun e => e <| Election.seeding := true |>
        <| Election.seeding_start_time := Some start_time |>
        <| Election.seeding_end_time := Some end_time |> <| Election.seed := Some seed |>) d
  | Events.election_event_end_seeding election_time =>
      modify_election election_time (fun e => e <| Election.seeding := false |>
        <| Election.seeding_start_time := None |> <| Election.seeding_end_time := None |>) d
  | Events.election_event_config_summary election_time num_rounds num_participants =>
      modify_election election_time (fun e => e <| Election.num_rounds := Some num_rounds |>
        <| Election.num_participants := Some num_participants |>) d
  | Events.election_event_create_round election_time round requires_voting num_participants num_groups =>
      on election_rounds (fun t => emplace t (fun _ =>
        Round.mk election_time round num_participants num_groups requires_voting false false false
          false None None)) d
  | Events.election_event_create_group election_time round voters =>
      handle_create_group election_time round voters d
  | Events.election_event_begin_round_voting election_time round voting_begin voting_end =>
      modify_round election_time round (fun r => r <| Round.groups_available := true |>
        <| Round.voting_started := true |> <| Round.voting_begin := Some voting_begin |>
        <| Round.voting_end := Some voting_end |>) d
  | Events.election_event_end_round_voting election_time round =>
      modify_round election_time round (fun r => r <| Round.voting_finished := true |>) d
  | Events.election_event_report_group election_time round winner vs =>
      handle_report_group election_time round winner vs d
  | Events.election_event_end_round election_time round =>
      modify_round election_time round (fun r => r <| Round.results_available := true |>) d
  | Events.election_event_end election_time =>
      let groups := election_groups d in
      d ← modify_election election_time (fun e =>
            let e := e <| Election.results_available := true |> in
            match final_group groups election_time (Election.num_rounds e) with
            | Some i => e <| Election.final_group_id := Some i |>
            | None => e
            end) d;
      clear_participating d
  | Events.distribution_event_schedule distribution_time =>
      on distributions (fun t => emplace t (fun _ =>
        Distribution.mk distribution_time false None None)) d
  | Events.distribution_event_reserve distribution_time pool target_amount =>
      p ← get (distributions d) (by_pk [distribution_time]);
      d ← transfer_funds now (pool_account pool) distribution_fund target_amount reserve_distribution d;
      on distributions (fun t => modify_row t p.1 (fun x =>
        x <| Distribution.target_amount := Some target_amount |>)) d
  | Events.distribution_event_begin distribution_time rank_distribution =>
      on distributions (fun t => modify t (by_pk [distribution_time]) (fun x =>
        x <| Distribution.started := true |>
          <| Distribution.target_rank_distribution := Some rank_distribution |>)) d
  | Events.distribution_event_return_excess distribution_time pool amount =>
      transfer_funds now distribution_fund (pool_account pool) amount return_excess_distribution d
  | Events.distribution_event_return owner distribution_time rank amount pool =>
      d ← transfer_funds now distribution_fund (pool_account pool) amount return_distribution d;
      spend_fund owner distribution_time rank amount d
  | Events.distribution_event_fund owner distribution_time rank balance =>
      on distribution_funds (fun t => emplace t (fun _ =>
        Fund.mk owner distribution_time rank balance balance)) d
  | Events.session_new_event account k expiration description =>
      on sessions (fun t => emplace t (fun _ => Session.mk account k expiration description)) d
  | Events.session_del_event account k =>
      on sessions (fun t => remove_if_exists t (by_session account k)) d
  | Events.set_pool_event _ _ | Events.distribution_event_end _ => Ok d
  end.

(** ** Dispatch *)

Definition run_handler (f : handler) (r : replay) : result replay :=
  match f with
  | h_withdraw _ _ => withdraw_ r
  | h_transfer _ _ _ => transfer_ r
  | h_delsession _ _ | h_inductmeetin _ _ | h_electmeeting _ _ => Ok r
  | h_clearall => on_data clearall r
  | h_donate payer quantity => on_data (donate_ now payer quantity) r
  | h_fundtransfer from time rank to amount _ => on_data (fundtransfer now from time rank to amount) r
  | h_usertransfer from to amount _ => on_data (usertransfer now from to amount) r
  | h_genesis community sym minimum initial video attributes bid duration memo =>
      on_data (genesis community sym minimum initial video attributes bid duration memo) r
  | h_addtogenesis member => on_data (addtogenesis member) r
  | h_inductinit id inviter invitee witnesses => on_data (inductinit now id inviter invitee witnesses) r
  | h_inductprofil id profile => on_data (inductprofil id profile) r
  | h_inductvideo _ id video => on_data (inductvideo id video) r
  | h_inductcancel _ id => on_data (inductcancel id) r
  | h_inductdonate payer id quantity => on_data (inductdonate_ now payer id quantity) r
  | h_inductendors account id _ => on_data (inductendors account id) r
  | h_resign account => on_data (resign account) r
  | h_rename old_account new_account => on_data (rename old_account new_account) r
  | h_electopt voter participating => on_data (electopt voter participating) r
  | h_electvote round voter candidate => on_data (electvote round voter candidate) r
  | h_electvideo round voter video => on_data (electvideo round voter video) r
  | h_setencpubkey member k => on_data (setencpubkey member k) r
  end.

Definition run (verbs : list verb) (extra_data : bool) (r : replay) : result replay :=
  r ← foldM (fun r v => match v with
        | v_handler f => run_handler f r
        | v_unknown index text =>
            Err (Check ("run: verb not found: " ++ to_string index ++ " " ++ text)%string)
        end) verbs r;
  _ ← check (negb extra_data) "unpack error (extra data) within run";
  Ok r.

Definition handler_name (f : handler) : Z :=
  Name.n match f with
  | h_clearall => "clearall" | h_delsession _ _ => "delsession" | h_withdraw _ _ => "withdraw"
  | h_donate _ _ => "donate" | h_transfer _ _ _ => "transfer"
  | h_fundtransfer _ _ _ _ _ _ => "fundtransfer" | h_usertransfer _ _ _ _ => "usertransfer"
  | h_genesis _ _ _ _ _ _ _ _ _ => "genesis" | h_addtogenesis _ => "addtogenesis"
  | h_inductinit _ _ _ _ => "inductinit" | h_inductprofil _ _ => "inductprofil"
  | h_inductmeetin _ _ => "inductmeetin" | h_inductvideo _ _ _ => "inductvideo"
  | h_inductcancel _ _ => "inductcancel" | h_inductdonate _ _ _ => "inductdonate"
  | h_inductendors _ _ _ => "inductendors" | h_resign _ => "resign" | h_rename _ _ => "rename"
  | h_electopt _ _ => "electopt" | h_electvote _ _ _ => "electvote"
  | h_electmeeting _ _ => "electmeeting" | h_electvideo _ _ _ => "electvideo"
  | h_setencpubkey _ _ => "setencpubkey"
  end.
Definition call_name (c : call) : Z :=
  match c with c_handler f => handler_name f | c_run _ _ => Name.n "run" end.
Definition dispatched : list string :=
  ["run"; "clearall"; "delsession"; "withdraw"; "donate"; "transfer"; "fundtransfer"; "usertransfer";
   "genesis"; "addtogenesis"; "inductinit"; "inductprofil"; "inductmeetin"; "inductvideo";
   "inductcancel"; "inductdonate"; "inductendors"; "resign"; "rename"; "electopt"; "electvote";
   "electmeeting"; "electvideo"; "setencpubkey"].

(** What [from_bin] does with data that does not have the handler's type. *)
Definition unpack : error := Trap "from_bin".
Definition run_call (c : call) (r : replay) : result replay :=
  match c with c_handler f => run_handler f r | c_run verbs extra => run verbs extra r end.
Definition dispatch (action_name : Z) (x : action_data) (r : replay) : result replay :=
  if bool_decide (action_name ∈ Name.n <$> dispatched) then
    match x with
    | d_call c => if call_name c =? action_name then run_call c r else Err unpack
    | _ => Err unpack
    end
  else Ok r.

Definition clean_data (d : db) : result unit :=
  if bool_decide (rows (status d) = ∅) then Ok tt else _ ← get_status d; Ok tt.

Definition run_action (r : replay) (a : action) : result replay :=
  if firstReceiver a =? eden_account then dispatch (name a) (hexData a) r
  else if (firstReceiver a =? token_account) && (receiver a =? eden_account)
          && (name a =? Name.n "transfer") then
    match hexData a with
    | d_transfer from to quantity _ => notify_transfer now from to quantity r
    | _ => Err unpack
    end
  else if (firstReceiver a =? Name.n "eosio.null") && (name a =? Name.n "eden.events")
          && bool_decide (creator a = Some eden_account) then
    match hexData a with
    | d_events events => on_data (foldM (fun d ev => handle_event ev d) events) r
    | _ => Err unpack
    end
  else if (firstReceiver a =? atomic_account) && (receiver a =? eden_account) then
    if name a =? Name.n "logmint" then
      match hexData a with d_mint m => on_data (logmint now m) r | _ => Err unpack end
    else if name a =? Name.n "logtransfer" then
      match hexData a with
      | d_nft_transfer collection _ to asset_ids _ => on_data (logtransfer collection to asset_ids) r
      | _ => Err unpack
      end
    else Ok r
  else Ok r.

Definition run_transaction (r : replay) (trx : transaction) : result replay :=
  r ← foldM run_action trx r;
  _ ← clean_data (data r);
  _ ← check (negb (in_withdraw r) && negb (in_manual_transfer r)) "missing transfer notification";
  Ok r.

End events.

(** [filter_block]; times are compared and stored as slots. *)
Definition filter_block `{Node} (block : BlockLog.eosio_block transaction) (d : db) : result db :=
  r ← foldM (run_transaction (Time.block_of_time_point (BlockLog.timestamp block)))
        (BlockLog.transactions block) (mk_replay d false false);
  Ok (data r).

End MicroReplay.
