(* ===== verification/MicroLog.v ===== *)
(** The history node as a whole
    ([contracts/eden/src/eden-micro-chain.cpp], lines 2319-2490): the block
    log, the database, and the entry points that add, finalize, trim and undo
    blocks.  Whatever forks it went through, its tables are the replay of the
    chain it is on. *)
From S2P Require Import Prelude Name Asset BlockLog MicroTables MicroChain MicroReplay.
Open Scope string_scope.
Open Scope list_scope.
Open Scope Z_scope.

Module MicroLog.
Import MicroTables MicroChain MicroReplay.
Import BlockLog(blocks, irreversible, num, id, previous, eosioBlock, in_range, linked).

Abbreviation block := (BlockLog.block_with_id transaction).
Abbreviation eosio_block := (BlockLog.eosio_block transaction).

(** How a block changes the tables: [filter_block], on transactions that are
    decoded or on transactions as they arrive. *)
Class Filter (T : Type) : Type := apply_block : BlockLog.eosio_block T -> db -> result db.
#[global] Instance decoded_filter `{Node} : Filter transaction := filter_block.

Record node (T : Type) : Type := mk_node { block_log : BlockLog.block_log T; database_ : database }.
Arguments mk_node {T}.
Arguments block_log {T}.
Arguments database_ {T}.
Definition initial_node {T} : node T := mk_node BlockLog.empty_log initial_database.

Section node.
Context {T : Type} {apply : Filter T}.
Abbreviation block := (BlockLog.block_with_id T).
Abbreviation eosio_block := (BlockLog.eosio_block T).
(** The id of a block: the SHA-256 of its serialization. *)
Context (block_id : Z -> Z -> eosio_block -> Z).

(** [forked_n_blocks] *)
Fixpoint forked_n_blocks (n : nat) (b : database) : database :=
  match n with O => b | S n' => forked_n_blocks n' (undo b) end.

(** [block_log.irreversible = max(block_log.irreversible, b->num)] *)
Definition raise_irreversible (l : BlockLog.block_log T) (b : option block)
    : BlockLog.block_log T :=
  match b with
  | Some b => BlockLog.mk_log (blocks l) (Z.max (irreversible l) (num b))
  | None => l
  end.

Definition add_block (bi : block) (eosio_irreversible : Z) (n : node T) : result (node T * bool) :=
  let '(l, status, num_forked) := BlockLog.add_block (block_log n) bi in
  match status with
  | BlockLog.appended =>
      let b := forked_n_blocks num_forked (database_ n) in
      let l := raise_irreversible l
                 (BlockLog.block_before_eosio_num (blocks l) (wrap 32 (eosio_irreversible + 1))) in
      let b := commit (irreversible l) b in
      let need_undo := irreversible l <? num bi in
      let b := start_undo_session need_undo b in
      d ← apply_block (eosioBlock bi) (current b);
      let b := mk_database d (saved b) (revision b) in
      b ← (if need_undo then Ok b else set_revision (num bi) b);
      Ok (mk_node l b, true)
  | _ => Ok (n, false)
  end.

(** [add_block] of a block of the outer chain: it gets the next number. *)
Definition next_block (l : list block) (b : eosio_block) : block :=
  match BlockLog.block_before_eosio_num l (BlockLog.eosio_num b) with
  | Some p =>
      let n := wrap 32 (num p + 1) in BlockLog.mk_block n (id p) b (block_id n (id p) b)
  | None => BlockLog.mk_block 1 0 b (block_id 1 0 b)
  end.
Definition add_eosio_block (b : eosio_block) (eosio_irreversible : Z) (n : node T) : result (node T * bool) :=
  add_block (next_block (blocks (block_log n)) b) eosio_irreversible n.

Definition setIrreversible (irr : Z) (n : node T) : node T :=
  let l := raise_irreversible (block_log n)
             (BlockLog.block_before_num (blocks (block_log n)) (wrap 32 (irr + 1))) in
  mk_node l (commit (irreversible l) (database_ n)).
Definition trimBlocks (n : node T) : node T := mk_node (BlockLog.trim (block_log n)) (database_ n).
Definition undoBlockNum (blockNum : Z) (n : node T) : node T :=
  let '(l, removed) := BlockLog.undo (block_log n) blockNum in
  mk_node l (forked_n_blocks removed (database_ n)).
Definition undoEosioNum (eosioNum : Z) (n : node T) : node T :=
  match BlockLog.block_by_eosio_num (blocks (block_log n)) eosioNum with
  | Some b => undoBlockNum (num b) n
  | None => n
  end.

(** What the outside does to the node. *)
Inductive op : Type :=
  | o_addBlock (b : block) (eosio_irreversible : Z)
  | o_addEosioBlock (b : eosio_block) (eosio_irreversible : Z)
  | o_setIrreversible (irr : Z)
  | o_trimBlocks
  | o_undoBlockNum (n : Z)
  | o_undoEosioNum (n : Z).
Definition run_op (n : node T) (o : op) : result (node T) :=
  match o with
  | o_addBlock b irr => fst <$> add_block b irr n
  | o_addEosioBlock b irr => fst <$> add_eosio_block b irr n
  | o_setIrreversible irr => Ok (setIrreversible irr n)
  | o_trimBlocks => Ok (trimBlocks n)
  | o_undoBlockNum k => Ok (undoBlockNum k n)
  | o_undoEosioNum k => Ok (undoEosioNum k n)
  end.
(** Block numbers are [uint32_t]. *)
Definition op_ok (o : op) : Prop := match o with o_addBlock b _ => in_range b | _ => True end.

(** ** The tables are the replay of the chain *)

(** The specification: start from empty tables and replay a whole chain. *)
Definition replay_chain (c : list block) : result db :=
  foldM (fun d b => apply_block (eosioBlock b) d) c empty_db.

(** A database that is the state after a chain and can go back to every block
    after the irreversible one. *)
Record backed (c : list block) (irr : Z) (b : database) : Prop := {
  bk_current : replay_chain c = Ok (current b);
  bk_revision : revision b = Z.of_nat (length c);
  bk_saved : forall i d, saved b !! i = Some d ->
    (i < length c)%nat /\ replay_chain (take (length c - 1 - i) c) = Ok d;
  bk_enough : Z.of_nat (length c) - irr <= Z.of_nat (length (saved b))
}.

(** The blocks of a chain count from one. *)
Record chain_ok (c : list block) : Prop := {
  ch_linked : linked c;
  ch_range : Forall in_range c;
  ch_first : forall b, c !! 0%nat = Some b -> num b = 1
}.

(** [pre] are the blocks that were trimmed. *)
Definition chain (pre : list block) (n : node T) : list block := pre ++ blocks (block_log n).
Record consistent (pre : list block) (n : node T) : Prop := {
  cs_chain : chain_ok (chain pre n);
  cs_irreversible : 0 <= irreversible (block_log n) <= Z.of_nat (length (chain pre n));
  cs_trimmed : pre = [] \/ Z.of_nat (length pre) < irreversible (block_log n);
  cs_backed : backed (chain pre n) (irreversible (block_log n)) (database_ n)
}.

Lemma chain_num c i b : chain_ok c -> c !! i = Some b -> num b = Z.of_nat i + 1.
Proof.
  intros Hc Hi. destruct (lookup_lt_is_Some_2 c 0) as [b0 H0].
  { apply lookup_lt_Some in Hi. lia. }
  rewrite (BlockLog.linked_num c i b b0 (ch_linked _ Hc) H0 Hi), (ch_first _ Hc _ H0). lia.
Qed.

Lemma chain_take c k : chain_ok c -> chain_ok (take k c).
Proof.
  intros [Hl Hr Hf]. split; [by apply BlockLog.linked_take | by apply Forall_take |].
  intros b Hb. apply lookup_take_Some in Hb as [Hb _]. by apply Hf.
Qed.

Lemma replay_snoc c b d d' :
  replay_chain c = Ok d -> apply_block (eosioBlock b) d = Ok d' -> replay_chain (c ++ [b]) = Ok d'.
Proof.
  unfold replay_chain. generalize empty_db as s. revert d.
  induction c as [|x c IH]; intros d s H1 H2; cbn in *.
  - injection H1 as <-. by rewrite H2.
  - destruct (apply_block (eosioBlock x) s) as [s'|]; [|done]. cbn in *. by eapply IH.
Qed.

Lemma undo_one_backed c irr b :
  backed c irr b -> irr < Z.of_nat (length c) -> backed (take (length c - 1) c) irr (undo b).
Proof.
  intros [Hc Hr Hs He] Hlt. destruct b as [d [|d1 l] r]; cbn in *; [lia|].
  destruct (Hs 0%nat d1 eq_refl) as [Hlen Hd1].
  assert (length (take (length c - 1) c) = (length c - 1)%nat) as Hl by (rewrite length_take; lia).
  split; cbn; rewrite ?Hl.
  - by rewrite <- Hd1, Nat.sub_0_r.
  - lia.
  - intros i d' Hi. destruct (Hs (S i) d' Hi) as [Hi' Hd']. split; [lia|].
    rewrite take_take. rewrite <- Hd'. do 2 f_equal. lia.
  - lia.
Qed.

Lemma forked_backed k c irr b :
  backed c irr b -> irr + Z.of_nat k <= Z.of_nat (length c) -> 0 <= irr ->
  backed (take (length c - k) c) irr (forked_n_blocks k b).
Proof.
  revert c b. induction k as [|k IH]; intros c b Hb Hk Hirr.
  - by rewrite Nat.sub_0_r, firstn_all.
  - cbn [forked_n_blocks]. pose proof (undo_one_backed c irr b Hb ltac:(lia)) as H1.
    assert (length (take (length c - 1) c) = (length c - 1)%nat) as Hl by (rewrite length_take; lia).
    specialize (IH _ _ H1). rewrite Hl, take_take in IH.
    replace (length c - S k)%nat with (min (length c - 1 - k) (length c - 1)) by lia.
    apply IH; lia.
Qed.

Lemma commit_saved irr' b i d : saved (commit irr' b) !! i = Some d -> saved b !! i = Some d.
Proof.
  unfold commit. cbn. destruct (_ || _); [|done]. by intros [H _]%lookup_take_Some.
Qed.

Lemma commit_backed c irr irr' b :
  backed c irr b -> irr <= irr' -> backed c irr' (commit irr' b).
Proof.
  intros [Hc Hr Hs He] Hle. split; [done | done | |].
  - intros i d Hi. by apply Hs, (commit_saved irr').
  - unfold commit. cbn. destruct (_ || _); [rewrite length_take|]; lia.
Qed.

Lemma commit_all b irr : revision b <= irr -> saved (commit irr b) = [].
Proof.
  intros H. unfold commit. cbn. rewrite (proj2 (Z.leb_le _ _) H). cbn.
  by replace (Z.to_nat (revision b - irr)) with 0%nat by lia.
Qed.

Lemma backed_mono c irr irr' b : backed c irr b -> irr <= irr' -> backed c irr' b.
Proof. intros [Hc Hr Hs He] Hle. split; [done..|lia]. Qed.

(** The block a successful [add_block] replays. *)
Lemma push_backed c irr b bi d b' :
  backed c irr b -> num bi = Z.of_nat (length c) + 1 ->
  let b1 := start_undo_session (irr <? num bi) (commit irr b) in
  apply_block (eosioBlock bi) (current b1) = Ok d ->
  (if irr <? num bi then Ok (mk_database d (saved b1) (revision b1))
   else set_revision (num bi) (mk_database d (saved b1) (revision b1))) = Ok b' ->
  backed (c ++ [bi]) irr b'.
Proof.
  intros Hb Hn b1 Hd H.
  assert (length (c ++ [bi]) = S (length c)) as Hl by (rewrite length_app; cbn; lia).
  pose proof (commit_backed _ _ irr _ Hb ltac:(lia)) as [Hc Hr Hs He].
  subst b1. destruct (Z.ltb_spec irr (num bi)) as [Hlt|Hge]; cbn in *.
  - injection H as <-. split; cbn; rewrite ?Hl.
    + by eapply replay_snoc.
    + lia.
    + intros [|i] d' Hi; cbn in Hi.
      * injection Hi as <-. split; [lia|].
        replace (S (length c) - 1 - 0)%nat with (length c) by lia. by rewrite take_app_length.
      * destruct (Hs i d' Hi) as [Hi' Hd']. split; [lia|].
        rewrite take_app_le by lia. rewrite <- Hd'. do 2 f_equal. lia.
    + lia.
  - unfold set_revision in H. cbn in H. res_inv. split; cbn; rewrite ?Hl.
    + by eapply replay_snoc.
    + lia.
    + intros i d' Hi. change (saved (commit irr b) !! i = Some d') in Hi.
      rewrite (commit_all b irr) in Hi by lia. done.
    + lia.
Qed.

(** ** Every entry point keeps the node consistent *)

Lemma cut_chain pre n l' k new :
  consistent pre n -> BlockLog.cuts (block_log n) l' k new ->
  pre ++ blocks l' = take (length (chain pre n) - k) (chain pre n) ++ new /\
  irreversible (block_log n) + Z.of_nat k <= Z.of_nat (length (chain pre n)).
Proof.
  intros [Hc Hirr _ _] [Hk Hb _ Hrev]. unfold chain in *. rewrite length_app in *. split.
  - rewrite Hb, take_app_ge by lia. rewrite <- app_assoc. do 3 f_equal. lia.
  - destruct (decide (k = 0%nat)) as [->|Hne]; [lia|].
    destruct (lookup_lt_is_Some_2 (blocks (block_log n)) (length (blocks (block_log n)) - k)) as [x Hx]; [lia|].
    pose proof (Hrev _ x (Nat.le_refl _) Hx) as Hnum.
    rewrite (chain_num _ (length pre + (length (blocks (block_log n)) - k)) x Hc) in Hnum; [lia|].
    rewrite lookup_app_r by lia. by replace (_ - _)%nat with (length (blocks (block_log n)) - k)%nat by lia.
Qed.

Lemma chain_snoc c b :
  chain_ok c -> in_range b -> num b = Z.of_nat (length c) + 1 ->
  (forall p, last c = Some p -> BlockLog.follows p b) -> chain_ok (c ++ [b]).
Proof.
  intros [Hl Hr Hf] Hb Hn Hp. split.
  - apply BlockLog.linked_app. split; [done|]. split; [done|]. cbn. destruct (last c) eqn:E; auto.
  - by apply Forall_app_2; [|constructor].
  - intros b' H. destruct c as [|x c]; cbn in H; [injection H as <-; cbn in Hn; lia | by apply Hf].
Qed.

Lemma continued_chain pre n l' k bi :
  consistent pre n -> in_range bi ->
  BlockLog.cuts (block_log n) l' k [bi] -> BlockLog.continues (block_log n) k bi ->
  let c := take (length (chain pre n) - k) (chain pre n) in
  num bi = Z.of_nat (length c) + 1 /\ chain_ok (c ++ [bi]).
Proof.
  intros Hn Hbi Hcut [Hfirst Hfol] c. pose proof (cut_chain _ _ _ _ _ Hn Hcut) as [_ Hirr].
  pose proof (BlockLog.cut_le _ _ _ _ Hcut) as Hk.
  pose proof (cs_chain _ _ Hn) as Hc. pose proof (cs_irreversible _ _ Hn) as Hi.
  assert (length (chain pre n) = length pre + length (blocks (block_log n)))%nat as Hlen by apply length_app.
  assert (length c = (length (chain pre n) - k)%nat) as Hlc by (unfold c; rewrite length_take; lia).
  assert (num bi = Z.of_nat (length c) + 1 /\ forall p, last c = Some p -> BlockLog.follows p bi) as [Hnum Hp].
  { destruct (decide (k = length (blocks (block_log n)))) as [Heq|Hne].
    - assert (pre = []) as Hpre by (destruct (cs_trimmed _ _ Hn) as [|Ht]; [done | lia]).
      assert (length c = 0%nat) as H0 by (rewrite Hlc, Hlen, Hpre; cbn; lia).
      split; [rewrite H0; auto|]. intros p Hp. by apply nil_length_inv in H0 as ->.
    - destruct (lookup_lt_is_Some_2 (blocks (block_log n)) (length (blocks (block_log n)) - k - 1))
        as [p Hp]; [lia|].
      assert (chain pre n !! (length c - 1)%nat = Some p) as Hcp.
      { unfold chain. rewrite lookup_app_r by lia. rewrite <- Hp. f_equal. lia. }
      pose proof (Hfol p Hp ltac:(lia)) as Hf. split.
      + destruct Hf as [-> _]. rewrite (chain_num _ _ _ Hc Hcp). lia.
      + intros q Hq. assert (c !! (length c - 1)%nat = Some p) as Hcq.
        { rewrite <- Hcp. apply lookup_take_lt. lia. }
        rewrite last_lookup, <- Nat.sub_1_r, Hcq in Hq. by injection Hq as <-. }
  split; [done|]. apply chain_snoc; [by apply chain_take | done | done | done].
Qed.

Lemma raise_spec l b c :
  chain_ok c -> (forall x, b = Some x -> x ∈ c) -> irreversible l <= Z.of_nat (length c) ->
  blocks (raise_irreversible l b) = blocks l /\
  irreversible l <= irreversible (raise_irreversible l b) <= Z.of_nat (length c).
Proof.
  intros Hc Hb Hl. split; [by destruct b|]. destruct b as [b|]; cbn; [|lia].
  destruct (proj1 (list_elem_of_lookup _ _) (Hb b eq_refl)) as [i Hi].
  rewrite (chain_num _ _ _ Hc Hi). apply lookup_lt_Some in Hi. lia.
Qed.

Lemma block_before_elem (l : list block) i b : BlockLog.block_before l i = Some b -> b ∈ l.
Proof. destruct i as [|i]; [done|]. apply list_elem_of_lookup_2. Qed.

Lemma add_block_consistent pre n bi irr n' ok :
  consistent pre n -> in_range bi -> add_block bi irr n = Ok (n', ok) -> consistent pre n'.
Proof.
  intros Hn Hbi H. unfold add_block in H.
  destruct (BlockLog.add_block (block_log n) bi) as [[l st] k] eqn:Hadd.
  destruct st; [|by injection H as <- _|by injection H as <- _].
  pose proof (cs_chain _ _ Hn) as [Hlk Hrg _]. unfold chain in Hlk, Hrg.
  apply BlockLog.linked_app in Hlk as (_ & Hlk & _). apply Forall_app in Hrg as [_ Hrg].
  destruct (BlockLog.add_block_appended _ _ _ _ Hlk Hrg Hbi Hadd) as [Hcut Hcont].
  destruct (cut_chain _ _ _ _ _ Hn Hcut) as [Hch Hk].
  destruct (continued_chain _ _ _ _ _ Hn Hbi Hcut Hcont) as [Hnum Hok].
  pose proof (forked_backed k _ _ _ (cs_backed _ _ Hn) Hk (proj1 (cs_irreversible _ _ Hn))) as Hb.
  set (c := take (length (chain pre n) - k) (chain pre n)) in *.
  pose proof (BlockLog.cut_irreversible _ _ _ _ Hcut) as Hil.
  pose proof (cs_irreversible _ _ Hn) as Hi.
  assert (length (c ++ [bi]) = S (length c)) as Hlc by (rewrite length_app; cbn; lia).
  assert (length c = (length (chain pre n) - k)%nat) as Hlen by (unfold c; rewrite length_take; lia).
  destruct (raise_spec l (BlockLog.block_before_eosio_num (blocks l) (wrap 32 (irr + 1))) (c ++ [bi]) Hok)
    as [Hl2 Hirr2].
  { intros x Hx%block_before_elem. rewrite <- Hch. apply elem_of_app. by right. }
  { lia. }
  set (l2 := raise_irreversible l _) in *.
  apply bind_Ok in H as (d & Hd & H). apply bind_Ok in H as (b' & Hb' & H). injection H as <- <-.
  assert (chain pre (mk_node l2 b') = c ++ [bi]) as Hc' by (unfold chain; cbn; by rewrite Hl2).
  split; cbn [block_log database_]; rewrite ?Hc'; [done | lia | |].
  - destruct (cs_trimmed _ _ Hn) as [|Ht]; [by left|right; lia].
  - eapply push_backed; [|exact Hnum | exact Hd | exact Hb'].
    eapply backed_mono; [exact Hb | lia].
Qed.

Lemma undo_consistent pre n k : consistent pre n -> consistent pre (undoBlockNum k n).
Proof.
  intros Hn. unfold undoBlockNum. destruct (BlockLog.undo (block_log n) k) as [l removed] eqn:Hundo.
  pose proof (cs_chain _ _ Hn) as [Hlk _ _]. unfold chain in Hlk.
  apply BlockLog.linked_app in Hlk as (_ & Hlk & _).
  pose proof (BlockLog.undo_removes _ _ _ _ Hlk Hundo) as Hcut.
  destruct (cut_chain _ _ _ _ _ Hn Hcut) as [Hch Hk]. rewrite app_nil_r in Hch.
  pose proof (BlockLog.cut_irreversible _ _ _ _ Hcut) as Hil.
  pose proof (cs_irreversible _ _ Hn) as Hi.
  split; unfold chain in *; cbn [block_log database_]; rewrite ?Hch, ?Hil, ?length_take.
  - apply chain_take, (cs_chain _ _ Hn).
  - lia.
  - apply (cs_trimmed _ _ Hn).
  - apply forked_backed; [apply (cs_backed _ _ Hn) | done | lia].
Qed.

Lemma set_irreversible_consistent pre n irr : consistent pre n -> consistent pre (setIrreversible irr n).
Proof.
  intros Hn. unfold setIrreversible.
  destruct (raise_spec (block_log n) (BlockLog.block_before_num (blocks (block_log n)) (wrap 32 (irr + 1)))
              (chain pre n) (cs_chain _ _ Hn)) as [Hl Hirr].
  { intros x Hx%block_before_elem. apply elem_of_app. by right. }
  { apply (cs_irreversible _ _ Hn). }
  set (l2 := raise_irreversible _ _) in *. pose proof (cs_irreversible _ _ Hn) as Hi.
  assert (chain pre (mk_node l2 (commit (irreversible l2) (database_ n))) = chain pre n) as Hc.
  { unfold chain. cbn. by rewrite Hl. }
  split; cbn [block_log database_]; rewrite ?Hc; [apply (cs_chain _ _ Hn) | lia | |].
  - destruct (cs_trimmed _ _ Hn) as [|Ht]; [by left|right; lia].
  - eapply commit_backed; [apply (cs_backed _ _ Hn) | lia].
Qed.

Lemma trim_consistent pre n :
  consistent pre n ->
  exists more, consistent (pre ++ more) (trimBlocks n) /\
    chain (pre ++ more) (trimBlocks n) = chain pre n.
Proof.
  intros Hn. set (l := blocks (block_log n)). set (irr := irreversible (block_log n)).
  set (it := BlockLog.lower_bound_by_num l irr). exists (take it l).
  assert (chain (pre ++ take it l) (trimBlocks n) = chain pre n) as Hc.
  { unfold chain, trimBlocks. cbn. fold l irr it. by rewrite <- app_assoc, take_drop. }
  split; [|done]. split; rewrite ?Hc; [apply (cs_chain _ _ Hn) | apply (cs_irreversible _ _ Hn) | |].
  - destruct l as [|b0 l'] eqn:El.
    { rewrite take_nil, app_nil_r. apply (cs_trimmed _ _ Hn). }
    assert (num b0 = Z.of_nat (length pre) + 1) as Hb0.
    { apply (chain_num (chain pre n)); [apply (cs_chain _ _ Hn)|]. unfold chain. fold l. rewrite El.
      by rewrite lookup_app_r, Nat.sub_diag by lia. }
    assert (linked (b0 :: l')) as Hlk.
    { pose proof (cs_chain _ _ Hn) as [Hlk _ _]. unfold chain in Hlk. fold l in Hlk. rewrite El in Hlk.
      by apply BlockLog.linked_app in Hlk as (_ & Hlk & _). }
    destruct (decide (it = 0%nat)) as [->|Hne].
    { cbn [take]. rewrite app_nil_r. apply (cs_trimmed _ _ Hn). }
    right. cbn [trimBlocks BlockLog.trim block_log irreversible]. fold irr.
    unfold it in *. rewrite BlockLog.lower_bound_spec in * by done.
    rewrite length_app, length_take. lia.
  - apply (cs_backed _ _ Hn).
Qed.

Lemma run_op_consistent pre n o n' :
  consistent pre n -> op_ok o -> run_op n o = Ok n' -> exists pre', consistent pre' n'.
Proof.
  intros Hn Ho H. destruct o as [b irr|b irr|irr| |k|k]; cbn in H.
  - apply fmap_Ok in H as ([n1 ok] & H & <-). exists pre. by eapply add_block_consistent.
  - apply fmap_Ok in H as ([n1 ok] & H & <-). exists pre. eapply add_block_consistent; [done| |exact H].
    unfold next_block. destruct (BlockLog.block_before_eosio_num _ _); unfold in_range; cbn; [|lia].
    by apply wrap_bounds.
  - injection H as <-. exists pre. by apply set_irreversible_consistent.
  - injection H as <-. destruct (trim_consistent pre n Hn) as (more & Hm & _). by eexists.
  - injection H as <-. exists pre. by apply undo_consistent.
  - injection H as <-. exists pre. unfold undoEosioNum.
    destruct (BlockLog.block_by_eosio_num _ _); [by apply undo_consistent | done].
Qed.

Lemma initial_consistent : consistent [] initial_node.
Proof. split; cbn; [split; cbn; try done; by constructor | lia | by left |]. split; cbn; try done; lia. Qed.

Lemma ops_consistent (ops : list op) (n : node T) :
  Forall op_ok ops -> foldM run_op ops initial_node = Ok n -> exists pre, consistent pre n.
Proof.
  intros Ho H. revert H Ho. generalize initial_consistent. generalize (@nil (BlockLog.block_with_id T)) as pre.
  generalize (@initial_node T) as m. induction ops as [|o ops IH]; intros m pre Hm H Ho; cbn in H.
  - injection H as <-. by exists pre.
  - apply bind_Ok in H as (m' & H1 & H). apply Forall_cons in Ho as [Ho1 Ho].
    destruct (run_op_consistent _ _ _ _ Hm Ho1 H1) as [pre' Hm']. by eapply IH.
Qed.

(** C1: whatever blocks, forks, finality and undo requests the history node
    was given, its tables are those of replaying, from empty tables, the one
    chain of blocks it is on: the blocks count from one without gaps, they
    end with the blocks of the log, the blocks missing in the log are
    irreversible, and every reversible block can still be undone. *)
Theorem tables_replay_chain (ops : list op) (n : node T) :
  Forall op_ok ops -> foldM run_op ops initial_node = Ok n ->
  exists trimmed,
    let c := trimmed ++ blocks (block_log n) in
    chain_ok c /\ replay_chain c = Ok (current (database_ n)) /\
    Z.of_nat (length trimmed) <= irreversible (block_log n) <= Z.of_nat (length c) /\
    forall k, irreversible (block_log n) + Z.of_nat k <= Z.of_nat (length c) ->
      replay_chain (take (length c - k) c) = Ok (current (forked_n_blocks k (database_ n))).
Proof.
  intros Ho H.
  destruct (ops_consistent ops n Ho H) as [pre Hn].
  exists pre. pose proof Hn as [Hc Hi Ht Hb]. unfold chain in *. split; [done|].
  split; [apply Hb|]. split.
  - destruct Ht as [->|Ht]; [cbn in *|]; lia.
  - intros k Hk. apply (bk_current _ (irreversible (block_log n))). apply forked_backed; [done | done | lia].
Qed.

End node.

(** Two blocks, the second replaced by a fork, then finality and a trim. *)
#[local] Instance demo_accounts : Node := mk_node_accounts (Name.n "eden") (Name.n "eosio.token")
  (Name.n "atomicassets") (Name.n "atomicmarket").
Definition demo_deposit (from q : Z) : list transaction :=
  [[mk_action (Name.n "eosio.token") (Name.n "eden") (Name.n "transfer") None
      (d_transfer (Name.n "alice") (Name.n "eden") (Asset.mk q 1162826500) "")]].
Definition demo_ops : list op :=
  [o_addEosioBlock (BlockLog.mk_eosio 10 100 99 0 (demo_deposit 1 5)) 0;
   o_addEosioBlock (BlockLog.mk_eosio 11 110 100 0 (demo_deposit 1 7)) 0;
   o_addEosioBlock (BlockLog.mk_eosio 11 111 100 0 (demo_deposit 1 9)) 10;
   o_trimBlocks;
   o_addEosioBlock (BlockLog.mk_eosio 12 120 111 0 []) 11;
   o_trimBlocks;
   o_undoEosioNum 12].
Definition demo_id (_ _ : Z) (b : eosio_block) : Z := BlockLog.eosio_id b.

Lemma tables_replay_chain_witness :
  match foldM (run_op demo_id) demo_ops initial_node with
  | Ok n =>
      (map num (blocks (block_log n)) = [2] /\
       get_balance (current (database_ n)) (Name.n "alice") = Some (Asset.mk 14 1162826500)) /\
      exists trimmed,
        let c := trimmed ++ blocks (block_log n) in
        chain_ok c /\ replay_chain c = Ok (current (database_ n)) /\
        Z.of_nat (length trimmed) <= irreversible (block_log n) <= Z.of_nat (length c) /\
        forall k, irreversible (block_log n) + Z.of_nat k <= Z.of_nat (length c) ->
          replay_chain (take (length c - k) c) = Ok (current (forked_n_blocks k (database_ n)))
  | Err _ => False
  end.
Proof.
  destruct (foldM (run_op demo_id) demo_ops initial_node) as [n|e] eqn:E.
  - split; [|apply (tables_replay_chain demo_id demo_ops n); [by repeat constructor | exact E]].
    vm_compute in E. injection E as <-. vm_compute. done.
  - vm_compute in E. discriminate E.
Defined.

End MicroLog.
