(* ===== verification/MicroWf.v ===== *)
(** The indices of the history node's tables: in every state a replay
    reaches, the ids are below the next id and no two rows of a table share a
    key, so that looking up a key finds the one row that has it. *)
From S2P Require Import Prelude Chainbase ChainbaseUndo BlockLog MicroTables MicroChain MicroReplay MicroLog.
Open Scope list_scope.
Open Scope Z_scope.

Module MicroWf.
Import MicroTables MicroChain MicroReplay.

(** ** One table *)

Section table.
Context {V : Type} `{Keyed V}.

Record wf_table (t : table V) : Prop := {
  wf_fresh : forall i v, rows t !! i = Some v -> i < next_id t;
  wf_unique : forall i j v w k, rows t !! i = Some v -> rows t !! j = Some w ->
    k ∈ keys_of i v -> k ∈ keys_of j w -> i = j
}.

Lemma clash_false i j (v w : V) :
  Undo.clash keys_of i v j w = false <-> forall k, k ∈ keys_of i v -> k ∉ keys_of j w.
Proof.
  rewrite <- not_true_iff_false. unfold Undo.clash. rewrite existsb_exists. split.
  - intros Hn k Hk Hk'. apply Hn. exists k. rewrite <- list_elem_of_In. split; [done|].
    by apply bool_decide_eq_true.
  - intros Hn (k & Hk & Hk'). apply list_elem_of_In in Hk. apply bool_decide_eq_true in Hk'. by apply (Hn k).
Qed.

Lemma unique_spec (t : table V) :
  UndoRefinement.unique keys_of (rows t) <->
  forall i j v w k, rows t !! i = Some v -> rows t !! j = Some w ->
    k ∈ keys_of i v -> k ∈ keys_of j w -> i = j.
Proof.
  split.
  - intros Hu i j v w k Hi Hj Hk Hk'. destruct (decide (j = i)) as [|Hne]; [done|].
    pose proof (Hu i j v w Hi Hj Hne) as Hc. by apply (proj1 (clash_false _ _ _ _) Hc) in Hk.
  - intros Hu i j v w Hi Hj Hne. apply clash_false. intros k Hk Hk'. apply Hne. symmetry. by eapply Hu.
Qed.

Lemma table_emplace_Ok t c t' :
  emplace t c = Ok t' ->
  t' = mk_table (<[next_id t := c (next_id t)]> (rows t)) (next_id t + 1) /\
  Undo.fits keys_of (rows t) (next_id t) (c (next_id t)) = true.
Proof. intros Ht. unfold emplace, on_index, Undo.snap_emplace in Ht. cbn in Ht. by res_inv. Qed.
Lemma modify_row_Ok t i f t' :
  modify_row t i f = Ok t' ->
  exists v, rows t !! i = Some v /\ t' = mk_table (<[i := f v]> (rows t)) (next_id t) /\
  Undo.fits keys_of (rows t) i (f v) = true.
Proof.
  intros Ht. unfold modify_row, on_index, Undo.snap_modify in Ht. cbn in Ht. res_inv. eexists; eauto.
Qed.
Lemma remove_row_Ok (t : table V) i t' :
  remove_row t i = Ok t' ->
  is_Some (rows t !! i) /\ t' = mk_table (delete i (rows t)) (next_id t).
Proof.
  intros Ht. unfold remove_row, on_index, Undo.snap_remove in Ht. cbn in Ht. res_inv. eauto.
Qed.
Lemma find_Some t k i v : find t k = Some (i, v) -> rows t !! i = Some v /\ k ∈ keys_of i v.
Proof.
  intros Hf. apply head_Some_elem_of, list_elem_of_filter in Hf as [Hk Hm].
  apply elem_of_map_to_list in Hm. split; [done|]. unfold has_key in Hk.
  by apply Is_true_true, bool_decide_eq_true in Hk.
Qed.
Lemma find_None t k i v : find t k = None -> rows t !! i = Some v -> k ∉ keys_of i v.
Proof.
  intros Hf Hi Hk. unfold find in Hf.
  assert ((i, v) ∈ filter (has_key k) (map_to_list (rows t))) as He.
  { apply list_elem_of_filter. split; [|by apply elem_of_map_to_list].
    by apply Is_true_true, bool_decide_eq_true. }
  destruct (filter _ _); [by apply not_elem_of_nil in He | done].
Qed.
Lemma find_spec t k i v :
  wf_table t -> find t k = Some (i, v) <-> rows t !! i = Some v /\ k ∈ keys_of i v.
Proof.
  intros Ht. split; [apply find_Some|]. intros [Hi Hk]. destruct (find t k) as [[j w]|] eqn:E.
  - apply find_Some in E as [Hj Hk']. pose proof (wf_unique _ Ht _ _ _ _ _ Hi Hj Hk Hk') as <-.
    congruence.
  - by destruct (find_None _ _ _ _ E Hi).
Qed.

Lemma empty_table_wf : wf_table (empty_table (V := V)).
Proof. split; cbn; [intros i v Hi | intros i j v w k Hi]; by rewrite lookup_empty in Hi. Qed.

Lemma emplace_wf t c t' : emplace t c = Ok t' -> wf_table t -> wf_table t'.
Proof.
  intros [-> Hf]%table_emplace_Ok [Hn Hu]. apply unique_spec in Hu. split; [|apply unique_spec]; cbn.
  - intros i v [[<- _]|[_ Hi]]%lookup_insert_Some; [lia|]. apply Hn in Hi. lia.
  - by apply UndoRefinement.unique_insert.
Qed.
Lemma modify_row_wf t i f t' : modify_row t i f = Ok t' -> wf_table t -> wf_table t'.
Proof.
  intros (v & Hi & -> & Hf)%modify_row_Ok [Hn Hu]. apply unique_spec in Hu.
  split; [|apply unique_spec]; cbn.
  - intros j w [[<- _]|[_ Hj]]%lookup_insert_Some; eauto.
  - by apply UndoRefinement.unique_insert.
Qed.
Lemma remove_row_wf (t : table V) i t' : remove_row t i = Ok t' -> wf_table t -> wf_table t'.
Proof.
  intros [_ ->]%remove_row_Ok [Hn Hu]. split; cbn.
  - intros j v [_ Hj]%lookup_delete_Some. eauto.
  - intros j j' v w k [_ Hj]%lookup_delete_Some [_ Hj']%lookup_delete_Some. eauto.
Qed.

Lemma modify_all_wf l f t t' : modify_all t l f = Ok t' -> wf_table t -> wf_table t'.
Proof.
  intros Ht Hw. refine (foldM_inv wf_table _ _ _ _ _ Hw Ht). intros s x s' _ Hs E.
  by eapply modify_row_wf.
Qed.
Lemma remove_all_wf l (t t' : table V) : remove_all t l = Ok t' -> wf_table t -> wf_table t'.
Proof.
  intros Ht Hw. refine (foldM_inv wf_table _ _ _ _ _ Hw Ht). intros s x s' _ Hs E.
  by eapply remove_row_wf.
Qed.
Lemma modify_wf t k f t' : modify t k f = Ok t' -> wf_table t -> wf_table t'.
Proof. unfold modify. intros Ht. res_inv. by eapply modify_row_wf. Qed.
Lemma add_or_modify_wf t k c f t' : add_or_modify t k c f = Ok t' -> wf_table t -> wf_table t'.
Proof.
  unfold add_or_modify. destruct (find t k) as [[i v]|]; [apply modify_row_wf | apply emplace_wf].
Qed.
Lemma add_or_replace_wf t k c t' : add_or_replace t k c = Ok t' -> wf_table t -> wf_table t'.
Proof.
  unfold add_or_replace. intros Ht Hw. apply bind_Ok in Ht as (t1 & Ht1 & Ht).
  eapply emplace_wf; [exact Ht|]. destruct (find t k) as [[i v]|]; [by eapply remove_row_wf | by injection Ht1 as <-].
Qed.
Lemma remove_if_exists_wf t k t' : remove_if_exists t k = Ok t' -> wf_table t -> wf_table t'.
Proof.
  unfold remove_if_exists. destruct (find t k) as [[i v]|]; [apply remove_row_wf | by intros [= <-]].
Qed.
End table.

Create HintDb micro.
#[export] Hint Resolve emplace_wf modify_row_wf remove_row_wf modify_all_wf remove_all_wf modify_wf
  add_or_modify_wf add_or_replace_wf remove_if_exists_wf : micro.

(** ** The database *)

Record wf_db (d : db) : Prop := {
  wf_status : wf_table (status d);
  wf_balances : wf_table (balances d);
  wf_history : wf_table (balance_history d);
  wf_keys : wf_table (encryption_keys d);
  wf_inductions : wf_table (inductions d);
  wf_members : wf_table (members d);
  wf_sessions : wf_table (sessions d);
  wf_elections : wf_table (elections d);
  wf_rounds : wf_table (election_rounds d);
  wf_groups : wf_table (election_groups d);
  wf_votes : wf_table (votes d);
  wf_distributions : wf_table (distributions d);
  wf_funds : wf_table (distribution_funds d);
  wf_nfts : wf_table (nfts d)
}.

Lemma empty_db_wf : wf_db empty_db.
Proof. split; apply empty_table_wf. Qed.

(** A field of the database: changing it leaves the other tables alone. *)
Class Field {V} `{Keyed V} (t : db -> table V) `{!Setter t} : Prop := {
  field_wf d : wf_db d -> wf_table (t d);
  set_wf d r : wf_db d -> wf_table r -> wf_db (d <| t := r |>)
}.
Ltac field := split; [by intros d []|]; intros d r [] ?; split; assumption.
#[export] Instance status_field : Field status. Proof. field. Qed.
#[export] Instance balances_field : Field balances. Proof. field. Qed.
#[export] Instance history_field : Field balance_history. Proof. field. Qed.
#[export] Instance keys_field : Field encryption_keys. Proof. field. Qed.
#[export] Instance inductions_field : Field inductions. Proof. field. Qed.
#[export] Instance members_field : Field members. Proof. field. Qed.
#[export] Instance sessions_field : Field sessions. Proof. field. Qed.
#[export] Instance elections_field : Field elections. Proof. field. Qed.
#[export] Instance rounds_field : Field election_rounds. Proof. field. Qed.
#[export] Instance groups_field : Field election_groups. Proof. field. Qed.
#[export] Instance votes_field : Field votes. Proof. field. Qed.
#[export] Instance distributions_field : Field distributions. Proof. field. Qed.
#[export] Instance funds_field : Field distribution_funds. Proof. field. Qed.
#[export] Instance nfts_field : Field nfts. Proof. field. Qed.

Lemma on_wf {V} `{Keyed V} (t : db -> table V) `{!Setter t} `{!Field t} f d d' :
  on t f d = Ok d' -> wf_db d ->
  (forall r, f (t d) = Ok r -> wf_table (t d) -> wf_table r) -> wf_db d'.
Proof.
  unfold on. intros Hd Hw Hf. res_inv. apply set_wf; [done|]. eapply Hf; [eassumption|].
  by apply field_wf.
Qed.

(** [wf_steps] follows a handler from one table change to the next. *)
Ltac wf_on :=
  match goal with
  | H : on _ _ ?d = Ok ?d', W : wf_db ?d |- _ =>
      let r := fresh "r" in let Hr := fresh "Hr" in let W' := fresh "W" in
      assert (wf_db d') as W' by
        (refine (on_wf _ _ _ _ H W _); intros r Hr ?; cbv beta zeta in Hr; res_inv; eauto with micro);
      clear H
  end.
Ltac wf_steps := cbv zeta in *; res_inv; repeat wf_on; eauto.

Lemma modify_status_wf f d d' : modify_status f d = Ok d' -> wf_db d -> wf_db d'.
Proof. unfold modify_status. intros E W. wf_steps. Qed.
#[export] Hint Resolve modify_status_wf : micro.

Lemma foldM_wf {A} (f : db -> A -> result db) l d d' :
  foldM f l d = Ok d' -> (forall d x d', f d x = Ok d' -> wf_db d -> wf_db d') -> wf_db d -> wf_db d'.
Proof. intros E Hf W. refine (foldM_inv wf_db _ _ _ _ _ W E). intros s x s' _ Ws Es. by eapply Hf. Qed.

Section handlers.
Context {accounts : Node} (now : Z).

Lemma add_balance_keeps_wf d a q d' r : add_balance d a q = Ok (d', r) -> wf_db d -> wf_db d'.
Proof. unfold add_balance. intros E W. wf_steps. Qed.

Lemma transfer_funds_wf from to q desc d d' :
  transfer_funds now from to q desc d = Ok d' -> wf_db d -> wf_db d'.
Proof.
  unfold transfer_funds. intros E W. res_inv.
  repeat match goal with H : add_balance _ _ _ = Ok _ |- _ => apply add_balance_keeps_wf in H; [|assumption] end.
  wf_steps.
Qed.
Hint Resolve transfer_funds_wf : micro.

Lemma spend_fund_wf owner time rank q d d' : spend_fund owner time rank q d = Ok d' -> wf_db d -> wf_db d'.
Proof. unfold spend_fund. intros E W. wf_steps. Qed.

Lemma clearall_wf d d' : clearall d = Ok d' -> wf_db d -> wf_db d'.
Proof. unfold clearall, clear_table. intros E W. wf_steps. Qed.

Lemma add_genesis_member_wf l m d d' : add_genesis_member l m d = Ok d' -> wf_db d -> wf_db d'.
Proof. unfold add_genesis_member. intros E W. wf_steps. Qed.
Lemma genesis_wf c s m l v a b du me d d' : genesis c s m l v a b du me d = Ok d' -> wf_db d -> wf_db d'.
Proof.
  unfold genesis. intros E W. res_inv.
  match goal with H : foldM _ _ _ = Ok _ |- _ =>
    apply foldM_wf in H; [|intros ? ? ?; apply add_genesis_member_wf|assumption] end.
  wf_steps.
Qed.
Lemma addtogenesis_wf m d d' : addtogenesis m d = Ok d' -> wf_db d -> wf_db d'.
Proof.
  unfold addtogenesis. intros E W. res_inv.
  match goal with H : modify_status _ _ = Ok _ |- _ => apply modify_status_wf in H; [|assumption] end.
  wf_steps. by eapply add_genesis_member_wf.
Qed.

Lemma inductinit_wf i a b l d d' : inductinit now i a b l d = Ok d' -> wf_db d -> wf_db d'.
Proof.
  unfold inductinit. intros E W. apply bind_Ok in E as (p & _ & E). apply bind_Ok in E as (d1 & E1 & E).
  assert (wf_db d1) by (destruct (Status.active p.2); [by injection E1 as <- | by eapply modify_status_wf]).
  wf_steps.
Qed.
Lemma inductdonate_wf payer i q d d' : inductdonate_ now payer i q d = Ok d' -> wf_db d -> wf_db d'.
Proof.
  unfold inductdonate_. intros E W. apply bind_Ok in E as (p & _ & E). cbv zeta in E.
  apply bind_Ok in E as (video & _ & E). res_inv.
  wf_on. match goal with H : transfer_funds _ _ _ _ _ _ = Ok _ |- _ => apply transfer_funds_wf in H; [|assumption] end.
  wf_steps.
Qed.
Lemma inductprofil_wf i p d d' : inductprofil i p d = Ok d' -> wf_db d -> wf_db d'.
Proof. unfold inductprofil. intros E W. wf_steps. Qed.
Lemma inductvideo_wf i v d d' : inductvideo i v d = Ok d' -> wf_db d -> wf_db d'.
Proof. unfold inductvideo. intros E W. wf_steps. Qed.
Lemma inductcancel_wf i d d' : inductcancel i d = Ok d' -> wf_db d -> wf_db d'.
Proof. unfold inductcancel. intros E W. wf_steps. Qed.
Lemma inductendors_wf a i d d' : inductendors a i d = Ok d' -> wf_db d -> wf_db d'.
Proof. unfold inductendors. intros E W. wf_steps. Qed.
Lemma resign_wf a d d' : resign a d = Ok d' -> wf_db d -> wf_db d'.
Proof. unfold resign. intros E W. wf_steps. Qed.
Lemma setencpubkey_wf m k d d' : setencpubkey m k d = Ok d' -> wf_db d -> wf_db d'.
Proof. unfold setencpubkey. intros E W. wf_steps. Qed.
Lemma rename_wf a b d d' : rename a b d = Ok d' -> wf_db d -> wf_db d'.
Proof.
  unfold rename. intros E W. cbv zeta in E. apply bind_Ok in E as (d1 & E1 & E).
  apply modify_status_wf in E1; [|done]. wf_steps.
Qed.
Lemma clear_participating_wf d d' : clear_participating d = Ok d' -> wf_db d -> wf_db d'.
Proof. unfold clear_participating. intros E W. wf_steps. by eapply modify_status_wf. Qed.
Lemma electopt_wf v b d d' : electopt v b d = Ok d' -> wf_db d -> wf_db d'.
Proof. unfold electopt. intros E W. wf_steps. by eapply modify_status_wf. Qed.
Lemma electvote_wf r v c d d' : electvote r v c d = Ok d' -> wf_db d -> wf_db d'.
Proof. unfold electvote. intros E W. wf_steps. Qed.
Lemma electvideo_wf r v s d d' : electvideo r v s d = Ok d' -> wf_db d -> wf_db d'.
Proof. unfold electvideo. intros E W. wf_steps. Qed.
Lemma logmint_wf m d d' : logmint now m d = Ok d' -> wf_db d -> wf_db d'.
Proof. unfold logmint. intros E W. wf_steps. Qed.
Lemma logtransfer_wf c to l d d' : logtransfer c to l d = Ok d' -> wf_db d -> wf_db d'.
Proof.
  unfold logtransfer. intros E W. destruct (negb _); [by injection E as <-|].
  apply foldM_wf in E; [done| |done]. intros d1 x d2 E' W'. wf_steps.
Qed.

End handlers.
#[export] Hint Resolve transfer_funds_wf spend_fund_wf clearall_wf genesis_wf addtogenesis_wf inductinit_wf
  inductdonate_wf inductprofil_wf inductvideo_wf inductcancel_wf inductendors_wf resign_wf
  setencpubkey_wf rename_wf clear_participating_wf electopt_wf electvote_wf electvideo_wf logmint_wf
  logtransfer_wf : micro.

#[local] Opaque transfer_funds spend_fund clearall genesis addtogenesis inductinit inductdonate_ inductprofil
  inductvideo inductcancel inductendors resign setencpubkey rename clear_participating electopt electvote
  electvideo logmint logtransfer modify_status.

Section replay.
Context {accounts : Node} (now : Z).

Lemma create_group_wf t r l d d' : handle_create_group t r l d = Ok d' -> wf_db d -> wf_db d'.
Proof.
  unfold handle_create_group. intros E W. cbv zeta in E. res_inv. wf_on.
  match goal with H : foldM _ _ _ = Ok _ |- _ => apply foldM_wf in H; [done| |done] end.
  intros d1 x d2 E' W'. wf_steps.
Qed.
Lemma report_group_wf t r w l d d' : handle_report_group t r w l d = Ok d' -> wf_db d -> wf_db d'.
Proof.
  unfold handle_report_group. intros E W. cbv zeta in E. res_inv. wf_on.
  match goal with H : foldM _ _ _ = Ok _ |- _ => apply foldM_wf in H; [done| |done] end.
  intros d1 x d2 E' W'. wf_steps.
Qed.
Hint Resolve create_group_wf report_group_wf : micro.

Lemma handle_event_wf ev d d' : handle_event now ev d = Ok d' -> wf_db d -> wf_db d'.
Proof.
  intros E W. destruct ev; cbn [handle_event] in E; unfold modify_election, modify_round in E; cbv zeta in E;
    try (by eauto with micro); try (by wf_steps).
  - apply bind_Ok in E as (d1 & E1 & E). apply modify_status_wf in E1; [|done]. wf_steps.
  - apply bind_Ok in E as (d1 & E1 & E). wf_on. eauto with micro.
  - apply bind_Ok in E as (p & _ & E). apply bind_Ok in E as (d1 & E1 & E).
    apply transfer_funds_wf in E1; [|done]. wf_steps.
  - apply bind_Ok in E as (d1 & E1 & E). eauto with micro.
Qed.

Definition wf_replay (r : replay) : Prop := wf_db (data r).

Lemma on_data_wf f r r' :
  on_data f r = Ok r' -> (forall d d', f d = Ok d' -> wf_db d -> wf_db d') -> wf_replay r -> wf_replay r'.
Proof. unfold on_data, wf_replay. intros E Hf W. res_inv. eapply Hf; eauto. Qed.

Lemma donate_wf p q d d' : donate_ now p q d = Ok d' -> wf_db d -> wf_db d'.
Proof. apply transfer_funds_wf. Qed.
Lemma usertransfer_wf a b q d d' : usertransfer now a b q d = Ok d' -> wf_db d -> wf_db d'.
Proof. apply transfer_funds_wf. Qed.
Lemma fundtransfer_wf a t r b q d d' : fundtransfer now a t r b q d = Ok d' -> wf_db d -> wf_db d'.
Proof. unfold fundtransfer. intros E W. res_inv. eauto with micro. Qed.
Hint Resolve donate_wf usertransfer_wf fundtransfer_wf handle_event_wf : micro.

Lemma run_handler_wf f r r' : run_handler now f r = Ok r' -> wf_replay r -> wf_replay r'.
Proof.
  intros E W. destruct f; cbn [run_handler] in E;
    match type of E with
    | on_data _ _ = _ => eapply on_data_wf; [exact E| |exact W]; intros d d' E' W'; eauto with micro
    | Ok _ = _ => injection E as <-; exact W
    | _ => unfold withdraw_, transfer_ in E; res_inv; exact W
    end.
Qed.

Lemma notify_transfer_wf from to q r r' :
  notify_transfer now from to q r = Ok r' -> wf_replay r -> wf_replay r'.
Proof.
  unfold notify_transfer. intros E W. res_inv; subst;
    repeat match goal with H : on_data _ _ = Ok _ |- _ =>
      eapply on_data_wf in H; [|intros d d'; apply transfer_funds_wf|eassumption] end; done.
Qed.

Lemma run_action_wf r a r' : run_action now r a = Ok r' -> wf_replay r -> wf_replay r'.
Proof.
  unfold run_action, dispatch. intros E W.
  res_inv; subst; try done; try (by eapply notify_transfer_wf; eauto);
    try (eapply on_data_wf; [exact E| |exact W]; intros d d' E' W'; eauto with micro).
  - destruct c as [f|verbs extra]; cbn in E; [by eapply run_handler_wf|]. unfold run in E. res_inv.
    match goal with H : foldM _ _ _ = Ok _ |- _ => refine (foldM_inv wf_replay _ _ _ _ _ W H) end.
    intros s v s' _ Ws Es. destruct v; [by eapply run_handler_wf | done].
  - eapply foldM_wf; [exact E'| |done]. intros d0 x d0'. apply handle_event_wf.
Qed.

End replay.

Lemma filter_block_wf {accounts : Node} b d d' : filter_block b d = Ok d' -> wf_db d -> wf_db d'.
Proof.
  unfold filter_block. intros E W. apply bind_Ok in E as (r & E & E'). injection E' as <-.
  assert (wf_replay (mk_replay d false false)) as Wr by exact W.
  refine (foldM_inv wf_replay _ _ _ _ _ Wr E). intros s trx s' _ Ws Es. unfold run_transaction in Es.
  res_inv. match goal with H : foldM _ _ _ = Ok _ |- _ => refine (foldM_inv wf_replay _ _ _ _ _ Ws H) end.
  intros s1 a s2 _ W1 E1. by eapply run_action_wf.
Qed.

(** ** Every reachable state *)

Lemma replay_chain_wf {accounts : Node} (c : list MicroLog.block) d : MicroLog.replay_chain c = Ok d -> wf_db d.
Proof.
  intros E. refine (foldM_inv wf_db _ _ _ _ _ empty_db_wf E). intros s b s' _ W E'.
  by eapply filter_block_wf.
Qed.

(** C8: after any replay every table of the history node is well formed: its
    ids are below the next id, no two rows share a key of a unique index, and
    therefore looking a key up in any of the fourteen tables finds a row
    exactly when some row has the key, and then that row. *)
Theorem indices_are_exact {accounts : Node} (c : list MicroLog.block) d :
  MicroLog.replay_chain c = Ok d ->
  wf_db d /\
  forall V `{Keyed V} (t : db -> table V) `{!Setter t} `{!Field t} k i v,
    find (t d) k = Some (i, v) <-> rows (t d) !! i = Some v /\ k ∈ keys_of i v.
Proof.
  intros E. apply replay_chain_wf in E. split; [done|]. intros V HK t St Ft k i v.
  by apply find_spec, field_wf.
Qed.

Lemma indices_are_exact_witness :
  let accounts := MicroLog.demo_accounts in
  let c := [BlockLog.mk_block 1 0 (BlockLog.mk_eosio 10 100 99 0 (MicroLog.demo_deposit 1 5)) 7] in
  match MicroLog.replay_chain c with
  | Ok d => wf_db d /\
      forall V `{Keyed V} (t : db -> table V) `{!Setter t} `{!Field t} k i v,
        find (t d) k = Some (i, v) <-> rows (t d) !! i = Some v /\ k ∈ keys_of i v
  | Err _ => False
  end.
Proof.
  cbv zeta. destruct (MicroLog.replay_chain _) as [d|e] eqn:E.
  - exact (indices_are_exact _ d E).
  - vm_compute in E. discriminate E.
Defined.

End MicroWf.
