(* ===== verification/MicroLedger.v ===== *)
(** The money the history node keeps track of: the invariants its source
    states for the balances and their history
    ([contracts/eden/src/eden-micro-chain.cpp], lines 252-258 and 306-308). *)
From S2P Require Import Prelude Asset Ledger Events BlockLog MicroTables MicroChain MicroReplay MicroLog MicroWf.
Open Scope list_scope.
Open Scope Z_scope.

Module MicroLedger.
Import MicroTables MicroChain MicroReplay MicroWf.
Import Asset(ranged).

(** ** More on tables *)

Section table.
Context {V : Type} `{Keyed V}.

Lemma modify_all_rows (t : table V) l f t' j :
  modify_all t l f = Ok t' -> NoDup l ->
  next_id t' = next_id t /\
  rows t' !! j = if bool_decide (j ∈ l) then f <$> rows t !! j else rows t !! j.
Proof.
  revert t. induction l as [|i l IH]; intros t E Hn; unfold modify_all in E; cbn [foldM] in E.
  - injection E as <-. split; [done|]. by rewrite bool_decide_eq_false_2 by apply not_elem_of_nil.
  - apply bind_Ok in E as (t1 & (v & Hi & -> & _)%modify_row_Ok & E).
    apply NoDup_cons in Hn as [Hil Hn]. destruct (IH _ E Hn) as [Hnext Hrow]. split; [done|].
    rewrite Hrow. cbn. destruct (decide (j = i)) as [->|Hne].
    + rewrite bool_decide_eq_false_2, bool_decide_eq_true_2 by (done || left).
      by rewrite lookup_insert_eq, Hi.
    + rewrite lookup_insert_ne by done. destruct (decide (j ∈ l)) as [Hl|Hl].
      * by rewrite !bool_decide_eq_true_2 by (done || by right).
      * rewrite !bool_decide_eq_false_2; [done|by intros [|]%elem_of_cons|done].
Qed.

Lemma ids_spec (t : table V) i : i ∈ ids t <-> is_Some (rows t !! i).
Proof.
  unfold ids. rewrite merge_sort_Permutation, elem_of_elements. apply elem_of_dom.
Qed.
Lemma ids_NoDup (t : table V) : NoDup (ids t).
Proof. unfold ids. rewrite merge_sort_Permutation. apply NoDup_elements. Qed.

(** A loop over the whole table maps it. *)
Lemma modify_all_ids (t : table V) f t' :
  modify_all t (ids t) f = Ok t' -> t' = mk_table (f <$> rows t) (next_id t).
Proof.
  intros E. assert (next_id t' = next_id t /\ rows t' = f <$> rows t) as [Hn Hr].
  { split; [by destruct (modify_all_rows _ _ _ _ 0 E (ids_NoDup t))|].
    apply map_eq. intros j. destruct (modify_all_rows _ _ _ _ j E (ids_NoDup t)) as [_ ->].
    rewrite lookup_fmap. destruct (rows t !! j) eqn:Ej; [|by case_bool_decide].
    rewrite bool_decide_eq_true_2; [done|]. apply ids_spec. eauto. }
  destruct t'. cbn in *. by subst.
Qed.

Lemma clear_table_rows (t : table V) t' : clear_table t = Ok t' -> rows t' = ∅ /\ next_id t' = next_id t.
Proof.
  unfold clear_table, remove_all. intros E.
  assert (forall l t1, foldM remove_row l t1 = Ok t' ->
    next_id t' = next_id t1 /\ forall j, rows t' !! j = if bool_decide (j ∈ l) then None else rows t1 !! j) as Hall.
  { clear. intros l. induction l as [|i l IH]; intros t1 E; cbn in E.
    - injection E as <-. split; [done|]. intros j. by rewrite bool_decide_eq_false_2 by apply not_elem_of_nil.
    - apply bind_Ok in E as (t2 & [_ ->]%remove_row_Ok & E). apply IH in E as [Hn Hr]. split; [done|].
      intros j. rewrite Hr. cbn. destruct (decide (j ∈ l)) as [Hl|Hl].
      + by rewrite !bool_decide_eq_true_2 by (done || by right).
      + rewrite bool_decide_eq_false_2 by done. destruct (decide (j = i)) as [->|Hne].
        * by rewrite bool_decide_eq_true_2, lookup_delete_eq by left.
        * rewrite bool_decide_eq_false_2, lookup_delete_ne; [done..|by intros [|]%elem_of_cons]. }
  apply Hall in E as [Hn Hr]. split; [|done]. apply map_eq. intros j. rewrite Hr, lookup_empty.
  destruct (rows t !! j) eqn:Ej; [|by case_bool_decide]. rewrite bool_decide_eq_true_2; [done|].
  apply ids_spec. eauto.
Qed.
End table.

Section sums.
Context {K A B : Type} `{Countable K}.
Lemma map_sum_fmap (f : B -> Z) (g : A -> B) (m : gmap K A) :
  map_sum f (g <$> m) = map_sum (fun a => f (g a)) m.
Proof.
  induction m as [|k a m Hk IH] using map_ind; [by rewrite fmap_empty, !map_sum_empty|].
  rewrite fmap_insert, !map_sum_insert; [by rewrite IH | done |]. by rewrite lookup_fmap, Hk.
Qed.
Lemma map_sum_plus (f g : A -> Z) (m : gmap K A) :
  map_sum (fun a => f a + g a) m = map_sum f m + map_sum g m.
Proof.
  induction m as [|k a m Hk IH] using map_ind; [by rewrite !map_sum_empty|].
  rewrite !map_sum_insert by done. lia.
Qed.
End sums.

(** ** The invariants *)

(** The amounts in a currency of the accounts [p] selects. *)
Definition weigh (p : Z -> bool) (sym account : Z) (q : asset) : Z :=
  if p account then Ledger.in_symbol sym q else 0.
Definition held (p : Z -> bool) (sym : Z) (d : db) : Z :=
  map_sum (fun b => weigh p sym (Balance.account b) (Balance.amount b)) (rows (balances d)).
Definition moved (p : Z -> bool) (sym : Z) (d : db) : Z :=
  map_sum (fun h => weigh p sym (History.account h) (History.delta h)) (rows (balance_history d)).
Definition everyone (_ : Z) : bool := true.

Record twin (h h' : History.object) : Prop := {
  tw_time : History.time h' = History.time h;
  tw_account : History.account h' = History.other_account h;
  tw_other : History.other_account h' = History.account h;
  tw_delta : History.delta h = Asset.opp (History.delta h');
  tw_description : History.description h' = History.description h
}.
(** The records come in pairs of consecutive ids. *)
Definition twins (m : gmap Z History.object) : Prop :=
  forall k, match m !! (2 * k), m !! (2 * k + 1) with
            | Some h, Some h' => twin h h'
            | None, None => True
            | _, _ => False
            end.

Record books (d : db) : Prop := {
  bk_balances : wf_table (balances d);
  bk_history : wf_table (balance_history d);
  bk_ranged : forall i b, rows (balances d) !! i = Some b -> ranged (Balance.amount b);
  bk_zero : forall sym, held everyone sym d = 0;
  bk_match : forall p sym, held p sym d = moved p sym d;
  bk_even : exists n, next_id (balance_history d) = 2 * n;
  bk_twins : twins (rows (balance_history d))
}.

Lemma books_empty : books empty_db.
Proof.
  split; [apply empty_table_wf | apply empty_table_wf | | done | done | by exists 0 | done].
  intros i b Hi. cbn in Hi. by rewrite lookup_empty in Hi.
Qed.

(** A change of other tables. *)
Definition same_money (d d' : db) : Prop :=
  balances d' = balances d /\ balance_history d' = balance_history d.
Lemma same_books d d' : same_money d d' -> books d -> books d'.
Proof.
  intros [Hb Hh] [H1 H2 H3 H4 H5 H6 H7]. unfold held, moved in *.
  split; unfold held, moved; rewrite ?Hb, ?Hh; done.
Qed.

Lemma opp_ranged q : ranged q -> ranged (Asset.opp q).
Proof. unfold ranged, Asset.max_amount. intros Hq. cbn. rewrite Asset.swrap64_small; lia. Qed.
Lemma weigh_opp p sym a q : ranged q -> weigh p sym a (Asset.opp q) = - weigh p sym a q.
Proof.
  unfold ranged, Asset.max_amount. intros Hq. unfold weigh, Ledger.in_symbol. cbn.
  rewrite Asset.swrap64_small by lia. destruct (p a), (Asset.symbol q =? sym); lia.
Qed.
Lemma weigh_add p sym a x q y :
  ranged x -> ranged q -> Asset.add x q = Ok y -> weigh p sym a y = weigh p sym a x + weigh p sym a q.
Proof.
  intros Hx Hq E. apply Asset.add_Ok in E as (Hs & Ha & Hs' & _); [|done|done].
  unfold weigh, Ledger.in_symbol. rewrite Hs, Hs', Ha. destruct (p a), (Asset.symbol x =? sym); lia.
Qed.

(** [add_balance] changes what an account holds by the amount. *)
Record credited (d d' : db) (a : Z) (q : asset) : Prop := {
  cr_wf : wf_table (balances d');
  cr_history : balance_history d' = balance_history d;
  cr_ranged : forall i b, rows (balances d') !! i = Some b -> ranged (Balance.amount b);
  cr_held : forall p sym, held p sym d' = held p sym d + weigh p sym a q
}.
Lemma add_balance_credits d a q d' r :
  wf_table (balances d) -> (forall i b, rows (balances d) !! i = Some b -> ranged (Balance.amount b)) ->
  ranged q -> add_balance d a q = Ok (d', r) -> credited d d' a q.
Proof.
  intros Hw Hr Hq E. unfold add_balance in E. destruct (find (balances d) (by_pk [a])) as [[i b]|] eqn:Ef.
  - apply find_Some in Ef as [Hi Hk]. apply list_elem_of_singleton in Hk. injection Hk as Ha.
    apply bind_Ok in E as (y & Ey & E). apply bind_Ok in E as (d1 & E1 & E). injection E as <- <-.
    unfold on in E1. apply bind_Ok in E1 as (t & Et & E1). injection E1 as <-.
    pose proof (modify_row_wf _ _ _ _ Et Hw) as Hw'. apply modify_row_Ok in Et as (b' & Hi' & -> & _).
    rewrite Hi in Hi'. injection Hi' as <-. split; cbn; [done | done | |].
    + intros j c [[<- <-]|[_ Hj]]%lookup_insert_Some; [|by eapply Hr].
      cbn. by apply Asset.add_ranged in Ey as [Hy _].
    + intros p sym. unfold held. cbn. rewrite (map_sum_update _ _ b) by done. cbn.
      rewrite (weigh_add _ _ _ _ _ _ (Hr _ _ Hi) Hq Ey), Ha. lia.
  - apply bind_Ok in E as (d1 & E1 & E). injection E as <- <-.
    unfold on in E1. apply bind_Ok in E1 as (t & Et & E1). injection E1 as <-.
    pose proof (emplace_wf _ _ _ Et Hw) as Hw'. apply table_emplace_Ok in Et as [-> _]. split; cbn; [done | done | |].
    + intros j c [[<- <-]|[_ Hj]]%lookup_insert_Some; [done|by eapply Hr].
    + intros p sym. unfold held. cbn. rewrite map_sum_insert; [cbn; lia|].
      destruct (rows (balances d) !! _) eqn:En; [|done]. apply (wf_fresh _ Hw) in En. lia.
Qed.

Lemma twins_snoc m n h h' :
  (forall i x, m !! i = Some x -> i < 2 * n) -> twins m -> twin h h' ->
  twins (<[2 * n + 1 := h']> (<[2 * n := h]> m)).
Proof.
  intros Hf Ht Hh k. destruct (decide (k = n)) as [->|Hne].
  - rewrite lookup_insert_ne, lookup_insert_eq, lookup_insert_eq by lia. done.
  - rewrite !lookup_insert_ne by lia. apply Ht.
Qed.

Lemma transfer_funds_books now from to q desc d d' :
  ranged q -> transfer_funds now from to q desc d = Ok d' -> books d -> books d'.
Proof.
  intros Hq E B. unfold transfer_funds in E.
  apply bind_Ok in E as ([d1 r1] & E1 & E). apply bind_Ok in E as ([d2 r2] & E2 & E).
  destruct (add_balance_credits _ _ _ _ _ (bk_balances _ B) (bk_ranged _ B) (opp_ranged _ Hq) E1) as [W1 H1 R1 S1].
  destruct (add_balance_credits _ _ _ _ _ W1 R1 Hq E2) as [W2 H2 R2 S2].
  unfold on in E. apply bind_Ok in E as (d3 & E3 & E).
  apply bind_Ok in E3 as (t3 & E3 & E3'). injection E3' as <-.
  apply bind_Ok in E as (t4 & E4 & E4'). injection E4' as <-. cbn in E4.
  rewrite H2, H1 in E3. pose proof (emplace_wf _ _ _ E3 (bk_history _ B)) as W3.
  pose proof (emplace_wf _ _ _ E4 W3) as W4.
  apply table_emplace_Ok in E3 as [-> _]. apply table_emplace_Ok in E4 as [-> _]. cbn in *.
  destruct (bk_even _ B) as [n Hn].
  assert (forall p sym, held p sym d2 = held p sym d + weigh p sym to q - weigh p sym from q) as Hheld.
  { intros p sym. rewrite S2, S1, weigh_opp by done. lia. }
  assert (forall i, next_id (balance_history d) <= i -> rows (balance_history d) !! i = None) as Hfresh.
  { intros i Hi. destruct (rows (balance_history d) !! i) eqn:En; [|done].
    apply (wf_fresh _ (bk_history _ B)) in En. lia. }
  split; cbn; [done | done | done | | | |].
  - intros sym. change (held everyone sym d2 = 0). rewrite Hheld, (bk_zero _ B). unfold weigh. cbn. lia.
  - intros p sym. change (held p sym d2 = moved p sym (d2 <| balance_history := mk_table
      (<[next_id (balance_history d) + 1 := History.mk now to q r2 from desc]>
        (<[next_id (balance_history d) := History.mk now from (Asset.opp q) r1 to desc]>
          (rows (balance_history d)))) (next_id (balance_history d) + 1 + 1) |>)).
    rewrite Hheld. unfold moved. cbn. rewrite !map_sum_insert; [|apply Hfresh; lia|].
    + cbn. rewrite weigh_opp by done. pose proof (bk_match _ B p sym) as Hm. unfold moved in Hm. lia.
    + rewrite lookup_insert_ne by lia. apply Hfresh. lia.
  - exists (n + 1). lia.
  - rewrite Hn. apply twins_snoc; [|apply (bk_twins _ B)|by split].
    intros i x Hi. rewrite <- Hn. by eapply (wf_fresh _ (bk_history _ B)).
Qed.

(** ** Handlers that do not move money *)

Class Apart {V} (t : db -> table V) `{!Setter t} : Prop :=
  apart : forall d r, same_money d (d <| t := r |>).
#[export] Instance status_apart : Apart status. Proof. done. Qed.
#[export] Instance keys_apart : Apart encryption_keys. Proof. done. Qed.
#[export] Instance inductions_apart : Apart inductions. Proof. done. Qed.
#[export] Instance members_apart : Apart members. Proof. done. Qed.
#[export] Instance sessions_apart : Apart sessions. Proof. done. Qed.
#[export] Instance elections_apart : Apart elections. Proof. done. Qed.
#[export] Instance rounds_apart : Apart election_rounds. Proof. done. Qed.
#[export] Instance groups_apart : Apart election_groups. Proof. done. Qed.
#[export] Instance votes_apart : Apart votes. Proof. done. Qed.
#[export] Instance distributions_apart : Apart distributions. Proof. done. Qed.
#[export] Instance funds_apart : Apart distribution_funds. Proof. done. Qed.
#[export] Instance nfts_apart : Apart nfts. Proof. done. Qed.

Lemma on_apart {V} (t : db -> table V) `{!Setter t} `{!Apart t} f d d' :
  on t f d = Ok d' -> books d -> books d'.
Proof. unfold on. intros E B. res_inv. eapply same_books; [apply apart|done]. Qed.

(** Follows a handler through the changes of other tables. *)
Ltac apart_on :=
  match goal with
  | H : on _ _ ?d = Ok ?d', B : books ?d |- _ =>
      let B' := fresh "B" in
      assert (books d') as B' by (refine (on_apart _ _ _ _ H B)); clear H
  | H : transfer_funds _ _ _ _ _ ?d = Ok ?d', B : books ?d |- _ =>
      let B' := fresh "B" in
      assert (books d') as B' by (eapply transfer_funds_books; [|exact H|exact B]; done); clear H
  end.
Ltac apart_steps := cbv zeta in *; res_inv; repeat apart_on; eauto.

Lemma foldM_books {A} (f : db -> A -> result db) l d d' :
  foldM f l d = Ok d' -> (forall d x d', f d x = Ok d' -> books d -> books d') -> books d -> books d'.
Proof. intros E Hf B. refine (foldM_inv books _ _ _ _ _ B E). intros s x s' _ Bs Es. by eapply Hf. Qed.
Ltac apart_loop :=
  match goal with
  | H : foldM _ _ ?d = Ok ?d', B : books ?d |- _ =>
      let B' := fresh "B" in
      assert (books d') as B' by
        (refine (foldM_books _ _ _ _ H _ B); let E := fresh "E" in intros ? ? ? E ?;
         cbv beta in E; res_inv; repeat apart_on; eauto); clear H
  end.

Lemma modify_status_books f d d' : modify_status f d = Ok d' -> books d -> books d'.
Proof. unfold modify_status. intros E B. apart_steps. Qed.

Section handlers.
Context {accounts : Node} (now : Z).

Lemma spend_fund_books owner time rank q d d' : spend_fund owner time rank q d = Ok d' -> books d -> books d'.
Proof. unfold spend_fund. intros E B. apart_steps. Qed.

Lemma clearall_books d d' : clearall d = Ok d' -> books d -> books d'.
Proof.
  unfold clearall. intros E B.
  apply bind_Ok in E as (d1 & E1 & E). apply (on_apart _ _ _ _ E1) in B. clear E1.
  apply bind_Ok in E as (d2 & E2 & E). apply bind_Ok in E as (d3 & E3 & E).
  assert (books d3) as B3.
  { unfold on in E2, E3. apply bind_Ok in E2 as (t2 & E2 & E2'). injection E2' as <-.
    apply bind_Ok in E3 as (t3 & E3 & E3'). injection E3' as <-. cbn in E3.
    pose proof (remove_all_wf _ _ _ E2 (bk_balances _ B)) as W2.
    pose proof (remove_all_wf _ _ _ E3 (bk_history _ B)) as W3.
    apply clear_table_rows in E2 as [R2 _]. apply clear_table_rows in E3 as [R3 N3].
    split; cbn; [done | done | | | | |].
    - intros i b Hi. rewrite R2, lookup_empty in Hi. done.
    - intros sym. unfold held. cbn. by rewrite R2.
    - intros p sym. unfold held, moved. cbn. by rewrite R2, R3.
    - rewrite N3. apply (bk_even _ B).
    - rewrite R3. done. }
  apart_steps.
Qed.

(** A renaming moves what the old account held, and its history, to the new
    one. *)
Lemma weigh_renamed p sym a u q : weigh p sym (u a) q = weigh (fun x => p (u x)) sym a q.
Proof. done. Qed.

Lemma rename_balances a b (t t' : table Balance.object) :
  wf_table t ->
  match find t (by_pk [a]) with
  | Some (i, _) => modify_row t i (fun r => r <| Balance.account := b |>)
  | None => Ok t
  end = Ok t' ->
  rows t' = (fun r => r <| Balance.account ::= renamed a b |>) <$> rows t.
Proof.
  intros Hw E. destruct (find t (by_pk [a])) as [[i r]|] eqn:Ef.
  - apply find_Some in Ef as [Hi Hk]. apply list_elem_of_singleton in Hk. injection Hk as Ha.
    apply modify_row_Ok in E as (r' & Hi' & -> & _). rewrite Hi in Hi'. injection Hi' as <-. cbn.
    apply map_eq. intros j. rewrite lookup_fmap. destruct (decide (j = i)) as [->|Hne].
    + rewrite lookup_insert_eq, Hi. cbn. unfold renamed, set_field, Balance.set_account.
      by rewrite <- Ha, Z.eqb_refl.
    + rewrite lookup_insert_ne by done. destruct (rows t !! j) as [x|] eqn:Ej; [|done]. cbn.
      unfold renamed, set_field, Balance.set_account. destruct (Z.eqb_spec (Balance.account x) a) as [Hx|Hx]; [|by destruct x].
      exfalso. apply Hne. apply (wf_unique _ Hw j i x r (by_pk [a])); [done | done | |];
        unfold keys_of, Balance.keyed; [rewrite Hx | rewrite <- Ha]; left.
  - injection E as <-. rewrite <- (map_fmap_id (rows t)) at 1. apply map_fmap_ext. intros i x Hi.
    pose proof (find_None _ _ _ _ Ef Hi) as Hk. unfold renamed, set_field, Balance.set_account.
    destruct (Z.eqb_spec (Balance.account x) a) as [Hx|Hx]; [|by destruct x].
    exfalso. apply Hk. unfold keys_of, Balance.keyed. rewrite Hx. left.
Qed.

Lemma twins_fmap (m : gmap Z History.object) f :
  (forall h h', twin h h' -> twin (f h) (f h')) -> twins m -> twins (f <$> m).
Proof.
  intros Hf Ht k. rewrite !lookup_fmap. specialize (Ht k).
  destruct (m !! (2 * k)), (m !! (2 * k + 1)); cbn; auto.
Qed.

Lemma rename_money_books a b d d1 d2 :
  on balances (fun t => match find t (by_pk [a]) with
    | Some (i, _) => modify_row t i (fun r => r <| Balance.account := b |>)
    | None => Ok t end) d = Ok d1 ->
  on balance_history (fun t => modify_all t (ids t) (fun h =>
    h <| History.account ::= renamed a b |> <| History.other_account ::= renamed a b |>)) d1 = Ok d2 ->
  books d -> books d2.
Proof.
  intros E1 E2 B. unfold on in E1, E2. apply bind_Ok in E1 as (t1 & E1 & E1'). injection E1' as <-.
  apply bind_Ok in E2 as (t2 & E2 & E2'). injection E2' as <-. cbn in E2.
  assert (wf_table t1) as W1.
  { destruct (find _ _) as [[i r]|]; [|injection E1 as <-; apply B].
    eapply modify_row_wf; [exact E1 | apply B]. }
  pose proof (modify_all_wf _ _ _ _ E2 (bk_history _ B)) as W2.
  apply (rename_balances a b _ _ (bk_balances _ B)) in E1. apply modify_all_ids in E2.
  assert (forall p sym, held p sym (d <| balances := t1 |> <| balance_history := t2 |>) =
                        held (fun x => p (renamed a b x)) sym d) as Hheld.
  { intros p sym. unfold held. cbn. rewrite E1, map_sum_fmap. done. }
  split; cbn; [done | done | | | | |].
  - intros i r Hi. rewrite E1, lookup_fmap in Hi. destruct (rows (balances d) !! i) as [x|] eqn:Ei; [|done].
    injection Hi as <-. exact (bk_ranged _ B _ _ Ei).
  - intros sym. rewrite Hheld. apply (bk_zero _ B).
  - intros p sym. rewrite Hheld, (bk_match _ B). unfold moved. cbn. rewrite E2. cbn.
    by rewrite map_sum_fmap.
  - rewrite E2. apply (bk_even _ B).
  - rewrite E2. apply twins_fmap; [|apply (bk_twins _ B)].
    intros h h' [T1 T2 T3 T4 T5]. split; cbn; [done | by rewrite T2 | by rewrite T3 | done | done].
Qed.

Lemma rename_books a b d d' : rename a b d = Ok d' -> books d -> books d'.
Proof.
  unfold rename. intros E B. cbv zeta in E. apply bind_Ok in E as (d1 & E1 & E).
  apply modify_status_books in E1; [|done]. apply bind_Ok in E as (d2 & E2 & E).
  apply bind_Ok in E as (d3 & E3 & E). pose proof (rename_money_books _ _ _ _ _ E2 E3 E1).
  clear E1 E2 E3 B. apart_steps.
Qed.

(** The amounts an action or an event moves are in range; the contracts that
    emit them check it. *)
Definition handler_ranged (f : handler) : Prop :=
  match f with
  | h_donate _ q | h_fundtransfer _ _ _ _ q _ | h_usertransfer _ _ q _ | h_inductdonate _ _ q => ranged q
  | _ => True
  end.
Definition verb_ranged (v : verb) : Prop :=
  match v with v_handler f => handler_ranged f | v_unknown _ _ => True end.
Definition event_ranged (ev : event) : Prop :=
  match ev with
  | Events.distribution_event_reserve _ _ q | Events.distribution_event_return_excess _ _ q
  | Events.distribution_event_return _ _ _ q _ => ranged q
  | _ => True
  end.
Definition action_ranged (a : action) : Prop :=
  match hexData a with
  | d_call (c_handler f) => handler_ranged f
  | d_call (c_run verbs _) => Forall verb_ranged verbs
  | d_transfer _ _ q _ => ranged q
  | d_events events => Forall event_ranged events
  | _ => True
  end.
Definition block_ranged (b : BlockLog.eosio_block transaction) : Prop :=
  Forall (Forall action_ranged) (BlockLog.transactions b).

Lemma handle_event_books ev d d' :
  event_ranged ev -> handle_event now ev d = Ok d' -> books d -> books d'.
Proof.
  intros Hr E B. destruct ev; cbn [handle_event event_ranged] in *;
    unfold modify_election, modify_round, handle_create_group, handle_report_group, clear_participating,
      modify_status, spend_fund in E; cbv zeta in E; res_inv; repeat apart_on; try done; apart_loop; done.
Qed.

Definition books_replay (r : replay) : Prop := books (data r).
Lemma on_data_books f r r' :
  on_data f r = Ok r' -> (forall d d', f d = Ok d' -> books d -> books d') -> books_replay r -> books_replay r'.
Proof. unfold on_data, books_replay. intros E Hf B. res_inv. eapply Hf; eauto. Qed.

Lemma genesis_books c s m l v a b du me d d' :
  genesis c s m l v a b du me d = Ok d' -> books d -> books d'.
Proof. unfold genesis, add_genesis_member. intros E B. res_inv. apart_loop. repeat apart_on. done. Qed.
Lemma addtogenesis_books m d d' : addtogenesis m d = Ok d' -> books d -> books d'.
Proof. unfold addtogenesis, add_genesis_member, modify_status. intros E B. apart_steps. Qed.
Lemma inductinit_books i a b l d d' : inductinit now i a b l d = Ok d' -> books d -> books d'.
Proof.
  unfold inductinit, modify_status. intros E B. apply bind_Ok in E as (p & _ & E).
  destruct (Status.active p.2); cbn [mbind result_bind] in E; apart_steps.
Qed.
Lemma inductdonate_books payer i q d d' :
  ranged q -> inductdonate_ now payer i q d = Ok d' -> books d -> books d'.
Proof.
  unfold inductdonate_. intros Hq E B. apply bind_Ok in E as (p & _ & E). cbv zeta in E.
  apply bind_Ok in E as (video & _ & E). apart_steps.
Qed.
Lemma logtransfer_books c to l d d' : logtransfer c to l d = Ok d' -> books d -> books d'.
Proof. unfold logtransfer. intros E B. destruct (negb _); [by injection E as <-|]. apart_loop. done. Qed.
Lemma logmint_books m d d' : logmint now m d = Ok d' -> books d -> books d'.
Proof. unfold logmint. intros E B. apart_steps. Qed.

Lemma run_handler_books f r r' :
  handler_ranged f -> run_handler now f r = Ok r' -> books_replay r -> books_replay r'.
Proof.
  intros Hr E B. destruct f; cbn [run_handler handler_ranged] in *;
    match type of E with
    | on_data _ _ = _ => eapply on_data_books; [exact E| |exact B]; clear E; intros d d' E B'
    | Ok _ = _ => injection E as <-; exact B
    | _ => unfold withdraw_, transfer_ in E; res_inv; exact B
    end.
  all: try match type of E with
    | clearall _ = _ => by eapply clearall_books
    | genesis _ _ _ _ _ _ _ _ _ _ = _ => by eapply genesis_books
    | addtogenesis _ _ = _ => by eapply addtogenesis_books
    | inductinit _ _ _ _ _ _ = _ => by eapply inductinit_books
    | inductdonate_ _ _ _ _ _ = _ => by eapply inductdonate_books
    | rename _ _ _ = _ => by eapply rename_books
    end.
  all: unfold donate_, fundtransfer, usertransfer, spend_fund, inductprofil, inductvideo, inductcancel,
    inductendors, resign, electopt, electvote, electvideo, setencpubkey, modify_status in E; apart_steps.
Qed.

Lemma notify_transfer_books from to q r r' :
  ranged q -> notify_transfer now from to q r = Ok r' -> books_replay r -> books_replay r'.
Proof.
  unfold notify_transfer. intros Hq E B. res_inv; subst;
    repeat match goal with H : on_data _ _ = Ok _ |- _ =>
      eapply on_data_books in H; [|intros d d'; by apply transfer_funds_books|eassumption] end; done.
Qed.

Lemma run_action_books r a r' :
  action_ranged a -> run_action now r a = Ok r' -> books_replay r -> books_replay r'.
Proof.
  unfold run_action, dispatch, action_ranged. intros Hr E B.
  res_inv; subst; try done; try (by eapply notify_transfer_books; eauto).
  - destruct c as [f|verbs extra]; cbn in E; [by eapply run_handler_books|]. unfold run in E. res_inv.
    match goal with H : foldM _ _ _ = Ok _ |- _ => refine (foldM_inv books_replay _ _ _ _ _ B H) end.
    intros s v s' Hv Bs Es. rewrite Forall_forall in Hr. specialize (Hr v Hv).
    destruct v; [by eapply run_handler_books | done].
  - eapply on_data_books; [exact E| |exact B]. intros d d' E' B'.
    refine (foldM_inv books _ _ _ _ _ B' E'). intros s ev s' Hev Bs Es.
    rewrite Forall_forall in Hr. by eapply handle_event_books; [apply Hr| |].
  - eapply on_data_books; [exact E| |exact B]. intros d d'. apply logmint_books.
  - eapply on_data_books; [exact E| |exact B]. intros d d'. apply logtransfer_books.
Qed.
End handlers.

Lemma filter_block_books {accounts : Node} b d d' :
  block_ranged b -> filter_block b d = Ok d' -> books d -> books d'.
Proof.
  unfold filter_block. intros Hr E B. apply bind_Ok in E as (r & E & E'). injection E' as <-.
  assert (books_replay (mk_replay d false false)) as Br by exact B.
  refine (foldM_inv books_replay _ _ _ _ _ Br E). intros s trx s' Ht Bs Es. unfold run_transaction in Es.
  unfold block_ranged in Hr. rewrite Forall_forall in Hr. specialize (Hr trx Ht).
  res_inv. match goal with H : foldM _ _ _ = Ok _ |- _ => refine (foldM_inv books_replay _ _ _ _ _ Bs H) end.
  intros s1 a s2 Ha B1 E1. rewrite Forall_forall in Hr. by eapply run_action_books; [apply Hr| |].
Qed.

Lemma replay_books {accounts : Node} (c : list MicroLog.block) d :
  Forall (fun b => block_ranged (BlockLog.eosioBlock b)) c -> MicroLog.replay_chain c = Ok d -> books d.
Proof.
  intros Hr E. refine (foldM_inv books _ _ _ _ _ books_empty E). intros s b s' Hb B E'.
  rewrite Forall_forall in Hr. by eapply filter_block_books; [apply (Hr b)| |].
Qed.

(** C5: the invariants the source states for the history node's money hold
    after any replay of amounts in the range of assets: in every currency the
    balances of all accounts, the token contract's among them, add up to zero; the recorded movements of
    any set of accounts add up to what they hold, also after accounts were
    renamed; and the records come in twins that swap the two accounts and
    negate the amount. *)
Theorem balances_match_history {accounts : Node} (c : list MicroLog.block) d :
  Forall (fun b => block_ranged (BlockLog.eosioBlock b)) c -> MicroLog.replay_chain c = Ok d ->
  (forall sym, held everyone sym d = 0) /\
  (forall p sym, held p sym d = moved p sym d) /\
  twins (rows (balance_history d)).
Proof.
  intros Hr E. by destruct (replay_books c d Hr E) as [_ _ _ H1 H2 _ H3].
Qed.

Lemma balances_match_history_witness :
  let accounts := MicroLog.demo_accounts in
  let c := [BlockLog.mk_block 1 0 (BlockLog.mk_eosio 10 100 99 0 (MicroLog.demo_deposit 1 5)) 7] in
  match MicroLog.replay_chain c with
  | Ok d =>
      held (fun a => a =? Name.Name.n "alice") 1162826500 d = 5 /\
      (forall sym, held everyone sym d = 0) /\
      (forall p sym, held p sym d = moved p sym d) /\
      twins (rows (balance_history d))
  | Err _ => False
  end.
Proof.
  cbv zeta. destruct (MicroLog.replay_chain _) as [d|e] eqn:E.
  - split; [vm_compute in E; injection E as <-; vm_compute; reflexivity|].
    refine (balances_match_history _ d _ E). repeat constructor; cbn; vm_compute; discriminate.
  - vm_compute in E. discriminate E.
Defined.

End MicroLedger.
