(* ===== verification/MicroMirror.v ===== *)
(** The contract and its history node side by side: what the node's replay of
    a payment does to the balances of the users, compared with what the
    payment did to the accounts of the contract. *)
From S2P Require Import Prelude Name Asset Ledger Host Events Accounts State DistributionOps.
From S2P Require Import MemberOps Actions Frame AccountMigration MicroTables MicroChain MicroReplay MicroWf MicroLedger.
Open Scope string_scope.
Open Scope list_scope.
Open Scope Z_scope.

Module MicroMirror.
Import MicroTables MicroChain MicroLedger.
Import Asset(ranged).

(** ** One account of the contract *)

Definition user_held (tb : Accounts.table) (a sym : Z) : Z :=
  match tb !! a with Some r => Ledger.in_symbol sym (Accounts.balance r) | None => 0 end.
Definition change (o a sym : Z) (q : asset) : Z := weigh (fun x => x =? a) sym o q.

Lemma user_add tb o q e tb' a sym :
  Accounts.wf tb -> ranged q -> Accounts.add_balance tb o q e = Ok tb' ->
  user_held tb' a sym = user_held tb a sym + change o a sym q.
Proof.
  intros Hw Hq E. unfold user_held, change, weigh, Ledger.in_symbol.
  destruct (Accounts.account_add_Ok _ _ _ _ _ Hw Hq E) as [[Hn ->]|(r & Hr & Hs & _ & ->)];
    (destruct (Z.eqb_spec o a) as [<-|Hne]; [rewrite lookup_insert_eq, ?Hn, ?Hr | by rewrite lookup_insert_ne, Z.add_0_r]);
    cbn; [done|]. rewrite Hs. destruct (_ =? _); lia.
Qed.
Lemma user_sub tb o q tb' a sym :
  Accounts.wf tb -> ranged q -> Accounts.sub_balance tb o q = Ok tb' ->
  user_held tb' a sym = user_held tb a sym - change o a sym q.
Proof.
  intros Hw Hq E. unfold user_held, change, weigh, Ledger.in_symbol.
  destruct (Accounts.account_sub_Ok _ _ _ _ Hw Hq E) as (r & Hr & Hs & _ & _ & ->).
  destruct (Z.eqb_spec o a) as [<-|Hne].
  - rewrite Hr. destruct (Z.eqb_spec (Asset.amount (Accounts.balance r)) (Asset.amount q)) as [Heq|].
    + rewrite lookup_delete_eq, Hs, Heq. destruct (_ =? _); lia.
    + rewrite lookup_insert_eq. cbn. rewrite Hs. destruct (_ =? _); lia.
  - destruct (_ =? _); [rewrite lookup_delete_ne by done|rewrite lookup_insert_ne by done]; lia.
Qed.

(** ** One account of the node *)

Section node.
Context {accounts : Node} (now : Z).

Definition node_held (d : db) (a sym : Z) : Z := held (fun x => x =? a) sym d.

Lemma transfer_funds_held from to q desc d d' a sym :
  books d -> ranged q -> transfer_funds now from to q desc d = Ok d' ->
  node_held d' a sym = node_held d a sym + change to a sym q - change from a sym q.
Proof.
  intros B Hq E. unfold transfer_funds in E.
  apply bind_Ok in E as ([d1 r1] & E1 & E). apply bind_Ok in E as ([d2 r2] & E2 & E).
  destruct (add_balance_credits _ _ _ _ _ (bk_balances _ B) (bk_ranged _ B) (opp_ranged _ Hq) E1) as [W1 _ R1 S1].
  destruct (add_balance_credits _ _ _ _ _ W1 R1 Hq E2) as [_ _ _ S2].
  assert (balances d' = balances d2) as Hb.
  { unfold on in E. apply bind_Ok in E as (d3 & E3 & E). by res_inv. }
  unfold node_held, held at 1. rewrite Hb. change (held (fun x => x =? a) sym d2 =
    held (fun x => x =? a) sym d + change to a sym q - change from a sym q).
  rewrite S2, S1, weigh_opp by done. unfold change. lia.
Qed.

(** ** Agreement *)

(** The accounts that stand for the outside and for funds in common. *)
Definition special (a : Z) : Prop := a = token_account \/ a = master_pool \/ a = distribution_fund.
Definition agrees (s : State.state) (d : db) : Prop :=
  forall a sym, ~ special a -> user_held (State.users s) a sym = node_held d a sym.

Lemma change_special o a sym q : special o -> ~ special a -> change o a sym q = 0.
Proof. intros Ho Ha. unfold change, weigh. destruct (Z.eqb_spec o a) as [->|]; done. Qed.

End node.

(** The node follows this contract. *)
Record follows (c : State.ctx) (accounts : Node) : Prop := {
  fo_eden : eden_account = Host.self (State.host_of c);
  fo_atomic : atomic_account = Accounts.atomic_assets_account;
  fo_market : atomicmarket_account = Accounts.atomic_market_account
}.

(** What leaves the user balances alone. *)
Definition users_kept (s s' : State.state) : Prop := State.users s' = State.users s.
#[local] Instance users_kept_preorder : PreOrder users_kept.
Proof. split; [done|]. intros s1 s2 s3 H1 H2. unfold users_kept in *. congruence. Qed.
#[local] Hint Extern 2 (State.within users_kept (State.on _ _)) => (apply State.within_on; by intros) : within.
#[local] Hint Extern 2 (State.within users_kept (State.on_with _ _)) =>
  (apply State.within_on_with; by intros) : within.
#[local] Hint Extern 2 (State.within users_kept (State.send _)) => (by intros ? ? ? [= _ <-]) : within.
#[local] Hint Extern 2 (State.within users_kept (State.push_event _)) => (by intros ? ? ? [= _ <-]) : within.
#[local] Hint Extern 2 (State.within users_kept (State.push_events _)) => (by intros ? ? ? [= _ <-]) : within.

Section contract.
Context (c : State.ctx).
Import DistributionOps Actions.

Lemma setup_loop_users n ne k b : State.within users_kept (setup_loop c n ne k b).
Proof.
  revert k b. induction n as [|n IH]; intros k b; cbn [setup_loop];
    unfold setup_one, start_distribution, settle_reserve, ensure_pools, init_pools, reserve_pool,
      put_distribution, change_distribution, erase_distribution, on_accounts, add_master; withins.
Qed.
#[local] Hint Resolve setup_loop_users : within.
Lemma add_to_pool_users p q : State.within users_kept (add_to_pool c p q).
Proof.
  unfold add_to_pool, setup_distribution, ensure_pools, init_pools, put_distribution, add_master. withins.
Qed.
#[local] Hint Resolve add_to_pool_users : within.

Lemma kept_before {A B} (m : State.M A) (f : A -> State.M B) s b s' (P : Prop) :
  State.within users_kept m -> (m ≫= f) s = Ok (b, s') ->
  (forall a s1, State.users s1 = State.users s -> f a s1 = Ok (b, s') -> P) -> P.
Proof. intros Hm (a & s1 & H1%Hm & H2)%State.M_bind_Ok HP. by eapply HP. Qed.
Lemma kept_after {A} (m : State.M A) s a s' :
  State.within users_kept m -> m s = Ok (a, s') -> State.users s' = State.users s.
Proof. intros Hm H%Hm. done. Qed.
Ltac keep := unfold check_transfer, require_auth, check_token, adjust_migration, MemberOps.check_active_member,
  MemberOps.installed, MemberOps.global in *; withins.

Lemma usertransfer_users from to q memo s u s' a sym :
  Accounts.wf (State.users s) -> ranged q -> usertransfer c from to q memo s = Ok (u, s') ->
  user_held (State.users s') a sym =
    user_held (State.users s) a sym + change to a sym q - change from a sym q.
Proof.
  intros Hw Hq E. unfold usertransfer in E.
  eapply kept_before; [|exact E|]; [keep|]. clear E. intros ? s1 Hs1 E. rewrite <- Hs1 in *.
  apply State.M_bind_Ok in E as (u1 & s2 & E1 & E). unfold sub_user, add_user in *.
  apply State.on_Ok in E1 as (tb & E1 & ->). apply State.on_Ok in E as (tb' & E & ->). cbn in *.
  rewrite (user_add _ _ _ _ _ _ _ (Accounts.sub_balance_wf _ _ _ _ Hw Hq E1) Hq E).
  rewrite (user_sub _ _ _ _ _ _ Hw Hq E1). lia.
Qed.

Lemma deposit_users from q memo s u s' a sym :
  Accounts.wf (State.users s) -> ranged q -> from <> Host.self (State.host_of c) ->
  notify_transfer c from (Host.self (State.host_of c)) q memo s = Ok (u, s') ->
  user_held (State.users s') a sym = user_held (State.users s) a sym +
    if Accounts.is_possible_deposit_account from Accounts.atomic_assets_account
         Accounts.atomic_market_account && negb (bool_decide (memo = "donate"))
    then change from a sym q else 0.
Proof.
  intros Hw Hq Hf E. unfold notify_transfer in E.
  rewrite (proj2 (Z.eqb_neq _ _) Hf), Z.eqb_refl in E. cbn [negb] in E.
  eapply kept_before; [|exact E|]; [keep|]. clear E. intros ? s1 Hs1 E. rewrite <- Hs1 in *.
  destruct (_ && _).
  - apply State.M_bind_Ok in E as (u1 & s2 & E1 & E). unfold add_user in E1.
    apply State.on_Ok in E1 as (tb & E1 & ->). rewrite <- (user_add _ _ _ _ _ a sym Hw Hq E1).
    apply kept_after in E; [|unfold get_account_migration; keep]. by rewrite E.
  - apply kept_after in E; [|unfold migration_completed; keep]. rewrite E. lia.
Qed.

Lemma withdraw_users owner q s u s' a sym :
  Accounts.wf (State.users s) -> ranged q -> withdraw c owner q s = Ok (u, s') ->
  user_held (State.users s') a sym = user_held (State.users s) a sym - change owner a sym q /\
  exists l, State.sent s' = l ++
    [Events.token_transfer (Host.self (State.host_of c)) edendelegate q (Name.name_to_string owner)].
Proof.
  intros Hw Hq E. unfold withdraw in E.
  do 2 (eapply kept_before; [|exact E|]; [keep|]; clear E; let s1 := fresh "s" in let H := fresh "Hs" in
        intros ? s1 H E; rewrite <- H in *; clear H).
  apply State.M_bind_Ok in E as (u1 & s2 & E1 & E). unfold sub_user in E1.
  apply State.on_Ok in E1 as (tb & E1 & ->). rewrite <- (user_sub _ _ _ _ a sym Hw Hq E1).
  split.
  - apply kept_after in E; [|unfold get_account_migration; keep]. by rewrite E.
  - apply State.M_bind_Ok in E as (? & ? & _ & E). apply State.M_bind_Ok in E as (? & ? & _ & E).
    apply State.M_bind_Ok in E as (? & s3 & _ & E). injection E as _ <-. by exists (State.sent s3).
Qed.

End contract.

(** ** What the node makes of it *)

Section mirror.
Context (c : State.ctx) {accounts : Node} (F : follows c accounts) (now : Z).
Abbreviation self := (Host.self (State.host_of c)).

(** A transfer between two users, replayed by the node, keeps the
    contract's accounts and the node's balances in agreement for every user
    and currency. *)
Theorem usertransfer_mirrored from to q memo s u s' d d' :
  Accounts.wf (State.users s) -> books d -> ranged q -> agrees s d ->
  Actions.usertransfer c from to q memo s = Ok (u, s') ->
  MicroChain.usertransfer now from to q d = Ok d' ->
  agrees s' d'.
Proof.
  intros Hw B Hq Ha E Ed a sym Hs.
  rewrite (usertransfer_users _ _ _ _ _ _ _ _ a sym Hw Hq E).
  rewrite (transfer_funds_held _ _ _ _ _ _ _ a sym B Hq Ed), (Ha a sym Hs). done.
Qed.

(** C35: after a deposit the node and the contract agree exactly when its memo
    was not "donate" (or the sender cannot hold an account): a donated deposit
    goes to the contract's pool but stays with the sender at the node. *)
Theorem deposit_mirrored_unless_donated from q memo s u s' r r' :
  Accounts.wf (State.users s) -> books (data r) -> ranged q -> 0 < Asset.amount q ->
  from <> self -> ~ special from -> agrees s (data r) ->
  Actions.notify_transfer c from self q memo s = Ok (u, s') ->
  MicroChain.notify_transfer now from eden_account q r = Ok r' ->
  agrees s' (data r') <->
  ~ (memo = "donate" /\ Accounts.is_possible_deposit_account from atomic_account atomicmarket_account = true).
Proof.
  intros Hw B Hq Hpos Hf Hsf Ha E Ed. unfold MicroChain.notify_transfer in Ed.
  rewrite Z.eqb_refl in Ed. apply bind_Ok in Ed as (r1 & E1 & Ed).
  unfold on_data in E1. apply bind_Ok in E1 as (d1 & E1 & E1'). injection E1' as <-.
  set (deposits := Accounts.is_possible_deposit_account from atomic_account atomicmarket_account) in *.
  assert (forall a sym, ~ special a ->
    node_held (data r') a sym = node_held (data r) a sym + if deposits then change from a sym q else 0) as Hnode.
  { intros a sym Hs. pose proof (transfer_funds_held _ _ _ _ _ _ _ a sym B Hq E1) as H1.
    assert (change token_account a sym q = 0) as Ht by (apply change_special; [by left|done]).
    destruct deposits; cbn [negb] in Ed; [injection Ed as <-; cbn; lia|].
    unfold on_data in Ed. cbn in Ed. apply bind_Ok in Ed as (d2 & E2 & Ed). injection Ed as <-. cbn.
    assert (change master_pool a sym q = 0) as Hm by (apply change_special; [by right; left|done]).
    rewrite (transfer_funds_held _ _ _ _ _ _ _ a sym (transfer_funds_books _ _ _ _ _ _ _ Hq E1 B) Hq E2). lia. }
  pose proof (fun a sym => deposit_users c _ _ _ _ _ _ a sym Hw Hq Hf E) as Huser.
  rewrite <- (fo_atomic _ _ F), <- (fo_market _ _ F) in Huser. fold deposits in Huser. split.
  - intros H [-> Hd]. specialize (H from (Asset.symbol q) Hsf).
    rewrite Huser, Hnode, (Ha _ _ Hsf), Hd in H by done. cbn in H.
    unfold change, weigh, Ledger.in_symbol in H. rewrite !Z.eqb_refl in H.
    rewrite bool_decide_eq_true_2 in H by done. cbn in H. lia.
  - intros Hn a sym Hs. rewrite Huser, Hnode, (Ha _ _ Hs) by done.
    destruct deposits; cbn [andb]; [|done]. case_bool_decide; [tauto|done].
Qed.

(** C36: a withdrawal takes the quantity from its owner in the contract, which
    sends the tokens to "edendelegate"; the node, replaying the action and
    the notification of that transfer, charges "edendelegate" and leaves the
    owner's balance as it was. *)
Theorem withdrawal_charges_delegate owner q s u s' r r1 r2 :
  Accounts.wf (State.users s) -> books (data r) -> ranged q -> 0 < Asset.amount q ->
  owner <> Actions.edendelegate -> ~ special owner -> ~ special Actions.edendelegate ->
  self <> Actions.edendelegate -> agrees s (data r) ->
  Actions.withdraw c owner q s = Ok (u, s') ->
  withdraw_ r = Ok r1 -> MicroChain.notify_transfer now self Actions.edendelegate q r1 = Ok r2 ->
  let sym := Asset.symbol q in
  (exists l, State.sent s' = l ++
     [Events.token_transfer self Actions.edendelegate q (Name.name_to_string owner)]) /\
  user_held (State.users s') owner sym = user_held (State.users s) owner sym - Asset.amount q /\
  node_held (data r2) owner sym = node_held (data r) owner sym /\
  node_held (data r2) Actions.edendelegate sym =
    node_held (data r) Actions.edendelegate sym - Asset.amount q /\
  ~ agrees s' (data r2).
Proof.
  intros Hw B Hq Hpos Ho Hso Hsd Hse Ha E E1 E2 sym.
  unfold withdraw_ in E1. apply bind_Ok in E1 as (u1 & _ & E1). injection E1 as <-.
  unfold MicroChain.notify_transfer in E2. rewrite (fo_eden _ _ F), (proj2 (Z.eqb_neq _ _)) in E2 by congruence.
  cbn [in_withdraw] in E2. apply bind_Ok in E2 as (r3 & E2 & E3). injection E3 as <-.
  unfold on_data in E2. apply bind_Ok in E2 as (d2 & E2 & E3). injection E3 as <-. 
  match goal with |- context [data ?x] => change (data x) with d2 end.
  pose proof (fun a => transfer_funds_held _ _ _ _ _ _ _ a sym B Hq E2) as Hnode.
  destruct (withdraw_users c _ _ _ _ _ owner sym Hw Hq E) as [Huser Hsent].
  split; [exact Hsent|].
  assert (forall a b, change a b sym q = if a =? b then Asset.amount q else 0) as Hc.
  { intros a b. unfold change, weigh, Ledger.in_symbol. subst sym. by rewrite Z.eqb_refl. }
  rewrite Hc, Z.eqb_refl in Huser.
  assert (node_held d2 owner sym = node_held (data r) owner sym) as Hown.
  { rewrite Hnode, !Hc. rewrite (proj2 (Z.eqb_neq token_account owner)) by (intros <-; apply Hso; by left).
    rewrite (proj2 (Z.eqb_neq Actions.edendelegate owner)) by congruence. lia. }
  split; [done|]. split; [done|]. split.
  - rewrite Hnode, !Hc, Z.eqb_refl.
    rewrite (proj2 (Z.eqb_neq token_account Actions.edendelegate)) by (intros H; apply Hsd; by left). lia.
  - intros H. specialize (H owner sym Hso). rewrite Huser, Hown, (Ha _ _ Hso) in H. lia.
Qed.

End mirror.

(** ** One user with an account at both *)

Module Demo.
Import AccountMigration.
#[local] Instance accounts : Node := mk_node_accounts demo_self (Name.n "eosio.token")
  Accounts.atomic_assets_account Accounts.atomic_market_account.
Definition q (x : Z) : asset := Asset.mk x eos.
Definition state_ (tb : Accounts.table) : State.state :=
  State.empty_state <| State.globals := Some (Globals.Globals.v1 demo_globals) |> <| State.users := tb |>
    <| State.members := Members.Members.mk_store {[ alice := demo_member alice; bob := demo_member bob ]}
         None |>.
Definition one_user : Accounts.table := {[ alice := Accounts.mk alice (q 50000) ]}.
Definition node_db : db :=
  match transfer_funds 5 token_account alice (q 50000) deposit empty_db with Ok d => d | Err _ => empty_db end.

Lemma q_ranged x : Z.abs x <= 100000 -> ranged (q x).
Proof. unfold ranged, q, Asset.max_amount. cbn. lia. Qed.
Lemma node_db_Ok : transfer_funds 5 token_account alice (q 50000) deposit empty_db = Ok node_db.
Proof. vm_compute. reflexivity. Qed.
Lemma node_db_books : books node_db.
Proof. eapply transfer_funds_books; [|exact node_db_Ok|apply books_empty]. by apply q_ranged. Qed.
Lemma one_user_wf : Accounts.wf one_user.
Proof. apply Accounts.account_wf_insert; [apply Accounts.wf_empty | done | by apply q_ranged]. Qed.
Lemma one_user_agrees : agrees (state_ one_user) node_db.
Proof.
  intros a sym Ha. assert (ranged (q 50000)) as Hq by (by apply q_ranged).
  rewrite (transfer_funds_held 5 _ _ _ _ _ _ a sym books_empty Hq node_db_Ok).
  rewrite (change_special token_account) by (done || by left).
  assert (node_held empty_db a sym = 0) as -> by apply map_sum_empty.
  unfold user_held, change, weigh. change (State.users (state_ one_user)) with one_user. unfold one_user.
  destruct (Z.eqb_spec alice a) as [<-|Hne].
  - rewrite lookup_singleton_eq. cbn [Accounts.balance]. lia.
  - rewrite lookup_singleton_ne by done. lia.
Qed.
Lemma nobody_agrees : agrees (state_ ∅) empty_db.
Proof. intros a sym Ha. assert (node_held empty_db a sym = 0) as -> by apply map_sum_empty. done. Qed.
Lemma demo_follows : follows demo_ctx accounts.
Proof. by split. Qed.
Lemma not_special a : bool_decide (a ∈ [token_account; master_pool; distribution_fund]) = false -> ~ special a.
Proof. intros H%bool_decide_eq_false Hs. apply H. rewrite !elem_of_cons. unfold special in Hs. tauto. Qed.
End Demo.
Import Demo AccountMigration.
#[local] Existing Instance Demo.accounts.

Lemma usertransfer_mirrored_witness :
  exists s' d',
    Actions.usertransfer demo_ctx alice bob (q 20000) "rent" (state_ one_user) = Ok (tt, s') /\
    MicroChain.usertransfer 6 alice bob (q 20000) node_db = Ok d' /\ agrees s' d'.
Proof.
  do 2 eexists. split; [vm_compute; reflexivity|]. split; [vm_compute; reflexivity|].
  eapply (usertransfer_mirrored demo_ctx 6 alice bob (q 20000) "rent" (state_ one_user) tt _ node_db);
    [exact one_user_wf | exact node_db_books | by apply q_ranged | exact one_user_agrees | vm_compute; reflexivity ..].
Defined.

Lemma deposit_mirrored_unless_donated_witness :
  exists s' r',
    Actions.notify_transfer demo_ctx alice demo_self (q 50000) "" (state_ ∅) = Ok (tt, s') /\
    MicroChain.notify_transfer 6 alice eden_account (q 50000) (mk_replay empty_db false false) = Ok r' /\
    (agrees s' (data r') <-> ~ ("" = "donate" /\
       Accounts.is_possible_deposit_account alice atomic_account atomicmarket_account = true)).
Proof.
  do 2 eexists. split; [vm_compute; reflexivity|]. split; [vm_compute; reflexivity|].
  eapply (deposit_mirrored_unless_donated demo_ctx demo_follows 6 alice (q 50000) "" (state_ ∅) tt _
            (mk_replay empty_db false false));
    [exact Accounts.wf_empty | exact books_empty | by apply q_ranged | by vm_compute | by vm_compute
    | by apply not_special; vm_compute | exact nobody_agrees | vm_compute; reflexivity ..].
Defined.

Lemma withdrawal_charges_delegate_witness :
  exists s' r2,
    Actions.withdraw demo_ctx alice (q 20000) (state_ one_user) = Ok (tt, s') /\
    MicroChain.notify_transfer 6 demo_self Actions.edendelegate (q 20000) (mk_replay node_db true false) = Ok r2 /\
    ~ agrees s' (data r2).
Proof.
  do 2 eexists. split; [vm_compute; reflexivity|]. split; [vm_compute; reflexivity|].
  eapply (withdrawal_charges_delegate demo_ctx demo_follows 6 alice (q 20000) (state_ one_user) tt _
            (mk_replay node_db false false) (mk_replay node_db true false));
    [exact one_user_wf | exact node_db_books | by apply q_ranged | by vm_compute | by vm_compute
    | by apply not_special; vm_compute | by apply not_special; vm_compute | by vm_compute
    | exact one_user_agrees | vm_compute; reflexivity | done | vm_compute; reflexivity].
Defined.

End MicroMirror.
