(* ===== verification/Connection.v ===== *)
(** Pages of a query
    ([libraries/clchain/include/clchain/graphql_connection.hpp]): a range of an
    ordered container, a window of it between two cursors, and the first or
    last rows of the window.  A cursor is the key of a row, serialized and
    written in hexadecimal.  Following the cursors visits the range once. *)
From S2P Require Import Prelude Crypto Binary BlockLog.
From Stdlib Require Import Ascii.
From Stdlib Require String.
Open Scope string_scope.
Open Scope list_scope.
Open Scope Z_scope.

Module Connection.
Import Binary.

(** ** Hexadecimal ([hex.hpp], [from_json.hpp]) *)

Definition nibble (i : Z) : ascii :=
  if i <=? 9 then ascii_of_N (Z.to_N (48 + i)) else ascii_of_N (Z.to_N (65 + i - 10)).
Fixpoint hex (bs : list Z) : list ascii :=
  match bs with
  | [] => []
  | b :: bs' => nibble (Z.shiftr b 4) :: nibble (Z.land b 0xf) :: hex bs'
  end.

Definition get_digit (c : ascii) : option Z :=
  let z := Z.of_N (N_of_ascii c) in
  if (48 <=? z) && (z <=? 57) then Some (z - 48)
  else if (97 <=? z) && (z <=? 102) then Some (z - 97 + 10)
  else if (65 <=? z) && (z <=? 70) then Some (z - 65 + 10)
  else None.
(** A text of odd length ends with the terminator, which is not a digit. *)
Fixpoint unhex (s : list ascii) : option (list Z) :=
  match s with
  | [] => Some []
  | [_] => None
  | x :: y :: s' =>
      h ← get_digit x; l ← get_digit y; bs ← unhex s'; Some (Z.lor (Z.shiftl h 4) l :: bs)
  end.

Lemma hex_roundtrip bs : Crypto.bytes bs -> unhex (hex bs) = Some bs.
Proof.
  assert (forall b, 0 <= b < 256 -> get_digit (nibble (Z.shiftr b 4)) = Some (Z.shiftr b 4) /\
    get_digit (nibble (Z.land b 0xf)) = Some (Z.land b 0xf) /\
    Z.lor (Z.shiftl (Z.shiftr b 4) 4) (Z.land b 0xf) = b) as Hbyte.
  { intros b Hb. assert (forallb (fun n => let b := Z.of_nat n in
      bool_decide (get_digit (nibble (Z.shiftr b 4)) = Some (Z.shiftr b 4) /\
        get_digit (nibble (Z.land b 0xf)) = Some (Z.land b 0xf) /\
        Z.lor (Z.shiftl (Z.shiftr b 4) 4) (Z.land b 0xf) = b)) (seq 0 256) = true) as H
      by (vm_compute; reflexivity).
    rewrite forallb_forall in H. specialize (H (Z.to_nat b)). rewrite in_seq, Z2Nat.id in H by lia.
    apply bool_decide_eq_true in H; [done|lia]. }
  induction 1 as [|b bs Hb Hbs IH]; [done|]. cbn [hex unhex].
  destruct (Hbyte b Hb) as (-> & -> & He). cbn. rewrite IH. cbn. by rewrite He.
Qed.

(** ** [make_connection] *)

(** What makes a codec of keys fit for cursors. *)
Class Cursor {K} (c : codec K) (valid : K -> Prop) : Prop := {
  cursor_lawful : Lawful c valid;
  cursor_total : forall k, valid k -> exists bs, to_bin c k = Ok bs /\ bs <> [] /\ Crypto.bytes bs
}.

Section connection.
Context {K R N : Type} (c : codec K) (ltb : K -> K -> bool) (to_key : R -> K) (to_node : R -> N).
Context (lower_bound upper_bound : list R -> K -> nat).

Record args : Type := mk_args {
  gt : option K; ge : option K; lt : option K; le : option K;
  first : option Z; last : option Z; before : option string; after : option string }.
Record connection : Type := mk_connection {
  edges : list (N * string); hasPreviousPage : bool; hasNextPage : bool;
  startCursor : string; endCursor : string }.

(** Iterators are positions; the length is [end()]. *)
Definition compare_it (l : list R) (a b : nat) : bool :=
  match l !! a, l !! b with
  | None, _ => false
  | Some _, None => true
  | Some x, Some y => ltb (to_key x) (to_key y)
  end.
Definition max_it (l : list R) (a b : nat) : nat := if compare_it l a b then b else a.
Definition min_it (l : list R) (a b : nat) : nat := if compare_it l b a then b else a.
Definition clamp_it (l : list R) (v lo hi : nat) : nat :=
  if compare_it l v lo then lo else if compare_it l hi v then hi else v.

Definition cursor_of (k : K) : result string :=
  bin ← to_bin c k; Ok (String.string_of_list_ascii (hex bin)).
Definition key_from_hex (s : option string) : result (option K) :=
  match s with
  | None => Ok None
  | Some s =>
      if bool_decide (s = "") then Ok None
      else match unhex (String.list_ascii_of_string s) with
           | Some bytes => '(k, _) ← from_bin c bytes; Ok (Some k)
           | None => Ok None
           end
  end.

Definition range (a : args) (l : list R) : nat * nat :=
  let b := 0%nat in
  let e := length l in
  let b := match ge a with Some k => max_it l b (lower_bound l k) | None => b end in
  let b := match gt a with Some k => max_it l b (upper_bound l k) | None => b end in
  let e := match le a with Some k => min_it l e (upper_bound l k) | None => e end in
  let e := match lt a with Some k => min_it l e (lower_bound l k) | None => e end in
  (b, max_it l b e).

(** [(!limit || ( *limit)-- > 0)]: whether the loop goes on, and the limit
    after. *)
Definition spend (limit : option Z) : bool * option Z :=
  match limit with
  | None => (true, None)
  | Some n => (0 <? n, Some (wrap 32 (n - 1)))
  end.
(** The loops take [n], the distance to the end, as their fuel; they return
    the positions in the order of the edges and where they stopped. *)
Fixpoint forward (n it : nat) (limit : option Z) : list nat * nat :=
  match n with
  | O => ([], it)
  | S n' =>
      let '(go, limit) := spend limit in
      if go then let '(ps, stop) := forward n' (it + 1) limit in (it :: ps, stop) else ([], it)
  end.
Fixpoint backward (n end_ : nat) (limit : option Z) : list nat * nat :=
  match n with
  | O => ([], end_)
  | S n' =>
      let '(go, limit) := spend limit in
      if go then let '(ps, stop) := backward n' (end_ - 1) limit in ((end_ - 1)%nat :: ps, stop)
      else ([], end_)
  end.

Definition edge_at (l : list R) (p : nat) : result (N * string) :=
  row ← some_or (Trap "dereferenced end()") (l !! p);
  cursor ← cursor_of (to_key row); Ok (to_node row, cursor).
Fixpoint edges_at (l : list R) (ps : list nat) : result (list (N * string)) :=
  match ps with
  | [] => Ok []
  | p :: ps' => e ← edge_at l p; es ← edges_at l ps'; Ok (e :: es)
  end.

Definition make_connection (a : args) (l : list R) : result connection :=
  let '(rangeBegin, rangeEnd) := range a l in
  ka ← key_from_hex (after a);
  kb ← key_from_hex (before a);
  let it := match ka with Some k => clamp_it l (upper_bound l k) rangeBegin rangeEnd | None => rangeBegin end in
  let end_ := match kb with Some k => clamp_it l (lower_bound l k) rangeBegin rangeEnd | None => rangeEnd end in
  let end_ := max_it l it end_ in
  '(es, prev, next) ←
    match first a, last a with
    | None, Some n =>
        let '(ps, stop) := backward (end_ - it) end_ (Some n) in
        es ← edges_at l ps;
        Ok (reverse es, negb (Nat.eqb stop rangeBegin), negb (Nat.eqb end_ rangeEnd))
    | _, _ =>
        let '(ps, stop) := forward (end_ - it) it (first a) in
        es ← edges_at l ps;
        let next := negb (Nat.eqb stop rangeEnd) in
        match last a with
        | Some n =>
            if n <? Z.of_nat (length es) then Ok (drop (length es - Z.to_nat n) es, true, next)
            else Ok (es, negb (Nat.eqb it rangeBegin), next)
        | None => Ok (es, negb (Nat.eqb it rangeBegin), next)
        end
    end;
  Ok (mk_connection es prev next
        (match es with e :: _ => e.2 | [] => "" end)
        (match list.last es with Some e => e.2 | None => "" end)).

(** A client that asks for pages of [n] rows, each after the last cursor,
    until there is no next page. *)
Fixpoint follow (fuel : nat) (a : args) (l : list R) (n : Z) (cursor : option string)
    : result (option (list N)) :=
  match fuel with
  | O => Ok None
  | S fuel' =>
      r ← make_connection (mk_args (gt a) (ge a) (lt a) (le a) (Some n) None None cursor) l;
      if hasNextPage r then
        rest ← follow fuel' a l n (Some (endCursor r));
        Ok (option_map (app (edges r).*1) rest)
      else Ok (Some (edges r).*1)
  end.

(** ** What the caller promises *)

Context (valid : K -> Prop) `{!Cursor c valid}.

(** The rows are sorted by key, without duplicates, and the two searches find
    the first row not below and the first row above a key. *)
Record container_ok (l : list R) : Prop := {
  co_valid : forall i x, l !! i = Some x -> valid (to_key x);
  co_sorted : forall i j x y, l !! i = Some x -> l !! j = Some y ->
    ltb (to_key x) (to_key y) = bool_decide (i < j)%nat;
  co_lower_le : forall k, valid k -> (lower_bound l k <= length l)%nat;
  co_upper_le : forall k, valid k -> (upper_bound l k <= length l)%nat;
  co_lower : forall k i x, valid k -> l !! i = Some x ->
    ltb (to_key x) k = bool_decide (i < lower_bound l k)%nat;
  co_upper : forall k i x, valid k -> l !! i = Some x ->
    ltb k (to_key x) = bool_decide (upper_bound l k <= i)%nat
}.
Definition bound_ok (o : option K) : Prop := match o with Some k => valid k | None => True end.
Definition args_ok (a : args) : Prop :=
  bound_ok (gt a) /\ bound_ok (ge a) /\ bound_ok (lt a) /\ bound_ok (le a).

(** The rows the bounds of a request select. *)
Definition above (o : option K) (k : K) : bool := match o with Some k' => ltb k' k | None => true end.
Definition not_below (o : option K) (k : K) : bool :=
  match o with Some k' => negb (ltb k k') | None => true end.
Definition below (o : option K) (k : K) : bool := match o with Some k' => ltb k k' | None => true end.
Definition not_above (o : option K) (k : K) : bool :=
  match o with Some k' => negb (ltb k' k) | None => true end.
Definition selects (a : args) (r : R) : bool :=
  above (gt a) (to_key r) && not_below (ge a) (to_key r) && below (lt a) (to_key r) && not_above (le a) (to_key r).

Section container.
Context (l : list R) (Hl : container_ok l).

Lemma compare_pos a b : (a <= length l)%nat -> (b <= length l)%nat -> compare_it l a b = bool_decide (a < b)%nat.
Proof.
  intros Ha Hb. unfold compare_it. destruct (l !! a) as [x|] eqn:Ex.
  - apply lookup_lt_Some in Ex as Hx. destruct (l !! b) as [y|] eqn:Ey.
    + by apply (co_sorted _ Hl).
    + apply lookup_ge_None in Ey. by rewrite bool_decide_eq_true_2 by lia.
  - apply lookup_ge_None in Ex. by rewrite bool_decide_eq_false_2 by lia.
Qed.
Lemma max_pos a b : (a <= length l)%nat -> (b <= length l)%nat -> max_it l a b = Nat.max a b.
Proof. intros Ha Hb. unfold max_it. rewrite compare_pos by done. case_bool_decide; lia. Qed.
Lemma min_pos a b : (a <= length l)%nat -> (b <= length l)%nat -> min_it l a b = Nat.min a b.
Proof. intros Ha Hb. unfold min_it. rewrite compare_pos by done. case_bool_decide; lia. Qed.
Lemma clamp_pos v lo hi :
  (v <= length l)%nat -> (lo <= hi)%nat -> (hi <= length l)%nat ->
  clamp_it l v lo hi = Nat.min (Nat.max v lo) hi.
Proof.
  intros Hv Hlo Hhi. unfold clamp_it. rewrite !compare_pos by lia. repeat case_bool_decide; lia.
Qed.

(** The range is where the selected rows are. *)
Lemma range_spec a b e :
  args_ok a -> range a l = (b, e) ->
  (b <= e <= length l)%nat /\
  forall i x, l !! i = Some x -> selects a x = bool_decide (b <= i < e)%nat.
Proof.
  intros (Hgt & Hge & Hlt & Hle) Hr. unfold range in Hr.
  set (b1 := match ge a with Some k => _ | None => _ end) in Hr.
  set (b2 := match gt a with Some k => _ | None => _ end) in Hr.
  set (e1 := match le a with Some k => _ | None => _ end) in Hr.
  set (e2 := match lt a with Some k => _ | None => _ end) in Hr. injection Hr as <- <-.
  assert ((b1 <= length l)%nat /\ forall i x, l !! i = Some x ->
    not_below (ge a) (to_key x) = bool_decide (b1 <= i)%nat) as [Hb1 Hs1].
  { subst b1. unfold not_below, bound_ok in *. destruct (ge a) as [k|]; [|split; [lia|]; intros; by rewrite bool_decide_eq_true_2 by lia].
    pose proof (co_lower_le _ Hl k Hge). rewrite max_pos by lia. split; [lia|]. intros i x Hx.
    rewrite (co_lower _ Hl k i x Hge Hx). repeat case_bool_decide; lia. }
  assert ((b2 <= length l)%nat /\ forall i x, l !! i = Some x ->
    not_below (ge a) (to_key x) && above (gt a) (to_key x) = bool_decide (b2 <= i)%nat) as [Hb2 Hs2].
  { subst b2. unfold above, bound_ok in *. destruct (gt a) as [k|].
    - pose proof (co_upper_le _ Hl k Hgt). rewrite max_pos by lia. split; [lia|]. intros i x Hx.
      rewrite (Hs1 i x Hx), (co_upper _ Hl k i x Hgt Hx). repeat case_bool_decide; cbn; lia.
    - split; [done|]. intros i x Hx. by rewrite (Hs1 i x Hx), andb_true_r. }
  assert ((e1 <= length l)%nat /\ forall i x, l !! i = Some x ->
    not_above (le a) (to_key x) = bool_decide (i < e1)%nat) as [He1 Hs3].
  { subst e1. unfold not_above, bound_ok in *. destruct (le a) as [k|].
    - pose proof (co_upper_le _ Hl k Hle). rewrite min_pos by lia. split; [lia|]. intros i x Hx.
      apply lookup_lt_Some in Hx as Hi. rewrite (co_upper _ Hl k i x Hle Hx). repeat case_bool_decide; cbn; lia.
    - split; [lia|]. intros i x Hx. apply lookup_lt_Some in Hx. by rewrite bool_decide_eq_true_2. }
  assert ((e2 <= length l)%nat /\ forall i x, l !! i = Some x ->
    not_above (le a) (to_key x) && below (lt a) (to_key x) = bool_decide (i < e2)%nat) as [He2 Hs4].
  { subst e2. unfold below, bound_ok in *. destruct (lt a) as [k|].
    - pose proof (co_lower_le _ Hl k Hlt). rewrite min_pos by lia. split; [lia|]. intros i x Hx.
      rewrite (Hs3 i x Hx), (co_lower _ Hl k i x Hlt Hx). repeat case_bool_decide; cbn; lia.
    - split; [done|]. intros i x Hx. by rewrite (Hs3 i x Hx), andb_true_r. }
  rewrite max_pos by lia. split; [lia|]. intros i x Hx. unfold selects.
  specialize (Hs2 i x Hx). specialize (Hs4 i x Hx).
  transitivity ((not_below (ge a) (to_key x) && above (gt a) (to_key x)) &&
                (not_above (le a) (to_key x) && below (lt a) (to_key x))).
  { destruct (above _ _), (not_below _ _), (below _ _), (not_above _ _); done. }
  rewrite Hs2, Hs4. repeat case_bool_decide; cbn; lia.
Qed.

(** ** Cursors *)

Lemma cursor_roundtrip k :
  valid k -> exists s, cursor_of k = Ok s /\ key_from_hex (Some s) = Ok (Some k).
Proof.
  intros Hk. destruct (cursor_total _ Hk) as (bs & Hbs & Hne & Hb). unfold cursor_of, key_from_hex.
  rewrite Hbs. eexists. split; [done|]. rewrite bool_decide_eq_false_2.
  - rewrite String.list_ascii_of_string_of_list_ascii, hex_roundtrip by done.
    pose proof (cursor_lawful k bs [] Hk Hbs) as Hr. rewrite app_nil_r in Hr. by rewrite Hr.
  - destruct bs; [done|]. cbn. discriminate.
Qed.

Lemma forward_spec n it m :
  0 <= m < 2 ^ 32 ->
  forward n it (Some m) = (seq it (Nat.min n (Z.to_nat m)), (it + Nat.min n (Z.to_nat m))%nat).
Proof.
  revert it m. induction n as [|n IH]; intros it m Hm; [cbn; f_equal; lia|].
  cbn [forward spend]. destruct (Z.ltb_spec 0 m).
  - rewrite wrap_small, IH by lia. replace (Z.to_nat (m - 1)) with (pred (Z.to_nat m)) by lia.
    destruct (Z.to_nat m) as [|k] eqn:E; [lia|]. cbn. rewrite Nat.add_1_r. f_equal. lia.
  - replace (Z.to_nat m) with 0%nat by lia. rewrite Nat.min_0_r. cbn. f_equal. lia.
Qed.

Lemma edges_at_seq it n :
  (it + n <= length l)%nat ->
  exists es, edges_at l (seq it n) = Ok es /\ length es = n /\
    es.*1 = to_node <$> take n (drop it l) /\
    forall j e, es !! j = Some e -> exists x, l !! (it + j)%nat = Some x /\ cursor_of (to_key x) = Ok e.2.
Proof.
  revert it. induction n as [|n IH]; intros it Hn; cbn [seq edges_at].
  { exists []. split; [done|]. split; [done|]. split; [by rewrite take_0|]. intros j e He. done. }
  destruct (lookup_lt_is_Some_2 l it ltac:(lia)) as [x Hx]. destruct (IH (S it) ltac:(lia)) as (es & -> & Hlen & Hes & Hc).
  destruct (cursor_roundtrip (to_key x)) as (s & Hs & _); [by eapply co_valid|].
  unfold edge_at. rewrite Hx. cbn. rewrite Hs. cbn. eexists. split; [done|]. cbn. split; [by rewrite Hlen|]. split.
  - rewrite (drop_S _ _ _ Hx). cbn. by rewrite Hes.
  - intros [|j] e He; cbn in He.
    + injection He as <-. exists x. by rewrite Nat.add_0_r.
    + destruct (Hc j e He) as (y & Hy & Hcy). exists y. by rewrite Nat.add_succ_r.
Qed.

(** A cursor that continues at position [p]. *)
Definition at_cursor (b : nat) (cursor : option string) (p : nat) : Prop :=
  (cursor = None /\ p = b) \/
  exists q x s, p = S q /\ l !! q = Some x /\ cursor_of (to_key x) = Ok s /\ cursor = Some s.

Lemma upper_of_row q x : l !! q = Some x -> upper_bound l (to_key x) = S q.
Proof.
  intros Hx. pose proof (co_valid _ Hl _ _ Hx) as Hv. apply lookup_lt_Some in Hx as Hq.
  pose proof (co_upper_le _ Hl _ Hv) as Hle.
  pose proof (co_upper _ Hl _ _ _ Hv Hx) as Hu. rewrite (co_sorted _ Hl _ _ _ _ Hx Hx) in Hu.
  rewrite bool_decide_eq_false_2 in Hu by lia. symmetry in Hu. apply bool_decide_eq_false in Hu.
  destruct (decide (S q < length l)%nat) as [Hlt|]; [|lia].
  destruct (lookup_lt_is_Some_2 l (S q) Hlt) as [y Hy].
  pose proof (co_upper _ Hl _ _ _ Hv Hy) as Hu'. rewrite (co_sorted _ Hl _ _ _ _ Hx Hy) in Hu'.
  rewrite bool_decide_eq_true_2 in Hu' by lia. symmetry in Hu'. apply bool_decide_eq_true in Hu'. lia.
Qed.

Lemma next_page a b e p n cursor :
  args_ok a -> range a l = (b, e) -> (b <= p <= e)%nat -> at_cursor b cursor p -> 0 < n < 2 ^ 32 ->
  let k := Nat.min (e - p) (Z.to_nat n) in
  exists r, make_connection (mk_args (gt a) (ge a) (lt a) (le a) (Some n) None None cursor) l = Ok r /\
    (edges r).*1 = to_node <$> take k (drop p l) /\
    hasNextPage r = negb (Nat.eqb (p + k) e) /\
    ((0 < k)%nat -> at_cursor b (Some (endCursor r)) (p + k)).
Proof.
  intros Ha Hr Hp Hcur Hn k. destruct (range_spec a b e Ha Hr) as [[Hbe He] _].
  assert (exists ka, key_from_hex cursor = Ok ka /\
    match ka with Some k => clamp_it l (upper_bound l k) b e | None => b end = p) as (ka & Hka & Hit).
  { destruct Hcur as [[-> ->]|(q & x & s & -> & Hx & Hs & ->)]; [by exists None|].
    destruct (cursor_roundtrip (to_key x)) as (s' & Hs' & Hk); [by eapply co_valid|].
    rewrite Hs in Hs'. injection Hs' as <-. exists (Some (to_key x)). split; [done|].
    rewrite (upper_of_row _ _ Hx), clamp_pos by lia. lia. }
  unfold make_connection. replace (range (mk_args _ _ _ _ _ _ _ _) l) with (b, e) by (rewrite <- Hr; done).
  cbn [after before first last]. rewrite Hka. cbn [mbind result_bind key_from_hex]. rewrite Hit.
  rewrite max_pos by lia. rewrite Nat.max_r by lia. rewrite forward_spec by lia. fold k.
  destruct (edges_at_seq p k) as (es & Hes & Hlen & Hnodes & Hc); [subst k; lia|].
  rewrite Hes. cbn [mbind result_bind]. eexists. split; [done|]. cbn. split; [done|]. split; [done|].
  intros Hk. right. destruct (list.last es) as [ed|] eqn:El.
  2:{ apply last_None in El. subst es. cbn in Hlen. lia. }
  rewrite last_lookup, Hlen in El. destruct (Hc _ _ El) as (x & Hx & Hcx).
  exists (p + pred k)%nat, x, ed.2. split; [lia|done].
Qed.

Lemma follow_spec a b e n fuel p cursor :
  args_ok a -> range a l = (b, e) -> (b <= p <= e)%nat -> at_cursor b cursor p -> 0 < n < 2 ^ 32 ->
  (e - p < fuel)%nat ->
  follow fuel a l n cursor = Ok (Some (to_node <$> take (e - p) (drop p l))).
Proof.
  intros Ha Hr. revert p cursor. induction fuel as [|fuel IH]; intros p cursor Hp Hcur Hn Hf; [lia|].
  cbn [follow]. destruct (next_page a b e p n cursor Ha Hr Hp Hcur Hn) as (r & -> & Hedges & Hnext & Hend).
  cbn [mbind result_bind]. rewrite Hnext. set (k := Nat.min (e - p) (Z.to_nat n)) in *.
  destruct (Nat.eqb_spec (p + k) e) as [Heq|Hne]; cbn [negb].
  - rewrite Hedges. do 4 f_equal. lia.
  - assert (k = Z.to_nat n) as Hkn by lia. rewrite (IH (p + k)%nat); [|lia|apply Hend; lia|done|lia].
    cbn. rewrite Hedges. do 2 f_equal. rewrite <- fmap_app. f_equal.
    replace (e - p)%nat with (k + (e - (p + k)))%nat by lia. rewrite <- drop_drop. apply take_take_drop.
Qed.

Lemma filter_segment (p : R -> bool) b e :
  (b <= e <= length l)%nat ->
  (forall i x, l !! i = Some x -> p x = bool_decide (b <= i < e)%nat) ->
  filter p l = take (e - b) (drop b l).
Proof.
  intros Hbe Hp.
  assert (forall m, (forall i x, m !! i = Some x -> p x = false) -> filter p m = []) as Hnone.
  { intros m Hm. destruct (filter p m) as [|x m'] eqn:E; [done|].
    assert (x ∈ filter p m) as Hx by (rewrite E; left). apply list_elem_of_filter in Hx as [Hx Hin].
    apply list_elem_of_lookup_1 in Hin as [i Hi]. by rewrite (Hm _ _ Hi) in Hx. }
  assert (forall m : list R, (forall i x, m !! i = Some x -> p x = true) -> filter p m = m) as Hall.
  { induction m as [|x m IH]; intros Hm; [done|]. rewrite filter_cons_True.
    - by rewrite IH by (intros i y Hy; by apply (Hm (S i))).
    - by rewrite (Hm 0%nat x eq_refl). }
  rewrite <- (take_drop b l) at 1. rewrite <- (take_drop (e - b) (drop b l)) at 1.
  rewrite !filter_app, drop_drop. rewrite (Hnone (take b l)), (Hall (take _ _)), (Hnone (drop _ l)).
  - by rewrite app_nil_r.
  - intros i x Hx. rewrite lookup_drop in Hx. rewrite (Hp _ _ Hx), bool_decide_eq_false_2 by lia. done.
  - intros i x Hx. apply lookup_take_Some in Hx as [Hx Hi]. rewrite lookup_drop in Hx.
    rewrite (Hp _ _ Hx), bool_decide_eq_true_2 by lia. done.
  - intros i x Hx. apply lookup_take_Some in Hx as [Hx Hi]. rewrite (Hp _ _ Hx), bool_decide_eq_false_2 by lia. done.
Qed.

Lemma follow_range a n :
  args_ok a -> 0 < n < 2 ^ 32 ->
  follow (S (length l)) a l n None = Ok (Some (to_node <$> filter (selects a) l)).
Proof.
  intros Ha Hn. destruct (range a l) as [b e] eqn:Hr. destruct (range_spec a b e Ha Hr) as [Hbe Hsel].
  rewrite (filter_segment _ b e Hbe Hsel). apply (follow_spec a b e n); [done|done|lia|by left|done|lia].
Qed.

(** C23: a client that asks for pages of any size, each page after the last
    cursor of the one before, until there is no next page, ends after at most
    one page more than there are rows, and has then received exactly the rows
    inside the bounds it asked for, each once and in order. *)
Theorem pages_visit_range a n :
  args_ok a -> 0 < n < 2 ^ 32 ->
  follow (S (length l)) a l n None = Ok (Some (to_node <$> filter (selects a) l)).
Proof. apply follow_range. Qed.

End container.
End connection.

(** ** The blocks of the log *)

#[export] Instance uint_cursor n : Cursor (uint (S n)) (fun z => 0 <= z < 256 ^ Z.of_nat (S n)).
Proof.
  split; [apply _|]. intros k Hk. exists (Crypto.le_bytes (S n) k). split; [done|]. split; [done|].
  apply Crypto.le_bytes_bytes.
Qed.

Section blocks.
Context {T : Type}.
Abbreviation block := (BlockLog.block_with_id T).

Lemma block_log_ok (l : list block) :
  BlockLog.linked l -> Forall BlockLog.in_range l ->
  container_ok Z.ltb BlockLog.num BlockLog.lower_bound_by_num BlockLog.upper_bound_by_num
    (fun z => 0 <= z < 256 ^ Z.of_nat 4) l.
Proof.
  intros Hl Hr. rewrite Forall_forall in Hr.
  assert (forall i x, l !! i = Some x -> 0 <= BlockLog.num x < 2 ^ 32) as Hx.
  { intros i x Hi. apply (Hr x). by eapply list_elem_of_lookup_2. }
  assert (forall k i x, l !! i = Some x ->
    (BlockLog.num x <? k) = bool_decide (i < BlockLog.lower_bound_by_num l k)%nat) as Hlow.
  { intros k i x Hi. apply lookup_lt_Some in Hi as Hlt. destruct l as [|b0 l']; [done|].
    rewrite (BlockLog.lower_bound_spec _ _ _ Hl). rewrite (BlockLog.linked_num _ i x b0 Hl eq_refl Hi).
    case_bool_decide; [apply Z.ltb_lt | apply Z.ltb_ge]; lia. }
  split.
  - intros i x Hi. apply (Hx i x Hi).
  - intros i j x y Hi Hj. pose proof (BlockLog.linked_range l i j x y Hl Hi Hj).
    case_bool_decide; [apply Z.ltb_lt | apply Z.ltb_ge]; lia.
  - intros k _. by apply BlockLog.lower_bound_le.
  - intros k _. unfold BlockLog.upper_bound_by_num. destruct (_ =? _); [done|by apply BlockLog.lower_bound_le].
  - intros k i x _. apply Hlow.
  - intros k i x Hk Hi. unfold BlockLog.upper_bound_by_num. specialize (Hx i x Hi). apply lookup_lt_Some in Hi as Hlt.
    destruct (Z.eqb_spec k (2 ^ 32 - 1)) as [->|Hne].
    + rewrite bool_decide_eq_false_2 by lia. apply Z.ltb_ge. lia.
    + rewrite wrap_small by (cbn in Hk; lia). specialize (Hlow (k + 1) i x Hi).
      destruct (Z.ltb_spec (BlockLog.num x) (k + 1)); symmetry in Hlow.
      * apply bool_decide_eq_true in Hlow. rewrite bool_decide_eq_false_2 by lia. apply Z.ltb_ge. lia.
      * apply bool_decide_eq_false in Hlow. rewrite bool_decide_eq_true_2 by lia. apply Z.ltb_lt. lia.
Qed.

(** [BlockLog::blocks] *)
Definition blocks (a : args) (log : BlockLog.block_log T) : result connection :=
  make_connection (uint 4) Z.ltb BlockLog.num id BlockLog.lower_bound_by_num BlockLog.upper_bound_by_num
    a (BlockLog.blocks log).
End blocks.

Definition demo_blocks : list (BlockLog.block_with_id unit) :=
  (fun n => BlockLog.mk_block n (n + 99) (BlockLog.mk_eosio (n + 1000) 0 0 0 []) (n + 100)) <$> [5; 6; 7; 8; 9].
Definition demo_args : args := mk_args None (Some 6) None None None None None None.

Lemma pages_visit_range_witness :
  let f := follow (uint 4) Z.ltb BlockLog.num (fun b => b) BlockLog.lower_bound_by_num BlockLog.upper_bound_by_num in
  f 6%nat demo_args demo_blocks 3 None = Ok (Some (filter (selects Z.ltb BlockLog.num demo_args) demo_blocks)) /\
  length (filter (selects Z.ltb BlockLog.num demo_args) demo_blocks) = 4%nat.
Proof.
  cbv zeta. split; [|vm_compute; reflexivity].
  rewrite <- (list_fmap_id (filter _ _)). change 6%nat with (S (length demo_blocks)).
  refine (pages_visit_range (uint 4) Z.ltb BlockLog.num (fun b => b) BlockLog.lower_bound_by_num
    BlockLog.upper_bound_by_num (fun z => 0 <= z < 256 ^ Z.of_nat 4) demo_blocks _ demo_args 3 _ _).
  - apply block_log_ok; [by vm_compute | repeat constructor; by vm_compute].
  - by vm_compute.
  - by vm_compute.
Defined.

End Connection.
