(* ===== verification/EventWire.v ===== *)
(** Events on the wire: how the contract packs its events into [eden.events]
    actions of at most 4 KiB ([contracts/eden/src/events.cpp]) and how the
    history node reads them back ([filter_block] of
    [contracts/eden/src/eden-micro-chain.cpp], lines 2229-2236).  The format
    is the one of [to_bin.hpp] and [from_bin.hpp] applied to the variant of
    [contracts/eden/include/events.hpp]. *)
From S2P Require Import Prelude Name Asset Crypto Binary Host Events.
Open Scope string_scope.
Open Scope list_scope.
Open Scope Z_scope.

Module EventWire.
Import Crypto Binary Events.

(** ** Codecs of the field types *)

Abbreviation u8 := (uint 1).
Abbreviation u16 := (uint 2).
Abbreviation u32 := (uint 4).
Abbreviation u64 := (uint 8).

(** A signed integer of [n] bytes. *)
Definition sint (n : nat) : codec Z :=
  mk_codec (fun z => Ok (le_bytes n (wrap (8 * Z.of_nat n) z)))
           (fun s => '(bs, s) ← read n s; Ok (swrap (8 * Z.of_nat n) (of_le bs), s)).

(** [std::array<uint8_t, n>]: the bytes, without their number. *)
Definition array_codec (n : nat) : codec (list Z) :=
  mk_codec (fun l => Ok (take n l)) (read n).

Definition checksum_codec : codec checksum256 :=
  mk_codec (fun c => Ok (extract_as_byte_array c))
           (fun s => '(bs, s) ← read 32 s; Ok (checksum_of_bytes bs, s)).

(** [EOSIO_REFLECT(asset, amount, symbol)] *)
Definition asset_codec : codec asset :=
  mk_codec (fun a => to_bin (pair_codec (sint 8) u64) (Asset.amount a, Asset.symbol a))
           (fun s => '((amount, symbol), s) ← from_bin (pair_codec (sint 8) u64) s;
                     Ok (Asset.mk amount symbol, s)).

(** ** Variants *)

(** One alternative of a variant: the fields of the struct, how to build the
    variant from them, and how to find them in it. *)
Record alternative (E : Type) : Type := mk_alt {
  fields : Type;
  fields_codec : codec fields;
  make : fields -> E;
  get : E -> option fields
}.
Arguments mk_alt {E fields}.
Arguments fields {E}.
Arguments fields_codec {E}.
Arguments make {E}.
Arguments get {E}.

(** [varuint32_to_bin(obj.index())], then the alternative held. *)
Fixpoint variant_to_bin {E} (i : Z) (alts : list (alternative E)) (e : E) : result (list Z) :=
  match alts with
  | [] => Err (Trap "valueless variant")
  | a :: alts =>
      match get a e with
      | Some x => n ← varuint32_to_bin i; y ← to_bin (fields_codec a) x; Ok (n ++ y)
      | None => variant_to_bin (i + 1) alts e
      end
  end.

(** [variant_from_bin<I>]: the alternatives from [I] on. *)
Fixpoint variant_from_bin {E} (I : Z) (alts : list (alternative E)) (i : Z) (s : list Z)
    : result (E * list Z) :=
  match alts with
  | [] => Err (Check "Bad variant index")
  | a :: alts =>
      if i =? I then '(x, s) ← from_bin (fields_codec a) s; Ok (make a x, s)
      else variant_from_bin (I + 1) alts i s
  end.
Definition variant_codec {E} (alts : list (alternative E)) : codec E :=
  mk_codec (variant_to_bin 0 alts)
           (fun s => '(u, s) ← varuint32_from_bin s; variant_from_bin 0 alts u s).

(** [using public_key = std::variant<ecc_public_key, ecc_public_key,
    webauthn_public_key>].  The data of a WebAuthN key is its 33 bytes, the
    byte of the user's presence and the characters of the relying party. *)
Definition webauthn_codec : codec (list Z) :=
  mk_codec (fun d => rp ← to_bin bytes_codec (drop 34 d); Ok (take 34 d ++ rp))
           (fun s => '(k, s) ← read 34 s; '(rp, s) ← from_bin bytes_codec s; Ok (k ++ rp, s)).
Definition public_key_codec : codec public_key := variant_codec [
  mk_alt (array_codec 33) key_k1 (fun k => match k with key_k1 d => Some d | _ => None end);
  mk_alt (array_codec 33) key_r1 (fun k => match k with key_r1 d => Some d | _ => None end);
  mk_alt webauthn_codec key_webauthn (fun k => match k with key_webauthn d => Some d | _ => None end)
].

(** [EOSIO_REFLECT(vote_report, voter, candidate)] *)
Definition vote_report_codec : codec vote_report :=
  mk_codec (fun v => to_bin (pair_codec u64 u64) (voter v, candidate v))
           (fun s => '((x, y), s) ← from_bin (pair_codec u64 u64) s; Ok (mk_vote x y, s)).

#[local] Infix "⊗" := pair_codec (at level 35, right associativity).

(** [using event = std::variant<...>], with the fields in the order of their
    [EOSIO_REFLECT]. *)
Definition event_alternatives : list (alternative event) := [
  mk_alt (u32 ⊗ u16) (fun '(t, th) => election_event_schedule t th)
    (fun e => match e with election_event_schedule t th => Some (t, th) | _ => None end);
  mk_alt u32 election_event_begin
    (fun e => match e with election_event_begin t => Some t | _ => None end);
  mk_alt (u32 ⊗ u32 ⊗ u32 ⊗ checksum_codec)
    (fun '(t, (b, (n, s))) => election_event_seeding t b n s)
    (fun e => match e with election_event_seeding t b n s => Some (t, (b, (n, s))) | _ => None end);
  mk_alt u32 election_event_end_seeding
    (fun e => match e with election_event_end_seeding t => Some t | _ => None end);
  mk_alt (u32 ⊗ u8 ⊗ u16) (fun '(t, (r, p)) => election_event_config_summary t r p)
    (fun e => match e with election_event_config_summary t r p => Some (t, (r, p)) | _ => None end);
  mk_alt (u32 ⊗ u8 ⊗ bool_codec ⊗ u16 ⊗ u16)
    (fun '(t, (r, (v, (p, g)))) => election_event_create_round t r v p g)
    (fun e => match e with
              | election_event_create_round t r v p g => Some (t, (r, (v, (p, g))))
              | _ => None end);
  mk_alt (u32 ⊗ u8 ⊗ vector_codec u64) (fun '(t, (r, vs)) => election_event_create_group t r vs)
    (fun e => match e with election_event_create_group t r vs => Some (t, (r, vs)) | _ => None end);
  mk_alt (u32 ⊗ u8 ⊗ u32 ⊗ u32) (fun '(t, (r, (b, n))) => election_event_begin_round_voting t r b n)
    (fun e => match e with
              | election_event_begin_round_voting t r b n => Some (t, (r, (b, n)))
              | _ => None end);
  mk_alt (u32 ⊗ u8) (fun '(t, r) => election_event_end_round_voting t r)
    (fun e => match e with election_event_end_round_voting t r => Some (t, r) | _ => None end);
  mk_alt (u32 ⊗ u8 ⊗ u64 ⊗ vector_codec vote_report_codec)
    (fun '(t, (r, (w, vs))) => election_event_report_group t r w vs)
    (fun e => match e with
              | election_event_report_group t r w vs => Some (t, (r, (w, vs)))
              | _ => None end);
  mk_alt (u32 ⊗ u8) (fun '(t, r) => election_event_end_round t r)
    (fun e => match e with election_event_end_round t r => Some (t, r) | _ => None end);
  mk_alt u32 election_event_end
    (fun e => match e with election_event_end t => Some t | _ => None end);
  mk_alt (u64 ⊗ u8) (fun '(p, m) => set_pool_event p m)
    (fun e => match e with set_pool_event p m => Some (p, m) | _ => None end);
  mk_alt u32 distribution_event_schedule
    (fun e => match e with distribution_event_schedule t => Some t | _ => None end);
  mk_alt (u32 ⊗ u64 ⊗ asset_codec) (fun '(t, (p, a)) => distribution_event_reserve t p a)
    (fun e => match e with distribution_event_reserve t p a => Some (t, (p, a)) | _ => None end);
  mk_alt (u32 ⊗ vector_codec asset_codec) (fun '(t, l) => distribution_event_begin t l)
    (fun e => match e with distribution_event_begin t l => Some (t, l) | _ => None end);
  mk_alt (u32 ⊗ u64 ⊗ asset_codec) (fun '(t, (p, a)) => distribution_event_return_excess t p a)
    (fun e => match e with
              | distribution_event_return_excess t p a => Some (t, (p, a))
              | _ => None end);
  mk_alt (u64 ⊗ u32 ⊗ u8 ⊗ asset_codec) (fun '(o, (t, (r, a))) => distribution_event_fund o t r a)
    (fun e => match e with distribution_event_fund o t r a => Some (o, (t, (r, a))) | _ => None end);
  mk_alt u32 distribution_event_end
    (fun e => match e with distribution_event_end t => Some t | _ => None end);
  mk_alt (u64 ⊗ u32 ⊗ u8 ⊗ asset_codec ⊗ u64)
    (fun '(o, (t, (r, (a, p)))) => distribution_event_return o t r a p)
    (fun e => match e with
              | distribution_event_return o t r a p => Some (o, (t, (r, (a, p))))
              | _ => None end);
  mk_alt varuint32 migration_event
    (fun e => match e with migration_event i => Some i | _ => None end);
  mk_alt (u64 ⊗ public_key_codec ⊗ u32 ⊗ string_codec)
    (fun '(a, (k, (x, d))) => session_new_event a k x d)
    (fun e => match e with session_new_event a k x d => Some (a, (k, (x, d))) | _ => None end);
  mk_alt (u64 ⊗ public_key_codec) (fun '(a, k) => session_del_event a k)
    (fun e => match e with session_del_event a k => Some (a, k) | _ => None end)
].
Definition event_codec : codec event := variant_codec event_alternatives.

(** ** The buffer of the contract *)

(** [serialized_events], [num_events] and the actions sent so far. *)
Record null_action : Type := mk_null_action {
  account : Z; name : Z; authorization : list (Z * Z); data : list Z }.
Record buffer : Type := mk_buffer {
  serialized_events : list Z; num_events : Z; sent : list null_action }.

Definition send_events (self : Z) (b : buffer) : result buffer :=
  if negb (num_events b =? 0) then
    n ← varuint32_to_bin (num_events b);
    Ok (mk_buffer [] 0 (sent b ++ [mk_null_action (Name.n "eosio.null") (Name.n "eden.events")
          [(self, Name.n "active")] (n ++ serialized_events b)]))
  else Ok b.

Definition push_event (self : Z) (b : buffer) (e : event) : result buffer :=
  s ← to_bin event_codec e;
  let est_size := 5 + Z.of_nat (length (serialized_events b)) + Z.of_nat (length s) in
  b ← (if 4 * 1024 <? est_size then send_events self b else Ok b);
  Ok (mk_buffer (serialized_events b ++ s) (wrap 32 (num_events b + 1)) (sent b)).

(** What [apply] leaves: the globals are fresh, the action pushes its events,
    and the rest of the buffer is sent at the end. *)
Definition send_all (self : Z) (evs : list event) : result (list null_action) :=
  b ← foldM (push_event self) evs (mk_buffer [] 0 []);
  b ← send_events self b;
  Ok (sent b).

(** [convert_from_bin<std::vector<event>>] at the node. *)
Definition events_of_data (bin : list Z) : result (list event) :=
  '(l, _) ← from_bin (vector_codec event_codec) bin; Ok l.

(** The range of the fields. *)
Definition uint_ok (n : nat) (z : Z) : Prop := 0 <= z < 256 ^ Z.of_nat n.
Definition len_ok {A} (l : list A) : Prop := Z.of_nat (length l) < 2 ^ 32.
Definition key_ok (k : public_key) : Prop :=
  match k with
  | key_k1 d | key_r1 d => length d = 33%nat
  | key_webauthn d => (34 <= length d)%nat /\ len_ok (drop 34 d)
  end.
Definition asset_ok (a : asset) : Prop :=
  - 2 ^ 63 <= Asset.amount a < 2 ^ 63 /\ uint_ok 8 (Asset.symbol a).
Definition event_ok (e : event) : Prop :=
  match e with
  | election_event_schedule t th => uint_ok 4 t /\ uint_ok 2 th
  | election_event_begin t | election_event_end_seeding t | election_event_end t
  | distribution_event_schedule t | distribution_event_end t => uint_ok 4 t
  | election_event_seeding t b n s => uint_ok 4 t /\ uint_ok 4 b /\ uint_ok 4 n /\ uint_ok 32 s
  | election_event_config_summary t r p => uint_ok 4 t /\ uint_ok 1 r /\ uint_ok 2 p
  | election_event_create_round t r _ p g =>
      uint_ok 4 t /\ uint_ok 1 r /\ True /\ uint_ok 2 p /\ uint_ok 2 g
  | election_event_create_group t r vs =>
      uint_ok 4 t /\ uint_ok 1 r /\ len_ok vs /\ Forall (uint_ok 8) vs
  | election_event_begin_round_voting t r b n =>
      uint_ok 4 t /\ uint_ok 1 r /\ uint_ok 4 b /\ uint_ok 4 n
  | election_event_end_round_voting t r | election_event_end_round t r => uint_ok 4 t /\ uint_ok 1 r
  | election_event_report_group t r w vs =>
      uint_ok 4 t /\ uint_ok 1 r /\ uint_ok 8 w /\
      len_ok vs /\ Forall (fun v => uint_ok 8 (voter v) /\ uint_ok 8 (candidate v)) vs
  | set_pool_event p m => uint_ok 8 p /\ uint_ok 1 m
  | distribution_event_reserve t p a | distribution_event_return_excess t p a =>
      uint_ok 4 t /\ uint_ok 8 p /\ asset_ok a
  | distribution_event_begin t l => uint_ok 4 t /\ len_ok l /\ Forall asset_ok l
  | distribution_event_fund o t r a => uint_ok 8 o /\ uint_ok 4 t /\ uint_ok 1 r /\ asset_ok a
  | distribution_event_return o t r a p =>
      uint_ok 8 o /\ uint_ok 4 t /\ uint_ok 1 r /\ asset_ok a /\ uint_ok 8 p
  | migration_event i => uint_ok 4 i
  | session_new_event a k x d =>
      uint_ok 8 a /\ key_ok k /\ uint_ok 4 x /\ len_ok (bytes_of_string d)
  | session_del_event a k => uint_ok 8 a /\ key_ok k
  end.

(** ** Complete codecs

    A codec is complete for the values of [P] when it writes each of them and
    reads it back whatever follows. *)
Class Complete {A} (c : codec A) (P : A -> Prop) : Prop :=
  complete : forall a, P a -> exists bs, to_bin c a = Ok bs /\
    forall rest, from_bin c (bs ++ rest) = Ok (a, rest).

Lemma read_exactly (l rest : list Z) n : length l = n -> read n (l ++ rest) = Ok (l, rest).
Proof.
  intros <-. unfold read. rewrite length_app.
  destruct (Nat.leb_spec (length l) (length l + length rest)); [|lia].
  by rewrite take_app_length, drop_app_length.
Qed.

Lemma complete_of_lawful {A} (c : codec A) (P Q : A -> Prop) :
  Lawful c P -> (forall a, Q a -> P a /\ exists bs, to_bin c a = Ok bs) -> Complete c Q.
Proof.
  intros L T a Ha. destruct (T a Ha) as [Hp [bs Hb]]. exists bs. split; [done|]. intros rest. by apply L.
Qed.

#[export] Instance uint_complete n : Complete (uint n) (uint_ok n).
Proof. apply (complete_of_lawful _ _ _ (uint_lawful n)). intros z Hz. split; [exact Hz|by eexists]. Qed.

Lemma varuint32_total val : 0 <= val < 2 ^ 32 -> varuint32_to_bin val = Ok (varuint_bytes 5 val).
Proof.
  intros H. unfold varuint32_to_bin. rewrite Z.shiftr_div_pow2, Z.div_small by lia. done.
Qed.
#[export] Instance varuint32_complete : Complete varuint32 (uint_ok 4).
Proof.
  apply (complete_of_lawful _ _ _ varuint32_lawful). intros z Hz. split; [apply Hz|].
  exists (varuint_bytes 5 z). by apply varuint32_total.
Qed.
#[export] Instance bool_complete : Complete bool_codec (fun _ => True).
Proof. apply (complete_of_lawful _ _ _ bool_lawful). intros b _. split; [done|by eexists]. Qed.
#[export] Instance bytes_complete : Complete bytes_codec len_ok.
Proof.
  apply (complete_of_lawful _ _ _ bytes_lawful). intros l Hl. split; [done|].
  cbn. rewrite varuint32_total by (unfold len_ok in Hl; lia). by eexists.
Qed.
#[export] Instance string_complete : Complete string_codec (fun str => len_ok (bytes_of_string str)).
Proof.
  apply (complete_of_lawful _ _ _ string_lawful). intros str Hs. split; [done|].
  destruct (complete (c := bytes_codec) _ Hs) as (bs & Hb & _). by exists bs.
Qed.

#[export] Instance sint8_complete : Complete (sint 8) (fun z => - 2 ^ 63 <= z < 2 ^ 63).
Proof.
  intros z Hz. eexists. split; [reflexivity|]. intros rest. cbn [sint from_bin].
  rewrite read_exactly by apply le_bytes_length. cbn [mbind result_bind].
  rewrite of_le_le_bytes by (apply wrap_bounds; lia).
  f_equal. f_equal. unfold swrap, wrap. cbn [Z.of_nat Z.mul Z.sub Pos.mul Z.opp Z.add Z.pos_sub].
  change (8 * Z.of_nat 8) with 64. change (64 - 1) with 63.
  rewrite Zplus_mod_idemp_l, Z.mod_small by lia. lia.
Qed.
#[export] Instance array_complete n : Complete (array_codec n) (fun l => length l = n).
Proof.
  intros l <-. exists l. cbn. rewrite firstn_all. split; [done|]. intros rest. by apply read_exactly.
Qed.
#[export] Instance checksum_complete : Complete checksum_codec (uint_ok 32).
Proof.
  intros c Hc. eexists. split; [reflexivity|]. intros rest. cbn [checksum_codec from_bin].
  rewrite read_exactly by apply extract_length. cbn [mbind result_bind].
  by rewrite checksum_bytes_roundtrip by exact Hc.
Qed.

Section combinators.
Context {A B : Type} (ca : codec A) (cb : codec B) (P : A -> Prop) (Q : B -> Prop).
Context `{!Complete ca P}.

#[export] Instance pair_complete `{!Complete cb Q} : Complete (pair_codec ca cb) (fun p => P p.1 /\ Q p.2).
Proof.
  intros [a b] [Ha Hb]. destruct (complete a Ha) as (x & Hx & Rx). destruct (complete b Hb) as (y & Hy & Ry).
  exists (x ++ y). cbn in *. rewrite Hx. cbn. rewrite Hy. split; [done|]. intros rest.
  rewrite <- app_assoc, Rx. cbn. by rewrite Ry.
Qed.

Lemma all_complete l : Forall P l ->
  exists bs, write_all ca l = Ok bs /\ forall rest, read_all ca (length l) (bs ++ rest) = Ok (l, rest).
Proof.
  induction 1 as [|a l Ha Hl (y & Hy & Ry)]; [by exists []|].
  destruct (complete a Ha) as (x & Hx & Rx). exists (x ++ y). cbn. rewrite Hx. cbn. rewrite Hy.
  split; [done|]. intros rest. rewrite <- app_assoc, Rx. cbn. by rewrite Ry.
Qed.
#[export] Instance vector_complete : Complete (vector_codec ca) (fun l => len_ok l /\ Forall P l).
Proof.
  intros l [Hn Hl]. destruct (all_complete l Hl) as (y & Hy & Ry). unfold len_ok in Hn.
  exists (varuint_bytes 5 (Z.of_nat (length l)) ++ y). cbn [vector_codec to_bin from_bin].
  rewrite varuint32_total by lia. cbn [mbind result_bind]. rewrite Hy. split; [done|]. intros rest.
  rewrite <- app_assoc, varuint32_read_back by lia. cbn [mbind result_bind]. rewrite Nat2Z.id. apply Ry.
Qed.

(** A struct read through its fields. *)
Lemma complete_struct (c : codec B) (f : B -> A) (R : B -> Prop) :
  (forall b, to_bin c b = to_bin ca (f b)) ->
  (forall b s rest, from_bin ca s = Ok (f b, rest) -> from_bin c s = Ok (b, rest)) ->
  (forall b, R b -> P (f b)) -> Complete c R.
Proof.
  intros Hw Hr HR b Hb. destruct (complete (f b) (HR b Hb)) as (x & Hx & Rx).
  exists x. rewrite Hw. split; [done|]. intros rest. apply Hr, Rx.
Qed.
End combinators.

#[export] Instance asset_complete : Complete asset_codec asset_ok.
Proof.
  apply (complete_struct (pair_codec (sint 8) (uint 8)) _ asset_codec (fun a => (Asset.amount a, Asset.symbol a))).
  - done.
  - intros [m y] s rest H. cbn in *. by rewrite H.
  - intros a Ha. exact Ha.
Qed.
#[export] Instance vote_report_complete :
  Complete vote_report_codec (fun v => uint_ok 8 (voter v) /\ uint_ok 8 (candidate v)).
Proof.
  apply (complete_struct (pair_codec (uint 8) (uint 8)) _ vote_report_codec (fun v => (voter v, candidate v))).
  - done.
  - intros [x y] s rest H. cbn in *. by rewrite H.
  - intros v Hv. exact Hv.
Qed.
#[export] Instance webauthn_complete :
  Complete webauthn_codec (fun d => (34 <= length d)%nat /\ len_ok (drop 34 d)).
Proof.
  intros d [Hl Hd]. destruct (complete (c := bytes_codec) _ Hd) as (x & Hx & Rx).
  exists (take 34 d ++ x). cbn [webauthn_codec to_bin from_bin]. rewrite Hx. split; [done|]. intros rest.
  rewrite <- app_assoc, read_exactly by (rewrite length_take; lia). cbn [mbind result_bind].
  rewrite Rx. cbn [mbind result_bind]. by rewrite take_drop.
Qed.

(** An alternative is complete for the values of [P] it holds. *)
Class AltComplete {E} (a : alternative E) (P : E -> Prop) : Prop :=
  alt_complete : forall e x, P e -> get a e = Some x -> make a x = e /\
    exists bs, to_bin (fields_codec a) x = Ok bs /\
      forall rest, from_bin (fields_codec a) (bs ++ rest) = Ok (x, rest).

Lemma variant_complete_from {E} (alts : list (alternative E)) (P : E -> Prop) i e :
  Forall (fun a => AltComplete a P) alts -> 0 <= i -> i + Z.of_nat (length alts) <= 2 ^ 32 ->
  P e -> Exists (fun a => is_Some (get a e)) alts ->
  exists j bs y, variant_to_bin i alts e = Ok bs /\ bs = varuint_bytes 5 j ++ y /\ i <= j < 2 ^ 32 /\
    forall rest, variant_from_bin i alts j (y ++ rest) = Ok (e, rest).
Proof.
  intros Hall. revert i. induction Hall as [|a alts Ha Hall IH]; intros i Hi Hn Hp He; [by inversion He|].
  cbn [length] in Hn. cbn [variant_to_bin variant_from_bin]. destruct (get a e) as [x|] eqn:G.
  - destruct (Ha e x Hp G) as (Hm & y & Hy & Ry). rewrite varuint32_total by lia. cbn [mbind result_bind].
    rewrite Hy. exists i, (varuint_bytes 5 i ++ y), y. repeat split; [lia|lia|]. intros rest.
    rewrite Z.eqb_refl, Ry. cbn. by rewrite Hm.
  - destruct (IH (i + 1)) as (j & bs & y & Hw & Hb & Hj & Hr); [lia|lia|done| |].
    { inversion He as [? ? [x Hx]|]; [congruence|done]. }
    exists j, bs, y. repeat split; [done|done|lia|lia|]. intros rest.
    destruct (Z.eqb_spec j i); [lia|]. apply Hr.
Qed.
Lemma variant_complete {E} (alts : list (alternative E)) (P : E -> Prop) :
  Forall (fun a => AltComplete a P) alts -> Z.of_nat (length alts) <= 2 ^ 32 ->
  (forall e, P e -> Exists (fun a => is_Some (get a e)) alts) -> Complete (variant_codec alts) P.
Proof.
  intros Ha Hn He e Hp.
  destruct (variant_complete_from alts P 0 e Ha) as (j & bs & y & Hw & -> & Hj & Hr); [lia|lia|done|by apply He|].
  exists (varuint_bytes 5 j ++ y). split; [done|]. intros rest. cbn [variant_codec from_bin].
  rewrite <- app_assoc, varuint32_read_back by lia. apply Hr.
Qed.

(** One alternative from the codec of its fields; [alternatives] does all. *)
Lemma alt_of_complete {E F} (c : codec F) (mk : F -> E) g (P : E -> Prop) (Q : F -> Prop) :
  Complete c Q -> (forall e x, g e = Some x -> mk x = e) -> (forall e x, P e -> g e = Some x -> Q x) ->
  AltComplete (mk_alt c mk g) P.
Proof. intros Hc Hm Hq e x Hp G. split; [by apply Hm|]. apply Hc. by apply (Hq e). Qed.

Ltac alternatives :=
  repeat match goal with
  | |- Forall _ [] => constructor
  | |- Forall _ (_ :: _) => apply Forall_cons; split
  | |- AltComplete _ _ =>
      eapply alt_of_complete; [typeclasses eauto | by intros [] ? [=]; subst | by intros [] ? ? [=]; subst]
  end.
Ltac some_alternative := repeat first [apply Exists_cons_hd; by eexists | apply Exists_cons_tl].

#[export] Instance public_key_complete : Complete public_key_codec key_ok.
Proof.
  apply variant_complete; [alternatives | done | intros [] ?; some_alternative].
Qed.
#[export] Instance event_complete : Complete event_codec event_ok.
Proof.
  unfold event_codec, event_alternatives.
  apply variant_complete; [alternatives | done | intros [] ?; some_alternative].
Qed.

End EventWire.
