(* ===== verification/EventDelivery.v ===== *)
(** From the contract to its history node: the actions [send_events] leaves
    behind carry, however the events were packed, exactly the events that were
    pushed, and the node handles them in that order. *)
From S2P Require Import Prelude Name Asset Crypto Binary Events EventWire MicroTables MicroChain MicroReplay.
Open Scope string_scope.
Open Scope list_scope.
Open Scope Z_scope.

Module EventDelivery.
Import Binary EventWire.

(** ** The buffer *)

(** The bytes of a batch of events, and the action that carries it. *)
Definition batch_size (bs : list Z) : Z := 5 + Z.of_nat (length bs).
Definition fits (evs : list event) (bs : list Z) : Prop := batch_size bs <= 4096 \/ (length evs <= 1)%nat.
Definition carries (self : Z) (a : null_action) (evs : list event) : Prop :=
  exists bs, write_all event_codec evs = Ok bs /\ fits evs bs /\ evs <> [] /\ Forall event_ok evs /\
    Z.of_nat (length evs) < 2 ^ 32 /\
    a = mk_null_action (Name.n "eosio.null") (Name.n "eden.events") [(self, Name.n "active")]
          (varuint_bytes 5 (Z.of_nat (length evs)) ++ bs).

(** What the buffer holds after [evs]: the batches sent and the one under way. *)
Record holds (self : Z) (evs : list event) (b : buffer) (batches : list (list event)) (cur : list event)
    : Prop := {
  h_all : evs = concat batches ++ cur;
  h_sent : Forall2 (carries self) (sent b) batches;
  h_cur : write_all event_codec cur = Ok (serialized_events b);
  h_ok : Forall event_ok cur;
  h_fits : fits cur (serialized_events b);
  h_num : num_events b = Z.of_nat (length cur);
  h_bytes : (length cur <= length (serialized_events b))%nat
}.

Lemma varuint_bytes_pos fuel val : (0 < length (varuint_bytes (S fuel) val))%nat.
Proof. cbn [varuint_bytes]. destruct (_ <? _); cbn; lia. Qed.
Lemma event_bytes_pos e s : event_ok e -> to_bin event_codec e = Ok s -> (0 < length s)%nat.
Proof.
  intros He Hs.
  assert (forall alts i, variant_to_bin (E := event) i alts e = Ok s -> (0 < length s)%nat) as H.
  { induction alts as [|a alts IH]; intros i H; cbn in H; [discriminate|].
    destruct (get a e); [|by eapply IH]. apply bind_Ok in H as (n & Hn & H).
    apply bind_Ok in H as (y & _ & H). injection H as <-. unfold varuint32_to_bin in Hn.
    apply bind_Ok in Hn as (u & _ & Hn). assert (n = varuint_bytes 5 i) as -> by congruence.
    rewrite length_app. apply (Nat.lt_lt_add_r _ _ _ (varuint_bytes_pos 4 i)). }
  exact (H _ 0 Hs).
Qed.

Lemma write_all_snoc evs bs e s :
  write_all event_codec evs = Ok bs -> to_bin event_codec e = Ok s ->
  write_all event_codec (evs ++ [e]) = Ok (bs ++ s).
Proof.
  revert bs. induction evs as [|x evs IH]; intros bs H Hs; cbn in *.
  - injection H as <-. rewrite Hs. cbn. by rewrite app_nil_r.
  - apply bind_Ok in H as (y & Hy & H). apply bind_Ok in H as (z & Hz & H). injection H as <-.
    rewrite Hy. cbn. rewrite (IH z Hz Hs). cbn. by rewrite app_assoc.
Qed.

Lemma cur_short self evs b batches cur :
  holds self evs b batches cur -> Z.of_nat (length cur) <= 4096.
Proof.
  intros H. pose proof (h_bytes _ _ _ _ _ H). destruct (h_fits _ _ _ _ _ H) as [Hf|Hf]; unfold batch_size in *; lia.
Qed.

Lemma send_holds self evs b batches cur :
  holds self evs b batches cur -> exists b', send_events self b = Ok b' /\
    exists batches', holds self evs b' batches' [] /\ serialized_events b' = [] /\ num_events b' = 0.
Proof.
  intros H. pose proof (cur_short _ _ _ _ _ H) as Hs. destruct H as [Hall Hsent Hcur Hok Hfits Hnum Hb].
  unfold send_events. destruct (Z.eqb_spec (num_events b) 0) as [H0|H0]; cbn [negb].
  - rewrite Hnum in H0. destruct cur; [|cbn in H0; lia]. exists b. split; [done|]. exists batches.
    split; [by constructor|]. cbn in Hcur, Hnum. by injection Hcur as <-.
  - rewrite varuint32_total by lia. eexists. split; [reflexivity|]. exists (batches ++ [cur]).
    split; [|done]. constructor; cbn [sent serialized_events num_events length]; try done;
      [| |left; unfold batch_size; cbn; lia].
    + by rewrite concat_app, app_nil_r, concat_cons, app_nil_r.
    + apply Forall2_app; [done|]. constructor; [|constructor]. exists (serialized_events b).
      rewrite Hnum in *. repeat split; try done; [|lia]. by intros ->.
Qed.

Lemma push_holds self evs b batches cur e :
  event_ok e -> holds self evs b batches cur ->
  exists b' batches' cur', push_event self b e = Ok b' /\ holds self (evs ++ [e]) b' batches' cur'.
Proof.
  intros He H. destruct (event_complete e He) as (s & Hs & _). pose proof (event_bytes_pos e s He Hs) as Hp.
  unfold push_event. rewrite Hs. cbn [mbind result_bind].
  destruct (Z.ltb_spec (4 * 1024) (5 + Z.of_nat (length (serialized_events b)) + Z.of_nat (length s))) as [Hbig|Hsmall].
  - destruct (send_holds _ _ _ _ _ H) as (b' & -> & batches' & [Hall Hsent Hcur Hok Hfits Hnum Hb] & Hser & Hn).
    eexists _, batches', [e]. split; [reflexivity|]. rewrite Hser, Hn.
    constructor; cbn [sent serialized_events num_events length]; try done.
    + by rewrite Hall, app_nil_r.
    + cbn [write_all]. rewrite Hs. cbn. by rewrite app_nil_r.
    + by constructor.
    + by right.
  - eexists _, batches, (cur ++ [e]). split; [reflexivity|].
    pose proof (cur_short _ _ _ _ _ H) as Hc. destruct H as [Hall Hsent Hcur Hok Hfits Hnum Hb].
    constructor; cbn [sent serialized_events num_events]; try done; rewrite ?length_app; cbn [length].
    + by rewrite Hall, app_assoc.
    + by apply write_all_snoc.
    + apply Forall_app. split; [done|by repeat constructor].
    + left. unfold batch_size. rewrite length_app. lia.
    + rewrite wrap_small; lia.
    + lia.
Qed.

Lemma push_all_holds self evs : Forall event_ok evs -> forall done_ b batches cur,
  holds self done_ b batches cur ->
  exists b' batches' cur', foldM (push_event self) evs b = Ok b' /\ holds self (done_ ++ evs) b' batches' cur'.
Proof.
  induction 1 as [|e evs He Hevs IH]; intros done_ b batches cur H.
  - rewrite app_nil_r. by eexists _, _, _.
  - destruct (push_holds _ _ _ _ _ e He H) as (b1 & bt1 & c1 & H1 & K1).
    destruct (IH _ _ _ _ K1) as (b2 & bt2 & c2 & H2 & K2). exists b2, bt2, c2. cbn [foldM]. rewrite H1. cbn [mbind result_bind].
    rewrite H2. by rewrite <- app_assoc in K2.
Qed.

(** What [send_all] leaves: the events cut into batches, one action each. *)
Lemma send_all_carries self evs : Forall event_ok evs ->
  exists acts batches, send_all self evs = Ok acts /\ evs = concat batches /\ Forall2 (carries self) acts batches.
Proof.
  intros Hok. assert (holds self [] (mk_buffer [] 0 []) [] []) as H0.
  { constructor; cbn [sent serialized_events num_events length]; try done; by right; cbn; lia. }
  destruct (push_all_holds self evs Hok _ _ _ _ H0) as (b & bt & cur & Hb & K).
  destruct (send_holds _ _ _ _ _ K) as (b' & Hb' & bt' & K' & _). unfold send_all. rewrite Hb.
  cbn [mbind result_bind]. rewrite Hb'. cbn [mbind result_bind].
  exists (sent b'), bt'. split; [done|]. destruct K' as [Hall Hsent _ _ _ _ _]. cbn in Hall.
  by rewrite app_nil_r in Hall.
Qed.

Lemma carries_data self a evs : carries self a evs -> events_of_data (data a) = Ok evs.
Proof.
  intros (bs & Hbs & _ & _ & Hok & Hn & ->). unfold events_of_data. cbn [data vector_codec from_bin].
  rewrite varuint32_read_back by lia. cbn [mbind result_bind]. rewrite Nat2Z.id.
  destruct (all_complete event_codec event_ok evs Hok) as (bs' & Hbs' & R).
  rewrite Hbs in Hbs'. injection Hbs' as <-. specialize (R []). rewrite app_nil_r in R. by rewrite R.
Qed.

(** ** The node *)

Section node.
Context {accounts : MicroChain.Node}.

(** The action as the node meets it in a block of the contract's chain. *)
Definition delivered (a : null_action) : result MicroChain.action :=
  evs ← events_of_data (data a);
  Ok (MicroChain.mk_action (account a) (account a) (name a) (Some MicroChain.eden_account)
        (MicroChain.d_events evs)).

Definition handle_all (now : Z) (evs : list event) (r : MicroChain.replay) : result MicroChain.replay :=
  MicroChain.on_data (foldM (fun d ev => MicroReplay.handle_event now ev d) evs) r.

Lemma handle_all_app now l1 l2 r : handle_all now (l1 ++ l2) r = handle_all now l1 r ≫= handle_all now l2.
Proof.
  unfold handle_all, MicroChain.on_data. rewrite foldM_app. by destruct (foldM _ l1 _).
Qed.

Lemma delivered_run now self a evs :
  MicroChain.eden_account <> Name.n "eosio.null" -> carries self a evs ->
  exists x, delivered a = Ok x /\ forall r, MicroReplay.run_action now r x = handle_all now evs r.
Proof.
  intros Hne Hc. unfold delivered. rewrite (carries_data _ _ _ Hc). eexists. split; [reflexivity|]. intros r.
  destruct Hc as (bs & _ & _ & _ & _ & _ & ->). unfold MicroReplay.run_action. cbn [account name MicroChain.firstReceiver
    MicroChain.receiver MicroChain.name MicroChain.creator MicroChain.hexData].
  destruct (Z.eqb_spec (Name.n "eosio.null") MicroChain.eden_account); [congruence|].
  change (Name.n "eden.events" =? Name.n "transfer") with false. rewrite andb_false_r.
  by rewrite !Z.eqb_refl, bool_decide_eq_true_2 by done.
Qed.

(** What every action of the contract looks like. *)
Definition well_sent (self : Z) (a : null_action) : Prop :=
  account a = Name.n "eosio.null" /\ name a = Name.n "eden.events" /\
  authorization a = [(self, Name.n "active")] /\
  (Z.of_nat (length (data a)) <= 4096 \/ exists e, events_of_data (data a) = Ok [e]).

Lemma carries_well_sent self a evs : carries self a evs -> well_sent self a.
Proof.
  intros Ha. pose proof (carries_data _ _ _ Ha) as Hd.
  destruct Ha as (bs & _ & Hf & Hnil & _ & _ & ->). repeat split. destruct Hf as [Hf|Hf].
  - left. cbn [data]. rewrite length_app. pose proof (varuint_bytes_length 5 (Z.of_nat (length evs))).
    unfold batch_size in Hf. lia.
  - right. destruct evs as [|e [|]]; [done|by exists e|cbn in Hf; lia].
Qed.

(** C6: events reach the history node as they were pushed.  Whatever events an
    action pushes (with fields in the range of their types), the contract
    manages to send them; every [eden.events] action it sends is authorized by
    the contract itself and holds at most 4096 bytes unless it carries a single
    event; and the node, running the actions it receives one after the other,
    handles exactly the pushed events in the order they were pushed. *)
Theorem events_reach_node (now self : Z) (evs : list event) :
  MicroChain.eden_account <> Name.n "eosio.null" -> Forall event_ok evs ->
  exists acts trace, send_all self evs = Ok acts /\ Forall (well_sent self) acts /\
    Forall2 (fun a x => delivered a = Ok x) acts trace /\
    forall r, foldM (MicroReplay.run_action now) trace r = handle_all now evs r.
Proof.
  intros Hne Hok. destruct (send_all_carries self evs Hok) as (acts & batches & Hs & -> & Hc).
  clear Hok. exists acts.
  enough (Forall (well_sent self) acts /\ exists trace, Forall2 (fun a x => delivered a = Ok x) acts trace /\
    forall r, foldM (MicroReplay.run_action now) trace r = handle_all now (concat batches) r)
    as (H1 & trace & H2 & H3) by by exists trace.
  clear Hs. induction Hc as [|a evs acts batches Ha _ (H1 & trace & H2 & H3)].
  - split; [done|]. exists []. split; [constructor|]. by intros [d w m].
  - split; [constructor; [by eapply carries_well_sent|done]|].
    destruct (delivered_run now self a evs Hne Ha) as (x & Hx & Hr).
    exists (x :: trace). split; [by constructor|]. intros r. cbn [concat foldM].
    rewrite Hr, handle_all_app. destruct (handle_all now evs r); [apply H3|done].
Qed.
End node.

(** ** A concrete delivery *)

Definition demo_events : list event :=
  [Events.election_event_create_group 1000 0 [1; 2; 3];
   Events.distribution_event_fund 1 2000 1 (Asset.mk (-5) 6);
   Events.session_new_event 7 (Crypto.key_r1 (repeat 2 33)) 3000 "phone"].

Lemma events_reach_node_witness :
  let _ := MicroChain.mk_node_accounts 1 2 3 4 in
  exists acts trace, send_all 1 demo_events = Ok acts /\ Forall (well_sent 1) acts /\
    Forall2 (fun a x => delivered a = Ok x) acts trace /\
    forall r, foldM (MicroReplay.run_action 0) trace r = handle_all 0 demo_events r.
Proof.
  intros accounts. apply (@events_reach_node accounts 0 1 demo_events).
  - vm_compute. discriminate.
  - repeat constructor; unfold uint_ok, len_ok, EventWire.asset_ok; cbn; lia.
Defined.

(** Three hundred seedings of 45 bytes take four actions; the last one is what
    [apply] sends. *)
Example demo_split :
  match send_all 1 (repeat (Events.election_event_seeding 1 2 3 4) 300) with
  | Ok acts => (length ∘ data) <$> acts = [4051; 4051; 4051; 1351]%nat
  | Err _ => False
  end.
Proof. vm_compute. reflexivity. Qed.

End EventDelivery.
