(* ===== verification/KeyText.v ===== *)
(** Keys and signatures as text ([libraries/abieos/src/crypto.cpp]): the type
    in front, then the base-58 text of the key and the first four bytes of its
    checksum.  The history node prints the keys of members and sessions so. *)
From S2P Require Import Prelude Crypto Name Binary EventWire Ripemd160 Base58.
From Stdlib Require Import Ascii.
From Stdlib Require String.
Import Crypto Binary EventWire Ripemd160 Base58.
Open Scope string_scope.
Open Scope list_scope.
Open Scope Z_scope.

Module KeyText.

Abbreviation chars := (list ascii) (only parsing).
Definition lit (s : string) : chars := String.list_ascii_of_string s.
(** The bytes of a suffix. *)
Definition char_bytes (s : chars) : list Z := Name.code <$> s.

(** ** Private keys and signatures *)

(** [using private_key = std::variant<ecc_private_key, ecc_private_key>] *)
Inductive private_key : Type := pvt_k1 (data : list Z) | pvt_r1 (data : list Z).
Definition private_key_codec : codec private_key := variant_codec [
  mk_alt (array_codec 32) pvt_k1 (fun k => match k with pvt_k1 d => Some d | _ => None end);
  mk_alt (array_codec 32) pvt_r1 (fun k => match k with pvt_r1 d => Some d | _ => None end)
].

(** [EOSIO_REFLECT(webauthn_signature, compact_signature, auth_data, client_json)] *)
Definition webauthn_signature_codec : codec (list Z * (list Z * string)) :=
  pair_codec (array_codec 65) (pair_codec bytes_codec string_codec).
(** [using signature = std::variant<ecc_signature, ecc_signature, webauthn_signature>] *)
Inductive signature : Type :=
  | sig_k1 (data : list Z)
  | sig_r1 (data : list Z)
  | sig_webauthn (data : list Z * (list Z * string)).
Definition signature_codec : codec signature := variant_codec [
  mk_alt (array_codec 65) sig_k1 (fun k => match k with sig_k1 d => Some d | _ => None end);
  mk_alt (array_codec 65) sig_r1 (fun k => match k with sig_r1 d => Some d | _ => None end);
  mk_alt webauthn_signature_codec sig_webauthn (fun k => match k with sig_webauthn d => Some d | _ => None end)
].

(** [enum key_type] *)
Definition k1 : Z := 0.
Definition r1 : Z := 1.
Definition wa : Z := 2.

(** ** Any key *)

Section key.
Context {Key : Type} (key_codec : codec Key).

(** [convert_from_bin<Key>]: what follows the key is not looked at. *)
Definition convert_from_bin (bin : list Z) : result Key := '(k, _) ← from_bin key_codec bin; Ok k.

Definition string_to_key (s : chars) (type : Z) (suffix : chars) : result Key :=
  whole ← base58_to_binary [type] s;
  _ ← check (Nat.ltb 5 (length whole)) "Expected key";
  ripe_digest ← digest_suffix_ripemd160 [take (length whole - 5) (drop 1 whole); char_bytes suffix];
  _ ← check (bool_decide (take 4 ripe_digest = drop (length whole - 4) whole)) "Expected key";
  convert_from_bin (take (length whole - 4) whole).

Definition key_to_string (key : Key) (suffix prefix : chars) : result chars :=
  whole ← to_bin key_codec key;
  ripe_digest ← digest_suffix_ripemd160 [drop 1 whole; char_bytes suffix];
  Ok (prefix ++ binary_to_base58 (drop 1 (whole ++ take 4 ripe_digest))).
End key.

(** ** The conversions *)

(** [s.substr(0, n) == text] *)
Definition starts (text : string) (s : chars) : bool := bool_decide (take (String.length text) s = lit text).
Definition after (text : string) (s : chars) : chars := drop (String.length text) s.

Definition public_key_to_string (key : public_key) : result chars :=
  match key with
  | key_k1 _ => key_to_string public_key_codec key (lit "K1") (lit "PUB_K1_")
  | key_r1 _ => key_to_string public_key_codec key (lit "R1") (lit "PUB_R1_")
  | key_webauthn _ => key_to_string public_key_codec key (lit "WA") (lit "PUB_WA_")
  end.
Definition public_key_from_string (s : chars) : result public_key :=
  if starts "EOS" s then string_to_key public_key_codec (after "EOS" s) k1 []
  else if starts "PUB_K1_" s then string_to_key public_key_codec (after "PUB_K1_" s) k1 (lit "K1")
  else if starts "PUB_R1_" s then string_to_key public_key_codec (after "PUB_R1_" s) r1 (lit "R1")
  else if starts "PUB_WA_" s then string_to_key public_key_codec (after "PUB_WA_" s) wa (lit "WA")
  else Err (Check "Expected public key").

Definition private_key_to_string (key : private_key) : result chars :=
  match key with
  | pvt_k1 _ => key_to_string private_key_codec key (lit "K1") (lit "PVT_K1_")
  | pvt_r1 _ => key_to_string private_key_codec key (lit "R1") (lit "PVT_R1_")
  end.
(** The format without a prefix starts with a byte of its own, which becomes
    the type; its checksum is dropped. *)
Definition private_key_from_string (s : chars) : result private_key :=
  if starts "PVT_K1_" s then string_to_key private_key_codec (after "PVT_K1_" s) k1 (lit "K1")
  else if starts "PVT_R1_" s then string_to_key private_key_codec (after "PVT_R1_" s) r1 (lit "R1")
  else if starts "PVT_" s then Err (Check "Expected private key")
  else
    whole ← base58_to_binary [] s;
    _ ← check (Nat.leb 5 (length whole)) "Expected private key";
    let whole := <[0%nat := k1]> whole in
    convert_from_bin private_key_codec (take (length whole - 4) whole).

Definition signature_to_string (sig : signature) : result chars :=
  match sig with
  | sig_k1 _ => key_to_string signature_codec sig (lit "K1") (lit "SIG_K1_")
  | sig_r1 _ => key_to_string signature_codec sig (lit "R1") (lit "SIG_R1_")
  | sig_webauthn _ => key_to_string signature_codec sig (lit "WA") (lit "SIG_WA_")
  end.
Definition signature_from_string (s : chars) : result signature :=
  if Nat.leb 7 (length s) && starts "SIG_K1_" s then string_to_key signature_codec (after "SIG_K1_" s) k1 (lit "K1")
  else if Nat.leb 7 (length s) && starts "SIG_R1_" s then string_to_key signature_codec (after "SIG_R1_" s) r1 (lit "R1")
  else if Nat.leb 7 (length s) && starts "SIG_WA_" s then string_to_key signature_codec (after "SIG_WA_" s) wa (lit "WA")
  else Err (Check "Expected signature").

(** Vectors of the library's tests ([libraries/abieos/src/test.cpp]). *)
Example zero_key : public_key_from_string (lit "EOS1111111111111111111111111111111114T1Anm") = Ok (key_k1 (replicate 33 0)).
Proof. by vm_compute. Qed.
Example old_key :
  public_key_from_string (lit "EOS69X3383RzBZj41k73CSjUNXM5MYGpnDxyPnWUKPEtYQmTBWz4D") ≫= public_key_to_string
  = Ok (lit "PUB_K1_69X3383RzBZj41k73CSjUNXM5MYGpnDxyPnWUKPEtYQmVzqTY7").
Proof. by vm_compute. Qed.
Example webauthn_key : let s := "PUB_WA_8PPYTWYNkRqrveNAoX7PJWDtSqDUp3c29QGBfr6MD9EaLocaPBmsk5QAHWq4vEQt2" in
  public_key_from_string (lit s) ≫= public_key_to_string = Ok (lit s).
Proof. by vm_compute. Qed.

(** ** Round trips *)

Lemma char_bytes_length (s : chars) : length (char_bytes s) = length s.
Proof. apply length_fmap. Qed.

(** The digest of what is short enough for its length to be an [int]. *)
Lemma digest_total (d : list Z) (suffix : chars) : Z.of_nat (length d) < 2 ^ 31 -> (length suffix <= 2)%nat ->
  exists bs, digest_suffix_ripemd160 [d; char_bytes suffix] = Ok bs /\ length bs = 20%nat /\ bytes bs.
Proof.
  intros Hd Hs. assert (digest_suffix_ripemd160 [d; char_bytes suffix]
    = Ok (reference (concat [d; char_bytes suffix]))) as E.
  { apply pieces_spec. repeat (apply Forall_cons; split); [done| |constructor]. rewrite char_bytes_length. lia. }
  eexists. split; [exact E|]. split; [by eapply digest_length | by eapply digest_bytes].
Qed.

Section key.
Context {Key : Type} (key_codec : codec Key) (P : Key -> Prop) `{!Complete key_codec P}.

(** The bytes of a key: its type, then at least one more. *)
Definition key_bytes (key : Key) (type : Z) : Prop := exists data,
  to_bin key_codec key = Ok (type :: data) /\ bytes data /\ data <> [] /\ Z.of_nat (length data) < 2 ^ 31.

Lemma key_roundtrip key type suffix prefix : P key -> key_bytes key type -> (length suffix <= 2)%nat ->
  exists text, key_to_string key_codec key suffix prefix = Ok (prefix ++ text) /\
    string_to_key key_codec text type suffix = Ok key.
Proof.
  intros Hp (data & Eb & Hb & Hn & Hl) Hs. destruct (digest_total data suffix Hl Hs) as (d & Ed & Hd & Hdb).
  exists (binary_to_base58 (data ++ take 4 d)). unfold key_to_string. rewrite Eb. cbn [mbind result_bind skipn].
  rewrite drop_0, Ed. cbn [mbind result_bind]. split; [done|]. unfold string_to_key.
  rewrite bytes_roundtrip by (apply Forall_app; split; [done|by apply Forall_take]). cbn [mbind result_bind app].
  assert (length (take 4 d) = 4%nat) as H4 by (rewrite length_take; lia).
  assert (length (type :: data ++ take 4 d) = length data + 5)%nat as Hw by (cbn; rewrite length_app; lia).
  assert (length data <> 0)%nat as Hz by (destruct data; [done|cbn; lia]).
  rewrite check_true by (apply Nat.ltb_lt; lia). rewrite Hw.
  replace (length data + 5 - 5)%nat with (length data) by lia.
  replace (length data + 5 - 4)%nat with (S (length data)) by lia. cbn [skipn firstn]. rewrite ?drop_0.
  rewrite take_app_length, drop_app_length, Ed. cbn [mbind result_bind].
  rewrite check_true by by apply bool_decide_eq_true.
  unfold convert_from_bin. destruct (complete (c := key_codec) key Hp) as (bs & Ebs & Hr).
  rewrite Eb in Ebs. injection Ebs as <-. specialize (Hr []). rewrite app_nil_r in Hr. by rewrite Hr.
Qed.
End key.

Lemma starts_app text s : starts text (lit text ++ s) = true.
Proof.
  unfold starts. apply bool_decide_eq_true. replace (String.length text) with (length (lit text)).
  - apply take_app_length.
  - induction text as [|c text IH]; [done|]. cbn. by f_equal.
Qed.
Lemma after_app text s : after text (lit text ++ s) = s.
Proof.
  unfold after. replace (String.length text) with (length (lit text)); [apply drop_app_length|].
  induction text as [|c text IH]; [done|]. cbn. by f_equal.
Qed.

Definition private_key_ok (k : private_key) : Prop :=
  match k with pvt_k1 d | pvt_r1 d => length d = 32%nat end.
#[export] Instance private_key_complete : Complete private_key_codec private_key_ok.
Proof. apply variant_complete; [alternatives | done | intros [] ?; some_alternative]. Qed.
Definition signature_ok (s : signature) : Prop :=
  match s with
  | sig_k1 d | sig_r1 d => length d = 65%nat
  | sig_webauthn (c, (a, j)) => length c = 65%nat /\ len_ok a /\ len_ok (bytes_of_string j)
  end.
#[export] Instance signature_complete : Complete signature_codec signature_ok.
Proof.
  apply variant_complete; [|done|intros [] ?; some_alternative].
  repeat (apply Forall_cons; split); [| | |constructor].
  - eapply alt_of_complete; [typeclasses eauto | by intros [] ? [=]; subst | by intros [] ? ? [=]; subst].
  - eapply alt_of_complete; [typeclasses eauto | by intros [] ? [=]; subst | by intros [] ? ? [=]; subst].
  - eapply alt_of_complete; [unfold webauthn_signature_codec; typeclasses eauto | by intros [] ? [=]; subst |].
    intros [| |[c [a j]]] x Hs [=]; subst. exact Hs.
Qed.

(** The bytes of the keys and signatures. *)
Definition public_key_bytes (k : public_key) : Prop :=
  key_ok k /\ bytes (key_data k) /\ Z.of_nat (length (key_data k)) < 2 ^ 30.
Definition private_key_bytes (k : private_key) : Prop :=
  private_key_ok k /\ match k with pvt_k1 d | pvt_r1 d => bytes d end.
Definition signature_bytes (s : signature) : Prop :=
  signature_ok s /\
  match s with
  | sig_k1 d | sig_r1 d => bytes d
  | sig_webauthn (c, (a, j)) => bytes c /\ bytes a /\ Z.of_nat (length a + String.length j) < 2 ^ 30
  end.

Lemma varuint_bytes_bytes fuel v : bytes (varuint_bytes fuel v).
Proof.
  revert v. induction fuel as [|fuel IH]; intros v; cbn [varuint_bytes]; [constructor|].
  pose proof (land7_bounds v) as Hb.
  destruct (0 <? Z.shiftr v 7); apply Forall_cons; (split; [|first [apply IH | constructor]]).
  - rewrite Z.lor_comm. change 0x80 with (Z.shiftl 1 7). rewrite lor_shiftl by lia. lia.
  - lia.
Qed.
Lemma bytes_of_string_bytes str : bytes (bytes_of_string str).
Proof.
  unfold bytes_of_string, bytes. apply Forall_fmap, Forall_true. intros c. cbn.
  pose proof (N_ascii_bounded c). lia.
Qed.

(** What is written of bytes of their own length. *)
Lemma bytes_written l : bytes l -> Z.of_nat (length l) < 2 ^ 30 ->
  exists bs, to_bin bytes_codec l = Ok bs /\ bytes bs /\ (length bs <= length l + 5)%nat.
Proof.
  intros Hb Hl. cbn [bytes_codec to_bin]. rewrite varuint32_total by lia. cbn [mbind result_bind].
  eexists. split; [reflexivity|]. split; [apply Forall_app; split; [apply varuint_bytes_bytes|done]|].
  rewrite length_app. pose proof (varuint_bytes_length 5 (Z.of_nat (length l))). lia.
Qed.

Lemma public_key_written k : public_key_bytes k -> key_bytes public_key_codec k (index k).
Proof.
  destruct k as [d|d|d]; intros (Hk & Hb & Hl); cbn in Hk, Hb, Hl.
  1,2: exists d; repeat split; [cbn; by rewrite firstn_all2 by lia | done | by intros -> | lia].
  destruct Hk as [Hn Hr]. destruct (bytes_written (drop 34 d)) as (bs & Ebs & Hbs & Hlb).
  { by apply Forall_drop. }
  { rewrite length_drop. lia. }
  exists (take 34 d ++ bs). split; [|split; [|split]].
  - unfold public_key_codec, variant_codec. cbn [to_bin variant_to_bin get fields_codec webauthn_codec].
    by rewrite Ebs.
  - apply Forall_app. split; [by apply Forall_take|done].
  - destruct d; [cbn in Hn; lia|done].
  - rewrite length_app, length_take. rewrite length_drop in Hlb. lia.
Qed.
Lemma private_key_written k : private_key_bytes k ->
  key_bytes private_key_codec k (match k with pvt_k1 _ => k1 | pvt_r1 _ => r1 end).
Proof.
  destruct k as [d|d]; intros [Hl Hb]; cbn in Hl; exists d; repeat split;
    solve [cbn; by rewrite firstn_all2 by lia | done | by intros -> | lia].
Qed.
Lemma signature_written s : signature_bytes s ->
  key_bytes signature_codec s (match s with sig_k1 _ => k1 | sig_r1 _ => r1 | sig_webauthn _ => wa end).
Proof.
  destruct s as [d|d|[c [a j]]]; intros [Hl Hb].
  1,2: cbn in Hl; exists d; repeat split; solve [cbn; by rewrite firstn_all2 by lia | done | by intros -> | lia].
  destruct Hb as (Hc & Ha & Hj). destruct Hl as (Hlc & _ & _).
  assert (length (bytes_of_string j) = String.length j) as Ej.
  { unfold bytes_of_string. rewrite length_fmap. clear. induction j; cbn; [done|]. by f_equal. }
  destruct (bytes_written a Ha) as (ba & Eba & Hba & Hla); [lia|].
  destruct (bytes_written (bytes_of_string j) (bytes_of_string_bytes j)) as (bj & Ebj & Hbj & Hlj); [lia|].
  exists (c ++ ba ++ bj). split; [|split; [|split]].
  - unfold signature_codec, variant_codec.
    cbn [to_bin variant_to_bin get fields_codec webauthn_signature_codec pair_codec fst snd string_codec array_codec].
    rewrite Eba. cbn [mbind result_bind]. rewrite Ebj. cbn [mbind result_bind]. by rewrite firstn_all2 by lia.
  - by repeat (apply Forall_app; split).
  - destruct c; [cbn in Hlc; lia|done].
  - rewrite !length_app. lia.
Qed.

(** A text that starts with a prefix is given to the conversion of that prefix. *)
Ltac read_text c P suffix prefix Hok Hw from :=
  let t := fresh "t" in let Et := fresh "Et" in let Er := fresh "Er" in
  destruct (key_roundtrip c P _ _ (lit suffix) (lit prefix) Hok Hw) as (t & Et & Er); [cbn; lia|];
  eexists; split; [exact Et|]; unfold from;
  repeat match goal with |- context [starts ?a (?p ++ t)] =>
    first [change (starts a (p ++ t)) with false | change (starts a (p ++ t)) with true]
  end;
  rewrite ?after_app; exact Er.

(** C32: every key and signature is read back from its text: public and private
    keys of both curves, the WebAuthn ones with their relying party, and
    signatures. *)
Theorem key_text_roundtrip :
  (forall k, public_key_bytes k -> exists s, public_key_to_string k = Ok s /\ public_key_from_string s = Ok k) /\
  (forall k, private_key_bytes k -> exists s, private_key_to_string k = Ok s /\ private_key_from_string s = Ok k) /\
  (forall g, signature_bytes g -> exists s, signature_to_string g = Ok s /\ signature_from_string s = Ok g).
Proof.
  split; [|split].
  - intros k Hk. pose proof (public_key_written k Hk) as Hw. destruct Hk as [Hok _]. destruct k.
    + read_text public_key_codec key_ok "K1" "PUB_K1_" Hok Hw public_key_from_string.
    + read_text public_key_codec key_ok "R1" "PUB_R1_" Hok Hw public_key_from_string.
    + read_text public_key_codec key_ok "WA" "PUB_WA_" Hok Hw public_key_from_string.
  - intros k Hk. pose proof (private_key_written k Hk) as Hw. destruct Hk as [Hok _]. destruct k.
    + read_text private_key_codec private_key_ok "K1" "PVT_K1_" Hok Hw private_key_from_string.
    + read_text private_key_codec private_key_ok "R1" "PVT_R1_" Hok Hw private_key_from_string.
  - intros g Hg. pose proof (signature_written g Hg) as Hw. destruct Hg as [Hok _]. destruct g.
    + read_text signature_codec signature_ok "K1" "SIG_K1_" Hok Hw signature_from_string.
    + read_text signature_codec signature_ok "R1" "SIG_R1_" Hok Hw signature_from_string.
    + read_text signature_codec signature_ok "WA" "SIG_WA_" Hok Hw signature_from_string.
Qed.
Lemma key_text_roundtrip_witness :
  (exists s, public_key_to_string (key_webauthn (replicate 34 1 ++ [97; 98])) = Ok s /\
     public_key_from_string s = Ok (key_webauthn (replicate 34 1 ++ [97; 98]))) /\
  (exists s, private_key_to_string (pvt_r1 (replicate 32 7)) = Ok s /\
     private_key_from_string s = Ok (pvt_r1 (replicate 32 7))) /\
  (exists s, signature_to_string (sig_k1 (replicate 65 9)) = Ok s /\
     signature_from_string s = Ok (sig_k1 (replicate 65 9))).
Proof.
  split; [|split].
  - apply (proj1 key_text_roundtrip). split; [|split; [|by vm_compute]].
    + split; [by apply leb_complete|by vm_compute].
    + apply Forall_app; split; [apply Forall_replicate; lia|repeat constructor; lia].
  - apply (proj1 (proj2 key_text_roundtrip)). split; [done|]. apply (Forall_replicate _ 32); lia.
  - apply (proj2 (proj2 key_text_roundtrip)). split; [done|]. apply (Forall_replicate _ 65); lia.
Defined.

End KeyText.
