(* ===== verification/Json.v ===== *)
(** Values as JSON ([libraries/abieos/include/eosio/to_json.hpp]): strings,
    booleans, integers and hexadecimal.  Whether bytes are UTF-8 is asked of a
    library outside the repository, which is a parameter here.  The texts are
    JSON by a grammar of their own. *)
From S2P Require Import Prelude Name Text.
From Stdlib Require Import Ascii.
From Stdlib Require String.
Import Text.
Open Scope string_scope.
Open Scope list_scope.
Open Scope Z_scope.

Module Json.

Definition chr (n : Z) : ascii := ascii_of_N (Z.to_N n).
Definition quote : ascii := chr 34.
Definition backslash : ascii := chr 92.

(** ** Strings *)

(** [*pos != quote && *pos != backslash && (unsigned char)*pos >= 32 && *pos != 127] *)
Definition plain (c : ascii) : bool :=
  negb (Ascii.eqb c quote) && negb (Ascii.eqb c backslash) && (32 <=? Name.code c) && negb (Name.code c =? 127).

Section utf8.
(** [rapidjson::UTF8<>::Validate] on four bytes: how many a valid character
    at their front has taken, if there is one. *)
Context (utf8 : list ascii -> option nat).

(** [stream_adaptor]: at most four bytes, filled up with zeros. *)
Definition stream_adaptor (src : list ascii) : list ascii :=
  let buf := take 4 src in buf ++ replicate (4 - length buf) Ascii.zero.

(** The loop over the characters between two that are escaped; it takes as
    many rounds as there are bytes, at most. *)
Fixpoint valid_loop (fuel : nat) (seg : list ascii) : list ascii :=
  match fuel, seg with
  | O, _ | _, [] => []
  | S fuel, c :: rest =>
      match utf8 (stream_adaptor seg) with
      | Some idx => take idx seg ++ valid_loop fuel (drop idx seg)
      | None => "?"%char :: valid_loop fuel rest
      end
  end.
Definition escape (c : ascii) : list ascii :=
  if Ascii.eqb c quote then [backslash; quote]
  else if Ascii.eqb c backslash then [backslash; backslash]
  else if Name.code c =? 8 then [backslash; "b"%char]
  else if Name.code c =? 12 then [backslash; "f"%char]
  else if Name.code c =? 10 then [backslash; "n"%char]
  else if Name.code c =? 13 then [backslash; "r"%char]
  else if Name.code c =? 9 then [backslash; "t"%char]
  else backslash :: chars_of "u00" ++ [hex_digit (Z.shiftr (Name.code c) 4); hex_digit (Z.land (Name.code c) 15)].
(** The outer loop: a stretch of plain characters, then one to escape. *)
Fixpoint string_loop (fuel : nat) (s : list ascii) : list ascii :=
  match fuel with
  | O => []
  | S fuel =>
      let seg := take_while plain s in
      valid_loop (length seg) seg ++
      match drop (length seg) s with
      | c :: rest => escape c ++ string_loop fuel rest
      | [] => []
      end
  end.
(** [to_json(std::string_view)] *)
Definition string_to_json (s : list ascii) : list ascii :=
  quote :: string_loop (S (length s)) s ++ [quote].
End utf8.

(** ** Other values *)

Definition bool_to_json (b : bool) : list ascii := if b then chars_of "true" else chars_of "false".

(** [int_to_json]: a number of [size] bytes; from eight bytes on it is quoted.
    The digits are written from the last and reversed. *)
Definition int_to_json (size : Z) (value : Z) : list ascii :=
  let w := 8 * size in
  let uvalue := wrap w value in
  let neg := value <? 0 in
  let uvalue := if neg then wrap w (- uvalue) else uvalue in
  let q := if 4 <? size then [quote] else [] in
  reverse (q ++ decimal_digits 39 uvalue ++ (if neg then ["-"%char] else []) ++ q).

(** [to_json_hex] *)
Definition hex_to_json (bs : list Z) : list ascii := quote :: hex_bytes bs ++ [quote].

(** ** A grammar of JSON *)

Definition hexadecimal (c : ascii) : Prop := is_digit c = true \/ Name.in_range "A" "F" c = true.
Inductive string_body : list ascii -> Prop :=
  | sb_nil : string_body []
  | sb_plain c s : c <> quote -> c <> backslash -> 32 <= Name.code c -> string_body s -> string_body (c :: s)
  | sb_escape c s : c ∈ [quote; backslash; "/"; "b"; "f"; "n"; "r"; "t"]%char -> string_body s ->
      string_body (backslash :: c :: s)
  | sb_unicode a b c d s : Forall hexadecimal [a; b; c; d] -> string_body s ->
      string_body (backslash :: "u"%char :: a :: b :: c :: d :: s).

Definition join (l : list (list ascii)) : list ascii :=
  match l with [] => [] | x :: l => x ++ flat_map (fun y => ","%char :: y) l end.

Inductive json : list ascii -> Prop :=
  | json_null : json (chars_of "null")
  | json_bool b : json (bool_to_json b)
  | json_number (neg : bool) ds : ds <> [] -> Forall (fun c => is_digit c = true) ds ->
      (head ds = Some "0"%char -> ds = ["0"%char]) -> json ((if neg then ["-"%char] else []) ++ ds)
  | json_string s : string_body s -> json (quote :: s ++ [quote])
  | json_array l : Forall json l -> json ("["%char :: join l ++ ["]"%char])
  | json_object l : Forall (fun m => string_body m.1.1 /\ json m.2) l ->
      json ("{"%char :: join ((fun m => quote :: m.1.1 ++ [quote; ":"%char] ++ replicate m.1.2 " "%char ++ m.2) <$> l)
              ++ ["}"%char]).

(** ** What is written is JSON *)

Lemma string_body_app a b : string_body a -> string_body b -> string_body (a ++ b).
Proof. induction 1; intros; cbn; [done|apply sb_plain|apply sb_escape|apply sb_unicode]; auto. Qed.

Lemma string_body_plain s : Forall (fun c => plain c = true) s -> string_body s.
Proof.
  induction 1 as [|c s Hc _ IH]; [constructor|]. unfold plain in Hc.
  rewrite !andb_true_iff, !negb_true_iff, Z.leb_le in Hc. destruct Hc as [[[H1 H2] H3] _].
  apply Ascii.eqb_neq in H1, H2. by apply sb_plain.
Qed.

Lemma hex_digit_hexadecimal d : 0 <= d < 16 -> hexadecimal (hex_digit d).
Proof.
  intros Hd. assert (forall n, (n < 16)%nat -> hexadecimal (hex_digit (Z.of_nat n))) as H.
  { intros n Hn. do 10 (destruct n as [|n]; [left; reflexivity|]). do 6 (destruct n as [|n]; [right; reflexivity|]). lia. }
  rewrite <- (Z2Nat.id d) by lia. apply H. lia.
Qed.

Lemma code_bounds c : 0 <= Name.code c < 256.
Proof. unfold Name.code. pose proof (N_ascii_bounded c). lia. Qed.

Lemma escape_body c : string_body (escape c).
Proof.
  pose proof (code_bounds c) as Hc. unfold escape.
  repeat match goal with |- context [if ?b then _ else _] => destruct b end.
  1-7: apply sb_escape; [apply (bool_decide_unpack _); reflexivity|constructor].
  apply sb_unicode; [|constructor]. rewrite Z.shiftr_div_pow2 by lia. change 15 with (Z.ones 4). rewrite Z.land_ones by lia.
  repeat (apply Forall_cons; split); [by left|by left| | |constructor]; apply hex_digit_hexadecimal.
  - split; [apply Z.div_pos; lia|apply Z.div_lt_upper_bound; lia].
  - by apply Z.mod_pos_bound.
Qed.

Section utf8.
Context (utf8 : list ascii -> option nat).

Lemma valid_loop_body fuel seg : Forall (fun c => plain c = true) seg -> string_body (valid_loop utf8 fuel seg).
Proof.
  revert seg. induction fuel as [|fuel IH]; intros [|c seg] Hs; try constructor. cbn [valid_loop].
  destruct (utf8 _) as [idx|].
  - apply string_body_app; [apply string_body_plain; by apply Forall_take | apply IH; by apply Forall_drop].
  - apply Forall_cons in Hs as [_ Hs]. apply sb_plain; [done|done|by vm_compute|by apply IH].
Qed.
Lemma string_loop_body fuel s : string_body (string_loop utf8 fuel s).
Proof.
  revert s. induction fuel as [|fuel IH]; intros s; cbn [string_loop]; [constructor|].
  apply string_body_app; [apply valid_loop_body, take_while_Forall|].
  destruct (drop _ s) as [|c rest]; [constructor|]. apply string_body_app; [apply escape_body|apply IH].
Qed.
Lemma string_is_json s : json (string_to_json utf8 s).
Proof. apply json_string, string_loop_body. Qed.
End utf8.

Lemma hexadecimal_plain c s : hexadecimal c -> string_body s -> string_body (c :: s).
Proof.
  intros Hc Hs. apply sb_plain; [| | |done].
  1,2: by destruct Hc as [H|H]; intros ->.
  destruct Hc as [H|H]; apply andb_true_iff in H as [H _]; apply Z.leb_le in H.
  - change (Name.code (Name.chr "0")) with 48 in H. lia.
  - change (Name.code (Name.chr "A")) with 65 in H. lia.
Qed.
Lemma hex_is_json bs : Forall (fun b => 0 <= b < 256) bs -> json (hex_to_json bs).
Proof.
  intros Hb. apply json_string. induction Hb as [|b bs Hb _ IH]; [constructor|].
  unfold hex_bytes. cbn [flat_map app]. apply hexadecimal_plain; [|apply hexadecimal_plain; [|exact IH]];
    apply hex_digit_hexadecimal.
  - rewrite Z.shiftr_div_pow2 by lia. split; [apply Z.div_pos; lia|apply Z.div_lt_upper_bound; lia].
  - change 15 with (Z.ones 4). rewrite Z.land_ones by lia. by apply Z.mod_pos_bound.
Qed.

Lemma digit_plain c : is_digit c = true -> plain c = true.
Proof.
  intros Hc%is_digit_spec. unfold plain. rewrite !andb_true_iff, !negb_true_iff.
  repeat split; [| |apply Z.leb_le; lia|apply Z.eqb_neq; lia]; apply Ascii.eqb_neq; intros ->.
  - change (Name.code quote) with 34 in Hc. lia.
  - change (Name.code backslash) with 92 in Hc. lia.
Qed.
Lemma bool_is_json b : json (bool_to_json b).
Proof. constructor. Qed.

(** The digits of a number, the last first: no zero at the front of others. *)
Lemma decimal_digits_are_digits n v : 0 <= v -> Forall (fun c => is_digit c = true) (decimal_digits n v).
Proof.
  revert v. induction n as [|n IH]; intros v Hv; cbn [decimal_digits]; [constructor|].
  apply Forall_cons. split; [apply digit_is_digit; by apply Z.mod_pos_bound|].
  destruct (0 <? v / 10); [apply IH; by apply Z.div_pos|constructor].
Qed.
Lemma decimal_digits_front n v : 0 < v < 10 ^ Z.of_nat (S n) -> last (decimal_digits (S n) v) <> Some "0"%char.
Proof.
  revert v. induction n as [|n IH]; intros v Hv.
  - change (10 ^ Z.of_nat 1) with 10 in Hv. cbn [decimal_digits].
    rewrite Z.mod_small, Z.div_small by lia. cbn. intros [= E].
    pose proof (digit_value_digit v). rewrite E in *. change (digit_value "0") with 0 in *. lia.
  - rewrite Nat2Z.inj_succ, Z.pow_succ_r in Hv by lia. remember (S n) as m. cbn [decimal_digits].
    destruct (Z.ltb_spec 0 (v / 10)) as [Hp|Hp].
    + subst m. assert (last (decimal_digits (S n) (v / 10)) <> Some "0"%char) as Hl.
      { apply IH. split; [lia|]. apply Z.div_lt_upper_bound; lia. }
      cbn [decimal_digits] in *. exact Hl.
    + assert (v < 10) by (pose proof (Z.div_mod v 10); pose proof (Z.mod_pos_bound v 10); lia).
      rewrite Z.mod_small by lia. cbn. intros [= E].
      pose proof (digit_value_digit v). rewrite E in *. change (digit_value "0") with 0 in *. lia.
Qed.

Lemma number_is_json (neg : bool) v : 0 <= v < 10 ^ 39 ->
  json (reverse (decimal_digits 39 v ++ (if neg then ["-"%char] else []))).
Proof.
  intros Hv. rewrite reverse_app. replace (reverse (if neg then _ else _)) with (if neg then ["-"%char] else []) by by destruct neg.
  apply json_number.
  - cbn [decimal_digits]. rewrite reverse_cons. by destruct (reverse _).
  - apply Forall_reverse, decimal_digits_are_digits. lia.
  - intros Hh. destruct (Z.eq_dec v 0) as [->|Hz]; [done|]. exfalso.
    apply (decimal_digits_front 38 v); [change (Z.of_nat 39) with 39; lia|].
    rewrite <- head_reverse. exact Hh.
Qed.
Lemma int_is_json size v : 0 < size <= 16 -> json (int_to_json size v).
Proof.
  intros Hs. unfold int_to_json. assert (exists u, 0 <= u < 10 ^ 39 /\
    (if v <? 0 then wrap (8 * size) (- wrap (8 * size) v) else wrap (8 * size) v) = u) as (u & Hu & ->).
  { eexists. split; [|reflexivity]. assert (2 ^ (8 * size) <= 10 ^ 39).
    { transitivity (2 ^ 128); [apply Z.pow_le_mono_r; lia|]. by vm_compute. }
    destruct (v <? 0); match goal with |- 0 <= wrap ?w ?x < _ => pose proof (wrap_bounds w x ltac:(lia)) end; lia. }
  destruct (4 <? size); [|rewrite app_nil_r; by apply number_is_json].
  rewrite (app_assoc (decimal_digits 39 u)). cbn [app].
  rewrite reverse_cons, reverse_snoc. apply json_string. apply string_body_plain, Forall_reverse, Forall_app. split.
  - eapply Forall_impl; [apply decimal_digits_are_digits; lia|]. intros c Hc. by apply digit_plain.
  - by destruct (v <? 0); repeat constructor.
Qed.

Lemma join_app_one l x : join (l ++ [x]) = match l with [] => x | _ => join l ++ ","%char :: x end.
Proof.
  destruct l as [|y l]; [apply app_nil_r|]. cbn. rewrite flat_map_app. cbn. by rewrite app_nil_r, <- app_assoc.
Qed.

End Json.
