(* ===== verification/GraphQL.v ===== *)
(** Queries to the history node
    ([libraries/clchain/include/clchain/graphql.hpp]): the tokens of a query
    ([gql_stream]), the arguments of methods, and the evaluation of selection
    sets on objects, which writes JSON.

    The objects of a program are a parameter: a type with the members that its
    reflection lists, fields and methods, whose values may be objects again.
    A call that returns [false] has left a message ([Failed]); one that asserts
    or traps aborts; a loop that can go on for ever is run with fuel, and a
    model that runs out of it says so ([OutOfFuel]).  The output is written
    only when the query succeeds: [gql_query] clears it otherwise. *)
From S2P Require Import Prelude Name Text Json.
From Stdlib Require Import Ascii.
From Stdlib Require String.
Import Text Json.
Open Scope string_scope.
Open Scope list_scope.
Open Scope Z_scope.

Module GraphQL.

Abbreviation lit := chars_of (only parsing).

(** ** Tokens *)

Inductive token_type : Type :=
  | tt_unstarted | tt_eof | tt_error | tt_punctuator | tt_name | tt_string | tt_integer | tt_floating.
#[global] Instance token_type_eq_dec : EqDecision token_type.
Proof. solve_decision. Defined.

Record gql_stream : Type := mk_stream {
  input : list ascii;
  current_type : token_type;
  current_value : list ascii;
  current_puncuator : ascii
}.

(** [std::isalpha] and [std::isalnum] of the C locale. *)
Definition isalpha (c : ascii) : bool := Name.in_range "a" "z" c || Name.in_range "A" "Z" c.
Definition isalnum (c : ascii) : bool := isalpha c || is_digit c.
Definition name_char (c : ascii) : bool := Ascii.eqb c "_" || isalnum c.
Definition newline (c : ascii) : bool := (Name.code c =? 10) || (Name.code c =? 13).
Definition white (c : ascii) : bool :=
  newline c || Ascii.eqb c " " || (Name.code c =? 9) || Ascii.eqb c ",".
Definition is_punctuator (c : ascii) : bool := bool_decide (c ∈ lit "$!&():=@[]{|}").

(** What the loop of [skip] passes over: white space, commas, byte order marks
    and comments. *)
Fixpoint ignored (comment : bool) (s : list ascii) : list ascii :=
  match s with
  | [] => []
  | c :: s' =>
      if comment then ignored (negb (newline c)) s'
      else if white c then ignored false s'
      else if Ascii.eqb c "#" then ignored true s'
      else
        match s' with
        | c1 :: c2 :: s'' =>
            if (Name.code c =? 0xEF) && (Name.code c1 =? 0xBB) && (Name.code c2 =? 0xBF) then ignored false s'' else s
        | _ => s
        end
  end.

(** The end of a string, after its closing quote, if it has one. *)
Fixpoint string_end (s : list ascii) : option (list ascii) :=
  match s with
  | [] => None
  | c :: s' =>
      if Ascii.eqb c quote then Some s'
      else if Ascii.eqb c backslash then match s' with [] => None | _ :: s'' => string_end s'' end
      else string_end s'
  end.

Definition starts_with (p : ascii -> bool) (s : list ascii) : bool :=
  match s with c :: _ => p c | [] => false end.
Definition name_end (s : list ascii) : list ascii := drop (length (take_while name_char s)) s.

(** The parts of a number, each with the type so far; an error ends it. *)
Definition integer_part (s : list ascii) : token_type * list ascii :=
  let '(minus, s) := optional_char "-" s in
  if minus && negb (starts_with is_digit s) then (tt_error, s)
  else
    let '(zero, s') := optional_char "0" s in
    (tt_integer, if zero : bool then s' else drop_digits s).
Definition fraction_part (ty : token_type) (s : list ascii) : token_type * list ascii :=
  match s with
  | c :: s' =>
      if Ascii.eqb c "." then
        if starts_with is_digit s' then (tt_floating, drop_digits s') else (tt_error, s')
      else (ty, s)
  | [] => (ty, s)
  end.
Definition exponent_part (ty : token_type) (s : list ascii) : token_type * list ascii :=
  match s with
  | c :: s' =>
      if Ascii.eqb c "e" || Ascii.eqb c "E" then
        let '(_, s') := optional_char "-" s' in
        if starts_with is_digit s' then (tt_floating, drop_digits s') else (tt_error, s')
      else (ty, s)
  | [] => (ty, s)
  end.
Definition number (s : list ascii) : token_type * list ascii :=
  let '(ty, s) := integer_part s in
  if decide (ty = tt_error) then (ty, s)
  else
    let '(ty, s) := fraction_part ty s in
    if decide (ty = tt_error) then (ty, s)
    else
      let '(ty, s) := exponent_part ty s in
      if decide (ty = tt_error) then (ty, s)
      else if starts_with name_char s then (tt_error, s) else (ty, s).

(** What a token from [s] to [rest] consists of. *)
Definition between (s rest : list ascii) : list ascii := take (length s - length rest) s.

(** The token at the front of [s], which is not ignored.  A string that does
    not end leaves the type that was there. *)
Definition token (before : token_type) (s : list ascii) : gql_stream :=
  match s with
  | [] => mk_stream [] tt_eof [] Ascii.zero
  | c :: s' =>
      if is_punctuator c then mk_stream s' tt_punctuator [c] c
      else if Ascii.eqb c "." && bool_decide (take 2 s' = lit "..") then
        mk_stream (drop 2 s') tt_punctuator (take 3 s) c
      else if Ascii.eqb c quote then
        if bool_decide (take 2 s' = [quote; quote]) then mk_stream s tt_error [] Ascii.zero
        else
          match string_end s' with
          | None => mk_stream [] before [] Ascii.zero
          | Some rest => mk_stream rest tt_string (take (length s' - length rest - 1) s') Ascii.zero
          end
      else if Ascii.eqb c "_" || isalpha c then
        let rest := name_end s in mk_stream rest tt_name (between s rest) Ascii.zero
      else if Ascii.eqb c "-" || is_digit c then
        let '(ty, rest) := number s in
        mk_stream rest ty (if decide (ty = tt_error) then [] else between s rest) Ascii.zero
      else mk_stream s tt_error [] Ascii.zero
  end.

Definition skip (st : gql_stream) : gql_stream :=
  if decide (current_type st = tt_error) then st
  else token (current_type st) (ignored false (input st)).
(** The constructor *)
Definition stream_of (query : list ascii) : gql_stream :=
  skip (mk_stream query tt_unstarted [] Ascii.zero).

Definition is_punct (st : gql_stream) (c : ascii) : bool := Ascii.eqb (current_puncuator st) c.
Definition is_name (st : gql_stream) : bool := bool_decide (current_type st = tt_name).
Definition is_value (st : gql_stream) (text : string) : bool := bool_decide (current_value st = lit text).

(** ** Outcomes *)

Inductive outcome (A : Type) : Type :=
  | Done (a : A)
  | Failed (message : list ascii)
  | Aborted (e : error)
  | OutOfFuel.
Arguments Done {A} a.
Arguments Failed {A} message.
Arguments Aborted {A} e.
Arguments OutOfFuel {A}.

#[global] Instance outcome_ret : MRet outcome := fun A a => Done a.
#[global] Instance outcome_bind : MBind outcome := fun A B f r =>
  match r with Done a => f a | Failed m => Failed m | Aborted e => Aborted e | OutOfFuel => OutOfFuel end.
(** [return error(message)] *)
Definition fail {A} (message : string) : outcome A := Failed (lit message).
Definition run {A} (r : result A) : outcome A :=
  match r with Ok a => Done a | Err e => Aborted e end.

(** ** Skipping a selection set *)

(** The loop after an opening brace. *)
Fixpoint skip_loop (fuel : nat) (st : gql_stream) : outcome gql_stream :=
  match fuel with
  | O => OutOfFuel
  | S fuel =>
      if decide (current_type st = tt_eof) then fail "expected }"
      else if is_punct st "{" then st ← skip_loop fuel (skip st); skip_loop fuel st
      else if is_punct st "}" then Done (skip st)
      else skip_loop fuel (skip st)
  end.
(** Every token but the last has a byte at least, so the bytes left bound the
    rounds of a loop that takes a token in each. *)
Definition fuel_of (st : gql_stream) : nat := S (S (length (input st))).
Definition gql_skip_selection_set (st : gql_stream) : outcome gql_stream :=
  if negb (is_punct st "{") then Done st
  else let st := skip st in skip_loop (fuel_of st) st.

(** ** Arguments *)

(** The values of arguments: a name or a time is its number. *)
Inductive arg : Type := a_string (s : list ascii) | a_bool (b : bool) | a_int (z : Z).
(** Their types: [std::string], [bool], the integers between two bounds, and
    the types that are read from a string. *)
Inductive arg_type : Type :=
  | at_string | at_bool | at_int (lo hi : Z) | at_text (conv : list ascii -> result Z).
Record param : Type := mk_param { p_name : list ascii; p_optional : bool; p_type : arg_type }.

(** [std::from_chars] in base ten: a minus for a signed type, then digits;
    [result_out_of_range] when they do not fit. *)
Inductive chars_result : Type := fc_ok (v : Z) (rest : list ascii) | fc_invalid | fc_out_of_range.
Definition from_chars (lo hi : Z) (s : list ascii) : chars_result :=
  let '(neg, s) := if lo <? 0 then optional_char "-" s else (false, s) in
  let ds := take_while is_digit s in
  if Nat.eqb (length ds) 0 then fc_invalid
  else
    let v := foldl (fun v c => v * 10 + digit_value c) 0 ds in
    let v := if neg : bool then - v else v in
    if (lo <=? v) && (v <=? hi) then fc_ok v (drop (length ds) s) else fc_out_of_range.

Definition gql_parse_arg (t : arg_type) (st : gql_stream) : outcome (arg * gql_stream) :=
  match t with
  | at_string =>
      if decide (current_type st = tt_string) then Done (a_string (current_value st), skip st)
      else fail "expected String"
  | at_bool =>
      if is_name st && is_value st "true" then Done (a_bool true, skip st)
      else if is_name st && is_value st "false" then Done (a_bool false, skip st)
      else fail "expected Boolean"
  | at_int lo hi =>
      if decide (current_type st ∈ [tt_integer; tt_floating; tt_string]) then
        match from_chars lo hi (current_value st) with
        | fc_ok v [] => Done (a_int v, skip st)
        | fc_out_of_range => fail "number is out of range"
        | _ => fail "expected number or stringified number"
        end
      else fail "expected number or stringified number"
  | at_text conv =>
      if decide (current_type st = tt_string) then v ← run (conv (current_value st)); Done (a_int v, skip st)
      else fail "expected String"
  end.

(** The arguments of a call so far, and which of them are filled. *)
Record call : Type := mk_call { call_args : list (option arg); filled : list bool }.

(** [gql_parse_args<i>]: one argument, if it is one of the parameters from the
    [i]th on. *)
Fixpoint gql_parse_args (i : nat) (params : list param) (c : call) (st : gql_stream)
    : outcome (call * bool * gql_stream) :=
  match params with
  | [] => Done (c, false, st)
  | p :: params =>
      if decide (current_value st <> p_name p) then gql_parse_args (S i) params c st
      else
        let st := skip st in
        if negb (is_punct st ":") then fail "expected :"
        else if default false (filled c !! i) then fail "duplicate arg"
        else
          let st := skip st in
          '(a, st) ←
            (if p_optional p && (is_name st && is_value st "null") then Done (None, skip st)
             else '(a, st) ← gql_parse_arg (p_type p) st; Done (Some a, st));
          Done (mk_call (<[i := a]> (call_args c)) (<[i := true]> (filled c)), true, st)
  end.

(** The loop over the arguments between the parentheses. *)
Fixpoint args_loop (fuel : nat) (params : list param) (c : call) (st : gql_stream) : outcome (call * gql_stream) :=
  match fuel with
  | O => OutOfFuel
  | S fuel =>
      if is_name st then
        '(c, found, st) ← gql_parse_args 0 params c st;
        if found : bool then args_loop fuel params c st
        else Failed (lit "unknown arg '" ++ current_value st ++ lit "'")
      else Done (c, st)
  end.

(** The parameters an optional type fills, and the first that is not filled. *)
Definition gql_mark_optional (params : list param) (filled : list bool) : list bool :=
  zip_with (fun p b => p_optional p || b) params filled.
Fixpoint first_missing (params : list param) (filled : list bool) : option (list ascii) :=
  match params, filled with
  | p :: params, b :: filled => if b : bool then first_missing params filled else Some (p_name p)
  | _, _ => None
  end.

(** From the name of a method to its arguments. *)
Definition method_args (params : list param) (st : gql_stream)
    : outcome (list (option arg) * gql_stream) :=
  let c := mk_call ((fun _ => None) <$> params) ((fun _ => false) <$> params) in
  '(c, st) ←
    (if is_punct st "(" then
       let st := skip st in
       if is_punct st ")" then fail "empty arg list"
       else
         '(c, st) ← args_loop (fuel_of st) params c st;
         if negb (is_punct st ")") then fail "expected )" else Done (c, skip st)
     else Done (c, st));
  match first_missing params (gql_mark_optional params (filled c)) with
  | Some name => Failed (lit "function missing required arg '" ++ name ++ lit "'")
  | None => Done (call_args c, st)
  end.

(** ** Values and objects *)

(** What a member holds: something written as JSON at once, an optional or a
    pointer, a container, an object. *)
Inductive value (Obj : Type) : Type :=
  | v_json (text : list ascii)
  | v_null
  | v_some (v : value Obj)
  | v_list (l : list (value Obj))
  | v_object (o : Obj).
Arguments v_json {Obj} text.
Arguments v_null {Obj}.
Arguments v_some {Obj} v.
Arguments v_list {Obj} l.
Arguments v_object {Obj} o.

(** A data member, or a method with its parameters; what either gives may
    abort. *)
Inductive member (Obj : Type) : Type :=
  | m_field (v : result (value Obj))
  | m_method (params : list param) (f : list (option arg) -> result (value Obj)).
Arguments m_field {Obj} v.
Arguments m_method {Obj} params f.

Section query.
Context (utf8 : list ascii -> option nat) {Obj : Type}.
(** The members that the reflection of an object's class lists, in order. *)
Context (members : Obj -> list (list ascii * member Obj)).

Definition find_member (field_name : list ascii) (o : Obj) : option (member Obj) :=
  match list_find (fun m => m.1 = field_name) (members o) with Some (_, m) => Some m.2 | None => None end.

Section value.
(** How objects are evaluated. *)
Context (query_obj : Obj -> gql_stream -> outcome (list ascii * gql_stream)).

(** [gql_query] on a value.  Every element of a container reads a copy of the
    stream; the stream itself skips the selection set. *)
Fixpoint query_value (v : value Obj) (st : gql_stream) : outcome (list ascii * gql_stream) :=
  match v with
  | v_json text => Done (text, st)
  | v_null => st ← gql_skip_selection_set st; Done (lit "null", st)
  | v_some v => query_value v st
  | v_list l =>
      texts ← (fix elements (l : list (value Obj)) : outcome (list (list ascii)) :=
        match l with
        | [] => Done []
        | v :: l => '(text, _) ← query_value v st; texts ← elements l; Done (text :: texts)
        end) l;
      st ← gql_skip_selection_set st;
      Done ("["%char :: join texts ++ ["]"%char], st)
  | v_object o => query_obj o st
  end.

(** A member of a selection set: its name or its alias and its name. *)
Definition selection_name (st : gql_stream) : outcome (list ascii * list ascii * gql_stream) :=
  let alias := current_value st in
  let st := skip st in
  if is_punct st ":" then
    let st := skip st in
    if negb (is_name st) then fail "expected name after :"
    else Done (alias, current_value st, skip st)
  else Done (alias, alias, st).

(** The loop over the members of a selection set. *)
Fixpoint members_loop (fuel : nat) (o : Obj) (st : gql_stream) : outcome (list (list ascii) * gql_stream) :=
  match fuel with
  | O => OutOfFuel
  | S fuel =>
      if is_name st then
        '(alias, field_name, st) ← selection_name st;
        match find_member field_name o with
        | None => Failed (field_name ++ lit " not found")
        | Some m =>
            '(text, st) ←
              match m with
              | m_field v => v ← run v; query_value v st
              | m_method params f =>
                  '(args, st) ← method_args params st;
                  v ← run (f args); query_value v st
              end;
            '(texts, st) ← members_loop fuel o st;
            Done ((string_to_json utf8 alias ++ ":"%char :: text) :: texts, st)
        end
      else Done ([], st)
  end.
End value.

(** [gql_query] on an object.  Every nested object takes a brace, so the bytes
    left bound the nesting, as they bound the rounds of the loops. *)
Fixpoint query_object (fuel : nat) (o : Obj) (st : gql_stream) : outcome (list ascii * gql_stream) :=
  match fuel with
  | O => OutOfFuel
  | S n =>
      if negb (is_punct st "{") then fail "expected {"
      else
        let st := skip st in
        '(texts, st) ← members_loop (query_object n) (fuel_of st) o st;
        if negb (is_punct st "}") then fail "expected }"
        else Done ("{"%char :: join texts ++ ["}"%char], skip st)
  end.
Definition gql_query_value (v : value Obj) (st : gql_stream) : outcome (list ascii * gql_stream) :=
  query_value (query_object (fuel_of st)) v st.

Definition gql_query_root (root : value Obj) (st : gql_stream) : outcome (list ascii) :=
  st ←
    (if is_name st then
       if is_value st "query" then
         let st := skip st in
         let st := if is_name st then skip st else st in
         if is_punct st "(" then fail "variables not supported"
         else if is_punct st "@" then fail "directives not supported"
         else Done st
       else if is_value st "subscriptions" then fail "subscriptions not supported"
       else if is_value st "mutation" then fail "mutations not supported"
       else if is_value st "fragment" then fail "fragments not supported"
       else fail "expected query"
     else Done st);
  '(text, st) ← gql_query_value root st;
  if decide (current_type st = tt_eof) then Done text
  else if is_name st && is_value st "query" then fail "multiple queries not supported"
  else if is_name st && is_value st "fragment" then fail "fragments not supported"
  else if is_name st && is_value st "subscription" then fail "subscriptions not supported"
  else if is_name st && is_value st "mutation" then fail "mutations not supported"
  else fail "expected end of input".

(** The text a query is answered with. *)
Definition data_text (text : list ascii) : list ascii :=
  "{"%char :: quote :: lit "data" ++ quote :: lit ": " ++ text ++ ["}"%char].
Definition errors_text (message : list ascii) : list ascii :=
  "{"%char :: quote :: lit "errors" ++ quote :: lit ": {" ++
  (quote :: lit "message" ++ quote :: lit ": " ++ string_to_json utf8 message) ++ lit "}}".
Definition gql_query (root : value Obj) (query variables : list ascii) : outcome (list ascii) :=
  let st := stream_of query in
  if Nat.eqb (length variables) 0 then
    match gql_query_root root st with
    | Done text => Done (data_text text)
    | Failed message => Done (errors_text message)
    | Aborted e => Aborted e
    | OutOfFuel => OutOfFuel
    end
  else Done (errors_text (lit "variables not supported; argument must be empty")).
End query.
End GraphQL.
