(* ===== verification/GraphQLRun.v ===== *)
(** What queries do: they end unless a skipped selection set holds something
    that is not a token, they answer with JSON, and a selection set is skipped
    exactly where it would be evaluated. *)
From S2P Require Import Prelude Name Text Json GraphQL.
From Stdlib Require Import Ascii.
From Stdlib Require String.
Import Text Json GraphQL.
Open Scope string_scope.
Open Scope list_scope.
Open Scope Z_scope.

Module GraphQLRun.

(** ** Outcomes that are not out of fuel *)

(** The outcome is not [OutOfFuel], and what is done satisfies [P]. *)
Definition ends {A} (P : A -> Prop) (r : outcome A) : Prop :=
  match r with Done a => P a | OutOfFuel => False | _ => True end.
(** What is done satisfies [P]. *)
Definition yields {A} (P : A -> Prop) (r : outcome A) : Prop :=
  match r with Done a => P a | _ => True end.

Lemma ends_bind {A B} (P : A -> Prop) (Q : B -> Prop) r (f : A -> outcome B) :
  ends P r -> (forall a, P a -> ends Q (f a)) -> ends Q (r ≫= f).
Proof. destruct r; cbn; auto. Qed.
Lemma yields_bind {A B} (P : A -> Prop) (Q : B -> Prop) r (f : A -> outcome B) :
  yields P r -> (forall a, P a -> yields Q (f a)) -> yields Q (r ≫= f).
Proof. destruct r; cbn; auto. Qed.
Lemma ends_impl {A} (P Q : A -> Prop) r : ends P r -> (forall a, P a -> Q a) -> ends Q r.
Proof. destruct r; cbn; auto. Qed.
Lemma yields_impl {A} (P Q : A -> Prop) r : yields P r -> (forall a, P a -> Q a) -> yields Q r.
Proof. destruct r; cbn; auto. Qed.
Lemma yields_true {A} (r : outcome A) : yields (fun _ => True) r.
Proof. by destruct r. Qed.
Lemma bind_Done {A B} (r : outcome A) (f : A -> outcome B) b :
  r ≫= f = Done b -> exists a, r = Done a /\ f a = Done b.
Proof. destruct r; try discriminate. intros H. by eexists. Qed.

(** ** Tokens left *)

(** What bounds the tokens left. *)
Definition left_ (st : gql_stream) : nat :=
  if decide (current_type st = tt_eof) then 0%nat else S (length (input st)).
Lemma left_fuel st : (left_ st < fuel_of st)%nat.
Proof. unfold left_, fuel_of. case_decide; lia. Qed.

Lemma list_len_ind {A} (P : list A -> Prop) :
  (forall s, (forall t, (length t < length s)%nat -> P t) -> P s) -> forall s, P s.
Proof.
  intros H s. remember (length s) as n eqn:Hn. revert s Hn.
  induction n as [n IH] using lt_wf_ind. intros s ->. apply H. intros t Ht. by eapply IH.
Qed.

Lemma ignored_length b s : (length (ignored b s) <= length s)%nat.
Proof.
  revert b. induction s as [s IH] using list_len_ind. intros b. destruct s as [|c s]; [done|].
  cbn [ignored length] in *. destruct b; [specialize (IH s ltac:(lia) (negb (newline c))); lia|].
  destruct (white c); [specialize (IH s ltac:(lia) false); lia|].
  destruct (Ascii.eqb c "#"); [specialize (IH s ltac:(lia) true); lia|].
  destruct s as [|c1 [|c2 s]]; cbn [length] in *; try lia.
  destruct (_ && _); cbn [length]; [|lia]. specialize (IH s ltac:(lia) false). lia.
Qed.
Lemma string_end_length s rest : string_end s = Some rest -> (length rest < length s)%nat.
Proof.
  revert rest. induction s as [s IH] using list_len_ind. intros rest H. destruct s as [|c s]; [done|].
  cbn [string_end length] in *. destruct (Ascii.eqb c quote); [injection H as <-; lia|].
  destruct (Ascii.eqb c backslash); [|specialize (IH s ltac:(lia) _ H); lia].
  destruct s as [|c' s]; [done|]. cbn [length] in *. specialize (IH s ltac:(lia) _ H). lia.
Qed.
Lemma drop_digits_length s : (length (drop_digits s) <= length s)%nat.
Proof. induction s as [|c s IH]; [done|]. cbn. destruct (is_digit c); cbn; lia. Qed.
Lemma optional_char_length c s b s' : optional_char c s = (b, s') ->
  (if b then length s = S (length s') else s' = s)%nat.
Proof. destruct s as [|x s]; cbn; [by intros [= <- <-]|]. by destruct (Ascii.eqb x c); intros [= <- <-]. Qed.

(** A number takes a byte at least: its minus or its first digit. *)
Lemma number_length c s ty rest : (Ascii.eqb c "-" || is_digit c) = true -> number (c :: s) = (ty, rest) ->
  (length rest < length (c :: s))%nat.
Proof.
  intros Hc. unfold number.
  destruct (integer_part (c :: s)) as [t1 s1] eqn:E1. assert (length s1 < length (c :: s))%nat as H1.
  { unfold integer_part in E1. destruct (optional_char "-" (c :: s)) as [minus u] eqn:Em.
    apply optional_char_length in Em as Hl. destruct minus; cbn [andb] in E1.
    - destruct (negb _); [injection E1 as _ <-; lia|]. destruct (optional_char "0" u) as [zero u'] eqn:Ez.
      apply optional_char_length in Ez. injection E1 as _ <-. destruct zero; [lia|].
      pose proof (drop_digits_length u). lia.
    - subst u. destruct (optional_char "0" (c :: s)) as [zero u'] eqn:Ez. apply optional_char_length in Ez as Hz.
      injection E1 as _ <-. destruct zero; [lia|]. cbn in Em. destruct (Ascii.eqb c "-"); [done|]. cbn in Hc.
      cbn. rewrite Hc. pose proof (drop_digits_length s). lia. }
  destruct (decide (t1 = tt_error)); [by intros [= _ <-]|].
  destruct (fraction_part t1 s1) as [t2 s2] eqn:E2. assert (length s2 <= length s1)%nat as H2.
  { unfold fraction_part in E2. destruct s1 as [|x s1]; [by injection E2 as _ <-|].
    pose proof (drop_digits_length s1).
    destruct (Ascii.eqb x "."), (starts_with is_digit s1); injection E2 as _ <-; cbn; lia. }
  destruct (decide (t2 = tt_error)); [intros [= _ <-]; lia|].
  destruct (exponent_part t2 s2) as [t3 s3] eqn:E3. assert (length s3 <= length s2)%nat as H3.
  { unfold exponent_part in E3. destruct s2 as [|x s2]; [by injection E3 as _ <-|].
    destruct (Ascii.eqb x "e" || Ascii.eqb x "E"); [|injection E3 as _ <-; lia]. destruct (optional_char "-" s2) as [m u] eqn:Em.
    apply optional_char_length in Em. pose proof (drop_digits_length u).
    assert (length u <= length s2)%nat by (destruct m; [lia|by subst]).
    destruct (starts_with is_digit u); injection E3 as _ <-; cbn; lia. }
  destruct (decide (t3 = tt_error)); [intros [= _ <-]; lia|].
  destruct (starts_with name_char s3); intros [= _ <-]; lia.
Qed.

(** A token leaves less to read, but for the end and for an error. *)
Lemma left_le st n : (length (input st) < n)%nat -> (left_ st < S n)%nat.
Proof. unfold left_. case_decide; lia. Qed.
Lemma token_left before s : current_type (token before s) = tt_error \/ (left_ (token before s) < S (length s))%nat.
Proof.
  destruct s as [|c s]; [right; apply Nat.lt_0_succ|]. cbn [token].
  destruct (is_punctuator c); [right; apply left_le; cbn; lia|].
  destruct (_ && _); [right; apply left_le; cbn [input length]; rewrite length_drop; lia|].
  destruct (Ascii.eqb c quote) eqn:Eq.
  { case_bool_decide; [by left|]. right. apply left_le. destruct (string_end s) as [rest|] eqn:E; cbn [input length]; [|lia].
    apply string_end_length in E. lia. }
  destruct (Ascii.eqb c "_" || isalpha c) eqn:En.
  { right. apply left_le. cbn [input]. unfold name_end. rewrite length_drop. cbn [take_while].
    assert (name_char c = true) as ->.
    { unfold name_char, isalnum. apply orb_true_iff in En as [->| ->]; [done|]. by rewrite orb_true_r. }
    cbn [length]. lia. }
  destruct (Ascii.eqb c "-" || is_digit c) eqn:Ed; [|by left].
  destruct (number (c :: s)) as [ty rest] eqn:E. apply number_length in E; [|done].
  right. by apply left_le.
Qed.
Lemma skip_left st : current_type st <> tt_error -> current_type st <> tt_eof ->
  current_type (skip st) = tt_error \/ (left_ (skip st) < left_ st)%nat.
Proof.
  intros He Hf. unfold skip. rewrite decide_False by done.
  destruct (token_left (current_type st) (ignored false (input st))) as [H|H]; [by left|]. right.
  pose proof (ignored_length false (input st)). unfold left_ at 2. rewrite decide_False by done. lia.
Qed.
Lemma skip_error st : current_type st = tt_error -> skip st = st.
Proof. intros H. unfold skip. by rewrite decide_True. Qed.

(** A punctuator is there only when the token is one. *)
Definition wf (st : gql_stream) : Prop := current_type st = tt_punctuator \/ current_puncuator st = Ascii.zero.
Lemma token_wf before s : wf (token before s).
Proof.
  unfold wf. destruct s as [|c s]; [by right|]. cbn [token].
  destruct (is_punctuator c); [by left|]. destruct (_ && _); [by left|].
  destruct (Ascii.eqb c quote); [case_bool_decide; [by right|]; destruct (string_end s); by right|].
  destruct (_ || _); [by right|]. destruct (_ || _); [|by right]. destruct (number _). by right.
Qed.
Lemma skip_wf st : wf st -> wf (skip st).
Proof. intros H. unfold skip. case_decide; [done|apply token_wf]. Qed.
Lemma stream_wf query : wf (stream_of query).
Proof. apply skip_wf. by right. Qed.
Lemma wf_punct st c : wf st -> is_punct st c = true -> c <> Ascii.zero -> current_type st = tt_punctuator.
Proof. intros [H|H] Hp Hc; [done|]. apply Ascii.eqb_eq in Hp. congruence. Qed.
Lemma wf_no_punct st c : wf st -> current_type st <> tt_punctuator -> c <> Ascii.zero -> is_punct st c = false.
Proof. intros [H|H] Hp Hc; [done|]. unfold is_punct. rewrite H. apply Ascii.eqb_neq. congruence. Qed.


(** ** Skipping *)

Lemma skip_loop_S n st : skip_loop (S n) st =
  if decide (current_type st = tt_eof) then fail "expected }"
  else if is_punct st "{" then skip_loop n (skip st) ≫= skip_loop n
  else if is_punct st "}" then Done (skip st)
  else skip_loop n (skip st).
Proof. reflexivity. Qed.

(** More fuel does not change an outcome. *)
Lemma skip_loop_mono n m st : (n <= m)%nat -> skip_loop n st <> OutOfFuel -> skip_loop m st = skip_loop n st.
Proof.
  revert m st. induction n as [|n IH]; intros [|m] st Hm H; [done|done|lia|]. rewrite !skip_loop_S in *.
  case_decide; [done|]. destruct (is_punct st "{").
  - destruct (skip_loop n (skip st)) as [st1|msg|e|] eqn:E; cbn in H; [..|done].
    1: rewrite (IH m) by (rewrite ?E; (lia || done)); rewrite E; cbn; apply IH; [lia|done].
    all: rewrite (IH m) by (rewrite ?E; (lia || done)); by rewrite E.
  - destruct (is_punct st "}"); [done|]. apply IH; [lia|done].
Qed.
Lemma skip_loop_same n m st : skip_loop n st <> OutOfFuel -> skip_loop m st <> OutOfFuel ->
  skip_loop n st = skip_loop m st.
Proof.
  intros Hn Hm. destruct (Nat.le_ge_cases n m); [symmetry|]; by apply skip_loop_mono.
Qed.

(** What is not a token is never passed: the loop does not end. *)
Lemma skip_loop_stuck n st : wf st -> current_type st = tt_error -> skip_loop n st = OutOfFuel.
Proof.
  intros Hw He. induction n as [|n IH]; [done|]. rewrite skip_loop_S, decide_False by congruence.
  rewrite !wf_no_punct by (done || congruence). by rewrite skip_error.
Qed.

(** A stream further on: less is left to read, or an error has been met. *)
Definition further (st st' : gql_stream) : Prop :=
  wf st' /\ (current_type st' = tt_error \/ (left_ st' < left_ st)%nat).
Lemma skip_further st : wf st -> current_type st <> tt_eof -> further st (skip st).
Proof.
  intros Hw Hf. split; [by apply skip_wf|]. destruct (decide (current_type st = tt_error)) as [He|He].
  - left. by rewrite skip_error.
  - by apply skip_left.
Qed.

(** If any fuel is enough, what is left to read is. *)
Lemma skip_loop_enough k st : wf st -> skip_loop k st <> OutOfFuel ->
  forall n, (left_ st < n)%nat -> skip_loop n st = skip_loop k st /\ yields (further st) (skip_loop k st).
Proof.
  revert st. induction k as [|k IH]; intros st Hw Hk n Hn; [done|]. destruct n as [|n]; [lia|].
  rewrite !skip_loop_S in *. destruct (decide (current_type st = tt_eof)) as [Hf|Hf]; [done|].
  destruct (skip_further st Hw Hf) as [Hw' Hl].
  assert (skip_loop k (skip st) <> OutOfFuel -> (left_ (skip st) < left_ st)%nat) as Hless.
  { intros Hn'. destruct Hl as [He|Hl]; [|done]. by destruct Hn'; apply skip_loop_stuck. }
  destruct (is_punct st "{").
  - assert (skip_loop k (skip st) <> OutOfFuel) as Hk' by (intros E; by rewrite E in Hk).
    specialize (Hless Hk').
    destruct (IH (skip st) Hw' Hk' n) as [E Hy]; [lia|]. rewrite E.
    destruct (skip_loop k (skip st)) as [st1|msg|e|]; cbn in *; [|done..]. destruct Hy as [Hw1 [He|H1]].
    { by rewrite skip_loop_stuck in Hk. }
    destruct (IH st1 Hw1 Hk n) as [E1 H2]; [lia|]. split; [done|].
    eapply yields_impl; [exact H2|]. intros st2 [? [?|?]]; (split; [done|]); [by left|right; lia].
  - destruct (is_punct st "}"); [done|]. specialize (Hless Hk).
    destruct (IH (skip st) Hw' Hk n) as [E Hy]; [lia|]. split; [done|].
    eapply yields_impl; [exact Hy|]. intros st2 [? [?|?]]; (split; [done|]); [by left|right; lia].
Qed.

(** Whatever the fuel, the loop ends if it ends with the fuel it is given. *)
Lemma gql_skip_spec st k : wf st -> is_punct st "{" = true -> skip_loop k (skip st) <> OutOfFuel ->
  gql_skip_selection_set st = skip_loop k (skip st).
Proof.
  intros Hw Hp Hk. unfold gql_skip_selection_set. rewrite Hp. cbn [negb].
  apply skip_loop_enough; [by apply skip_wf|done|apply left_fuel].
Qed.

(** ** No errors among the tokens *)

Definition later (st st' : gql_stream) : Prop := exists n, st' = Nat.iter n skip st.
(** No token from here on is an error. *)
Definition no_error (st : gql_stream) : Prop := forall n, current_type (Nat.iter n skip st) <> tt_error.
(** A stream without errors, as far or further on. *)
Definition near (st st' : gql_stream) : Prop := later st st' /\ (left_ st' <= left_ st)%nat.
Definition beyond (st st' : gql_stream) : Prop := later st st' /\ (left_ st' < left_ st)%nat.
Definition good (st : gql_stream) : Prop := wf st /\ no_error st.

Lemma later_trans st1 st2 st3 : later st1 st2 -> later st2 st3 -> later st1 st3.
Proof. intros [n ->] [m ->]. exists (m + n)%nat. by rewrite Nat.iter_add. Qed.
Lemma later_good st st' : later st st' -> good st -> good st'.
Proof.
  intros [n ->] [Hw He]. split.
  - induction n as [|n IH]; [done|]. by apply skip_wf.
  - intros m. rewrite <- Nat.iter_add. apply He.
Qed.
Lemma near_refl st : near st st.
Proof. split; [by exists 0%nat|done]. Qed.
Lemma beyond_near st st' : beyond st st' -> near st st'.
Proof. intros [? ?]. split; [done|lia]. Qed.
Lemma near_trans st1 st2 st3 : near st1 st2 -> near st2 st3 -> near st1 st3.
Proof. intros [? ?] [? ?]. split; [by eapply later_trans|lia]. Qed.
Lemma beyond_near_trans st1 st2 st3 : beyond st1 st2 -> near st2 st3 -> beyond st1 st3.
Proof. intros [? ?] [? ?]. split; [by eapply later_trans|lia]. Qed.
Lemma near_good st st' : near st st' -> good st -> good st'.
Proof. intros [? _]. by apply later_good. Qed.
Lemma skip_beyond st : good st -> current_type st <> tt_eof -> beyond st (skip st).
Proof.
  intros [Hw He] Hf. split; [by exists 1%nat|]. destruct (skip_left st (He 0%nat) Hf) as [E|Hl]; [|done].
  by destruct (He 1%nat).
Qed.
Lemma punct_not_eof st c : wf st -> is_punct st c = true -> c <> Ascii.zero -> current_type st <> tt_eof.
Proof. intros Hw Hp Hc. by rewrite (wf_punct st c). Qed.
Lemma is_name_type st : is_name st = true -> current_type st = tt_name.
Proof. apply bool_decide_eq_true. Qed.

Lemma skip_loop_ends n st : good st -> (left_ st < n)%nat -> ends (beyond st) (skip_loop n st).
Proof.
  revert st. induction n as [|n IH]; intros st Hg Hn; [lia|]. rewrite skip_loop_S.
  destruct (decide (current_type st = tt_eof)) as [Hf|Hf]; [done|].
  pose proof (skip_beyond st Hg Hf) as Hb. pose proof (near_good _ _ (beyond_near _ _ Hb) Hg) as Hg'.
  destruct (is_punct st "{").
  - eapply ends_bind; [apply IH; [done|destruct Hb; lia]|]. intros st1 H1.
    eapply ends_impl; [apply IH; [by eapply near_good, Hg'; apply beyond_near|destruct Hb, H1; lia]|].
    intros st2 H2. eapply beyond_near_trans; [exact Hb|].
    eapply near_trans; apply beyond_near; [exact H1|exact H2].
  - destruct (is_punct st "}"); [exact Hb|].
    eapply ends_impl; [apply IH; [done|destruct Hb; lia]|]. intros st2 H2.
    eapply beyond_near_trans; [exact Hb|]. by apply beyond_near.
Qed.
Lemma gql_skip_ends st : good st -> ends (near st) (gql_skip_selection_set st).
Proof.
  intros Hg. unfold gql_skip_selection_set. destruct (is_punct st "{") eqn:Hp; cbn [negb]; [|apply near_refl].
  assert (beyond st (skip st)) as Hb by (apply skip_beyond; [done|by eapply punct_not_eof; [apply Hg|exact Hp|]]).
  eapply ends_impl; [apply skip_loop_ends; [by eapply near_good, Hg; apply beyond_near|apply left_fuel]|].
  intros st' H. eapply near_trans; apply beyond_near; eassumption.
Qed.

Lemma skip_eof st : current_type st = tt_eof -> input st = [] -> current_type (skip st) = tt_eof /\ input (skip st) = [].
Proof. intros Ht Hi. unfold skip. rewrite decide_False by congruence. by rewrite Hi. Qed.

(** A test that finds no error before the end. *)
Fixpoint no_error_within (n : nat) (st : gql_stream) : bool :=
  match n with
  | O => false
  | S n =>
      if decide (current_type st = tt_error) then false
      else if bool_decide (current_type st = tt_eof) && Nat.eqb (length (input st)) 0 then true
      else no_error_within n (skip st)
  end.
Lemma no_error_within_spec n st : no_error_within n st = true -> no_error st.
Proof.
  revert st. induction n as [|n IH]; intros st H; cbn [no_error_within] in H; [done|].
  case_decide; [done|]. destruct (_ && _) eqn:E.
  - apply andb_true_iff in E as [Et%bool_decide_eq_true El%Nat.eqb_eq]. apply length_zero_iff_nil in El.
    assert (forall k, current_type (Nat.iter k skip st) = tt_eof /\ input (Nat.iter k skip st) = []) as Hk.
    { induction k as [|k [IHt IHi]]; [done|]. by apply skip_eof. }
    intros k. destruct (Hk k) as [-> _]. congruence.
  - intros [|k]; [done|]. rewrite Nat.iter_succ_r. by apply IH.
Qed.

(** ** Arguments *)

Lemma parse_arg_ends t st : good st -> ends (fun r => beyond st r.2) (gql_parse_arg t st).
Proof.
  intros Hg. assert (current_type st <> tt_eof -> beyond st (skip st)) as Hb by by apply skip_beyond.
  destruct t as [| |lo hi|conv]; cbn [gql_parse_arg].
  - case_decide; [|done]. cbn. apply Hb. congruence.
  - destruct (is_name st) eqn:Hn; cbn [andb]; [|done]. apply is_name_type in Hn.
    destruct (is_value st "true"); [apply Hb; congruence|].
    destruct (is_value st "false"); [apply Hb; congruence|done].
  - case_decide as Ht; [|done]. destruct (from_chars _ _ _) as [v [|? ?]| |]; try done.
    apply Hb. intros E. rewrite E in Ht. set_solver.
  - case_decide; [|done]. destruct (conv _); [|done]. cbn. apply Hb. congruence.
Qed.

Lemma parse_args_ends i ps c st : good st -> is_name st = true ->
  ends (fun r => near st r.2 /\ (r.1.2 = true -> beyond st r.2)) (gql_parse_args i ps c st).
Proof.
  intros Hg Hn. apply is_name_type in Hn. revert i.
  induction ps as [|p ps IH]; intros i; cbn [gql_parse_args]; [split; [apply near_refl|done]|].
  case_decide; [apply IH|].
  assert (beyond st (skip st)) as H1 by (apply skip_beyond; [done|congruence]).
  pose proof (near_good _ _ (beyond_near _ _ H1) Hg) as Hg1.
  destruct (is_punct (skip st) ":") eqn:Hp; cbn [negb]; [|done].
  assert (beyond (skip st) (skip (skip st))) as H2.
  { apply skip_beyond; [done|]. by eapply punct_not_eof; [apply Hg1|exact Hp|]. }
  pose proof (near_good _ _ (beyond_near _ _ H2) Hg1) as Hg2.
  destruct (default false (filled c !! i)); [done|].
  eapply (ends_bind (fun r => near (skip (skip st)) r.2)).
  - destruct (p_optional p && _) eqn:Ho.
    + apply andb_true_iff in Ho as [_ [Hn2%is_name_type _]%andb_true_iff]. cbn.
      apply beyond_near, skip_beyond; [done|congruence].
    + eapply ends_bind; [by apply parse_arg_ends|]. intros [a st'] Ha. by apply beyond_near.
  - intros [a st'] Ha. cbn in *. assert (beyond st st') as Hb.
    { eapply beyond_near_trans; [exact H1|]. eapply near_trans; [apply beyond_near; exact H2|exact Ha]. }
    split; [by apply beyond_near|done].
Qed.

Lemma args_loop_ends n ps c st : good st -> (left_ st < n)%nat -> ends (fun r => near st r.2) (args_loop n ps c st).
Proof.
  revert c st. induction n as [|n IH]; intros c st Hg Hn; [lia|]. cbn [args_loop].
  destruct (is_name st) eqn:Hnm; [|apply near_refl].
  eapply ends_bind; [by apply parse_args_ends|]. intros [[c' found] st'] [H1 H2]. cbn in *.
  destruct found; [|done]. specialize (H2 eq_refl).
  eapply ends_impl; [apply IH; [by eapply near_good|destruct H2; lia]|]. intros [c2 st2] H3. cbn in *.
  by eapply near_trans.
Qed.

Lemma method_args_ends ps st : good st -> ends (fun r => near st r.2) (method_args ps st).
Proof.
  intros Hg. unfold method_args. eapply (ends_bind (fun r => near st r.2)).
  - destruct (is_punct st "(") eqn:Hp; [|apply near_refl].
    assert (beyond st (skip st)) as H1 by (apply skip_beyond; [done|by eapply punct_not_eof; [apply Hg|exact Hp|]]).
    pose proof (near_good _ _ (beyond_near _ _ H1) Hg) as Hg1.
    destruct (is_punct (skip st) ")"); [done|].
    eapply ends_bind; [apply args_loop_ends; [done|apply left_fuel]|]. intros [c' st'] H2. cbn in H2.
    pose proof (near_good _ _ H2 Hg1) as Hg2.
    destruct (is_punct st' ")") eqn:Hp2; cbn [negb]; [|done]. cbn.
    eapply near_trans; [apply beyond_near; exact H1|]. eapply near_trans; [exact H2|].
    apply beyond_near, skip_beyond; [done|]. by eapply punct_not_eof; [apply Hg2|exact Hp2|].
  - intros [c' st'] H. cbn in H. by destruct (first_missing _ _).
Qed.

(** ** Values and objects *)

Section value_ind.
Context {Obj : Type} (P : value Obj -> Prop).
Context (Hjson : forall t, P (v_json t)) (Hnull : P v_null) (Hsome : forall v, P v -> P (v_some v)).
Context (Hlist : forall l, Forall P l -> P (v_list l)) (Hobj : forall o, P (v_object o)).

(** Induction on a value and on the elements of its containers. *)
Fixpoint value_nested_ind (v : value Obj) : P v :=
  match v with
  | v_json t => Hjson t
  | v_null => Hnull
  | v_some v => Hsome v (value_nested_ind v)
  | v_list l => Hlist l ((fix all (l : list (value Obj)) : Forall P l :=
      match l with [] => List.Forall_nil P | v :: l => List.Forall_cons _ v l (value_nested_ind v) (all l) end) l)
  | v_object o => Hobj o
  end.
End value_ind.

Section query.
Context (utf8 : list ascii -> option nat) {Obj : Type} (members : Obj -> list (list ascii * member Obj)).

(** The elements of a container, each from a copy of the stream. *)
Definition elements (query_obj : Obj -> gql_stream -> outcome (list ascii * gql_stream)) (st : gql_stream)
    : list (value Obj) -> outcome (list (list ascii)) :=
  fix elements l :=
    match l with
    | [] => Done []
    | v :: l => '(text, _) ← query_value query_obj v st; texts ← elements l; Done (text :: texts)
    end.
Lemma query_list (query_obj : Obj -> gql_stream -> outcome (list ascii * gql_stream)) l st : query_value query_obj (v_list l) st =
  (texts ← elements query_obj st l; st ← gql_skip_selection_set st;
   Done ("["%char :: join texts ++ ["]"%char], st)).
Proof. reflexivity. Qed.

Lemma query_value_ends query_obj (v : value Obj) st : good st ->
  (forall o, ends (fun r => near st r.2) (query_obj o st)) ->
  ends (fun r => near st r.2) (query_value query_obj v st).
Proof.
  intros Hg Ho. induction v as [t| |v IH|l IH|o] using value_nested_ind.
  - apply near_refl.
  - cbn [query_value]. eapply ends_bind; [by apply gql_skip_ends|]. intros st' H. exact H.
  - exact IH.
  - rewrite query_list. eapply (ends_bind (fun _ => True)).
    + induction IH as [|v l Hv _ IHl]; [done|]. cbn [elements]. eapply ends_bind; [exact Hv|].
      intros [t _] _. eapply ends_bind; [exact IHl|]. by intros ts _.
    + intros ts _. eapply ends_bind; [by apply gql_skip_ends|]. intros st' H. exact H.
  - apply Ho.
Qed.

Lemma selection_name_ends st : good st -> is_name st = true -> ends (fun r => beyond st r.2) (selection_name st).
Proof.
  intros Hg Hn%is_name_type. unfold selection_name.
  assert (beyond st (skip st)) as H1 by (apply skip_beyond; [done|congruence]).
  pose proof (near_good _ _ (beyond_near _ _ H1) Hg) as Hg1.
  destruct (is_punct (skip st) ":") eqn:Hp; [|exact H1].
  assert (beyond (skip st) (skip (skip st))) as H2.
  { apply skip_beyond; [done|]. by eapply punct_not_eof; [apply Hg1|exact Hp|]. }
  pose proof (near_good _ _ (beyond_near _ _ H2) Hg1) as Hg2.
  destruct (is_name (skip (skip st))) eqn:Hn2; cbn [negb]; [|done]. apply is_name_type in Hn2. cbn.
  eapply beyond_near_trans; [exact H1|]. eapply near_trans; [apply beyond_near; exact H2|].
  apply beyond_near, skip_beyond; [done|congruence].
Qed.

Lemma members_loop_ends query_obj n o st : good st -> (left_ st < n)%nat ->
  (forall o st', near st st' -> ends (fun r => near st' r.2) (query_obj o st')) ->
  ends (fun r => near st r.2) (members_loop utf8 members query_obj n o st).
Proof.
  revert st. induction n as [|n IH]; intros st Hg Hn Ho; [lia|]. cbn [members_loop].
  destruct (is_name st) eqn:Hnm; [|apply near_refl].
  eapply ends_bind; [by apply selection_name_ends|]. intros [[alias fld] st1] H1. cbn in H1.
  pose proof (near_good _ _ (beyond_near _ _ H1) Hg) as Hg1.
  destruct (find_member members fld o) as [m|]; [|done].
  eapply (ends_bind (fun r => near st1 r.2)).
  - destruct m as [v|ps f].
    + destruct v as [v|e]; [|done]. cbn. apply query_value_ends; [done|]. intros o'. apply Ho. by apply beyond_near.
    + eapply ends_bind; [by apply method_args_ends|]. intros [args st2] H2. cbn in H2.
      destruct (f args) as [v|e]; [|done]. cbn.
      eapply ends_impl; [apply query_value_ends; [by eapply near_good|]|].
      * intros o'. apply Ho. eapply near_trans; [apply beyond_near; exact H1|exact H2].
      * intros r Hr. by eapply near_trans.
  - intros [text st3] H3. cbn in H3. pose proof (near_good _ _ H3 Hg1) as Hg3.
    eapply (ends_bind (fun r => near st3 r.2)).
    + apply IH; [done|destruct H1, H3; lia|]. intros o' st' H'. apply Ho.
      eapply near_trans; [apply beyond_near; exact H1|]. by eapply near_trans.
    + intros [texts st4] H4. cbn in *. eapply near_trans; [apply beyond_near; exact H1|]. by eapply near_trans.
Qed.

Lemma query_object_ends n o st : good st -> (left_ st < n)%nat ->
  ends (fun r => near st r.2) (query_object utf8 members n o st).
Proof.
  revert o st. induction n as [|n IH]; intros o st Hg Hn; [lia|]. cbn [query_object].
  destruct (is_punct st "{") eqn:Hp; cbn [negb]; [|done].
  assert (beyond st (skip st)) as H1 by (apply skip_beyond; [done|by eapply punct_not_eof; [apply Hg|exact Hp|]]).
  pose proof (near_good _ _ (beyond_near _ _ H1) Hg) as Hg1.
  eapply ends_bind.
  - apply members_loop_ends; [done|apply left_fuel|]. intros o' st' H'.
    apply IH; [by eapply near_good|destruct H1, H'; lia].
  - intros [texts st2] H2. cbn in H2. pose proof (near_good _ _ H2 Hg1) as Hg2.
    destruct (is_punct st2 "}") eqn:Hp2; cbn [negb]; [|done]. cbn.
    eapply near_trans; [apply beyond_near; exact H1|]. eapply near_trans; [exact H2|].
    apply beyond_near, skip_beyond; [done|]. by eapply punct_not_eof; [apply Hg2|exact Hp2|].
Qed.

Lemma query_value_fuel v st : good st -> ends (fun r => near st r.2) (gql_query_value utf8 members v st).
Proof.
  intros Hg. apply query_value_ends; [done|]. intros o. apply query_object_ends; [done|apply left_fuel].
Qed.

(** C26: a query whose tokens are all tokens is answered: whatever the objects
    are, which may lead to each other for ever, the evaluation ends with an
    answer or aborts, and the fuel of the model is enough for it.  Nesting and
    the loops are bounded by what is left of the text. *)
Theorem query_terminates (root : value Obj) (query variables : list ascii) :
  no_error (stream_of query) -> gql_query utf8 members root query variables <> OutOfFuel.
Proof.
  intros He. assert (good (stream_of query)) as Hg by (split; [apply stream_wf|done]).
  unfold gql_query. destruct (Nat.eqb (length variables) 0); [|done].
  assert (ends (fun _ => True) (gql_query_root utf8 members root (stream_of query))) as Hr.
  { unfold gql_query_root. eapply (ends_bind (near (stream_of query))).
    - destruct (is_name (stream_of query)) eqn:Hn; [|apply near_refl]. apply is_name_type in Hn.
      destruct (is_value _ "query"); [|repeat (case_match; [done|]); done].
      assert (beyond (stream_of query) (skip (stream_of query))) as H1 by (apply skip_beyond; [done|congruence]).
      assert (near (stream_of query) (let st := skip (stream_of query) in if is_name st then skip st else st)) as H2.
      { cbv zeta. destruct (is_name (skip (stream_of query))) eqn:Hn2; [|by apply beyond_near].
        apply is_name_type in Hn2. eapply near_trans; apply beyond_near; [exact H1|].
        apply skip_beyond; [by eapply near_good, Hg; apply beyond_near|congruence]. }
      cbv zeta in *. destruct (is_punct _ "("); [done|]. destruct (is_punct _ "@"); [done|]. exact H2.
    - intros st' H. eapply ends_bind; [apply query_value_fuel; by eapply near_good|].
      intros [text st2] _. repeat (case_match; try done). }
  by destruct (gql_query_root utf8 members root (stream_of query)).
Qed.
End query.

(** A root with one optional object, which may be missing. *)
Inductive sample : Type := sample_root | sample_status.
Definition sample_members (present : bool) (o : sample) : list (list ascii * member sample) :=
  match o with
  | sample_root => [(lit "status", m_method [] (fun _ => Ok (if present then v_some (v_object sample_status) else v_null)))]
  | sample_status => [(lit "active", m_field (Ok (v_json (bool_to_json true))));
                      (lit "root", m_field (Ok (v_object sample_root)))]
  end.
(** Every byte below 128 is a character. *)
Definition ascii_only (buf : list ascii) : option nat :=
  match buf with c :: _ => if Name.code c <? 128 then Some 1%nat else None | [] => None end.

Definition sample_query : list ascii := lit "{ s: status { active root { status { active } } } }".
Lemma query_terminates_witness :
  no_error (stream_of sample_query) /\
  gql_query ascii_only (sample_members true) (v_object sample_root) sample_query [] <> OutOfFuel.
Proof.
  assert (no_error (stream_of sample_query)) as H by (apply (no_error_within_spec 20); by vm_compute).
  split; [exact H | by apply query_terminates].
Defined.
Example sample_answer :
  gql_query ascii_only (sample_members true) (v_object sample_root) sample_query []
  = Done (data_text (lit "{" ++ string_to_json ascii_only (lit "s") ++ lit ":{" ++
      string_to_json ascii_only (lit "active") ++ lit ":true," ++ string_to_json ascii_only (lit "root") ++ lit ":{" ++
      string_to_json ascii_only (lit "status") ++ lit ":{" ++ string_to_json ascii_only (lit "active") ++ lit ":true}}}}")).
Proof. by vm_compute. Qed.

(** ** Queries that do not end *)

(** Something that is not a token is passed over by neither loop: the
    evaluation of a selection set stops at it with an error, but a selection
    set that is skipped - of an optional that is not there, or of a list -
    never ends, whatever the time it is given. *)
Theorem skipped_error_hangs (st : gql_stream) :
  wf st -> is_punct st "{" = true -> current_type (skip st) = tt_error ->
  gql_skip_selection_set st = OutOfFuel /\
  (forall fuel, skip_loop fuel (skip st) = OutOfFuel) /\
  (forall utf8 Obj (members : Obj -> list (list ascii * member Obj)) o fuel,
     query_object utf8 members (S fuel) o st = fail "expected }").
Proof.
  intros Hw Hp He. assert (wf (skip st)) as Hw' by by apply skip_wf.
  assert (forall fuel, skip_loop fuel (skip st) = OutOfFuel) as H by (intros; by apply skip_loop_stuck).
  split; [|split; [done|]].
  - unfold gql_skip_selection_set. rewrite Hp. apply H.
  - intros utf8 Obj members o fuel. cbn [query_object]. rewrite Hp. cbn [negb].
    unfold fuel_of. cbn [members_loop].
    assert (is_name (skip st) = false) as -> by (unfold is_name; rewrite He; done).
    cbn [mbind outcome_bind]. by rewrite wf_no_punct by (done || congruence).
Qed.
(** The same query with and without the object. *)
Lemma skipped_error_hangs_witness :
  let st := skip (skip (stream_of (lit "{ status { . } }"))) in
  (is_punct st "{" = true /\ gql_skip_selection_set st = OutOfFuel) /\
  gql_query ascii_only (sample_members false) (v_object sample_root) (lit "{ status { . } }") [] = OutOfFuel /\
  gql_query ascii_only (sample_members true) (v_object sample_root) (lit "{ status { . } }") []
  = Done (errors_text ascii_only (lit "expected }")).
Proof.
  split; [|by vm_compute]. split; [by vm_compute|].
  apply skipped_error_hangs; [by left|by vm_compute|by vm_compute].
Defined.

(** ** Answers are JSON *)

Section json.
Context (utf8 : list ascii -> option nat) {Obj : Type} (members : Obj -> list (list ascii * member Obj)).

(** What members write at once is JSON. *)
Inductive value_json : value Obj -> Prop :=
  | vj_json t : json t -> value_json (v_json t)
  | vj_null : value_json v_null
  | vj_some v : value_json v -> value_json (v_some v)
  | vj_list l : Forall value_json l -> value_json (v_list l)
  | vj_object o : value_json (v_object o).
Definition result_json (r : result (value Obj)) : Prop := forall v, r = Ok v -> value_json v.
Definition member_json (m : member Obj) : Prop :=
  match m with m_field r => result_json r | m_method _ f => forall args, result_json (f args) end.
Definition members_json : Prop := forall o name m, (name, m) ∈ members o -> member_json m.

Lemma query_value_json query_obj v st : (forall o st, yields (fun r => json r.1) (query_obj o st)) -> value_json v ->
  yields (fun r => json r.1) (query_value query_obj v st).
Proof.
  intros Ho Hv. induction v as [t| |v IH|l IH|o] using value_nested_ind; inversion Hv; subst.
  - done.
  - cbn [query_value]. eapply yields_bind; [apply yields_true|]. intros st' _. apply json_null.
  - by apply IH.
  - rewrite query_list. eapply (yields_bind (Forall json)).
    + clear Hv. induction IH as [|v l Hv _ IHl]; [constructor|].
      match goal with H : Forall value_json (_ :: _) |- _ => apply Forall_cons in H as [Hj1 Hj2] end.
      cbn [elements]. eapply yields_bind; [by apply Hv|]. intros [t st1] Ht.
      eapply yields_bind; [by apply IHl|]. intros ts Hts. cbn in *. by apply Forall_cons.
    + intros ts Hts. eapply yields_bind; [apply yields_true|]. intros st' _. by apply json_array.
  - apply Ho.
Qed.

Lemma find_member_json name o m : members_json -> find_member members name o = Some m -> member_json m.
Proof.
  intros Hm. unfold find_member. destruct (list_find _ _) as [[i [n m']]|] eqn:E; [|done]. intros [= <-].
  apply list_find_Some in E as [Hi _]. apply (Hm o n). by eapply list_elem_of_lookup_2.
Qed.

(** A member of an object: a name, a colon and a value. *)
Definition member_text (t : list ascii) : Prop := exists s v, string_body s /\ json v /\
  t = quote :: s ++ [quote; ":"%char] ++ v.
Lemma members_json_text l : Forall member_text l -> json ("{"%char :: join l ++ ["}"%char]).
Proof.
  intros Hl. assert (exists ms : list (list ascii * nat * list ascii),
    Forall (fun m => string_body m.1.1 /\ json m.2) ms /\
    l = (fun m => quote :: m.1.1 ++ [quote; ":"%char] ++ replicate m.1.2 " "%char ++ m.2) <$> ms) as (ms & Hms & ->).
  { induction Hl as [|t l (s & v & Hs & Hv & ->) _ (ms & Hms & ->)]; [by exists []|].
    exists ((s, 0%nat, v) :: ms). split; [by apply Forall_cons|done]. }
  by apply json_object.
Qed.

Lemma members_loop_json query_obj n o st : members_json ->
  (forall o st, yields (fun r => json r.1) (query_obj o st)) ->
  yields (fun r => Forall member_text r.1) (members_loop utf8 members query_obj n o st).
Proof.
  intros Hm Ho. revert st. induction n as [|n IH]; intros st; [done|]. cbn [members_loop].
  destruct (is_name st); [|constructor].
  eapply yields_bind; [apply yields_true|]. intros [[alias fld] st1] _.
  destruct (find_member members fld o) as [m|] eqn:E; [|done]. apply find_member_json in E; [|done].
  eapply (yields_bind (fun r => json r.1)).
  - destruct m as [v|ps f].
    + destruct v as [v'|e]; [|done]. apply query_value_json; [done|]. by apply E.
    + eapply yields_bind; [apply yields_true|]. intros [args st2] _. destruct (f args) as [v|e] eqn:Ev; [|done].
      apply query_value_json; [done|]. by apply (E args).
  - intros [text st3] Ht. eapply yields_bind; [apply IH|]. intros [texts st4] Hts. cbn in *.
    apply Forall_cons. split; [|done]. exists (string_loop utf8 (S (length alias)) alias), text.
    split; [apply string_loop_body|]. split; [done|]. unfold string_to_json. by rewrite <- app_comm_cons, <- app_assoc.
Qed.
Lemma query_object_json n o st : members_json -> yields (fun r => json r.1) (query_object utf8 members n o st).
Proof.
  intros Hm. revert o st. induction n as [|n IH]; intros o st; [done|]. cbn [query_object].
  destruct (is_punct st "{"); [|done]. cbn [negb]. eapply yields_bind; [by apply members_loop_json|].
  intros [texts st2] Ht. destruct (is_punct st2 "}"); [|done]. by apply members_json_text.
Qed.

Lemma root_json root st : members_json -> value_json root -> yields json (gql_query_root utf8 members root st).
Proof.
  intros Hm Hr. unfold gql_query_root. eapply yields_bind; [apply yields_true|]. intros st1 _.
  eapply yields_bind; [apply query_value_json; [intros; by apply query_object_json|done]|].
  intros [text st2] Ht. by repeat (case_match; try done).
Qed.
End json.

(** The object with one member that an answer is. *)
Lemma one_member_json name v : Forall (fun c => plain c = true) name -> json v ->
  json ("{"%char :: quote :: name ++ quote :: ":"%char :: " "%char :: v ++ ["}"%char]).
Proof.
  intros Hn Hv. pose proof (json_object [(name, 1%nat, v)]) as H. cbn in H.
  rewrite app_nil_r, <- app_assoc in H. apply H. apply Forall_singleton. split; [by apply string_body_plain|done].
Qed.
Lemma errors_json utf8 msg : json (errors_text utf8 msg).
Proof.
  unfold errors_text. pose proof (string_is_json utf8 msg) as Hs. revert Hs.
  generalize (string_to_json utf8 msg). intros s Hs.
  pose proof (one_member_json (lit "message") s ltac:(repeat constructor) Hs) as H1.
  pose proof (one_member_json (lit "errors") _ ltac:(repeat constructor) H1) as H2.
  cbn in *. by rewrite <- app_assoc in H2.
Qed.

(** Every answer is JSON, an object with the data or with the errors, whatever
    the names, the strings and the messages in it, provided that what the
    members themselves write is. *)
Lemma answer_json (utf8 : list ascii -> option nat) Obj (members : Obj -> list (list ascii * member Obj))
    (root : value Obj) (query variables answer : list ascii) :
  members_json members -> value_json root ->
  gql_query utf8 members root query variables = Done answer -> json answer.
Proof.
  intros Hm Hr H. assert (forall msg, json (errors_text utf8 msg)) as He by apply errors_json.
  unfold gql_query in H. destruct (Nat.eqb (length variables) 0); [|injection H as <-; apply He].
  pose proof (root_json utf8 members root (stream_of query) Hm Hr) as Hj.
  destruct (gql_query_root utf8 members root (stream_of query)) as [text|msg|e|]; try done; injection H as <-; [|apply He].
  apply (one_member_json (lit "data") text); [repeat constructor|exact Hj].
Qed.

(** ** Skipping is evaluating without an object *)

(** Skipping goes from one stream through the other. *)
Definition skips (st st' : gql_stream) : Prop :=
  forall n r, skip_loop n st' = Done r -> exists k, skip_loop k st = Done r.
Lemma skips_refl st : skips st st.
Proof. intros n r H. by exists n. Qed.
Lemma skips_trans st1 st2 st3 : skips st1 st2 -> skips st2 st3 -> skips st1 st3.
Proof. intros H1 H2 n r H. destruct (H2 n r H) as [k Hk]. by apply (H1 k). Qed.
(** A token that is not a brace. *)
Lemma skips_one st : current_type st <> tt_eof -> is_punct st "{" = false -> is_punct st "}" = false -> skips st (skip st).
Proof. intros Hf H1 H2 n r H. exists (S n). by rewrite skip_loop_S, decide_False, H1, H2 by done. Qed.
Lemma skips_word st : wf st -> current_type st ∈ [tt_name; tt_string; tt_integer; tt_floating] -> skips st (skip st).
Proof.
  intros Hw Ht. apply skips_one; [|apply wf_no_punct..]; try done; intros E; rewrite E in Ht; set_solver.
Qed.
Lemma skips_punct st c : wf st -> is_punct st c = true -> c ∈ [":"; "("; ")"]%char -> skips st (skip st).
Proof.
  intros Hw Hp Hc. assert (c <> Ascii.zero) by (intros ->; set_solver).
  pose proof (wf_punct st c Hw Hp ltac:(done)) as Ht. apply Ascii.eqb_eq in Hp. apply skips_one; [congruence| |];
    unfold is_punct; rewrite Hp; repeat (apply elem_of_cons in Hc as [->|Hc]; [done|]); by apply not_elem_of_nil in Hc.
Qed.
(** A block between braces. *)
Lemma skips_block st st' : wf st -> gql_skip_selection_set st = Done st' -> skips st st'.
Proof.
  intros Hw Hs. unfold gql_skip_selection_set in Hs. destruct (is_punct st "{") eqn:Hp; cbn [negb] in Hs; [|injection Hs as <-; apply skips_refl].
  intros n r H. set (m := fuel_of (skip st)) in *.
  exists (S (Nat.max m n)). rewrite skip_loop_S, decide_False by (by eapply punct_not_eof).
  rewrite Hp, (skip_loop_mono m) by (rewrite ?Hs; (lia || done)). rewrite Hs. cbn.
  by rewrite (skip_loop_mono n) by (rewrite ?H; (lia || done)).
Qed.

(** What is done went on by skipping. *)
Definition moves (st : gql_stream) {A} (f : A -> gql_stream) (r : outcome A) : Prop :=
  yields (fun a => wf (f a) /\ skips st (f a)) r.
Lemma moves_trans {A} st st' (f : A -> gql_stream) r : skips st st' -> moves st' f r -> moves st f r.
Proof.
  intros Hs H. unfold moves in *. eapply yields_impl; [exact H|].
  intros a [Hw Ha]. split; [done|by eapply skips_trans].
Qed.
Lemma parse_arg_moves t st : wf st -> moves st snd (gql_parse_arg t st).
Proof.
  intros Hw. assert (current_type st ∈ [tt_name; tt_string; tt_integer; tt_floating] ->
    forall a : arg, moves st snd (Done (a, skip st))) as Hs.
  { intros Ht a. split; [by apply skip_wf|by apply skips_word]. }
  destruct t as [| |lo hi|conv]; cbn [gql_parse_arg].
  - case_decide as Ht; [|done]. refine (Hs _ _). rewrite Ht. set_solver.
  - destruct (is_name st) eqn:Hn; cbn [andb]; [|done]. apply is_name_type in Hn.
    assert (current_type st ∈ [tt_name; tt_string; tt_integer; tt_floating]) by (rewrite Hn; set_solver).
    destruct (is_value st "true"); [by refine (Hs _ _)|]. destruct (is_value st "false"); [by refine (Hs _ _)|done].
  - case_decide as Ht; [|done]. destruct (from_chars _ _ _) as [v [|? ?]| |]; try done. refine (Hs _ _). set_solver.
  - case_decide as Ht; [|done]. destruct (conv _) as [v|]; [|done]. apply (fun H => Hs H (a_int v)). rewrite Ht. set_solver.
Qed.
Lemma skips_name st : wf st -> is_name st = true -> skips st (skip st).
Proof. intros Hw Hn%is_name_type. apply skips_word; [done|]. rewrite Hn. set_solver. Qed.

Lemma parse_args_moves i ps c st : wf st -> is_name st = true -> moves st snd (gql_parse_args i ps c st).
Proof.
  intros Hw Hn. revert i. induction ps as [|p ps IH]; intros i; cbn [gql_parse_args].
  { split; [done|apply skips_refl]. }
  case_decide; [apply IH|]. pose proof (skip_wf st Hw) as Hw1.
  destruct (is_punct (skip st) ":") eqn:Hp; cbn [negb]; [|done].
  pose proof (skip_wf _ Hw1) as Hw2.
  destruct (default false (filled c !! i)); [done|].
  apply (moves_trans st (skip (skip st))).
  { eapply skips_trans; [by apply skips_name|]. eapply skips_punct; [done|exact Hp|set_solver]. }
  eapply (yields_bind (fun r => wf r.2 /\ skips (skip (skip st)) r.2)).
  - destruct (p_optional p && _) eqn:Ho.
    + apply andb_true_iff in Ho as [_ [Hn2 _]%andb_true_iff]. split; [by apply skip_wf|by apply skips_name].
    + eapply yields_bind; [by apply parse_arg_moves|]. intros [a st'] Ha. exact Ha.
  - intros [a st'] Ha. exact Ha.
Qed.
Lemma args_loop_moves n ps c st : wf st -> moves st snd (args_loop n ps c st).
Proof.
  revert c st. induction n as [|n IH]; intros c st Hw; cbn [args_loop]; [done|].
  destruct (is_name st) eqn:Hn; [|split; [done|apply skips_refl]].
  eapply yields_bind; [by apply parse_args_moves|]. intros [[c' found] st'] [Hw' Hs]. cbn in *.
  destruct found; [|done]. eapply moves_trans; [exact Hs|by apply IH].
Qed.
Lemma method_args_moves ps st : wf st -> moves st snd (method_args ps st).
Proof.
  intros Hw. unfold method_args. eapply (yields_bind (fun r => wf r.2 /\ skips st r.2)).
  - destruct (is_punct st "(") eqn:Hp; [|split; [done|apply skips_refl]].
    pose proof (skip_wf st Hw) as Hw1. destruct (is_punct (skip st) ")"); [done|].
    eapply yields_bind; [by apply args_loop_moves|]. intros [c' st'] [Hw2 H2]. cbn in *.
    destruct (is_punct st' ")") eqn:Hp2; cbn [negb]; [|done]. split; [by apply skip_wf|]. cbn.
    eapply skips_trans; [eapply skips_punct; [done|exact Hp|set_solver]|]. eapply skips_trans; [exact H2|].
    eapply skips_punct; [done|exact Hp2|set_solver].
  - intros [c' st'] H. by destruct (first_missing _ _).
Qed.
Lemma selection_name_moves st : wf st -> is_name st = true -> moves st snd (selection_name st).
Proof.
  intros Hw Hn. unfold selection_name. pose proof (skip_wf st Hw) as Hw1.
  destruct (is_punct (skip st) ":") eqn:Hp; [|split; [done|by apply skips_name]].
  pose proof (skip_wf _ Hw1) as Hw2. destruct (is_name (skip (skip st))) eqn:Hn2; cbn [negb]; [|done].
  split; [by apply skip_wf|]. cbn. eapply skips_trans; [by apply skips_name|].
  eapply skips_trans; [eapply skips_punct; [done|exact Hp|set_solver]|by apply skips_name].
Qed.

Lemma gql_skip_wf st : wf st -> yields wf (gql_skip_selection_set st).
Proof.
  intros Hw. unfold gql_skip_selection_set. destruct (is_punct st "{"); cbn [negb]; [|done].
  pose proof (skip_wf st Hw) as Hw'. revert Hw'. generalize (skip st) (fuel_of (skip st)). intros st0 n.
  revert st0. induction n as [|n IH]; intros st0 H0; [done|]. rewrite skip_loop_S. case_decide; [done|].
  destruct (is_punct st0 "{"); [|destruct (is_punct st0 "}"); [by apply skip_wf|by apply IH, skip_wf]].
  eapply yields_bind; [by apply IH, skip_wf|]. intros st1 H1. by apply IH.
Qed.
Lemma gql_skip_moves st : wf st -> moves st id (gql_skip_selection_set st).
Proof.
  intros Hw. pose proof (gql_skip_wf st Hw) as H. pose proof (skips_block st) as Hs. unfold moves.
  destruct (gql_skip_selection_set st); try done. split; [exact H|by apply Hs].
Qed.

Section moves.
Context (utf8 : list ascii -> option nat) {Obj : Type} (members : Obj -> list (list ascii * member Obj)).

Lemma query_value_moves query_obj (v : value Obj) st : wf st ->
  (forall o st, wf st -> moves st snd (query_obj o st)) -> moves st snd (query_value query_obj v st).
Proof.
  intros Hw Ho. induction v as [t| |v IH|l IH|o] using value_nested_ind.
  - split; [done|apply skips_refl].
  - cbn [query_value]. eapply yields_bind; [by apply gql_skip_moves|]. intros st' H. exact H.
  - exact IH.
  - rewrite query_list. eapply yields_bind; [apply yields_true|]. intros ts _.
    eapply yields_bind; [by apply gql_skip_moves|]. intros st' H. exact H.
  - by apply Ho.
Qed.
Lemma members_loop_moves query_obj n o st : wf st ->
  (forall o st, wf st -> moves st snd (query_obj o st)) ->
  moves st snd (members_loop utf8 members query_obj n o st).
Proof.
  intros Hw Ho. revert st Hw. induction n as [|n IH]; intros st Hw; cbn [members_loop]; [done|].
  destruct (is_name st) eqn:Hn; [|split; [done|apply skips_refl]].
  eapply yields_bind; [by apply selection_name_moves|]. intros [[alias fld] st1] [Hw1 H1]. cbn in *.
  destruct (find_member members fld o) as [m|]; [|done].
  apply (moves_trans st st1); [done|]. eapply (yields_bind (fun r => wf r.2 /\ skips st1 r.2)).
  - destruct m as [v|ps f].
    + destruct v as [v|e]; [|done]. by apply query_value_moves.
    + eapply yields_bind; [by apply method_args_moves|]. intros [args st2] [Hw2 H2]. cbn in *.
      destruct (f args) as [v|e]; [|done]. apply (moves_trans st1 st2); [done|]. by apply query_value_moves.
  - intros [text st3] [Hw3 H3]. cbn in *. eapply (yields_bind (fun r => wf r.2 /\ skips st1 r.2)).
    + apply (moves_trans st1 st3); [done|]. by apply IH.
    + intros [texts st4] H4. exact H4.
Qed.
(** The end of an object that is evaluated is the end of it skipped. *)
Lemma query_object_skip n o st text st' : wf st -> query_object utf8 members n o st = Done (text, st') ->
  (forall m, (m < n)%nat -> forall o st, wf st -> moves st snd (query_object utf8 members m o st)) ->
  is_punct st "{" = true /\ exists k, skip_loop k (skip st) = Done st' /\ wf st'.
Proof.
  intros Hw H Hm. destruct n as [|n]; [done|]. cbn [query_object] in H.
  destruct (is_punct st "{") eqn:Hp; cbn [negb] in H; [|done]. split; [done|].
  apply bind_Done in H as ([texts st2] & H1 & H2).
  pose proof (members_loop_moves (query_object utf8 members n) (fuel_of (skip st)) o (skip st)) as Hl.
  rewrite H1 in Hl. destruct Hl as [Hw2 Hs]; [by apply skip_wf|by apply Hm; lia|]. cbn in *.
  destruct (is_punct st2 "}") eqn:Hp2; cbn [negb] in H2; [|done]. injection H2 as _ <-.
  destruct (Hs 1%nat (skip st2)) as [k Hk]; [|by exists k; split; [|apply skip_wf]].
  rewrite skip_loop_S, decide_False by (by eapply punct_not_eof).
  replace (is_punct st2 "{") with false; [by rewrite Hp2|].
  symmetry. apply Ascii.eqb_eq in Hp2. unfold is_punct. by rewrite Hp2.
Qed.
Lemma query_object_moves n o st : wf st -> moves st snd (query_object utf8 members n o st).
Proof.
  revert o st. induction n as [n IH] using lt_wf_ind. intros o st Hw.
  destruct (query_object utf8 members n o st) as [[text st']|msg|e|] eqn:E; try done.
  destruct (query_object_skip n o st text st' Hw E IH) as [Hp (k & Hk & Hw')].
  split; [done|]. apply skips_block; [done|]. by rewrite (gql_skip_spec st k) by (done || by rewrite Hk).
Qed.
End moves.

(** C25: a selection set is skipped exactly as far as it would be evaluated:
    the evaluation of an object, its arguments and the objects in it, leaves
    the stream where skipping leaves it.  So an optional that is not there, or
    a list, disturbs nothing of what follows in the query. *)
Theorem skip_is_evaluation (utf8 : list ascii -> option nat) Obj (members : Obj -> list (list ascii * member Obj))
    (fuel : nat) (o : Obj) (st st' : gql_stream) (text : list ascii) :
  wf st -> query_object utf8 members fuel o st = Done (text, st') -> gql_skip_selection_set st = Done st'.
Proof.
  intros Hw H. destruct (query_object_skip utf8 members fuel o st text st' Hw H) as [Hp (k & Hk & _)].
  - intros m _ o' st0. apply query_object_moves.
  - by rewrite (gql_skip_spec st k) by (done || by rewrite Hk).
Qed.
Lemma skip_is_evaluation_witness :
  let st := stream_of (lit "{ a: status { root { status { active } } } } rest") in
  gql_skip_selection_set st = Done (mk_stream [] tt_name (lit "rest") Ascii.zero).
Proof.
  eapply (skip_is_evaluation ascii_only sample (sample_members true) 10 sample_root); [apply stream_wf|].
  by vm_compute.
Defined.

End GraphQLRun.
