(* ===== verification/Subchain.v ===== *)
(** What the blocks of the history node carry
    ([libraries/clchain/include/clchain/subchain.hpp]): transactions, their
    actions with the data as bytes, the blocks of the chain the node follows
    and the blocks of its own log, and their serialization, which is that of
    their fields in the order of the reflection. *)
From S2P Require Import Prelude Crypto Binary EventWire BlockLog.
Import Crypto Binary EventWire.
Open Scope string_scope.
Open Scope list_scope.
Open Scope Z_scope.

(** ** Structs *)

Module Structs.

(** [for_each_field(obj, ...)]: a struct through the tuple of its fields. *)
Definition struct_codec {A B} (fields : codec A) (to_fields : B -> A) (of_fields : A -> B) : codec B :=
  mk_codec (fun b => to_bin fields (to_fields b))
           (fun s => '(a, s) ← from_bin fields s; Ok (of_fields a, s)).

Lemma struct_complete {A B} (fields : codec A) (to_fields : B -> A) of_fields (P : A -> Prop) (Q : B -> Prop) :
  Complete fields P -> (forall b, of_fields (to_fields b) = b) -> (forall b, Q b -> P (to_fields b)) ->
  Complete (struct_codec fields to_fields of_fields) Q.
Proof.
  intros Hc Hi HQ b Hb. destruct (complete (to_fields b) (HQ b Hb)) as (bs & Hw & Hr). exists bs. split; [exact Hw|].
  intros rest. cbn [struct_codec from_bin]. rewrite Hr. cbn. by rewrite Hi.
Qed.

#[export] Instance option_complete {A} (c : codec A) P `{!Complete c P} :
  Complete (option_codec c) (fun o => match o with Some a => P a | None => True end).
Proof.
  intros [a|] Ha.
  - destruct (complete a Ha) as (bs & Hw & Hr). exists ([1] ++ bs). cbn [option_codec to_bin from_bin bool_codec].
    rewrite Hw. split; [done|]. intros rest. rewrite <- app_assoc, read_exactly by done. cbn [mbind result_bind].
    change (negb (of_le [1] =? 0)) with true. cbn match. by rewrite Hr.
  - exists [0]. split; [done|]. intros rest. cbn [option_codec from_bin bool_codec]. by rewrite read_exactly.
Qed.
End Structs.

Module Subchain.
Import Structs.
#[local] Infix "⊗" := pair_codec (at level 35, right associativity).

Record creator_action : Type := mk_creator { creator_seq : Z; creator_receiver : Z }.
Record action : Type := mk_action {
  seq : Z; firstReceiver : Z; receiver : Z; name : Z; creatorAction : option creator_action; hexData : list Z }.
Record transaction : Type := mk_transaction { id : Z; actions : list action }.
Abbreviation eosio_block := (BlockLog.eosio_block transaction).
Abbreviation block := (BlockLog.block_with_id transaction).
Abbreviation block_log := (BlockLog.block_log transaction).

(** ** Serialization *)

Definition creator_action_codec : codec creator_action :=
  struct_codec (uint 8 ⊗ uint 8) (fun c => (creator_seq c, creator_receiver c)) (fun '(q, r) => mk_creator q r).
Definition action_codec : codec action :=
  struct_codec (uint 8 ⊗ uint 8 ⊗ uint 8 ⊗ uint 8 ⊗ option_codec creator_action_codec ⊗ bytes_codec)
    (fun a => (seq a, (firstReceiver a, (receiver a, (name a, (creatorAction a, hexData a))))))
    (fun '(q, (f, (r, (n, (c, h))))) => mk_action q f r n c h).
Definition transaction_codec : codec transaction :=
  struct_codec (checksum_codec ⊗ vector_codec action_codec) (fun t => (id t, actions t)) (fun '(i, l) => mk_transaction i l).
Definition eosio_block_codec : codec eosio_block :=
  struct_codec (uint 4 ⊗ checksum_codec ⊗ checksum_codec ⊗ sint 8 ⊗ vector_codec transaction_codec)
    (fun b => (BlockLog.eosio_num b, (BlockLog.eosio_id b, (BlockLog.eosio_previous b,
                (BlockLog.timestamp b, BlockLog.transactions b)))))
    (fun '(n, (i, (p, (t, l)))) => BlockLog.mk_eosio n i p t l).
(** A [block] is a number, the previous id and what the chain's block holds. *)
Definition block_codec : codec (Z * (Z * eosio_block)) := uint 4 ⊗ checksum_codec ⊗ eosio_block_codec.
(** The id comes first, then the fields of the base. *)
Definition block_with_id_codec : codec block :=
  struct_codec (checksum_codec ⊗ block_codec)
    (fun b => (BlockLog.id b, (BlockLog.num b, (BlockLog.previous b, BlockLog.eosioBlock b))))
    (fun '(i, (n, (p, b))) => BlockLog.mk_block n p b i).

(** ** What the types hold *)

Definition creator_ok (c : creator_action) : Prop := uint_ok 8 (creator_seq c) /\ uint_ok 8 (creator_receiver c).
Definition action_ok (a : action) : Prop :=
  uint_ok 8 (seq a) /\ uint_ok 8 (firstReceiver a) /\ uint_ok 8 (receiver a) /\ uint_ok 8 (name a) /\
  match creatorAction a with Some c => creator_ok c | None => True end /\ len_ok (hexData a).
Definition transaction_ok (t : transaction) : Prop := uint_ok 32 (id t) /\ len_ok (actions t) /\ Forall action_ok (actions t).
Definition eosio_block_ok (b : eosio_block) : Prop :=
  uint_ok 4 (BlockLog.eosio_num b) /\ uint_ok 32 (BlockLog.eosio_id b) /\ uint_ok 32 (BlockLog.eosio_previous b) /\
  - 2 ^ 63 <= BlockLog.timestamp b < 2 ^ 63 /\ len_ok (BlockLog.transactions b) /\
  Forall transaction_ok (BlockLog.transactions b).
Definition block_ok (b : block) : Prop :=
  uint_ok 32 (BlockLog.id b) /\ uint_ok 4 (BlockLog.num b) /\ uint_ok 32 (BlockLog.previous b) /\
  eosio_block_ok (BlockLog.eosioBlock b).

#[export] Instance creator_complete : Complete creator_action_codec creator_ok.
Proof. eapply struct_complete; [apply _|by intros []|done]. Qed.
#[export] Instance action_complete : Complete action_codec action_ok.
Proof. eapply struct_complete; [apply _|by intros []|done]. Qed.
#[export] Instance transaction_complete : Complete transaction_codec transaction_ok.
Proof. eapply struct_complete; [apply _|by intros []|done]. Qed.
#[export] Instance eosio_block_complete : Complete eosio_block_codec eosio_block_ok.
Proof. eapply struct_complete; [apply _|by intros []|done]. Qed.
#[export] Instance block_complete : Complete block_with_id_codec block_ok.
Proof. eapply struct_complete; [unfold block_codec; apply _|by intros []|done]. Qed.

End Subchain.
