(* ===== verification/OrderedIndex.v ===== *)
(** The ordered indices that queries read
    ([contracts/eden/src/eden-micro-chain.cpp], the [ordered_unique] indices of
    the tables): the rows of a table in the order of a key that is a tuple of
    integers, the two binary searches, and the cursor of a row, which is its
    key serialized. *)
From S2P Require Import Prelude Crypto Binary EventWire MicroTables Connection.
Import Binary EventWire MicroTables.
Open Scope string_scope.
Open Scope list_scope.
Open Scope Z_scope.

Module OrderedIndex.

(** ** Tuples *)

(** [std::tuple] and [std::pair] of unsigned integers, compared from the
    first. *)
Definition tuple_ltb : list Z -> list Z -> bool := Crypto.bytes_ltb.

(** [to_bin] and [from_bin] of a tuple whose fields have these many bytes. *)
Fixpoint tuple_to_bin (sizes : list nat) (k : list Z) : list Z :=
  match sizes, k with
  | n :: sizes, z :: k => Crypto.le_bytes n z ++ tuple_to_bin sizes k
  | _, _ => []
  end.
Fixpoint tuple_from_bin (sizes : list nat) (s : list Z) : result (list Z * list Z) :=
  match sizes with
  | [] => Ok ([], s)
  | n :: sizes =>
      '(z, s) ← from_bin (uint n) s; '(k, s) ← tuple_from_bin sizes s; Ok (z :: k, s)
  end.
Definition tuple_codec (sizes : list nat) : codec (list Z) :=
  mk_codec (fun k => Ok (tuple_to_bin sizes k)) (tuple_from_bin sizes).
Definition tuple_ok (sizes : list nat) (k : list Z) : Prop := Forall2 (fun n z => uint_ok n z) sizes k.

(** [std::tuple<name, public_key>] *)
Definition session_ltb (a b : Z * public_key) : bool :=
  (a.1 <? b.1) || ((a.1 =? b.1) && Crypto.key_ltb a.2 b.2).
Definition session_codec : codec (Z * public_key) := pair_codec (uint 8) public_key_codec.

(** ** Indices *)

Section index.
Context {K V : Type} (ltb : K -> K -> bool) (key : Z * V -> K).

Definition key_le (x y : Z * V) : Prop := ltb (key y) (key x) = false.
#[global] Instance key_le_dec x y : Decision (key_le x y).
Proof. unfold key_le. apply _. Defined.
Definition index (t : table V) : list (Z * V) := merge_sort key_le (map_to_list (rows t)).

(** [lower_bound] and [upper_bound]: how many rows come before. *)
Definition lower_bound (l : list (Z * V)) (k : K) : nat := length (take_while (fun x => ltb (key x) k) l).
Definition upper_bound (l : list (Z * V)) (k : K) : nat := length (take_while (fun x => negb (ltb k (key x))) l).
End index.

(** What an order of keys needs. *)
Class KeyOrder {K} (ltb : K -> K -> bool) : Prop := {
  key_irrefl : forall a, ltb a a = false;
  key_trans : forall a b c, ltb a b = true -> ltb b c = true -> ltb a c = true;
  key_total : forall a b, ltb a b = true \/ a = b \/ ltb b a = true
}.

(** ** The order of tuples *)

Lemma tuple_ltb_irrefl a : tuple_ltb a a = false.
Proof. induction a as [|x a IH]; [done|]. unfold tuple_ltb in *. cbn. by rewrite Z.ltb_irrefl, Z.eqb_refl, IH. Qed.
Lemma tuple_ltb_cons x a y b : tuple_ltb (x :: a) (y :: b) = true <-> x < y \/ (x = y /\ tuple_ltb a b = true).
Proof. unfold tuple_ltb. cbn. by rewrite orb_true_iff, andb_true_iff, Z.ltb_lt, Z.eqb_eq. Qed.
Lemma tuple_ltb_trans a b c : tuple_ltb a b = true -> tuple_ltb b c = true -> tuple_ltb a c = true.
Proof.
  revert b c. induction a as [|x a IH]; intros [|y b] [|z c] H1 H2; try done.
  rewrite tuple_ltb_cons in *. destruct H1 as [H1|[-> H1]], H2 as [H2|[-> H2]]; [left; lia|by left|by left|].
  right. split; [done|by eapply IH].
Qed.
Lemma tuple_ltb_total a b : tuple_ltb a b = true \/ a = b \/ tuple_ltb b a = true.
Proof.
  revert b. induction a as [|x a IH]; intros [|y b]; [by right; left|by left|by right; right|].
  rewrite !tuple_ltb_cons. destruct (Z.lt_trichotomy x y) as [H|[->|H]]; [by left; left| |by right; right; left].
  destruct (IH b) as [H|[->|H]]; [left; right|right; left|right; right; right]; done.
Qed.
#[export] Instance tuple_order : KeyOrder tuple_ltb.
Proof. split; [apply tuple_ltb_irrefl|apply tuple_ltb_trans|apply tuple_ltb_total]. Qed.
#[export] Instance number_order : KeyOrder Z.ltb.
Proof. split; intros *; rewrite ?Z.ltb_lt; try lia. Qed.
(** The order of keys is that of tuples with the alternative in front. *)
Lemma key_ltb_tuple a b : Crypto.key_ltb a b = tuple_ltb (Crypto.index a :: Crypto.key_data a) (Crypto.index b :: Crypto.key_data b).
Proof. done. Qed.
Definition session_tuple (k : Z * public_key) : list Z := k.1 :: Crypto.index k.2 :: Crypto.key_data k.2.
#[export] Instance session_tuple_inj : Inj eq eq session_tuple.
Proof. intros [x [a|a|a]] [y [b|b|b]] H; try discriminate; by injection H as -> ->. Qed.
#[export] Instance session_order : KeyOrder session_ltb.
Proof.
  assert (forall a b, session_ltb a b = tuple_ltb (session_tuple a) (session_tuple b)) as H by done.
  split; intros *; rewrite !H; [apply tuple_ltb_irrefl|apply tuple_ltb_trans|].
  destruct (tuple_ltb_total (session_tuple a) (session_tuple b)) as [E|[E|E]]; [by left| |by right; right].
  right. left. by apply (inj _).
Qed.

Section facts.
Context {K V : Type} (ltb : K -> K -> bool) (key : Z * V -> K) `{!KeyOrder ltb}.

Lemma ltb_asym a b : ltb a b = true -> ltb b a = false.
Proof. intros H. destruct (ltb b a) eqn:E; [|done]. by rewrite <- (key_trans _ _ _ H E), key_irrefl. Qed.
(** What is not greater, then less. *)
Lemma le_lt a b c : ltb b a = false -> ltb b c = true -> ltb a c = true.
Proof. intros H1 H2. destruct (key_total a b) as [H|[->|H]]; [by eapply key_trans|done|congruence]. Qed.

#[global] Instance key_le_trans : Transitive (key_le ltb key).
Proof.
  intros x y z H1 H2. unfold key_le in *. destruct (ltb (key z) (key x)) eqn:E; [|done].
  by rewrite (le_lt _ _ _ H2 E) in H1.
Qed.
#[global] Instance key_le_total : Total (key_le ltb key).
Proof.
  intros x y. unfold key_le. destruct (ltb (key y) (key x)) eqn:E; [right; by apply ltb_asym|by left].
Qed.

(** Each row once, in order. *)
Lemma index_perm t : index ltb key t ≡ₚ map_to_list (rows t).
Proof. apply merge_sort_Permutation. Qed.
Lemma elem_of_ordered t i r : (i, r) ∈ index ltb key t <-> rows t !! i = Some r.
Proof. rewrite index_perm. apply elem_of_map_to_list. Qed.

(** No two rows have the same key. *)
Definition unique_keys (t : table V) : Prop := forall i j x y,
  rows t !! i = Some x -> rows t !! j = Some y -> key (i, x) = key (j, y) -> i = j.

Lemma ordered_sorted t : unique_keys t -> StronglySorted (fun x y => ltb (key x) (key y) = true) (index ltb key t).
Proof.
  intros Hu. pose proof (StronglySorted_merge_sort (key_le ltb key) (map_to_list (rows t))) as Hs.
  fold (index ltb key t) in Hs. pose proof (fun i r => proj1 (elem_of_ordered t i r)) as Hin.
  assert (NoDup (index ltb key t)) as Hnd by (rewrite index_perm; apply NoDup_map_to_list).
  revert Hs Hin Hnd. generalize (index ltb key t). intros l Hs Hin. induction Hs as [|[i x] l Hl IH Hx]; intros Hnd; [constructor|].
  apply NoDup_cons in Hnd as [Hn Hnd]. constructor; [apply IH; [|done]; intros j r Hj; apply Hin; by right|].
  rewrite Forall_forall in Hx |- *. intros [j y] Hj. specialize (Hx _ Hj). unfold key_le in Hx.
  destruct (key_total (key (i, x)) (key (j, y))) as [H|[H|H]]; [done| |congruence].
  destruct Hn. assert (i = j) as <-.
  { eapply Hu; [apply Hin; left|apply Hin; right; exact Hj|exact H]. }
  assert (Some x = Some y) as [= <-]; [|done].
  rewrite <- (Hin i x) by left. rewrite <- (Hin i y) by by right. done.
Qed.

(** Where the rows that satisfy a condition end, when it goes down. *)
Lemma take_while_position {A} (R : A -> A -> Prop) (p : A -> bool) l i x :
  StronglySorted R l -> (forall y z, R y z -> p z = true -> p y = true) -> l !! i = Some x ->
  p x = bool_decide (i < length (take_while p l))%nat.
Proof.
  intros Hs Hp. revert i. induction Hs as [|y l Hs IH Hy]; intros i Hi; [done|]. cbn [take_while].
  destruct i as [|i]; cbn in Hi.
  - injection Hi as ->. destruct (p x); cbn; [by rewrite bool_decide_eq_true_2 by lia|by rewrite bool_decide_eq_false_2 by lia].
  - rewrite Forall_forall in Hy. specialize (Hy x ltac:(by eapply list_elem_of_lookup_2)).
    rewrite (IH i Hi). destruct (p y) eqn:Ey; cbn [length].
    + by apply bool_decide_ext; lia.
    + rewrite <- (IH i Hi). destruct (p x) eqn:Ex; [by rewrite (Hp y x Hy Ex) in Ey|].
      by rewrite bool_decide_eq_false_2 by lia.
Qed.
Lemma take_while_length {A} (p : A -> bool) (l : list A) : (length (take_while p l) <= length l)%nat.
Proof. induction l as [|x l IH]; [done|]. cbn. destruct (p x); cbn; lia. Qed.
Lemma sorted_position {A} (R : A -> A -> Prop) (l : list A) i j x y :
  StronglySorted R l -> l !! i = Some x -> l !! j = Some y -> (i < j)%nat -> R x y.
Proof.
  intros Hs. revert i j. induction Hs as [|z l Hs IH Hz]; intros [|i] [|j] Hi Hj Hij; cbn in *; try done; try lia.
  - injection Hi as ->. rewrite Forall_forall in Hz. apply Hz. by eapply list_elem_of_lookup_2.
  - apply (IH i j); [done|done|lia].
Qed.

(** An index is what [make_connection] needs of a container. *)
Lemma index_container t valid : unique_keys t -> (forall i r, rows t !! i = Some r -> valid (key (i, r))) ->
  Connection.container_ok ltb key (lower_bound ltb key) (upper_bound ltb key) valid (index ltb key t).
Proof.
  intros Hu Hv. pose proof (ordered_sorted t Hu) as Hs. split.
  - intros i [j r] Hi. apply Hv, elem_of_ordered. by eapply list_elem_of_lookup_2.
  - intros i j x y Hi Hj. destruct (Nat.lt_trichotomy i j) as [H|[->|H]].
    + rewrite bool_decide_eq_true_2 by done. by apply (sorted_position _ _ i j x y Hs).
    + rewrite Hi in Hj. injection Hj as ->. rewrite key_irrefl. by rewrite bool_decide_eq_false_2 by lia.
    + rewrite bool_decide_eq_false_2 by lia. apply ltb_asym. by apply (sorted_position _ _ j i y x Hs).
  - intros k _. apply take_while_length.
  - intros k _. apply take_while_length.
  - intros k i x _ Hi. apply (take_while_position _ (fun x => ltb (key x) k) _ i x Hs); [|done].
    intros y z H1 H2. by eapply key_trans.
  - intros k i x _ Hi.
    assert (negb (ltb k (key x)) = bool_decide (i < upper_bound ltb key (index ltb key t) k)%nat) as H.
    { apply (take_while_position _ (fun x => negb (ltb k (key x))) _ i x Hs); [|done].
      intros y z H1 H2. apply negb_true_iff in H2. apply negb_true_iff. destruct (ltb k (key y)) eqn:E; [|done].
      by rewrite (key_trans _ _ _ E H1) in H2. }
    apply (f_equal negb) in H. rewrite negb_involutive, <- bool_decide_not in H.
    rewrite H. apply bool_decide_ext. lia.
Qed.
End facts.

(** ** Cursors *)

Lemma tuple_roundtrip sizes k rest : tuple_ok sizes k ->
  tuple_from_bin sizes (tuple_to_bin sizes k ++ rest) = Ok (k, rest).
Proof.
  intros Hk. induction Hk as [|n z sizes k Hz _ IH]; [done|]. cbn [tuple_to_bin tuple_from_bin].
  rewrite <- app_assoc. destruct (complete (c := uint n) z Hz) as (bs & [= <-] & Hr). rewrite Hr. cbn [mbind result_bind].
  by rewrite IH.
Qed.
(** Keys with a first field of at least a byte have cursors. *)
#[export] Instance tuple_cursor n sizes : Connection.Cursor (tuple_codec (S n :: sizes)) (tuple_ok (S n :: sizes)).
Proof.
  split.
  - intros k bs rest Hk Hb. assert (bs = tuple_to_bin (S n :: sizes) k) as -> by (injection Hb; auto).
    exact (tuple_roundtrip (S n :: sizes) k rest Hk).
  - intros k Hk. exists (tuple_to_bin (S n :: sizes) k). split; [done|]. split; [by inversion Hk|].
    clear. revert k. induction (S n :: sizes) as [|m l IH]; intros [|z k]; cbn [tuple_to_bin]; try constructor.
    apply Forall_app. split; [apply Crypto.le_bytes_bytes|apply IH].
Qed.

End OrderedIndex.
