(* ===== verification/MicroQuery.v ===== *)
(** What the history node answers
    ([contracts/eden/src/eden-micro-chain.cpp], lines 644-1315 and 2504-2767,
    and the log of [libraries/clchain/include/clchain/subchain.hpp]): the
    objects a query can reach, the members that their reflection lists, and the
    page of a table that each connection selects.

    An object holds the rows it points to: a query changes no table, so a copy
    of a row is the row.  Reading through a null pointer or an empty optional
    is undefined in C++ and ends the query here ([Trap]). *)
From S2P Require Import Prelude Name Time Asset Crypto Binary EventWire Text KeyText Json GraphQL.
From S2P Require Import Inductions BlockLog Subchain Connection MicroTables MicroChain OrderedIndex.
From Stdlib Require Import Ascii.
Import Binary EventWire Text Json GraphQL Subchain MicroTables OrderedIndex.
Open Scope string_scope.
Open Scope list_scope.
Open Scope Z_scope.

Module MicroQuery.

(** ** Objects *)

Inductive obj : Type :=
  | o_creator_action (c : creator_action)
  | o_action (a : action)
  | o_transaction (t : transaction)
  | o_eosio_block (b : BlockLog.eosio_block transaction)
  | o_block_with_id (b : block)
  | o_BlockLog
  | o_Balance (account : Z) (row : option Balance.object)
  | o_BalanceHistory (row : Z * History.object)
  | o_EncryptionKey (account : Z) (row : option EncryptionKey.object)
  | o_Member (account : Z) (row : option Member.object)
  | o_new_member_profile (p : Inductions.new_member_profile)
  | o_Session (row : Session.object)
  | o_InductionEndorsingMemberStatus (endorser : Z * bool)
  | o_Induction (row : Induction.object)
  | o_Status (row : Status.object)
  | o_Election (row : Election.object)
  | o_MemberElection (account : Z) (row : Election.object)
  | o_ElectionRound (row : Round.object)
  | o_ElectionGroup (row : Z * Group.object)
  | o_Vote (row : Vote.object)
  | o_Distribution (row : Distribution.object)
  | o_DistributionFund (row : Fund.object)
  | o_Nft (row : NftRow.object)
  | o_Connection (c : @Connection.connection obj)
  | o_Edge (node : obj) (cursor : string)
  | o_PageInfo (hasPreviousPage hasNextPage : bool) (startCursor endCursor : string)
  | o_Query.

Abbreviation values := (value obj).

(** ** Arguments *)

Definition int_at (args : list (option arg)) (i : nat) : option Z :=
  match args !! i with Some (Some (a_int z)) => Some z | _ => None end.
Definition string_at (args : list (option arg)) (i : nat) : option string :=
  match args !! i with Some (Some (a_string s)) => Some (string_of s) | _ => None end.

Definition t_name : arg_type := at_text (fun s => Ok (NameHash.hash_name s)).
Definition t_time : arg_type := at_text block_timestamp_from_string.
Definition t_uint (bytes : Z) : arg_type := at_int 0 (2 ^ (8 * bytes) - 1).
Definition optional (name : string) (t : arg_type) : param := mk_param (lit name) true t.
Definition required (name : string) (t : arg_type) : param := mk_param (lit name) false t.

Definition page_params : list param :=
  [optional "first" (t_uint 4); optional "last" (t_uint 4); optional "before" at_string; optional "after" at_string].
Definition range_params (t : arg_type) : list param :=
  [optional "gt" t; optional "ge" t; optional "lt" t; optional "le" t] ++ page_params.

(** The arguments of a method with [page_params] alone, and with a range. *)
Definition page_args {K} (ge le : option K) (args : list (option arg)) : @Connection.args K :=
  Connection.mk_args None ge None le (int_at args 0) (int_at args 1) (string_at args 2) (string_at args 3).
Definition range_args (args : list (option arg)) : @Connection.args Z :=
  Connection.mk_args (int_at args 0) (int_at args 1) (int_at args 2) (int_at args 3)
    (int_at args 4) (int_at args 5) (string_at args 6) (string_at args 7).

Section bounds.
Context {K : Type}.
Import Connection.
(** Bounds on a part of the key: each becomes a bound on keys. *)
Definition key_args (to_gt to_ge to_lt to_le : Z -> K) (ge_default le_default : option K) (a : @args Z) : @args K :=
  mk_args (to_gt <$> gt a)
    (match ge a with Some t => Some (to_ge t) | None => ge_default end)
    (to_lt <$> lt a)
    (match le a with Some t => Some (to_le t) | None => le_default end)
    (first a) (last a) (before a) (after a).
End bounds.
(** Keys [{time, x}], with [x] up to [max]. *)
Definition created_args (max : Z) : @Connection.args Z -> @Connection.args (list Z) :=
  key_args (fun t => [t; max]) (fun t => [t; 0]) (fun t => [t; 0]) (fun t => [t; max]) None None.
(** Keys [{owner, time, x}] of one owner. *)
Definition owned_args (owner max : Z) : @Connection.args Z -> @Connection.args (list Z) :=
  key_args (fun t => [owner; t; max]) (fun t => [owner; t; 0]) (fun t => [owner; t; 0]) (fun t => [owner; t; max])
    (Some [owner; 0; 0]) (Some [owner; Time.block_max; max]).
(** Keys [{time, round}] of one election. *)
Definition rounds_args (time : Z) : @Connection.args Z -> @Connection.args (list Z) :=
  key_args (fun r => [time; r]) (fun r => [time; r]) (fun r => [time; r]) (fun r => [time; r])
    (Some [time; 0]) (Some [time; 2 ^ 8 - 1]).

Definition public_key_min_k1 : public_key := Crypto.key_k1 (replicate 33 0).
Definition public_key_max_r1 : public_key := Crypto.key_r1 (replicate 33 0xff).
Definition sessions_args : @Connection.args Z -> @Connection.args (Z * public_key) :=
  key_args (fun a => (a, public_key_max_r1)) (fun a => (a, public_key_min_k1)) (fun a => (a, public_key_min_k1))
    (fun a => (a, public_key_max_r1)) None None.

Definition uint64_max : Z := 2 ^ 64 - 1.
Definition uint8_max : Z := 2 ^ 8 - 1.

(** ** Keys of the indices *)

Definition by_time_key (r : Z * Election.object) : Z := Election.time r.2.
Definition history_key (r : Z * History.object) : list Z := [History.account r.2; History.time r.2; r.1].
Definition member_created_key (r : Z * Member.object) : list Z := [Member.createdAt r.2; Member.account r.2].
Definition session_key (r : Z * Session.object) : Z * public_key := (Session.eden_account r.2, Session.key r.2).
Definition induction_created_key (r : Z * Induction.object) : list Z := [Induction.createdAt r.2; Induction.id r.2].
Definition round_key (r : Z * Round.object) : list Z := [Round.election_time r.2; Round.round r.2].
Definition group_round_key (r : Z * Group.object) : list Z := [Group.election_time r.2; Group.round r.2; r.1].
Definition vote_key (r : Z * Vote.object) : list Z := [Vote.voter r.2; Vote.election_time r.2; Vote.round r.2].
Definition vote_group_key (r : Z * Vote.object) : list Z := [Vote.group_id r.2; Vote.voter r.2].
Definition fund_key (r : Z * Fund.object) : list Z := [Fund.owner r.2; Fund.distribution_time r.2; Fund.rank r.2].
Definition nft_member_key (r : Z * NftRow.object) : list Z := [NftRow.member r.2; NftRow.createdAt r.2; NftRow.assetId r.2].
Definition nft_owner_key (r : Z * NftRow.object) : list Z := [NftRow.owner r.2; NftRow.createdAt r.2; NftRow.assetId r.2].

(** [make_connection] on an index of a table. *)
Definition connect {K V} (c : codec K) (ltb : K -> K -> bool) (key : Z * V -> K) (to_node : Z * V -> obj)
    (t : table V) (a : @Connection.args K) : result values :=
  r ← Connection.make_connection c ltb key to_node (lower_bound ltb key) (upper_bound ltb key) a (index ltb key t);
  Ok (v_object (o_Connection r)).

(** [get<by_id>] *)
Definition get_by_id {V} (t : table V) (i : Z) : result (Z * V) :=
  r ← some_or (Check "missing record") (rows t !! i); Ok (i, r).

(** ** Members *)

Definition field (name : string) (v : values) : list ascii * member obj := (lit name, m_field (Ok v)).
(** A method without arguments, and with some. *)
Definition getter (name : string) (v : result values) : list ascii * member obj := (lit name, m_method [] (fun _ => v)).
Definition method (name : string) (ps : list param) (f : list (option arg) -> result values) : list ascii * member obj :=
  (lit name, m_method ps f).

Definition v_optional {A} (f : A -> values) (o : option A) : values :=
  match o with Some a => v_some (f a) | None => v_null end.

Definition history_desc_str (x : history_desc) : string :=
  match x with
  | deposit => "deposit" | withdraw => "withdraw" | external_spend => "external spend"
  | manual_transfer => "manual transfer" | fund_transfer => "fund transfer" | user_transfer => "user transfer"
  | fund => "fund" | donate => "donate" | inductdonate => "inductdonate"
  | reserve_distribution => "reserve distribution" | return_excess_distribution => "return excess distribution"
  | return_distribution => "return distribution"
  end.

Section query.
Context (utf8 : list ascii -> option nat).

(** Values that are JSON at once ([use_json_string_for_gql], strings,
    integers by their size in bytes, booleans). *)
Definition j_chars (s : list ascii) : values := v_json (string_to_json utf8 s).
Definition j_string (s : string) : values := j_chars (lit s).
Definition j_bool (b : bool) : values := v_json (bool_to_json b).
Definition j_int (size z : Z) : values := v_json (int_to_json size z).
Definition j_name (z : Z) : values := j_chars (Name.name_to_chars z).
(** [time_point_include_z_stream] *)
Definition j_time_point (t : Z) : values := j_chars (microseconds_to_str t ++ lit "Z").
Definition j_time (slot : Z) : values := j_time_point (Time.to_time_point slot).
Definition j_asset (a : asset) : values := j_chars (asset_to_string a).
Definition j_checksum (c : Z) : values := v_json (hex_to_json (Crypto.extract_as_byte_array c)).
(** [unsigned char byte = data[i]] *)
Definition j_bytes (bs : list Z) : values := v_json (hex_to_json (wrap 8 <$> bs)).
Definition j_key (k : public_key) : result values := s ← KeyText.public_key_to_string k; Ok (j_chars s).

(** *** The log *)

Definition creator_action_members (c : creator_action) : list (list ascii * member obj) :=
  [field "seq" (j_int 8 (creator_seq c)); field "receiver" (j_name (creator_receiver c))].
Definition action_members (a : action) : list (list ascii * member obj) :=
  [field "seq" (j_int 8 (seq a)); field "firstReceiver" (j_name (firstReceiver a));
   field "receiver" (j_name (receiver a)); field "name" (j_name (name a));
   field "creatorAction" (v_optional (fun c => v_object (o_creator_action c)) (creatorAction a));
   field "hexData" (j_bytes (hexData a))].
Definition transaction_members (t : transaction) : list (list ascii * member obj) :=
  [field "id" (j_checksum (id t)); field "actions" (v_list ((fun a => v_object (o_action a)) <$> actions t))].
Definition eosio_block_members (b : BlockLog.eosio_block transaction) : list (list ascii * member obj) :=
  [field "num" (j_int 4 (BlockLog.eosio_num b)); field "id" (j_checksum (BlockLog.eosio_id b));
   field "previous" (j_checksum (BlockLog.eosio_previous b)); field "timestamp" (j_time_point (BlockLog.timestamp b));
   field "transactions" (v_list ((fun t => v_object (o_transaction t)) <$> BlockLog.transactions b))].
Definition block_members (b : block) : list (list ascii * member obj) :=
  [field "id" (j_checksum (BlockLog.id b)); field "num" (j_int 4 (BlockLog.num b));
   field "previous" (j_checksum (BlockLog.previous b)); field "eosioBlock" (v_object (o_eosio_block (BlockLog.eosioBlock b)))].

Context (log : block_log).
Definition block_ptr : option block -> values := v_optional (fun b => v_object (o_block_with_id b)).
Definition blocks (a : @Connection.args Z) : result values :=
  r ← Connection.make_connection (uint 4) Z.ltb BlockLog.num o_block_with_id
        BlockLog.lower_bound_by_num BlockLog.upper_bound_by_num a (BlockLog.blocks log);
  Ok (v_object (o_Connection r)).
Definition num_at (args : list (option arg)) : Z := default 0 (int_at args 0).
Definition BlockLog_members : list (list ascii * member obj) :=
  [method "blocks" (range_params (t_uint 4)) (fun args => blocks (range_args args));
   getter "head" (Ok (block_ptr (BlockLog.head (BlockLog.blocks log))));
   getter "irreversible" (Ok (block_ptr (BlockLog.block_by_num (BlockLog.blocks log) (BlockLog.irreversible log))));
   method "blockByNum" [required "num" (t_uint 4)]
     (fun args => Ok (block_ptr (BlockLog.block_by_num (BlockLog.blocks log) (num_at args))));
   method "blockByEosioNum" [required "num" (t_uint 4)]
     (fun args => Ok (block_ptr (BlockLog.block_by_eosio_num (BlockLog.blocks log) (num_at args))))].

(** *** Balances, keys and members *)

Context (d : db).

Definition get_balance (account : Z) : obj := o_Balance account (get_ptr (balances d) (by_pk [account])).
Definition get_encryption_key (account : Z) : obj := o_EncryptionKey account (get_ptr (encryption_keys d) (by_pk [account])).
Definition get_member (account : Z) (allow_lsb : bool) : option obj :=
  match get_ptr (members d) (by_pk [account]) with
  | Some r => Some (o_Member account (Some r))
  | None =>
      if negb (account =? 0) && ((Z.land account 0x0f =? 0) || allow_lsb) then Some (o_Member account None)
      else None
  end.
Definition get_members (v : list Z) : list obj := omap (fun n => get_member n false) v.

Definition v_member (account : Z) : values := v_optional v_object (get_member account false).
(** [*get_member(_account, true)] *)
Definition account_member (account : Z) : result values :=
  m ← some_or (Trap "dereferenced an empty optional") (get_member account true); Ok (v_object m).

Definition Balance_history (account : Z) : @Connection.args Z -> result values :=
  fun a => connect (tuple_codec [8; 4; 8]%nat) tuple_ltb history_key o_BalanceHistory (balance_history d)
             (owned_args account uint64_max a).
Definition Balance_members (account : Z) (row : option Balance.object) : list (list ascii * member obj) :=
  [getter "account" (account_member account);
   getter "amount" (Ok (v_optional (fun r => j_asset (Balance.amount r)) row));
   method "history" (range_params t_time) (fun args => Balance_history account (range_args args))].
Definition BalanceHistory_members (r : History.object) : list (list ascii * member obj) :=
  [getter "time" (Ok (j_time (History.time r)));
   getter "balance" (Ok (v_object (get_balance (History.account r))));
   getter "delta" (Ok (j_asset (History.delta r)));
   getter "newAmount" (Ok (j_asset (History.new_amount r)));
   getter "otherBalance" (Ok (v_object (get_balance (History.other_account r))));
   getter "description" (Ok (j_string (history_desc_str (History.description r))))].

Definition encryptionKey (row : option EncryptionKey.object) : result values :=
  match row with
  | Some r => s ← KeyText.public_key_to_string (EncryptionKey.encryptionKey r); Ok (v_some (j_chars s))
  | None => Ok v_null
  end.
Definition EncryptionKey_members (account : Z) (row : option EncryptionKey.object) : list (list ascii * member obj) :=
  [getter "account" (account_member account); getter "encryptionKey" (encryptionKey row)].

Definition new_member_profile_members (p : Inductions.new_member_profile) : list (list ascii * member obj) :=
  [field "name" (j_string (Inductions.name p)); field "img" (j_string (Inductions.img p));
   field "bio" (j_string (Inductions.bio p)); field "social" (j_string (Inductions.social p));
   field "attributions" (j_string (Inductions.attributions p))].

Definition Member_nfts (account : Z) : @Connection.args Z -> result values :=
  fun a => connect (tuple_codec [8; 4; 8]%nat) tuple_ltb nft_member_key (fun r => o_Nft r.2) (nfts d)
             (owned_args account uint64_max a).
Definition Member_collectedNfts (account : Z) : @Connection.args Z -> result values :=
  fun a => connect (tuple_codec [8; 4; 8]%nat) tuple_ltb nft_owner_key (fun r => o_Nft r.2) (nfts d)
             (owned_args account uint64_max a).
Definition Member_elections (account : Z) : @Connection.args Z -> result values :=
  connect (uint 4) Z.ltb by_time_key (fun r => o_MemberElection account r.2) (elections d).
Definition Member_distributionFunds (account : Z) : @Connection.args Z -> result values :=
  fun a => connect (tuple_codec [8; 4; 1]%nat) tuple_ltb fund_key (fun r => o_DistributionFund r.2) (distribution_funds d)
             (owned_args account uint8_max a).

(** [createdAt] reads the row without a test. *)
Definition Member_members (account : Z) (row : option Member.object) : list (list ascii * member obj) :=
  [field "account" (j_name account);
   getter "balance" (Ok (v_object (get_balance account)));
   getter "inviter" (Ok (v_member (match row with Some r => Member.inviter r | None => Name.n "" end)));
   getter "inductionWitnesses"
     (Ok (v_optional (fun r => v_list (v_object <$> get_members (Member.inductionWitnesses r))) row));
   getter "profile" (Ok (v_optional (fun r => v_object (o_new_member_profile (Member.profile r))) row));
   getter "inductionVideo" (Ok (v_optional (fun r => j_string (Member.inductionVideo r)) row));
   getter "participating" (Ok (j_bool (match row with Some r => Member.participating r | None => false end)));
   getter "createdAt" (r ← some_or (Trap "null pointer") row; Ok (j_time (Member.createdAt r)));
   getter "encryptionKey" (encryptionKey (get_ptr (encryption_keys d) (by_pk [account])));
   method "nfts" (range_params t_time) (fun args => Member_nfts account (range_args args));
   method "collectedNfts" (range_params t_time) (fun args => Member_collectedNfts account (range_args args));
   method "elections" (range_params t_time) (fun args => Member_elections account (range_args args));
   method "distributionFunds" (range_params t_time) (fun args => Member_distributionFunds account (range_args args))].

Definition Session_members (r : Session.object) : list (list ascii * member obj) :=
  [getter "member" (Ok (v_member (Session.eden_account r)));
   getter "key" (j_key (Session.key r));
   getter "expiration" (Ok (j_time (Session.expiration r)));
   getter "description" (Ok (j_string (Session.description r)))].

(** *** Inductions and status *)

Definition InductionEndorsingMemberStatus_members (e : Z * bool) : list (list ascii * member obj) :=
  [getter "member" (Ok (v_member e.1)); field "endorsed" (j_bool e.2)].
Definition Induction_members (r : Induction.object) : list (list ascii * member obj) :=
  [field "id" (j_int 8 (Induction.id r));
   getter "inviteeAccount" (Ok (j_name (Induction.invitee r)));
   getter "inviter" (Ok (v_object (o_InductionEndorsingMemberStatus (Induction.inviter r))));
   getter "witnesses" (Ok (v_list ((fun w => v_object (o_InductionEndorsingMemberStatus w)) <$> Induction.witnesses r)));
   getter "profile" (Ok (v_object (o_new_member_profile (Induction.profile r))));
   getter "video" (Ok (j_string (Induction.video r)));
   getter "createdAt" (Ok (j_time (Induction.createdAt r)))].
Definition Status_members (r : Status.object) : list (list ascii * member obj) :=
  [getter "active" (Ok (j_bool (Status.active r)));
   getter "community" (Ok (j_string (Status.community r)));
   getter "initialMembers" (Ok (v_list (v_object <$> get_members (Status.initialMembers r))));
   getter "genesisVideo" (Ok (j_string (Status.genesisVideo r)));
   getter "auctionDuration" (Ok (j_int 4 (Status.auctionDuration r)));
   getter "memo" (Ok (j_string (Status.memo r)));
   getter "nextElection" (Ok (j_time (Status.nextElection r)));
   getter "electionThreshold" (Ok (j_int 2 (Status.electionThreshold r)));
   getter "numElectionParticipants" (Ok (j_int 2 (Status.numElectionParticipants r)))].

(** *** Elections *)

Definition Election_rounds (r : Election.object) (a : @Connection.args Z) : result values :=
  connect (tuple_codec [4; 1]%nat) tuple_ltb round_key (fun r => o_ElectionRound r.2) (election_rounds d)
    (rounds_args (Election.time r) a).
Definition finalGroup (r : Election.object) : result values :=
  match Election.final_group_id r with
  | Some i => g ← get_by_id (election_groups d) i; Ok (v_some (v_object (o_ElectionGroup g)))
  | None => Ok v_null
  end.
Definition Election_members (r : Election.object) : list (list ascii * member obj) :=
  [getter "time" (Ok (j_time (Election.time r)));
   getter "seeding" (Ok (j_bool (Election.seeding r)));
   getter "resultsAvailable" (Ok (j_bool (Election.results_available r)));
   getter "seedingStartTime" (Ok (v_optional j_time (Election.seeding_start_time r)));
   getter "seedingEndTime" (Ok (v_optional j_time (Election.seeding_end_time r)));
   getter "seed" (Ok (v_optional j_checksum (Election.seed r)));
   getter "numRounds" (Ok (v_optional (j_int 1) (Election.num_rounds r)));
   getter "numParticipants" (Ok (v_optional (j_int 2) (Election.num_participants r)));
   method "rounds" (range_params (t_uint 1)) (fun args => Election_rounds r (range_args args));
   getter "finalGroup" (finalGroup r)].

Definition MemberElection_votes (account : Z) (r : Election.object) (args : list (option arg)) : result values :=
  connect (tuple_codec [8; 4; 1]%nat) tuple_ltb vote_key (fun r => o_Vote r.2) (votes d)
    (page_args (Some [account; Election.time r; 0]) (Some [account; Election.time r; uint8_max]) args).
Definition MemberElection_members (account : Z) (r : Election.object) : list (list ascii * member obj) :=
  [getter "time" (Ok (j_time (Election.time r)));
   method "votes" page_params (MemberElection_votes account r)].

(** [get<by_pk>(db.elections, time)] *)
Definition election_at (time : Z) : result values :=
  e ← get (elections d) (by_pk [time]); Ok (v_object (o_Election e.2)).
Definition ElectionRound_groups (r : Round.object) (args : list (option arg)) : result values :=
  connect (tuple_codec [4; 1; 8]%nat) tuple_ltb group_round_key o_ElectionGroup (election_groups d)
    (page_args (Some [Round.election_time r; Round.round r; 0])
       (Some [Round.election_time r; Round.round r; uint64_max]) args).
Definition ElectionRound_members (r : Round.object) : list (list ascii * member obj) :=
  [getter "election" (election_at (Round.election_time r));
   getter "round" (Ok (j_int 1 (Round.round r)));
   getter "numParticipants" (Ok (j_int 2 (Round.num_participants r)));
   getter "numGroups" (Ok (j_int 2 (Round.num_groups r)));
   getter "requiresVoting" (Ok (j_bool (Round.requires_voting r)));
   getter "groupsAvailable" (Ok (j_bool (Round.groups_available r)));
   getter "votingStarted" (Ok (j_bool (Round.voting_started r)));
   getter "votingFinished" (Ok (j_bool (Round.voting_finished r)));
   getter "resultsAvailable" (Ok (j_bool (Round.results_available r)));
   getter "votingBegin" (Ok (v_optional j_time (Round.voting_begin r)));
   getter "votingEnd" (Ok (v_optional j_time (Round.voting_end r)));
   method "groups" page_params (ElectionRound_groups r)].

(** [ElectionGroup::votes]: from the first vote of the group while the votes
    are of the group. *)
Definition group_votes (group_id : Z) : list (Z * Vote.object) :=
  let l := index tuple_ltb vote_group_key (votes d) in
  take_while (fun r => Vote.group_id r.2 =? group_id) (drop (lower_bound tuple_ltb vote_group_key l [group_id; 0]) l).
Definition ElectionGroup_members (g : Z * Group.object) : list (list ascii * member obj) :=
  [getter "election" (election_at (Group.election_time g.2));
   getter "round"
     (r ← get (election_rounds d) (by_round [Group.election_time g.2; Group.round g.2]); Ok (v_object (o_ElectionRound r.2)));
   getter "winner" (Ok (v_member (Group.winner g.2)));
   getter "votes" (Ok (v_list ((fun r => v_object (o_Vote r.2)) <$> group_votes g.1)))].
Definition Vote_members (r : Vote.object) : list (list ascii * member obj) :=
  [getter "voter" (Ok (v_member (Vote.voter r)));
   getter "candidate" (Ok (v_member (Vote.candidate r)));
   getter "video" (Ok (j_string (Vote.video r)));
   getter "group" (g ← get_by_id (election_groups d) (Vote.group_id r); Ok (v_object (o_ElectionGroup g)))].

(** *** Distributions and NFTs *)

Definition Distribution_members (r : Distribution.object) : list (list ascii * member obj) :=
  [getter "time" (Ok (j_time (Distribution.time r)));
   getter "started" (Ok (j_bool (Distribution.started r)));
   getter "targetAmount" (Ok (v_optional j_asset (Distribution.target_amount r)));
   getter "targetRankDistribution"
     (Ok (v_optional (fun l => v_list (j_asset <$> l)) (Distribution.target_rank_distribution r)))].
Definition DistributionFund_members (r : Fund.object) : list (list ascii * member obj) :=
  [getter "owner" (Ok (v_member (Fund.owner r)));
   getter "distributionTime" (Ok (j_time (Fund.distribution_time r)));
   getter "rank" (Ok (j_int 1 (Fund.rank r)));
   getter "initialBalance" (Ok (j_asset (Fund.initial_balance r)));
   getter "currentBalance" (Ok (j_asset (Fund.current_balance r)))].
Definition Nft_members (r : NftRow.object) : list (list ascii * member obj) :=
  [getter "member" (Ok (v_member (NftRow.member r)));
   getter "owner" (Ok (v_member (NftRow.owner r)));
   getter "templateId" (Ok (j_int 4 (NftRow.templateId r)));
   getter "assetId" (Ok (j_int 8 (NftRow.assetId r)));
   getter "templateMint" (Ok (j_int 4 (NftRow.templateMint r)));
   getter "createdAt" (Ok (j_time (NftRow.createdAt r)))].

(** *** Pages *)

Definition Connection_members (c : @Connection.connection obj) : list (list ascii * member obj) :=
  [field "edges" (v_list ((fun e => v_object (o_Edge e.1 e.2)) <$> Connection.edges c));
   field "pageInfo" (v_object (o_PageInfo (Connection.hasPreviousPage c) (Connection.hasNextPage c)
                                 (Connection.startCursor c) (Connection.endCursor c)))].
Definition Edge_members (node : obj) (cursor : string) : list (list ascii * member obj) :=
  [field "node" (v_object node); field "cursor" (j_string cursor)].
Definition PageInfo_members (prev next : bool) (start_ end_ : string) : list (list ascii * member obj) :=
  [field "hasPreviousPage" (j_bool prev); field "hasNextPage" (j_bool next);
   field "startCursor" (j_string start_); field "endCursor" (j_string end_)].

(** *** The root *)

Context {accounts : MicroChain.Node}.

Definition Query_status : values :=
  match map_to_list (rows (status d)) with
  | [p] => v_some (v_object (o_Status p.2))
  | _ => v_null
  end.
Definition Query_balances : @Connection.args Z -> result values :=
  connect (uint 8) Z.ltb (fun r => Balance.account r.2) (fun r => o_Balance (Balance.account r.2) (Some r.2)) (balances d).
Definition Query_encryptionKeys : @Connection.args Z -> result values :=
  connect (uint 8) Z.ltb (fun r => EncryptionKey.account r.2)
    (fun r => o_EncryptionKey (EncryptionKey.account r.2) (Some r.2)) (encryption_keys d).
Definition Query_members_ : @Connection.args Z -> result values :=
  connect (uint 8) Z.ltb (fun r => Member.account r.2) (fun r => o_Member (Member.account r.2) (Some r.2)) (members d).
Definition Query_membersByCreatedAt (a : @Connection.args Z) : result values :=
  connect (tuple_codec [4; 8]%nat) tuple_ltb member_created_key
    (fun r => o_Member (Member.account r.2) (Some r.2)) (members d) (created_args uint64_max a).
Definition Query_sessions (a : @Connection.args Z) : result values :=
  connect session_codec session_ltb session_key (fun r => o_Session r.2) (sessions d) (sessions_args a).
Definition Query_inductions : @Connection.args Z -> result values :=
  connect (uint 8) Z.ltb (fun r => Induction.id r.2) (fun r => o_Induction r.2) (inductions d).
Definition Query_inductionsByCreatedAt (a : @Connection.args Z) : result values :=
  connect (tuple_codec [4; 8]%nat) tuple_ltb induction_created_key (fun r => o_Induction r.2) (inductions d)
    (created_args uint64_max a).
Definition Query_elections : @Connection.args Z -> result values :=
  connect (uint 4) Z.ltb by_time_key (fun r => o_Election r.2) (elections d).
Definition Query_distributions : @Connection.args Z -> result values :=
  connect (uint 4) Z.ltb (fun r => Distribution.time r.2) (fun r => o_Distribution r.2) (distributions d).

Definition Query_members : list (list ascii * member obj) :=
  [field "blockLog" (v_object o_BlockLog);
   getter "status" (Ok Query_status);
   getter "masterPool" (Ok (v_object (get_balance MicroChain.master_pool)));
   getter "distributionFund" (Ok (v_object (get_balance MicroChain.distribution_fund)));
   method "balances" (range_params t_name) (fun args => Query_balances (range_args args));
   method "encryptionKeys" (range_params t_name) (fun args => Query_encryptionKeys (range_args args));
   method "members" (range_params t_name) (fun args => Query_members_ (range_args args));
   method "membersByCreatedAt" (range_params t_time) (fun args => Query_membersByCreatedAt (range_args args));
   method "sessions" (range_params t_name) (fun args => Query_sessions (range_args args));
   method "inductions" (range_params (t_uint 8)) (fun args => Query_inductions (range_args args));
   method "inductionsByCreatedAt" (range_params t_time) (fun args => Query_inductionsByCreatedAt (range_args args));
   method "elections" (range_params t_time) (fun args => Query_elections (range_args args));
   method "distributions" (range_params t_time) (fun args => Query_distributions (range_args args))].

Definition members_of (o : obj) : list (list ascii * member obj) :=
  match o with
  | o_creator_action c => creator_action_members c
  | o_action a => action_members a
  | o_transaction t => transaction_members t
  | o_eosio_block b => eosio_block_members b
  | o_block_with_id b => block_members b
  | o_BlockLog => BlockLog_members
  | o_Balance a r => Balance_members a r
  | o_BalanceHistory r => BalanceHistory_members r.2
  | o_EncryptionKey a r => EncryptionKey_members a r
  | o_Member a r => Member_members a r
  | o_new_member_profile p => new_member_profile_members p
  | o_Session r => Session_members r
  | o_InductionEndorsingMemberStatus e => InductionEndorsingMemberStatus_members e
  | o_Induction r => Induction_members r
  | o_Status r => Status_members r
  | o_Election r => Election_members r
  | o_MemberElection a r => MemberElection_members a r
  | o_ElectionRound r => ElectionRound_members r
  | o_ElectionGroup g => ElectionGroup_members g
  | o_Vote r => Vote_members r
  | o_Distribution r => Distribution_members r
  | o_DistributionFund r => DistributionFund_members r
  | o_Nft r => Nft_members r
  | o_Connection c => Connection_members c
  | o_Edge n c => Edge_members n c
  | o_PageInfo p n s e => PageInfo_members p n s e
  | o_Query => Query_members
  end.

(** [query], the exported function. *)
Definition query (text variables : list ascii) : outcome (list ascii) :=
  gql_query utf8 members_of (v_object o_Query) text variables.
End query.

End MicroQuery.
