(* ===== verification/MicroQueryRun.v ===== *)
(** What the history node's answers say: a page of the rows of an account holds
    exactly the rows of that account inside the bounds, so that the movements
    it lists add up to the balance shown; every answer is JSON; and what a
    client has to know of the other answers. *)
From S2P Require Import Prelude Name Time Asset Crypto Binary EventWire Text Json GraphQL GraphQLRun.
From S2P Require Import BlockLog Subchain Connection MicroTables MicroChain Ledger MultiIndex MicroLog MicroWf MicroLedger OrderedIndex MicroQuery.
From Stdlib Require Import Ascii ZifyBool.
Import Binary EventWire Text Json GraphQL GraphQLRun MicroTables MicroWf MicroLedger OrderedIndex MicroQuery.
Open Scope string_scope.
Open Scope list_scope.
Open Scope Z_scope.

Module MicroQueryRun.

Lemma filter_same {A} (p q : A -> bool) (l : list A) : (forall x, x ∈ l -> p x = q x) -> filter p l = filter q l.
Proof.
  intros H. induction l as [|x l IH]; [done|]. rewrite !filter_cons, IH by (intros y Hy; apply H; by right).
  by rewrite (H x) by left.
Qed.

(** ** The rows of one owner *)

Definition arg_ok (hi : Z) (o : option Z) : Prop := match o with Some z => 0 <= z <= hi | None => True end.
(** Bounds that their type holds. *)
Definition range_ok (hi : Z) (a : @Connection.args Z) : Prop :=
  arg_ok hi (Connection.gt a) /\ arg_ok hi (Connection.ge a) /\ arg_ok hi (Connection.lt a) /\ arg_ok hi (Connection.le a).

Section owned.
Context {V : Type} (key : Z * V -> list Z) (owner_of time_of last_of : Z * V -> Z) (size : nat).
Context (Hkey : forall r, key r = [owner_of r; time_of r; last_of r]).
Abbreviation max := (256 ^ Z.of_nat size - 1).

Lemma owned_selects owner a r : tuple_ok [8; 4; size]%nat (key r) ->
  Connection.selects tuple_ltb key (owned_args owner max a) r
  = (owner_of r =? owner) && Connection.selects Z.ltb time_of a r.
Proof.
  rewrite Hkey. intros Hr. inversion Hr as [|? ? ? ? Ho Hr1]; subst. inversion Hr1 as [|? ? ? ? Ht Hr2]; subst.
  inversion Hr2 as [|? ? ? ? Hl _]; subst. unfold uint_ok in *. cbn in Ho, Ht.
  unfold Connection.selects, Connection.above, Connection.not_below, Connection.below, Connection.not_above.
  rewrite Hkey. unfold owned_args, key_args, tuple_ltb, Time.block_max.
  cbn [Connection.gt Connection.ge Connection.lt Connection.le].
  destruct (Connection.gt a), (Connection.ge a), (Connection.lt a), (Connection.le a); cbn; lia.
Qed.
Lemma owned_args_ok owner a : 0 <= owner < 2 ^ 64 -> range_ok Time.block_max a ->
  Connection.args_ok (tuple_ok [8; 4; size]%nat) (owned_args owner max a).
Proof.
  intros Ho (H1 & H2 & H3 & H4). unfold arg_ok, Time.block_max in *.
  assert (0 < 256 ^ Z.of_nat size) by (apply Z.pow_pos_nonneg; lia).
  assert (forall t x, 0 <= t <= 2 ^ 32 - 1 -> 0 <= x < 256 ^ Z.of_nat size -> tuple_ok [8; 4; size]%nat [owner; t; x]) as Hk.
  { intros t x Ht Hx. repeat constructor; unfold uint_ok; lia. }
  unfold Connection.args_ok, Connection.bound_ok, owned_args, key_args.
  cbn [Connection.gt Connection.ge Connection.lt Connection.le].
  destruct (Connection.gt a), (Connection.ge a), (Connection.lt a), (Connection.le a); cbn;
    repeat split; apply Hk; unfold Time.block_max; lia.
Qed.

(** Following the cursors from page to page gives the rows of the owner inside
    the bounds, each once. *)
Lemma owned_pages (to_node : Z * V -> obj) t owner a n :
  unique_keys key t -> (forall i r, rows t !! i = Some r -> tuple_ok [8; 4; size]%nat (key (i, r))) ->
  0 <= owner < 2 ^ 64 -> range_ok Time.block_max a -> 0 < n < 2 ^ 32 ->
  let l := index tuple_ltb key t in
  Connection.follow (tuple_codec [8; 4; size]%nat) tuple_ltb key to_node (lower_bound tuple_ltb key)
    (upper_bound tuple_ltb key) (S (length l)) (owned_args owner max a) l n None
  = Ok (Some (to_node <$> filter (fun r => (owner_of r =? owner) && Connection.selects Z.ltb time_of a r) l)).
Proof.
  intros Hu Hv Ho Ha Hn l.
  rewrite (Connection.follow_range (tuple_codec [8; 4; size]%nat) tuple_ltb key to_node _ _
    (tuple_ok [8; 4; size]%nat) l (index_container tuple_ltb key t _ Hu Hv)); [|by apply owned_args_ok|done].
  do 3 f_equal. apply filter_same. intros [i r] Hi. rewrite owned_selects; [done|].
  apply Hv. by apply (elem_of_ordered tuple_ltb key).
Qed.
End owned.

(** ** A client that follows the cursors *)

(** Asks a method for pages of [n] objects, each after the last cursor, until
    there is no next page. *)
Fixpoint pages (fuel : nat) (ask : @Connection.args Z -> result values) (a : @Connection.args Z) (n : Z)
    (cursor : option string) : result (option (list obj)) :=
  match fuel with
  | O => Ok None
  | S fuel =>
      v ← ask (Connection.mk_args (Connection.gt a) (Connection.ge a) (Connection.lt a) (Connection.le a)
                 (Some n) None None cursor);
      match v with
      | v_object (o_Connection c) =>
          if Connection.hasNextPage c then
            rest ← pages fuel ask a n (Some (Connection.endCursor c));
            Ok (option_map (app (Connection.edges c).*1) rest)
          else Ok (Some (Connection.edges c).*1)
      | _ => Err (Trap "not a connection")
      end
  end.
Lemma pages_follow {V K} (c : codec K) ltb (key : Z * V -> K) to_node t f1 f2 f3 f4 g1 g2 a fuel n cursor :
  let f := key_args f1 f2 f3 f4 g1 g2 in
  pages fuel (fun a => connect c ltb key to_node t (f a)) a n cursor
  = Connection.follow c ltb key to_node (lower_bound ltb key) (upper_bound ltb key) fuel (f a) (index ltb key t) n cursor.
Proof.
  intros f. revert cursor. induction fuel as [|fuel IH]; intros cursor; [done|]. cbn [pages Connection.follow].
  unfold connect at 2.
  change (f (Connection.mk_args (Connection.gt a) (Connection.ge a) (Connection.lt a) (Connection.le a) (Some n) None None cursor))
    with (Connection.mk_args (Connection.gt (f a)) (Connection.ge (f a)) (Connection.lt (f a)) (Connection.le (f a))
            (Some n) None None cursor).
  destruct (Connection.make_connection _ _ _ _ _ _ _ _) as [r|e]; [|done]. cbn [mbind result_bind].
  destruct (Connection.hasNextPage r); [|done]. by rewrite IH.
Qed.

(** ** Keys that are unique *)

Lemma wf_unique_keys {V} `{Keyed V} (key : Z * V -> list Z) (tag : list Z -> MicroTables.key) (t : table V) :
  (forall i v, tag (key (i, v)) ∈ keys_of i v) -> Inj eq eq tag -> wf_table t -> unique_keys key t.
Proof.
  intros Hk Hi [_ Hu] i j x y Hx Hy He. apply (Hu i j x y (tag (key (i, x))) Hx Hy); [apply Hk|]. rewrite He. apply Hk.
Qed.

(** The fields of the rows fit their types. *)
Record rows_fit (d : db) : Prop := {
  fit_history : forall i r, rows (balance_history d) !! i = Some r -> tuple_ok [8; 4; 8]%nat (history_key (i, r));
  fit_funds : forall i r, rows (distribution_funds d) !! i = Some r -> tuple_ok [8; 4; 1]%nat (fund_key (i, r));
  fit_member : forall i r, rows (nfts d) !! i = Some r -> tuple_ok [8; 4; 8]%nat (nft_member_key (i, r));
  fit_owner : forall i r, rows (nfts d) !! i = Some r -> tuple_ok [8; 4; 8]%nat (nft_owner_key (i, r))
}.
Fixpoint tuple_okb (sizes : list nat) (k : list Z) : bool :=
  match sizes, k with
  | [], [] => true
  | n :: sizes, z :: k => (0 <=? z) && (z <? 256 ^ Z.of_nat n) && tuple_okb sizes k
  | _, _ => false
  end.
Lemma rows_check {V} sizes (key : Z * V -> list Z) (t : table V) :
  forallb (fun r => tuple_okb sizes (key r)) (map_to_list (rows t)) = true ->
  forall i r, rows t !! i = Some r -> tuple_ok sizes (key (i, r)).
Proof.
  intros H i r Hr. rewrite forallb_forall in H. specialize (H (i, r)). rewrite <- list_elem_of_In, elem_of_map_to_list in H.
  specialize (H Hr). revert H. generalize (key (i, r)). intros k. revert k.
  induction sizes as [|n sizes IH]; intros [|z k] H; cbn in H; try done; [constructor|].
  apply andb_true_iff in H as [[H1 H2]%andb_true_iff H3]. constructor; [|by apply IH]. unfold uint_ok. lia.
Qed.

(** The rows of an account in a table at times inside bounds, in the order of
    the index. *)
Definition rows_of {V} (key : Z * V -> list Z) (owner_of time_of : Z * V -> Z) (t : table V) (account : Z)
    (a : @Connection.args Z) : list (Z * V) :=
  filter (fun r => (owner_of r =? account) && Connection.selects Z.ltb time_of a r) (index tuple_ltb key t).
(** One page for each row is enough. *)
Definition enough {V} (t : table V) : nat := S (length (map_to_list (rows t))).
Lemma enough_index {V} (key : Z * V -> list Z) t : enough t = S (length (index tuple_ltb key t)).
Proof. unfold enough. by rewrite (index_perm tuple_ltb key). Qed.

Definition history_rows (d : db) : Z -> @Connection.args Z -> list (Z * History.object) :=
  rows_of history_key (fun r => History.account r.2) (fun r => History.time r.2) (balance_history d).

Lemma history_pages d account a n : wf_db d -> rows_fit d -> 0 <= account < 2 ^ 64 -> range_ok Time.block_max a ->
  0 < n < 2 ^ 32 ->
  pages (enough (balance_history d)) (Balance_history d account) a n None
  = Ok (Some (o_BalanceHistory <$> history_rows d account a)).
Proof.
  intros Hw Hf Ho Ha Hn. unfold Balance_history, owned_args. rewrite pages_follow, (enough_index history_key).
  apply (owned_pages history_key _ _ (fun r => r.1) 8); [done| |apply Hf|done..].
  apply (wf_unique_keys _ by_pk); [by left|by intros ?? [=]|apply Hw].
Qed.
(** A client that pages through what an account has - its movements, its
    funds, its NFTs, the NFTs it collected - with pages of any size and any
    bounds in time receives exactly the account's rows inside the bounds, each
    once and in the order of the index: the composed keys leave out nobody's
    row and let in nobody else's. *)
Theorem account_pages (d : db) (account : Z) (a : @Connection.args Z) (n : Z) :
  wf_db d -> rows_fit d -> 0 <= account < 2 ^ 64 -> range_ok Time.block_max a -> 0 < n < 2 ^ 32 ->
  pages (enough (balance_history d)) (Balance_history d account) a n None
    = Ok (Some (o_BalanceHistory <$> history_rows d account a)) /\
  pages (enough (distribution_funds d)) (Member_distributionFunds d account) a n None
    = Ok (Some ((fun r => o_DistributionFund r.2) <$>
        rows_of fund_key (fun r => Fund.owner r.2) (fun r => Fund.distribution_time r.2) (distribution_funds d) account a)) /\
  pages (enough (nfts d)) (Member_nfts d account) a n None
    = Ok (Some ((fun r => o_Nft r.2) <$>
        rows_of nft_member_key (fun r => NftRow.member r.2) (fun r => NftRow.createdAt r.2) (nfts d) account a)) /\
  pages (enough (nfts d)) (Member_collectedNfts d account) a n None
    = Ok (Some ((fun r => o_Nft r.2) <$>
        rows_of nft_owner_key (fun r => NftRow.owner r.2) (fun r => NftRow.createdAt r.2) (nfts d) account a)).
Proof.
  intros Hw Hf Ho Ha Hn. split; [by apply history_pages|].
  unfold Member_distributionFunds, Member_nfts, Member_collectedNfts, owned_args. rewrite !pages_follow.
  rewrite (enough_index fund_key (distribution_funds d)). rewrite (enough_index nft_member_key (nfts d)) at 1.
  rewrite (enough_index nft_owner_key (nfts d)). split; [|split].
  - apply (owned_pages fund_key _ _ (fun r => Fund.rank r.2) 1); [done| |apply Hf|done..].
    apply (wf_unique_keys _ by_pk); [by left|by intros ?? [=]|apply Hw].
  - apply (owned_pages nft_member_key _ _ (fun r => NftRow.assetId r.2) 8); [done| |apply Hf|done..].
    apply (wf_unique_keys _ by_member); [by right; left|by intros ?? [=]|apply Hw].
  - apply (owned_pages nft_owner_key _ _ (fun r => NftRow.assetId r.2) 8); [done| |apply Hf|done..].
    apply (wf_unique_keys _ by_owner); [by right; right; left|by intros ?? [=]|apply Hw].
Qed.

(** Two deposits of one account, which the node moves on to the pool. *)
#[local] Existing Instance MicroLog.demo_accounts.
Definition demo_chain : list MicroLog.block :=
  [BlockLog.mk_block 1 0 (BlockLog.mk_eosio 10 100 99 1600000000000000 (MicroLog.demo_deposit 1 5)) 7;
   BlockLog.mk_block 2 7 (BlockLog.mk_eosio 11 101 100 1600000000500000 (MicroLog.demo_deposit 1 9)) 8].
Definition demo_db : db :=
  match MicroLog.replay_chain demo_chain with Ok d => d | Err _ => empty_db end.
Lemma demo_replay : MicroLog.replay_chain demo_chain = Ok demo_db.
Proof. unfold demo_db. by destruct (MicroLog.replay_chain demo_chain) eqn:E; [|vm_compute in E]. Qed.
Lemma demo_fit : rows_fit demo_db.
Proof. split; apply rows_check; by vm_compute. Qed.

Lemma account_pages_witness :
  exists l, pages (enough (balance_history demo_db)) (Balance_history demo_db (Name.n "alice"))
      (Connection.mk_args None None (Some (Time.block_of_time_point 1600000000500000)) None None None None None) 1 None
    = Ok (Some l) /\ length l = 1%nat.
Proof.
  eexists. split; [|]. 
  - refine (proj1 (account_pages demo_db (Name.n "alice") _ 1 (replay_chain_wf _ _ demo_replay) demo_fit _ _ _));
      [by vm_compute|by vm_compute|done].
  - by vm_compute.
Defined.

(** ** The movements add up *)

Definition list_sum {A} (f : A -> Z) (l : list A) : Z := foldr (fun x s => f x + s) 0 l.
Lemma list_sum_perm {A} (f : A -> Z) l l' : l ≡ₚ l' -> list_sum f l = list_sum f l'.
Proof. unfold list_sum. induction 1; cbn; lia. Qed.
Lemma list_sum_ext {A} (f g : A -> Z) l : (forall x, f x = g x) -> list_sum f l = list_sum g l.
Proof. intros H. unfold list_sum. induction l as [|x l IH]; cbn; [done|]. by rewrite H, IH. Qed.
Lemma list_sum_filter {A} (f : A -> Z) (p : A -> bool) (l : list A) :
  list_sum f (filter p l) = list_sum (fun x => if p x then f x else 0) l.
Proof.
  unfold list_sum. induction l as [|x l IH]; [done|]. rewrite filter_cons. cbn [foldr]. rewrite <- IH.
  destruct (p x); reflexivity.
Qed.
Lemma map_sum_rows {V} (f : V -> Z) (m : gmap Z V) : map_sum f m = list_sum (fun r => f r.2) (map_to_list m).
Proof.
  unfold map_sum, list_sum. rewrite map_fold_foldr. induction (map_to_list m) as [|[i v] l IH]; [done|]. cbn. by rewrite IH.
Qed.
Lemma map_sum_single {V} (f : V -> Z) (m : gmap Z V) i v : m !! i = Some v ->
  (forall j w, m !! j = Some w -> j <> i -> f w = 0) -> map_sum f m = f v.
Proof.
  intros Hi H. rewrite (map_sum_delete f i v m Hi), map_sum_zero; [lia|]. intros j w Hj.
  apply lookup_delete_Some in Hj as [Hne Hj]. by apply (H j).
Qed.

Definition all_times : @Connection.args Z := Connection.mk_args None None None None None None None None.
(** The amount of a balance in a currency; no row is nothing. *)
Definition shown (sym : Z) (row : option Balance.object) : Z :=
  match row with Some b => Ledger.in_symbol sym (Balance.amount b) | None => 0 end.

Lemma held_one d account sym : wf_db d ->
  held (fun x => x =? account) sym d = shown sym (get_ptr (balances d) (by_pk [account])).
Proof.
  intros Hw. destruct Hw as [_ Hb _ _ _ _ _ _ _ _ _ _ _ _]. unfold held, get_ptr, weigh.
  destruct (find (balances d) (by_pk [account])) as [[i b]|] eqn:E; cbn.
  - apply find_Some in E as [Hi Hk]. assert (Balance.account b = account) as Ha.
    { apply list_elem_of_singleton in Hk. by injection Hk. }
    rewrite (map_sum_single _ _ i b Hi); [by rewrite Ha, Z.eqb_refl|].
    intros j w Hj Hne. destruct (Z.eqb_spec (Balance.account w) account) as [Hw|]; [|done]. destruct Hne.
    apply (wf_unique _ Hb j i w b (by_pk [account]) Hj Hi); [|done]. rewrite <- Hw. by left.
  - apply map_sum_zero. intros i b Hi. destruct (Z.eqb_spec (Balance.account b) account) as [Ha|]; [|done].
    destruct (find_None _ _ i b E Hi). rewrite <- Ha. by left.
Qed.

(** C24: what the node shows of an account's money agrees with itself: after
    any replay of amounts in the range of assets, the rows being in the ranges
    of their types, a client that pages through the whole history of an account
    receives movements that add up, in every currency, to the amount the
    account's balance shows. *)
Theorem history_adds_up {accounts : MicroChain.Node} (c : list MicroLog.block) (d : db) (account sym n : Z) :
  Forall (fun b => block_ranged (BlockLog.eosioBlock b)) c -> MicroLog.replay_chain c = Ok d ->
  rows_fit d -> 0 <= account < 2 ^ 64 -> 0 < n < 2 ^ 32 ->
  exists l, pages (enough (balance_history d)) (Balance_history d account) all_times n None
              = Ok (Some (o_BalanceHistory <$> l)) /\
    list_sum (fun r => Ledger.in_symbol sym (History.delta r.2)) l
    = shown sym (get_ptr (balances d) (by_pk [account])).
Proof.
  intros Hr E Hf Ho Hn. pose proof (replay_chain_wf c d E) as Hw. exists (history_rows d account all_times).
  split; [by apply history_pages|]. rewrite <- held_one by done.
  rewrite (bk_match _ (replay_books c d Hr E)). unfold moved, history_rows, rows_of.
  rewrite list_sum_filter, map_sum_rows, (list_sum_perm _ _ _ (index_perm tuple_ltb history_key _)).
  apply list_sum_ext. intros r. unfold weigh.
  change (Connection.selects Z.ltb _ all_times r) with true. by rewrite andb_true_r.
Qed.

Lemma history_adds_up_witness :
  exists l, pages (enough (balance_history demo_db)) (Balance_history demo_db (Name.n "alice")) 
      (Connection.mk_args None None None None None None None None) 1 None = Ok (Some (o_BalanceHistory <$> l)) /\
    list_sum (fun r => Ledger.in_symbol 1162826500 (History.delta r.2)) l = 14.
Proof.
  destruct (history_adds_up (accounts := MicroLog.demo_accounts) demo_chain demo_db (Name.n "alice") 1162826500 1)
    as (l & Hl & Hs); [|apply demo_replay|apply demo_fit|by vm_compute|done|].
  - repeat constructor; cbn; vm_compute; discriminate.
  - exists l. split; [exact Hl|]. rewrite Hs. by vm_compute.
Defined.

(** ** Answers are JSON *)

Create HintDb gql.
Section json.
Context (utf8 : list ascii -> option nat).

Lemma j_chars_json s : value_json (j_chars utf8 s).
Proof. apply vj_json, string_is_json. Qed.
Lemma j_bool_json b : value_json (j_bool b).
Proof. apply vj_json, bool_is_json. Qed.
Lemma j_int_json size z : 0 < size <= 16 -> value_json (j_int size z).
Proof. intros H. by apply vj_json, int_is_json. Qed.
Lemma j_checksum_json c : value_json (j_checksum c).
Proof. apply vj_json, hex_is_json. apply Crypto.extract_bytes. Qed.
Lemma j_bytes_json bs : value_json (j_bytes bs).
Proof. apply vj_json, hex_is_json. apply Forall_fmap, Forall_true. intros b. apply wrap_bounds. lia. Qed.
Lemma v_optional_json {A} (f : A -> values) o : (forall a, value_json (f a)) -> value_json (v_optional f o).
Proof. intros H. destruct o; constructor. apply H. Qed.
Lemma v_list_json {A} (f : A -> values) (l : list A) : (forall a, value_json (f a)) -> value_json (v_list (f <$> l)).
Proof. intros H. constructor. apply Forall_fmap, Forall_true. apply H. Qed.
Lemma ok_json (v : values) : value_json v -> result_json (Ok v).
Proof. by intros H ? [= <-]. Qed.
Lemma bind_json {A} (r : result A) (f : A -> result values) : (forall a, result_json (f a)) -> result_json (r ≫= f).
Proof. intros H. destruct r; [apply H|done]. Qed.
Lemma connect_json {K V} (c : codec K) ltb (key : Z * V -> K) to_node t a : result_json (connect c ltb key to_node t a).
Proof. apply bind_json. intros r. apply ok_json. constructor. Qed.

Lemma object_json o : value_json (v_object o : values).
Proof. constructor. Qed.
Lemma object_list_json (l : list obj) : value_json (v_list (v_object <$> l)).
Proof. apply v_list_json, object_json. Qed.
Lemma name_json z : value_json (j_name utf8 z).
Proof. apply j_chars_json. Qed.
Lemma time_json z : value_json (j_time utf8 z).
Proof. apply j_chars_json. Qed.
Lemma asset_json a : value_json (j_asset utf8 a).
Proof. apply j_chars_json. Qed.
Lemma text_json s : value_json (j_string utf8 s).
Proof. apply j_chars_json. Qed.
Lemma time_point_json t : value_json (j_time_point utf8 t).
Proof. apply j_chars_json. Qed.
Lemma member_ptr_json d a : value_json (v_member d a).
Proof. apply v_optional_json, object_json. Qed.
Lemma account_json d a : result_json (account_member d a).
Proof. apply bind_json. intros m. apply ok_json, object_json. Qed.
Lemma key_json r : result_json (encryptionKey utf8 r).
Proof.
  destruct r as [r|]; cbn [encryptionKey]; [apply bind_json; intros s|]; apply ok_json; constructor. apply j_chars_json.
Qed.
Lemma final_json d r : result_json (finalGroup d r).
Proof.
  unfold finalGroup. destruct (Election.final_group_id r); [apply bind_json; intros g|]; apply ok_json; repeat constructor.
Qed.
Lemma status_json d : value_json (Query_status d).
Proof. unfold Query_status. destruct (map_to_list _) as [|p [|]]; repeat constructor. Qed.
End json.
#[export] Hint Resolve j_chars_json j_bool_json j_checksum_json j_bytes_json v_optional_json v_list_json ok_json bind_json
  connect_json object_json object_list_json name_json time_json asset_json text_json time_point_json member_ptr_json
  account_json key_json final_json status_json : gql.
#[export] Hint Extern 1 (value_json (j_int _ _)) => apply j_int_json; lia : gql.

(** One member after the other. *)
Ltac each_member :=
  repeat (apply Forall_cons; split; [cbn [snd field getter method member_json]; intros; eauto 6 with gql|]);
  try apply Forall_nil_2.

Lemma members_of_json utf8 log d `{MicroChain.Node} o : Forall (fun m => member_json m.2) (members_of utf8 log d o).
Proof.
  destruct o; cbn [members_of]; match goal with |- Forall _ ?l => let h := eval hnf in l in change l with h end; each_member.
Qed.

(** C29: every answer of the history node is JSON, an object with the data or
    with the errors, whatever the tables hold and whatever is asked. *)
Theorem node_answers_json (utf8 : list ascii -> option nat) log d `{MicroChain.Node} (text variables answer : list ascii) :
  query utf8 log d text variables = Done answer -> json answer.
Proof.
  intros Hq. refine (answer_json utf8 obj (members_of utf8 log d) (v_object o_Query) text variables answer _ _ Hq).
  - intros o name m Hm. pose proof (members_of_json utf8 log d o) as Ho. rewrite Forall_forall in Ho. by apply (Ho (name, m)).
  - constructor.
Qed.

Definition no_blocks : Subchain.block_log := BlockLog.mk_log [] 0.
Definition ask (d : db) (text : string) : outcome (list ascii) :=
  query ascii_only no_blocks d (accounts := MicroLog.demo_accounts) (lit text) [].

(** Before the genesis action there is no status; the pool has no balance. *)
Example empty_answer : ask empty_db "{ status { active } masterPool { amount } }"
  = Done (data_text (lit "{" ++ string_to_json ascii_only (lit "status") ++ lit ":null," ++
      string_to_json ascii_only (lit "masterPool") ++ lit ":{" ++ string_to_json ascii_only (lit "amount") ++ lit ":null}}")).
Proof. by vm_compute. Qed.
Lemma node_answers_json_witness : exists answer, ask demo_db "{ balances(first: 1) { edges { node { amount } } } }" = Done answer /\ json answer.
Proof.
  destruct (ask demo_db _) as [answer|m|e|] eqn:E; [exists answer; split; [done|]|by vm_compute in E..].
  refine (node_answers_json ascii_only no_blocks demo_db _ _ _ E).
Defined.

(** A query stops where its first member stops, which is one without
    arguments. *)
Section stops.
Context (utf8 : list ascii -> option nat) (M : obj -> list (list ascii * member obj)).
Context (stop : forall A, outcome A) (Hstop : forall A B (f : A -> outcome B), stop A ≫= f = stop B).

Lemma first_member_stops n o st alias fld st1 v :
  is_punct st "{" = true -> is_name (skip st) = true -> selection_name (skip st) = Done (alias, fld, st1) ->
  method_args [] st1 = Done ([], st1) -> find_member M fld o = Some (m_method [] (fun _ => v)) ->
  run v ≫= (fun v => query_value (query_object utf8 M n) v st1) = stop _ ->
  query_object utf8 M (S n) o st = stop _.
Proof.
  intros Hp Hn Hs Ha Hm Hv. cbn [query_object]. rewrite Hp. cbn [negb]. unfold fuel_of at 1. cbn [members_loop].
  assert (forall A B (x : A) (f : A -> outcome B), Done x ≫= f = f x) as Hd by done.
  rewrite Hn, Hs, Hd. cbv beta iota. rewrite Hm, Ha, Hd. cbv beta iota.
  rewrite Hv. by rewrite !Hstop.
Qed.
Lemma root_stops o text : is_name (stream_of text) = false ->
  query_object utf8 M (fuel_of (stream_of text)) o (stream_of text) = stop _ ->
  gql_query_root utf8 M (v_object o) (stream_of text) = stop _.
Proof.
  intros Hn Ho. unfold gql_query_root. rewrite Hn. cbn [mbind outcome_bind]. unfold gql_query_value. cbn [query_value].
  rewrite Ho. apply Hstop.
Qed.
End stops.

Ltac count_fuel := unfold fuel_of; match goal with |- context [length (input ?s)] =>
  let n := eval vm_compute in (length (input s)) in change (length (input s)) with n end.
Ltac stops stop := eapply (first_member_stops _ _ stop); [done|by vm_compute|by vm_compute|vm_compute; reflexivity
  |vm_compute; reflexivity|cbn; reflexivity|].

(** Two queries that any client may send stop the node instead of being
    answered.  While the node has no status - before the genesis action - a
    selection set of the status that holds something that is not a token is
    skipped for ever; and the time at which an account became a member is read
    through a null pointer for every account that is not a member, such as the
    pool, whose member is at hand from its balance. *)
Theorem queries_that_stop (utf8 : list ascii -> option nat) log (d : db) `{MicroChain.Node} :
  (size (rows (status d)) <> 1%nat -> query utf8 log d (lit "{status{.}}") [] = OutOfFuel) /\
  (get_ptr (members d) (by_pk [MicroChain.master_pool]) = None ->
   query utf8 log d (lit "{masterPool{account{createdAt}}}") [] = Aborted (Trap "null pointer")).
Proof.
  split.
  - intros Hs. assert (Query_status d = v_null) as Hn.
    { unfold Query_status. destruct (map_to_list (rows (status d))) as [|p [|]] eqn:E; [done| |done]. destruct Hs.
      by rewrite <- length_map_to_list, E. }
    unfold query, gql_query. cbn [length Nat.eqb].
    rewrite (root_stops utf8 _ (@OutOfFuel)); [done|done|by vm_compute|]. count_fuel.
    stops (@OutOfFuel). cbn [run mbind outcome_bind]. rewrite Hn. by vm_compute.
  - intros Hn. unfold query, gql_query. cbn [length Nat.eqb].
    rewrite (root_stops utf8 _ (fun A => @Aborted A (Trap "null pointer"))); [done|done|by vm_compute|]. count_fuel.
    stops (fun A => @Aborted A (Trap "null pointer")). cbn [run mbind outcome_bind query_value].
    assert (account_member d MicroChain.master_pool = Ok (v_object (o_Member MicroChain.master_pool None))) as Ha.
    { unfold account_member, get_member. by rewrite Hn. }
    stops (fun A => @Aborted A (Trap "null pointer")). rewrite Ha. cbn [run mbind outcome_bind query_value].
    by stops (fun A => @Aborted A (Trap "null pointer")).
Qed.

Lemma queries_that_stop_witness :
  ask empty_db "{status{.}}" = OutOfFuel /\ ask empty_db "{masterPool{account{createdAt}}}" = Aborted (Trap "null pointer").
Proof.
  split; apply (queries_that_stop ascii_only no_blocks empty_db (H := MicroLog.demo_accounts)); by vm_compute.
Defined.

(** ** Sessions *)

Lemma greatest_bytes n d : Crypto.bytes d -> length d = n -> Crypto.bytes_ltb (replicate n 0xff) d = false.
Proof.
  intros Hd <-. induction Hd as [|b d Hb _ IH]; [done|]. cbn [length replicate Crypto.bytes_ltb].
  rewrite IH. assert ((255 <? b) = false) as -> by lia. by rewrite andb_false_r.
Qed.
Lemma after_max_r1 k : key_ok k -> Crypto.bytes (Crypto.key_data k) ->
  Crypto.key_ltb public_key_max_r1 k = match k with Crypto.key_webauthn _ => true | _ => false end.
Proof. destruct k as [d|d|d]; intros Hk Hb; [done| |done]. by apply greatest_bytes. Qed.

(** The bounds of a query for sessions end at the greatest key of the
    second kind.  A session whose key is of the third kind, a WebAuthn key,
    comes after: it is missing from the sessions up to its own account, and it
    is among the sessions after its account; every other session is on the
    side its account says. *)
Theorem session_bounds (bound : Z) (row : Z * Session.object) :
  let a := Session.eden_account row.2 in
  let k := Session.key row.2 in
  key_ok k -> Crypto.bytes (Crypto.key_data k) ->
  let up_to := sessions_args (Connection.mk_args None None None (Some bound) None None None None) in
  let after := sessions_args (Connection.mk_args (Some bound) None None None None None None None) in
  let webauthn := match k with Crypto.key_webauthn _ => true | _ => false end in
  Connection.selects session_ltb session_key up_to row = (a <=? bound) && negb ((a =? bound) && webauthn) /\
  Connection.selects session_ltb session_key after row = (bound <? a) || ((a =? bound) && webauthn).
Proof.
  intros a k Hk Hb up_to after webauthn. unfold Connection.selects, Connection.above, Connection.not_below,
    Connection.below, Connection.not_above, session_key, session_ltb. cbn.
  fold a k. rewrite !(after_max_r1 k Hk Hb). fold webauthn. lia.
Qed.
Lemma session_bounds_witness :
  let row := (0, Session.mk 7 (Crypto.key_webauthn (replicate 34 1)) 0 "") in
  Connection.selects session_ltb session_key
    (sessions_args (Connection.mk_args None None None (Some 7) None None None None)) row = false.
Proof.
  cbv zeta. rewrite (proj1 (session_bounds 7 (0, Session.mk 7 (Crypto.key_webauthn (replicate 34 1)) 0 "") ltac:(vm_compute; repeat split; done) ltac:(cbn; repeat constructor; done))). reflexivity.
Defined.

(** ** The votes of a group *)

Lemma filter_all {A} (p : A -> bool) (l : list A) : (forall x, x ∈ l -> p x = true) -> filter p l = l.
Proof.
  intros H. induction l as [|x l IH]; [done|]. rewrite filter_cons_True by by rewrite (H x) by left.
  f_equal. apply IH. intros y Hy. apply H. by right.
Qed.
Lemma filter_none {A} (p : A -> bool) (l : list A) : (forall x, x ∈ l -> p x = false) -> filter p l = [].
Proof.
  intros H. induction l as [|x l IH]; [done|]. rewrite filter_cons_False by (rewrite (H x) by left; by intros []).
  apply IH. intros y Hy. apply H. by right.
Qed.
Lemma filter_filter_in {A} (p q : A -> bool) (l : list A) : (forall x, x ∈ l -> p x = true -> q x = true) ->
  filter p (filter q l) = filter p l.
Proof.
  intros H. induction l as [|x l IH]; [done|]. rewrite (filter_cons (fun x => q x)).
  assert (filter p (filter q l) = filter p l) as IH' by (apply IH; intros y Hy; apply H; by right).
  specialize (H x ltac:(left)). destruct (decide (q x)) as [Hq|Hq].
  - by rewrite !(filter_cons (fun x => p x)), IH'.
  - rewrite IH', filter_cons_False; [done|]. intros Hp%Is_true_true. destruct Hq. by rewrite H.
Qed.

(** Dropping what comes before, and taking what is wanted while it is there:
    in a list that is sorted, filters. *)
Lemma drop_before {A} (R : A -> A -> Prop) (before : A -> bool) (l : list A) : StronglySorted R l ->
  (forall x y, R x y -> before y = true -> before x = true) ->
  drop (length (take_while before l)) l = filter (fun x => negb (before x)) l.
Proof.
  intros Hs Hb. induction Hs as [|x l Hs IH Hx]; [done|]. cbn [take_while]. destruct (before x) eqn:Ex; cbn [length drop].
  - rewrite filter_cons_False by (rewrite Ex; by intros []). exact IH.
  - rewrite filter_cons_True by by rewrite Ex. f_equal. symmetry. apply filter_all.
    rewrite Forall_forall in Hx. intros y Hy. destruct (before y) eqn:Ey; [|done].
    by rewrite (Hb x y (Hx y Hy) Ey) in Ex.
Qed.
Lemma take_wanted {A} (R : A -> A -> Prop) (wanted : A -> bool) (l : list A) : StronglySorted R l ->
  (forall x y, x ∈ l -> y ∈ l -> R x y -> wanted y = true -> wanted x = true) ->
  take_while wanted l = filter wanted l.
Proof.
  intros Hs. induction Hs as [|x l Hs IH Hx]; intros Hw; [done|]. cbn [take_while]. destruct (wanted x) eqn:Ex.
  - rewrite filter_cons_True by by rewrite Ex. rewrite IH; [done|]. intros y z Hy Hz. apply Hw; by right.
  - rewrite filter_cons_False by (rewrite Ex; by intros []). symmetry. apply filter_none.
    rewrite Forall_forall in Hx. intros y Hy. destruct (wanted y) eqn:Ey; [|done].
    rewrite (Hw x y) in Ex; [done|by left|by right|by apply Hx|done].
Qed.

(** The votes shown for a group are the votes of that group, all of them,
    in the order of the voters: the scan of the index starts at the first and
    stops after the last. *)
Theorem group_votes_exact (d : db) (group_id : Z) :
  wf_db d -> (forall i r, rows (votes d) !! i = Some r -> 0 <= Vote.voter r) ->
  group_votes d group_id
  = filter (fun r => Vote.group_id r.2 =? group_id) (index tuple_ltb vote_group_key (votes d)).
Proof.
  intros Hw Hv. unfold group_votes, lower_bound. cbv zeta. set (l := index tuple_ltb vote_group_key (votes d)).
  assert (forall x, x ∈ l -> 0 <= Vote.voter x.2) as Hin by (intros [i r] Hx; by apply (Hv i), (elem_of_ordered tuple_ltb vote_group_key)).
  assert (StronglySorted (fun x y => tuple_ltb (vote_group_key x) (vote_group_key y) = true) l) as Hs.
  { apply ordered_sorted, (wf_unique_keys _ by_group); [apply _|by right; left|by intros ?? [=]|apply Hw]. }
  rewrite (drop_before _ (fun x => tuple_ltb (vote_group_key x) [group_id; 0]) l Hs).
  2:{ intros x y H1 H2. by eapply tuple_ltb_trans. }
  rewrite (take_wanted (fun x y => tuple_ltb (vote_group_key x) (vote_group_key y) = true)).
  - apply filter_filter_in. intros x Hx. specialize (Hin x Hx). unfold vote_group_key, tuple_ltb. cbn. lia.
  - by apply Table.filter_StronglySorted.
  - intros x y Hx Hy. apply list_elem_of_filter in Hx as [Hx%Is_true_true Hxl]. unfold vote_group_key, tuple_ltb in *. cbn in *. lia.
Qed.

(** Three votes in two groups. *)
Definition demo_votes : db :=
  match foldM (fun d v => on votes (fun t => emplace t (fun _ => v)) d)
    [Vote.mk 0 0 4 30 1 "a"; Vote.mk 0 0 5 20 2 "b"; Vote.mk 0 0 4 10 1 "c"] empty_db with Ok d => d | Err _ => empty_db end.
Lemma demo_votes_wf : wf_db demo_votes.
Proof.
  assert (forall l d d', foldM (fun d v => on votes (fun t => emplace t (fun _ => v)) d) l d = Ok d' -> wf_db d -> wf_db d') as H.
  { intros l d d' E W. refine (foldM_inv wf_db _ l _ _ _ W E). intros s v s' _ Ws Es.
    wf_on. done. }
  unfold demo_votes. destruct (foldM _ _ empty_db) as [d|] eqn:E; [|apply empty_db_wf]. eapply H; [exact E|apply empty_db_wf].
Qed.
Lemma group_votes_exact_witness : (fun r => Vote.video r.2) <$> group_votes demo_votes 4 = ["c"; "a"].
Proof.
  rewrite (group_votes_exact demo_votes 4 demo_votes_wf); [by vm_compute|].
  intros i r Hr. assert (forallb (fun r => 0 <=? Vote.voter r.2) (map_to_list (rows (votes demo_votes))) = true) as H by by vm_compute.
  rewrite forallb_forall in H. specialize (H (i, r)). rewrite <- list_elem_of_In, elem_of_map_to_list in H. specialize (H Hr). cbn in H. lia.
Defined.

End MicroQueryRun.
