(* ===== verification/ActionReplay.v ===== *)
(** How the history node reads the data of an action
    ([contracts/eden/src/eden-micro-chain.cpp], lines 2078-2101 and 2136-2254):
    the arguments of each handler from the bytes, the verbs of [run], and the
    replay of a block whose actions carry bytes.  The replay reads each
    argument just before it is used; MicroReplay.v takes the actions decoded
    beforehand, and gives the same result, as the module ActionReplay shows. *)
From S2P Require Import Prelude Name Time Asset Crypto Binary Events Inductions BlockLog MicroTables MicroChain MicroReplay EventWire KeyText.
From S2P Require Import Subchain.
Import Crypto Binary EventWire Structs MicroTables MicroChain MicroReplay.
Open Scope string_scope.
Open Scope list_scope.
Open Scope Z_scope.

Module ActionData.
#[local] Infix "⊗" := pair_codec (at level 35, right associativity).

(** ** Arguments *)

Definition unit_codec : codec unit := mk_codec (fun _ => Ok []) (fun s => Ok (tt, s)).

(** [EOSIO_REFLECT(new_member_profile, name, img, bio, social, attributions)] *)
Definition profile_codec : codec Inductions.new_member_profile :=
  struct_codec (string_codec ⊗ string_codec ⊗ string_codec ⊗ string_codec ⊗ string_codec)
    (fun p => (Inductions.name p, (Inductions.img p, (Inductions.bio p, (Inductions.social p, Inductions.attributions p)))))
    (fun '(n, (i, (b, (s, a)))) => Inductions.mk_profile n i b s a).
(** [EOSIO_REFLECT(encrypted_key, sender_key, recipient_key, key)] *)
Definition encrypted_key_codec : codec (public_key * (public_key * list Z)) := public_key_codec ⊗ public_key_codec ⊗ bytes_codec.
(** The keys, the data and the old data of an encrypted record. *)
Definition encrypted_codec : codec (list (public_key * (public_key * list Z)) * (list Z * option (list Z))) :=
  vector_codec encrypted_key_codec ⊗ bytes_codec ⊗ option_codec bytes_codec.

(** [attribute_value]: the sizes of the numbers, then a string, then vectors of
    each.  Only a string is told from the others. *)
Definition number_sizes : list nat := [1; 2; 4; 8; 1; 2; 4; 8; 4; 8]%nat.
Definition attribute_value_from_bin (s : list Z) : result (option string * list Z) :=
  '(u, s) ← varuint32_from_bin s;
  if u <? 10 then '(_, s) ← read (default 0%nat (number_sizes !! Z.to_nat u)) s; Ok (None, s)
  else if u =? 10 then '(t, s) ← from_bin string_codec s; Ok (Some t, s)
  else if u <? 21 then
    '(n, s) ← varuint32_from_bin s;
    '(_, s) ← read (Z.to_nat n * default 0%nat (number_sizes !! Z.to_nat (u - 11))) s; Ok (None, s)
  else if u =? 21 then '(_, s) ← from_bin (vector_codec string_codec) s; Ok (None, s)
  else Err (Check "Bad variant index").
(** [EOSIO_REFLECT(attribute, key, value)]; texts are written. *)
Definition attribute_codec : codec attribute :=
  mk_codec (fun a => k ← to_bin string_codec a.1; v ← to_bin string_codec (default "" a.2); Ok (k ++ 10 :: v))
           (fun s => '(k, s) ← from_bin string_codec s; '(v, s) ← attribute_value_from_bin s; Ok ((k, v), s)).
Definition attributes_codec : codec (list attribute) := vector_codec attribute_codec.

(** The handlers [dispatch] knows but [run], with how [call] reads their
    arguments. *)
Definition handlers : list (string * alternative handler) := [
  ("clearall", mk_alt unit_codec (fun _ => h_clearall) (fun f => match f with h_clearall => Some tt | _ => None end));
  ("delsession", mk_alt (uint 8 ⊗ public_key_codec) (fun '(a, k) => h_delsession a k)
    (fun f => match f with h_delsession a k => Some (a, k) | _ => None end));
  ("withdraw", mk_alt (uint 8 ⊗ asset_codec) (fun '(o, q) => h_withdraw o q)
    (fun f => match f with h_withdraw o q => Some (o, q) | _ => None end));
  ("donate", mk_alt (uint 8 ⊗ asset_codec) (fun '(p, q) => h_donate p q)
    (fun f => match f with h_donate p q => Some (p, q) | _ => None end));
  ("transfer", mk_alt (uint 8 ⊗ asset_codec ⊗ string_codec) (fun '(t, (q, m)) => h_transfer t q m)
    (fun f => match f with h_transfer t q m => Some (t, (q, m)) | _ => None end));
  ("fundtransfer", mk_alt (uint 8 ⊗ uint 4 ⊗ uint 1 ⊗ uint 8 ⊗ asset_codec ⊗ string_codec)
    (fun '(f, (t, (r, (o, (q, m))))) => h_fundtransfer f t r o q m)
    (fun f => match f with h_fundtransfer f t r o q m => Some (f, (t, (r, (o, (q, m))))) | _ => None end));
  ("usertransfer", mk_alt (uint 8 ⊗ uint 8 ⊗ asset_codec ⊗ string_codec) (fun '(f, (t, (q, m))) => h_usertransfer f t q m)
    (fun f => match f with h_usertransfer f t q m => Some (f, (t, (q, m))) | _ => None end));
  ("genesis", mk_alt (string_codec ⊗ uint 8 ⊗ asset_codec ⊗ vector_codec (uint 8) ⊗ string_codec ⊗ attributes_codec
                      ⊗ asset_codec ⊗ uint 4 ⊗ string_codec)
    (fun '(c, (y, (n, (l, (v, (a, (b, (t, m)))))))) => h_genesis c y n l v a b t m)
    (fun f => match f with h_genesis c y n l v a b t m => Some (c, (y, (n, (l, (v, (a, (b, (t, m)))))))) | _ => None end));
  ("addtogenesis", mk_alt (uint 8) (fun m => h_addtogenesis m)
    (fun f => match f with h_addtogenesis m => Some m | _ => None end));
  ("inductinit", mk_alt (uint 8 ⊗ uint 8 ⊗ uint 8 ⊗ vector_codec (uint 8)) (fun '(i, (a, (b, l))) => h_inductinit i a b l)
    (fun f => match f with h_inductinit i a b l => Some (i, (a, (b, l))) | _ => None end));
  ("inductprofil", mk_alt (uint 8 ⊗ profile_codec) (fun '(i, p) => h_inductprofil i p)
    (fun f => match f with h_inductprofil i p => Some (i, p) | _ => None end));
  ("inductmeetin", mk_alt (uint 8 ⊗ uint 8 ⊗ encrypted_codec) (fun '(a, (i, _)) => h_inductmeetin a i)
    (fun f => match f with h_inductmeetin a i => Some (a, (i, ([], ([], None)))) | _ => None end));
  ("inductvideo", mk_alt (uint 8 ⊗ uint 8 ⊗ string_codec) (fun '(a, (i, v)) => h_inductvideo a i v)
    (fun f => match f with h_inductvideo a i v => Some (a, (i, v)) | _ => None end));
  ("inductcancel", mk_alt (uint 8 ⊗ uint 8) (fun '(a, i) => h_inductcancel a i)
    (fun f => match f with h_inductcancel a i => Some (a, i) | _ => None end));
  ("inductdonate", mk_alt (uint 8 ⊗ uint 8 ⊗ asset_codec) (fun '(p, (i, q)) => h_inductdonate p i q)
    (fun f => match f with h_inductdonate p i q => Some (p, (i, q)) | _ => None end));
  ("inductendors", mk_alt (uint 8 ⊗ uint 8 ⊗ checksum_codec) (fun '(a, (i, h)) => h_inductendors a i h)
    (fun f => match f with h_inductendors a i h => Some (a, (i, h)) | _ => None end));
  ("resign", mk_alt (uint 8) (fun a => h_resign a) (fun f => match f with h_resign a => Some a | _ => None end));
  ("rename", mk_alt (uint 8 ⊗ uint 8) (fun '(a, b) => h_rename a b)
    (fun f => match f with h_rename a b => Some (a, b) | _ => None end));
  ("electopt", mk_alt (uint 8 ⊗ bool_codec) (fun '(v, p) => h_electopt v p)
    (fun f => match f with h_electopt v p => Some (v, p) | _ => None end));
  ("electvote", mk_alt (uint 1 ⊗ uint 8 ⊗ uint 8) (fun '(r, (v, c)) => h_electvote r v c)
    (fun f => match f with h_electvote r v c => Some (r, (v, c)) | _ => None end));
  ("electmeeting", mk_alt (uint 8 ⊗ uint 1 ⊗ encrypted_codec) (fun '(a, (r, _)) => h_electmeeting a r)
    (fun f => match f with h_electmeeting a r => Some (a, (r, ([], ([], None)))) | _ => None end));
  ("electvideo", mk_alt (uint 1 ⊗ uint 8 ⊗ string_codec) (fun '(r, (a, v)) => h_electvideo r a v)
    (fun f => match f with h_electvideo r a v => Some (r, (a, v)) | _ => None end));
  ("setencpubkey", mk_alt (uint 8 ⊗ public_key_codec) (fun '(m, k) => h_setencpubkey m k)
    (fun f => match f with h_setencpubkey m k => Some (m, k) | _ => None end))
].
Definition find_handler (action_name : Z) : option (alternative handler) :=
  match list_find (fun h => Name.n h.1 = action_name) handlers with Some (_, h) => Some h.2 | None => None end.

(** [run_auth] *)
Inductive run_auth : Type :=
  | no_auth
  | account_auth (contract contract_account eosio_account : Z)
  | signature_auth (signature : KeyText.signature) (contract account sequence : Z).
Definition run_auth_codec : codec run_auth := variant_codec [
  mk_alt unit_codec (fun _ => no_auth) (fun a => match a with no_auth => Some tt | _ => None end);
  mk_alt (uint 8 ⊗ uint 8 ⊗ uint 8) (fun '(c, (a, e)) => account_auth c a e)
    (fun a => match a with account_auth c a e => Some (c, (a, e)) | _ => None end);
  mk_alt (KeyText.signature_codec ⊗ uint 8 ⊗ uint 8 ⊗ varuint32) (fun '(s, (c, (a, q))) => signature_auth s c a q)
    (fun a => match a with signature_auth s c a q => Some (s, (c, (a, q))) | _ => None end)
].

(** The [eden_verb]s of the list of actions. *)
Definition session_actions : list (Z * string) :=
  [(10, "inductinit"); (1, "inductmeetin"); (2, "inductprofil"); (3, "inductvideo"); (4, "inductendors");
   (5, "electopt"); (6, "electmeeting"); (7, "electvote"); (8, "electvideo"); (9, "inductcancel")].
Definition get_name_for_session_action (index : Z) : Z :=
  match list_find (fun a => a.1 = index) session_actions with Some (_, a) => Name.n a.2 | None => 0 end.

Definition transfer_codec : codec (Z * (Z * (asset * string))) := uint 8 ⊗ uint 8 ⊗ asset_codec ⊗ string_codec.
Definition logmint_codec : codec (Z * (Z * (Z * (Z * (Z * (Z * (list attribute * (list attribute *
    (list asset * list attribute))))))))) :=
  uint 8 ⊗ uint 8 ⊗ uint 8 ⊗ uint 8 ⊗ sint 4 ⊗ uint 8 ⊗ attributes_codec ⊗ attributes_codec ⊗ vector_codec asset_codec
    ⊗ attributes_codec.
Definition logtransfer_codec : codec (Z * (Z * (Z * (list Z * string)))) :=
  uint 8 ⊗ uint 8 ⊗ uint 8 ⊗ vector_codec (uint 8) ⊗ string_codec.

(** ** The replay of bytes *)

Section replay.
Context {accounts : Node} (now : Z).

(** [dispatch] but for [run], which no verb is called: whether there is a
    handler, and the rest of the stream. *)
Definition dispatch_handler (action_name : Z) (s : list Z) (r : replay) : result (bool * list Z * replay) :=
  match find_handler action_name with
  | Some h => '(x, s) ← from_bin (fields_codec h) s; r ← run_handler now (make h x) r; Ok (true, s, r)
  | None => Ok (false, s, r)
  end.
Definition verb_not_found (index action_name : Z) : string :=
  ("run: verb not found: " ++ to_string index ++ " " ++ Name.name_to_string action_name)%string.
Fixpoint verbs_loop (num_verbs : nat) (s : list Z) (r : replay) : result (list Z * replay) :=
  match num_verbs with
  | O => Ok (s, r)
  | S n =>
      '(index, s) ← varuint32_from_bin s;
      let action_name := get_name_for_session_action index in
      '(found, s, r) ← dispatch_handler action_name s r;
      _ ← check found (verb_not_found index action_name);
      verbs_loop n s r
  end.
Definition extra_data : string := "unpack error (extra data) within run".
Definition run_bytes (s : list Z) (r : replay) : result replay :=
  '(_, s) ← from_bin run_auth_codec s;
  '(num_verbs, s) ← varuint32_from_bin s;
  '(s, r) ← verbs_loop (Z.to_nat num_verbs) s r;
  _ ← check (bool_decide (s = [])) extra_data;
  Ok r.
Definition dispatch_bytes (action_name : Z) (s : list Z) (r : replay) : result replay :=
  if action_name =? Name.n "run" then run_bytes s r
  else '(_, _, r) ← dispatch_handler action_name s r; Ok r.

(** The body of the loop of [filter_block] over actions. *)
Definition action_bytes (r : replay) (a : Subchain.action) : result replay :=
  let s := Subchain.hexData a in
  if Subchain.firstReceiver a =? eden_account then dispatch_bytes (Subchain.name a) s r
  else if (Subchain.firstReceiver a =? token_account) && (Subchain.receiver a =? eden_account)
          && (Subchain.name a =? Name.n "transfer") then
    '((from, (to, (quantity, _))), _) ← from_bin transfer_codec s; notify_transfer now from to quantity r
  else if (Subchain.firstReceiver a =? Name.n "eosio.null") && (Subchain.name a =? Name.n "eden.events")
          && bool_decide (Subchain.creator_receiver <$> Subchain.creatorAction a = Some eden_account) then
    events ← events_of_data s; on_data (foldM (fun d ev => handle_event now ev d) events) r
  else if (Subchain.firstReceiver a =? atomic_account) && (Subchain.receiver a =? eden_account) then
    if Subchain.name a =? Name.n "logmint" then
      '((i, (m, (c, (h, (t, (o, (imm, (_, (_, templ))))))))), _) ← from_bin logmint_codec s;
      on_data (logmint now (mk_mint i m c h t o imm templ)) r
    else if Subchain.name a =? Name.n "logtransfer" then
      '((c, (_, (to, (ids, _)))), _) ← from_bin logtransfer_codec s; on_data (logtransfer c to ids) r
    else Ok r
  else Ok r.
Definition transaction_bytes (r : replay) (trx : Subchain.transaction) : result replay :=
  r ← foldM action_bytes (Subchain.actions trx) r;
  _ ← clean_data (data r);
  _ ← check (negb (in_withdraw r) && negb (in_manual_transfer r)) "missing transfer notification";
  Ok r.
End replay.
(** [filter_block] *)
Definition block_bytes `{Node} (b : Subchain.eosio_block) (d : db) : result db :=
  r ← foldM (transaction_bytes (Time.block_of_time_point (BlockLog.timestamp b)))
        (BlockLog.transactions b) (mk_replay d false false);
  Ok (data r).

End ActionData.

(** The replay of bytes and the replay of decoded actions agree: what the
    theorems about the decoded replay say holds of the blocks the node is
    given; and what the arguments of a handler are written as is read back. *)
Import Crypto Binary EventWire Structs MicroTables MicroChain MicroReplay ActionData.
Open Scope string_scope.
Open Scope list_scope.
Open Scope Z_scope.

Module ActionReplay.

(** ** Decoding beforehand *)

(** The verbs, up to one without handler, and whether bytes are left. *)
Fixpoint decode_verbs (num_verbs : nat) (s : list Z) : result (list verb * bool) :=
  match num_verbs with
  | O => Ok ([], negb (bool_decide (s = [])))
  | S n =>
      '(index, s) ← varuint32_from_bin s;
      let action_name := get_name_for_session_action index in
      match find_handler action_name with
      | None => Ok ([v_unknown index (Name.name_to_string action_name)], false)
      | Some h =>
          '(x, s) ← from_bin (fields_codec h) s;
          '(vs, extra) ← decode_verbs n s; Ok (v_handler (make h x) :: vs, extra)
      end
  end.
Definition decode_call (action_name : Z) (s : list Z) : result action_data :=
  if action_name =? Name.n "run" then
    '(_, s) ← from_bin run_auth_codec s;
    '(num_verbs, s) ← varuint32_from_bin s;
    '(vs, extra) ← decode_verbs (Z.to_nat num_verbs) s; Ok (d_call (c_run vs extra))
  else
    match find_handler action_name with
    | Some h => '(x, _) ← from_bin (fields_codec h) s; Ok (d_call (c_handler (make h x)))
    | None => Ok d_other
    end.

Section decode.
Context {accounts : Node}.

Definition decode_data (a : Subchain.action) : result action_data :=
  let s := Subchain.hexData a in
  if Subchain.firstReceiver a =? eden_account then decode_call (Subchain.name a) s
  else if (Subchain.firstReceiver a =? token_account) && (Subchain.receiver a =? eden_account)
          && (Subchain.name a =? Name.n "transfer") then
    '((from, (to, (quantity, memo))), _) ← from_bin transfer_codec s; Ok (d_transfer from to quantity memo)
  else if (Subchain.firstReceiver a =? Name.n "eosio.null") && (Subchain.name a =? Name.n "eden.events")
          && bool_decide (Subchain.creator_receiver <$> Subchain.creatorAction a = Some eden_account) then
    events ← events_of_data s; Ok (d_events events)
  else if (Subchain.firstReceiver a =? atomic_account) && (Subchain.receiver a =? eden_account) then
    if Subchain.name a =? Name.n "logmint" then
      '((i, (m, (c, (h, (t, (o, (imm, (_, (_, templ))))))))), _) ← from_bin logmint_codec s;
      Ok (d_mint (mk_mint i m c h t o imm templ))
    else if Subchain.name a =? Name.n "logtransfer" then
      '((c, (from, (to, (ids, memo)))), _) ← from_bin logtransfer_codec s; Ok (d_nft_transfer c from to ids memo)
    else Ok d_other
  else Ok d_other.
Definition decode_action (a : Subchain.action) : result action :=
  x ← decode_data a;
  Ok (mk_action (Subchain.firstReceiver a) (Subchain.receiver a) (Subchain.name a)
        (Subchain.creator_receiver <$> Subchain.creatorAction a) x).
Fixpoint decode_all {A B} (f : A -> result B) (l : list A) : result (list B) :=
  match l with [] => Ok [] | a :: l => b ← f a; l ← decode_all f l; Ok (b :: l) end.
Definition decode_block (b : Subchain.eosio_block) : result (BlockLog.eosio_block transaction) :=
  ts ← decode_all (fun t => decode_all decode_action (Subchain.actions t)) (BlockLog.transactions b);
  Ok (BlockLog.mk_eosio (BlockLog.eosio_num b) (BlockLog.eosio_id b) (BlockLog.eosio_previous b) (BlockLog.timestamp b) ts).
End decode.

(** ** The replays agree *)

(** Decoded, the same; not decoded, an error as well. *)
Definition agrees {A B} (decoded : result A) (bytes : result B) (run : A -> result B) : Prop :=
  match decoded with Ok a => bytes = run a | Err _ => exists e, bytes = Err e end.

Lemma agrees_bind {A B C} (m : result A) (f : A -> result B) (g : A -> result C) (h : B -> result C) :
  (forall a, m = Ok a -> agrees (f a) (g a) h) -> agrees (m ≫= f) (m ≫= g) h.
Proof. destruct m; cbn; [auto|eauto]. Qed.

Ltac split_pairs := repeat match goal with x : _ * _ |- _ => destruct x end.
Lemma handlers_named : Forall (fun h => forall x, handler_name (make h.2 x) = Name.n h.1) handlers.
Proof.
  unfold handlers. repeat (apply Forall_cons; split; [intros x; cbn in x; split_pairs; reflexivity|]). constructor.
Qed.
Lemma dispatched_handlers : dispatched = "run" :: handlers.*1.
Proof. reflexivity. Qed.
Lemma find_handler_name n h : find_handler n = Some h ->
  n ∈ Name.n <$> dispatched /\ forall x, handler_name (make h x) = n.
Proof.
  unfold find_handler. destruct (list_find _ handlers) as [[i [t a]]|] eqn:E; [|done]. intros [= <-].
  apply list_find_Some in E as (Hi & Hn & _). cbn [fst snd] in *. split.
  - rewrite dispatched_handlers. apply list_elem_of_fmap. exists t. split; [done|]. right.
    apply list_elem_of_fmap. exists (t, a). split; [done|]. by eapply list_elem_of_lookup_2.
  - intros x. rewrite <- Hn. pose proof handlers_named as H. rewrite Forall_forall in H.
    apply (H (t, a)). by eapply list_elem_of_lookup_2.
Qed.
Lemma find_handler_none n : find_handler n = None -> n <> Name.n "run" -> n ∉ Name.n <$> dispatched.
Proof.
  unfold find_handler. destruct (list_find _ handlers) as [[i x]|] eqn:E; [done|]. intros _ Hr.
  apply list_find_None in E. rewrite dispatched_handlers. intros Hn. apply list_elem_of_fmap in Hn as (t & -> & Ht).
  apply elem_of_cons in Ht as [->|Ht]; [done|]. apply list_elem_of_fmap in Ht as (y & -> & Hy).
  rewrite Forall_forall in E. by apply (E y Hy).
Qed.

Section agree.
Context {accounts : Node} (now : Z).

Lemma verbs_agree n s r :
  agrees (decode_verbs n s) ('(s, r) ← verbs_loop now n s r; _ ← check (bool_decide (s = [])) extra_data; Ok r)
    (fun d => run now d.1 d.2 r).
Proof.
  revert s r. induction n as [|n IH]; intros s r; cbn [decode_verbs verbs_loop].
  - cbn. unfold run. cbn. by destruct (bool_decide (s = [])).
  - destruct (varuint32_from_bin s) as [[index s1]|e]; cbn [mbind result_bind]; [|by eexists].
    unfold dispatch_handler. destruct (find_handler _) as [h|] eqn:Eh; [|reflexivity].
    destruct (from_bin (fields_codec h) s1) as [[x s2]|e]; cbn [mbind result_bind]; [|by eexists].
    destruct (run_handler now (make h x) r) as [r1|e] eqn:Er; cbn [mbind result_bind check].
    + specialize (IH s2 r1). destruct (decode_verbs n s2) as [[vs extra]|e]; cbn [mbind result_bind agrees] in *; [|exact IH].
      rewrite IH. unfold run. cbn. by rewrite Er.
    + destruct (decode_verbs n s2) as [[vs extra]|e']; cbn; [|by eexists]. unfold run. cbn. by rewrite Er.
Qed.

Lemma dispatch_agrees n s r : agrees (decode_call n s) (dispatch_bytes now n s r) (fun x => dispatch now n x r).
Proof.
  unfold decode_call, dispatch_bytes. destruct (Z.eqb_spec n (Name.n "run")) as [->|Hn].
  - unfold run_bytes. apply agrees_bind. intros [auth s1] _. apply agrees_bind. intros [num s2] _.
    pose proof (verbs_agree (Z.to_nat num) s2 r) as H. destruct (decode_verbs _ s2) as [[vs extra]|e]; cbn in *; [|exact H].
    rewrite H. unfold dispatch. by rewrite bool_decide_eq_true_2 by (by left).
  - unfold dispatch_handler. destruct (find_handler n) as [h|] eqn:Eh; cbn.
    + destruct (from_bin (fields_codec h) s) as [[x s1]|e]; cbn; [|by eexists].
      destruct (find_handler_name n h Eh) as [Hd Hx]. unfold dispatch. rewrite bool_decide_eq_true_2 by done.
      cbn [call_name]. rewrite Hx, Z.eqb_refl. cbn. by destruct (run_handler now (make h x) r).
    + unfold dispatch. by rewrite bool_decide_eq_false_2 by (by apply find_handler_none).
Qed.

Lemma data_agrees a r : agrees (decode_data a) (action_bytes now r a)
  (fun x => run_action now r (mk_action (Subchain.firstReceiver a) (Subchain.receiver a) (Subchain.name a)
                                (Subchain.creator_receiver <$> Subchain.creatorAction a) x)).
Proof.
  unfold decode_data, action_bytes, run_action. cbn [firstReceiver receiver name creator hexData].
  destruct (Subchain.firstReceiver a =? eden_account); [apply dispatch_agrees|].
  destruct ((_ =? token_account) && _ && _).
  { apply agrees_bind. intros [[from [to [q m]]] s] _. reflexivity. }
  destruct ((_ =? Name.n "eosio.null") && _ && _); [apply agrees_bind; intros events _; reflexivity|].
  destruct ((_ =? atomic_account) && _); [|reflexivity]. destruct (_ =? Name.n "logmint").
  { apply agrees_bind. intros [(i & m & c & h & t & o & imm & mu & bt & templ) s] _. reflexivity. }
  destruct (_ =? Name.n "logtransfer"); [|reflexivity].
  apply agrees_bind. intros [(c & f & t & ids & memo) s] _. reflexivity.
Qed.
Lemma action_agrees a r : agrees (decode_action a) (action_bytes now r a) (run_action now r).
Proof.
  pose proof (data_agrees a r) as H. unfold decode_action. destruct (decode_data a) as [x|e]; exact H.
Qed.

Lemma all_agree {A B S} (f : A -> result B) (g : S -> A -> result S) (h : S -> B -> result S) l s :
  (forall a s, agrees (f a) (g s a) (h s)) -> agrees (decode_all f l) (foldM g l s) (fun l' => foldM h l' s).
Proof.
  intros H. revert s. induction l as [|a l IH]; intros s; [done|]. cbn [decode_all foldM].
  specialize (H a s). destruct (f a) as [b|e]; cbn in *; [|destruct H as [e' ->]; by exists e'].
  rewrite H. destruct (h s b) as [s'|e] eqn:E; cbn.
  - specialize (IH s'). destruct (decode_all f l) as [l'|e]; cbn in *; [by rewrite E|exact IH].
  - destruct (decode_all f l) as [l'|e']; cbn; [by rewrite E|by eexists].
Qed.
Lemma transaction_agrees t r : agrees (decode_all decode_action (Subchain.actions t)) (transaction_bytes now r t)
  (run_transaction now r).
Proof.
  pose proof (all_agree decode_action (action_bytes now) (run_action now) (Subchain.actions t) r
    (fun a s => action_agrees a s)) as H. unfold transaction_bytes, run_transaction.
  destruct (decode_all _ _) as [l|e]; cbn in *; [by rewrite H|]. destruct H as [e' ->]. by exists e'.
Qed.
End agree.

Lemma block_agrees `{Node} (b : Subchain.eosio_block) (d : db) :
  agrees (decode_block b) (block_bytes b d) (fun b' => filter_block b' d).
Proof.
  set (now := Time.block_of_time_point (BlockLog.timestamp b)).
  pose proof (all_agree (fun t => decode_all decode_action (Subchain.actions t)) (transaction_bytes now) (run_transaction now)
    (BlockLog.transactions b) (mk_replay d false false) (fun t r => transaction_agrees now t r)) as Ha.
  unfold decode_block, block_bytes, filter_block. destruct (decode_all _ _) as [l|e]; cbn in *.
  - fold now. by rewrite Ha.
  - destruct Ha as [e' Ha]. fold now. rewrite Ha. by exists e'.
Qed.

(** C19: the node may be given bytes or decoded actions.  When every action of
    a block decodes, the replay of the bytes is the replay of the decoded
    actions, with the same result and the same error; when one does not, the
    replay of the bytes fails, whatever the tables.  So what is proved of the
    decoded replay - that the money balances, the indices are exact, the
    mirror is kept - holds of the blocks as they arrive. *)
Theorem bytes_refine `{Node} (b : Subchain.eosio_block) (d : db) :
  match decode_block b with
  | Ok b' => block_bytes b d = filter_block b' d
  | Err _ => exists e, block_bytes b d = Err e
  end.
Proof. exact (block_agrees b d). Qed.

(** ** Arguments are read as they are written *)

Definition text_ok (t : string) : Prop := len_ok (bytes_of_string t).
Definition attribute_ok (a : attribute) : Prop := text_ok a.1 /\ exists t, a.2 = Some t /\ text_ok t.
Definition profile_ok (p : Inductions.new_member_profile) : Prop :=
  text_ok (Inductions.name p) /\ text_ok (Inductions.img p) /\ text_ok (Inductions.bio p) /\
  text_ok (Inductions.social p) /\ text_ok (Inductions.attributions p).
Definition handler_ok (f : handler) : Prop :=
  match f with
  | h_clearall => True
  | h_delsession a k | h_setencpubkey a k => uint_ok 8 a /\ key_ok k
  | h_withdraw a q | h_donate a q => uint_ok 8 a /\ asset_ok q
  | h_transfer t q m => uint_ok 8 t /\ asset_ok q /\ text_ok m
  | h_fundtransfer f t r o q m => uint_ok 8 f /\ uint_ok 4 t /\ uint_ok 1 r /\ uint_ok 8 o /\ asset_ok q /\ text_ok m
  | h_usertransfer f t q m => uint_ok 8 f /\ uint_ok 8 t /\ asset_ok q /\ text_ok m
  | h_genesis c y n l v a b t m =>
      text_ok c /\ uint_ok 8 y /\ asset_ok n /\ (len_ok l /\ Forall (uint_ok 8) l) /\ text_ok v /\
      (len_ok a /\ Forall attribute_ok a) /\ asset_ok b /\ uint_ok 4 t /\ text_ok m
  | h_addtogenesis a | h_resign a => uint_ok 8 a
  | h_inductinit i a b l => uint_ok 8 i /\ uint_ok 8 a /\ uint_ok 8 b /\ len_ok l /\ Forall (uint_ok 8) l
  | h_inductprofil i p => uint_ok 8 i /\ profile_ok p
  | h_inductmeetin a i | h_inductcancel a i | h_rename a i => uint_ok 8 a /\ uint_ok 8 i
  | h_inductvideo a i v => uint_ok 8 a /\ uint_ok 8 i /\ text_ok v
  | h_inductdonate p i q => uint_ok 8 p /\ uint_ok 8 i /\ asset_ok q
  | h_inductendors a i h => uint_ok 8 a /\ uint_ok 8 i /\ uint_ok 32 h
  | h_electopt v _ => uint_ok 8 v
  | h_electvote r v c => uint_ok 1 r /\ uint_ok 8 v /\ uint_ok 8 c
  | h_electmeeting a r => uint_ok 8 a /\ uint_ok 1 r
  | h_electvideo r a v => uint_ok 1 r /\ uint_ok 8 a /\ text_ok v
  end.

#[export] Instance unit_complete : Complete unit_codec (fun _ => True).
Proof. intros [] _. by exists []. Qed.
#[export] Instance profile_complete : Complete profile_codec profile_ok.
Proof. eapply struct_complete; [apply _|by intros []|done]. Qed.
#[export] Instance attribute_complete : Complete attribute_codec attribute_ok.
Proof.
  intros [k v] (Hk & t & Hv & Ht). cbn in Hv. subst v. destruct (complete (c := string_codec) k Hk) as (x & Hx & Rx).
  destruct (complete (c := string_codec) t Ht) as (y & Hy & Ry). exists (x ++ 10 :: y).
  unfold attribute_codec. cbn [to_bin from_bin fst snd default]. cbn [default id from_option]. rewrite Hx. cbn [mbind result_bind]. rewrite Hy.
  split; [done|]. intros rest. rewrite <- app_assoc, Rx. cbn [mbind result_bind].
  unfold attribute_value_from_bin. change (varuint32_from_bin ((10 :: y) ++ rest)) with (Ok (10, y ++ rest)).
  cbn [mbind result_bind]. change (10 <? 10) with false. change (10 =? 10) with true. cbn match. by rewrite Ry.
Qed.
#[export] Instance encrypted_key_complete : Complete encrypted_key_codec (fun k => key_ok k.1 /\ key_ok k.2.1 /\ len_ok k.2.2).
Proof. exact (pair_complete public_key_codec (pair_codec public_key_codec bytes_codec) key_ok (fun p => key_ok p.1 /\ len_ok p.2)). Qed.

Lemma handlers_complete : Forall (fun h => AltComplete h.2 handler_ok) handlers.
Proof.
  unfold handlers. repeat (apply Forall_cons; split); cbn [snd].
  all: try solve [eapply alt_of_complete; [unfold encrypted_codec, attributes_codec; typeclasses eauto
    | by intros [] ? [=]; subst | by intros [] ? ? [=]; subst]].
  3: constructor.
  all: eapply alt_of_complete; [unfold encrypted_codec; typeclasses eauto | by intros [] ? [=]; subst|].
  all: intros [] x Hf [=]; subst; destruct Hf as [H1 H2]; cbn; split_and!; try done; constructor.
Qed.

Lemma handler_names_distinct : NoDup ((fun h => Name.n h.1) <$> handlers).
Proof. apply (bool_decide_unpack _). by vm_compute. Qed.
Lemma find_handler_in t a : (t, a) ∈ handlers -> find_handler (Name.n t) = Some a.
Proof.
  intros Hin. apply list_elem_of_lookup_1 in Hin as [i Hi]. unfold find_handler.
  assert (list_find (fun h => Name.n h.1 = Name.n t) handlers = Some (i, (t, a))) as ->; [|done].
  apply list_find_Some. split; [done|]. split; [done|]. intros j y Hy Hj Hn.
  assert (j = i); [|lia]. eapply (NoDup_lookup _ j i (Name.n t)); [apply handler_names_distinct| |].
  - rewrite list_lookup_fmap, Hy. cbn. by rewrite Hn.
  - by rewrite list_lookup_fmap, Hi.
Qed.
Lemma handlers_not_run : Forall (fun h => Name.n h.1 <> Name.n "run") handlers.
Proof. apply (bool_decide_unpack _). by vm_compute. Qed.

(** An action of the contract whose data are the arguments of a handler,
    as they are serialized, runs that handler on those arguments; bytes that
    follow, such as arguments the node does not know, are ignored. *)
Theorem action_reads_arguments `{Node} (now : Z) (f : handler) (rest : list Z) (r : replay) :
  handler_ok f -> exists h x bs,
    (find_handler (handler_name f) = Some h /\ EventWire.get h f = Some x /\ to_bin (fields_codec h) x = Ok bs) /\
    dispatch_bytes now (handler_name f) (bs ++ rest) r = run_handler now f r.
Proof.
  intros Hf. assert (Exists (fun h => handler_name f = Name.n h.1 /\ is_Some (EventWire.get h.2 f)) handlers) as Hex.
  { destruct f; repeat first [apply Exists_cons_hd; split; [reflexivity|by eexists] | apply Exists_cons_tl]. }
  apply Exists_exists in Hex as ([t a] & Hin & Hn & x & Hx). cbn in Hn, Hx.
  pose proof handlers_complete as Hc. rewrite Forall_forall in Hc. destruct (Hc _ Hin f x Hf Hx) as (Hm & bs & Hw & Hr).
  pose proof handlers_not_run as Hrun. rewrite Forall_forall in Hrun. specialize (Hrun _ Hin).
  pose proof (find_handler_in t a Hin) as Hfind. cbn in Hm, Hw, Hr, Hrun. rewrite Hn.
  exists a, x, bs. split; [done|]. unfold dispatch_bytes. destruct (Z.eqb_spec (Name.n t) (Name.n "run")); [done|].
  unfold dispatch_handler. rewrite Hfind, Hr. cbn [mbind result_bind]. rewrite Hm. by destruct (run_handler now f r).
Qed.

(** A donation, with bytes the node does not know at its end. *)
Lemma action_reads_arguments_witness :
  let accounts := mk_node_accounts 1 2 3 4 in
  exists bs, dispatch_bytes (accounts := accounts) 0 (Name.n "donate") (bs ++ [9; 9]) (mk_replay empty_db false false)
    = run_handler 0 (h_donate 7 (Asset.mk 5 1162826500)) (mk_replay empty_db false false).
Proof.
  cbv zeta. destruct (action_reads_arguments (H := mk_node_accounts 1 2 3 4) 0 (h_donate 7 (Asset.mk 5 1162826500)) [9; 9]
    (mk_replay empty_db false false)) as (h & x & bs & _ & E); [|by exists bs].
  by vm_compute.
Defined.
End ActionReplay.
