(* ===== verification/Ship.v ===== *)
(** The messages of the chain's state history, which the history node is fed
    with ([libraries/abieos/include/eosio/ship_protocol.hpp]): requests,
    results, blocks and the traces of transactions, as far as the node reads
    them, and what the node takes from the traces
    ([contracts/eden/src/eden-micro-chain.cpp], [ship_to_eden_transactions]). *)
From S2P Require Import Prelude Crypto Binary EventWire KeyText BlockLog Subchain.
Import Crypto Binary EventWire Structs.
Open Scope string_scope.
Open Scope list_scope.
Open Scope Z_scope.

Module Ship.
#[local] Infix "⊗" := pair_codec (at level 35, right associativity).
Abbreviation i64 := (sint 8).

Record block_position : Type := mk_position { block_num : Z; block_id : Z }.
Definition block_position_codec : codec block_position :=
  struct_codec (uint 4 ⊗ checksum_codec) (fun p => (block_num p, block_id p)) (fun '(n, i) => mk_position n i).
Definition no_position : block_position := mk_position 0 0.

(** ** Requests *)

Record get_blocks_request_v0 : Type := mk_get_blocks {
  start_block_num : Z; end_block_num : Z; max_messages_in_flight : Z; have_positions : list block_position;
  irreversible_only : bool; fetch_block : bool; fetch_traces : bool; fetch_deltas : bool }.
Inductive request : Type :=
  | get_status_request_v0
  | get_blocks_request (r : get_blocks_request_v0)
  | get_blocks_ack_request_v0 (num_messages : Z).
Definition get_blocks_request_codec : codec get_blocks_request_v0 :=
  struct_codec (uint 4 ⊗ uint 4 ⊗ uint 4 ⊗ vector_codec block_position_codec ⊗ bool_codec ⊗ bool_codec ⊗ bool_codec ⊗ bool_codec)
    (fun r => (start_block_num r, (end_block_num r, (max_messages_in_flight r, (have_positions r,
                (irreversible_only r, (fetch_block r, (fetch_traces r, fetch_deltas r))))))))
    (fun '(s, (e, (m, (h, (i, (b, (t, d))))))) => mk_get_blocks s e m h i b t d).
Definition empty_codec : codec unit := mk_codec (fun _ => Ok []) (fun s => Ok (tt, s)).
Definition request_codec : codec request := variant_codec [
  mk_alt empty_codec (fun _ => get_status_request_v0) (fun r => match r with get_status_request_v0 => Some tt | _ => None end);
  mk_alt get_blocks_request_codec get_blocks_request (fun r => match r with get_blocks_request r => Some r | _ => None end);
  mk_alt (uint 4) get_blocks_ack_request_v0 (fun r => match r with get_blocks_ack_request_v0 n => Some n | _ => None end)
].

(** ** Results *)

(** [might_not_exist]: the last field, which older messages do not have. *)
Definition might_not_exist_codec (c : codec Z) : codec Z :=
  mk_codec (to_bin c) (fun s => match s with [] => Ok (0, []) | _ => from_bin c s end).
Record get_status_result_v0 : Type := mk_status {
  head_ : block_position; last_irreversible_ : block_position; trace_begin_block : Z; trace_end_block : Z;
  chain_state_begin_block : Z; chain_state_end_block : Z; chain_id : Z }.
Definition get_status_result_codec : codec get_status_result_v0 :=
  struct_codec (block_position_codec ⊗ block_position_codec ⊗ uint 4 ⊗ uint 4 ⊗ uint 4 ⊗ uint 4
                ⊗ might_not_exist_codec checksum_codec)
    (fun r => (head_ r, (last_irreversible_ r, (trace_begin_block r, (trace_end_block r, (chain_state_begin_block r,
                (chain_state_end_block r, chain_id r)))))))
    (fun '(h, (l, (tb, (te, (cb, (ce, i)))))) => mk_status h l tb te cb ce i).
Record get_blocks_result_v0 : Type := mk_blocks_result {
  head : block_position; last_irreversible : block_position; this_block : option block_position;
  prev_block : option block_position; block : option (list Z); traces : option (list Z); deltas : option (list Z) }.
Definition get_blocks_result_codec : codec get_blocks_result_v0 :=
  struct_codec (block_position_codec ⊗ block_position_codec ⊗ option_codec block_position_codec
                ⊗ option_codec block_position_codec ⊗ option_codec bytes_codec ⊗ option_codec bytes_codec ⊗ option_codec bytes_codec)
    (fun r => (head r, (last_irreversible r, (this_block r, (prev_block r, (block r, (traces r, deltas r)))))))
    (fun '(h, (l, (t, (p, (b, (r, d)))))) => mk_blocks_result h l t p b r d).
Inductive result_ : Type := get_status_result (r : get_status_result_v0) | get_blocks_result (r : get_blocks_result_v0).
Definition result_codec : codec result_ := variant_codec [
  mk_alt get_status_result_codec get_status_result (fun r => match r with get_status_result r => Some r | _ => None end);
  mk_alt get_blocks_result_codec get_blocks_result (fun r => match r with get_blocks_result r => Some r | _ => None end)
].

(** ** Traces *)

(** The actor and the permission; the type and the data of an extension; the
    account and the number of a sequence; the account and the change of its
    memory. *)
Definition permission_level_codec : codec (Z * Z) := uint 8 ⊗ uint 8.
Definition extension_codec : codec (Z * list Z) := uint 2 ⊗ bytes_codec.
Definition account_auth_sequence_codec : codec (Z * Z) := uint 8 ⊗ uint 8.
Definition account_delta_codec : codec (Z * Z) := uint 8 ⊗ i64.

Record action : Type := mk_action { account : Z; name : Z; authorization : list (Z * Z); data : list Z }.
Definition action_codec : codec action :=
  struct_codec (uint 8 ⊗ uint 8 ⊗ vector_codec permission_level_codec ⊗ bytes_codec)
    (fun a => (account a, (name a, (authorization a, data a)))) (fun '(c, (n, (p, d))) => mk_action c n p d).
Record action_receipt : Type := action_receipt_v0 {
  receipt_receiver : Z; act_digest : Z; global_sequence : Z; recv_sequence : Z; auth_sequence : list (Z * Z);
  code_sequence : Z; abi_sequence : Z }.
Definition action_receipt_v0_codec : codec action_receipt :=
  struct_codec (uint 8 ⊗ checksum_codec ⊗ uint 8 ⊗ uint 8 ⊗ vector_codec account_auth_sequence_codec ⊗ varuint32 ⊗ varuint32)
    (fun r => (receipt_receiver r, (act_digest r, (global_sequence r, (recv_sequence r, (auth_sequence r,
                (code_sequence r, abi_sequence r)))))))
    (fun '(r, (d, (g, (q, (l, (c, a)))))) => action_receipt_v0 r d g q l c a).
(** A variant with one alternative *)
Definition one_of {A} (c : codec A) : codec A := variant_codec [mk_alt c (fun a => a) Some].
Definition action_receipt_codec : codec action_receipt := one_of action_receipt_v0_codec.

(** The fields of an [action_trace_v0], which are those of an
    [action_trace_v1] before the value returned. *)
Record action_trace_fields : Type := mk_trace {
  action_ordinal : Z; creator_action_ordinal : Z; receipt : option action_receipt; receiver : Z; act : action;
  context_free : bool; elapsed : Z; console : list Z; account_ram_deltas : list (Z * Z); except : option (list Z);
  error_code : option Z }.
Definition action_trace_fields_codec : codec action_trace_fields :=
  struct_codec (varuint32 ⊗ varuint32 ⊗ option_codec action_receipt_codec ⊗ uint 8 ⊗ action_codec ⊗ bool_codec ⊗ i64
                ⊗ bytes_codec ⊗ vector_codec account_delta_codec ⊗ option_codec bytes_codec ⊗ option_codec (uint 8))
    (fun t => (action_ordinal t, (creator_action_ordinal t, (receipt t, (receiver t, (act t, (context_free t, (elapsed t,
                (console t, (account_ram_deltas t, (except t, error_code t)))))))))))
    (fun '(o, (c, (r, (v, (a, (f, (e, (s, (d, (x, k)))))))))) => mk_trace o c r v a f e s d x k).
Inductive action_trace : Type :=
  | action_trace_v0 (t : action_trace_fields)
  | action_trace_v1 (t : action_trace_fields) (return_value : list Z).
Definition trace_fields (t : action_trace) : action_trace_fields :=
  match t with action_trace_v0 t | action_trace_v1 t _ => t end.
Definition action_trace_codec : codec action_trace := variant_codec [
  mk_alt action_trace_fields_codec action_trace_v0 (fun t => match t with action_trace_v0 t => Some t | _ => None end);
  mk_alt (action_trace_fields_codec ⊗ bytes_codec) (fun '(t, v) => action_trace_v1 t v)
    (fun t => match t with action_trace_v1 t v => Some (t, v) | _ => None end)
].

(** [partial_transaction_v0]: expiration, reference block, limits, extensions,
    signatures and context free data. *)
Definition partial_transaction_codec : codec (Z * (Z * (Z * (Z * (Z * (Z * (list (Z * list Z) *
    (list KeyText.signature * list (list Z))))))))) :=
  one_of (uint 4 ⊗ uint 2 ⊗ uint 4 ⊗ varuint32 ⊗ uint 1 ⊗ varuint32 ⊗ vector_codec extension_codec
    ⊗ vector_codec KeyText.signature_codec ⊗ vector_codec bytes_codec).
Abbreviation partial_transaction := (Z * (Z * (Z * (Z * (Z * (Z * (list (Z * list Z) *
    (list KeyText.signature * list (list Z)))))))))%type.

(** A trace holds the traces of deferred transactions that failed. *)
Inductive transaction_trace : Type := transaction_trace_v0 {
  id : Z; status : Z; cpu_usage_us : Z; net_usage_words : Z; trx_elapsed : Z; net_usage : Z; scheduled : bool;
  action_traces : list action_trace; account_ram_delta : option (Z * Z); trx_except : option (list Z);
  trx_error_code : option Z; failed_dtrx_trace : list transaction_trace; partial : option partial_transaction }.

(** The traces inside are read to a depth. *)
Definition too_deep : codec transaction_trace := mk_codec (fun _ => Err (Trap "depth")) (fun _ => Err (Trap "depth")).
Fixpoint transaction_trace_codec (depth : nat) : codec transaction_trace :=
  one_of (struct_codec
    (checksum_codec ⊗ uint 1 ⊗ uint 4 ⊗ varuint32 ⊗ i64 ⊗ uint 8 ⊗ bool_codec ⊗ vector_codec action_trace_codec
     ⊗ option_codec account_delta_codec ⊗ option_codec bytes_codec ⊗ option_codec (uint 8)
     ⊗ vector_codec (match depth with O => too_deep | S n => transaction_trace_codec n end)
     ⊗ option_codec partial_transaction_codec)
    (fun t => (id t, (status t, (cpu_usage_us t, (net_usage_words t, (trx_elapsed t, (net_usage t, (scheduled t,
       (action_traces t, (account_ram_delta t, (trx_except t, (trx_error_code t, (failed_dtrx_trace t, partial t)))))))))))))
    (fun '(i, (s, (c, (n, (e, (u, (d, (a, (r, (x, (k, (f, p)))))))))))) => transaction_trace_v0 i s c n e u d a r x k f p)).
(** Every level of nesting takes a byte. *)
Definition traces_from_bin (s : list Z) : result (list transaction_trace * list Z) :=
  from_bin (vector_codec (transaction_trace_codec (length s))) s.

(** ** Blocks *)

Definition producer_schedule_codec : codec (Z * list (Z * public_key)) := uint 4 ⊗ vector_codec (uint 8 ⊗ public_key_codec).
(** Signatures, compression, context free data and the transaction, packed. *)
Abbreviation packed_transaction := (list KeyText.signature * (Z * (list Z * list Z)))%type.
Definition packed_transaction_codec : codec packed_transaction :=
  vector_codec KeyText.signature_codec ⊗ uint 1 ⊗ bytes_codec ⊗ bytes_codec.
Inductive transaction_variant : Type := trx_id (i : Z) | trx_packed (t : packed_transaction).
Definition transaction_variant_codec : codec transaction_variant := variant_codec [
  mk_alt checksum_codec trx_id (fun t => match t with trx_id i => Some i | _ => None end);
  mk_alt packed_transaction_codec trx_packed (fun t => match t with trx_packed p => Some p | _ => None end)
].
(** Status, processor time and network words of the header, then the
    transaction. *)
Definition transaction_receipt_codec : codec (Z * (Z * (Z * transaction_variant))) :=
  uint 1 ⊗ uint 4 ⊗ varuint32 ⊗ transaction_variant_codec.
Record signed_block : Type := mk_signed_block {
  timestamp : Z; producer : Z; confirmed : Z; previous : Z; transaction_mroot : Z; action_mroot : Z;
  schedule_version : Z; new_producers : option (Z * list (Z * public_key)); header_extensions : list (Z * list Z);
  producer_signature : KeyText.signature; transactions : list (Z * (Z * (Z * transaction_variant)));
  block_extensions : list (Z * list Z) }.
Definition signed_block_codec : codec signed_block :=
  struct_codec (uint 4 ⊗ uint 8 ⊗ uint 2 ⊗ checksum_codec ⊗ checksum_codec ⊗ checksum_codec ⊗ uint 4
    ⊗ option_codec producer_schedule_codec ⊗ vector_codec extension_codec ⊗ KeyText.signature_codec
    ⊗ vector_codec transaction_receipt_codec ⊗ vector_codec extension_codec)
    (fun b => (timestamp b, (producer b, (confirmed b, (previous b, (transaction_mroot b, (action_mroot b,
       (schedule_version b, (new_producers b, (header_extensions b, (producer_signature b, (transactions b,
        block_extensions b))))))))))))
    (fun '(t, (p, (c, (r, (m, (a, (v, (n, (h, (s, (l, x))))))))))) => mk_signed_block t p c r m a v n h s l x).

(** ** [ship_to_eden_transactions] *)

(** [*trace.receipt] *)
Definition receipt_of (t : action_trace) : result action_receipt :=
  some_or (Trap "dereferenced an empty optional") (receipt (trace_fields t)).
Definition creator_of (ts : list action_trace) (ordinal : Z) : result (option Subchain.creator_action) :=
  if 0 <? ordinal then
    c ← some_or (Trap "vector index out of range") (ts !! Z.to_nat (ordinal - 1));
    r ← receipt_of c;
    Ok (Some (Subchain.mk_creator (global_sequence r) (receiver (trace_fields c))))
  else Ok None.
Definition to_eden_action (ts : list action_trace) (t : action_trace) : result Subchain.action :=
  let f := trace_fields t in
  creator ← creator_of ts (creator_action_ordinal f);
  r ← receipt_of t;
  Ok (Subchain.mk_action (global_sequence r) (account (act f)) (receiver f) (name (act f)) creator (data (act f))).
Fixpoint to_eden_actions (all ts : list action_trace) : result (list Subchain.action) :=
  match ts with
  | [] => Ok []
  | t :: ts => a ← to_eden_action all t; l ← to_eden_actions all ts; Ok (a :: l)
  end.
Fixpoint ship_to_eden_transactions (traces : list transaction_trace) : result (list Subchain.transaction) :=
  match traces with
  | [] => Ok []
  | t :: traces =>
      l ← to_eden_actions (action_traces t) (action_traces t);
      ts ← ship_to_eden_transactions traces; Ok (Subchain.mk_transaction (id t) l :: ts)
  end.

End Ship.
