(* ===== verification/ShipRun.v ===== *)
(** What is written of the state history's messages is read back, and which
    traces the history node takes. *)
From S2P Require Import Prelude Crypto Binary EventWire KeyText BlockLog Subchain Ship.
Import Crypto Binary EventWire Structs KeyText Ship.
Open Scope string_scope.
Open Scope list_scope.
Open Scope Z_scope.

Module ShipRun.
#[local] Infix "⊗" := pair_codec (at level 35, right associativity).

(** ** What the types hold *)

Definition i64_ok (z : Z) : Prop := - 2 ^ 63 <= z < 2 ^ 63.
Definition option_ok {A} (P : A -> Prop) (o : option A) : Prop := match o with Some a => P a | None => True end.
Definition vector_ok {A} (P : A -> Prop) (l : list A) : Prop := len_ok l /\ Forall P l.
Definition position_ok (p : block_position) : Prop := uint_ok 4 (block_num p) /\ uint_ok 32 (block_id p).
Definition get_blocks_ok (r : get_blocks_request_v0) : Prop :=
  uint_ok 4 (start_block_num r) /\ uint_ok 4 (end_block_num r) /\ uint_ok 4 (max_messages_in_flight r) /\
  vector_ok position_ok (have_positions r) /\ True /\ True /\ True /\ True.
Definition request_ok (r : request) : Prop :=
  match r with
  | get_status_request_v0 => True
  | get_blocks_request r => get_blocks_ok r
  | get_blocks_ack_request_v0 n => uint_ok 4 n
  end.
Definition status_ok (r : get_status_result_v0) : Prop :=
  position_ok (head_ r) /\ position_ok (last_irreversible_ r) /\ uint_ok 4 (trace_begin_block r) /\
  uint_ok 4 (trace_end_block r) /\ uint_ok 4 (chain_state_begin_block r) /\ uint_ok 4 (chain_state_end_block r) /\
  uint_ok 32 (chain_id r).
Definition blocks_ok (r : get_blocks_result_v0) : Prop :=
  position_ok (head r) /\ position_ok (last_irreversible r) /\ option_ok position_ok (this_block r) /\
  option_ok position_ok (prev_block r) /\ option_ok len_ok (block r) /\ option_ok len_ok (traces r) /\
  option_ok len_ok (deltas r).
Definition result_ok (r : result_) : Prop :=
  match r with get_status_result r => status_ok r | get_blocks_result r => blocks_ok r end.

Definition pair_ok {A B} (P : A -> Prop) (Q : B -> Prop) (p : A * B) : Prop := P p.1 /\ Q p.2.
Definition ship_action_ok (a : action) : Prop :=
  uint_ok 8 (account a) /\ uint_ok 8 (name a) /\ vector_ok (pair_ok (uint_ok 8) (uint_ok 8)) (authorization a) /\
  len_ok (data a).
Definition receipt_ok (r : action_receipt) : Prop :=
  uint_ok 8 (receipt_receiver r) /\ uint_ok 32 (act_digest r) /\ uint_ok 8 (global_sequence r) /\
  uint_ok 8 (recv_sequence r) /\ vector_ok (pair_ok (uint_ok 8) (uint_ok 8)) (auth_sequence r) /\
  uint_ok 4 (code_sequence r) /\ uint_ok 4 (abi_sequence r).
Definition trace_fields_ok (t : action_trace_fields) : Prop :=
  uint_ok 4 (action_ordinal t) /\ uint_ok 4 (creator_action_ordinal t) /\ option_ok receipt_ok (receipt t) /\
  uint_ok 8 (receiver t) /\ ship_action_ok (act t) /\ True /\ i64_ok (elapsed t) /\ len_ok (console t) /\
  vector_ok (pair_ok (uint_ok 8) i64_ok) (account_ram_deltas t) /\ option_ok len_ok (except t) /\
  option_ok (uint_ok 8) (error_code t).
Definition trace_ok (t : action_trace) : Prop :=
  match t with
  | action_trace_v0 t => trace_fields_ok t
  | action_trace_v1 t v => trace_fields_ok t /\ len_ok v
  end.
Definition extensions_ok : list (Z * list Z) -> Prop := vector_ok (pair_ok (uint_ok 2) len_ok).
Definition partial_ok : partial_transaction -> Prop :=
  pair_ok (uint_ok 4) (pair_ok (uint_ok 2) (pair_ok (uint_ok 4) (pair_ok (uint_ok 4) (pair_ok (uint_ok 1)
    (pair_ok (uint_ok 4) (pair_ok extensions_ok (pair_ok (vector_ok signature_ok) (vector_ok len_ok)))))))).
(** The traces inside go no deeper than [depth]. *)
Fixpoint transaction_trace_ok (depth : nat) (t : transaction_trace) : Prop :=
  uint_ok 32 (id t) /\ uint_ok 1 (status t) /\ uint_ok 4 (cpu_usage_us t) /\ uint_ok 4 (net_usage_words t) /\
  i64_ok (trx_elapsed t) /\ uint_ok 8 (net_usage t) /\ True /\ vector_ok trace_ok (action_traces t) /\
  option_ok (pair_ok (uint_ok 8) i64_ok) (account_ram_delta t) /\ option_ok len_ok (trx_except t) /\
  option_ok (uint_ok 8) (trx_error_code t) /\
  vector_ok (match depth with O => fun _ => False | S n => transaction_trace_ok n end) (failed_dtrx_trace t) /\
  option_ok partial_ok (partial t).

(** ** What is written is read back *)

#[export] Instance position_complete : Complete block_position_codec position_ok.
Proof. eapply struct_complete; [apply _|by intros []|done]. Qed.
#[export] Instance get_blocks_complete : Complete get_blocks_request_codec get_blocks_ok.
Proof. eapply struct_complete; [apply _|by intros []|done]. Qed.
#[export] Instance empty_complete : Complete empty_codec (fun _ => True).
Proof. intros []. by exists []. Qed.
#[export] Instance request_complete : Complete request_codec request_ok.
Proof. apply variant_complete; [alternatives | done | intros [] ?; some_alternative]. Qed.

(** The last field of a status is written, hence read. *)
#[export] Instance might_not_exist_complete : Complete (might_not_exist_codec checksum_codec) (uint_ok 32).
Proof.
  intros c Hc. destruct (complete (c := checksum_codec) c Hc) as (bs & Hw & Hr). exists bs. split; [exact Hw|].
  intros rest. cbn [might_not_exist_codec from_bin]. destruct (bs ++ rest) eqn:E; [|by rewrite <- E].
  apply app_nil in E as [-> ->]. by specialize (Hr []).
Qed.
#[export] Instance status_complete : Complete get_status_result_codec status_ok.
Proof. eapply struct_complete; [apply _|by intros []|done]. Qed.
#[export] Instance blocks_complete : Complete get_blocks_result_codec blocks_ok.
Proof. eapply struct_complete; [apply _|by intros []|done]. Qed.
#[export] Instance ship_result_complete : Complete result_codec result_ok.
Proof. apply variant_complete; [alternatives | done | intros [] ?; some_alternative]. Qed.

Lemma complete_weaken {A} (c : codec A) (P Q : A -> Prop) : Complete c P -> (forall a, Q a -> P a) -> Complete c Q.
Proof. intros Hc Hq a Ha. by apply Hc, Hq. Qed.
Lemma one_of_complete {A} (c : codec A) P : Complete c P -> Complete (one_of c) P.
Proof.
  intros Hc. apply variant_complete; [|done|].
  - apply Forall_cons; split; [|constructor]. eapply alt_of_complete; [exact Hc | by intros ? ? [=] | by intros ? ? ? [= <-]].
  - intros e He. apply Exists_cons_hd. by eexists.
Qed.
#[export] Hint Extern 1 (Complete (one_of _) _) => apply one_of_complete : typeclass_instances.

#[export] Instance ship_action_complete : Complete action_codec ship_action_ok.
Proof.
  eapply struct_complete; [unfold permission_level_codec; apply _|by intros []|done].
Qed.
#[export] Instance receipt_complete : Complete action_receipt_codec receipt_ok.
Proof.
  apply one_of_complete. eapply struct_complete; [unfold account_auth_sequence_codec; apply _|by intros []|done].
Qed.
#[export] Instance trace_fields_complete : Complete action_trace_fields_codec trace_fields_ok.
Proof.
  eapply struct_complete; [unfold account_delta_codec; apply _|by intros []|done].
Qed.
#[export] Instance trace_complete : Complete action_trace_codec trace_ok.
Proof.
  apply variant_complete; [|done|intros [] ?; some_alternative].
  repeat (apply Forall_cons; split); [alternatives| |constructor].
  eapply alt_of_complete; [apply _ | by intros [] [] [=]; subst | by intros [] ? ? [=]; subst].
Qed.
#[export] Instance partial_complete : Complete partial_transaction_codec partial_ok.
Proof. apply one_of_complete. eapply complete_weaken; [unfold extension_codec; apply _|by intros a Ha]. Qed.
#[export] Instance too_deep_complete : Complete too_deep (fun _ => False).
Proof. by intros a []. Qed.
#[export] Instance transaction_trace_complete depth : Complete (transaction_trace_codec depth) (transaction_trace_ok depth).
Proof.
  induction depth as [|depth IH]; apply one_of_complete.
  all: eapply struct_complete; [unfold account_delta_codec; apply _|by intros []|by intros []].
Qed.

(** Blocks *)
Definition producer_ok : Z * public_key -> Prop := pair_ok (uint_ok 8) key_ok.
Definition packed_ok : packed_transaction -> Prop :=
  pair_ok (vector_ok signature_ok) (pair_ok (uint_ok 1) (pair_ok len_ok len_ok)).
Definition variant_ok (t : transaction_variant) : Prop :=
  match t with trx_id i => uint_ok 32 i | trx_packed t => packed_ok t end.
Definition signed_block_ok (b : signed_block) : Prop :=
  uint_ok 4 (timestamp b) /\ uint_ok 8 (producer b) /\ uint_ok 2 (confirmed b) /\ uint_ok 32 (previous b) /\
  uint_ok 32 (transaction_mroot b) /\ uint_ok 32 (action_mroot b) /\ uint_ok 4 (schedule_version b) /\
  option_ok (pair_ok (uint_ok 4) (vector_ok producer_ok)) (new_producers b) /\ extensions_ok (header_extensions b) /\
  signature_ok (producer_signature b) /\
  vector_ok (pair_ok (uint_ok 1) (pair_ok (uint_ok 4) (pair_ok (uint_ok 4) variant_ok))) (transactions b) /\
  extensions_ok (block_extensions b).
#[export] Instance transaction_variant_complete : Complete transaction_variant_codec variant_ok.
Proof.
  apply variant_complete; [|done|intros [] ?; some_alternative].
  repeat (apply Forall_cons; split); [alternatives| |constructor].
  eapply alt_of_complete; [unfold packed_transaction_codec; apply _ | by intros [] ? [=]; subst | by intros [] ? ? [=]; subst].
Qed.
#[export] Instance signed_block_complete : Complete signed_block_codec signed_block_ok.
Proof.
  eapply struct_complete; [unfold producer_schedule_codec, extension_codec, transaction_receipt_codec; apply _|by intros []|done].
Qed.

(** ** The depth is enough *)

(** What is left is no longer than what was given. *)
Class Shrinks {A} (c : codec A) : Prop :=
  shrinks : forall s a rest, from_bin c s = Ok (a, rest) -> (length rest <= length s)%nat.

Lemma read_shrinks n s a rest : read n s = Ok (a, rest) -> (length rest <= length s)%nat.
Proof. unfold read. destruct (Nat.leb n (length s)); [|done]. intros [= <- <-]. rewrite length_drop. lia. Qed.
Lemma varuint_read_shrinks fuel w acc shift s a rest :
  varuint_read fuel w acc shift s = Ok (a, rest) -> (length rest < length s)%nat.
Proof.
  revert acc shift s. induction fuel as [|fuel IH]; intros acc shift s H; [done|]. cbn [varuint_read] in H.
  destruct s as [|b s]; [done|]. cbn [length]. repeat case_match; try done.
  - apply IH in H. lia.
  - injection H as <- <-. lia.
Qed.
Lemma varuint_shrinks s a rest : varuint32_from_bin s = Ok (a, rest) -> (length rest < length s)%nat.
Proof. apply varuint_read_shrinks. Qed.

(** The steps of a reader, one after the other. *)
Ltac reads H :=
  repeat match type of H with
  | (_ ≫= _) = Ok _ => let x := fresh "x" in let r := fresh "r" in let E := fresh "E" in
      apply bind_Ok in H as ([x r] & E & H); cbv beta iota in H;
      first [apply read_shrinks in E | apply varuint_shrinks in E | apply shrinks in E | idtac]
  | Ok _ = Ok _ => injection H as ? ?; subst
  end.
Ltac reads_less := let H := fresh in intros ? ? ? H; cbn in H; reads H; lia.
#[export] Instance uint_shrinks n : Shrinks (uint n). Proof. reads_less. Qed.
#[export] Instance sint_shrinks n : Shrinks (sint n). Proof. reads_less. Qed.
#[export] Instance array_shrinks n : Shrinks (array_codec n). Proof. exact (read_shrinks n). Qed.
#[export] Instance checksum_shrinks : Shrinks checksum_codec. Proof. reads_less. Qed.
#[export] Instance bool_shrinks : Shrinks bool_codec. Proof. reads_less. Qed.
#[export] Instance varuint32_shrinks : Shrinks varuint32.
Proof. intros s a rest H. apply varuint_shrinks in H. lia. Qed.
#[export] Instance bytes_shrinks : Shrinks bytes_codec.
Proof. intros s a rest H. cbn in H. reads H. apply read_shrinks in H. lia. Qed.
Section shrinking.
Context {A B : Type} (ca : codec A) (cb : codec B) `{!Shrinks ca}.
#[export] Instance pair_shrinks `{!Shrinks cb} : Shrinks (pair_codec ca cb). Proof. reads_less. Qed.
#[export] Instance struct_shrinks to_fields (of_fields : A -> B) : Shrinks (struct_codec ca to_fields of_fields).
Proof. reads_less. Qed.
#[export] Instance option_shrinks : Shrinks (option_codec ca).
Proof.
  intros s a rest H. cbn [option_codec from_bin] in H. apply bind_Ok in H as ([[] r] & E & H); apply shrinks in E; reads H; lia.
Qed.
Lemma read_all_shrinks n s l rest : read_all ca n s = Ok (l, rest) -> (length rest <= length s)%nat.
Proof.
  revert s l. induction n as [|n IH]; intros s l H; cbn in H; [by injection H as <- <-|]. reads H.
  match goal with E : read_all _ _ _ = _ |- _ => apply IH in E end. lia.
Qed.
#[export] Instance vector_shrinks : Shrinks (vector_codec ca).
Proof. intros s a rest H. cbn in H. reads H. apply read_all_shrinks in H. lia. Qed.
End shrinking.
Lemma variant_from_shrinks {E} (alts : list (alternative E)) I i s e rest :
  Forall (fun a => Shrinks (fields_codec a)) alts -> variant_from_bin I alts i s = Ok (e, rest) ->
  (length rest <= length s)%nat.
Proof.
  intros Ha. revert I. induction Ha as [|a alts Ha _ IH]; intros I H; [done|]. cbn [variant_from_bin] in H.
  destruct (i =? I); [reads H; lia|by eapply IH].
Qed.
#[export] Instance variant_shrinks {E} (alts : list (alternative E)) :
  TCForall (fun a => Shrinks (fields_codec a)) alts -> Shrinks (variant_codec alts).
Proof.
  intros Ha s e rest H. cbn [variant_codec from_bin] in H. reads H. apply variant_from_shrinks in H; [lia|].
  by apply TCForall_Forall.
Qed.
#[export] Instance one_of_shrinks {A} (c : codec A) : Shrinks c -> Shrinks (one_of c).
Proof. intros Hc. apply variant_shrinks. apply TCForall_cons; [exact Hc|apply TCForall_nil]. Qed.
#[export] Instance string_shrinks : Shrinks string_codec.
Proof.
  intros s a rest H. apply bind_Ok in H as ([x r] & E & H). apply (bytes_shrinks s x r) in E. by injection H as _ <-.
Qed.
#[export] Instance signature_shrinks : Shrinks signature_codec.
Proof. apply variant_shrinks. repeat apply TCForall_cons; [..|apply TCForall_nil]; cbn; apply _. Qed.
#[export] Instance partial_shrinks : Shrinks partial_transaction_codec.
Proof. apply one_of_shrinks. unfold extension_codec. apply _. Qed.
#[export] Instance action_trace_shrinks : Shrinks action_trace_codec.
Proof. unfold action_trace_codec. apply _. Qed.

(** Two readers agree on what is no longer than [n]. *)
Definition same_reads {A} (n : nat) (c1 c2 : codec A) : Prop :=
  forall s, (length s <= n)%nat -> from_bin c1 s = from_bin c2 s.
Lemma same_refl {A} n (c : codec A) : same_reads n c c.
Proof. by intros s _. Qed.
Lemma same_pair {A B} n (a1 a2 : codec A) (b1 b2 : codec B) :
  Shrinks a1 -> same_reads n a1 a2 -> same_reads n b1 b2 -> same_reads n (pair_codec a1 b1) (pair_codec a2 b2).
Proof.
  intros Hs Ha Hb s Hl. cbn [pair_codec from_bin]. rewrite <- Ha by done.
  destruct (from_bin a1 s) as [[x r]|e] eqn:E; [|done]. cbn. rewrite Hb; [done|]. apply Hs in E. lia.
Qed.
Lemma same_struct {A B} n (c1 c2 : codec A) (f : B -> A) g :
  same_reads n c1 c2 -> same_reads n (struct_codec c1 f g) (struct_codec c2 f g).
Proof. intros Hc s Hl. cbn [struct_codec from_bin]. by rewrite Hc. Qed.
Lemma same_vector {A} n (c1 c2 : codec A) :
  Shrinks c1 -> same_reads n c1 c2 -> same_reads (S n) (vector_codec c1) (vector_codec c2).
Proof.
  intros Hs Hc s Hl. cbn [vector_codec from_bin]. destruct (varuint32_from_bin s) as [[k r]|e] eqn:E; [|done]. cbn.
  apply varuint_shrinks in E. assert (length r <= n)%nat as Hr by lia. clear E. revert r Hr.
  induction (Z.to_nat k) as [|m IH]; intros r Hr; [done|]. cbn [read_all]. rewrite <- Hc by done.
  destruct (from_bin c1 r) as [[x r1]|e] eqn:E; [|done]. cbn. rewrite IH; [done|]. apply Hs in E. lia.
Qed.
Lemma same_one_of {A} n (c1 c2 : codec A) : same_reads n c1 c2 -> same_reads (S n) (one_of c1) (one_of c2).
Proof.
  intros Hc s Hl. unfold one_of, variant_codec. cbn [from_bin]. destruct (varuint32_from_bin s) as [[k r]|e] eqn:E; [|done].
  apply varuint_shrinks in E. cbn. destruct (k =? 0); [|done]. by rewrite Hc by lia.
Qed.
#[export] Instance too_deep_shrinks : Shrinks too_deep. Proof. by intros s a rest H. Qed.
#[export] Instance transaction_trace_shrinks depth : Shrinks (transaction_trace_codec depth).
Proof.
  induction depth as [|depth IH]; cbn [transaction_trace_codec]; apply one_of_shrinks, struct_shrinks.
  all: repeat (apply pair_shrinks; [apply _|]). all: apply option_shrinks, partial_shrinks.
Qed.
Lemma same_traces n d1 d2 : (n <= d1)%nat -> (n <= d2)%nat ->
  same_reads n (transaction_trace_codec d1) (transaction_trace_codec d2).
Proof.
  revert d1 d2. induction n as [|n IH]; intros d1 d2 H1 H2.
  - intros s Hl. destruct s; [|cbn in Hl; lia]. trans (@Err (transaction_trace * list Z) overrun).
    + destruct d1; reflexivity.
    + destruct d2; reflexivity.
  - destruct d1 as [|d1], d2 as [|d2]; [lia..|]. cbn [transaction_trace_codec]. apply same_one_of, same_struct.
    do 11 (apply same_pair; [apply _|apply same_refl|]). apply same_pair; [apply _| |apply same_refl].
    intros s Hl. apply (same_vector n); [apply _| |lia]. by apply IH; lia.
Qed.
Lemma traces_read depth s : (length s <= depth)%nat ->
  traces_from_bin s = from_bin (vector_codec (transaction_trace_codec depth)) s.
Proof.
  intros Hd. apply (same_vector (length s)); [apply _| |lia]. by apply same_traces.
Qed.

(** ** What the node takes of the traces *)

(** A trace that was executed, and whose creator was. *)
Definition executed (t : action_trace) : Prop := is_Some (receipt (trace_fields t)).
Definition usable (ts : list action_trace) (t : action_trace) : Prop :=
  (0 < creator_action_ordinal (trace_fields t) ->
   exists c, ts !! Z.to_nat (creator_action_ordinal (trace_fields t) - 1) = Some c /\ executed c) /\ executed t.
(** The action the node takes for a trace. *)
Record taken (ts : list action_trace) (t : action_trace) (a : Subchain.action) : Prop := {
  tk_receipt : exists r, receipt (trace_fields t) = Some r /\ Subchain.seq a = global_sequence r;
  tk_first : Subchain.firstReceiver a = account (act (trace_fields t));
  tk_receiver : Subchain.receiver a = receiver (trace_fields t);
  tk_name : Subchain.name a = name (act (trace_fields t));
  tk_data : Subchain.hexData a = data (act (trace_fields t));
  tk_creator : match Subchain.creatorAction a with
    | Some x => exists c r, 0 < creator_action_ordinal (trace_fields t) /\
        ts !! Z.to_nat (creator_action_ordinal (trace_fields t) - 1) = Some c /\
        receipt (trace_fields c) = Some r /\ x = Subchain.mk_creator (global_sequence r) (receiver (trace_fields c))
    | None => creator_action_ordinal (trace_fields t) <= 0
    end
}.

Lemma to_eden_action_spec ts t :
  match to_eden_action ts t with Ok a => usable ts t /\ taken ts t a | Err _ => ~ usable ts t end.
Proof.
  unfold to_eden_action, creator_of, receipt_of, usable, executed.
  destruct (Z.ltb_spec 0 (creator_action_ordinal (trace_fields t))) as [Hc|Hc].
  - destruct (ts !! _) as [c|] eqn:Ec; cbn; [|by intros [(c & ? & _) _]].
    destruct (receipt (trace_fields c)) as [rc|] eqn:Er; cbn.
    2: { intros [(c' & [= <-] & x & Hx) _]; [done|]. congruence. }
    destruct (receipt (trace_fields t)) as [r|] eqn:E; cbn; [|by intros [_ []]].
    split; [split; [|by eexists]; intros _; exists c; rewrite Er; eauto|]. split; cbn; [eauto|done..|eauto 6].
  - destruct (receipt (trace_fields t)) as [r|] eqn:E; cbn; [|by intros [_ []]].
    split; [split; [lia|by eexists]|]. split; cbn; eauto.
Qed.
Lemma to_eden_actions_spec all ts :
  match to_eden_actions all ts with
  | Ok l => Forall (usable all) ts /\ Forall2 (taken all) ts l
  | Err _ => ~ Forall (usable all) ts
  end.
Proof.
  induction ts as [|t ts IH]; cbn [to_eden_actions]; [by split|]. pose proof (to_eden_action_spec all t) as H.
  destruct (to_eden_action all t) as [a|e]; cbn; [|intros Hf; by inversion Hf].
  destruct (to_eden_actions all ts) as [l|e]; cbn; [|intros Hf; by inversion Hf].
  destruct H, IH. by split; constructor.
Qed.

(** C30: the history node takes the traces of a block exactly when every action
    trace of every transaction has a receipt and its creator, when it has one,
    is one of the traces listed and has a receipt too - whatever the status of the
    transaction, so a transaction that failed in the middle of its actions
    stops the node.  Then it takes every transaction, in order, with its id
    and one action for each trace: the sequence number of the receipt, the
    receivers, the name and the data of the action, and the sequence number
    and receiver of the creator. *)
Theorem traces_taken (traces : list transaction_trace) :
  match ship_to_eden_transactions traces with
  | Ok ts => Forall2 (fun t e => Subchain.id e = id t /\
               Forall (usable (action_traces t)) (action_traces t) /\
               Forall2 (taken (action_traces t)) (action_traces t) (Subchain.actions e)) traces ts
  | Err _ => Exists (fun t => ~ Forall (usable (action_traces t)) (action_traces t)) traces
  end.
Proof.
  induction traces as [|t traces IH]; cbn [ship_to_eden_transactions]; [by constructor|].
  pose proof (to_eden_actions_spec (action_traces t) (action_traces t)) as H.
  destruct (to_eden_actions _ _) as [l|e]; cbn; [|by apply Exists_cons_hd].
  destruct (ship_to_eden_transactions traces) as [ts|e]; cbn; [|by apply Exists_cons_tl]. by constructor.
Qed.

End ShipRun.
