(* ===== verification/MicroNode.v ===== *)
(** The exported functions of the history node
    ([contracts/eden/src/eden-micro-chain.cpp], lines 2319-2499), which the
    outside calls with bytes: blocks of another node, messages of the chain's
    state history, and requests for blocks. *)
From S2P Require Import Prelude Name Time Asset Crypto Binary EventWire KeyText BlockLog MicroTables MicroChain MicroReplay MicroLog MicroLedger.
From S2P Require Import Subchain ActionReplay Ship ShipRun.
Import Crypto Binary EventWire Structs MicroTables MicroChain MicroReplay Subchain Ship ShipRun.
Open Scope string_scope.
Open Scope list_scope.
Open Scope Z_scope.

Module MicroNode.

(** The blocks of this node carry their actions as they arrive. *)
#[global] Instance raw_filter `{Node} : MicroLog.Filter Subchain.transaction := ActionData.block_bytes.

(** The node and the bytes of [result]. *)
Record machine : Type := mk_machine { node : MicroLog.node Subchain.transaction; answer : list Z }.
Definition start : machine := mk_machine MicroLog.initial_node [].
Definition log (m : machine) : list Subchain.block := BlockLog.blocks (MicroLog.block_log (node m)).

Section exports.
Context {accounts : Node}.
(** [clchain::sha256] *)
Context (sha256 : list Z -> Z).

(** ** [add_block] *)

Definition add_block (bi : Subchain.block) (eosio_irreversible : Z) (m : machine) : result (machine * bool) :=
  '(n, added) ← MicroLog.add_block bi eosio_irreversible (node m); Ok (mk_machine n (answer m), added).
(** Of a [subchain::block]: a number, the previous id and a block of the chain. *)
Definition add_eden_block (num previous : Z) (b : eosio_block) (eosio_irreversible : Z) (m : machine)
    : result (machine * bool) :=
  bin ← to_bin block_codec (num, (previous, b));
  let bi := BlockLog.mk_block num previous b (sha256 bin) in
  bin_with_id ← to_bin checksum_codec (BlockLog.id bi);
  add_block bi eosio_irreversible (mk_machine (node m) (bin_with_id ++ bin)).
Definition add_eosio_block (b : eosio_block) (eosio_irreversible : Z) (m : machine) : result (machine * bool) :=
  match BlockLog.block_before_eosio_num (log m) (BlockLog.eosio_num b) with
  | Some eden_prev =>
      add_eden_block (wrap 32 (BlockLog.num eden_prev + 1)) (BlockLog.id eden_prev) b eosio_irreversible m
  | None => add_eden_block 1 0 b eosio_irreversible m
  end.
Definition add_ship_block (this prev : block_position) (eosio_irreversible timestamp : Z)
    (traces : list transaction_trace) (m : machine) : result (machine * bool) :=
  transactions ← ship_to_eden_transactions traces;
  add_eosio_block (BlockLog.mk_eosio (block_num this) (block_id this) (block_id prev)
                     (Time.to_time_point timestamp) transactions) eosio_irreversible m.

(** ** The exported functions *)

Definition addBlock (data : list Z) (eosio_irreversible : Z) (m : machine) : result (machine * bool) :=
  '(block, _) ← from_bin block_with_id_codec data; add_block block eosio_irreversible m.
Definition getShipBlocksRequest (block_num : Z) (m : machine) : result (machine * bool) :=
  bin ← to_bin request_codec (get_blocks_request
          (mk_get_blocks block_num 0xffffffff 0xffffffff [] false true true false));
  Ok (mk_machine (node m) bin, true).
Definition pushShipMessage (data : list Z) (m : machine) : result (machine * bool) :=
  '(message, _) ← from_bin result_codec data;
  match message with
  | get_blocks_result r =>
      timestamp ← match Ship.block r with
                  | Some bin => '(signed_block, _) ← from_bin signed_block_codec bin; Ok (timestamp signed_block)
                  | None => Ok 0
                  end;
      trace_list ← match traces r with Some bin => fst <$> traces_from_bin bin | None => Ok [] end;
      let prev_block := default no_position (prev_block r) in
      this ← some_or (Trap "value of an empty optional") (this_block r);
      add_ship_block this prev_block (block_num (last_irreversible r)) timestamp trace_list m
  | get_status_result _ => Ok (m, false)
  end.
Definition setIrreversible (irreversible : Z) (m : machine) : machine * Z :=
  let n := MicroLog.setIrreversible irreversible (node m) in
  (mk_machine n (answer m), BlockLog.irreversible (MicroLog.block_log n)).
Definition trimBlocks (m : machine) : machine := mk_machine (MicroLog.trimBlocks (node m)) (answer m).
Definition undoBlockNum (n : Z) (m : machine) : machine := mk_machine (MicroLog.undoBlockNum n (node m)) (answer m).
Definition undoEosioNum (n : Z) (m : machine) : machine := mk_machine (MicroLog.undoEosioNum n (node m)) (answer m).
Definition getBlock (num : Z) (m : machine) : result (machine * bool) :=
  match BlockLog.block_by_num (log m) num with
  | Some b => bin ← to_bin block_with_id_codec b; Ok (mk_machine (node m) bin, true)
  | None => Ok (m, false)
  end.

(** A call of the outside. *)
Inductive call : Type :=
  | c_addBlock (data : list Z) (eosio_irreversible : Z)
  | c_getShipBlocksRequest (n : Z)
  | c_pushShipMessage (data : list Z)
  | c_setIrreversible (n : Z)
  | c_trimBlocks
  | c_undoBlockNum (n : Z)
  | c_undoEosioNum (n : Z)
  | c_getBlock (n : Z).
Definition run_call (m : machine) (c : call) : result machine :=
  match c with
  | c_addBlock data irr => fst <$> addBlock data irr m
  | c_getShipBlocksRequest n => fst <$> getShipBlocksRequest n m
  | c_pushShipMessage data => fst <$> pushShipMessage data m
  | c_setIrreversible n => Ok (setIrreversible n m).1
  | c_trimBlocks => Ok (trimBlocks m)
  | c_undoBlockNum n => Ok (undoBlockNum n m)
  | c_undoEosioNum n => Ok (undoEosioNum n m)
  | c_getBlock n => fst <$> getBlock n m
  end.

End exports.
(** ** Messages of the chain *)

(** The depth at which the traces were written is at least their bytes. *)
Lemma written_traces_read depth ts bin :
  vector_ok (transaction_trace_ok depth) ts -> to_bin (vector_codec (transaction_trace_codec depth)) ts = Ok bin ->
  (length bin <= depth)%nat -> traces_from_bin bin = Ok (ts, []).
Proof.
  intros Hts Hw Hd. rewrite (traces_read depth) by done.
  destruct (complete (c := vector_codec (transaction_trace_codec depth)) ts Hts) as (bs & Hbs & Hr).
  rewrite Hw in Hbs. injection Hbs as <-. rewrite <- (app_nil_r bin) at 1. apply Hr.
Qed.

Section pushing.
Context `{Node} (sha256 : list Z -> Z).

(** C21: a message of the chain's state history is read field by field: when
    the chain serializes a block and the traces of its transactions, nested as
    deep as they may be, and sends them with their positions, the node adds
    exactly the block with that number, id, previous id, time and traces, with
    the finality of the message. *)
Theorem message_is_pushed (hd irr this : block_position) (prev : option block_position) (sb : signed_block)
    (ts : list transaction_trace) (depth : nat) (block_bin traces_bin : list Z) (deltas : option (list Z)) :
  let r := mk_blocks_result hd irr (Some this) prev (Some block_bin) (Some traces_bin) deltas in
  blocks_ok r -> signed_block_ok sb -> vector_ok (transaction_trace_ok depth) ts ->
  to_bin signed_block_codec sb = Ok block_bin ->
  to_bin (vector_codec (transaction_trace_codec depth)) ts = Ok traces_bin -> (length traces_bin <= depth)%nat ->
  exists message, to_bin result_codec (get_blocks_result r) = Ok message /\
    forall m, pushShipMessage sha256 message m =
      add_ship_block sha256 this (default no_position prev) (block_num irr) (timestamp sb) ts m.
Proof.
  intros r Hr Hsb Hts Eb Et Hd.
  destruct (complete (c := result_codec) (get_blocks_result r) Hr) as (message & Hm & Rm).
  exists message. split; [exact Hm|]. intros m. unfold pushShipMessage. specialize (Rm []). rewrite app_nil_r in Rm.
  rewrite Rm. cbn [mbind result_bind]. cbn [r Ship.block traces prev_block this_block last_irreversible some_or].
  destruct (complete (c := signed_block_codec) sb Hsb) as (bs & Hbs & Rb). rewrite Eb in Hbs. injection Hbs as <-.
  specialize (Rb []). rewrite app_nil_r in Rb. rewrite Rb. cbn [mbind result_bind].
  by rewrite (written_traces_read depth ts traces_bin Hts Et Hd).
Qed.
End pushing.

(** ** Followers *)

Section following.
Context `{Node} (sha256 : list Z -> Z) (sha256_range : forall l, uint_ok 32 (sha256 l)).

Lemma added_blocks bi irr (n n' : MicroLog.node Subchain.transaction) added x :
  MicroLog.add_block bi irr n = Ok (n', added) -> x ∈ BlockLog.blocks (MicroLog.block_log n') ->
  x = bi \/ x ∈ BlockLog.blocks (MicroLog.block_log n).
Proof.
  unfold MicroLog.add_block. destruct (BlockLog.add_block _ _) as [[l st] k] eqn:E. intros H1 Hx.
  assert (st = BlockLog.appended \/ n' = n) as [->| ->]; [destruct st; [by left|right; congruence..]| |by right].
  apply bind_Ok in H1 as (d & _ & H1). apply bind_Ok in H1 as (d' & _ & H1). injection H1 as <- <-. cbn in Hx.
  assert (x ∈ BlockLog.blocks l) as Hl by (by destruct (BlockLog.block_before_eosio_num _ _)). clear Hx.
  revert E. unfold BlockLog.add_block. intros E. repeat case_match; simplify_eq; cbn in *.
  all: apply elem_of_app in Hl as [Hl|Hl]; [apply elem_of_take in Hl as (i & Hl & _); right; by eapply list_elem_of_lookup_2 | left; by apply list_elem_of_singleton].
Qed.

(** The ids in a log are checksums. *)
Definition ids_ok (m : machine) : Prop := Forall (fun b => uint_ok 32 (BlockLog.id b)) (log m).

(** What a leader answers when it adds a block. *)
Lemma leader_answers num previous b irr m m' added :
  uint_ok 4 num -> uint_ok 32 previous -> eosio_block_ok b -> ids_ok m ->
  add_eden_block sha256 num previous b irr m = Ok (m', added) ->
  ids_ok m' /\ forall k, node k = node m -> addBlock (answer m') irr k = Ok (mk_machine (node m') (answer k), added).
Proof.
  intros Hn Hp Hb Hm E. unfold add_eden_block in E. apply bind_Ok in E as (bin & Ebin & E).
  set (bi := BlockLog.mk_block num previous b (sha256 bin)) in *. apply bind_Ok in E as (idbin & Eid & E).
  unfold add_block in E. cbn [node answer] in E. apply bind_Ok in E as ([n1 a1] & E & [= <- <-]). split.
  - apply Forall_forall. intros x Hx. destruct (added_blocks _ _ _ _ _ _ E Hx) as [->|Hi]; [apply sha256_range|].
    unfold ids_ok in Hm. rewrite Forall_forall in Hm. by apply Hm.
  - intros k Hk. unfold addBlock. cbn [answer].
    assert (block_ok bi) as Hok by (split; [apply sha256_range|done]).
    destruct (complete (c := block_with_id_codec) bi Hok) as (bs & Hw & Hr).
    assert (bs = idbin ++ bin) as ->.
    { unfold block_with_id_codec, struct_codec in Hw. cbn [to_bin pair_codec fst snd bi BlockLog.id BlockLog.num
        BlockLog.previous BlockLog.eosioBlock] in Hw, Eid. rewrite Eid in Hw. cbn [mbind result_bind] in Hw.
      rewrite Ebin in Hw. by injection Hw as <-. }
    specialize (Hr []). rewrite app_nil_r in Hr. rewrite Hr. cbn [mbind result_bind]. unfold add_block. rewrite Hk, E. done.
Qed.

(** The leader takes blocks of the chain; the follower is given the leader's
    answers, with the same finality. *)
Fixpoint lead (blocks : list (eosio_block * Z)) (m : machine) : result (list (list Z * Z) * machine) :=
  match blocks with
  | [] => Ok ([], m)
  | (b, irr) :: blocks =>
      '(m, _) ← add_eosio_block sha256 b irr m;
      '(answers, m') ← lead blocks m; Ok ((answer m, irr) :: answers, m')
  end.
Fixpoint follow (answers : list (list Z * Z)) (m : machine) : result machine :=
  match answers with
  | [] => Ok m
  | (data, irr) :: answers => '(m, _) ← addBlock data irr m; follow answers m
  end.

Lemma follow_lead blocks m k answers m' :
  Forall (fun x => eosio_block_ok x.1) blocks -> ids_ok m -> node k = node m -> lead blocks m = Ok (answers, m') ->
  exists k', follow answers k = Ok k' /\ node k' = node m'.
Proof.
  intros Hb. revert m k answers. induction Hb as [|[b irr] blocks Hb _ IH]; intros m k answers Hm Hk E; cbn [lead] in E.
  - injection E as <- <-. by exists k.
  - apply bind_Ok in E as ([m1 added] & E1 & E). apply bind_Ok in E as ([rest m2] & E2 & [= <- <-]).
    assert (ids_ok m1 /\ forall k, node k = node m -> addBlock (answer m1) irr k = Ok (mk_machine (node m1) (answer k), added))
      as [Hm1 Hf].
    { unfold add_eosio_block in E1. destruct (BlockLog.block_before_eosio_num _ _) as [p|] eqn:Ep.
      - apply (leader_answers (wrap 32 (BlockLog.num p + 1)) (BlockLog.id p) b irr m); [| |done..].
        + by apply (wrap_bounds 32).
        + unfold ids_ok in Hm. rewrite Forall_forall in Hm. apply Hm. by eapply MicroLog.block_before_elem.
      - apply (leader_answers 1 0 b irr m); done. }
    cbn [follow]. rewrite (Hf k Hk). cbn [mbind result_bind]. by apply (IH m1).
Qed.

(** C12: a follower that is given what another node answers when it adds blocks
    of the chain - the id and the serialization of each block - adds the same
    blocks, replaces the same forks, and ends with the same log, the same
    tables and the same undo states as that node. *)
Theorem follower_mirrors (blocks : list (eosio_block * Z)) (answers : list (list Z * Z)) (m : machine) :
  Forall (fun x => eosio_block_ok x.1) blocks -> lead blocks start = Ok (answers, m) ->
  exists k, follow answers start = Ok k /\ node k = node m.
Proof. intros Hb E. apply (follow_lead blocks start); [done|constructor|done..]. Qed.
End following.

(** ** Whatever the node is given *)

Section calls.
Context `{Node} (sha256 : list Z -> Z).

(** The id of a block as a function of its fields. *)
Definition block_id_of (num previous : Z) (b : eosio_block) : Z :=
  match to_bin block_codec (num, (previous, b)) with Ok bin => sha256 bin | Err _ => 0 end.
(** Bytes are bytes. *)
Definition call_ok (c : call) : Prop := match c with c_addBlock data _ => bytes data | _ => True end.

Lemma read_bytes n s a rest : bytes s -> read n s = Ok (a, rest) -> bytes a /\ length a = n /\ bytes rest.
Proof.
  intros Hs. unfold read. destruct (Nat.leb_spec n (length s)) as [Hn|]; [|done]. intros [= <- <-].
  split; [by apply Forall_take|]. split; [rewrite length_take; lia|by apply Forall_drop].
Qed.
Lemma read_in_range data b rest : bytes data -> from_bin block_with_id_codec data = Ok (b, rest) -> BlockLog.in_range b.
Proof.
  intros Hd E. unfold block_with_id_codec, struct_codec, block_codec in E. cbn [from_bin pair_codec checksum_codec uint] in E.
  apply bind_Ok in E as ([p r] & E & [= <- <-]). apply bind_Ok in E as ([i r1] & E1 & E).
  apply bind_Ok in E1 as ([x r2] & E1 & [= <- <-]). apply bind_Ok in E as ([q r3] & E & [= <- <-]).
  apply bind_Ok in E as ([n r4] & E2 & E). apply bind_Ok in E2 as ([y r5] & E2 & [= <- <-]).
  apply bind_Ok in E as ([[pr eb] r6] & _ & [= <- <-]). unfold BlockLog.in_range. cbn [BlockLog.num].
  apply read_bytes in E1 as (_ & _ & Hr2); [|done]. apply read_bytes in E2 as (Hy & Hl & _); [|done].
  pose proof (of_le_bounds y Hy) as Hb. rewrite Hl in Hb. exact Hb.
Qed.
Lemma add_eosio_is_op b irr m m' added : add_eosio_block sha256 b irr m = Ok (m', added) ->
  MicroLog.add_eosio_block block_id_of b irr (node m) = Ok (node m', added).
Proof.
  intros E. unfold add_eosio_block in E. unfold MicroLog.add_eosio_block, MicroLog.next_block. fold (log m).
  destruct (BlockLog.block_before_eosio_num _ _) as [p|]; unfold add_eden_block, add_block in E; cbn [node] in E.
  all: apply bind_Ok in E as (bin & Eb & E); apply bind_Ok in E as (ib & _ & E); apply bind_Ok in E as ([n a] & E & [= <- <-]).
  all: unfold block_id_of; rewrite Eb; exact E.
Qed.
(** Every call is what the node does with decoded blocks, or leaves the node. *)
Lemma call_is_op m c m' : call_ok c -> run_call sha256 m c = Ok m' ->
  node m' = node m \/ exists o, MicroLog.op_ok o /\ MicroLog.run_op block_id_of (node m) o = Ok (node m').
Proof.
  intros Hc E. destruct c as [data irr|n|data|n| |n|n|n]; cbn [run_call] in E.
  - apply fmap_Ok in E as ([m1 a] & E & <-). unfold addBlock in E. apply bind_Ok in E as ([b r] & Eb & E).
    unfold add_block in E. apply bind_Ok in E as ([n a'] & E & [= <- <-]). right. exists (MicroLog.o_addBlock b irr).
    split; [by eapply read_in_range|]. cbn. by rewrite E.
  - left. apply fmap_Ok in E as ([m1 a] & E & <-). unfold getShipBlocksRequest in E. by apply bind_Ok in E as (x & _ & [= <- <-]).
  - apply fmap_Ok in E as ([m1 a] & E & <-). unfold pushShipMessage in E. apply bind_Ok in E as ([[r|r] rest] & _ & E).
    { left. by injection E as <- <-. }
    apply bind_Ok in E as (t & _ & E). apply bind_Ok in E as (l & _ & E). apply bind_Ok in E as (this & _ & E).
    unfold add_ship_block in E. apply bind_Ok in E as (ts & _ & E). apply add_eosio_is_op in E.
    right. eexists (MicroLog.o_addEosioBlock _ _). split; [done|]. cbn [MicroLog.run_op]. by rewrite E.
  - injection E as <-. right. by exists (MicroLog.o_setIrreversible n).
  - injection E as <-. right. by exists MicroLog.o_trimBlocks.
  - injection E as <-. right. by exists (MicroLog.o_undoBlockNum n).
  - injection E as <-. right. by exists (MicroLog.o_undoEosioNum n).
  - left. apply fmap_Ok in E as ([m1 a] & E & <-). unfold getBlock in E.
    destruct (BlockLog.block_by_num _ _); [by apply bind_Ok in E as (x & _ & [= <- <-])|by injection E as <- <-].
Qed.
Lemma calls_consistent calls m : Forall call_ok calls -> foldM (run_call sha256) calls start = Ok m ->
  exists pre, MicroLog.consistent pre (node m).
Proof.
  intros Hc E. refine (foldM_inv (fun m => exists pre, MicroLog.consistent pre (node m)) _ _ _ _ _ _ E).
  - intros s c s' Hi [pre Hp] E'. rewrite Forall_forall in Hc.
    destruct (call_is_op s c s' (Hc c Hi) E') as [Hs|(o & Ho & Er)]; [rewrite Hs; by exists pre|].
    by eapply MicroLog.run_op_consistent.
  - exists []. apply MicroLog.initial_consistent.
Qed.

(** The chain, decoded. *)
Definition decoded (b : Subchain.block) (b' : MicroLog.block) : Prop :=
  ActionReplay.decode_block (BlockLog.eosioBlock b) = Ok (BlockLog.eosioBlock b').
Lemma replay_decoded (c : list Subchain.block) d : MicroLog.replay_chain c = Ok d ->
  exists c', Forall2 decoded c c' /\ MicroLog.replay_chain c' = Ok d.
Proof.
  unfold MicroLog.replay_chain. generalize empty_db as s. induction c as [|b c IH]; intros s E; cbn [foldM] in E.
  - exists []. split; [constructor|exact E].
  - apply bind_Ok in E as (s1 & E1 & E). destruct (IH s1 E) as (c' & Hc' & E').
    pose proof (ActionReplay.block_agrees (BlockLog.eosioBlock b) s) as Ha.
    change (MicroLog.apply_block (BlockLog.eosioBlock b) s) with (ActionData.block_bytes (BlockLog.eosioBlock b) s) in E1.
    unfold ActionReplay.agrees in Ha. destruct (ActionReplay.decode_block _) as [eb|e] eqn:Ed; [|destruct Ha; congruence].
    exists (BlockLog.mk_block (BlockLog.num b) (BlockLog.previous b) eb (BlockLog.id b) :: c').
    split; [constructor; [exact Ed|exact Hc']|]. cbn [foldM].
    change (MicroLog.apply_block _ s) with (filter_block eb s). rewrite <- Ha, E1. exact E'.
Qed.

(** C2: whatever bytes the history node is given and whatever it is asked -
    blocks of other nodes, messages of the chain, forks, finality, trimming
    and undoing - every block of the chain it is on decodes, its tables are
    the replay of the decoded chain, and, when the amounts moved are in range,
    the books are right: in every currency the balances of all accounts add
    up to zero, the recorded movements of any accounts add up to what they
    hold, and the movements come in twins. *)
Theorem books_from_bytes (calls : list call) (m : machine) :
  Forall call_ok calls -> foldM (run_call sha256) calls start = Ok m ->
  let d := current (MicroLog.database_ (node m)) in
  exists trimmed c', Forall2 decoded (trimmed ++ log m) c' /\ MicroLog.replay_chain c' = Ok d /\
    (Forall (fun b => MicroLedger.block_ranged (BlockLog.eosioBlock b)) c' ->
     (forall sym, MicroLedger.held MicroLedger.everyone sym d = 0) /\
     (forall p sym, MicroLedger.held p sym d = MicroLedger.moved p sym d) /\
     MicroLedger.twins (rows (balance_history d))).
Proof.
  intros Hc E d. destruct (calls_consistent calls m Hc E) as [pre Hp].
  destruct (replay_decoded _ _ (MicroLog.bk_current _ _ _ (MicroLog.cs_backed _ _ Hp))) as (c' & Hd & Hr).
  exists pre, c'. split; [exact Hd|]. split; [exact Hr|]. intros Hrange.
  by destruct (MicroLedger.replay_books c' d Hrange Hr) as [_ _ _ H1 H2 _ H3].
Qed.
End calls.

(** ** A node fed with messages, and its follower *)

#[local] Instance demo_node : Node := MicroLog.demo_accounts.
(** The last byte of the id of the chain's block. *)
Definition demo_sha256 (l : list Z) : Z := wrap 256 (1000 + nth 71 l 0).
Definition written (r : result (list Z)) : list Z := match r with Ok bin => bin | Err _ => [] end.
Definition demo_transfer (q : Z) : list Z :=
  written (to_bin ActionData.transfer_codec (Name.Name.n "alice", (Name.Name.n "eden", (Asset.Asset.mk q 1162826500, "")))).
(** The transfer, and the notification it creates. *)
Definition demo_trace (q : Z) : transaction_trace :=
  let act := mk_action (Name.Name.n "eosio.token") (Name.Name.n "transfer") [] (demo_transfer q) in
  let receipt n := Some (action_receipt_v0 (Name.Name.n "eden") 1 n n [] 1 1) in
  transaction_trace_v0 77 0 100 10 200 80 false
    [action_trace_v0 (mk_trace 1 0 (receipt 500) (Name.Name.n "eosio.token") act false 5 [] [] None None);
     action_trace_v1 (mk_trace 2 1 (receipt 501) (Name.Name.n "eden") act false 5 [] [] None None) []]
    None None None [] None.
Definition demo_block : signed_block :=
  mk_signed_block 1300000000 (Name.Name.n "eosio") 0 99 1 2 1 None [] (KeyText.sig_k1 (repeat 0 65)) [] [].
Definition demo_result (n : Z) (q : Z) (irr : Z) : get_blocks_result_v0 :=
  mk_blocks_result (mk_position 20 200) (mk_position irr 1) (Some (mk_position n (n * 10))) None
    (Some (written (to_bin signed_block_codec demo_block)))
    (Some (written (to_bin (vector_codec (transaction_trace_codec 1000)) [demo_trace q]))) None.
Definition demo_message (n q irr : Z) : list Z := written (to_bin result_codec (get_blocks_result (demo_result n q irr))).

Ltac in_types := repeat first [split | apply Forall_nil | apply Forall_cons]; try done; vm_compute; congruence.
Lemma message_is_pushed_witness :
  exists message, to_bin result_codec (get_blocks_result (demo_result 10 5 3)) = Ok message /\
    (forall m, pushShipMessage demo_sha256 message m =
      add_ship_block demo_sha256 (mk_position 10 100) no_position 3 1300000000 [demo_trace 5] m).
Proof.
  apply (message_is_pushed demo_sha256 (mk_position 20 200) (mk_position 3 1) (mk_position 10 100) None demo_block
    [demo_trace 5] 1000).
  - in_types.
  - in_types.
  - in_types.
  - vm_compute. reflexivity.
  - vm_compute. reflexivity.
  - vm_compute. lia.
Defined.

(** Two blocks, the second replaced by a fork. *)
Definition demo_eosio (n id prev q : Z) : eosio_block :=
  BlockLog.mk_eosio n id prev 1300000000000000 [Subchain.mk_transaction 77
    [Subchain.mk_action 501 (Name.Name.n "eosio.token") (Name.Name.n "eden") (Name.Name.n "transfer")
       (Some (Subchain.mk_creator 500 (Name.Name.n "eosio.token"))) (demo_transfer q)]].
Definition demo_blocks : list (eosio_block * Z) :=
  [(demo_eosio 10 100 99 5, 0); (demo_eosio 11 110 100 7, 0); (demo_eosio 11 111 100 9, 10)].
Lemma follower_mirrors_witness :
  match lead demo_sha256 demo_blocks start with
  | Ok (answers, m) => (map BlockLog.num (log m) = [1; 2] /\ length answers = 3%nat) /\
      exists k, follow answers start = Ok k /\ node k = node m
  | Err _ => False
  end.
Proof.
  destruct (lead demo_sha256 demo_blocks start) as [[answers m]|e] eqn:E.
  - split; [vm_compute in E; injection E as <- <-; by vm_compute|].
    apply (follower_mirrors demo_sha256 (fun l => wrap_bounds 256 _ ltac:(lia)) demo_blocks answers m); [|exact E].
    in_types.
  - vm_compute in E. discriminate E.
Defined.

(** Two messages, finality, trimming and a request. *)
Definition demo_calls : list call :=
  [c_getShipBlocksRequest 10; c_pushShipMessage (demo_message 10 5 3); c_pushShipMessage (demo_message 11 7 3);
   c_getBlock 1; c_setIrreversible 2; c_trimBlocks].
Lemma books_from_bytes_witness :
  match foldM (run_call demo_sha256) demo_calls start with
  | Ok m =>
      let d := current (MicroLog.database_ (node m)) in
      (map BlockLog.num (log m) = [2] /\
       get_balance d (Name.Name.n "alice") = Some (Asset.Asset.mk 12 1162826500)) /\
      exists trimmed c', Forall2 decoded (trimmed ++ log m) c' /\ MicroLog.replay_chain c' = Ok d /\
        (Forall (fun b => MicroLedger.block_ranged (BlockLog.eosioBlock b)) c' ->
         (forall sym, MicroLedger.held MicroLedger.everyone sym d = 0) /\
         (forall p sym, MicroLedger.held p sym d = MicroLedger.moved p sym d) /\
         MicroLedger.twins (rows (balance_history d)))
  | Err _ => False
  end.
Proof.
  destruct (foldM (run_call demo_sha256) demo_calls start) as [m|e] eqn:E.
  - split; [vm_compute in E; injection E as <-; by vm_compute|].
    apply (books_from_bytes demo_sha256 demo_calls m); [|exact E]. by repeat constructor.
  - vm_compute in E. discriminate E.
Defined.

End MicroNode.
