(* ===== verification/CachedTable.v ===== *)
(** What the chain's database offers to a contract, as far as
    [libraries/eosiolib/contracts/include/eosio/multi_index.hpp] (lines 29-244)
    imports it, for one table of one scope: rows of bytes by primary key,
    secondary indices, and iterators, which are numbers the host hands out.
    The database itself is not part of the program: it is an interface with
    the laws the class relies on.  Memory to store rows is taken as paid for.  The module CachedTable is the
    class over it. *)
From S2P Require Import Prelude MultiIndex.
From stdpp Require Import sorting.
Open Scope string_scope.
Open Scope list_scope.
Open Scope Z_scope.

Module HostDb.

(** The primary table or a secondary index; a secondary key is a number whose
    order is that of the keys. *)
Inductive which : Type := primary | secondary (number : nat).
#[global] Instance which_eq_dec : EqDecision which.
Proof. solve_decision. Defined.

Class HostDb (H : Type) : Type := {
  db_store : Z -> list Z -> H -> result (H * Z);
  db_update : Z -> list Z -> H -> result H;
  db_remove : Z -> H -> result H;
  db_get : Z -> H -> result (list Z);
  db_idx_store : nat -> Z -> Z -> H -> result (H * Z);
  db_idx_update : nat -> Z -> Z -> H -> result H;
  db_idx_remove : nat -> Z -> H -> result H;
  (** These move or make iterators: the iterator and the primary key. *)
  db_next : which -> Z -> H -> result (H * (Z * Z));
  db_previous : which -> Z -> H -> result (H * (Z * Z));
  db_lowerbound : which -> Z -> H -> result (H * (Z * Z));
  db_upperbound : which -> Z -> H -> result (H * (Z * Z));
  (** By primary key. *)
  db_find : which -> Z -> H -> result (H * Z);
  db_end : which -> H -> result (H * Z)
}.

(** ** What the database holds *)

Record contents : Type := mk_contents { stored : gmap Z (list Z); keyed_by : nat -> gmap Z Z }.

(** The entries of the table or of an index, (key, primary key), in order. *)
Definition entries (c : contents) (w : which) : list (Z * Z) :=
  match w with
  | primary => (fun k => (k, k)) <$> Table.keys (stored c)
  | secondary i => Table.index (fun k => k) (keyed_by c i)
  end.
Definition key_of (c : contents) (w : which) (pk : Z) : option Z :=
  match w with primary => if decide (is_Some (stored c !! pk)) then Some pk else None | secondary i => keyed_by c i !! pk end.
Definition after (k pk : Z) (e : Z * Z) : Prop := Table.idx_le (k, pk) e /\ e <> (k, pk).
Definition before (k pk : Z) (e : Z * Z) : Prop := Table.idx_le e (k, pk) /\ e <> (k, pk).
#[global] Instance after_dec k pk e : Decision (after k pk e). Proof. unfold after. apply _. Defined.
#[global] Instance before_dec k pk e : Decision (before k pk e). Proof. unfold before. apply _. Defined.

(** What a host holds, and the row an iterator is at. *)
Class HostView (H : Type) : Type := { view : H -> contents; at_ : H -> which -> Z -> option Z }.
Section view.
Context {H : Type} `{HostView H}.
Definition keeps (h h' : H) : Prop := forall w itr pk, at_ h w itr = Some pk -> at_ h' w itr = Some pk.
(** Nothing but iterators may be new. *)
Definition same (h h' : H) : Prop := view h' = view h /\ keeps h h'.
(** A move ends at an entry or has no iterator. *)
Definition lands (w : which) (e : option (Z * Z)) (h' : H) (itr pk : Z) : Prop :=
  match e with Some e => at_ h' w itr = Some e.2 /\ pk = e.2 | None => itr < 0 end.
Definition set_index (n : nat) (f : gmap Z Z -> gmap Z Z) (c : contents) : contents :=
  mk_contents (stored c) (fun m => if Nat.eqb m n then f (keyed_by c m) else keyed_by c m).
Definition set_rows (f : gmap Z (list Z) -> gmap Z (list Z)) (c : contents) : contents :=
  mk_contents (f (stored c)) (keyed_by c).
End view.

Class HostLaws (H : Type) `{HostDb H} `{HostView H} : Prop := {
  at_entry h w itr pk : at_ h w itr = Some pk -> 0 <= itr /\ is_Some (key_of (view h) w pk);
  (** A row has one iterator. *)
  at_inj h w a b pk : at_ h w a = Some pk -> at_ h w b = Some pk -> a = b;

  lowerbound_law h w k : exists h' itr pk, db_lowerbound w k h = Ok (h', (itr, pk)) /\ same h h' /\
    lands w (head (filter (fun e => k <= e.1) (entries (view h) w))) h' itr pk;
  upperbound_law h w k : exists h' itr pk, db_upperbound w k h = Ok (h', (itr, pk)) /\ same h h' /\
    lands w (head (filter (fun e => k < e.1) (entries (view h) w))) h' itr pk;
  next_law h w itr k pk : at_ h w itr = Some pk -> key_of (view h) w pk = Some k ->
    exists h' itr' pk', db_next w itr h = Ok (h', (itr', pk')) /\ same h h' /\
      lands w (head (filter (after k pk) (entries (view h) w))) h' itr' pk';
  previous_law h w itr k pk : at_ h w itr = Some pk -> key_of (view h) w pk = Some k ->
    exists h' itr' pk', db_previous w itr h = Ok (h', (itr', pk')) /\ same h h' /\
      lands w (last (filter (before k pk) (entries (view h) w))) h' itr' pk';
  (** From the end, if there is one: the last entry. *)
  end_law h w : exists h' e, db_end w h = Ok (h', e) /\ same h h' /\ (e = -1 <-> entries (view h) w = []) /\
    (e <> -1 -> exists h'' itr pk, db_previous w e h' = Ok (h'', (itr, pk)) /\ same h' h'' /\
       lands w (last (entries (view h) w)) h'' itr pk);
  find_law h w pk : exists h' itr, db_find w pk h = Ok (h', itr) /\ same h h' /\
    match key_of (view h) w pk with Some _ => at_ h' w itr = Some pk | None => itr < 0 end;

  get_law h itr pk bs : at_ h primary itr = Some pk -> stored (view h) !! pk = Some bs -> db_get itr h = Ok bs;
  store_law h pk bs : stored (view h) !! pk = None ->
    exists h' itr, db_store pk bs h = Ok (h', itr) /\
      view h' = set_rows <[pk := bs]> (view h) /\
      keeps h h' /\ at_ h' primary itr = Some pk;
  store_twice h pk bs : is_Some (stored (view h) !! pk) -> exists e, db_store pk bs h = Err e;
  update_law h itr pk bs : at_ h primary itr = Some pk ->
    exists h', db_update itr bs h = Ok h' /\
      view h' = set_rows <[pk := bs]> (view h) /\
      keeps h h';
  remove_law h itr pk : at_ h primary itr = Some pk ->
    exists h', db_remove itr h = Ok h' /\
      view h' = set_rows (delete pk) (view h) /\
      (forall w i p, at_ h w i = Some p -> (w, p) <> (primary, pk) -> at_ h' w i = Some p);
  idx_store_law h n pk k : keyed_by (view h) n !! pk = None ->
    exists h' itr, db_idx_store n pk k h = Ok (h', itr) /\
      view h' = set_index n <[pk := k]> (view h) /\
      keeps h h' /\ at_ h' (secondary n) itr = Some pk;
  idx_update_law h n itr pk k : at_ h (secondary n) itr = Some pk ->
    exists h', db_idx_update n itr k h = Ok h' /\
      view h' = set_index n <[pk := k]> (view h) /\
      keeps h h';
  idx_remove_law h n itr pk : at_ h (secondary n) itr = Some pk ->
    exists h', db_idx_remove n itr h = Ok h' /\
      view h' = set_index n (delete pk) (view h) /\
      (forall w i p, at_ h w i = Some p -> (w, p) <> (secondary n, pk) -> at_ h' w i = Some p)
}.

End HostDb.

(** The class behind a table
    ([libraries/eosiolib/contracts/include/eosio/multi_index.hpp], lines
    644-2364) as it is written: rows are read from the database once and kept,
    iterators point to the rows kept, and every row kept remembers its
    iterators in the database.  MultiIndex.v is the table without all this,
    as the other files use it; CachedTableRun.v relates the two. *)
Import HostDb.
Open Scope string_scope.
Open Scope list_scope.
Open Scope Z_scope.

Module CachedTable.

Section class.
Context {H : Type} `{HostDb H}.
(** The row type: [primary_key()], its serialization, and the extractors of
    the secondary indices.  [own]: the table belongs to the contract that runs. *)
Context {R : Type} (primary_key : R -> Z) (pack : R -> list Z) (unpack : list Z -> result R)
  (extractors : list (R -> Z)) (own : bool).

(** A row kept; [-1] is an iterator that is not known. *)
Record item : Type := mk_item { obj : R; primary_itr : Z; iters : list Z }.
#[global] Instance set_obj : Setter obj := fun f i => mk_item (f (obj i)) (primary_itr i) (iters i).
#[global] Instance set_iters : Setter iters := fun f i => mk_item (obj i) (primary_itr i) (f (iters i)).

Definition no_available_primary_key : Z := 2 ^ 64 - 2.
Definition unset_next_primary_key : Z := 2 ^ 64 - 1.

(** The rows kept have an address each, which they keep in the vector. *)
Record multi_index : Type := mk_multi_index {
  host : H; next_primary_key : Z; items_vector : list (nat * item); heap : nat }.
#[global] Instance set_host : Setter host :=
  fun f m => mk_multi_index (f (host m)) (next_primary_key m) (items_vector m) (heap m).
#[global] Instance set_next : Setter next_primary_key :=
  fun f m => mk_multi_index (host m) (f (next_primary_key m)) (items_vector m) (heap m).
#[global] Instance set_items : Setter items_vector :=
  fun f m => mk_multi_index (host m) (next_primary_key m) (f (items_vector m)) (heap m).

(** The constructor. *)
Definition construct (h : H) : multi_index := mk_multi_index h unset_next_primary_key [] 0.

(** [const_iterator], of the table and of its indices: no item is the end. *)
Abbreviation iterator := (option nat).

Definition at_address (a : nat) (m : multi_index) : result item :=
  some_or (Trap "dangling pointer") (snd <$> find (fun x => Nat.eqb x.1 a) (items_vector m)).
Definition deref (it : iterator) (m : multi_index) : result item :=
  a ← some_or (Trap "null pointer") it; at_address a m.
(** [std::find_if] from the back. *)
Definition find_item (p : item -> bool) (m : multi_index) : option nat :=
  fst <$> find (fun x => p x.2) (reverse (items_vector m)).
Definition update_item (a : nat) (f : item -> item) (m : multi_index) : multi_index :=
  m <| items_vector ::= fmap (fun x => if Nat.eqb x.1 a then (x.1, f x.2) else x) |>.
Definition set_iter (a n : nat) (itr : Z) : multi_index -> multi_index :=
  update_item a (fun i => i <| iters ::= <[n := itr]> |>).
Definition iter_of (i : item) (n : nat) : Z := default (-1) (iters i !! n).

(** [_items_vector.emplace_back] *)
Definition keep_item (i : item) (m : multi_index) : multi_index * nat :=
  (mk_multi_index (host m) (next_primary_key m) (items_vector m ++ [(heap m, i)]) (S (heap m)), heap m).

(** ** Reading *)

Definition load_object_by_primary_iterator (itr : Z) (m : multi_index) : result (multi_index * nat) :=
  match find_item (fun i => primary_itr i =? itr) m with
  | Some a => Ok (m, a)
  | None =>
      buffer ← db_get itr (host m);
      val ← unpack buffer;
      Ok (keep_item (mk_item val itr (replicate (length extractors) (-1))) m)
  end.

Definition find (pk : Z) (m : multi_index) : result (multi_index * iterator) :=
  match find_item (fun i => primary_key (obj i) =? pk) m with
  | Some a => Ok (m, Some a)
  | None =>
      '(h, itr) ← db_find primary pk (host m);
      let m := m <| host := h |> in
      if itr <? 0 then Ok (m, None)
      else '(m, a) ← load_object_by_primary_iterator itr m; Ok (m, Some a)
  end.
Definition require_find (pk : Z) (error_msg : string) (m : multi_index) : result (multi_index * iterator) :=
  match find_item (fun i => primary_key (obj i) =? pk) m with
  | Some a => Ok (m, Some a)
  | None =>
      '(h, itr) ← db_find primary pk (host m);
      let m := m <| host := h |> in
      _ ← check (0 <=? itr) error_msg;
      '(m, a) ← load_object_by_primary_iterator itr m; Ok (m, Some a)
  end.
Definition get (pk : Z) (error_msg : string) (m : multi_index) : result (multi_index * R) :=
  '(m, it) ← find pk m;
  _ ← check (bool_decide (it <> None)) error_msg;
  i ← deref it m; Ok (m, obj i).

(** A move of the primary table: to the row of an iterator, or the end. *)
Definition go (move : H -> result (H * (Z * Z))) (m : multi_index) : result (multi_index * iterator) :=
  '(h, (itr, _)) ← move (host m);
  let m := m <| host := h |> in
  if itr <? 0 then Ok (m, None)
  else '(m, a) ← load_object_by_primary_iterator itr m; Ok (m, Some a).
Definition lower_bound (pk : Z) : multi_index -> result (multi_index * iterator) := go (db_lowerbound primary pk).
Definition upper_bound (pk : Z) : multi_index -> result (multi_index * iterator) := go (db_upperbound primary pk).
Definition begin : multi_index -> result (multi_index * iterator) := lower_bound 0.
Definition increment (it : iterator) (m : multi_index) : result (multi_index * iterator) :=
  _ ← check (bool_decide (it <> None)) "cannot increment end iterator";
  i ← deref it m; go (db_next primary (primary_itr i)) m.
Definition decrement (it : iterator) (m : multi_index) : result (multi_index * iterator) :=
  match it with
  | None =>
      '(h, ei) ← db_end primary (host m);
      let m := m <| host := h |> in
      _ ← check (negb (ei =? -1)) "cannot decrement end iterator when the table is empty";
      '(h, (itr, _)) ← db_previous primary ei (host m);
      let m := m <| host := h |> in
      _ ← check (0 <=? itr) "cannot decrement end iterator when the table is empty";
      '(m, a) ← load_object_by_primary_iterator itr m; Ok (m, Some a)
  | Some a =>
      i ← at_address a m;
      '(h, (itr, _)) ← db_previous primary (primary_itr i) (host m);
      let m := m <| host := h |> in
      _ ← check (0 <=? itr) "cannot decrement iterator at beginning of table";
      '(m, a) ← load_object_by_primary_iterator itr m; Ok (m, Some a)
  end.

(** The key after [pk], short of the tags. *)
Definition key_after (pk : Z) : Z := if no_available_primary_key <=? pk then no_available_primary_key else pk + 1.
Definition available_primary_key (m : multi_index) : result (multi_index * Z) :=
  m ← (if next_primary_key m =? unset_next_primary_key then
         '(m, first) ← begin m;
         match first with
         | None => Ok (m <| next_primary_key := 0 |>)
         | Some _ =>
             '(m, it) ← decrement None m;
             i ← deref it m;
             Ok (m <| next_primary_key := key_after (primary_key (obj i)) |>)
         end
       else Ok m);
  _ ← check (next_primary_key m <? no_available_primary_key) "next primary key in table is at autoincrement limit";
  Ok (m, next_primary_key m).

(** ** Writing *)

Definition note_key (pk : Z) (m : multi_index) : multi_index :=
  if next_primary_key m <=? pk then m <| next_primary_key := key_after pk |> else m.

(** The entries of a new row in the indices. *)
Fixpoint store_secondary (n : nat) (exs : list (R -> Z)) (r : R) (h : H) : result (H * list Z) :=
  match exs with
  | [] => Ok (h, [])
  | ex :: exs =>
      '(h, itr) ← db_idx_store n (primary_key r) (ex r) h;
      '(h, l) ← store_secondary (S n) exs r h; Ok (h, itr :: l)
  end.
Definition emplace (r : R) (m : multi_index) : result (multi_index * iterator) :=
  _ ← check own "cannot create objects in table of another contract";
  '(h, itr) ← db_store (primary_key r) (pack r) (host m);
  let m := note_key (primary_key r) (m <| host := h |>) in
  '(h, l) ← store_secondary 0 extractors r (host m);
  let '(m, a) := keep_item (mk_item r itr l) (m <| host := h |>) in Ok (m, Some a).

(** One index of a row that was changed: the iterator it remembers is searched
    when it is not known. *)
Definition update_secondary (n : nat) (ex : R -> Z) (old r : R) (itr : Z) (h : H) : result (H * Z) :=
  if ex old =? ex r then Ok (h, itr)
  else
    '(h, itr) ← (if itr <? 0 then db_find (secondary n) (primary_key old) h else Ok (h, itr));
    if 0 <=? itr then h ← db_idx_update n itr (ex r) h; Ok (h, itr)
    else db_idx_store n (primary_key old) (ex r) h.
Fixpoint update_indices (n : nat) (exs : list (R -> Z)) (old r : R) (its : list Z) (h : H) : result (H * list Z) :=
  match exs, its with
  | ex :: exs, itr :: its =>
      '(h, itr) ← update_secondary n ex old r itr h;
      '(h, l) ← update_indices (S n) exs old r its h; Ok (h, itr :: l)
  | _, _ => Ok (h, [])
  end.
Definition modify (it : iterator) (updater : R -> result R) (m : multi_index) : result multi_index :=
  _ ← check (bool_decide (it <> None)) "cannot pass end iterator to modify";
  a ← some_or (Trap "null pointer") it;
  i ← at_address a m;
  _ ← check own "cannot modify objects in table of another contract";
  let old := obj i in
  r ← updater old;
  _ ← check (primary_key old =? primary_key r) "updater cannot change primary key when modifying an object";
  h ← db_update (primary_itr i) (pack r) (host m);
  let m := note_key (primary_key old) (m <| host := h |>) in
  '(h, l) ← update_indices 0 extractors old r (iters i) (host m);
  Ok (update_item a (fun i => mk_item r (primary_itr i) l) (m <| host := h |>)).

Fixpoint remove_secondary (n : nat) (pk : Z) (its : list Z) (h : H) : result H :=
  match its with
  | [] => Ok h
  | itr :: its =>
      '(h, itr) ← (if itr <? 0 then db_find (secondary n) pk h else Ok (h, itr));
      h ← (if 0 <=? itr then db_idx_remove n itr h else Ok h);
      remove_secondary (S n) pk its h
  end.
(** The last of the vector with the key of the row is taken out. *)
Definition drop_item (pk : Z) (l : list (nat * item)) : option (list (nat * item)) :=
  '(i, _) ← list_find (fun x => primary_key (obj x.2) = pk) (reverse l);
  Some (delete (length l - 1 - i)%nat l).
Definition erase_obj (a : nat) (m : multi_index) : result multi_index :=
  i ← at_address a m;
  _ ← check own "cannot erase objects in table of another contract";
  let pk := primary_key (obj i) in
  items ← some_or (Check "attempt to remove object that was not in multi_index") (drop_item pk (items_vector m));
  h ← db_remove (primary_itr i) (host m);
  h ← remove_secondary 0 pk (iters i) h;
  Ok (m <| host := h |> <| items_vector := items |>).
Definition erase (it : iterator) (m : multi_index) : result (multi_index * iterator) :=
  _ ← check (bool_decide (it <> None)) "cannot pass end iterator to erase";
  a ← some_or (Trap "null pointer") it;
  '(m, next) ← increment it m;
  m ← erase_obj a m; Ok (m, next).

(** ** Secondary indices *)

Section index.
Context (number : nat).

(** The iterator of a row in the index, searched when it is not known. *)
Definition known_iter (a : nat) (m : multi_index) : result (multi_index * Z) :=
  i ← at_address a m;
  if iter_of i number =? -1 then
    '(h, itr) ← db_find (secondary number) (primary_key (obj i)) (host m);
    Ok (set_iter a number itr (m <| host := h |>), itr)
  else Ok (m, iter_of i number).
(** The row of an entry, which remembers the iterator. *)
Definition row_of (itr pk : Z) (m : multi_index) : result (multi_index * iterator) :=
  '(m, it) ← find pk m;
  a ← some_or (Trap "null pointer") it;
  Ok (set_iter a number itr m, Some a).
Definition index_go (move : H -> result (H * (Z * Z))) (m : multi_index) : result (multi_index * iterator) :=
  '(h, (itr, pk)) ← move (host m);
  let m := m <| host := h |> in
  if itr <? 0 then Ok (m, None) else row_of itr pk m.
Definition index_lower_bound (k : Z) : multi_index -> result (multi_index * iterator) :=
  index_go (db_lowerbound (secondary number) k).
Definition index_upper_bound (k : Z) : multi_index -> result (multi_index * iterator) :=
  index_go (db_upperbound (secondary number) k).
Definition index_increment (it : iterator) (m : multi_index) : result (multi_index * iterator) :=
  _ ← check (bool_decide (it <> None)) "cannot increment end iterator";
  a ← some_or (Trap "null pointer") it;
  '(m, itr) ← known_iter a m;
  index_go (db_next (secondary number) itr) m.
Definition index_decrement (it : iterator) (m : multi_index) : result (multi_index * iterator) :=
  match it with
  | None =>
      '(h, ei) ← db_end (secondary number) (host m);
      let m := m <| host := h |> in
      _ ← check (negb (ei =? -1)) "cannot decrement end iterator when the index is empty";
      '(h, (itr, pk)) ← db_previous (secondary number) ei (host m);
      let m := m <| host := h |> in
      _ ← check (0 <=? itr) "cannot decrement end iterator when the index is empty";
      row_of itr pk m
  | Some a =>
      '(m, itr) ← known_iter a m;
      '(h, (itr, pk)) ← db_previous (secondary number) itr (host m);
      let m := m <| host := h |> in
      _ ← check (0 <=? itr) "cannot decrement iterator at beginning of index";
      row_of itr pk m
  end.
Definition extract (r : R) : Z := match extractors !! number with Some ex => ex r | None => 0 end.
Definition index_find (k : Z) (m : multi_index) : result (multi_index * iterator) :=
  '(m, lb) ← index_lower_bound k m;
  match lb with
  | None => Ok (m, None)
  | Some _ => i ← deref lb m; Ok (m, if k =? extract (obj i) then lb else None)
  end.
Definition index_require_find (k : Z) (error_msg : string) (m : multi_index) : result (multi_index * iterator) :=
  '(m, lb) ← index_lower_bound k m;
  _ ← check (bool_decide (lb <> None)) error_msg;
  i ← deref lb m;
  _ ← check (k =? extract (obj i)) error_msg; Ok (m, lb).
Definition index_get (k : Z) (error_msg : string) (m : multi_index) : result (multi_index * R) :=
  '(m, it) ← index_find k m;
  _ ← check (bool_decide (it <> None)) error_msg;
  i ← deref it m; Ok (m, obj i).
Definition index_erase (it : iterator) (m : multi_index) : result (multi_index * iterator) :=
  _ ← check (bool_decide (it <> None)) "cannot pass end iterator to erase";
  a ← some_or (Trap "null pointer") it;
  '(m, next) ← index_increment it m;
  m ← erase_obj a m; Ok (m, next).

(** [update_index]: entries for the rows that have none. *)
Fixpoint update_index_loop (max_steps : nat) (it : iterator) (next : Z) (m : multi_index)
    : result (multi_index * Z * nat) :=
  match max_steps, it with
  | S n, Some a =>
      i ← at_address a m;
      let pk := primary_key (obj i) in
      '(h, existing) ← db_find (secondary number) pk (host m);
      h ← (if existing <? 0 then fst <$> db_idx_store number pk (extract (obj i)) h else Ok h);
      let m := m <| host := h |> in
      '(m, it) ← increment it m;
      update_index_loop n it (wrap 64 (pk + 1)) m
  | _, _ => Ok (m, next, max_steps)
  end.
Definition update_index (next : Z) (max_steps : nat) (m : multi_index) : result (multi_index * Z * nat * bool) :=
  match max_steps with
  | O => Ok (m, next, 0%nat, false)
  | _ =>
      '(m, it) ← lower_bound next m;
      '(m, next, steps) ← update_index_loop max_steps it next m;
      Ok (m, next, steps, (0 <? Z.of_nat steps) || (next =? 0))
  end.
End index.
End class.
End CachedTable.
