(* ===== verification/CachedTableRun.v ===== *)
(** The class behind a table, with its cache of rows and its iterators, is the
    table of MultiIndex.v: whatever is asked of it, in whatever order, it
    answers what the finite map answers. *)
From S2P Require Import Prelude MultiIndex CachedTable.
From stdpp Require Import sorting.
Import HostDb CachedTable.
Open Scope string_scope.
Open Scope list_scope.
Open Scope Z_scope.

Module CachedTableRun.

Section run.
Context {H : Type} `{HostDb H} `{!HostView H} `{!HostLaws H}.
Context {R : Type} (primary_key : R -> Z) (pack : R -> list Z) (unpack : list Z -> result R) (extractors : list (R -> Z)).
(** The serialization of rows is read back, and keys have 64 bits. *)
Context (unpack_pack : forall r, unpack (pack r) = Ok r) (key_range : forall r, 0 <= primary_key r < 2 ^ 64).
(** The indices that have an entry for every row; [update_index] fills one that
    was added later. *)
Implicit Types (full : nat -> Prop) (tb : gmap Z R).

Abbreviation multi_index := (@multi_index H R).
Abbreviation item := (@item R).
Implicit Types (m : multi_index) (i : item).
Abbreviation load := (load_object_by_primary_iterator unpack extractors).

(** ** The relation *)

Definition key i : Z := primary_key (obj i).
Record item_ok (h : H) tb i : Prop := {
  io_row : tb !! key i = Some (obj i);
  io_primary : at_ h primary (primary_itr i) = Some (key i);
  io_length : length (iters i) = length extractors;
  io_iters : forall n itr, iters i !! n = Some itr -> itr = -1 \/ at_ h (secondary n) itr = Some (key i)
}.
Record represents full m tb : Prop := {
  rp_keyed : Table.keyed primary_key tb;
  rp_rows : stored (view (host m)) = pack <$> tb;
  rp_items : forall x, x ∈ items_vector m -> item_ok (host m) tb x.2;
  rp_addresses : NoDup (items_vector m).*1 /\ Forall (fun a => (a < heap m)%nat) (items_vector m).*1;
  rp_once : NoDup (key <$> (items_vector m).*2);
  rp_next : next_primary_key m = unset_next_primary_key \/
    next_primary_key m <= no_available_primary_key /\
    forall k, is_Some (tb !! k) -> k < next_primary_key m \/ next_primary_key m = no_available_primary_key;
  rp_indices : forall n ex, extractors !! n = Some ex ->
    keyed_by (view (host m)) n ⊆ ex <$> tb /\ (full n -> keyed_by (view (host m)) n = ex <$> tb)
}.
(** The row an iterator is at; iterators stay where they are. *)
Definition points m (it : option nat) (o : option Z) : Prop :=
  match it, o with
  | None, None => True
  | Some a, Some pk => exists i, (a, i) ∈ items_vector m /\ key i = pk
  | _, _ => False
  end.
Definition still m m' : Prop := forall it o, points m it o -> points m' it o.
Definition extends m m' : Prop := still m m' /\ next_primary_key m' = next_primary_key m.

Lemma still_trans m1 m2 m3 : still m1 m2 -> still m2 m3 -> still m1 m3.
Proof. intros E12 E23 it o Hp. apply E23, E12, Hp. Qed.
Lemma extends_refl m : extends m m.
Proof. split; [by intros it o Hp|done]. Qed.
Lemma extends_trans m1 m2 m3 : extends m1 m2 -> extends m2 m3 -> extends m1 m3.
Proof. intros [E1 N1] [E2 N2]. split; [by eapply still_trans|congruence]. Qed.

Lemma check_false {B} b msg (f : unit -> result B) : b = false -> (check b msg ≫= f) = Err (Check msg).
Proof. by intros ->. Qed.

(** ** Rows kept *)

Lemma find_item_Some p m a : find_item p m = Some a -> exists i, (a, i) ∈ items_vector m /\ p i = true.
Proof.
  unfold find_item. destruct (List.find _ _) as [[b i]|] eqn:E; [|done]. intros [= <-].
  apply find_some in E as [Hi Hp]. apply list_elem_of_In in Hi. rewrite elem_of_reverse in Hi. by exists i.
Qed.
Lemma find_item_None p m : find_item p m = None -> forall a i, (a, i) ∈ items_vector m -> p i = false.
Proof.
  unfold find_item. destruct (List.find _ _) as [x|] eqn:E; [done|]. intros _ a i Hi.
  apply (find_none _ _ E (a, i)). apply list_elem_of_In. by rewrite elem_of_reverse.
Qed.
Lemma address_unique full m tb a i j :
  represents full m tb -> (a, i) ∈ items_vector m -> (a, j) ∈ items_vector m -> i = j.
Proof.
  intros Hm Hi Hj. destruct (rp_addresses _ _ _ Hm) as [Hn _].
  apply list_elem_of_lookup in Hi as [x Hi]. apply list_elem_of_lookup in Hj as [y Hj].
  assert (x = y) as ->; [|congruence].
  eapply NoDup_lookup; [exact Hn|by rewrite list_lookup_fmap, Hi|by rewrite list_lookup_fmap, Hj].
Qed.
Lemma key_unique full m tb a b i j :
  represents full m tb -> (a, i) ∈ items_vector m -> (b, j) ∈ items_vector m -> key i = key j -> a = b /\ i = j.
Proof.
  intros Hm Hi Hj Hk. pose proof (rp_once _ _ _ Hm) as Hn.
  apply list_elem_of_lookup in Hi as [x Hi]. apply list_elem_of_lookup in Hj as [y Hj].
  assert (x = y) as ->; [|split; congruence].
  eapply NoDup_lookup; [exact Hn|by rewrite !list_lookup_fmap, Hi|by rewrite !list_lookup_fmap, Hj; cbn; rewrite Hk].
Qed.
Lemma at_address_elem full m tb a i :
  represents full m tb -> (a, i) ∈ items_vector m -> at_address a m = Ok i.
Proof.
  intros Hm Hi. unfold at_address. destruct (List.find _ _) as [[b j]|] eqn:E; cbn.
  - apply find_some in E as [Hj Hb]. apply Nat.eqb_eq in Hb. cbn in Hb. subst b.
    apply list_elem_of_In in Hj. by rewrite (address_unique full m tb a i j).
  - apply (find_none _ _) with (x := (a, i)) in E; [|by apply list_elem_of_In]. cbn in E. by rewrite Nat.eqb_refl in E.
Qed.

Lemma keeps_refl (h : H) : keeps h h.
Proof. by intros w i p Hp. Qed.
Lemma keeps_trans (h1 h2 h3 : H) : keeps h1 h2 -> keeps h2 h3 -> keeps h1 h3.
Proof. intros H12 H23 w i p Hp. by apply H23, H12. Qed.

(** New iterators change nothing. *)
Lemma represents_same full m tb h' : represents full m tb -> same (host m) h' -> represents full (m <| host := h' |>) tb.
Proof.
  intros [Hk Hr Hi Ha Ho Hn Hx] [Hv Hs]. split; cbn; rewrite ?Hv; try done.
  intros x Hin. destruct (Hi x Hin) as [H1 H2 H3 H4]. split; [done|by apply Hs|done|].
  intros n itr E. destruct (H4 n itr E) as [|Hat]; [by left|right; by apply Hs].
Qed.
Lemma extends_same m h' : extends m (m <| host := h' |>).
Proof. split; [by intros [a|] [pk|] Hp|done]. Qed.

Lemma keep_spec full m tb i : represents full m tb -> item_ok (host m) tb i ->
  (forall a j, (a, j) ∈ items_vector m -> key j <> key i) ->
  let '(m', a) := keep_item i m in
  represents full m' tb /\ extends m m' /\ points m' (Some a) (Some (key i)).
Proof.
  intros Hm Hi Hfresh. cbn [keep_item]. split; [split; cbn; try apply Hm|split].
  - intros x [Hx|Hx%list_elem_of_singleton]%elem_of_app; [by apply Hm|by subst x].
  - rewrite fmap_app. cbn. destruct (rp_addresses _ _ _ Hm) as [Hn Hf]. split.
    + apply NoDup_app. split; [done|]. split; [|apply NoDup_singleton]. intros x Hx ->%list_elem_of_singleton.
      rewrite Forall_forall in Hf. apply Hf in Hx. lia.
    + apply Forall_app. split; [|repeat constructor]. eapply Forall_impl; [exact Hf|]. cbn. lia.
  - rewrite !fmap_app. cbn. apply NoDup_app. split; [apply Hm|]. split; [|apply NoDup_singleton].
    intros x Hx ->%list_elem_of_singleton. apply list_elem_of_fmap in Hx as (j & Hk & Hj).
    apply list_elem_of_fmap in Hj as ([a j'] & -> & Hj). by apply (Hfresh a j').
  - split; [|done]. intros [a|] [p|] Hp; cbn in *; try done. destruct Hp as (j & Hj & Hkj). exists j. split; [|done]. apply elem_of_app. by left.
  - exists i. split; [|done]. apply elem_of_app. right. by left.
Qed.

Lemma load_spec full m tb itr pk :
  represents full m tb -> at_ (host m) primary itr = Some pk ->
  exists m' a, load itr m = Ok (m', a) /\ represents full m' tb /\ extends m m' /\ points m' (Some a) (Some pk) /\ host m' = host m.
Proof.
  intros Hm Hat. unfold load_object_by_primary_iterator. destruct (find_item _ m) as [a|] eqn:E.
  - exists m, a. apply find_item_Some in E as (i & Hi & Hp). apply Z.eqb_eq in Hp.
    split; [done|]. split; [done|]. split; [apply extends_refl|]. split; [|done]. exists i. split; [done|].
    pose proof (io_primary _ _ _ (rp_items _ _ _ Hm _ Hi)) as Hj. cbn in Hj. rewrite Hp, Hat in Hj. by injection Hj.
  - destruct (at_entry _ _ _ _ Hat) as [_ He]. cbn in He.
    destruct (stored (view (host m)) !! pk) as [bs|] eqn:Eb.
    2: { destruct (decide _) as [[? [=]]|]; by destruct He. }
    rewrite (get_law _ _ _ _ Hat Eb). cbn [mbind result_bind]. rewrite (rp_rows _ _ _ Hm), lookup_fmap in Eb.
    destruct (tb !! pk) as [r|] eqn:Er; [|done]. injection Eb as <-. rewrite unpack_pack. cbn [mbind result_bind].
    pose proof (rp_keyed _ _ _ Hm pk r Er) as Hk. set (i := mk_item r itr (replicate (length extractors) (-1))).
    assert (key i = pk) as Hki by done. assert (item_ok (host m) tb i) as Hi.
    { split; rewrite ?Hki; [done..|by cbn; rewrite length_replicate|]. intros n itr' [-> _]%lookup_replicate. by left. }
    pose proof (keep_spec full m tb i Hm Hi) as Hkeep. cbn [keep_item] in *. eexists _, _. split; [reflexivity|].
    destruct Hkeep as (H1 & H2 & H3); [|by rewrite Hki in H3].
    intros a j Hj Hkj. rewrite Hki in Hkj. pose proof (find_item_None _ _ E a j Hj) as Hp. cbn in Hp. apply Z.eqb_neq in Hp. apply Hp.
    pose proof (io_primary _ _ _ (rp_items _ _ _ Hm _ Hj)) as Hat'. cbn in Hat'. rewrite Hkj in Hat'. by eapply at_inj.
Qed.

(** ** Reading *)

(** What an operation that reads returns, and that nothing changes. *)
Definition reads full tb m (x : result (multi_index * option nat)) (o : option Z) : Prop :=
  exists m' it, x = Ok (m', it) /\ represents full m' tb /\ extends m m' /\ points m' it o.

Lemma reads_after full tb m m1 x o :
  extends m m1 -> reads full tb m1 x o -> reads full tb m x o.
Proof. intros He (m' & it & E & Hm & He' & Hp). exists m', it. split; [done|]. split; [done|]. split; [by eapply extends_trans|done]. Qed.

Lemma load_reads full m tb itr pk :
  represents full m tb -> at_ (host m) primary itr = Some pk ->
  reads full tb m ('(m, a) ← load itr m; Ok (m, Some a)) (Some pk).
Proof.
  intros Hm Hat. destruct (load_spec full m tb itr pk Hm Hat) as (m' & a & -> & Hm' & He & Hp & _).
  exists m', (Some a). by split_and!.
Qed.

Abbreviation find := (find primary_key unpack extractors).
Lemma find_keeps full m tb pk : represents full m tb ->
  exists m' it, find pk m = Ok (m', it) /\ represents full m' tb /\ extends m m' /\
    points m' it (if decide (is_Some (tb !! pk)) then Some pk else None) /\ keeps (host m) (host m').
Proof.
  intros Hm. unfold CachedTable.find. destruct (find_item _ m) as [a|] eqn:E.
  - apply find_item_Some in E as (i & Hi & Hp). apply Z.eqb_eq in Hp.
    pose proof (io_row _ _ _ (rp_items _ _ _ Hm _ Hi)) as Hr. cbn in Hr. unfold key in Hr. rewrite Hp in Hr.
    rewrite decide_True by eauto. exists m, (Some a). split; [done|]; split; [done|]; split; [apply extends_refl|split; [by exists i|apply keeps_refl]].
  - destruct (find_law (host m) primary pk) as (h' & itr & -> & Hs & Hf). cbn [mbind result_bind].
    pose proof (represents_same _ _ _ _ Hm Hs) as Hm'. pose proof (extends_same m h') as He.
    cbn in Hf. rewrite (rp_rows _ _ _ Hm), lookup_fmap in Hf. destruct (tb !! pk) as [r|] eqn:Er; cbn in Hf.
    + rewrite decide_True in Hf by eauto. rewrite decide_True by eauto.
      destruct (at_entry _ _ _ _ Hf) as [Hz _]. rewrite (proj2 (Z.ltb_ge _ _)) by lia.
      destruct (load_spec full (m <| host := h' |>) tb itr pk Hm' Hf) as (m1 & a & -> & Hm1 & He1 & Hp1 & Hh). cbn [mbind result_bind].
      exists m1, (Some a). split; [done|]. split; [done|]. split; [exact (extends_trans _ _ _ He He1)|]. split; [done|]. rewrite Hh. apply Hs.
    + rewrite decide_False in Hf by (by intros []). rewrite decide_False by (by intros []).
      rewrite (proj2 (Z.ltb_lt _ _)) by lia. exists (m <| host := h' |>), None. split; [done|]. split; [done|]. split; [done|]. split; [done|apply Hs].
Qed.
Lemma cached_find_spec full m tb pk : represents full m tb ->
  reads full tb m (find pk m) (if decide (is_Some (tb !! pk)) then Some pk else None).
Proof.
  intros Hm. destruct (find_keeps full m tb pk Hm) as (m' & it & E & Hm' & He & Hp & _). by exists m', it.
Qed.

Lemma require_find_spec full m tb pk msg : represents full m tb ->
  match tb !! pk with
  | Some _ => reads full tb m (require_find primary_key unpack extractors pk msg m) (Some pk)
  | None => exists e, require_find primary_key unpack extractors pk msg m = Err e
  end.
Proof.
  intros Hm. pose proof (cached_find_spec full m tb pk Hm) as Hf. unfold CachedTable.find, require_find in *.
  destruct (find_item _ m) as [a|] eqn:E; [destruct (tb !! pk) eqn:Er|].
  - by rewrite decide_True in Hf by eauto.
  - rewrite decide_False in Hf by (by intros []). by destruct Hf as (? & ? & [= <- <-] & _ & _ & ?).
  - destruct (find_law (host m) primary pk) as (h' & itr & Ef & _ & Hl). rewrite Ef in Hf |- *. cbn [mbind result_bind] in Hf |- *.
    cbn in Hl. rewrite (rp_rows _ _ _ Hm), lookup_fmap in Hl. destruct (tb !! pk) as [r|]; cbn in Hl.
    + rewrite decide_True in Hl by eauto. rewrite decide_True in Hf by eauto. destruct (at_entry _ _ _ _ Hl) as [Hz _].
      rewrite (proj2 (Z.ltb_ge _ _)) in Hf by lia. by rewrite check_true by lia.
    + rewrite decide_False in Hl by (by intros []). rewrite check_false by lia. by eexists.
Qed.
Lemma get_spec full m tb pk msg : represents full m tb ->
  match tb !! pk with
  | Some r => exists m', get primary_key unpack extractors pk msg m = Ok (m', r) /\ represents full m' tb /\ extends m m'
  | None => exists e, get primary_key unpack extractors pk msg m = Err e
  end.
Proof.
  intros Hm. destruct (cached_find_spec full m tb pk Hm) as (m' & it & E & Hm' & He & Hp). unfold get. rewrite E. cbn [mbind result_bind].
  destruct (tb !! pk) as [r|] eqn:Er.
  - rewrite decide_True in Hp by eauto. destruct it as [a|]; [|done].
    destruct Hp as (i & Hin & Hk). rewrite bool_decide_true by done. cbn [check mbind result_bind]. unfold deref. cbn [some_or mbind result_bind].
    rewrite (at_address_elem _ _ _ _ _ Hm' Hin). pose proof (io_row _ _ _ (rp_items _ _ _ Hm' _ Hin)) as Hr. cbn in Hr. rewrite Hk, Er in Hr.
    injection Hr as ->. cbn. by exists m'.
  - rewrite decide_False in Hp by (by intros []). destruct it; [done|]. by eexists.
Qed.

Lemma go_spec full m tb move e h' itr pk : represents full m tb ->
  move (host m) = Ok (h', (itr, pk)) -> same (host m) h' -> lands primary e h' itr pk ->
  reads full tb m (go unpack extractors move m) (snd <$> e).
Proof.
  intros Hm Em Hs Hl. unfold go. rewrite Em. cbn [mbind result_bind].
  pose proof (represents_same _ _ _ _ Hm Hs) as Hm'. eapply reads_after; [apply extends_same|].
  destruct e as [e|]; cbn in Hl.
  - destruct Hl as [Hat ->]. destruct (at_entry _ _ _ _ Hat) as [Hz _].
    rewrite (proj2 (Z.ltb_ge _ _)) by lia. by apply load_reads.
  - rewrite (proj2 (Z.ltb_lt _ _)) by lia. exists (m <| host := h' |>), None. split; [done|]; split; [done|]; split; [apply extends_refl|done].
Qed.

(** The entries of the primary table are its keys. *)
Lemma keys_fmap tb : Table.keys (pack <$> tb) = Table.keys tb.
Proof.
  unfold Table.keys. f_equal. rewrite map_to_list_fmap, <- list_fmap_compose. by apply list_fmap_ext; intros ? [].
Qed.
Lemma primary_entries full m tb : represents full m tb ->
  entries (view (host m)) primary = (fun k => (k, k)) <$> Table.keys tb.
Proof. intros Hm. cbn. by rewrite (rp_rows _ _ _ Hm), keys_fmap. Qed.
Lemma head_keys (P : Z * Z -> Prop) (Q : Z -> Prop) `{!forall e, Decision (P e)} `{!forall k, Decision (Q k)} (l : list Z) :
  (forall k, P (k, k) <-> Q k) -> snd <$> head (filter P ((fun k => (k, k)) <$> l)) = head (filter Q l).
Proof.
  intros HPQ. induction l as [|k l IH]; [done|]. cbn [fmap list_fmap]. rewrite !filter_cons.
  destruct (decide (P (k, k))) as [Hp|Hp]; [rewrite decide_True by (by apply HPQ)|rewrite decide_False by (by rewrite <- HPQ)]; done.
Qed.
Lemma last_keys (P : Z * Z -> Prop) (Q : Z -> Prop) `{!forall e, Decision (P e)} `{!forall k, Decision (Q k)} (l : list Z) :
  (forall k, P (k, k) <-> Q k) -> snd <$> last (filter P ((fun k => (k, k)) <$> l)) = last (filter Q l).
Proof.
  intros HPQ. replace (filter P ((fun k => (k, k)) <$> l)) with ((fun k => (k, k)) <$> filter Q l).
  - rewrite fmap_last. by destruct (last _).
  - induction l as [|k l IH]; [done|]. cbn [fmap list_fmap]. rewrite !filter_cons.
    destruct (decide (P (k, k))) as [Hp|Hp]; [rewrite decide_True by (by apply HPQ)|rewrite decide_False by (by rewrite <- HPQ)];
      cbn; by rewrite <- IH.
Qed.
Lemma after_keys k j : after k k (j, j) <-> k < j.
Proof. unfold after, Table.idx_le. cbn. split; [intros [? Hn]; assert (j <> k) by congruence; lia|intros Hlt; split; [lia|intros [=]; lia]]. Qed.
Lemma before_keys k j : before k k (j, j) <-> j < k.
Proof. unfold before, Table.idx_le. cbn. split; [intros [? Hn]; assert (j <> k) by congruence; lia|intros Hlt; split; [lia|intros [=]; lia]]. Qed.

Lemma cached_lower_bound_spec full m tb k : represents full m tb ->
  reads full tb m (lower_bound unpack extractors k m) (head (Table.lower_bound_keys tb k)).
Proof.
  intros Hm. destruct (lowerbound_law (host m) primary k) as (h' & itr & pk & E & Hs & Hl).
  rewrite (primary_entries _ _ _ Hm) in Hl.
  unfold Table.lower_bound_keys. rewrite <- (head_keys (fun e => k <= e.1) (fun j => k <= j)) by done. by eapply go_spec.
Qed.
Lemma upper_bound_spec full m tb k : represents full m tb ->
  reads full tb m (upper_bound unpack extractors k m) (head (Table.upper_bound_keys tb k)).
Proof.
  intros Hm. destruct (upperbound_law (host m) primary k) as (h' & itr & pk & E & Hs & Hl).
  rewrite (primary_entries _ _ _ Hm) in Hl.
  unfold Table.upper_bound_keys. rewrite <- (head_keys (fun e => k < e.1) (fun j => k < j)) by done. by eapply go_spec.
Qed.
(** The row before; before the end, the last. *)
Definition key_before tb (o : option Z) : option Z :=
  match o with Some pk => last (filter (fun j => j < pk) (Table.keys tb)) | None => last (Table.keys tb) end.

Lemma points_item full m tb a pk : represents full m tb -> points m (Some a) (Some pk) ->
  exists i, at_address a m = Ok i /\ key i = pk /\ item_ok (host m) tb i.
Proof.
  intros Hm (i & Hi & Hk). exists i. split; [by eapply at_address_elem|]. split; [done|]. by apply (rp_items _ _ _ Hm _ Hi).
Qed.
Lemma primary_key_of full m tb pk : represents full m tb -> is_Some (tb !! pk) -> key_of (view (host m)) primary pk = Some pk.
Proof. intros Hm [r Hr]. cbn. rewrite (rp_rows _ _ _ Hm), lookup_fmap, Hr. by rewrite decide_True by eauto. Qed.

Lemma increment_spec full m tb it pk : represents full m tb -> points m it (Some pk) ->
  reads full tb m (increment unpack extractors it m) (head (Table.upper_bound_keys tb pk)).
Proof.
  intros Hm Hp. destruct it as [a|]; [|done]. destruct (points_item _ _ _ _ _ Hm Hp) as (i & Ea & Hk & Hi).
  unfold increment, deref. cbn [some_or mbind result_bind]. rewrite bool_decide_true by done. cbn [check mbind result_bind].
  rewrite Ea. cbn [mbind result_bind]. pose proof (io_primary _ _ _ Hi) as Hat. rewrite Hk in Hat.
  assert (is_Some (tb !! pk)) as Hs by (rewrite <- Hk, (io_row _ _ _ Hi); eauto).
  destruct (next_law (host m) primary _ pk pk Hat (primary_key_of _ _ _ _ Hm Hs)) as (h' & itr & pk' & E & Hsame & Hl).
  rewrite (primary_entries _ _ _ Hm) in Hl. unfold Table.upper_bound_keys.
  rewrite <- (head_keys (after pk pk) (fun j => pk < j)) by (intros j; apply after_keys). by eapply go_spec.
Qed.
Lemma decrement_spec full m tb it o : represents full m tb -> points m it o ->
  match key_before tb o with
  | Some k => reads full tb m (decrement unpack extractors it m) (Some k)
  | None => exists msg, decrement unpack extractors it m = Err (Check msg)
  end.
Proof.
  intros Hm Hp. unfold decrement. destruct it as [a|], o as [pk|]; try done.
  - destruct (points_item _ _ _ _ _ Hm Hp) as (i & Ea & Hk & Hi). rewrite Ea. cbn [mbind result_bind key_before].
    pose proof (io_primary _ _ _ Hi) as Hat. rewrite Hk in Hat.
    assert (is_Some (tb !! pk)) as Hs by (rewrite <- Hk, (io_row _ _ _ Hi); eauto).
    destruct (previous_law (host m) primary _ pk pk Hat (primary_key_of _ _ _ _ Hm Hs)) as (h' & itr & pk' & E & Hsame & Hl).
    rewrite (primary_entries _ _ _ Hm) in Hl. rewrite E. cbn [mbind result_bind].
    rewrite <- (last_keys (before pk pk) (fun j => j < pk)) by (intros j; apply before_keys).
    pose proof (represents_same _ _ _ _ Hm Hsame) as Hm'. destruct (last _) as [e|]; cbn in Hl |- *.
    + destruct Hl as [Hat' ->]. destruct (at_entry _ _ _ _ Hat') as [Hz _]. rewrite check_true by lia. cbn [mbind result_bind].
      eapply reads_after; [apply extends_same|by apply load_reads].
    + rewrite check_false by lia. by eexists.
  - destruct (end_law (host m) primary) as (h' & ei & E & Hsame & Hempty & Hlast). rewrite E. cbn [mbind result_bind key_before].
    pose proof (represents_same _ _ _ _ Hm Hsame) as Hm'. rewrite (primary_entries _ _ _ Hm) in Hempty, Hlast.
    destruct (decide (ei = -1)) as [->|Hne].
    + pose proof (proj1 Hempty eq_refl) as Hnil. apply fmap_nil_inv in Hnil. rewrite Hnil. by eexists.
    + rewrite check_true by lia. cbn [mbind result_bind]. destruct (Hlast Hne) as (h'' & itr & pk & E2 & Hsame2 & Hl).
      cbn [host]. change (host (m <| host := h' |>)) with h'. rewrite E2. cbn [mbind result_bind].
      pose proof (represents_same _ _ _ h'' Hm' Hsame2) as Hm''. rewrite fmap_last in Hl.
      destruct (last (Table.keys tb)) as [k|] eqn:El; cbn in Hl.
      * destruct Hl as [Hat' ->]. destruct (at_entry _ _ _ _ Hat') as [Hz _]. rewrite check_true by lia. cbn [mbind result_bind].
        eapply reads_after; [|by apply load_reads]. split; [by intros [x|] [y|] Hxy|done].
      * exfalso. apply Hne, Hempty. apply last_None in El. by rewrite El.
Qed.

(** ** The next key *)

Lemma key_after_range pk : key_after pk <= no_available_primary_key.
Proof. unfold key_after. destruct (Z.leb_spec no_available_primary_key pk); lia. Qed.
Lemma represents_next full m tb n : represents full m tb -> n <= no_available_primary_key ->
  (forall k, is_Some (tb !! k) -> k < n \/ n = no_available_primary_key) ->
  represents full (m <| next_primary_key := n |>) tb.
Proof. intros [Hk Hr Hi Ha Ho Hn Hx] Hle Hlt. split; cbn; try done. right. by split. Qed.
Lemma still_next m n : still m (m <| next_primary_key := n |>).
Proof. by intros [a|] [pk|] Hp. Qed.
Lemma last_largest tb pk : last (Table.keys tb) = Some pk -> forall k, is_Some (tb !! k) -> k <= pk.
Proof.
  intros Hl k Hk. apply Table.elem_of_keys in Hk. pose proof (Table.keys_sorted tb) as Hs.
  apply last_Some in Hl as [l' El]. rewrite El in Hk, Hs. apply elem_of_app in Hk as [Hk| ->%list_elem_of_singleton]; [|done].
  clear El. induction l' as [|x l' IH]; [by apply not_elem_of_nil in Hk|]. cbn in Hs.
  apply StronglySorted_inv in Hs as [Hs Hx]. apply elem_of_cons in Hk as [->|Hk]; [|by apply IH].
  rewrite Forall_forall in Hx. apply Hx, elem_of_app. right. by apply list_elem_of_singleton.
Qed.

(** What the class says is the key available: the one it has noted, else the
    one after the last row. *)
Definition available tb (next : Z) : result Z :=
  if next =? unset_next_primary_key then Table.available_primary_key tb
  else _ ← check (next <? no_available_primary_key) "next primary key in table is at autoincrement limit"; Ok next.

Lemma available_spec full m tb : represents full m tb ->
  match available tb (next_primary_key m) with
  | Ok k => exists m', available_primary_key primary_key unpack extractors m = Ok (m', k) /\ represents full m' tb /\
      still m m' /\ next_primary_key m' = k
  | Err e => available_primary_key primary_key unpack extractors m = Err e
  end.
Proof.
  intros Hm. unfold available, available_primary_key. destruct (Z.eqb_spec (next_primary_key m) unset_next_primary_key) as [Hu|Hu].
  2: { cbn [mbind result_bind]. destruct (next_primary_key m <? no_available_primary_key); cbn; [|done].
       exists m. split; [done|]. split; [done|]. split; [by intros it o Hp|done]. }
  unfold Table.available_primary_key. destruct (cached_lower_bound_spec full m tb 0 Hm) as (m1 & it & E1 & Hm1 & He1 & Hp1).
  unfold begin. rewrite E1. cbn [mbind result_bind].
  assert (head (Table.lower_bound_keys tb 0) = head (Table.keys tb)) as Hh.
  { unfold Table.lower_bound_keys. assert (Forall (fun j => 0 <= j) (Table.keys tb)) as Hf.
    { apply Forall_forall. intros k [r Hr]%Table.elem_of_keys. rewrite <- (rp_keyed _ _ _ Hm k r Hr). apply key_range. }
    destruct Hf as [|k l Hk _]; [done|]. by rewrite filter_cons_True. }
  rewrite Hh in Hp1. destruct (Table.keys tb) as [|k0 l] eqn:Ek.
  - cbn in Hp1. destruct it; [done|]. cbn. eexists. split; [reflexivity|]. split; [|split; [|done]].
    + apply represents_next; [done|done|]. intros k Hk%Table.elem_of_keys. rewrite Ek in Hk. by apply not_elem_of_nil in Hk.
    + eapply still_trans; [apply He1|apply still_next].
  - destruct it as [a|]; [|done]. pose proof (decrement_spec full m1 tb None None Hm1 I) as Hd. unfold key_before in Hd. rewrite Ek in Hd.
    destruct (last (k0 :: l)) as [pk|] eqn:El; [|by apply last_None in El].
    destruct Hd as (m2 & it2 & -> & Hm2 & He2 & Hp2). cbn [mbind result_bind]. destruct it2 as [b|]; [|done].
    destruct (points_item _ _ _ _ _ Hm2 Hp2) as (i & Ea & Hk & Hi). unfold deref. cbn [some_or mbind result_bind]. rewrite Ea. cbn [mbind result_bind].
    fold (key i). rewrite Hk. change (next_primary_key (m2 <| next_primary_key := key_after pk |>)) with (key_after pk).
    change Table.no_available_primary_key with no_available_primary_key.
    change (if no_available_primary_key <=? pk then no_available_primary_key else pk + 1) with (key_after pk).
    destruct (key_after pk <? no_available_primary_key); cbn; [|done]. eexists. split; [reflexivity|]. split; [|split; [|done]].
    + apply represents_next; [done|apply key_after_range|]. intros k Hs. rewrite <- Ek in El. pose proof (last_largest tb pk El k Hs) as Hle.
      unfold key_after. destruct (Z.leb_spec no_available_primary_key pk); [by right|left; lia].
    + eapply still_trans; [apply He1|]. eapply still_trans; [apply He2|apply still_next].
Qed.

(** ** Entries of the indices *)

Definition iter_ok (h : H) (n : nat) (pk itr : Z) : Prop := itr = -1 \/ at_ h (secondary n) itr = Some pk.
Lemma iter_ok_keeps h h' n pk itr : keeps h h' -> iter_ok h n pk itr -> iter_ok h' n pk itr.
Proof. intros Hk [->|Ha]; [by left|right; by apply Hk]. Qed.
(** What a walk over the indices from [n] does: the rows stay, index [n + j]
    changes by [f] of its extractor, the ones before stay. *)
Record walked (h h' : H) (n : nat) (exs : list (R -> Z)) (f : (R -> Z) -> gmap Z Z -> gmap Z Z) : Prop := {
  wk_rows : stored (view h') = stored (view h);
  wk_index : forall j ex, exs !! j = Some ex -> keyed_by (view h') (n + j)%nat = f ex (keyed_by (view h) (n + j)%nat);
  wk_before : forall k, (k < n)%nat -> keyed_by (view h') k = keyed_by (view h) k
}.
Lemma walked_nil h n f : walked h h n [] f.
Proof. by split. Qed.
Lemma walked_cons h h1 h' n ex exs f :
  stored (view h1) = stored (view h) -> keyed_by (view h1) n = f ex (keyed_by (view h) n) ->
  (forall k, k <> n -> keyed_by (view h1) k = keyed_by (view h) k) ->
  walked h1 h' (S n) exs f -> walked h h' n (ex :: exs) f.
Proof.
  intros Hr Hn Ho [Wr Wi Wb]. split; [congruence| |].
  - intros [|j] ex' E; cbn in E.
    + injection E as <-. rewrite Nat.add_0_r, <- Hn. apply Wb. lia.
    + rewrite Nat.add_succ_r, <- Nat.add_succ_l, (Wi j ex' E). f_equal. apply Ho. lia.
  - intros k Hk. rewrite Wb by lia. apply Ho. lia.
Qed.

Lemma store_secondary_spec r exs n h :
  (forall j ex, exs !! j = Some ex -> keyed_by (view h) (n + j)%nat !! primary_key r = None) ->
  exists h' l, store_secondary primary_key n exs r h = Ok (h', l) /\
    walked h h' n exs (fun ex => <[primary_key r := ex r]>) /\ keeps h h' /\ length l = length exs /\
    forall j itr, l !! j = Some itr -> at_ h' (secondary (n + j)) itr = Some (primary_key r).
Proof.
  revert n h. induction exs as [|ex exs IH]; intros n h Hnone; cbn [store_secondary].
  - exists h, []. split_and!; [done|apply walked_nil|apply keeps_refl|done|done].
  - pose proof (Hnone 0%nat ex eq_refl) as Hn. rewrite Nat.add_0_r in Hn.
    destruct (idx_store_law h n (primary_key r) (ex r) Hn) as (h1 & itr & -> & Hv & Hk & Ha). cbn [mbind result_bind].
    destruct (IH (S n) h1) as (h' & l & -> & Hw & Hk' & Hl & Hi).
    { intros j ex' E. rewrite Hv. cbn [set_index keyed_by]. rewrite (proj2 (Nat.eqb_neq _ _)) by lia.
      rewrite Nat.add_succ_l, <- Nat.add_succ_r. by apply (Hnone (S j) ex'). }
    cbn [mbind result_bind]. exists h', (itr :: l). split; [done|]. split; [|split; [by eapply keeps_trans|split; [cbn; by rewrite Hl|]]].
    + eapply walked_cons; [by rewrite Hv| |  |exact Hw]; rewrite Hv; cbn [set_index keyed_by].
      * by rewrite Nat.eqb_refl.
      * intros k Hne. by rewrite (proj2 (Nat.eqb_neq _ _)).
    + intros [|j] itr' E; cbn in E.
      * injection E as <-. rewrite Nat.add_0_r. by apply Hk'.
      * rewrite Nat.add_succ_r, <- Nat.add_succ_l. by apply Hi.
Qed.

Lemma find_iter n pk itr h : iter_ok h n pk itr ->
  exists h1 itr1, (if itr <? 0 then db_find (secondary n) pk h else Ok (h, itr)) = Ok (h1, itr1) /\ same h h1 /\
    (at_ h1 (secondary n) itr1 = Some pk \/ itr1 < 0 /\ keyed_by (view h1) n !! pk = None).
Proof.
  intros [->|Ha].
  - destruct (find_law h (secondary n) pk) as (h1 & itr1 & E & Hs & Hf). exists h1, itr1. split; [exact E|]. split; [done|].
    cbn in Hf. destruct (keyed_by (view h) n !! pk) eqn:Ek; [by left|right]. split; [done|]. by rewrite (proj1 Hs).
  - destruct (at_entry _ _ _ _ Ha) as [Hz _]. rewrite (proj2 (Z.ltb_ge _ _)) by lia. exists h, itr.
    split; [done|]. split; [split; [done|apply keeps_refl]|by left].
Qed.

Lemma update_secondary_spec n ex old r itr h : iter_ok h n (primary_key old) itr ->
  exists h' itr', update_secondary primary_key n ex old r itr h = Ok (h', itr') /\ stored (view h') = stored (view h) /\
    keyed_by (view h') n = (if ex old =? ex r then keyed_by (view h) n else <[primary_key old := ex r]> (keyed_by (view h) n)) /\
    (forall k, k <> n -> keyed_by (view h') k = keyed_by (view h) k) /\ keeps h h' /\ iter_ok h' n (primary_key old) itr'.
Proof.
  intros Hi. unfold update_secondary. destruct (Z.eqb_spec (ex old) (ex r)) as [He|He].
  { exists h, itr. split_and!; try done. apply keeps_refl. }
  set (pk := primary_key old) in *.
  destruct (find_iter n pk itr h Hi) as (h1 & itr1 & -> & [Hv Hk] & Hcase).
  cbn [mbind result_bind]. destruct Hcase as [Ha|[Hneg Hnone]].
  - destruct (at_entry _ _ _ _ Ha) as [Hz _]. rewrite (proj2 (Z.leb_le _ _)) by lia.
    destruct (idx_update_law h1 n itr1 pk (ex r) Ha) as (h2 & -> & Hv2 & Hk2). cbn [mbind result_bind].
    exists h2, itr1. rewrite Hv2. cbn [set_index stored keyed_by]. rewrite Hv, Nat.eqb_refl.
    split_and!; try done; [|by eapply keeps_trans|right; by apply Hk2]. intros k Hne. by rewrite (proj2 (Nat.eqb_neq _ _)).
  - rewrite (proj2 (Z.leb_gt _ _)) by lia.
    destruct (idx_store_law h1 n pk (ex r) Hnone) as (h2 & itr2 & -> & Hv2 & Hk2 & Ha2).
    exists h2, itr2. rewrite Hv2. cbn [set_index stored keyed_by]. rewrite Hv, Nat.eqb_refl.
    split_and!; try done; [|by eapply keeps_trans|by right]. intros k Hne. by rewrite (proj2 (Nat.eqb_neq _ _)).
Qed.
Lemma update_indices_spec old r exs its n h :
  length its = length exs -> (forall j itr, its !! j = Some itr -> iter_ok h (n + j) (primary_key old) itr) ->
  exists h' l, update_indices primary_key n exs old r its h = Ok (h', l) /\
    walked h h' n exs (fun ex es => if ex old =? ex r then es else <[primary_key old := ex r]> es) /\ keeps h h' /\
    length l = length exs /\ forall j itr, l !! j = Some itr -> iter_ok h' (n + j) (primary_key old) itr.
Proof.
  revert its n h. induction exs as [|ex exs IH]; intros [|itr its] n h Hl Hi; try done; cbn [update_indices].
  - exists h, []. split_and!; [done|apply walked_nil|apply keeps_refl|done|done].
  - pose proof (Hi 0%nat itr eq_refl) as H1. rewrite Nat.add_0_r in H1.
    destruct (update_secondary_spec n ex old r itr h H1) as (h1 & itr1 & -> & Hr1 & Hn1 & Ho1 & Hk1 & Hi1). cbn [mbind result_bind].
    destruct (IH its (S n) h1) as (h' & l & -> & Hw & Hk' & Hl' & Hi').
    { cbn in Hl. lia. }
    { intros j itr' E. rewrite Nat.add_succ_l, <- Nat.add_succ_r. eapply iter_ok_keeps; [exact Hk1|]. by apply (Hi (S j)). }
    cbn [mbind result_bind]. exists h', (itr1 :: l). split; [done|].
    split; [by eapply walked_cons|]. split; [by eapply keeps_trans|]. split; [cbn; by rewrite Hl'|].
    intros [|j] itr' E; cbn in E.
    + injection E as <-. rewrite Nat.add_0_r. by eapply iter_ok_keeps.
    + rewrite Nat.add_succ_r, <- Nat.add_succ_l. by apply Hi'.
Qed.

(** Iterators of other rows survive a removal. *)
Definition keeps_others (pk : Z) (h h' : H) : Prop :=
  forall w itr p, at_ h w itr = Some p -> p <> pk -> at_ h' w itr = Some p.
Lemma remove_secondary_spec pk its n h (exs : list (R -> Z)) :
  length its = length exs -> (forall j itr, its !! j = Some itr -> iter_ok h (n + j) pk itr) ->
  exists h', remove_secondary n pk its h = Ok h' /\ walked h h' n exs (fun _ => delete pk) /\ keeps_others pk h h'.
Proof.
  revert n h exs. induction its as [|itr its IH]; intros n h [|ex exs] Hl Hi; try done; cbn [remove_secondary].
  - exists h. split_and!; [done|apply walked_nil|by intros ????].
  - pose proof (Hi 0%nat itr eq_refl) as Hi0. rewrite Nat.add_0_r in Hi0.
    destruct (find_iter n pk itr h Hi0) as (h1 & itr1 & -> & [Hv Hk] & Hcase).
    cbn [mbind result_bind].
    assert (exists h2, (if 0 <=? itr1 then db_idx_remove n itr1 h1 else Ok h1) = Ok h2 /\
      stored (view h2) = stored (view h) /\
      (forall k, keyed_by (view h2) k = if Nat.eqb k n then delete pk (keyed_by (view h) k) else keyed_by (view h) k) /\
      (forall w it p, at_ h1 w it = Some p -> (w, p) <> (secondary n, pk) -> at_ h2 w it = Some p)) as (h2 & -> & Hr2 & Hv2 & Hk2).
    { destruct Hcase as [Ha|[Hneg Hnone]].
      - destruct (at_entry _ _ _ _ Ha) as [Hz _]. rewrite (proj2 (Z.leb_le _ _)) by lia.
        destruct (idx_remove_law h1 n itr1 pk Ha) as (h2 & -> & Hv2 & Hk2). exists h2. rewrite Hv2, Hv. by split_and!.
      - rewrite (proj2 (Z.leb_gt _ _)) by lia. exists h1. rewrite Hv in Hnone |- *. split_and!; [done|done| |done].
        intros k. destruct (Nat.eqb_spec k n) as [->|]; [|done]. by rewrite delete_id. }
    cbn [mbind result_bind]. destruct (IH (S n) h2 exs) as (h' & -> & Hw & Hk').
    { cbn in Hl. lia. }
    { intros j itr' E. rewrite Nat.add_succ_l, <- Nat.add_succ_r. destruct (Hi (S j) itr' E) as [->|Ha]; [by left|right].
      apply Hk2; [by apply Hk|]. intros [=]. lia. }
    exists h'. split; [done|]. split.
    + eapply walked_cons; [exact Hr2| | |exact Hw].
      * by rewrite Hv2, Nat.eqb_refl.
      * intros k Hne. by rewrite Hv2, (proj2 (Nat.eqb_neq _ _)).
    + intros w i p Ha Hp. apply Hk'; [|done]. apply Hk2; [by apply Hk|]. intros [=]. done.
Qed.

(** ** Writing *)

Definition noted (next pk : Z) : Z := if next <=? pk then key_after pk else next.
Definition next_ok tb (next : Z) : Prop := next = unset_next_primary_key \/
  next <= no_available_primary_key /\ forall k, is_Some (tb !! k) -> k < next \/ next = no_available_primary_key.
Lemma noted_ok tb next r : next_ok tb next -> next_ok (<[primary_key r := r]> tb) (noted next (primary_key r)).
Proof.
  set (pk := primary_key r). pose proof (key_range r) as Hr. fold pk in Hr. unfold next_ok, noted. intros Hn.
  destruct (Z.leb_spec next pk) as [Hle|Hlt].
  - right. split; [apply key_after_range|]. intros k [r' Hk]. unfold key_after.
    destruct (Z.leb_spec no_available_primary_key pk) as [|Hpk]; [by right|left].
    apply lookup_insert_Some in Hk as [[<- _]|[Hne Hk]]; [lia|].
    destruct Hn as [->|[_ Hn]]; [unfold unset_next_primary_key, no_available_primary_key in *; lia|].
    destruct (Hn k (ex_intro _ r' Hk)); lia.
  - destruct Hn as [->|[Hle Hn]]; [by left|right]. split; [done|]. intros k [r' Hk].
    apply lookup_insert_Some in Hk as [[<- _]|[_ Hk]]; [by left|]. by apply Hn; eexists.
Qed.

Lemma emplace_spec full m tb r : represents full m tb ->
  match Table.emplace primary_key tb r with
  | Ok tb' => exists m' it, emplace primary_key pack extractors true r m = Ok (m', it) /\ represents full m' tb' /\
      still m m' /\ points m' it (Some (primary_key r)) /\ next_primary_key m' = noted (next_primary_key m) (primary_key r)
  | Err _ => exists e, emplace primary_key pack extractors true r m = Err e
  end.
Proof.
  intros Hm. unfold Table.emplace, emplace. cbn [check mbind result_bind]. set (pk := primary_key r).
  pose proof (rp_rows _ _ _ Hm) as Hrows. destruct (tb !! pk) as [r0|] eqn:Er.
  { destruct (store_twice (host m) pk (pack r)) as [e ->]; [|by exists e]. by rewrite Hrows, lookup_fmap, Er. }
  destruct (store_law (host m) pk (pack r)) as (h1 & itr & -> & Hv1 & Hk1 & Ha1).
  { by rewrite Hrows, lookup_fmap, Er. }
  cbn [mbind result_bind]. set (m1 := note_key pk (m <| host := h1 |>)).
  assert (host m1 = h1 /\ items_vector m1 = items_vector m /\ heap m1 = heap m /\ next_primary_key m1 = noted (next_primary_key m) pk)
    as (Eh & Ei & Ehp & En).
  { unfold m1, note_key, noted. cbn. by destruct (_ <=? _). }
  rewrite Eh. destruct (store_secondary_spec r extractors 0 h1) as (h2 & l & -> & [Wr Wi _] & Hk2 & Hl & Hla).
  { intros n ex Ex. rewrite Hv1. cbn [set_rows keyed_by]. destruct (rp_indices _ _ _ Hm n ex Ex) as [Hsub _].
    apply (lookup_weaken_None _ (ex <$> tb)); [fold pk; by rewrite lookup_fmap, Er|done]. }
  cbn [mbind result_bind]. set (m2 := m1 <| host := h2 |>). set (i := mk_item r itr l).
  assert (represents full m2 (<[pk := r]> tb)) as Hm2.
  { split; cbn; rewrite ?Ei, ?Ehp, ?En; try apply Hm.
    - apply Table.keyed_insert; [apply Hm|done].
    - by rewrite Wr, Hv1; cbn; rewrite Hrows, fmap_insert.
    - intros x Hx. destruct (rp_items _ _ _ Hm x Hx) as [H1 H2 H3 H4].
      assert (pk <> key x.2) as Hne by (intros E; rewrite <- E in H1; congruence).
      split; [by rewrite lookup_insert_ne|by apply Hk2, Hk1|done|].
      intros n itr' E. destruct (H4 n itr' E) as [|Hat]; [by left|right; by apply Hk2, Hk1].
    - apply noted_ok, Hm.
    - intros n ex Ex. pose proof (Wi n ex Ex) as Ew. cbn [Nat.add] in Ew. rewrite Ew, Hv1. cbn [set_rows keyed_by]. rewrite fmap_insert.
      destruct (rp_indices _ _ _ Hm n ex Ex) as [Hsub Hfull]. split; [by apply insert_mono|]. intros Hf. by rewrite Hfull. }
  assert (item_ok (host m2) (<[pk := r]> tb) i) as Hi.
  { split; cbn; [by rewrite lookup_insert_eq|by apply Hk2|done|]. intros n itr' E. right. by apply (Hla n). }
  pose proof (keep_spec full m2 _ i Hm2 Hi) as Hkeep. cbn [keep_item] in *. destruct Hkeep as (H1 & H2 & H3).
  { intros a j Hj Hkj. change (items_vector m2) with (items_vector m1) in Hj. rewrite Ei in Hj.
    pose proof (io_row _ _ _ (rp_items _ _ _ Hm _ Hj)) as Hrow. cbn in Hrow. rewrite Hkj in Hrow. change (key i) with pk in Hrow. congruence. }
  eexists _, _. split; [reflexivity|]. split; [exact H1|]. split; [|split; [exact H3|exact En]].
  eapply still_trans; [|apply H2]. intros [a|] [p|]; cbn; try done. by rewrite Ei.
Qed.

Lemma update_item_elem a f m x : x ∈ items_vector (update_item a f m) <->
  exists y, y ∈ items_vector m /\ x = (if Nat.eqb y.1 a then (y.1, f y.2) else y).
Proof.
  unfold update_item. cbn. rewrite list_elem_of_fmap. split; intros ([b j] & H1 & H2); exists (b, j); cbn in *; by destruct (Nat.eqb b a).
Qed.
Lemma update_item_addresses a f m : (items_vector (update_item a f m)).*1 = (items_vector m).*1.
Proof. unfold update_item. cbn. rewrite <- list_fmap_compose. apply list_fmap_ext. intros ? [b j] _. cbn. by destruct (Nat.eqb b a). Qed.
Lemma update_item_keys a f m : (forall j, (a, j) ∈ items_vector m -> key (f j) = key j) ->
  key <$> (items_vector (update_item a f m)).*2 = key <$> (items_vector m).*2.
Proof.
  intros Hf. unfold update_item. cbn. rewrite <- !list_fmap_compose. apply list_fmap_ext. intros n [b j] Hj. cbn.
  destruct (Nat.eqb_spec b a) as [->|]; [|done]. cbn. apply Hf. by eapply list_elem_of_lookup_2.
Qed.
Lemma update_item_points a f m it o : (forall j, (a, j) ∈ items_vector m -> key (f j) = key j) ->
  points m it o -> points (update_item a f m) it o.
Proof.
  intros Hf Hp. destruct it as [b|], o as [p|]; try done. destruct Hp as (j & Hj & Hk).
  exists (if Nat.eqb b a then f j else j). split.
  - apply update_item_elem. exists (b, j). split; [done|]. cbn. by destruct (Nat.eqb b a).
  - destruct (Nat.eqb_spec b a) as [->|]; [by rewrite Hf|done].
Qed.

Lemma modify_spec full m tb it pk f : represents full m tb -> points m it (Some pk) ->
  match Table.modify primary_key tb pk f with
  | Ok tb' => exists m', modify primary_key pack extractors true it f m = Ok m' /\ represents full m' tb' /\
      still m m' /\ next_primary_key m' = noted (next_primary_key m) pk
  | Err _ => exists e, modify primary_key pack extractors true it f m = Err e
  end.
Proof.
  intros Hm Hp. destruct it as [a|]; [|done]. destruct Hp as (i & Hin & Hki).
  pose proof (rp_items _ _ _ Hm _ Hin) as Hi. cbn [snd] in Hi. pose proof (io_row _ _ _ Hi) as Hr. rewrite Hki in Hr.
  unfold Table.modify, modify. rewrite Hr. cbn [some_or mbind result_bind]. rewrite bool_decide_true by done. cbn [check mbind result_bind].
  rewrite (at_address_elem _ _ _ _ _ Hm Hin). cbn [mbind result_bind]. destruct (f (obj i)) as [r|e]; cbn [mbind result_bind]; [|by eexists].
  fold (key i). rewrite Hki. destruct (Z.eqb_spec pk (primary_key r)) as [Hpk|]; cbn [check mbind result_bind]; [|by eexists].
  destruct (update_law (host m) (primary_itr i) pk (pack r)) as (h1 & -> & Hv1 & Hk1); [rewrite <- Hki; apply Hi|].
  cbn [mbind result_bind]. set (m1 := note_key pk (m <| host := h1 |>)).
  assert (host m1 = h1 /\ items_vector m1 = items_vector m /\ heap m1 = heap m /\ next_primary_key m1 = noted (next_primary_key m) pk)
    as (Eh & Ei & Ehp & En).
  { unfold m1, note_key, noted. cbn. by destruct (_ <=? _). }
  rewrite Eh. assert (primary_key (obj i) = pk) as Hko by exact Hki.
  destruct (update_indices_spec (obj i) r extractors (iters i) 0 h1 (io_length _ _ _ Hi)) as (h2 & l & -> & [Wr Wi _] & Hk2 & Hl & Hla).
  { intros j itr E. rewrite Hko, <- Hki. destruct (io_iters _ _ _ Hi j itr E) as [|Hat]; [by left|right; by apply Hk1]. }
  cbn [mbind result_bind]. rewrite Hko in Wi, Hla. eexists. split; [reflexivity|].
  set (g := fun i => mk_item r (primary_itr i) l). set (m2 := m1 <| host := h2 |>).
  assert (host m2 = h2 /\ items_vector m2 = items_vector m /\ heap m2 = heap m /\ next_primary_key m2 = noted (next_primary_key m) pk)
    as (Eh2 & Eit & Ehp2 & En2) by done.
  clearbody m2. clear m1 Eh Ei Ehp En.
  assert (forall j, (a, j) ∈ items_vector m2 -> key (g j) = key j) as Hg.
  { intros j Hj. rewrite Eit in Hj. rewrite (address_unique _ _ _ _ _ _ Hm Hj Hin), Hki. by cbn. }
  split; [|split; [|exact En2]].
  - split; change (host (update_item a g m2)) with (host m2); change (heap (update_item a g m2)) with (heap m2);
      change (next_primary_key (update_item a g m2)) with (next_primary_key m2); rewrite ?Eh2, ?Ehp2, ?En2.
    + apply Table.keyed_insert; [apply Hm|done].
    + by rewrite Wr, Hv1; cbn; rewrite (rp_rows _ _ _ Hm), fmap_insert.
    + intros x ([b j] & Hj & ->)%update_item_elem. rewrite Eit in Hj. destruct (rp_items _ _ _ Hm _ Hj) as [H1 H2 H3 H4]. cbn in *.
      destruct (Nat.eqb_spec b a) as [->|Hne].
      * rewrite (address_unique _ _ _ _ _ _ Hm Hj Hin) in *. cbn. assert (key (g i) = pk) as Hkg by (by cbn).
        split; rewrite ?Hkg; [by rewrite lookup_insert_eq|rewrite <- Hki; by apply Hk2, Hk1|done|]. intros n itr E. by apply (Hla n).
      * cbn. assert (key j <> pk) as Hnk.
        { intros E. destruct (key_unique _ _ _ _ _ _ _ Hm Hj Hin); [by rewrite E, Hki|done]. }
        split; [by rewrite lookup_insert_ne|by apply Hk2, Hk1|done|].
        intros n itr E. destruct (H4 n itr E) as [|Hat]; [by left|right; by apply Hk2, Hk1].
    + rewrite update_item_addresses, Eit. apply Hm.
    + rewrite update_item_keys, Eit by exact Hg. apply Hm.
    + rewrite Hpk. apply noted_ok, Hm.
    + intros n ex Ex. pose proof (Wi n ex Ex) as Ew. cbn [Nat.add] in Ew. rewrite Ew, Hv1. cbn [set_rows keyed_by]. rewrite fmap_insert.
      destruct (rp_indices _ _ _ Hm n ex Ex) as [Hsub Hfull]. destruct (Z.eqb_spec (ex (obj i)) (ex r)) as [He|He].
      * rewrite insert_id by (by rewrite lookup_fmap, Hr; cbn; rewrite He). done.
      * split; [by apply insert_mono|]. intros Hf. by rewrite Hfull.
  - intros it o Hp. apply update_item_points; [exact Hg|]. destruct it as [b|], o as [p|]; cbn in *; try done. by rewrite Eit.
Qed.

Lemma drop_item_spec m full tb a i : represents full m tb -> (a, i) ∈ items_vector m ->
  exists l1 l2, items_vector m = l1 ++ (a, i) :: l2 /\ drop_item primary_key (key i) (items_vector m) = Some (l1 ++ l2).
Proof.
  intros Hm Hin. unfold drop_item. set (l := items_vector m) in *.
  destruct (list_find _ _) as [[n x]|] eqn:E.
  - apply list_find_Some in E as (Hn & Hk & _). assert (x = (a, i)) as ->.
    { assert (x ∈ l) as Hx by (apply elem_of_reverse; by eapply list_elem_of_lookup_2).
      destruct x as [b j]. by destruct (key_unique _ _ _ _ _ _ _ Hm Hx Hin Hk) as [-> ->]. }
    pose proof (lookup_lt_Some _ _ _ Hn) as Hlt. rewrite length_reverse in Hlt. rewrite reverse_lookup in Hn by done.
    replace (length l - S n)%nat with (length l - 1 - n)%nat in Hn by lia.
    exists (take (length l - 1 - n) l), (drop (S (length l - 1 - n)) l). split; [by rewrite take_drop_middle|].
    cbn. by rewrite delete_take_drop.
  - apply list_find_None in E. rewrite Forall_forall in E. exfalso. apply (E (a, i)); [by apply elem_of_reverse|done].
Qed.

Lemma erase_obj_spec full m tb a pk : represents full m tb -> points m (Some a) (Some pk) ->
  exists m', erase_obj primary_key true a m = Ok m' /\ represents full m' (delete pk tb) /\
    (forall it o, points m it o -> o <> Some pk -> points m' it o) /\ next_primary_key m' = next_primary_key m.
Proof.
  intros Hm (i & Hin & Hki). pose proof (rp_items _ _ _ Hm _ Hin) as Hi. cbn [snd] in Hi.
  unfold erase_obj. rewrite (at_address_elem _ _ _ _ _ Hm Hin). cbn [check mbind result_bind]. fold (key i).
  destruct (drop_item_spec m full tb a i Hm Hin) as (l1 & l2 & El & ->). cbn [some_or mbind result_bind].
  destruct (remove_law (host m) (primary_itr i) (key i) (io_primary _ _ _ Hi)) as (h1 & -> & Hv1 & Hk1). cbn [mbind result_bind].
  destruct (remove_secondary_spec (key i) (iters i) 0 h1 extractors (io_length _ _ _ Hi)) as (h2 & -> & [Wr Wi _] & Hk2).
  { intros j itr E. destruct (io_iters _ _ _ Hi j itr E) as [|Hat]; [by left|right; by apply Hk1]. }
  cbn [mbind result_bind]. rewrite Hki in *. eexists. split; [reflexivity|].
  assert (forall x, x ∈ l1 ++ l2 -> x ∈ items_vector m /\ key x.2 <> pk) as Hsub.
  { intros x Hx. assert (x ∈ items_vector m) as Hxi.
    { rewrite El. apply elem_of_app in Hx as [Hx|Hx]; apply elem_of_app; [by left|right; by right]. }
    split; [done|]. intros Hkx. destruct x as [b j].
    destruct (key_unique _ _ _ _ _ _ _ Hm Hxi Hin) as [-> ->]; [by rewrite Hki|].
    pose proof (proj1 (rp_addresses _ _ _ Hm)) as Hn. rewrite El, fmap_app in Hn. cbn in Hn.
    apply NoDup_app in Hn as (_ & Hd & Hn). apply NoDup_cons in Hn as [Hn _].
    apply elem_of_app in Hx as [Hx|Hx].
    - apply (Hd a); [by apply (list_elem_of_fmap_2 fst _ (a, i))|by left].
    - apply Hn. by apply (list_elem_of_fmap_2 fst _ (a, i)). }
  assert (l1 ++ l2 `sublist_of` items_vector m) as Hsl by (rewrite El; apply sublist_app; [done|by apply sublist_cons]).
  split; [|split; [|done]].
  - split; cbn; try apply Hm.
    + apply Table.keyed_delete, Hm.
    + by rewrite Wr, Hv1; cbn; rewrite (rp_rows _ _ _ Hm), fmap_delete.
    + intros x Hx. destruct (Hsub x Hx) as [Hxi Hne]. destruct (rp_items _ _ _ Hm x Hxi) as [H1 H2 H3 H4].
      split; [by rewrite lookup_delete_ne|apply Hk2; [apply Hk1; [done|congruence]|done]|done|].
      intros n itr E. destruct (H4 n itr E) as [|Hat]; [by left|right]. apply Hk2; [apply Hk1; [done|congruence]|done].
    + split; [eapply sublist_NoDup; [apply (rp_addresses _ _ _ Hm)|by apply Table.fmap_sublist]|].
      apply Forall_forall. intros b Hb. pose proof (proj2 (rp_addresses _ _ _ Hm)) as Hf. rewrite Forall_forall in Hf. apply Hf.
      apply list_elem_of_fmap in Hb as (x & -> & Hx). apply list_elem_of_fmap_2. by apply Hsub.
    + eapply sublist_NoDup; [apply (rp_once _ _ _ Hm)|]. by apply Table.fmap_sublist, Table.fmap_sublist.
    + destruct (rp_next _ _ _ Hm) as [|[Hle Hn]]; [by left|right]. split; [done|]. intros k [r [_ Hr]%lookup_delete_Some]. apply Hn. by eexists.
    + intros n ex Ex. pose proof (Wi n ex Ex) as Ew. cbn [Nat.add] in Ew. rewrite Ew, Hv1. cbn [set_rows keyed_by]. rewrite fmap_delete.
      destruct (rp_indices _ _ _ Hm n ex Ex) as [Hs Hfull]. split; [by apply delete_mono|]. intros Hf. by rewrite Hfull.
  - intros it o Hp Hne. destruct it as [b|], o as [p|]; cbn in *; try done. destruct Hp as (j & Hj & Hkj). exists j. split; [|done].
    rewrite El in Hj. apply elem_of_app in Hj as [Hj|[Hj|Hj]%elem_of_cons]; apply elem_of_app; [by left| |by right].
    injection Hj as -> ->. congruence.
Qed.

Lemma erase_spec full m tb it pk : represents full m tb -> points m it (Some pk) ->
  exists m' next, erase primary_key unpack extractors true it m = Ok (m', next) /\ represents full m' (delete pk tb) /\
    points m' next (head (Table.upper_bound_keys tb pk)) /\
    (forall it o, points m it o -> o <> Some pk -> points m' it o) /\ next_primary_key m' = next_primary_key m.
Proof.
  intros Hm Hp. destruct it as [a|]; [|done]. destruct (increment_spec _ _ _ _ _ Hm Hp) as (m1 & next & E & Hm1 & He & Hn).
  unfold erase. rewrite bool_decide_true by done. cbn [check some_or mbind result_bind]. rewrite E. cbn [mbind result_bind].
  destruct (erase_obj_spec full m1 tb a pk Hm1 (proj1 He _ _ Hp)) as (m' & -> & Hm' & Hpts & Hx). cbn [mbind result_bind].
  exists m', next. split_and!; [done|done| | |rewrite Hx; apply He].
  - apply Hpts; [done|]. destruct (head _) as [k|] eqn:Eh; [|done]. intros [= ->].
    assert (pk ∈ Table.upper_bound_keys tb pk) as Hin by (by apply head_Some_elem_of). apply Table.elem_of_upper_bound_keys in Hin. lia.
  - intros it o Ho Hne. by apply Hpts; [apply (proj1 He)|].
Qed.

(** ** Secondary indices *)

Section index.
Context (full : nat -> Prop) (n : nat) (ex : R -> Z) (Hn : extractors !! n = Some ex) (Hfull : full n).

Lemma index_entries m tb : represents full m tb -> entries (view (host m)) (secondary n) = Table.index ex tb.
Proof.
  intros Hm. cbn. destruct (rp_indices _ _ _ Hm n ex Hn) as [_ Hf]. rewrite (Hf Hfull). unfold Table.index. f_equal.
  rewrite map_to_list_fmap, <- list_fmap_compose. by apply list_fmap_ext; intros ? [].
Qed.
Lemma index_key_of m tb pk r : represents full m tb -> tb !! pk = Some r -> key_of (view (host m)) (secondary n) pk = Some (ex r).
Proof. intros Hm Hr. cbn. destruct (rp_indices _ _ _ Hm n ex Hn) as [_ Hf]. by rewrite (Hf Hfull), lookup_fmap, Hr. Qed.

Lemma set_iter_spec m tb a pk itr : represents full m tb -> points m (Some a) (Some pk) ->
  at_ (host m) (secondary n) itr = Some pk ->
  represents full (set_iter a n itr m) tb /\ extends m (set_iter a n itr m).
Proof.
  intros Hm Hp Hat. unfold set_iter. set (g := fun i : item => i <| iters ::= <[n := itr]> |>).
  assert (forall j, (a, j) ∈ items_vector m -> key (g j) = key j) as Hg by done. split.
  - split; change (host (update_item a g m)) with (host m); change (heap (update_item a g m)) with (heap m);
      change (next_primary_key (update_item a g m)) with (next_primary_key m); try apply Hm.
    + intros x ([b j] & Hj & ->)%update_item_elem. destruct (rp_items _ _ _ Hm _ Hj) as [H1 H2 H3 H4]. cbn in *.
      destruct (Nat.eqb_spec b a) as [->|Hne]; [|done]. destruct Hp as (i & Hi & Hk).
      rewrite (address_unique _ _ _ _ _ _ Hm Hj Hi) in *. split; cbn; [done|done|by rewrite length_insert|].
      intros k itr' E. apply list_lookup_insert_Some in E as [(<- & <- & _)|[_ E]]; [|by apply H4]. right. change (key (g i)) with (key i). by rewrite Hk.
    + rewrite update_item_addresses. apply Hm.
    + rewrite update_item_keys by exact Hg. apply Hm.
  - split; [|done]. intros it o Ho. by apply update_item_points.
Qed.

Lemma row_of_spec m tb itr pk : represents full m tb -> at_ (host m) (secondary n) itr = Some pk ->
  reads full tb m (row_of primary_key unpack extractors n itr pk m) (Some pk).
Proof.
  intros Hm Hat. unfold row_of. destruct (at_entry _ _ _ _ Hat) as [_ [k Hk]]. cbn in Hk.
  destruct (rp_indices _ _ _ Hm n ex Hn) as [_ Hf]. rewrite (Hf Hfull), lookup_fmap in Hk.
  destruct (tb !! pk) as [r|] eqn:Er; [|done].
  destruct (find_keeps full m tb pk Hm) as (m1 & it & E & Hm1 & He & Hp & Hkp). rewrite decide_True in Hp by eauto.
  rewrite E. cbn [mbind result_bind]. destruct it as [a|]; [|done]. cbn [some_or mbind result_bind].
  destruct (set_iter_spec m1 tb a pk itr Hm1 Hp (Hkp _ _ _ Hat)) as [Hm2 He2].
  exists (set_iter a n itr m1), (Some a). split; [done|]. split; [done|]. split; [by eapply extends_trans|by apply (proj1 He2)].
Qed.

Lemma index_go_spec m tb move e h' itr pk : represents full m tb ->
  move (host m) = Ok (h', (itr, pk)) -> same (host m) h' -> lands (secondary n) e h' itr pk ->
  reads full tb m (index_go primary_key unpack extractors n move m) (snd <$> e).
Proof.
  intros Hm Em Hs Hl. unfold index_go. rewrite Em. cbn [mbind result_bind].
  pose proof (represents_same _ _ _ _ Hm Hs) as Hm'. eapply reads_after; [apply extends_same|].
  destruct e as [e|]; cbn in Hl.
  - destruct Hl as [Hat ->]. destruct (at_entry _ _ _ _ Hat) as [Hz _].
    rewrite (proj2 (Z.ltb_ge _ _)) by lia. by apply row_of_spec.
  - rewrite (proj2 (Z.ltb_lt _ _)) by lia. exists (m <| host := h' |>), None. split; [done|]; split; [done|]; split; [apply extends_refl|done].
Qed.
Lemma index_lower_bound_spec m tb k : represents full m tb ->
  reads full tb m (index_lower_bound primary_key unpack extractors n k m) (snd <$> Table.index_lower_bound ex tb k).
Proof.
  intros Hm. destruct (lowerbound_law (host m) (secondary n) k) as (h' & itr & pk & E & Hs & Hl).
  rewrite (index_entries _ _ Hm) in Hl. by eapply index_go_spec.
Qed.
Lemma index_upper_bound_spec m tb k : represents full m tb ->
  reads full tb m (index_upper_bound primary_key unpack extractors n k m)
    (snd <$> head (filter (fun e => k < e.1) (Table.index ex tb))).
Proof.
  intros Hm. destruct (upperbound_law (host m) (secondary n) k) as (h' & itr & pk & E & Hs & Hl).
  rewrite (index_entries _ _ Hm) in Hl. by eapply index_go_spec.
Qed.

Lemma known_iter_spec m tb a pk : represents full m tb -> points m (Some a) (Some pk) ->
  exists m' itr, known_iter primary_key n a m = Ok (m', itr) /\ represents full m' tb /\ extends m m' /\
    at_ (host m') (secondary n) itr = Some pk.
Proof.
  intros Hm Hp. destruct (points_item _ _ _ _ _ Hm Hp) as (i & Ea & Hk & Hi). unfold known_iter. rewrite Ea. cbn [mbind result_bind].
  assert (is_Some (iters i !! n)) as [itr Ei].
  { apply lookup_lt_is_Some. rewrite (io_length _ _ _ Hi). by apply lookup_lt_Some in Hn. }
  unfold iter_of. rewrite Ei. change (default (-1) (Some itr)) with itr. pose proof (io_row _ _ _ Hi) as Hr. rewrite Hk in Hr.
  destruct (Z.eqb_spec itr (-1)) as [->|Hne].
  - change (primary_key (obj i)) with (key i). rewrite Hk.
    destruct (find_law (host m) (secondary n) pk) as (h' & itr' & -> & Hs & Hf). cbn [mbind result_bind].
    rewrite (index_key_of _ _ _ _ Hm Hr) in Hf. pose proof (represents_same _ _ _ _ Hm Hs) as Hm1.
    destruct (set_iter_spec (m <| host := h' |>) tb a pk itr' Hm1 Hp Hf) as [Hm2 He2].
    eexists _, itr'. split; [reflexivity|]. split; [exact Hm2|]. split; [|exact Hf]. eapply extends_trans; [apply extends_same|exact He2].
  - destruct (io_iters _ _ _ Hi n itr Ei) as [|Hat]; [done|]. exists m, itr. rewrite Hk in Hat. split; [done|]; split; [done|]; split; [apply extends_refl|done].
Qed.
Lemma index_increment_spec m tb it pk r : represents full m tb -> points m it (Some pk) -> tb !! pk = Some r ->
  reads full tb m (index_increment primary_key unpack extractors n it m) (snd <$> Table.index_next ex tb (ex r, pk)).
Proof.
  intros Hm Hp Hr. destruct it as [a|]; [|done]. unfold index_increment. rewrite bool_decide_true by done.
  cbn [check some_or mbind result_bind]. destruct (known_iter_spec m tb a pk Hm Hp) as (m1 & itr & -> & Hm1 & He & Hat).
  cbn [mbind result_bind]. eapply reads_after; [exact He|].
  destruct (next_law (host m1) (secondary n) itr (ex r) pk Hat (index_key_of _ _ _ _ Hm1 Hr)) as (h' & itr' & pk' & E & Hs & Hl).
  rewrite (index_entries _ _ Hm1) in Hl. unfold Table.index_next.
  rewrite (list_filter_iff (after (ex r) pk) (fun sk => Table.idx_le (ex r, pk) sk /\ sk <> (ex r, pk))) in Hl by done. by eapply index_go_spec.
Qed.

Lemma index_next_other tb pk k : snd <$> Table.index_next ex tb (k, pk) <> Some pk \/ tb !! pk = None \/ (ex <$> tb !! pk) <> Some k.
Proof.
  unfold Table.index_next. destruct (head _) as [[x p]|] eqn:Eh; [|by left]. cbn.
  apply Table.head_filter_Some in Eh as [Hin [_ Hne]]. apply Table.elem_of_index in Hin as (r & Hr & Hx).
  destruct (decide (p = pk)) as [->|]; [|left; congruence]. right; right. rewrite Hr. cbn. congruence.
Qed.
Lemma index_erase_spec m tb it pk r : represents full m tb -> points m it (Some pk) -> tb !! pk = Some r ->
  exists m' next, index_erase primary_key unpack extractors true n it m = Ok (m', next) /\ represents full m' (delete pk tb) /\
    points m' next (snd <$> Table.index_next ex tb (ex r, pk)) /\
    (forall it o, points m it o -> o <> Some pk -> points m' it o) /\ next_primary_key m' = next_primary_key m.
Proof.
  intros Hm Hp Hr. destruct it as [a|]; [|done]. destruct (index_increment_spec _ _ _ _ _ Hm Hp Hr) as (m1 & next & E & Hm1 & He & Hnx).
  unfold index_erase. rewrite bool_decide_true by done. cbn [check some_or mbind result_bind]. rewrite E. cbn [mbind result_bind].
  destruct (erase_obj_spec full m1 tb a pk Hm1 (proj1 He _ _ Hp)) as (m' & -> & Hm' & Hpts & Hx). cbn [mbind result_bind].
  exists m', next. split_and!; [done|done| | |rewrite Hx; apply He].
  - apply Hpts; [done|]. destruct (index_next_other tb pk (ex r)) as [|[|Hc]]; [done|congruence|]. by rewrite Hr in Hc.
  - intros it o Ho Hne. by apply Hpts; [apply (proj1 He)|].
Qed.

(** The entry before; before the end, the last. *)
Definition entry_before tb (o : option (Z * Z)) : option (Z * Z) :=
  match o with Some e => last (filter (before e.1 e.2) (Table.index ex tb)) | None => last (Table.index ex tb) end.
Definition entry_of tb (o : option Z) : option (Z * Z) :=
  pk ← o; r ← tb !! pk; Some (ex r, pk).
Lemma index_decrement_spec m tb it o : represents full m tb -> points m it o ->
  match entry_before tb (entry_of tb o) with
  | Some e => reads full tb m (index_decrement primary_key unpack extractors n it m) (Some e.2)
  | None => exists msg, index_decrement primary_key unpack extractors n it m = Err (Check msg)
  end.
Proof.
  intros Hm Hp. unfold index_decrement. destruct it as [a|], o as [pk|]; try done.
  - destruct (points_item _ _ _ _ _ Hm Hp) as (i & _ & Hk & Hi). pose proof (io_row _ _ _ Hi) as Hr. rewrite Hk in Hr.
    cbn [entry_of mbind option_bind]. rewrite Hr. cbn [entry_before mbind option_bind fst snd].
    destruct (known_iter_spec m tb a pk Hm Hp) as (m1 & itr & -> & Hm1 & He & Hat). cbn [mbind result_bind].
    destruct (previous_law (host m1) (secondary n) itr (ex (obj i)) pk Hat (index_key_of _ _ _ _ Hm1 Hr)) as (h' & itr' & pk' & -> & Hs & Hl).
    cbn [mbind result_bind]. rewrite (index_entries _ _ Hm1) in Hl. pose proof (represents_same _ _ _ _ Hm1 Hs) as Hm2.
    destruct (last _) as [e|]; cbn in Hl.
    + destruct Hl as [Hat' ->]. destruct (at_entry _ _ _ _ Hat') as [Hz _]. rewrite check_true by lia.
      eapply reads_after; [|by apply row_of_spec]. eapply extends_trans; [exact He|apply extends_same].
    + rewrite check_false by lia. by eexists.
  - destruct (end_law (host m) (secondary n)) as (h' & ei & -> & Hs & Hempty & Hlast). cbn [mbind result_bind entry_of option_bind entry_before].
    pose proof (represents_same _ _ _ _ Hm Hs) as Hm1. rewrite (index_entries _ _ Hm) in Hempty, Hlast.
    destruct (decide (ei = -1)) as [->|Hne]; [rewrite (proj1 Hempty eq_refl); by eexists|].
    rewrite check_true by lia. destruct (Hlast Hne) as (h'' & itr & pk & E & Hs2 & Hl).
    change (host (m <| host := h' |>)) with h'. rewrite E. cbn [mbind result_bind].
    pose proof (represents_same _ _ _ h'' Hm1 Hs2) as Hm2. destruct (last _) as [e|] eqn:El; cbn in Hl.
    + destruct Hl as [Hat ->]. destruct (at_entry _ _ _ _ Hat) as [Hz _]. rewrite check_true by lia.
      eapply reads_after; [|by apply row_of_spec]. split; [by intros [x|] [y|] Hxy|done].
    + exfalso. apply Hne, Hempty. by apply last_None in El.
Qed.
End index.

Lemma index_find_head (l : list (Z * Z)) k : StronglySorted Table.idx_le l ->
  snd <$> head (filter (fun e => e.1 = k) l)
  = match head (filter (fun e => k <= e.1) l) with Some e => if k =? e.1 then Some e.2 else None | None => None end.
Proof.
  induction 1 as [|[x y] l Hs IH Hx]; [done|]. rewrite !filter_cons. cbn [fst].
  destruct (decide (x = k)) as [->|Hne]; [rewrite decide_True by lia; cbn; by rewrite Z.eqb_refl|].
  destruct (decide (k <= x)) as [Hle|Hgt]; [|exact IH]. cbn. rewrite (proj2 (Z.eqb_neq _ _)) by lia.
  assert (filter (fun e : Z * Z => e.1 = k) l = []) as ->; [|done]. apply elem_of_nil_inv. intros e [Hk He]%list_elem_of_filter.
  rewrite Forall_forall in Hx. pose proof (Hx e He) as H1. unfold Table.idx_le in H1. cbn in H1. lia.
Qed.
Lemma index_find_spec full n ex m tb k : extractors !! n = Some ex -> full n -> represents full m tb ->
  reads full tb m (index_find primary_key unpack extractors n k m) (Table.index_find ex tb k).
Proof.
  intros Hn Hfull Hm. destruct (index_lower_bound_spec full n ex Hn Hfull m tb k Hm) as (m1 & it & E & Hm1 & He & Hp).
  unfold index_find. rewrite E. cbn [mbind result_bind]. unfold Table.index_find.
  rewrite (index_find_head _ _ (Table.index_sorted ex tb)). unfold Table.index_lower_bound in Hp.
  destruct (head _) as [[x pk]|] eqn:Eh; cbn in Hp |- *; destruct it as [a|]; try done.
  - destruct (points_item _ _ _ _ _ Hm1 Hp) as (i & Ea & Hk & Hi). unfold deref. cbn [some_or mbind result_bind]. rewrite Ea. cbn [mbind result_bind].
    unfold extract. rewrite Hn. apply Table.head_filter_Some in Eh as [Hin _]. apply Table.elem_of_index in Hin as (r & Hr & Hx).
    pose proof (io_row _ _ _ Hi) as Hr'. rewrite Hk, Hr in Hr'. injection Hr' as <-. rewrite Hx.
    eexists _, _. split; [reflexivity|]. split; [done|]. split; [done|]. destruct (k =? x); [exact Hp|done].
  - exists m1, None. by split_and!.
Qed.
Lemma index_require_find_spec full n ex m tb k msg : extractors !! n = Some ex -> full n -> represents full m tb ->
  match Table.index_find ex tb k with
  | Some pk => reads full tb m (index_require_find primary_key unpack extractors n k msg m) (Some pk)
  | None => exists e, index_require_find primary_key unpack extractors n k msg m = Err e
  end.
Proof.
  intros Hn Hfull Hm. destruct (index_lower_bound_spec full n ex Hn Hfull m tb k Hm) as (m1 & it & E & Hm1 & He & Hp).
  unfold index_require_find. rewrite E. cbn [mbind result_bind]. unfold Table.index_find.
  rewrite (index_find_head _ _ (Table.index_sorted ex tb)). unfold Table.index_lower_bound in Hp.
  destruct (head _) as [[x pk]|] eqn:Eh; cbn in Hp |- *; destruct it as [a|]; try done; [|by eexists].
  destruct (points_item _ _ _ _ _ Hm1 Hp) as (i & Ea & Hk & Hi). rewrite bool_decide_true by done. cbn [check mbind result_bind].
  unfold deref. cbn [some_or mbind result_bind]. rewrite Ea. cbn [mbind result_bind].
  unfold extract. rewrite Hn. apply Table.head_filter_Some in Eh as [Hin _]. apply Table.elem_of_index in Hin as (r & Hr & Hx).
  pose proof (io_row _ _ _ Hi) as Hr'. rewrite Hk, Hr in Hr'. injection Hr' as <-. rewrite Hx.
  destruct (k =? x); cbn; [|by eexists]. by exists m1, (Some a).
Qed.
End run.

End CachedTableRun.
