(* ===== verification/TableUse.v ===== *)
(** Any use of a table object, and first a database to use it with: one in
    memory that keeps the laws of [HostDb], so that they can be kept.  There an
    iterator is the number of its row.  It is an example and models no code. *)
From S2P Require Import Prelude MultiIndex CachedTable CachedTableRun.
From stdpp Require Import sorting.
Import HostDb.
Open Scope string_scope.
Open Scope list_scope.
Open Scope Z_scope.

Module MemoryDb.

(** Primary keys as numbers that are not negative. *)
Definition enc (pk : Z) : Z := if 0 <=? pk then 2 * pk else -2 * pk - 1.
Definition dec (itr : Z) : Z := if Z.even itr then itr / 2 else - (itr / 2) - 1.

Lemma enc_nonneg pk : 0 <= enc pk.
Proof. unfold enc. destruct (Z.leb_spec 0 pk); lia. Qed.
Lemma enc_dec itr : 0 <= itr -> enc (dec itr) = itr.
Proof.
  intros Hi. unfold enc, dec. pose proof (Z.div_mod itr 2). pose proof (Zmod_even itr) as He.
  destruct (Z.even itr); destruct (Z.leb_spec 0 (itr / 2)), (Z.leb_spec 0 (- (itr / 2) - 1)); lia.
Qed.
Lemma dec_enc pk : dec (enc pk) = pk.
Proof.
  unfold enc, dec. destruct (Z.leb_spec 0 pk).
  - rewrite Z.even_mul. cbn [Z.even orb]. rewrite Z.mul_comm, Z.div_mul; lia.
  - replace (-2 * pk - 1) with (1 + 2 * (- pk - 1)) by lia. rewrite Z.even_add_mul_2. cbn [Z.even].
    rewrite (Z.mul_comm 2), Z.div_add by lia. change (1 / 2) with 0. lia.
Qed.

#[global] Instance memory_view : HostView contents := {
  view h := h;
  at_ h w itr := if decide (0 <= itr /\ is_Some (key_of h w (dec itr))) then Some (dec itr) else None
}.
Definition at_row (h : contents) (w : which) (itr : Z) : result Z := some_or (Trap "no such iterator") (at_ h w itr).
Definition land (h : contents) (e : option (Z * Z)) : result (contents * (Z * Z)) :=
  Ok (h, match e with Some e => (enc e.2, e.2) | None => (-1, 0) end).

#[global] Instance memory_db : HostDb contents := {
  db_store pk bs h :=
    match stored h !! pk with Some _ => Err (Trap "duplicate key") | None => Ok (set_rows <[pk := bs]> h, enc pk) end;
  db_update itr bs h := pk ← at_row h primary itr; Ok (set_rows <[pk := bs]> h);
  db_remove itr h := pk ← at_row h primary itr; Ok (set_rows (delete pk) h);
  db_get itr h := pk ← at_row h primary itr; some_or (Trap "no such row") (stored h !! pk);
  db_idx_store n pk k h := Ok (set_index n <[pk := k]> h, enc pk);
  db_idx_update n itr k h := pk ← at_row h (secondary n) itr; Ok (set_index n <[pk := k]> h);
  db_idx_remove n itr h := pk ← at_row h (secondary n) itr; Ok (set_index n (delete pk) h);
  db_next w itr h :=
    pk ← at_row h w itr; k ← some_or (Trap "no such row") (key_of h w pk);
    land h (head (filter (after k pk) (entries h w)));
  db_previous w itr h :=
    if itr =? -2 then land h (last (entries h w))
    else
      pk ← at_row h w itr; k ← some_or (Trap "no such row") (key_of h w pk);
      land h (last (filter (before k pk) (entries h w)));
  db_lowerbound w k h := land h (head (filter (fun e => k <= e.1) (entries h w)));
  db_upperbound w k h := land h (head (filter (fun e => k < e.1) (entries h w)));
  db_find w pk h := Ok (h, match key_of h w pk with Some _ => enc pk | None => -1 end);
  db_end w h := Ok (h, match entries h w with [] => -1 | _ => -2 end)
}.

Lemma at_enc h w pk : is_Some (key_of h w pk) -> at_ h w (enc pk) = Some pk.
Proof. intros Hk. cbn. rewrite dec_enc. rewrite decide_True; [done|]. split; [apply enc_nonneg|done]. Qed.
Lemma at_Some h w itr pk : at_ h w itr = Some pk -> 0 <= itr /\ itr = enc pk /\ is_Some (key_of h w pk).
Proof. cbn. intros Ha. case_decide as Hd; [destruct Hd as [Hz Hk]|done]. injection Ha as <-. by rewrite enc_dec. Qed.
Lemma entry_key h w e : e ∈ entries h w -> is_Some (key_of h w e.2).
Proof.
  destruct w as [|n]; cbn.
  - intros (k & -> & Hk)%list_elem_of_fmap. apply Table.elem_of_keys in Hk. cbn. rewrite decide_True by done. by eexists.
  - destruct e as [k pk]. intros (r & Hr & _)%Table.elem_of_index. by eexists.
Qed.
Lemma same_contents (h : contents) : same h h.
Proof. split; [done|]. by intros w i p. Qed.
Lemma land_lands h w e : (forall x, e = Some x -> x ∈ entries h w) ->
  exists h' itr pk, land h e = Ok (h', (itr, pk)) /\ same h h' /\ lands w e h' itr pk.
Proof.
  intros He. destruct e as [e|]; cbn.
  - exists h, (enc e.2), e.2. split; [done|]. split; [apply same_contents|]. split; [|done]. apply at_enc, entry_key. by apply He.
  - exists h, (-1), 0. split; [done|]. split; [apply same_contents|]. lia.
Qed.
Lemma head_filter_elem (P : Z * Z -> Prop) `{!forall e, Decision (P e)} (l : list (Z * Z)) x : head (filter P l) = Some x -> x ∈ l.
Proof. intros Hx. apply Table.head_filter_Some in Hx. apply Hx. Qed.
Lemma last_elem (l : list (Z * Z)) x : last l = Some x -> x ∈ l.
Proof. intros [l' ->]%last_Some. apply elem_of_app. right. by apply list_elem_of_singleton. Qed.
Lemma last_filter_elem (P : Z * Z -> Prop) `{!forall e, Decision (P e)} (l : list (Z * Z)) x : last (filter P l) = Some x -> x ∈ l.
Proof. intros Hx%last_elem. by apply list_elem_of_filter in Hx as [_ Hx]. Qed.
(** A change of the contents after which a key is known where it was. *)
Lemma at_mono h h' w itr pk : (is_Some (key_of h w pk) -> is_Some (key_of h' w pk)) -> at_ h w itr = Some pk -> at_ h' w itr = Some pk.
Proof. intros Hk Ha. apply at_Some in Ha as (_ & -> & Hs). by apply at_enc, Hk. Qed.
Lemma key_insert_rows h pk bs w p : is_Some (key_of h w p) -> is_Some (key_of (set_rows <[pk := bs]> h) w p).
Proof.
  destruct w as [|n]; cbn; [|done]. intros Hk. assert (is_Some (stored h !! p)) as Hs by (destruct (stored h !! p); [by eexists|]; rewrite decide_False in Hk by (by intros []); by destruct Hk).
  rewrite decide_True; [by eexists|]. by apply lookup_insert_is_Some'; right.
Qed.
Lemma key_insert_index h n pk k w p : is_Some (key_of h w p) -> is_Some (key_of (set_index n <[pk := k]> h) w p).
Proof.
  destruct w as [|m]; cbn; [done|]. intros Hk. destruct (Nat.eqb_spec m n) as [->|]; [|done].
  by apply lookup_insert_is_Some'; right.
Qed.

#[global] Instance memory_laws : HostLaws contents.
Proof.
  split.
  - intros h w itr pk Ha. apply at_Some in Ha as (? & _ & ?). done.
  - intros h w a b pk Ha Hb. apply at_Some in Ha as (_ & -> & _). by apply at_Some in Hb as (_ & -> & _).
  - intros h w k. apply land_lands. intros x Hx. by apply head_filter_elem in Hx.
  - intros h w k. apply land_lands. intros x Hx. by apply head_filter_elem in Hx.
  - intros h w itr k pk Ha Hk. cbn [db_next memory_db]. unfold at_row. rewrite Ha. cbn [some_or mbind result_bind].
    cbn [view memory_view] in Hk. rewrite Hk. apply land_lands. intros x Hx. by apply head_filter_elem in Hx.
  - intros h w itr k pk Ha Hk. destruct (at_Some _ _ _ _ Ha) as (Hz & _ & _). cbn [db_previous memory_db].
    rewrite (proj2 (Z.eqb_neq _ _)) by lia. unfold at_row. rewrite Ha. cbn [some_or mbind result_bind].
    cbn [view memory_view] in Hk. rewrite Hk. apply land_lands. intros x Hx. by apply last_filter_elem in Hx.
  - intros h w. eexists h, _. split; [reflexivity|]. split; [apply same_contents|]. cbn [view memory_view]. split; [by destruct (entries h w)|].
    intros Hne. destruct (entries h w) as [|e l] eqn:E; [done|]. rewrite <- E. cbn [db_previous memory_db].
    change (-2 =? -2) with true. cbv iota. apply land_lands. intros x Hx. by apply last_elem in Hx.
  - intros h w pk. eexists h, _. split; [reflexivity|]. split; [apply same_contents|]. cbn [view memory_view].
    destruct (key_of h w pk) eqn:E; [|lia]. by apply at_enc; eexists.
  - intros h itr pk bs Ha Hb. cbn [db_get memory_db]. unfold at_row. rewrite Ha. cbn in Hb |- *. by rewrite Hb.
  - intros h pk bs Hn. cbn [db_store memory_db]. cbn [view memory_view] in Hn. rewrite Hn. eexists _, _. split; [reflexivity|]. split; [done|]. split.
    + intros w i p. apply at_mono, key_insert_rows.
    + apply at_enc. cbn. rewrite decide_True; [by eexists|]. by apply lookup_insert_is_Some'; left.
  - intros h pk bs [x Hx]. cbn [db_store memory_db]. cbn in Hx. rewrite Hx. by eexists.
  - intros h itr pk bs Ha. cbn [db_update memory_db]. unfold at_row. rewrite Ha. eexists. split; [reflexivity|]. split; [done|].
    intros w i p. apply at_mono, key_insert_rows.
  - intros h itr pk Ha. cbn [db_remove memory_db]. unfold at_row. rewrite Ha. eexists. split; [reflexivity|]. split; [done|].
    intros w i p Hp Hne. revert Hp. apply at_mono. destruct w as [|n]; cbn; [|done]. rewrite lookup_delete_ne by congruence. done.
  - intros h n pk k Hn. eexists _, _. split; [reflexivity|]. split; [done|]. split.
    + intros w i p. apply at_mono, key_insert_index.
    + apply at_enc. cbn. rewrite Nat.eqb_refl. by apply lookup_insert_is_Some'; left.
  - intros h n itr pk k Ha. cbn [db_idx_update memory_db]. unfold at_row. rewrite Ha. eexists. split; [reflexivity|]. split; [done|].
    intros w i p. apply at_mono, key_insert_index.
  - intros h n itr pk Ha. cbn [db_idx_remove memory_db]. unfold at_row. rewrite Ha. eexists. split; [reflexivity|]. split; [done|].
    intros w i p Hp Hne. revert Hp. apply at_mono. destruct w as [|m]; cbn; [done|]. destruct (Nat.eqb_spec m n) as [->|]; [|done].
    rewrite lookup_delete_ne by congruence. done.
Qed.
End MemoryDb.

(** Any use of a table object
    ([libraries/eosiolib/contracts/include/eosio/multi_index.hpp]): a sequence
    of calls, each of which may use the iterators that earlier ones returned,
    answers what the finite map of MultiIndex.v answers, and leaves in the
    database the rows of the map. *)
Import HostDb CachedTable CachedTableRun.
Open Scope string_scope.
Open Scope list_scope.
Open Scope Z_scope.

Module TableUse.

Section use.
Context {H : Type} `{HostDb H}.
Context {R : Type} (primary_key : R -> Z) (pack : R -> list Z) (unpack : list Z -> result R) (extractors : list (R -> Z)).
Context (own : bool).

(** Calls; [j] is the number of an iterator returned before, [n] of an index. *)
Inductive op : Type :=
  | o_find (pk : Z) | o_require_find (pk : Z) (error_msg : string) | o_get (pk : Z) (error_msg : string)
  | o_begin | o_lower_bound (pk : Z) | o_upper_bound (pk : Z) | o_end
  | o_increment (j : nat) | o_decrement (j : nat) | o_read (j : nat)
  | o_available_primary_key
  | o_emplace (r : R) | o_modify (j : nat) (updater : R -> result R) | o_erase (j : nat)
  | o_index_find (n : nat) (k : Z) | o_index_require_find (n : nat) (k : Z) (error_msg : string)
  | o_index_lower_bound (n : nat) (k : Z) | o_index_upper_bound (n : nat) (k : Z)
  | o_index_increment (n j : nat) | o_index_decrement (n j : nat) | o_index_erase (n j : nat).
(** The row of the iterator returned, a key, or nothing. *)
Inductive answer : Type := a_row (r : option R) | a_key (k : Z) | a_done.

(** ** The class *)

Abbreviation multi_index := (@multi_index H R).
Definition run_state : Type := multi_index * list (option nat).

Definition nth_iterator (j : nat) (its : list (option nat)) : result (option nat) :=
  some_or (Trap "no such iterator") (its !! j).
Definition row_at (it : option nat) (m : multi_index) : result answer :=
  match it with None => Ok (a_row None) | Some a => i ← at_address a m; Ok (a_row (Some (obj i))) end.
(** A call that returns an iterator. *)
Definition push (its : list (option nat)) (x : result (multi_index * option nat)) : result (run_state * answer) :=
  '(m, it) ← x; a ← row_at it m; Ok (m, its ++ [it], a).
Definition run_op (s : run_state) (o : op) : result (run_state * answer) :=
  let '(m, its) := s in
  match o with
  | o_find pk => push its (find primary_key unpack extractors pk m)
  | o_require_find pk msg => push its (require_find primary_key unpack extractors pk msg m)
  | o_get pk msg => '(m, r) ← get primary_key unpack extractors pk msg m; Ok (m, its, a_row (Some r))
  | o_begin => push its (begin unpack extractors m)
  | o_lower_bound pk => push its (lower_bound unpack extractors pk m)
  | o_upper_bound pk => push its (upper_bound unpack extractors pk m)
  | o_end => push its (Ok (m, None))
  | o_increment j => it ← nth_iterator j its; push its (increment unpack extractors it m)
  | o_decrement j => it ← nth_iterator j its; push its (decrement unpack extractors it m)
  | o_read j => it ← nth_iterator j its; a ← row_at it m; Ok (s, a)
  | o_available_primary_key => '(m, k) ← available_primary_key primary_key unpack extractors m; Ok (m, its, a_key k)
  | o_emplace r => push its (emplace primary_key pack extractors own r m)
  | o_modify j f => it ← nth_iterator j its; m ← modify primary_key pack extractors own it f m; Ok (m, its, a_done)
  | o_erase j => it ← nth_iterator j its; push its (erase primary_key unpack extractors own it m)
  | o_index_find n k => push its (index_find primary_key unpack extractors n k m)
  | o_index_require_find n k msg => push its (index_require_find primary_key unpack extractors n k msg m)
  | o_index_lower_bound n k => push its (index_lower_bound primary_key unpack extractors n k m)
  | o_index_upper_bound n k => push its (index_upper_bound primary_key unpack extractors n k m)
  | o_index_increment n j => it ← nth_iterator j its; push its (index_increment primary_key unpack extractors n it m)
  | o_index_decrement n j => it ← nth_iterator j its; push its (index_decrement primary_key unpack extractors n it m)
  | o_index_erase n j => it ← nth_iterator j its; push its (index_erase primary_key unpack extractors own n it m)
  end.
Fixpoint run_ops (ops : list op) (s : run_state) : result (run_state * list answer) :=
  match ops with
  | [] => Ok (s, [])
  | o :: ops => '(s, a) ← run_op s o; '(s, l) ← run_ops ops s; Ok (s, a :: l)
  end.

(** ** The map *)

(** The rows, the key noted, and the row of every iterator: none is the end;
    an iterator whose row was erased is not valid. *)
Record map_state : Type := mk_map_state { tb : gmap Z R; next : Z; at_rows : list (option (option Z)) }.

Definition undefined : error := Trap "undefined behaviour".
Definition end_iterator : error := Check "end iterator".
Definition nth_row (j : nat) (s : map_state) : result (option Z) :=
  o ← some_or (Trap "no such iterator") (at_rows s !! j); some_or undefined o.
Definition in_index (n : nat) : result (R -> Z) := some_or undefined (extractors !! n).
Definition row (t : gmap Z R) (o : option Z) : answer := a_row (k ← o; t !! k).
Definition returns (s : map_state) (o : option Z) : result (map_state * answer) :=
  Ok (mk_map_state (tb s) (next s) (at_rows s ++ [Some o]), row (tb s) o).
Definition erased (s : map_state) (pk : Z) (o : option Z) : result (map_state * answer) :=
  t ← Table.erase (tb s) pk;
  returns (mk_map_state t (next s) ((fun o => if decide (o = Some (Some pk)) then None else o) <$> at_rows s)) o.
Definition owned : result unit := check own "cannot write to the table of another contract".
Definition spec_op (s : map_state) (o : op) : result (map_state * answer) :=
  match o with
  | o_find pk => returns s (if decide (is_Some (tb s !! pk)) then Some pk else None)
  | o_require_find pk msg => _ ← Table.get (tb s) pk msg; returns s (Some pk)
  | o_get pk msg => r ← Table.get (tb s) pk msg; Ok (s, a_row (Some r))
  | o_begin => returns s (head (Table.lower_bound_keys (tb s) 0))
  | o_lower_bound k => returns s (head (Table.lower_bound_keys (tb s) k))
  | o_upper_bound k => returns s (head (Table.upper_bound_keys (tb s) k))
  | o_end => returns s None
  | o_increment j =>
      o ← nth_row j s; pk ← some_or end_iterator o;
      returns s (head (Table.upper_bound_keys (tb s) pk))
  | o_decrement j =>
      o ← nth_row j s; k ← some_or end_iterator (key_before (tb s) o); returns s (Some k)
  | o_read j => o ← nth_row j s; Ok (s, row (tb s) o)
  | o_available_primary_key =>
      k ← available (tb s) (next s); Ok (mk_map_state (tb s) k (at_rows s), a_key k)
  | o_emplace r =>
      _ ← owned; t ← Table.emplace primary_key (tb s) r;
      returns (mk_map_state t (noted (next s) (primary_key r)) (at_rows s)) (Some (primary_key r))
  | o_modify j f =>
      o ← nth_row j s; pk ← some_or end_iterator o;
      _ ← owned; t ← Table.modify primary_key (tb s) pk f;
      Ok (mk_map_state t (noted (next s) pk) (at_rows s), a_done)
  | o_erase j =>
      o ← nth_row j s; pk ← some_or end_iterator o;
      _ ← owned; erased s pk (head (Table.upper_bound_keys (tb s) pk))
  | o_index_find n k => ex ← in_index n; returns s (Table.index_find ex (tb s) k)
  | o_index_require_find n k msg =>
      ex ← in_index n; pk ← some_or (Check msg) (Table.index_find ex (tb s) k); returns s (Some pk)
  | o_index_lower_bound n k => ex ← in_index n; returns s (snd <$> Table.index_lower_bound ex (tb s) k)
  | o_index_upper_bound n k =>
      ex ← in_index n; returns s (snd <$> head (filter (fun e => k < e.1) (Table.index ex (tb s))))
  | o_index_increment n j =>
      ex ← in_index n; o ← nth_row j s; pk ← some_or end_iterator o;
      r ← some_or undefined (tb s !! pk); returns s (snd <$> Table.index_next ex (tb s) (ex r, pk))
  | o_index_decrement n j =>
      ex ← in_index n; o ← nth_row j s;
      e ← some_or end_iterator (entry_before ex (tb s) (entry_of ex (tb s) o)); returns s (Some e.2)
  | o_index_erase n j =>
      ex ← in_index n; o ← nth_row j s; pk ← some_or end_iterator o;
      r ← some_or undefined (tb s !! pk);
      _ ← owned; erased s pk (snd <$> Table.index_next ex (tb s) (ex r, pk))
  end.
Fixpoint spec_ops (ops : list op) (s : map_state) : result (map_state * list answer) :=
  match ops with
  | [] => Ok (s, [])
  | o :: ops => '(s, a) ← spec_op s o; '(s, l) ← spec_ops ops s; Ok (s, a :: l)
  end.
End use.

(** ** The class is the map *)

Section simulation.
Context {H : Type} `{HostDb H} `{!HostView H} `{!HostLaws H}.
Context {R : Type} (primary_key : R -> Z) (pack : R -> list Z) (unpack : list Z -> result R) (extractors : list (R -> Z)).
Context (unpack_pack : forall r, unpack (pack r) = Ok r) (key_range : forall r, 0 <= primary_key r < 2 ^ 64).
Context (own : bool).
Implicit Types (s : @run_state H R) (x : @map_state R).

Abbreviation represents := (represents primary_key pack extractors (fun _ => True)).
Abbreviation points := (points primary_key).
Abbreviation still := (still primary_key).
Abbreviation reads := (reads primary_key pack extractors (fun _ => True)).
Abbreviation run_op := (run_op primary_key pack unpack extractors own).
Abbreviation spec_op := (spec_op primary_key extractors own).

(** An iterator that is valid is at its row. *)
Definition holds (m : @multi_index H R) (it : option nat) (o : option (option Z)) : Prop :=
  match o with Some o => points m it o | None => True end.
Definition sim s x : Prop :=
  represents s.1 (tb x) /\ next_primary_key s.1 = next x /\ Forall2 (holds s.1) s.2 (at_rows x).
(** A call that is not undefined behaviour answers, or fails, as the map. *)
Definition agrees (a : result (@run_state H R * @answer R)) (b : result (@map_state R * @answer R)) : Prop :=
  match b with
  | Ok (x, v) => exists s, a = Ok (s, v) /\ sim s x
  | Err e => e <> undefined -> exists e', a = Err e'
  end.

Lemma holds_still m m' its l : still m m' -> Forall2 (holds m) its l -> Forall2 (holds m') its l.
Proof. intros Hs Hi. eapply Forall2_impl; [exact Hi|]. intros it [o|]; [apply Hs|done]. Qed.
Lemma row_at_row m t it o : represents m t -> points m it o -> row_at it m = Ok (row t o).
Proof.
  intros Hm Hp. destruct it as [a|], o as [pk|]; try done. cbn [row_at].
  destruct (points_item _ _ _ _ _ _ _ _ Hm Hp) as (i & -> & <- & Hi). unfold row. cbn. by rewrite (io_row _ _ _ _ _ Hi).
Qed.
Lemma agrees_push m its x y it o : represents m (tb x) -> next_primary_key m = next x -> points m it o ->
  Forall2 (holds m) its (at_rows x) -> y = Ok (m, it) -> agrees (push its y) (returns x o).
Proof.
  intros Hm Hn Hp Hi ->. unfold push. cbn [mbind result_bind]. rewrite (row_at_row m (tb x) it o Hm Hp). cbn [mbind result_bind].
  eexists. split; [reflexivity|]. split_and!; [done|done|]. cbn. apply Forall2_app; [done|by constructor].
Qed.
Lemma agrees_reads m its x y o : sim (m, its) x -> reads (tb x) m y o -> agrees (push its y) (returns x o).
Proof.
  intros (Hm & Hn & Hi) (m' & it & E & Hm' & [Hs He] & Hp). eapply agrees_push; [done| |done| |done].
  - by rewrite He.
  - by eapply holds_still; [exact Hs|exact Hi].
Qed.
Lemma push_fails its (y : result (@multi_index H R * option nat)) : (exists e, y = Err e) -> exists e, push its y = Err e.
Proof. intros [e ->]. by exists e. Qed.
Lemma agrees_fails its y e : (exists e', y = Err e') -> agrees (push its y) (Err e).
Proof. intros [e' ->] _. by exists e'. Qed.
Lemma agrees_nth m its x j f g : Forall2 (holds m) its (at_rows x) ->
  (forall it o, points m it o -> agrees (f it) (g o)) -> agrees (it ← nth_iterator j its; f it) (o ← nth_row j x; g o).
Proof.
  intros Hi Hfg. unfold nth_iterator, nth_row. destruct (at_rows x !! j) as [o|] eqn:Eo.
  - destruct (Forall2_lookup_r _ _ _ _ _ Hi Eo) as (it & -> & Hh). destruct o as [o|]; cbn; [by apply Hfg|done].
  - assert (its !! j = None) as -> by (apply lookup_ge_None; rewrite (Forall2_length _ _ _ Hi); by apply lookup_ge_None). cbn. by eexists.
Qed.
Lemma agrees_check (y : result (@map_state R * @answer R)) z b msg :
  (b = true -> agrees z y) -> (b = false -> exists e, z = Err e) -> agrees z (_ ← check b msg; y).
Proof. destruct b; intros Ht Hf; cbn; [by apply Ht|]. intros _. by apply Hf. Qed.

(** *** Reading *)

Lemma decrement_agrees m its x it o : sim (m, its) x -> points m it o ->
  agrees (push its (decrement unpack extractors it m)) (k ← some_or end_iterator (key_before (tb x) o); returns x (Some k)).
Proof.
  intros Hs Hp. pose proof (decrement_spec _ _ _ _ unpack_pack _ _ _ it o (proj1 Hs) Hp) as Hd.
  destruct (key_before _ _) as [k|]; cbn [some_or mbind result_bind]; [by apply (agrees_reads m)|]. apply agrees_fails. destruct Hd as [msg Hd]. eexists; exact Hd.
Qed.
Lemma increment_agrees m its x it o : sim (m, its) x -> points m it o ->
  agrees (push its (increment unpack extractors it m))
    (pk ← some_or end_iterator o; returns x (head (Table.upper_bound_keys (tb x) pk))).
Proof.
  intros Hs Hp. destruct o as [pk|]; cbn [some_or mbind result_bind].
  - apply (agrees_reads m); [done|]. by apply (increment_spec _ _ _ _ unpack_pack _ _ _ _ _ (proj1 Hs)).
  - destruct it; [done|]. intros _. by eexists.
Qed.
Lemma available_agrees m its x : sim (m, its) x ->
  agrees ('(m, k) ← available_primary_key primary_key unpack extractors m; Ok (m, its, a_key k))
    (k ← available (tb x) (next x); Ok (mk_map_state (tb x) k (at_rows x), a_key k)).
Proof.
  intros (Hm & Hn & Hi). cbn [fst snd] in *. pose proof (available_spec _ _ _ _ unpack_pack key_range _ _ _ Hm) as Ha. rewrite Hn in Ha.
  destruct (available _ _) as [k|e]; cbn.
  - destruct Ha as (m' & -> & Hm' & Hs & Hk). eexists. split; [reflexivity|]. split_and!; [done|done|]. by eapply holds_still; [exact Hs|exact Hi].
  - intros _. rewrite Ha. by eexists.
Qed.

(** *** Writing *)

Lemma emplace_agrees m its x r : sim (m, its) x ->
  agrees (push its (emplace primary_key pack extractors own r m))
    (_ ← owned own; t ← Table.emplace primary_key (tb x) r;
     returns (mk_map_state t (noted (next x) (primary_key r)) (at_rows x)) (Some (primary_key r))).
Proof.
  intros (Hm & Hn & Hi). cbn [fst snd] in *. apply agrees_check; intros ->; [|by eexists].
  pose proof (emplace_spec _ _ _ key_range _ _ _ r Hm) as He. destruct (Table.emplace _ _ _) as [t|e]; cbn [mbind result_bind].
  - destruct He as (m' & it & E & Hm' & Hs & Hp & Hk). rewrite Hn in Hk.
    eapply agrees_push; [done|done|done| |done]. by eapply holds_still; [exact Hs|exact Hi].
  - by apply agrees_fails.
Qed.
Lemma modify_agrees m its x it o f : sim (m, its) x -> points m it o ->
  agrees (m ← modify primary_key pack extractors own it f m; Ok (m, its, a_done))
    (pk ← some_or end_iterator o; _ ← owned own; t ← Table.modify primary_key (tb x) pk f;
     Ok (mk_map_state t (noted (next x) pk) (at_rows x), a_done)).
Proof.
  intros (Hm & Hn & Hi) Hp. cbn [fst snd] in *. destruct o as [pk|]; cbn [some_or mbind result_bind].
  2: { destruct it; [done|]. intros _. by eexists. }
  apply agrees_check; intros ->.
  - pose proof (modify_spec _ _ _ key_range _ _ _ it pk f Hm Hp) as He. destruct (Table.modify _ _ _ _) as [t|e]; cbn [mbind result_bind].
    + destruct He as (m' & -> & Hm' & Hs & Hk). rewrite Hn in Hk. eexists. split; [reflexivity|].
      split_and!; [done|done|]. by eapply holds_still; [exact Hs|exact Hi].
    + intros _. destruct He as [e' ->]. by eexists.
  - destruct it as [a|]; [|done]. destruct (points_item _ _ _ _ _ _ _ _ Hm Hp) as (i & Ea & _). unfold modify.
    rewrite bool_decide_true by done. cbn [check some_or mbind result_bind]. rewrite Ea. by eexists.
Qed.
(** What an erasure leaves. *)
Lemma agrees_erased m its x pk y o : sim (m, its) x -> is_Some (tb x !! pk) ->
  (exists m' it, y = Ok (m', it) /\ represents m' (delete pk (tb x)) /\ points m' it o /\
    (forall it o, points m it o -> o <> Some pk -> points m' it o) /\ next_primary_key m' = next_primary_key m) ->
  agrees (push its y) (erased x pk o).
Proof.
  intros (Hm & Hn & Hi) [r Hr] (m' & it & E & Hm' & Hp & Hpts & Hk). unfold erased, Table.erase. rewrite Hr. cbn [mbind result_bind].
  eapply agrees_push; [done|by rewrite Hk|done| |done]. cbn. apply Forall2_fmap_r. eapply Forall2_impl; [exact Hi|].
  intros it' [o'|] Ho; cbn; [|by rewrite decide_False]. destruct (decide _) as [[= ->]|Hne]; [done|]. apply Hpts; [done|congruence].
Qed.
Lemma erase_agrees m its x it o : sim (m, its) x -> points m it o ->
  agrees (push its (erase primary_key unpack extractors own it m))
    (pk ← some_or end_iterator o; _ ← owned own; erased x pk (head (Table.upper_bound_keys (tb x) pk))).
Proof.
  intros Hs Hp. destruct o as [pk|]; cbn [some_or mbind result_bind].
  2: { destruct it; [done|]. intros _. by eexists. }
  destruct it as [a|]; [|done]. destruct (points_item _ _ _ _ _ _ _ _ (proj1 Hs) Hp) as (i & Ea & Hk & Hi).
  assert (is_Some (tb x !! pk)) by (rewrite <- Hk, (io_row _ _ _ _ _ Hi); eauto).
  apply agrees_check; intros ->.
  - eapply agrees_erased; [done|done|]. by apply (erase_spec _ _ _ _ unpack_pack _ _ _ _ _ (proj1 Hs)).
  - apply push_fails. destruct (increment_spec _ _ _ _ unpack_pack _ _ _ _ _ (proj1 Hs) Hp) as (m1 & nx & E & Hm1 & He & _).
    unfold erase. rewrite bool_decide_true by done. cbn [check some_or mbind result_bind fst] in *. rewrite E. cbn [mbind result_bind].
    destruct (points_item _ _ _ _ _ _ _ _ Hm1 (proj1 He _ _ Hp)) as (j & Ej & _). unfold erase_obj. rewrite Ej. by eexists.
Qed.

(** *** Secondary indices *)

Lemma points_row m t it pk : represents m t -> points m it (Some pk) -> exists r, t !! pk = Some r.
Proof.
  intros Hm Hp. destruct it as [a|]; [|done]. destruct (points_item _ _ _ _ _ _ _ _ Hm Hp) as (i & _ & <- & Hi).
  eexists. apply Hi.
Qed.
Lemma index_increment_agrees m its x it o n ex : extractors !! n = Some ex -> sim (m, its) x -> points m it o ->
  agrees (push its (index_increment primary_key unpack extractors n it m))
    (pk ← some_or end_iterator o; r ← some_or undefined (tb x !! pk);
     returns x (snd <$> Table.index_next ex (tb x) (ex r, pk))).
Proof.
  intros Hn Hs Hp. destruct o as [pk|]; cbn [some_or mbind result_bind].
  - destruct (points_row _ _ _ _ (proj1 Hs) Hp) as [r Hr]. rewrite Hr. cbn [some_or mbind result_bind].
    apply (agrees_reads m); [done|]. exact (index_increment_spec _ _ _ _ unpack_pack _ n ex Hn I _ _ _ _ _ (proj1 Hs) Hp Hr).
  - destruct it; [done|]. intros _. by eexists.
Qed.
Lemma index_decrement_agrees m its x it o n ex : extractors !! n = Some ex -> sim (m, its) x -> points m it o ->
  agrees (push its (index_decrement primary_key unpack extractors n it m))
    (e ← some_or end_iterator (entry_before ex (tb x) (entry_of ex (tb x) o)); returns x (Some e.2)).
Proof.
  intros Hn Hs Hp. pose proof (index_decrement_spec _ _ _ _ unpack_pack _ n ex Hn I _ _ it o (proj1 Hs) Hp) as Hd.
  destruct (entry_before _ _ _) as [k|]; cbn [some_or mbind result_bind]; [by apply (agrees_reads m)|].
  apply agrees_fails. destruct Hd as [msg Hd]. eexists; exact Hd.
Qed.
Lemma index_erase_agrees m its x it o n ex : extractors !! n = Some ex -> sim (m, its) x -> points m it o ->
  agrees (push its (index_erase primary_key unpack extractors own n it m))
    (pk ← some_or end_iterator o; r ← some_or undefined (tb x !! pk);
     _ ← owned own; erased x pk (snd <$> Table.index_next ex (tb x) (ex r, pk))).
Proof.
  intros Hn Hs Hp. destruct o as [pk|]; cbn [some_or mbind result_bind].
  2: { destruct it; [done|]. intros _. by eexists. }
  destruct (points_row _ _ _ _ (proj1 Hs) Hp) as [r Hr]. rewrite Hr. cbn [some_or mbind result_bind].
  apply agrees_check; intros ->.
  - eapply agrees_erased; [done|by eexists|]. exact (index_erase_spec _ _ _ _ unpack_pack _ n ex Hn I _ _ _ _ _ (proj1 Hs) Hp Hr).
  - apply push_fails. destruct it as [a|]; [|done].
    destruct (index_increment_spec _ _ _ _ unpack_pack _ n ex Hn I _ _ _ _ _ (proj1 Hs) Hp Hr) as (m1 & nx & E & Hm1 & He & _).
    unfold index_erase. rewrite bool_decide_true by done. cbn [check some_or mbind result_bind fst] in *. rewrite E. cbn [mbind result_bind].
    destruct (points_item _ _ _ _ _ _ _ _ Hm1 (proj1 He _ _ Hp)) as (j & Ej & _). unfold erase_obj. rewrite Ej. by eexists.
Qed.
Lemma index_require_find_agrees m its x n ex k msg : extractors !! n = Some ex -> sim (m, its) x ->
  agrees (push its (index_require_find primary_key unpack extractors n k msg m))
    (pk ← some_or (Check msg) (Table.index_find ex (tb x) k); returns x (Some pk)).
Proof.
  intros Hn Hs. pose proof (index_require_find_spec _ _ _ _ unpack_pack (fun _ => True) n ex _ _ k msg Hn I (proj1 Hs)) as Hf.
  destruct (Table.index_find _ _ _) as [pk|]; cbn [some_or mbind result_bind]; [by apply (agrees_reads m)|by apply agrees_fails].
Qed.
(** An index that exists. *)
Lemma agrees_index n y f : (forall ex, extractors !! n = Some ex -> agrees y (f ex)) ->
  agrees y (ex ← in_index extractors n; f ex).
Proof. intros Hf. unfold in_index. destruct (extractors !! n); cbn; [by apply Hf|done]. Qed.
Lemma agrees_index_nth m its x j n g f : Forall2 (holds m) its (at_rows x) ->
  (forall ex it o, extractors !! n = Some ex -> points m it o -> agrees (g it) (f ex o)) ->
  agrees (it ← nth_iterator j its; g it) (ex ← in_index extractors n; o ← nth_row j x; f ex o).
Proof. intros Hi Hf. apply agrees_index. intros ex He. eapply agrees_nth; [exact Hi|]. intros it o. by apply Hf. Qed.

(** *** Any call *)

Lemma run_op_agrees s x o : sim s x -> agrees (run_op s o) (spec_op x o).
Proof.
  destruct s as [m its]. intros Hs. pose proof (proj1 Hs) as Hm. pose proof (proj2 (proj2 Hs)) as Hi. cbn [fst snd] in Hm, Hi.
  destruct o; cbn [TableUse.run_op TableUse.spec_op].
  - apply (agrees_reads m); [done|]. by apply cached_find_spec.
  - pose proof (require_find_spec _ _ _ _ unpack_pack _ _ _ pk error_msg Hm) as Hf. unfold Table.get.
    destruct (tb x !! pk); cbn [some_or mbind result_bind]; [by apply (agrees_reads m)|by apply agrees_fails].
  - pose proof (get_spec _ _ _ _ unpack_pack _ _ _ pk error_msg Hm) as Hf. unfold Table.get.
    destruct (tb x !! pk) as [r|]; cbn [some_or mbind result_bind].
    + destruct Hf as (m' & -> & Hm' & [Hst Hn]). eexists. split; [reflexivity|]. split_and!; [done|cbn; rewrite Hn; apply Hs|].
      by eapply holds_still; [exact Hst|].
    + intros _. destruct Hf as [e ->]. by eexists.
  - apply (agrees_reads m); [done|]. by apply cached_lower_bound_spec.
  - apply (agrees_reads m); [done|]. by apply cached_lower_bound_spec.
  - apply (agrees_reads m); [done|]. by apply upper_bound_spec.
  - eapply agrees_push; [exact Hm|apply Hs| |exact Hi|reflexivity]; done.
  - eapply agrees_nth; [exact Hi|]. intros it o Hp. by apply increment_agrees.
  - eapply agrees_nth; [exact Hi|]. intros it o Hp. by apply decrement_agrees.
  - eapply agrees_nth; [exact Hi|]. intros it o Hp. rewrite (row_at_row m (tb x) it o Hm Hp). by eexists.
  - by apply available_agrees.
  - by apply emplace_agrees.
  - eapply agrees_nth; [exact Hi|]. intros it o Hp. by apply modify_agrees.
  - eapply agrees_nth; [exact Hi|]. intros it o Hp. by apply erase_agrees.
  - apply agrees_index. intros ex Hn. apply (agrees_reads m); [done|]. by apply index_find_spec.
  - apply agrees_index. intros ex Hn. by apply index_require_find_agrees.
  - apply agrees_index. intros ex Hn. apply (agrees_reads m); [done|]. by apply index_lower_bound_spec.
  - apply agrees_index. intros ex Hn. apply (agrees_reads m); [done|]. by apply index_upper_bound_spec.
  - apply (agrees_index_nth m); [exact Hi|]. intros ex it o Hn Hp. by apply index_increment_agrees.
  - apply (agrees_index_nth m); [exact Hi|]. intros ex it o Hn Hp. by apply index_decrement_agrees.
  - apply (agrees_index_nth m); [exact Hi|]. intros ex it o Hn Hp. by apply index_erase_agrees.
Qed.

(** ** Any sequence of calls *)

(** What the database holds for a map. *)
Definition holds_map (t : gmap Z R) (h : H) : Prop :=
  stored (view h) = pack <$> t /\ forall n ex, extractors !! n = Some ex -> keyed_by (view h) n = ex <$> t.
Lemma represents_construct t h : Table.keyed primary_key t -> holds_map t h -> represents (construct h) t.
Proof.
  intros Hk [Hr Hx]. split; cbn; try done.
  - by intros y Hy%not_elem_of_nil.
  - split; constructor.
  - constructor.
  - by left.
  - intros n ex Hn. rewrite (Hx n ex Hn). by split.
Qed.
Lemma run_ops_agrees ops s x : sim s x ->
  match spec_ops primary_key extractors own ops x with
  | Ok (x', l) => exists s', run_ops primary_key pack unpack extractors own ops s = Ok (s', l) /\ sim s' x'
  | Err e => e <> undefined -> exists e', run_ops primary_key pack unpack extractors own ops s = Err e'
  end.
Proof.
  revert s x. induction ops as [|o ops IH]; intros s x Hs; cbn; [by exists s|].
  pose proof (run_op_agrees s x o Hs) as Ha. destruct (spec_op x o) as [[x1 a]|e]; cbn in *.
  - destruct Ha as (s1 & -> & Hs1). cbn. specialize (IH s1 x1 Hs1). destruct (spec_ops _ _ _ ops x1) as [[x2 l]|e]; cbn.
    + destruct IH as (s2 & -> & Hs2). by exists s2.
    + intros Hne. destruct (IH Hne) as [e' ->]. by eexists.
  - intros Hne. destruct (Ha Hne) as [e' ->]. by eexists.
Qed.

(** C4: Whatever a contract does with a table object - finding, walking and
    changing rows, through iterators got before or new ones, by the primary key
    or through an index - the answers and the failures are those of a finite
    map from primary keys to rows that never heard of caches, database
    iterators or serialized rows, and the database ends with the rows and the
    index entries of the map; only a call on an iterator whose row was erased
    is not defined. *)
Theorem cached_table_is_map t h ops :
  Table.keyed primary_key t -> holds_map t h ->
  match spec_ops primary_key extractors own ops (mk_map_state t unset_next_primary_key []) with
  | Ok (x, l) =>
      exists s, run_ops primary_key pack unpack extractors own ops (construct h, []) = Ok (s, l) /\ holds_map (tb x) (host s.1)
  | Err e =>
      e <> undefined -> exists e', run_ops primary_key pack unpack extractors own ops (construct h, []) = Err e'
  end.
Proof.
  intros Hk Hh.
  assert (sim (construct h, []) (mk_map_state t unset_next_primary_key [])) as Hs
    by (split_and!; [by apply represents_construct|done|constructor]).
  pose proof (run_ops_agrees ops _ _ Hs) as Ha. destruct (spec_ops _ _ _ _ _) as [[x l]|e]; [|exact Ha].
  destruct Ha as (s & E & Hm & _). exists s. split; [exact E|]. split; [apply Hm|].
  intros n ex Hn. by apply (rp_indices _ _ _ _ _ _ Hm n ex Hn).
Qed.
End simulation.

(** ** A table of pairs, indexed by the second number *)

Definition pair_key (r : Z * Z) : Z := wrap 64 r.1.
Definition pair_pack (r : Z * Z) : list Z := [r.1; r.2].
Definition pair_unpack (l : list Z) : result (Z * Z) :=
  match l with [a; b] => Ok (a, b) | _ => Err (Check "read past the end") end.
Definition pair_table : gmap Z (Z * Z) := {[ 1 := (1, 10); 5 := (5, 7) ]}.
Definition pair_db : contents := mk_contents (pair_pack <$> pair_table) (fun _ => snd <$> pair_table).
Definition pair_ops : list (@op (Z * Z)) :=
  [o_index_lower_bound 0 8; o_emplace (3, 8); o_index_decrement 0 0; o_index_decrement 0 2;
   o_modify 1 (fun r => Ok (r.1, 20)); o_read 1; o_index_increment 0 0; o_erase 0; o_begin; o_end; o_decrement 7;
   o_available_primary_key].
Definition pair_answers : list (@answer (Z * Z)) :=
  [a_row (Some (1, 10)); a_row (Some (3, 8)); a_row (Some (3, 8)); a_row (Some (5, 7));
   a_done; a_row (Some (3, 20)); a_row (Some (3, 20)); a_row (Some (3, 20)); a_row (Some (3, 20)); a_row None; a_row (Some (5, 7));
   a_key 6].

Theorem cached_table_is_map_witness :
  (l ← run_ops pair_key pair_pack pair_unpack [snd] true pair_ops (construct pair_db, []); Ok l.2) = Ok pair_answers /\
  exists s, run_ops pair_key pair_pack pair_unpack [snd] true pair_ops (construct pair_db, []) = Ok (s, pair_answers) /\
    holds_map pair_pack [snd] {[ 3 := (3, 20); 5 := (5, 7) ]} (host s.1).
Proof.
  split; [vm_compute; reflexivity|].
  refine (cached_table_is_map pair_key pair_pack pair_unpack [snd] _ _ true pair_table pair_db pair_ops _ _).
  - by intros [a b].
  - intros r. unfold pair_key, wrap. apply Z.mod_pos_bound. lia.
  - intros k r Hk. unfold pair_table in Hk. apply lookup_insert_Some in Hk as [[<- <-]|[_ Hk]]; [done|].
    by apply lookup_singleton_Some in Hk as [<- <-].
  - split; [done|]. intros n ex Hn. by apply list_lookup_singleton_Some in Hn as [_ <-].
Defined.
End TableUse.
