(* ===== verification/FromJson.v ===== *)
(** JSON read as a stream of tokens
    ([libraries/abieos/include/eosio/from_json.hpp]): what the parser outside
    the repository delivers is looked at one token at a time and read as
    integers, booleans, text, hexadecimal, lists, optionals and objects.
    The module Jvalue builds JSON values from the same tokens. *)
From S2P Require Import Prelude Name Text Json.
From Stdlib Require Import Ascii.
From Stdlib Require String.
Import Text Json.
Open Scope string_scope.
Open Scope list_scope.
Open Scope Z_scope.

Module FromJson.

(** ** Errors *)

Definition expected_end : error := Check "Expected end of json".
Definition expected_null : error := Check "Expected null".
Definition expected_bool : error := Check "Expected true or false".
Definition expected_string : error := Check "Expected string".
Definition expected_hex_string : string := "Expected string containing hex".
Definition expected_start_object : error := Check "Expected {".
Definition expected_key : error := Check "Expected key".
Definition expected_end_object : error := Check "Expected }".
Definition expected_start_array : error := Check "Expected [".
Definition expected_end_array : error := Check "Expected ]".
Definition expected_int : string := "Expected integer".
Definition number_out_of_range : string := "number is out of range".

(** ** Tokens *)

(** A number arrives as the text it is written with. *)
Inductive token : Type :=
  | type_null | type_bool (value_bool : bool) | type_string (value_string : string)
  | type_start_object | type_key (key : string) | type_end_object
  | type_start_array | type_end_array.
#[global] Instance token_eq_dec : EqDecision token.
Proof. solve_decision. Defined.

(** The parser: [IterativeParseNext], which calls one of the handlers, and
    [IterativeParseComplete]. *)
Class JsonReader (Rd : Type) : Type := {
  parse_next : Rd -> result (Rd * token);
  parse_complete : Rd -> bool
}.
(** What a parser delivers for a document: its tokens, then the end. *)
Inductive delivers {Rd} `{JsonReader Rd} : Rd -> list token -> Prop :=
  | delivers_end r : parse_complete r = true -> delivers r []
  | delivers_next r r' t ts : parse_complete r = false -> parse_next r = Ok (r', t) -> delivers r' ts ->
      delivers r (t :: ts).
(** Tokens that are there already. *)
#[global] Instance list_reader : JsonReader (list token) := {
  parse_next l := match l with [] => Err (Check "Parsing was terminated") | t :: l => Ok (l, t) end;
  parse_complete l := match l with [] => true | _ => false end
}.
Lemma list_delivers l : delivers l l.
Proof. induction l as [|t l IH]; [by constructor|by eapply delivers_next]. Qed.

Section stream.
Context {Rd : Type} `{JsonReader Rd}.

(** [json_token_stream]; no current token: [type_unread]. *)
Record json_token_stream : Type := mk_stream { reader : Rd; current_token : option token }.
Definition open_stream (r : Rd) : json_token_stream := mk_stream r None.

Definition peek_token (s : json_token_stream) : result (json_token_stream * token) :=
  match current_token s with
  | Some t => Ok (s, t)
  | None => '(r, t) ← parse_next (reader s); Ok (mk_stream r (Some t), t)
  end.
Definition eat_token (s : json_token_stream) : json_token_stream := mk_stream (reader s) None.

(** The token is taken if it is of the kind asked for. *)
Definition get_token {A} (kind : token -> option A) (e : error) (s : json_token_stream) : result (json_token_stream * A) :=
  '(s, t) ← peek_token s; a ← some_or e (kind t); Ok (eat_token s, a).
Definition get_pred (kind : token) (s : json_token_stream) : result (json_token_stream * bool) :=
  '(s, t) ← peek_token s; Ok (if decide (t = kind) then (eat_token s, true) else (s, false)).
Definition get_exact (kind : token) : error -> json_token_stream -> result (json_token_stream * unit) :=
  get_token (fun t => if decide (t = kind) then Some tt else None).

Definition get_end (s : json_token_stream) : result unit :=
  match current_token s with
  | None => if parse_complete (reader s) then Ok tt else Err expected_end
  | Some _ => Err expected_end
  end.
Definition get_null_pred : json_token_stream -> result (json_token_stream * bool) := get_pred type_null.
Definition get_null : json_token_stream -> result (json_token_stream * unit) := get_exact type_null expected_null.
Definition get_bool : json_token_stream -> result (json_token_stream * bool) :=
  get_token (fun t => match t with type_bool b => Some b | _ => None end) expected_bool.
Definition get_string : json_token_stream -> result (json_token_stream * string) :=
  get_token (fun t => match t with type_string v => Some v | _ => None end) expected_string.
Definition get_start_object : json_token_stream -> result (json_token_stream * unit) :=
  get_exact type_start_object expected_start_object.
Definition get_key : json_token_stream -> result (json_token_stream * string) :=
  get_token (fun t => match t with type_key k => Some k | _ => None end) expected_key.
Definition maybe_get_key (s : json_token_stream) : result (json_token_stream * option string) :=
  '(s, t) ← peek_token s; Ok (match t with type_key k => (eat_token s, Some k) | _ => (s, None) end).
Definition get_end_object_pred : json_token_stream -> result (json_token_stream * bool) := get_pred type_end_object.
Definition get_end_object : json_token_stream -> result (json_token_stream * unit) :=
  get_exact type_end_object expected_end_object.
Definition get_start_array_pred : json_token_stream -> result (json_token_stream * bool) := get_pred type_start_array.
Definition get_end_array_pred : json_token_stream -> result (json_token_stream * bool) := get_pred type_end_array.
Definition get_start_array : json_token_stream -> result (json_token_stream * unit) :=
  get_exact type_start_array expected_start_array.
Definition get_end_array : json_token_stream -> result (json_token_stream * unit) :=
  get_exact type_end_array expected_end_array.
End stream.

(** ** Text of values *)

(** [unhex]: pairs of digits of either case.  An odd digit at the end is read
    together with what follows the text; its callers have checked the length. *)
Definition get_digit (c : ascii) : option Z :=
  if Name.in_range "0" "9" c then Some (Name.code c - 48)
  else if Name.in_range "a" "f" c then Some (Name.code c - 97 + 10)
  else if Name.in_range "A" "F" c then Some (Name.code c - 65 + 10)
  else None.
Fixpoint unhex (s : chars) : option (list Z) :=
  match s with
  | h :: l :: s =>
      h ← get_digit h; l ← get_digit l; bs ← unhex s; Some (Z.lor (wrap 8 (Z.shiftl h 4)) l :: bs)
  | _ => Some []
  end.
(** [from_json_hex] *)
Definition from_json_hex (s : string) : result (list Z) :=
  let s := chars_of s in
  _ ← check (Nat.even (length s)) expected_hex_string;
  some_or (Check expected_hex_string) (unhex s).

(** [from_json_int] for a type of [w] bits.  Division is that of C. *)
Section integers.
Context (signed : bool) (w : Z).
Definition as_type (z : Z) : Z := if signed then swrap w z else wrap w z.
Definition int_min : Z := if signed then - 2 ^ (w - 1) else 0.
Definition int_max : Z := if signed then 2 ^ (w - 1) - 1 else 2 ^ w - 1.
Fixpoint int_loop (sign limit : Z) (found : bool) (result : Z) (pos : chars) : Prelude.result (Z * bool * chars) :=
  match pos with
  | c :: pos' =>
      if is_digit c then
        let digit := Name.code c - 48 in
        _ ← check (negb (signed && (- sign * result <? Z.quot (- sign * limit + digit) 10))) number_out_of_range;
        _ ← check (negb (negb signed && (Z.quot (limit - digit) 10 <? result))) number_out_of_range;
        int_loop sign limit true (as_type (result * 10 + sign * digit)) pos'
      else Ok (result, found, pos)
  | [] => Ok (result, found, pos)
  end.
Definition from_json_int (s : string) : Prelude.result Z :=
  let '(minus, pos) := optional_char "-" (chars_of s) in
  let '(sign, limit, pos) := if signed && minus then (-1, int_min, pos) else (1, int_max, chars_of s) in
  '(result, found, pos) ← int_loop sign limit false 0 pos;
  _ ← check (bool_decide (pos = []) && found) expected_int;
  Ok result.
End integers.

(** ** Lists, optionals, objects *)

Section values.
Context {Rd : Type} `{JsonReader Rd}.
Abbreviation stream := (@json_token_stream Rd).

Section vector.
Context {A : Type} (from_json : stream -> result (stream * A)).
(** [from_json(std::vector<T>&)]; [fuel] is the number of rounds allowed. *)
Fixpoint vector_loop (fuel : nat) (s : stream) (acc : list A) : result (stream * list A) :=
  match fuel with
  | O => Err (Trap "out of fuel")
  | S fuel =>
      '(s, t) ← peek_token s;
      if decide (t = type_end_array) then '(s, _) ← get_end_array s; Ok (s, reverse acc)
      else '(s, a) ← from_json s; vector_loop fuel s (a :: acc)
  end.
Definition vector_from_json (fuel : nat) (s : stream) : result (stream * list A) :=
  '(s, _) ← get_start_array s; vector_loop fuel s [].
Definition optional_from_json (s : stream) : result (stream * option A) :=
  '(s, null) ← get_null_pred s;
  if null : bool then Ok (s, None) else '(s, a) ← from_json s; Ok (s, Some a).
End vector.

(** [from_json_skip_value]: [depth] counts what is open, as 64 bits. *)
Definition depth_after (depth : Z) (t : token) : Z :=
  match t with
  | type_start_object | type_start_array => wrap 64 (depth + 1)
  | type_end_object | type_end_array => wrap 64 (depth - 1)
  | _ => depth
  end.
Fixpoint skip_value_loop (fuel : nat) (depth : Z) (s : stream) : result stream :=
  match fuel with
  | O => Err (Trap "out of fuel")
  | S fuel =>
      '(s, t) ← peek_token s;
      let depth := depth_after depth t in
      let s := eat_token s in
      if depth =? 0 then Ok s else skip_value_loop fuel depth s
  end.
Definition from_json_skip_value (fuel : nat) : stream -> result stream := skip_value_loop fuel 0.

(** [from_json_object] with the fields of a struct: a key that is none of them
    is passed over with its value. *)
Section object.
Context {A : Type} (fields : list (string * (stream -> A -> result (stream * A)))).
Fixpoint object_loop (fuel : nat) (s : stream) (obj : A) : result (stream * A) :=
  match fuel with
  | O => Err (Trap "out of fuel")
  | S fuel' =>
      '(s, t) ← peek_token s;
      if decide (t = type_end_object) then '(s, _) ← get_end_object s; Ok (s, obj)
      else
        '(s, key) ← get_key s;
        '(s, obj) ← match snd <$> List.find (fun f => String.eqb key f.1) fields with
                    | Some member => member s obj
                    | None => s ← from_json_skip_value fuel s; Ok (s, obj)
                    end;
        object_loop fuel' s obj
  end.
Definition object_from_json (fuel : nat) (s : stream) (obj : A) : result (stream * A) :=
  '(s, _) ← get_start_object s; object_loop fuel s obj.
End object.
End values.

(** ** Integers *)

(** The text of a number in decimal. *)
Definition int_chars (neg : bool) (ds : list Z) : chars := (if neg then ["-"%char] else []) ++ (digit <$> ds).
Definition int_value (neg : bool) (ds : list Z) : Z := if neg then - decimal 0 ds else decimal 0 ds.

Lemma split_digits pos : exists ds s, pos = (digit <$> ds) ++ s /\ digits ds /\ no_digit s.
Proof.
  induction pos as [|c pos (ds & s & -> & Hd & Hs)]; [exists [], []; split_and!; constructor|]. destruct (is_digit c) eqn:E.
  - exists (digit_value c :: ds), s. apply is_digit_spec in E. split.
    + cbn [fmap list_fmap app]. f_equal. unfold digit_value, digit. replace (48 + (Name.code c - 48)) with (Name.code c) by lia.
      unfold Name.code. by rewrite N2Z.id, ascii_N_embedding.
    + split; [|done]. constructor; [unfold digit_value; lia|done].
  - exists [], (c :: (digit <$> ds) ++ s). split; [done|]. split; constructor; [done|constructor].
Qed.
Lemma decimal_ge acc ds : 0 <= acc -> digits ds -> acc <= decimal acc ds.
Proof.
  intros Ha Hd. revert acc Ha. induction Hd as [|d ds Hd Hds IH]; intros acc Ha; [cbn; lia|].
  change (decimal acc (d :: ds)) with (decimal (acc * 10 + d) ds). specialize (IH (acc * 10 + d)). lia.
Qed.

Section integers_exact.
Context (signed : bool) (w : Z) (w_size : 8 <= w).
Definition in_range (z : Z) : bool := (int_min signed w <=? z) && (z <=? int_max signed w).
Definition sign_of (neg : bool) : Z := if neg then -1 else 1.

Lemma as_type_range z : in_range z = true -> as_type signed w z = z.
Proof.
  unfold in_range, as_type, int_min, int_max. intros [H1%Z.leb_le H2%Z.leb_le]%andb_true_iff.
  destruct signed; [apply swrap_small; lia|apply wrap_small; lia].
Qed.
(** The overflow checks before a digit is added. *)
Lemma digit_fits neg acc d : (neg = true -> signed = true) -> 0 <= acc -> 0 <= d < 10 ->
  let limit := if neg then int_min signed w else int_max signed w in
  negb (signed && (- sign_of neg * (sign_of neg * acc) <? Z.quot (- sign_of neg * limit + d) 10))
    && negb (negb signed && (Z.quot (limit - d) 10 <? sign_of neg * acc))
  = in_range (sign_of neg * (acc * 10 + d)).
Proof.
  intros Hneg Ha Hd. unfold in_range, int_min, int_max, sign_of.
  assert (2 ^ 7 <= 2 ^ (w - 1)) as Hw1 by (apply Z.pow_le_mono_r; lia).
  assert (2 ^ 8 <= 2 ^ w) as Hw by (apply Z.pow_le_mono_r; lia).
  change (2 ^ 7) with 128 in Hw1. change (2 ^ 8) with 256 in Hw.
  generalize dependent (2 ^ (w - 1)). intros p Hp. generalize dependent (2 ^ w). intros q Hq.
  destruct signed, neg; try (by specialize (Hneg eq_refl)); cbn [negb andb orb];
    rewrite ?andb_true_r; apply eq_true_iff_eq; rewrite ?andb_true_iff, ?negb_true_iff, ?Z.ltb_ge, !Z.leb_le;
    Z.to_euclidean_division_equations; lia.
Qed.
Lemma int_loop_spec neg ds s acc found : (neg = true -> signed = true) -> digits ds -> no_digit s -> 0 <= acc ->
  in_range (sign_of neg * acc) = true ->
  int_loop signed w (sign_of neg) (if neg then int_min signed w else int_max signed w) found (sign_of neg * acc) ((digit <$> ds) ++ s)
  = if in_range (sign_of neg * decimal acc ds) then Ok (sign_of neg * decimal acc ds, found || negb (bool_decide (ds = [])), s)
    else Err (Check number_out_of_range).
Proof.
  intros Hneg Hd Hs. revert acc found. induction Hd as [|d ds Hd Hds IH]; intros acc found Ha Hr.
  - change (decimal acc []) with acc. rewrite Hr, orb_false_r. cbn [fmap list_fmap app].
    destruct s as [|c s]; [done|]. inversion Hs as [|? ? Hc]. cbn [int_loop]. by rewrite Hc.
  - change (decimal acc (d :: ds)) with (decimal (acc * 10 + d) ds). cbn [fmap list_fmap app int_loop].
    rewrite digit_is_digit by done. replace (Name.code (digit d) - 48) with d by (rewrite digit_code by done; lia). cbv zeta.
    pose proof (digit_fits neg acc d Hneg Ha Hd) as Hf. cbv zeta in Hf.
    destruct (in_range (sign_of neg * (acc * 10 + d))) eqn:E.
    + apply andb_true_iff in Hf as [-> ->]. cbn [check mbind result_bind].
      replace (sign_of neg * acc * 10 + sign_of neg * d) with (sign_of neg * (acc * 10 + d)) by lia.
      rewrite as_type_range by done. rewrite (IH (acc * 10 + d) true) by (done || lia).
      by rewrite (bool_decide_eq_false_2 (d :: ds = [])), orb_true_r by done.
    + assert (in_range (sign_of neg * decimal (acc * 10 + d) ds) = false) as ->.
      { pose proof (decimal_ge (acc * 10 + d) ds ltac:(lia) Hds). unfold in_range, sign_of in *.
        apply andb_false_iff in E. apply andb_false_iff. assert (int_min signed w <= 0 <= int_max signed w).
        { unfold int_min, int_max. assert (0 < 2 ^ (w - 1)) by (apply Z.pow_pos_nonneg; lia).
          assert (0 < 2 ^ w) by (apply Z.pow_pos_nonneg; lia). destruct signed; lia. }
        rewrite !Z.leb_gt in *. destruct neg; lia. }
      apply andb_false_iff in Hf as [-> | ->]; [done|]. by destruct (negb (signed && _)).
Qed.

(** C34: An integer type of any width is read from text exactly when the text is
    a decimal number of the type's range - digits, with a minus sign only for
    the signed types - and then its value is read: no number wraps around and
    none is refused. *)
Theorem from_json_int_exact (s : string) (v : Z) :
  from_json_int signed w s = Ok v <->
  exists neg ds, chars_of s = int_chars neg ds /\ digits ds /\ ds <> [] /\ (neg = true -> signed = true) /\
    v = int_value neg ds /\ int_min signed w <= v <= int_max signed w.
Proof.
  assert (forall neg ds, int_value neg ds = sign_of neg * decimal 0 ds) as Hiv by (intros [] ds; unfold int_value, sign_of; lia).
  assert (in_range (sign_of false * 0) = true /\ in_range (sign_of true * 0) = true) as [Hz1 Hz2].
  { unfold in_range, int_min, int_max, sign_of. assert (0 < 2 ^ (w - 1)) by (apply Z.pow_pos_nonneg; lia).
    assert (0 < 2 ^ w) by (apply Z.pow_pos_nonneg; lia). rewrite !andb_true_iff, !Z.leb_le. destruct signed; lia. }
  split.
  - unfold from_json_int. intros Hr.
    assert (exists (neg : bool) (pos : chars), chars_of s = (if neg then ["-"%char] else []) ++ pos /\ (neg = true -> signed = true) /\
      (int_loop signed w (sign_of neg) (if neg then int_min signed w else int_max signed w) false (sign_of neg * 0) pos
       ≫= fun x : Z * bool * chars => _ ← check (bool_decide (x.2 = []) && x.1.2) expected_int; Ok x.1.1) = Ok v) as (neg & pos & Es & Hneg & E).
    { destruct (optional_char "-" (chars_of s)) as [minus pos] eqn:Eo.
      destruct (signed && minus) eqn:Eb.
      2: { exists false, (chars_of s). split; [done|]. split; [done|]. change (sign_of false * 0) with 0.
           cbn [sign_of]. destruct (int_loop _ _ _ _ _ _ _) as [[[r f] p]|e]; exact Hr. }
      apply andb_true_iff in Eb as [-> ->]. exists true, pos. split; [|split; [done|]].
      2: { change (sign_of true * 0) with 0. cbn [sign_of]. destruct (int_loop _ _ _ _ _ _ _) as [[[r f] p]|e]; exact Hr. }
      unfold optional_char in Eo. destruct (chars_of s) as [|c t]; [done|].
      destruct (Ascii.eqb_spec c "-"); [|done]. injection Eo as <-. by subst c. }
    destruct (split_digits pos) as (ds & t & -> & Hd & Ht).
    rewrite (int_loop_spec neg ds t 0 false Hneg Hd Ht) in E by (try done; by destruct neg).
    destruct (in_range (sign_of neg * decimal 0 ds)) eqn:Er; [|done]. cbn [mbind result_bind fst snd] in E. res_inv. rewrite app_nil_r in Es.
    exists neg, ds. rewrite Hiv. split; [done|]. split; [done|]. split; [by intros ->|]. split; [done|]. split; [done|].
    unfold in_range in Er. apply andb_true_iff in Er. rewrite !Z.leb_le in Er. done.
  - intros (neg & ds & Es & Hd & Hne & Hneg & -> & Hr). unfold from_json_int. rewrite Es, Hiv in *.
    assert (in_range (sign_of neg * decimal 0 ds) = true) as Er
      by (unfold in_range; rewrite andb_true_iff, !Z.leb_le; done).
    assert (no_digit []) as Hnil by constructor.
    pose proof (int_loop_spec neg ds [] 0 false Hneg Hd Hnil ltac:(lia) ltac:(by destruct neg)) as Hl.
    rewrite Er, app_nil_r, (bool_decide_eq_false_2 (ds = [])) in Hl by done. unfold int_chars in *.
    destruct neg; cbn [app].
    + rewrite (Hneg eq_refl) in *. change (optional_char "-" ("-"%char :: (digit <$> ds))) with (true, digit <$> ds). cbn [andb].
      change (sign_of true * 0) with 0 in Hl. change (sign_of true) with (-1) in Hl |- *. by rewrite Hl.
    + assert (optional_char "-" (digit <$> ds) = (false, digit <$> ds)) as Ho.
      { destruct ds as [|d ds]; [done|]. inversion Hd as [|? ? Hd1 _]. cbn. destruct (Ascii.eqb_spec (digit d) "-") as [Ed|]; [|done].
        pose proof (digit_code d Hd1) as Hc. rewrite Ed in Hc. change (Name.code "-") with 45 in Hc. lia. }
      rewrite Ho, andb_false_r. change (sign_of false * 0) with 0 in Hl. change (sign_of false) with 1 in Hl |- *. by rewrite Hl.
Qed.
End integers_exact.

Lemma from_json_int_exact_witness :
  from_json_int true 8 "-128" = Ok (-128) /\
  (exists neg ds, chars_of "-128" = int_chars neg ds /\ digits ds /\ ds <> [] /\ (neg = true -> true = true) /\
    -128 = int_value neg ds /\ int_min true 8 <= -128 <= int_max true 8).
Proof. split; [reflexivity|]. apply (from_json_int_exact true 8); [lia|reflexivity]. Defined.
End FromJson.

(** JSON documents as values
    ([libraries/abieos/src/abieos.hpp], lines 93-185 and 540-680): the model of
    JSON that the serializer of ABI types works on, and how the events of the
    parser build it with a stack. *)
Import FromJson.
Open Scope string_scope.
Open Scope list_scope.
Open Scope Z_scope.

Module Jvalue.

(** [jvalue]; a [jobject] is a map: a key occurs once, its place does not matter. *)
Inductive jvalue : Type :=
  | j_null | j_bool (b : bool) | j_string (s : string)
  | j_object (fields : list (string * jvalue)) | j_array (items : list jvalue).

Section jvalue_ind.
Context (P : jvalue -> Prop) (Hn : P j_null) (Hb : forall b, P (j_bool b)) (Hs : forall s, P (j_string s))
  (Ho : forall l, Forall (fun f => P f.2) l -> P (j_object l)) (Ha : forall l, Forall P l -> P (j_array l)).
Fixpoint jvalue_induction (j : jvalue) : P j :=
  match j with
  | j_null => Hn
  | j_bool b => Hb b
  | j_string s => Hs s
  | j_object l =>
      Ho l ((fix go l : Forall (fun f => P f.2) l :=
               match l with
               | [] => Forall_nil_2 _
               | f :: l => Forall_cons_2 _ _ _ (jvalue_induction f.2) (go l)
               end) l)
  | j_array l =>
      Ha l ((fix go l : Forall P l :=
               match l with
               | [] => Forall_nil_2 _
               | j :: l => Forall_cons_2 _ _ _ (jvalue_induction j) (go l)
               end) l)
  end.
End jvalue_ind.

(** [obj.find(key)] and [obj[key] = v] *)
Definition find_key {A} (key : string) (l : list (string * A)) : option A := snd <$> List.find (fun f => String.eqb f.1 key) l.
Fixpoint set_key {A} (key : string) (v : A) (l : list (string * A)) : list (string * A) :=
  match l with
  | [] => [(key, v)]
  | f :: l => if String.eqb f.1 key then (key, v) :: l else f :: set_key key v l
  end.

Definition max_stack_size : nat := 128.

(** ** Building a value from events *)

(** The events are those of the parser's handlers, with their data. *)
Abbreviation event := token (only parsing).

(** [json_to_jvalue_stack_entry]: the value the entry points to, as far as it
    is built; it goes to its place in the entry below when it is complete. *)
Record stack_entry : Type := mk_entry { value : jvalue; key : string }.
(** The stack, the last entry first; where the first entry points to; whether
    an event has come. *)
Record json_to_jvalue_state : Type := mk_state { stack : list stack_entry; document : jvalue; started : bool }.

Definition push (v : jvalue) (st : json_to_jvalue_state) : json_to_jvalue_state :=
  mk_state (mk_entry v "" :: stack st) (document st) (started st).
Definition pop (st : json_to_jvalue_state) : json_to_jvalue_state := mk_state (drop 1 (stack st)) (document st) (started st).
(** The value is complete and in its place. *)
Definition store (v : jvalue) (st : json_to_jvalue_state) : json_to_jvalue_state :=
  match stack st with
  | [] => mk_state [] v (started st)
  | e :: rest =>
      let place :=
        match value e with
        | j_object l => j_object (set_key (key e) v l)
        | j_array l => j_array (l ++ [v])
        | other => other
        end in
      mk_state (mk_entry place (key e) :: rest) (document st) (started st)
  end.

(** [receive_event] with [start]: the event begins the value of the entry at
    the top of the stack. *)
Definition receive_start (st : json_to_jvalue_state) (ev : event) : option json_to_jvalue_state :=
  match stack st with
  | [] => None
  | _ =>
      if Nat.ltb max_stack_size (length (stack st)) then None
      else
        let st := pop st in
        match ev with
        | type_null => Some (store j_null st)
        | type_bool b => Some (store (j_bool b) st)
        | type_string s => Some (store (j_string s) st)
        | type_start_object => Some (push (j_object []) st)
        | type_start_array => Some (push (j_array []) st)
        | _ => None
        end
  end.
(** [json_to_jobject], [json_to_jarray] without [start]. *)
Definition json_to_jobject (st : json_to_jvalue_state) (e : stack_entry) (ev : event) : option json_to_jvalue_state :=
  match ev with
  | type_end_object => Some (store (value e) (pop st))
  | type_key k => Some (mk_state (mk_entry (value e) k :: drop 1 (stack st)) (document st) (started st))
  | _ => receive_start (push j_null st) ev
  end.
Definition json_to_jarray (st : json_to_jvalue_state) (e : stack_entry) (ev : event) : option json_to_jvalue_state :=
  match ev with
  | type_end_array => Some (store (value e) (pop st))
  | _ => receive_start (push j_null st) ev
  end.
(** [receive_event]; [get_start] asks whether this is the first event. *)
Definition receive_event (st : json_to_jvalue_state) (ev : event) : option json_to_jvalue_state :=
  match stack st with
  | [] => None
  | e :: _ =>
      if Nat.ltb max_stack_size (length (stack st)) then None
      else if negb (started st) then receive_start (mk_state (stack st) (document st) true) ev
      else
        match value e with
        | j_object _ => json_to_jobject st e ev
        | j_array _ => json_to_jarray st e ev
        | _ => None
        end
  end.

(** [json_to_jvalue]: the parser calls the handler for every token until the
    document ends or the handler refuses; [fuel] bounds the tokens. *)
Section parse.
Context {Rd : Type} `{JsonReader Rd}.
Definition syntax_error : error := Check "Unspecific syntax error".
Fixpoint parse_loop (fuel : nat) (r : Rd) (st : json_to_jvalue_state) : result json_to_jvalue_state :=
  if parse_complete r then Ok st
  else
    match fuel with
    | O => Err (Trap "out of fuel")
    | S fuel =>
        match parse_next r with
        | Ok (r, t) => match receive_event st t with Some st => parse_loop fuel r st | None => Err syntax_error end
        | Err _ => Err syntax_error
        end
    end.
Definition json_to_jvalue (fuel : nat) (r : Rd) : result jvalue :=
  st ← parse_loop fuel r (mk_state [mk_entry j_null ""] j_null false); Ok (document st).
End parse.

(** ** The tokens of a value *)

Fixpoint tokens (j : jvalue) : list token :=
  match j with
  | j_null => [type_null]
  | j_bool b => [type_bool b]
  | j_string s => [type_string s]
  | j_object l =>
      type_start_object :: (fix go l := match l with [] => [] | f :: l => type_key f.1 :: tokens f.2 ++ go l end) l ++ [type_end_object]
  | j_array l => type_start_array :: (fix go l := match l with [] => [] | j :: l => tokens j ++ go l end) l ++ [type_end_array]
  end.
Definition field_tokens (l : list (string * jvalue)) : list token := flat_map (fun f => type_key f.1 :: tokens f.2) l.
Lemma tokens_object l : tokens (j_object l) = type_start_object :: field_tokens l ++ [type_end_object].
Proof. reflexivity. Qed.
Lemma tokens_array l : tokens (j_array l) = type_start_array :: flat_map tokens l ++ [type_end_array].
Proof. reflexivity. Qed.

(** Levels of nesting; the entries of the stack a value needs. *)
Fixpoint depth (j : jvalue) : nat :=
  match j with
  | j_object l => S ((fix go l := match l with [] => 0 | f :: l => Nat.max (depth f.2) (go l) end) l)%nat
  | j_array l => S ((fix go l := match l with [] => 0 | j :: l => Nat.max (depth j) (go l) end) l)%nat
  | _ => 1%nat
  end.
Lemma depth_pos j : (0 < depth j)%nat.
Proof. destruct j; cbn; lia. Qed.
Lemma depth_object l n : (depth (j_object l) <= S n)%nat <-> Forall (fun f => (depth f.2 <= n)%nat) l.
Proof.
  cbn. rewrite <- Nat.succ_le_mono. induction l as [|f l IH]; [split; [constructor|lia]|].
  rewrite Forall_cons, <- IH. lia.
Qed.
Lemma depth_array l n : (depth (j_array l) <= S n)%nat <-> Forall (fun j => (depth j <= n)%nat) l.
Proof.
  cbn. rewrite <- Nat.succ_le_mono. induction l as [|f l IH]; [split; [constructor|lia]|].
  rewrite Forall_cons, <- IH. lia.
Qed.
(** Objects name a key once. *)
Inductive distinct : jvalue -> Prop :=
  | distinct_null : distinct j_null
  | distinct_bool b : distinct (j_bool b)
  | distinct_string s : distinct (j_string s)
  | distinct_object l : NoDup l.*1 -> Forall (fun f => distinct f.2) l -> distinct (j_object l)
  | distinct_array l : Forall distinct l -> distinct (j_array l).
(** ** A value is built from its tokens *)

Fixpoint feed (st : json_to_jvalue_state) (ts : list token) : option json_to_jvalue_state :=
  match ts with [] => Some st | t :: ts => st ← receive_event st t; feed st ts end.
Lemma feed_app st ts ts' : feed st (ts ++ ts') = (st ← feed st ts; feed st ts').
Proof. revert st. induction ts as [|t ts IH]; intros st; [done|]. cbn. by destruct (receive_event st t); cbn. Qed.

Lemma set_key_new {A} k (v : A) l : k ∉ l.*1 -> set_key k v l = l ++ [(k, v)].
Proof.
  induction l as [|[k' v'] l IH]; cbn; intros Hk; [done|]. apply not_elem_of_cons in Hk as [Hne Hk].
  destruct (String.eqb_spec k' k); [congruence|]. by rewrite IH.
Qed.

(** The value at the top of the stack is begun and finished. *)
Definition begins (j : jvalue) : Prop := forall st, started st = true -> (length (stack st) + depth j <= max_stack_size)%nat ->
  exists t ts st', tokens j = t :: ts /\ (forall k, t <> type_key k) /\ t <> type_end_object /\ t <> type_end_array /\
    receive_start (push j_null st) t = Some st' /\ feed st' ts = Some (store j st).

Lemma receive_start_push st t : (length (stack st) < max_stack_size)%nat ->
  receive_start (push j_null st) t =
  match t with
  | type_null => Some (store j_null st)
  | type_bool b => Some (store (j_bool b) st)
  | type_string s => Some (store (j_string s) st)
  | type_start_object => Some (push (j_object []) st)
  | type_start_array => Some (push (j_array []) st)
  | _ => None
  end.
Proof.
  intros Hl. unfold receive_start. cbn [push stack length]. rewrite (proj2 (Nat.ltb_ge _ _)) by lia.
  destruct st as [s d b]. by destruct t.
Qed.
(** One event inside an object or an array. *)
Lemma receive_event_in st e rest t : started st = true -> stack st = e :: rest -> (length (stack st) <= max_stack_size)%nat ->
  receive_event st t = match value e with j_object _ => json_to_jobject st e t | j_array _ => json_to_jarray st e t | _ => None end.
Proof.
  intros Hs He Hl. unfold receive_event. rewrite He in *. rewrite (proj2 (Nat.ltb_ge _ _)) by exact Hl. by rewrite Hs.
Qed.

Lemma feed_fields rest doc l acc k : Forall (fun f => begins f.2) l -> NoDup (acc.*1 ++ l.*1) ->
  Forall (fun f => (S (length rest) + depth f.2 <= max_stack_size)%nat) l -> (S (length rest) <= max_stack_size)%nat ->
  feed (mk_state (mk_entry (j_object acc) k :: rest) doc true) (field_tokens l ++ [type_end_object])
  = Some (store (j_object (acc ++ l)) (mk_state rest doc true)).
Proof.
  intros Hb. revert acc k. induction Hb as [|[key v] l Hv Hb IH]; intros acc k Hn Hd Hr.
  - rewrite app_nil_r. cbn [field_tokens flat_map app feed]. erewrite receive_event_in by (reflexivity || exact Hr). done.
  - apply Forall_cons in Hd as [Hdv Hd]. cbn [fst snd] in *.
    destruct (Hv (mk_state (mk_entry (j_object acc) key :: rest) doc true) eq_refl Hdv)
      as (t & ts & st' & Et & Hk & Ho & Ha & Hst & Hf). cbn [fst snd] in Et.
    change (field_tokens ((key, v) :: l)) with (type_key key :: tokens v ++ field_tokens l). rewrite Et.
    cbn [app feed]. erewrite receive_event_in by (reflexivity || exact Hr). cbn [value json_to_jobject mbind option_bind stack drop document started].
    rewrite drop_0. erewrite receive_event_in by (reflexivity || exact Hr). cbn [value].
    assert (json_to_jobject (mk_state (mk_entry (j_object acc) key :: rest) doc true) (mk_entry (j_object acc) key) t = Some st') as ->.
    { destruct t; try done. by specialize (Hk key0). }
    cbn [mbind option_bind]. rewrite <- app_assoc, feed_app, Hf. cbn [mbind option_bind store stack value].
    rewrite fmap_cons in Hn. cbn [fst] in Hn. cbn [Jvalue.key document started]. rewrite set_key_new.
    2: { intros Hin. apply NoDup_app in Hn as (_ & Hx & _). by apply (Hx key Hin); left. }
    rewrite (IH (acc ++ [(key, v)])); [by rewrite <- app_assoc| |done|done].
    rewrite fmap_app. by rewrite <- app_assoc.
Qed.
Lemma feed_items rest doc l acc k : Forall begins l ->
  Forall (fun j => (S (length rest) + depth j <= max_stack_size)%nat) l -> (S (length rest) <= max_stack_size)%nat ->
  feed (mk_state (mk_entry (j_array acc) k :: rest) doc true) (flat_map tokens l ++ [type_end_array])
  = Some (store (j_array (acc ++ l)) (mk_state rest doc true)).
Proof.
  intros Hb. revert acc. induction Hb as [|v l Hv Hb IH]; intros acc Hd Hr.
  - rewrite app_nil_r. cbn [flat_map app feed]. erewrite receive_event_in by (reflexivity || exact Hr). done.
  - apply Forall_cons in Hd as [Hdv Hd].
    destruct (Hv (mk_state (mk_entry (j_array acc) k :: rest) doc true) eq_refl Hdv)
      as (t & ts & st' & Et & Hk & Ho & Ha & Hst & Hf).
    cbn [flat_map]. rewrite Et. cbn [app feed]. erewrite receive_event_in by (reflexivity || exact Hr). cbn [value].
    assert (json_to_jarray (mk_state (mk_entry (j_array acc) k :: rest) doc true) (mk_entry (j_array acc) k) t = Some st') as ->
      by (by destruct t).
    cbn [mbind option_bind]. rewrite <- app_assoc, feed_app, Hf. cbn [mbind option_bind store stack value key document started].
    rewrite (IH (acc ++ [v])); [by rewrite <- app_assoc|done|done].
Qed.
Lemma begins_all j : distinct j -> begins j.
Proof.
  induction j as [|b|s|l IH|l IH] using jvalue_induction; intros Hj st Hs Hd.
  1-3: eexists _, [], _; split; [reflexivity|]; split_and!; [done..| |reflexivity]; rewrite receive_start_push by (cbn [depth] in Hd; lia); reflexivity.
  - inversion Hj as [| | |? Hn Hdist|]; subst. eexists _, _, _. split; [apply tokens_object|]. split_and!; [done..| |].
    + rewrite receive_start_push by (cbn [depth] in Hd; lia). reflexivity.
    + destruct st as [rest doc b]. cbn in Hs. subst b. apply (feed_fields rest doc l []); [|done| |cbn [depth stack] in Hd |- *; lia].
      * apply Forall_forall. intros f Hf. rewrite Forall_forall in IH, Hdist. by apply IH, Hdist.
      * cbn [stack] in Hd. pose proof (depth_pos (j_object l)).
        destruct (max_stack_size - length rest)%nat as [|n] eqn:En; [lia|].
        apply Forall_impl with (fun f : string * jvalue => (depth f.2 <= n)%nat); [apply depth_object; lia|]. intros f Hf. cbn. lia.
  - inversion Hj as [| | | |? Hdist]; subst. eexists _, _, _. split; [apply tokens_array|]. split_and!; [done..| |].
    + rewrite receive_start_push by (cbn [depth] in Hd; lia). reflexivity.
    + destruct st as [rest doc b]. cbn in Hs. subst b. apply (feed_items rest doc l []); [| |cbn [depth stack] in Hd |- *; lia].
      * apply Forall_forall. intros f Hf. rewrite Forall_forall in IH, Hdist. by apply IH, Hdist.
      * cbn [stack] in Hd. pose proof (depth_pos (j_array l)).
        destruct (max_stack_size - length rest)%nat as [|n] eqn:En; [lia|].
        apply Forall_impl with (fun f => (depth f <= n)%nat); [apply depth_array; lia|]. intros f Hf. cbn. lia.
Qed.

Lemma parse_loop_feed {Rd} `{JsonReader Rd} r ts st st' fuel : delivers r ts -> feed st ts = Some st' ->
  (length ts <= fuel)%nat -> parse_loop fuel r st = Ok st'.
Proof.
  intros Hr. revert st fuel. induction Hr as [r Hc|r r' t ts Hc Hn Hr IH]; intros st fuel Hf Hl.
  - injection Hf as <-. destruct fuel; cbn [parse_loop]; by rewrite Hc.
  - destruct fuel as [|fuel]; [cbn in Hl; lia|]. cbn [parse_loop]. rewrite Hc, Hn. cbn in Hf.
    destruct (receive_event st t) as [st1|]; [|done]. apply IH; [done|cbn in Hl; lia].
Qed.
(** A document whose values nest at most 128 deep is read as the value it
    writes. *)
Lemma json_to_jvalue_reads {Rd} `{JsonReader Rd} r j fuel :
  delivers r (tokens j) -> distinct j -> (depth j <= max_stack_size)%nat -> (length (tokens j) <= fuel)%nat ->
  json_to_jvalue fuel r = Ok j.
Proof.
  intros Hr Hj Hd Hf. unfold json_to_jvalue.
  destruct (begins_all j Hj (mk_state [] j_null true) eq_refl Hd) as (t & ts & st' & Et & _ & _ & _ & Hs & Hfeed).
  rewrite (parse_loop_feed r (tokens j) _ (mk_state [] j true) fuel Hr); [done| |done].
  rewrite Et. cbn [feed]. unfold receive_event. cbn [stack length]. rewrite (proj2 (Nat.ltb_ge _ _)) by (unfold max_stack_size; lia).
  cbn [started negb document]. change (mk_state [mk_entry j_null ""] j_null true) with (push j_null (mk_state [] j_null true)).
  rewrite Hs. exact Hfeed.
Qed.
End Jvalue.
