(* ===== verification/AbiDef.v ===== *)
(** The types of an ABI
    ([libraries/abieos/include/eosio/abi.hpp], [libraries/abieos/src/abi.cpp]):
    how the definitions an ABI lists become types that refer to each other.
    A type is named by its key in [abi_types]; a pointer to a type is that
    name, since the nodes of the map stay where they are.  The module AbiWf shows
    what the types are that come out, and that the conversion ends. *)
From S2P Require Import Prelude Text.
From Stdlib Require Import Ascii OrdersEx.
From Stdlib Require String.
Import Text.
Open Scope string_scope.
Open Scope list_scope.
Open Scope Z_scope.

Module AbiDef.

(** ** Errors *)

Definition recursion_limit_reached : string := "Recursion limit reached".
Definition invalid_nesting : string := "Invalid nesting".
Definition unknown_type : string := "Unknown type".
Definition missing_name : string := "Missing name".
Definition redefined_type : string := "Redefined type".
Definition base_not_a_struct : string := "Base not a struct".
Definition extension_typedef : string := "Extension typedef".

(** ** What an ABI lists *)

Record type_def : Type := mk_type_def { new_type_name : string; type_of : string }.
Record field_def : Type := mk_field_def { field_def_name : string; field_def_type : string }.
Record struct_def : Type := mk_struct_def { struct_name : string; struct_base : string; struct_fields : list field_def }.
Record variant_def : Type := mk_variant_def { variant_name : string; variant_types : list string }.
(** Actions and tables with the names of their types; the texts for people and
    the extensions are of no consequence here. *)
Record abi_def : Type := mk_abi_def {
  types : list type_def; structs : list struct_def; actions : list (Z * string); tables : list (Z * string);
  variants : list variant_def }.

(** ** Types *)

Record abi_field : Type := mk_field { field_name : string; field_type : string }.
(** [abi_type::_data]: a definition that is not resolved yet, or a type. *)
Inductive abi_data : Type :=
  | builtin
  | alias_def (type : string) | of_struct (d : struct_def) | of_variant (d : variant_def)
  | alias (type : string) | optional (type : string) | extension (type : string) | array (type : string)
  | struct_ (base : option string) (fields : list abi_field)
  | variant (fields : list abi_field).
Abbreviation abi_types := (gmap string abi_data).
Record abi : Type := mk_abi { action_types : gmap Z string; table_types : gmap Z string; types_of : abi_types }.

Definition optional_of (d : abi_data) : option string := match d with optional t => Some t | _ => None end.
Definition extension_of (d : abi_data) : option string := match d with extension t => Some t | _ => None end.
Definition array_of (d : abi_data) : option string := match d with array t => Some t | _ => None end.
Definition as_struct (d : abi_data) : option (list abi_field) := match d with struct_ _ l => Some l | _ => None end.
Definition as_variant (d : abi_data) : option (list abi_field) := match d with variant l => Some l | _ => None end.

(** ** Resolving names *)

(** [ends_with] and [substr]: the name without the suffix, if it has it. *)
Definition strip (suffix name : string) : option string :=
  let s := chars_of name in
  let n := (length s - String.length suffix)%nat in
  if Nat.leb (String.length suffix) (length s) && bool_decide (drop n s = chars_of suffix)
  then Some (string_of (take n s)) else None.

Definition deref (types : abi_types) (t : string) : result abi_data := some_or (Trap "dangling pointer") (types !! t).
(** [try_emplace] *)
Definition try_emplace (name : string) (d : abi_data) (types : abi_types) : abi_types :=
  match types !! name with Some _ => types | None => <[name := d]> types end.
Definition nests (d : abi_data) : bool := match d with optional _ | array _ | extension _ => true | _ => false end.

(** [get_type]; [levels] is what is left of 32. *)
Fixpoint get_type (levels : nat) (types : abi_types) (name : string) : result (abi_types * string) :=
  match levels with
  | O => Err (Check recursion_limit_reached)
  | S levels =>
      match types !! name with
      | None =>
          match strip "?" name, strip "[]" name, strip "$" name with
          | Some b, _, _ =>
              '(types, base) ← get_type levels types b;
              d ← deref types base;
              _ ← check (negb (nests d)) invalid_nesting;
              Ok (try_emplace name (optional base) types, name)
          | None, Some b, _ =>
              '(types, element) ← get_type levels types b;
              d ← deref types element;
              _ ← check (negb (nests d)) invalid_nesting;
              Ok (try_emplace name (array element) types, name)
          | None, None, Some b =>
              '(types, base) ← get_type levels types b;
              d ← deref types base;
              _ ← check (bool_decide (extension_of d = None)) invalid_nesting;
              Ok (try_emplace name (extension base) types, name)
          | None, None, None => Err (Check unknown_type)
          end
      | Some (alias t) => Ok (types, t)
      | Some (alias_def t) =>
          '(types, base) ← get_type levels types t;
          d ← deref types base;
          _ ← check (bool_decide (extension_of d = None)) extension_typedef;
          Ok (<[name := alias base]> types, base)
      | Some _ => Ok (types, name)
      end
  end.

(** [resolve] for an alias, with the same levels as [get_type]'s branch. *)
Definition resolve_alias (levels : nat) (types : abi_types) (t : string) : result (abi_types * abi_data) :=
  '(types, base) ← get_type levels types t;
  d ← deref types base;
  _ ← check (bool_decide (extension_of d = None)) extension_typedef;
  Ok (types, alias base).
Definition resolve_field (levels : nat) (s : abi_types * list abi_field) (f : field_def) : result (abi_types * list abi_field) :=
  '(types, t) ← get_type levels s.1 (field_def_type f);
  Ok (types, s.2 ++ [mk_field (field_def_name f) t]).
(** [resolve] for a struct; a base that is a struct still to be resolved is
    resolved first. *)
Fixpoint resolve_struct (levels : nat) (types : abi_types) (d : struct_def) : result (abi_types * list abi_field) :=
  match levels with
  | O => Err (Check recursion_limit_reached)
  | S levels =>
      '(types, fields) ←
        (if decide (struct_base d = "") then Ok (types, [])
         else
           '(types, base) ← get_type levels types (struct_base d);
           data ← deref types base;
           types ← match data with
                   | of_struct base_def =>
                       '(types, fields) ← resolve_struct levels types base_def;
                       Ok (<[base := struct_ None fields]> types)
                   | _ => Ok types
                   end;
           data ← deref types base;
           fields ← some_or (Check base_not_a_struct) (as_struct data);
           Ok (types, fields));
      foldM (resolve_field levels) (struct_fields d) (types, fields)
  end.
Definition resolve_variant (levels : nat) (types : abi_types) (d : variant_def) : result (abi_types * list abi_field) :=
  match levels with
  | O => Err (Check recursion_limit_reached)
  | S levels => foldM (resolve_field levels) ((fun t => mk_field_def t t) <$> variant_types d) (types, [])
  end.

(** ** An ABI from its definitions *)

(** [fill] *)
Definition fill (types : abi_types) (name : string) : result abi_types :=
  match types !! name with
  | Some (alias_def t) => '(types, d) ← resolve_alias 31 types t; Ok (<[name := d]> types)
  | Some (of_struct d) => '(types, fields) ← resolve_struct 32 types d; Ok (<[name := struct_ None fields]> types)
  | Some (of_variant d) => '(types, fields) ← resolve_variant 32 types d; Ok (<[name := variant fields]> types)
  | _ => Ok types
  end.

(** The order of [std::map<std::string, _>]: the keys after one, the least first. *)
Definition before (a b : string) : bool := match String_as_OT.compare a b with Lt => true | _ => false end.
Definition least (l : list string) : option string :=
  foldr (fun k m => match m with Some m => Some (if before k m then k else m) | None => Some k end) None l.
Definition after (last : option string) (k : string) : bool := match last with Some l => before l k | None => true end.
Definition next_key (types : abi_types) (last : option string) : option string :=
  least (filter (fun k => after last k = true) (map_to_list types).*1).
(** [for (auto& [_, t] : c.abi_types) fill(c.abi_types, t, 0)]: the types that
    are added on the way are met when their names come after.  [fuel] bounds
    the rounds. *)
Fixpoint fill_loop (fuel : nat) (last : option string) (types : abi_types) : result abi_types :=
  match next_key types last with
  | None => Ok types
  | Some k =>
      match fuel with
      | O => Err (Trap "out of fuel")
      | S fuel => types ← fill types k; fill_loop fuel (Some k) types
      end
  end.

(** [for_each_abi_type] *)
Definition builtin_names : list string :=
  ["bool"; "int8"; "uint8"; "int16"; "uint16"; "int32"; "uint32"; "int64"; "uint64"; "int128"; "uint128"; "varuint32";
   "varint32"; "float32"; "float64"; "float128"; "time_point"; "time_point_sec"; "block_timestamp_type"; "name"; "bytes";
   "string"; "checksum160"; "checksum256"; "checksum512"; "public_key"; "private_key"; "signature"; "symbol";
   "symbol_code"; "asset"].
Definition define (types : abi_types) (x : string * abi_data) : result abi_types :=
  _ ← check (bool_decide (x.1 <> "")) missing_name;
  _ ← check (bool_decide (types !! x.1 = None)) redefined_type;
  Ok (<[x.1 := x.2]> types).
Definition definitions (def : abi_def) : list (string * abi_data) :=
  ((fun t => (new_type_name t, alias_def (type_of t))) <$> types def)
    ++ ((fun d => (struct_name d, of_struct d)) <$> structs def)
    ++ ((fun d => (variant_name d, of_variant d)) <$> variants def).
Definition builtin_types : abi_types :=
  <["extended_asset" := struct_ None [mk_field "quantity" "asset"; mk_field "contract" "name"]]>
    (list_to_map ((fun n => (n, builtin)) <$> builtin_names)).
(** [convert(const abi_def&, abi&)] *)
Definition convert (fuel : nat) (def : abi_def) : result abi :=
  types ← foldM define (definitions def) builtin_types;
  types ← fill_loop fuel None types;
  Ok (mk_abi (list_to_map (reverse (actions def))) (list_to_map (reverse (tables def))) types).
End AbiDef.

(** The types of an ABI are well formed
    ([libraries/abieos/src/abi.cpp]): after the conversion every type is
    resolved, every pointer is to a type, optionals, lists and extensions nest
    as they may, and a struct has the fields of its base before its own; and
    the conversion ends, with a type table or with one of its messages. *)
Import Text AbiDef.
Open Scope string_scope.
Open Scope list_scope.
Open Scope Z_scope.

Module AbiWf.

Inductive kind : Type := k_alias | k_optional | k_array | k_extension | k_builtin | k_struct | k_variant.
Definition kind_of (d : abi_data) : kind :=
  match d with
  | alias_def _ | alias _ => k_alias
  | optional _ => k_optional | array _ => k_array | extension _ => k_extension
  | builtin => k_builtin
  | of_struct _ | struct_ _ _ => k_struct
  | of_variant _ | variant _ => k_variant
  end.
Definition resolved (d : abi_data) : Prop :=
  match d with alias_def _ | of_struct _ | of_variant _ => False | _ => True end.

Implicit Types (types : abi_types) (d : abi_data) (name t : string).

(** A pointer to a type of some kind. *)
Definition refers types t (P : kind -> Prop) : Prop := exists d, types !! t = Some d /\ P (kind_of d).
Definition not_alias (k : kind) : Prop := k <> k_alias.
Definition typedef_target (k : kind) : Prop := k <> k_alias /\ k <> k_extension.
Definition innermost (k : kind) : Prop := k = k_builtin \/ k = k_struct \/ k = k_variant.
Definition wf_data types d : Prop :=
  match d with
  | alias t | extension t => refers types t typedef_target
  | optional t | array t => refers types t innermost
  | struct_ _ l | variant l => Forall (fun f => refers types (field_type f) not_alias) l
  | _ => True
  end.
Definition wf types : Prop := forall k d, types !! k = Some d -> wf_data types d.

#[export] Instance refers_dec types t P : (forall k, Decision (P k)) -> Decision (refers types t P).
Proof.
  intros Hk. unfold refers. destruct (types !! t) as [d|] eqn:E; [|right; by intros (d & ? & _)].
  destruct (Hk (kind_of d)) as [Hd|Hd]; [left; by exists d|right]. by intros (d' & [= <-] & Hd').
Defined.
#[export] Instance kind_eq_dec : EqDecision kind.
Proof. solve_decision. Defined.
#[export] Instance not_alias_dec k : Decision (not_alias k).
Proof. unfold not_alias. apply _. Defined.
#[export] Instance typedef_target_dec k : Decision (typedef_target k).
Proof. unfold typedef_target. apply _. Defined.
#[export] Instance innermost_dec k : Decision (innermost k).
Proof. unfold innermost. apply _. Defined.
#[export] Instance wf_data_dec types d : Decision (wf_data types d).
Proof. destruct d; apply _. Defined.
Definition wf_check types : bool := bool_decide (map_Forall (fun _ d => wf_data types d) types).
Lemma wf_check_sound types : wf_check types = true -> wf types.
Proof. intros Hc%bool_decide_eq_true k d Hd. exact (Hc k d Hd). Qed.

(** What a name means: the type, or the type it is an alias of. *)
Definition denotes types name t : Prop :=
  types !! name = Some (alias t) \/ name = t /\ refers types t not_alias.

(** Types are added and resolved, and nothing else changes. *)
Record grows types types' : Prop := {
  grows_keeps : forall k d, types !! k = Some d -> resolved d -> types' !! k = Some d;
  grows_kind : forall k d, types !! k = Some d -> exists d', types' !! k = Some d' /\ kind_of d' = kind_of d;
  grows_old : forall k d, types' !! k = Some d -> ~ resolved d -> types !! k = Some d
}.

Lemma grows_refl types : grows types types.
Proof. split; eauto. Qed.
Lemma grows_trans a b c : grows a b -> grows b c -> grows a c.
Proof.
  intros [K1 D1 O1] [K2 D2 O2]. split.
  - eauto.
  - intros k d Hd. destruct (D1 k d Hd) as (d' & Hd' & E). destruct (D2 k d' Hd') as (d2 & Hd2 & E2). exists d2. split; [done|congruence].
  - eauto.
Qed.
Lemma refers_grows types types' t P : grows types types' -> refers types t P -> refers types' t P.
Proof. intros Hg (d & Hd & HP). destruct (grows_kind _ _ Hg t d Hd) as (d' & Hd' & E). exists d'. by rewrite E. Qed.
Lemma wf_data_grows types types' d : grows types types' -> wf_data types d -> wf_data types' d.
Proof.
  intros Hg. destruct d; cbn; try done; try (by apply refers_grows);
    intros Hl; eapply Forall_impl; [exact Hl| |exact Hl|]; intros f; by apply refers_grows.
Qed.
Lemma denotes_grows types types' name t : grows types types' -> denotes types name t -> denotes types' name t.
Proof.
  intros Hg [Ha|[-> Hr]]; [left; by apply (grows_keeps _ _ Hg)|right; split; [done|by eapply refers_grows]].
Qed.
Lemma denotes_refers types name t : wf types -> denotes types name t -> refers types t not_alias.
Proof. intros Hw [Ha|[-> Hr]]; [|done]. destruct (Hw _ _ Ha) as (d & Hd & Hk & _). by exists d. Qed.
Lemma denotes_inj types name t t' : denotes types name t -> denotes types name t' -> t = t'.
Proof. intros [Ha|[-> (d & Hd & Hk)]] [Hb|[<- (d' & Hd' & Hk')]]; try congruence; simplify_eq; by destruct Hk || by destruct Hk'. Qed.

(** A new type, or the resolution of an old one. *)
Lemma grows_insert types k d : resolved d ->
  match types !! k with Some d0 => d0 = d \/ ~ resolved d0 /\ kind_of d = kind_of d0 | None => True end ->
  grows types (<[k := d]> types).
Proof.
  intros Hr Hk. split.
  - intros j dj Hj Hrj. destruct (decide (j = k)) as [->|Hne]; [|by rewrite lookup_insert_ne].
    rewrite Hj in Hk. rewrite lookup_insert_eq. destruct Hk as [->|[Hn _]]; done.
  - intros j dj Hj. destruct (decide (j = k)) as [->|Hne]; [|exists dj; by rewrite lookup_insert_ne].
    rewrite Hj in Hk. exists d. rewrite lookup_insert_eq. split; [done|]. destruct Hk as [->|[_ E]]; done.
  - intros j dj Hj Hrj. apply lookup_insert_Some in Hj as [[<- <-]|[_ Hj]]; done.
Qed.
Lemma wf_insert types k d : wf types -> grows types (<[k := d]> types) -> wf_data types d -> wf (<[k := d]> types).
Proof.
  intros Hw Hg Hd j dj Hj. eapply wf_data_grows; [exact Hg|].
  apply lookup_insert_Some in Hj as [[<- <-]|[_ Hj]]; [done|by eapply Hw].
Qed.

Section meaning.
(** What the ABI defines: the targets of aliases, the structs, the variants. *)
Context (aliases : gmap string string) (struct_defs : gmap string struct_def) (variant_defs : gmap string variant_def).

Definition field_means types (fd : field_def) (f : abi_field) : Prop :=
  field_name f = field_def_name fd /\ denotes types (field_def_type fd) (field_type f).
(** The fields of a struct: those of its base, whose base comes first, and its
    own. *)
Inductive fields_of types : struct_def -> list abi_field -> Prop :=
  | fields_own s own : struct_base s = "" -> Forall2 (field_means types) (struct_fields s) own -> fields_of types s own
  | fields_derived s b e inherited own : struct_base s <> "" -> denotes types (struct_base s) b ->
      struct_defs !! b = Some e -> fields_of types e inherited ->
      Forall2 (field_means types) (struct_fields s) own -> fields_of types s (inherited ++ own)
  | fields_builtin s b o inherited own : struct_base s <> "" -> denotes types (struct_base s) b ->
      struct_defs !! b = None -> types !! b = Some (struct_ o inherited) ->
      Forall2 (field_means types) (struct_fields s) own -> fields_of types s (inherited ++ own).

(** The alternatives of a variant, each under the name it is listed by. *)
Definition alternatives_of types (v : variant_def) (l : list abi_field) : Prop :=
  Forall2 (field_means types) ((fun t => mk_field_def t t) <$> variant_types v) l.

Record inv types : Prop := {
  inv_wf : wf types;
  inv_alias_def k t : types !! k = Some (alias_def t) -> aliases !! k = Some t;
  inv_alias k b : types !! k = Some (alias b) -> exists t, aliases !! k = Some t /\ denotes types t b;
  inv_struct_def k s : types !! k = Some (of_struct s) -> struct_defs !! k = Some s;
  inv_struct k o l : types !! k = Some (struct_ o l) ->
    o = None /\ match struct_defs !! k with Some s => fields_of types s l | None => True end;
  inv_variant_def k v : types !! k = Some (of_variant v) -> variant_defs !! k = Some v;
  inv_variant k l : types !! k = Some (variant l) ->
    match variant_defs !! k with Some v => alternatives_of types v l | None => True end
}.

Lemma field_means_grows types types' fds own : grows types types' ->
  Forall2 (field_means types) fds own -> Forall2 (field_means types') fds own.
Proof. intros Hg Hl. eapply Forall2_impl; [exact Hl|]. intros fd f [Hn Ht]. split; [done|by eapply denotes_grows]. Qed.
Lemma fields_of_grows types types' s l : grows types types' -> fields_of types s l -> fields_of types' s l.
Proof.
  intros Hg. induction 1 as [s own Hb Ho|s b e inh own Hb Hd He Hf IH Ho|s b o inh own Hb Hd He Ht Ho].
  - apply fields_own; [done|by eapply field_means_grows].
  - eapply fields_derived; [done|by eapply denotes_grows|done|done|by eapply field_means_grows].
  - eapply fields_builtin; [done|by eapply denotes_grows|done| |by eapply field_means_grows]. by apply (grows_keeps _ _ Hg).
Qed.
Lemma field_means_inj types fds own own' : Forall2 (field_means types) fds own -> Forall2 (field_means types) fds own' -> own = own'.
Proof.
  intros H1. revert own'. induction H1 as [|fd f fds own [Hn Ht] Hl IH]; intros own' H2; inversion H2 as [|? f' ? own2 [Hn' Ht'] Hl']; subst; [done|].
  f_equal; [|by apply IH]. destruct f, f'; cbn in *. f_equal; [congruence|by eapply denotes_inj].
Qed.
Lemma fields_of_inj types s l l' : fields_of types s l -> fields_of types s l' -> l = l'.
Proof.
  intros H1. revert l'. induction H1 as [s own Hb Ho|s b e inh own Hb Hd He Hf IH Ho|s b o inh own Hb Hd He Ht Ho]; intros l' H2.
  - inversion H2; subst; try congruence. by eapply field_means_inj.
  - inversion H2 as [|? b' e' inh' own' _ Hd' He' Hf' Ho'|? b' ? ? ? _ Hd' He']; subst; [congruence| |];
      assert (b' = b) as -> by (by eapply denotes_inj); [|congruence].
    simplify_eq. f_equal; [by apply IH|by eapply field_means_inj].
  - inversion H2 as [|? b' e' ? ? _ Hd' He'|? b' o' inh' own' _ Hd' He' Ht' Ho']; subst; [congruence| |];
      assert (b' = b) as -> by (by eapply denotes_inj); [congruence|].
    rewrite Ht in Ht'. injection Ht' as <- <-. f_equal. by eapply field_means_inj.
Qed.

(** What a type must be to take its place at a name. *)
Definition fits types k d : Prop :=
  wf_data types d /\
  match d with
  | alias b => exists t, aliases !! k = Some t /\ denotes types t b
  | struct_ o l => o = None /\ match struct_defs !! k with Some s => fields_of types s l | None => True end
  | variant l => match variant_defs !! k with Some v => alternatives_of types v l | None => True end
  | _ => resolved d
  end.
Lemma inv_insert types k d : inv types -> fits types k d ->
  match types !! k with Some d0 => d0 = d \/ ~ resolved d0 /\ kind_of d = kind_of d0 | None => True end ->
  inv (<[k := d]> types) /\ grows types (<[k := d]> types).
Proof.
  intros Hi [Hw Hm] Hk. assert (resolved d) as Hr by (by destruct d).
  pose proof (grows_insert types k d Hr Hk) as Hg. split; [|done]. split.
  - apply wf_insert; [apply Hi|done|done].
  - intros j t Hj. apply lookup_insert_Some in Hj as [[<- ->]|[_ Hj]]; [done|by apply Hi].
  - intros j b Hj. apply lookup_insert_Some in Hj as [[<- ->]|[_ Hj]].
    + destruct Hm as (t & Ht & Hd). exists t. split; [done|by eapply denotes_grows].
    + destruct (inv_alias _ Hi j b Hj) as (t & Ht & Hd). exists t. split; [done|by eapply denotes_grows].
  - intros j t Hj. apply lookup_insert_Some in Hj as [[<- ->]|[_ Hj]]; [done|by apply Hi].
  - intros j o l Hj. apply lookup_insert_Some in Hj as [[<- ->]|[_ Hj]].
    + destruct Hm as [-> Hm]. split; [done|]. destruct (struct_defs !! k); [by eapply fields_of_grows|done].
    + destruct (inv_struct _ Hi j o l Hj) as [-> Hs]. split; [done|]. destruct (struct_defs !! j); [by eapply fields_of_grows|done].
  - intros j t Hj. apply lookup_insert_Some in Hj as [[<- ->]|[_ Hj]]; [done|by apply Hi].
  - intros j l Hj. apply lookup_insert_Some in Hj as [[<- ->]|[_ Hj]].
    + destruct (variant_defs !! k); [by eapply field_means_grows|done].
    + pose proof (inv_variant _ Hi j l Hj) as Hs. destruct (variant_defs !! j); [by eapply field_means_grows|done].
Qed.

(** [get_type] touches aliases only, and adds what its suffixes make. *)
Record gets types types' : Prop := {
  gets_inv : inv types';
  gets_grows : grows types types';
  gets_keeps : forall k d, types !! k = Some d -> kind_of d <> k_alias -> types' !! k = Some d;
  gets_new : forall k d, types !! k = None -> types' !! k = Some d -> nests d = true
}.
Lemma gets_refl types : inv types -> gets types types.
Proof. intros Hi. split; [done|apply grows_refl|done|intros k d Hn Hs; congruence]. Qed.
Lemma gets_trans a b c : gets a b -> gets b c -> gets a c.
Proof.
  intros [I1 G1 K1 N1] [I2 G2 K2 N2]. split; [done|by eapply grows_trans|eauto|].
  intros k d Hn Hs. destruct (b !! k) as [db|] eqn:E; [|by eapply N2].
  pose proof (N1 k db Hn E) as Hnb. assert (c !! k = Some db) by (apply (grows_keeps _ _ G2); [done|by destruct db]). congruence.
Qed.
Lemma gets_insert types k d : inv types -> fits types k d ->
  (types !! k = None -> nests d = true) ->
  (forall d0, types !! k = Some d0 -> d0 = d \/ ~ resolved d0 /\ kind_of d0 = k_alias /\ kind_of d = k_alias) ->
  gets types (<[k := d]> types).
Proof.
  intros Hi Hf Hn Hk. destruct (inv_insert types k d Hi Hf) as [Hi' Hg].
  { destruct (types !! k) as [d0|] eqn:E; [|done]. destruct (Hk d0 eq_refl) as [->|(? & ? & ?)]; [by left|right; split; congruence]. }
  split; [done|done| |].
  - intros j dj Hj Hkj. destruct (decide (j = k)) as [->|Hne]; [|by rewrite lookup_insert_ne].
    destruct (Hk dj Hj) as [->|(_ & Ha & _)]; [by rewrite lookup_insert_eq|done].
  - intros j dj Hj Hjs. apply lookup_insert_Some in Hjs as [[<- <-]|[_ Hjs]]; [by apply Hn|congruence].
Qed.

(** A suffix adds a type or finds it. *)
Lemma emplace_suffix types types1 name d : types !! name = None -> gets types types1 ->
  nests d = true -> fits types1 name d ->
  let types' := try_emplace name d types1 in gets types types' /\ denotes types' name name.
Proof.
  intros Hnone Hg Hn Hf types'. unfold types', try_emplace. destruct (types1 !! name) as [d1|] eqn:E.
  - split; [done|]. right. split; [done|]. exists d1. split; [done|]. pose proof (gets_new _ _ Hg name d1 Hnone E). by destruct d1.
  - split.
    + eapply gets_trans; [exact Hg|]. apply gets_insert; [apply Hg|done|done|]. intros d0. by rewrite E.
    + right. split; [done|]. exists d. rewrite lookup_insert_eq. split; [done|by destruct d].
Qed.
Lemma deref_refers types t d P : deref types t = Ok d -> P (kind_of d) -> refers types t P.
Proof. intros Hd HP. apply some_or_Ok in Hd. by exists d. Qed.
Lemma deref_denotes types name t : wf types -> denotes types name t -> exists d, deref types t = Ok d /\ kind_of d <> k_alias.
Proof. intros Hw Hd. destruct (denotes_refers _ _ _ Hw Hd) as (d & E & Hk). exists d. unfold deref. by rewrite E. Qed.
Lemma get_type_spec n types name types' t : inv types -> get_type n types name = Ok (types', t) ->
  gets types types' /\ denotes types' name t.
Proof.
  revert types name types' t. induction n as [|n IH]; intros types name types' t Hi E; [done|]. cbn [get_type] in E.
  assert (forall u types1 base (d : abi_data), get_type n types u = Ok (types1, base) -> deref types1 base = Ok d ->
    gets types types1 /\ denotes types1 u base /\ kind_of d <> k_alias) as Hsub.
  { intros u types1 base d Hu Hd. destruct (IH _ _ _ _ Hi Hu) as [Hg Hb]. split; [done|]. split; [done|].
    destruct (deref_denotes _ _ _ (inv_wf _ (gets_inv _ _ Hg)) Hb) as (d' & Hd' & Hk). congruence. }
  destruct (types !! name) as [d0|] eqn:En.
  - assert (kind_of d0 <> k_alias -> (types, name) = (types', t) -> gets types types' /\ denotes types' name t) as Hplain.
    { intros Hk [= <- <-]. split; [by apply gets_refl|]. right. split; [done|by exists d0]. }
    destruct d0 as [|u|?|?|b|?|?|?|? ?|?]; try (apply Hplain; [done|congruence]).
    + apply bind_Ok in E as ([types1 base] & Eg & E). apply bind_Ok in E as (d & Ed & E).
      apply bind_Ok in E as ([] & Ec%check_Ok%bool_decide_eq_true & E). injection E as <- <-.
      destruct (Hsub _ _ _ _ Eg Ed) as (Hg & Hb & Hk).
      assert (refers types1 base typedef_target) as Hr.
      { eapply deref_refers; [exact Ed|]. split; [done|]. by destruct d. }
      pose proof (inv_alias_def _ Hi _ _ En) as Ha.
      split; [|left; by rewrite lookup_insert_eq]. eapply gets_trans; [exact Hg|]. apply gets_insert; [apply Hg| | |].
      * split; [done|]. by exists u.
      * intros Hnone. destruct (grows_kind _ _ (gets_grows _ _ Hg) _ _ En) as (d' & Hd' & _). congruence.
      * intros d' Hd'. destruct (grows_kind _ _ (gets_grows _ _ Hg) _ _ En) as (d2 & Hd2 & Ek).
        assert (d2 = d') as -> by congruence. destruct d'; try done; [right; split_and!; [by intros []|done|done]|left].
        destruct (inv_alias _ (gets_inv _ _ Hg) _ _ Hd') as (u' & Hu' & Hb'). assert (u' = u) as -> by congruence.
        f_equal. by eapply denotes_inj.
    + injection E as <- <-. split; [by apply gets_refl|by left].
  - destruct (strip "?" name) as [b|], (strip "[]" name) as [b'|], (strip "$" name) as [b''|]; try done;
      apply bind_Ok in E as ([types1 base] & Eg & E); apply bind_Ok in E as (d & Ed & E);
      apply bind_Ok in E as ([] & Ec%check_Ok & E); injection E as <- <-; destruct (Hsub _ _ _ _ Eg Ed) as (Hg & Hb & Hk);
      (apply (emplace_suffix types types1); [done|done|done|]; split; [|done]; cbn [wf_data];
       eapply deref_refers; [exact Ed|]; destruct d; (done || (by repeat ((left; reflexivity) || right)))).
Qed.

(** ** Structs and variants *)

Record solves types types' : Prop := {
  solves_inv : inv types';
  solves_grows : grows types types';
  solves_variants : forall k v, types !! k = Some (of_variant v) -> types' !! k = Some (of_variant v)
}.
Lemma gets_solves types types' : gets types types' -> solves types types'.
Proof. intros [I G K N]. split; [done|done|]. intros k v Hk. by apply K. Qed.
Lemma solves_trans a b c : solves a b -> solves b c -> solves a c.
Proof. intros [I1 G1 K1] [I2 G2 K2]. split; [done|by eapply grows_trans|eauto]. Qed.

Lemma resolve_fields_spec n fds types acc types' l : inv types ->
  foldM (resolve_field n) fds (types, acc) = Ok (types', l) ->
  gets types types' /\ exists own, l = acc ++ own /\ Forall2 (field_means types') fds own.
Proof.
  revert types acc. induction fds as [|fd fds IH]; intros types acc Hi E; cbn in E.
  - injection E as <- <-. split; [by apply gets_refl|]. exists []. split; [by rewrite app_nil_r|constructor].
  - apply bind_Ok in E as ([types1 acc1] & E1 & E). apply bind_Ok in E1 as ([types2 t] & Et & [= <- <-]).
    destruct (get_type_spec _ _ _ _ _ Hi Et) as [Hg Hd]. destruct (IH _ _ (gets_inv _ _ Hg) E) as [Hg' (own & -> & Ho)].
    split; [by eapply gets_trans|]. exists (mk_field (field_def_name fd) t :: own). rewrite <- app_assoc. split; [done|].
    constructor; [|done]. split; [done|]. eapply denotes_grows; [apply Hg'|done].
Qed.
Lemma own_fields_wf types fds own : wf types -> Forall2 (field_means types) fds own ->
  Forall (fun f => refers types (field_type f) not_alias) own.
Proof. intros Hw. induction 1 as [|fd f fds own [_ Ht] Hl IH]; constructor; [by eapply denotes_refers|done]. Qed.

(** Replacing the definition of a struct by its fields. *)
Lemma solves_struct types k s l : inv types -> struct_defs !! k = Some s -> wf_data types (struct_ None l) -> fields_of types s l ->
  (exists d, types !! k = Some d /\ kind_of d = k_struct) -> solves types (<[k := struct_ None l]> types).
Proof.
  intros Hi Hs Hw Hf (d & Hd & Hk). destruct (inv_insert types k (struct_ None l) Hi) as [Hi' Hg].
  - split; [done|]. by rewrite Hs.
  - rewrite Hd. destruct d as [| |s'| | | | | |o l'|]; try done; [right; split; [by intros []|done]|left].
    destruct (inv_struct _ Hi _ _ _ Hd) as [-> Hf']. rewrite Hs in Hf'. f_equal. by eapply fields_of_inj.
  - split; [done|done|]. intros j v Hj. rewrite lookup_insert_ne; [done|]. intros <-. by simplify_eq.
Qed.

Lemma resolve_struct_spec n types s types' l : inv types -> resolve_struct n types s = Ok (types', l) ->
  solves types types' /\ fields_of types' s l /\ wf_data types' (struct_ None l).
Proof.
  revert types s types' l. induction n as [|n IH]; intros types s types' l Hi E; [done|]. cbn [resolve_struct] in E.
  apply bind_Ok in E as ([types3 inh] & Eb & E).
  assert (inv types3 -> gets types3 types' /\ exists own, l = inh ++ own /\ Forall2 (field_means types') (struct_fields s) own) as Hown
    by (intros Hi3; by apply (resolve_fields_spec n)). clear E.
  case_decide as Hb.
  - injection Eb as <- <-. destruct (Hown Hi) as [Hg (own & -> & Ho)]. split; [by apply gets_solves|].
    split; [by apply fields_own|]. eapply own_fields_wf; [apply (gets_inv _ _ Hg)|done].
  - apply bind_Ok in Eb as ([types1 b] & Eg & Eb). apply bind_Ok in Eb as (d & Ed%some_or_Ok & Eb).
    apply bind_Ok in Eb as (types2 & E2 & Eb). apply bind_Ok in Eb as (d2 & Ed2%some_or_Ok & Eb).
    apply bind_Ok in Eb as (inh' & Es%some_or_Ok & Eb). injection Eb as -> ->.
    destruct (get_type_spec _ _ _ _ _ Hi Eg) as [Hg Hd].
    assert (solves types1 types3) as Hs2.
    { destruct d as [| |e| | | | | | |]; try (injection E2 as <-; apply gets_solves, gets_refl, Hg).
      apply bind_Ok in E2 as ([types2' lb] & Er & [= <-]).
      destruct (IH _ _ _ _ (gets_inv _ _ Hg) Er) as (Hsv & Hf & Hw). eapply solves_trans; [exact Hsv|].
      apply (solves_struct _ _ e); [apply Hsv|by apply (inv_struct_def _ (gets_inv _ _ Hg))|done|done|].
      destruct (grows_kind _ _ (solves_grows _ _ Hsv) _ _ Ed) as (d' & Hd' & Ek). by exists d'. }
    destruct (Hown (solves_inv _ _ Hs2)) as [Hg' (own & -> & Ho)].
    destruct d2 as [| | | | | | | |o l2|]; try done. injection Es as ->.
    destruct (inv_struct _ (solves_inv _ _ Hs2) _ _ _ Ed2) as [-> Hm].
    assert (types' !! b = Some (struct_ None inh)) as Hb' by (by apply (grows_keeps _ _ (gets_grows _ _ Hg'))).
    assert (denotes types' (struct_base s) b) as Hd'.
    { eapply denotes_grows; [apply Hg'|]. eapply denotes_grows; [apply Hs2|done]. }
    split; [|split].
    + eapply solves_trans; [by apply gets_solves|]. eapply solves_trans; [exact Hs2|by apply gets_solves].
    + destruct (struct_defs !! b) as [e|] eqn:Ee; [|by eapply fields_builtin].
      eapply fields_derived; [done|done|done| |done]. eapply fields_of_grows; [apply Hg'|done].
    + cbn. apply Forall_app. split; [|eapply own_fields_wf; [apply (gets_inv _ _ Hg')|done]].
      pose proof (inv_wf _ (gets_inv _ _ Hg') _ _ Hb') as Hw. exact Hw.
Qed.

(** ** Filling the table *)

Lemma resolve_variant_spec n types v types' l : inv types -> resolve_variant n types v = Ok (types', l) ->
  gets types types' /\ wf_data types' (variant l) /\ alternatives_of types' v l.
Proof.
  destruct n as [|n]; [done|]. cbn [resolve_variant]. intros Hi E.
  destruct (resolve_fields_spec _ _ _ _ _ _ Hi E) as [Hg (own & -> & Ho)]. split; [done|]. split; [|done].
  eapply own_fields_wf; [apply (gets_inv _ _ Hg)|done].
Qed.
Lemma resolve_alias_spec n types t types' d : inv types -> resolve_alias n types t = Ok (types', d) ->
  gets types types' /\ exists base, d = alias base /\ denotes types' t base /\ refers types' base typedef_target.
Proof.
  unfold resolve_alias. intros Hi E. apply bind_Ok in E as ([types2 base] & Eg & E). apply bind_Ok in E as (d2 & Ed & E).
  apply bind_Ok in E as ([] & Ec%check_Ok%bool_decide_eq_true & E). injection E as <- <-.
  destruct (get_type_spec _ _ _ _ _ Hi Eg) as [Hg Hd]. split; [done|]. exists base. split; [done|]. split; [done|].
  destruct (deref_denotes _ _ _ (inv_wf _ (gets_inv _ _ Hg)) Hd) as (d2' & Ed' & Hk). assert (d2' = d2) as -> by congruence.
  eapply deref_refers; [exact Ed|]. split; [done|by destruct d2].
Qed.
(** What [fill] makes of a type. *)
Definition fills (types types' : abi_types) (k : string) : Prop :=
  inv types' /\ grows types types' /\ (forall d, types' !! k = Some d -> resolved d).
Lemma fills_insert types types1 k d d0 : inv types1 -> grows types types1 -> fits types1 k d -> resolved d ->
  types1 !! k = Some d0 -> (d0 = d \/ ~ resolved d0 /\ kind_of d = kind_of d0) -> fills types (<[k := d]> types1) k.
Proof.
  intros Hi Hg Hf Hr Hk Hd. destruct (inv_insert types1 k d Hi Hf) as [Hi' Hg']; [by rewrite Hk|].
  split; [done|]. split; [by eapply grows_trans|]. intros d'. rewrite lookup_insert_eq. by intros [= <-].
Qed.
Lemma fill_spec types k types' : inv types -> fill types k = Ok types' -> fills types types' k.
Proof.
  intros Hi E. unfold fill in E. generalize dependent 31%nat. generalize dependent 32%nat. intros n m E.
  destruct (types !! k) as [d|] eqn:Ek.
  2: { injection E as <-. split; [done|]. split; [apply grows_refl|]. intros d Hd. congruence. }
  destruct d as [|t|s|v| | | | | |]; try (injection E as <-; split; [done|]; split; [apply grows_refl|]; intros d Hd; by simplify_eq).
  - apply bind_Ok in E as ([types1 d] & E & [= <-]). destruct (resolve_alias_spec _ _ _ _ _ Hi E) as [Hg (base & -> & Hd & Hr)].
    destruct (grows_kind _ _ (gets_grows _ _ Hg) _ _ Ek) as (d' & Hd' & Ekd). pose proof (inv_alias_def _ Hi _ _ Ek) as Ha.
    apply (fills_insert _ _ _ _ d'); [apply Hg|apply Hg| |done|done|].
    + split; [done|]. by exists t.
    + destruct d'; try done; [right; split; [by intros []|done]|left].
      destruct (inv_alias _ (gets_inv _ _ Hg) _ _ Hd') as (u & Hu & Hb). assert (u = t) as -> by congruence.
      f_equal. by eapply denotes_inj.
  - apply bind_Ok in E as ([types1 l] & E & [= <-]). destruct (resolve_struct_spec _ _ _ _ _ Hi E) as (Hs & Hf & Hw).
    assert (solves types1 (<[k := struct_ None l]> types1)) as Hs'.
    { apply (solves_struct _ _ s); [apply Hs|by apply Hi|done|done|].
      destruct (grows_kind _ _ (solves_grows _ _ Hs) _ _ Ek) as (d' & Hd' & Ekd). by exists d'. }
    split; [apply Hs'|]. split; [eapply grows_trans; [apply Hs|apply Hs']|]. intros d. rewrite lookup_insert_eq. by intros [= <-].
  - apply bind_Ok in E as ([types1 l] & E & [= <-]). destruct (resolve_variant_spec _ _ _ _ _ Hi E) as (Hg & Hw & Hm).
    apply (fills_insert _ _ _ _ (of_variant v)); [apply Hg|apply Hg|split; [done|by rewrite (inv_variant_def _ Hi _ _ Ek)]|done|by apply (gets_keeps _ _ Hg)|].
    right. split; [by intros []|done].
Qed.

(** *** The order of the names *)

Lemma before_lt a b : before a b = true <-> String_as_OT.lt a b.
Proof. unfold before, String_as_OT.lt. destruct (String_as_OT.compare a b); split; congruence. Qed.
Lemma before_irrefl a : before a a <> true.
Proof. rewrite before_lt. apply (StrictOrder_Irreflexive a). Qed.
Lemma before_trans a b c : before a b = true -> before b c = true -> before a c = true.
Proof. rewrite !before_lt. apply StrictOrder_Transitive. Qed.
Lemma before_total a b : a = b \/ before a b = true \/ before b a = true.
Proof. rewrite !before_lt. destruct (String_as_OT.compare_spec a b); auto. Qed.
Lemma least_spec l : match least l with
                     | Some k => k ∈ l /\ forall j, j ∈ l -> j = k \/ before k j = true
                     | None => l = []
                     end.
Proof.
  induction l as [|x l IH]; [done|]. unfold least in *. cbn [foldr]. destruct (foldr _ None l) as [m|]; [|subst l].
  - destruct IH as [Hm Hmin]. destruct (before x m) eqn:E.
    + split; [by left|]. intros j [->|Hj]%elem_of_cons; [by left|right]. destruct (Hmin j Hj) as [->|Hb]; [done|by eapply before_trans].
    + split; [by right|]. intros j [->|Hj]%elem_of_cons; [|by apply Hmin].
      destruct (before_total x m) as [->|[Hb|Hb]]; [by left|congruence|by right].
  - split; [by left|]. intros j [->|Hj]%elem_of_cons; [by left|by apply not_elem_of_nil in Hj].
Qed.
Lemma next_key_spec types lst : match next_key types lst with
  | Some k => is_Some (types !! k) /\ after lst k = true /\
      forall j, is_Some (types !! j) -> after lst j = true -> j = k \/ before k j = true
  | None => forall j, is_Some (types !! j) -> after lst j = false
  end.
Proof.
  unfold next_key. set (l := filter _ _).
  assert (forall j, j ∈ l <-> is_Some (types !! j) /\ after lst j = true) as Hl.
  { intros j. unfold l. rewrite list_elem_of_filter, list_elem_of_fmap. split.
    - intros [Ha ([j' d] & -> & Hd)]. apply elem_of_map_to_list in Hd. split; [by exists d|done].
    - intros [[d Hd] Ha]. split; [done|]. exists (j, d). split; [done|by apply elem_of_map_to_list]. }
  pose proof (least_spec l) as Hs. destruct (least l) as [k|].
  - destruct Hs as [Hk Hmin]. apply Hl in Hk as [Hk Ha]. split; [done|]. split; [done|]. intros j Hj Haj. apply Hmin, Hl. by split.
  - intros j Hj. destruct (after lst j) eqn:E; [|done]. assert (j ∈ l) as Hin by (apply Hl; by split). rewrite Hs in Hin. by apply not_elem_of_nil in Hin.
Qed.

(** What is not resolved comes after what was filled last. *)
Definition unresolved_after (lst : option string) types : Prop :=
  forall k d, types !! k = Some d -> ~ resolved d -> after lst k = true.
Lemma fill_loop_spec fuel lst types types' : inv types -> unresolved_after lst types -> fill_loop fuel lst types = Ok types' ->
  inv types' /\ grows types types' /\ forall k d, types' !! k = Some d -> resolved d.
Proof.
  revert lst types. induction fuel as [|fuel IH]; intros lst types Hi Hu E; cbn [fill_loop] in E;
    pose proof (next_key_spec types lst) as Hn; destruct (next_key types lst) as [k|]; try done.
  1,3: injection E as <-; split; [done|]; split; [apply grows_refl|]; intros j d Hj;
    destruct d; try done; exfalso; pose proof (Hu j _ Hj (fun x => x)) as Ha; rewrite Hn in Ha by (by eexists); done.
  apply bind_Ok in E as (types1 & Ef & E). destruct (fill_spec _ _ _ Hi Ef) as (Hi1 & Hg & Hk).
  destruct Hn as (Hsk & Hak & Hmin). destruct (IH (Some k) types1 Hi1) as (Hi' & Hg' & Hr); [|done|].
  - intros j d Hj Hrd. pose proof (grows_old _ _ Hg _ _ Hj Hrd) as Hj0.
    destruct (Hmin j ltac:(by eexists) (Hu j d Hj0 Hrd)) as [->|Hb]; [|done]. exfalso. by apply Hrd, Hk.
  - split; [done|]. split; [by eapply grows_trans|done].
Qed.
End meaning.

(** ** The conversion *)

Lemma define_all l types types' : foldM define l types = Ok types' ->
  (forall k d, types !! k = Some d -> types' !! k = Some d) /\
  (forall x, x ∈ l -> types' !! x.1 = Some x.2) /\
  (forall k d, types' !! k = Some d -> types !! k = Some d \/ (k, d) ∈ l).
Proof.
  revert types. induction l as [|[n d] l IH]; intros types E; cbn in E.
  - injection E as <-. split; [done|]. split; [by intros x Hx%not_elem_of_nil|by left].
  - apply bind_Ok in E as (types1 & E1 & E). unfold define in E1. res_inv. cbn [fst snd] in *.
    destruct (IH _ E) as (Hk & Hl & Ho). split; [|split].
    + intros k d' Hd. apply Hk. rewrite lookup_insert_ne; [done|]. intros <-. congruence.
    + intros x [->|Hx]%elem_of_cons; [|by apply Hl]. cbn. apply Hk. by rewrite lookup_insert_eq.
    + intros k d' Hd. destruct (Ho k d' Hd) as [Hd'|Hd']; [|right; by right].
      apply lookup_insert_Some in Hd' as [[<- <-]|[_ Hd']]; [right; by left|by left].
Qed.

(** The definitions of the table the filling starts from. *)
Definition aliases_of types : gmap string string := omap (fun d => match d with alias_def t => Some t | _ => None end) types.
Definition structs_of types : gmap string struct_def := omap (fun d => match d with of_struct s => Some s | _ => None end) types.
Definition variants_of types : gmap string variant_def := omap (fun d => match d with of_variant v => Some v | _ => None end) types.
Definition start_types (def : abi_def) : result abi_types := foldM define (definitions def) builtin_types.

Lemma builtin_lookup k d : builtin_types !! k = Some d -> d = builtin \/ k = "extended_asset" /\
  d = struct_ None [mk_field "quantity" "asset"; mk_field "contract" "name"].
Proof.
  unfold builtin_types. intros [[<- <-]|[_ Hd]]%lookup_insert_Some; [by right|left].
  apply elem_of_list_to_map_2, list_elem_of_fmap in Hd as (n & [= -> ->] & _). done.
Qed.
Lemma start_inv def types : start_types def = Ok types -> inv (aliases_of types) (structs_of types) (variants_of types) types.
Proof.
  intros E. destruct (define_all _ _ _ E) as (Hk & Hl & Ho).
  assert (forall k d, types !! k = Some d -> resolved d -> builtin_types !! k = Some d) as Hr.
  { intros k d Hd Hrd. destruct (Ho k d Hd) as [|Hin]; [done|]. unfold definitions in Hin.
    rewrite !elem_of_app, !list_elem_of_fmap in Hin.
    destruct Hin as [(t & [= -> ->] & _)|[(t & [= -> ->] & _)|(t & [= -> ->] & _)]]; done. }
  split.
  - intros k d Hd. destruct d as [|?|?|?| | | | | |]; try exact I;
      (destruct (builtin_lookup _ _ (Hr _ _ Hd I)) as [|[-> Hb]]; [done|]); try discriminate Hb. injection Hb as -> ->.
    cbn. repeat constructor; eexists; (split; [apply Hk; reflexivity|done]).
  - intros k t Hd. unfold aliases_of. by rewrite lookup_omap, Hd.
  - intros k b Hd. by destruct (builtin_lookup _ _ (Hr _ _ Hd I)) as [|[-> Hb]].
  - intros k s Hd. unfold structs_of. by rewrite lookup_omap, Hd.
  - intros k o l Hd. destruct (builtin_lookup _ _ (Hr _ _ Hd I)) as [|[-> Hb]]; [done|]. injection Hb as -> ->. split; [done|].
    unfold structs_of. by rewrite lookup_omap, Hd.
  - intros k v Hd. unfold variants_of. by rewrite lookup_omap, Hd.
  - intros k l Hd. by destruct (builtin_lookup _ _ (Hr _ _ Hd I)) as [|[-> Hb]].
Qed.

(** C22: What an ABI's conversion gives is a table of types that are all
    resolved, in which every pointer is to a type of the table and never to an
    alias, extensions are not nested and nothing but plain types is made
    optional or listed; an alias means what its definition names, a struct has
    the fields of its base before its own, and a variant its alternatives. *)
Theorem convert_resolves (fuel : nat) (def : abi_def) (a : abi) :
  convert fuel def = Ok a ->
  let types := types_of a in
  exists types0, start_types def = Ok types0 /\
  (forall name d, types !! name = Some d -> resolved d /\ wf_data types d) /\
  (forall t : type_def, t ∈ AbiDef.types def -> exists b, types !! new_type_name t = Some (alias b) /\ denotes types (type_of t) b) /\
  (forall s, s ∈ structs def -> exists l, types !! struct_name s = Some (struct_ None l) /\ fields_of (structs_of types0) types s l) /\
  (forall v, v ∈ variants def -> exists l, types !! variant_name v = Some (variant l) /\ alternatives_of types v l).
Proof.
  intros E. unfold convert in E. apply bind_Ok in E as (types0 & E0 & E). apply bind_Ok in E as (types & El & [= <-]).
  cbn [types_of]. exists types0. split; [exact E0|]. pose proof (start_inv def types0 E0) as Hi.
  destruct (fill_loop_spec _ _ _ fuel None types0 types Hi) as (Hi' & Hg & Hr); [by intros k d _ _|done|].
  destruct (define_all _ _ _ E0) as (_ & Hl & _).
  assert (forall k d, (k, d) ∈ definitions def -> types0 !! k = Some d /\ exists d', types !! k = Some d' /\ kind_of d' = kind_of d) as Hd.
  { intros k d Hin. pose proof (Hl _ Hin) as H0. split; [done|]. by apply (grows_kind _ _ Hg). }
  unfold definitions in Hd. split; [|split; [|split]].
  - intros k d Hk. split; [by eapply Hr|]. by eapply (inv_wf _ _ _ _ Hi').
  - intros t Ht. destruct (Hd (new_type_name t) (alias_def (type_of t))) as (H0 & d & H1 & Hk).
    { apply elem_of_app. left. by apply (list_elem_of_fmap_2 (fun t : type_def => (new_type_name t, alias_def (type_of t)))). }
    pose proof (Hr _ _ H1) as Hrd. destruct d; try done. eexists. split; [done|].
    destruct (inv_alias _ _ _ _ Hi' _ _ H1) as (u & Hu & Hb). unfold aliases_of in Hu. rewrite lookup_omap, H0 in Hu. by injection Hu as <-.
  - intros s Hs. destruct (Hd (struct_name s) (of_struct s)) as (H0 & d & H1 & Hk).
    { apply elem_of_app. right. apply elem_of_app. left. by apply (list_elem_of_fmap_2 (fun d : struct_def => (struct_name d, of_struct d))). }
    pose proof (Hr _ _ H1) as Hrd. destruct d as [| | | | | | | |o l|]; try done. destruct (inv_struct _ _ _ _ Hi' _ _ _ H1) as [-> Hf].
    unfold structs_of in Hf at 1. rewrite lookup_omap, H0 in Hf. by exists l.
  - intros v Hv. destruct (Hd (variant_name v) (of_variant v)) as (H0 & d & H1 & Hk).
    { apply elem_of_app. right. apply elem_of_app. right. by apply (list_elem_of_fmap_2 (fun d : variant_def => (variant_name d, of_variant d))). }
    pose proof (Hr _ _ H1) as Hrd. destruct d as [| | | | | | | | |l]; try done. pose proof (inv_variant _ _ _ _ Hi' _ _ H1) as Hf.
    unfold variants_of in Hf. rewrite lookup_omap, H0 in Hf. by exists l.
Qed.

(** ** The conversion ends *)

(** The names a definition mentions, and what is left of a name when suffixes
    are taken off. *)
Definition mentions (d : abi_data) : list string :=
  match d with
  | alias_def t => [t]
  | of_struct s => (if decide (struct_base s = "") then [] else [struct_base s]) ++ (field_def_type <$> struct_fields s)
  | of_variant v => variant_types v
  | _ => []
  end.
Definition stripped (name : string) : option string :=
  match strip "?" name, strip "[]" name, strip "$" name with
  | Some b, _, _ | None, Some b, _ | None, None, Some b => Some b
  | None, None, None => None
  end.
Fixpoint strips (fuel : nat) (name : string) : list string :=
  match fuel with O => [name] | S fuel => name :: match stripped name with Some b => strips fuel b | None => [] end end.
Definition universe (def : abi_def) : list string :=
  (definitions def).*1 ++ "extended_asset" :: builtin_names ++
  flat_map (fun n => strips (String.length n) n) (flat_map (fun x => mentions x.2) (definitions def)).

Lemma string_of_length l : String.length (string_of l) = length l.
Proof. unfold string_of. induction l as [|c l IH]; [done|]. cbn. by rewrite IH. Qed.
Lemma chars_of_length s : length (chars_of s) = String.length s.
Proof. unfold chars_of. induction s as [|c s IH]; [done|]. cbn. by rewrite IH. Qed.
Lemma strip_shorter suffix name b : (0 < String.length suffix)%nat -> strip suffix name = Some b -> (String.length b < String.length name)%nat.
Proof.
  intros Hs. unfold strip. destruct (Nat.leb_spec (String.length suffix) (length (chars_of name))) as [Hl|]; [|done].
  cbn [andb]. case_bool_decide; [|done]. intros Hb. apply Some_inj in Hb. subst b.
  rewrite string_of_length, length_take. rewrite chars_of_length in *. lia.
Qed.
Lemma stripped_shorter name b : stripped name = Some b -> (String.length b < String.length name)%nat.
Proof.
  unfold stripped. destruct (strip "?" name) eqn:E1; [intros [= <-]; by eapply strip_shorter; [|exact E1]; cbn; lia|].
  destruct (strip "[]" name) eqn:E2; [intros [= <-]; by eapply strip_shorter; [|exact E2]; cbn; lia|].
  destruct (strip "$" name) eqn:E3; [|done]. intros [= <-]. by eapply strip_shorter; [|exact E3]; cbn; lia.
Qed.
Lemma strips_self fuel name : name ∈ strips fuel name.
Proof. destruct fuel; by left. Qed.
Lemma strips_closed fuel name n b : (String.length name <= fuel)%nat -> n ∈ strips fuel name -> stripped n = Some b -> b ∈ strips fuel name.
Proof.
  revert name. induction fuel as [|fuel IH]; intros name Hl Hn Hb.
  - apply list_elem_of_singleton in Hn as ->. apply stripped_shorter in Hb. lia.
  - cbn [strips] in *. apply elem_of_cons in Hn as [->|Hn].
    + rewrite Hb. right. apply strips_self.
    + destruct (stripped name) as [c|] eqn:Ec; [|by apply not_elem_of_nil in Hn]. right. apply IH; [|done|done].
      apply stripped_shorter in Ec. lia.
Qed.

Section ends.
Context (aliases : gmap string string) (struct_defs : gmap string struct_def) (variant_defs : gmap string variant_def).
Abbreviation inv := (inv aliases struct_defs variant_defs).
(** The names that can be asked for, with what suffixes leave of them, and
    those that can be in the table. *)
Context (asked table : string -> Prop) (asked_stripped : forall n b, asked n -> stripped n = Some b -> asked b)
  (asked_table : forall n, asked n -> table n).

Definition bounded types : Prop := forall k d, types !! k = Some d -> table k /\ Forall asked (mentions d).
(** A message or a bounded table. *)
Definition ends {A} (types_of : A -> abi_types) (r : result A) : Prop :=
  match r with Ok a => bounded (types_of a) | Err e => exists msg, e = Check msg end.
Lemma conv_ends_bind {A B} (f : A -> abi_types) (g : B -> abi_types) (x : result A) (k : A -> result B) :
  ends f x -> (forall a, x = Ok a -> bounded (f a) -> ends g (k a)) -> ends g (x ≫= k).
Proof. destruct x as [a|e]; cbn; auto. Qed.
Lemma ends_check {B} (g : B -> abi_types) b msg (k : unit -> result B) : ends g (k tt) -> ends g (check b msg ≫= k).
Proof. destruct b; [done|]. intros _. by eexists. Qed.
Lemma bounded_insert types k d : bounded types -> table k -> Forall asked (mentions d) -> bounded (<[k := d]> types).
Proof. intros Hb Hk Hd j dj [[<- <-]|[_ Hj]]%lookup_insert_Some; [done|by apply Hb]. Qed.
Lemma bounded_emplace types k d : bounded types -> table k -> mentions d = [] -> bounded (try_emplace k d types).
Proof. intros Hb Hk Hd. unfold try_emplace. destruct (types !! k); [done|]. apply bounded_insert; [done|done|]. by rewrite Hd. Qed.

Lemma get_type_ends n types name : inv types -> bounded types -> asked name -> ends fst (get_type n types name).
Proof.
  revert types name. induction n as [|n IH]; intros types name Hi Hb Ha; cbn [get_type]; [by eexists|].
  assert (forall (k : abi_types -> string -> abi_data -> result (abi_types * string)) u, asked u ->
    (forall types1 base d, bounded types1 -> ends fst (k types1 base d)) ->
    ends fst ('(types, base) ← get_type n types u; d ← deref types base; k types base d)) as Hsub.
  { intros k u Hu Hk. eapply conv_ends_bind; [by apply IH|]. intros [types1 base] Eg Hb1.
    destruct (get_type_spec _ _ _ _ _ _ _ _ Hi Eg) as [Hg Hd].
    destruct (deref_denotes _ _ _ (inv_wf _ _ _ _ (gets_inv _ _ _ _ _ Hg)) Hd) as (d & -> & _). by apply Hk. }
  destruct (types !! name) as [d|] eqn:En.
  - destruct (Hb _ _ En) as [Ht Hm]. destruct d; try exact Hb. apply Hsub; [by inversion Hm|].
    intros types1 base d Hb1. apply ends_check. by apply bounded_insert; [| |constructor].
  - assert (forall b, stripped name = Some b -> asked b) as Hs by (by intros b; apply asked_stripped). unfold stripped in Hs.
    destruct (strip "?" name) as [b|], (strip "[]" name) as [b'|], (strip "$" name) as [b''|]; try (by eexists);
      (apply Hsub; [by apply Hs|]; intros types1 base d Hb1; apply ends_check, bounded_emplace; [done|by apply asked_table|done]).
Qed.
Lemma resolve_fields_ends n fds types acc : inv types -> bounded types -> Forall asked (field_def_type <$> fds) ->
  ends fst (foldM (resolve_field n) fds (types, acc)).
Proof.
  revert types acc. induction fds as [|fd fds IH]; intros types acc Hi Hb Ha; [done|]. cbn in Ha |- *. apply Forall_cons in Ha as [Ha Hal].
  apply (conv_ends_bind fst); [apply (conv_ends_bind fst); [by apply get_type_ends|by intros [types1 t]]|].
  intros [types1 acc1] E1 Hb1. apply IH; [|done|done].
  apply bind_Ok in E1 as ([types2 t] & Et & [= <- <-]). destruct (get_type_spec _ _ _ _ _ _ _ _ Hi Et) as [Hg _]. apply Hg.
Qed.
Lemma resolve_struct_ends n types s : inv types -> bounded types -> Forall asked (mentions (of_struct s)) ->
  ends fst (resolve_struct n types s).
Proof.
  revert types s. induction n as [|n IH]; intros types s Hi Hb Hm; cbn [resolve_struct]; [by eexists|].
  apply Forall_app in Hm as [Hbase Hfields].
  revert Hbase. destruct (decide (struct_base s = "")) as [Hnone|Hnone]; intros Hbase; [cbn [mbind result_bind]; by apply resolve_fields_ends|].
  apply Forall_cons in Hbase as [Hbase _].
  apply (conv_ends_bind fst).
  - eapply (conv_ends_bind fst); [by apply get_type_ends|]. intros [types1 b] Eg Hb1. cbn [fst] in Hb1.
    destruct (get_type_spec _ _ _ _ _ _ _ _ Hi Eg) as [Hg Hd]. pose proof (gets_inv _ _ _ _ _ Hg) as Hi1.
    destruct (deref_denotes _ _ _ (inv_wf _ _ _ _ Hi1) Hd) as (d & Ed & Hk). rewrite Ed. cbn [mbind result_bind].
    apply some_or_Ok in Ed. apply (conv_ends_bind (fun x : abi_types => x)).
    + destruct d as [| |e| | | | | | |]; try done. destruct (Hb1 _ _ Ed) as [Ht Hme].
      eapply (conv_ends_bind fst); [by apply IH|]. intros [types2 l] _ Hb2. by apply bounded_insert.
    + intros types2 E2 Hb2.
      assert (exists d2, types2 !! b = Some d2) as [d2 Ed2].
      { destruct d as [| |e| | | | | | |]; try (injection E2 as <-; by eexists).
        apply bind_Ok in E2 as ([types3 l] & _ & [= <-]). rewrite lookup_insert_eq. by eexists. }
      unfold deref. rewrite Ed2. cbn [some_or mbind result_bind]. destruct (as_struct d2); [done|by eexists].
  - intros [types2 inh] E2 Hb2. apply resolve_fields_ends; [|done|done]. clear Hfields.
    apply bind_Ok in E2 as ([types1 b] & Eg & Eb). apply bind_Ok in Eb as (d & Ed%some_or_Ok & Eb).
    apply bind_Ok in Eb as (types3 & E3 & Eb). apply bind_Ok in Eb as (d2 & _ & Eb). apply bind_Ok in Eb as (inh' & _ & [= -> ->]).
    destruct (get_type_spec _ _ _ _ _ _ _ _ Hi Eg) as [Hg _]. pose proof (gets_inv _ _ _ _ _ Hg) as Hi1.
    destruct d as [| |e| | | | | | |]; try (injection E3 as <-; done).
    apply bind_Ok in E3 as ([types3 l] & Er & [= <-]). destruct (resolve_struct_spec _ _ _ _ _ _ _ _ Hi1 Er) as (Hs & Hf & Hw).
    apply (solves_struct _ _ _ _ _ e l); [apply Hs|by apply (inv_struct_def _ _ _ _ Hi1)|done|done|].
    destruct (grows_kind _ _ (solves_grows _ _ _ _ _ Hs) _ _ Ed) as (d' & Hd' & Ek). by exists d'.
Qed.
Lemma fill_ends types k : inv types -> bounded types -> ends (fun x : abi_types => x) (fill types k).
Proof.
  intros Hi Hb. unfold fill. generalize 31%nat, 32%nat. intros m n. destruct (types !! k) as [d|] eqn:Ek; [|done].
  destruct (Hb _ _ Ek) as [Ht Hm]. destruct d as [|t|s|v| | | | | |]; try done.
  - apply Forall_cons in Hm as [Hm _]. apply (conv_ends_bind fst); [|intros [types1 d] E1 Hb1].
    + unfold resolve_alias. eapply (conv_ends_bind fst); [by apply get_type_ends|]. intros [types1 base] Eg Hb1.
      destruct (get_type_spec _ _ _ _ _ _ _ _ Hi Eg) as [Hg Hd].
      destruct (deref_denotes _ _ _ (inv_wf _ _ _ _ (gets_inv _ _ _ _ _ Hg)) Hd) as (d & -> & _). cbn [mbind result_bind]. by apply ends_check.
    + destruct (resolve_alias_spec _ _ _ _ _ _ _ _ Hi E1) as [_ (b & -> & _)]. by apply bounded_insert.
  - apply (conv_ends_bind fst); [by apply resolve_struct_ends|]. intros [types1 l] _ Hb1. by apply bounded_insert.
  - apply (conv_ends_bind fst); [|intros [types1 l] _ Hb1; by apply bounded_insert]. destruct n as [|n]; [by eexists|]. cbn [resolve_variant].
    apply resolve_fields_ends; [done|done|]. cbn in Hm. rewrite <- list_fmap_compose.
    replace (_ <$> variant_types v) with (variant_types v); [done|]. symmetry. by apply list_fmap_id.
Qed.
(** Every round takes a later name. *)
Lemma fill_loop_ends names fuel lst types : (forall n, table n -> n ∈ names) -> inv types -> bounded types ->
  (length (filter (fun k => after lst k = true) names) <= fuel)%nat -> ends (fun x : abi_types => x) (fill_loop fuel lst types).
Proof.
  intros Hnames. revert lst types. induction fuel as [|fuel IH]; intros lst types Hi Hb Hl; cbn [fill_loop];
    pose proof (next_key_spec types lst) as Hn; destruct (next_key types lst) as [k|]; try done;
    destruct Hn as ([d Hk] & Ha & _); pose proof (Hnames k (proj1 (Hb _ _ Hk))) as Hin.
  - exfalso. assert (k ∈ filter (fun k => after lst k = true) names) as Hf by (by apply list_elem_of_filter).
    apply Nat.le_0_r, nil_length_inv in Hl. rewrite Hl in Hf. by apply not_elem_of_nil in Hf.
  - eapply (conv_ends_bind (fun x : abi_types => x)); [by apply fill_ends|]. intros types1 Ef Hb1.
    destruct (fill_spec _ _ _ _ _ _ Hi Ef) as (Hi1 & _ & _). apply IH; [done|done|].
    assert (length (filter (fun j => after (Some k) j = true) names) < length (filter (fun j => after lst j = true) names))%nat; [|lia].
    clear -Hin Ha. induction names as [|x l IH]; [by apply not_elem_of_nil in Hin|]. rewrite !filter_cons.
    assert (forall j, after (Some k) j = true -> after lst j = true) as Himp.
    { intros j Hj. cbn in Hj. destruct lst as [m|]; [|done]. cbn in *. by eapply before_trans. }
    assert (length (filter (fun j => after (Some k) j = true) l) <= length (filter (fun j => after lst j = true) l))%nat as Hle.
    { clear -Himp. induction l as [|y l IH]; [done|]. rewrite !filter_cons. destruct (decide (after (Some k) y = true)) as [Hy|Hy].
      - rewrite decide_True by (by apply Himp). cbn [length]. lia.
      - destruct (decide (after lst y = true)); cbn [length]; lia. }
    apply elem_of_cons in Hin as [<-|Hin].
    + rewrite decide_False by apply before_irrefl. rewrite decide_True by done. cbn [length]. lia.
    + specialize (IH Hin). destruct (decide (after (Some k) x = true)) as [Hx|Hx].
      * rewrite decide_True by (by apply Himp). cbn [length]. lia.
      * destruct (decide (after lst x = true)); cbn [length]; lia.
Qed.
End ends.

Lemma define_message l types e : foldM define l types = Err e -> exists msg, e = Check msg.
Proof.
  revert types. induction l as [|x l IH]; intros types E; [done|]. cbn [foldM] in E.
  destruct (define types x) as [t1|e1] eqn:Ed; cbn [mbind result_bind] in E; [by eapply IH|]. injection E as <-. unfold define in Ed.
  destruct (bool_decide (x.1 <> "")), (bool_decide (types !! x.1 = None)); cbn in Ed; try done; injection Ed as <-; by eexists.
Qed.

(** C28: The conversion of an ABI ends, whatever the ABI says - aliases of
    themselves, structs that are their own base, names with any suffixes: with
    as many rounds as there are names in it, counting what suffixes leave of
    them, the outcome is a table or one of the messages; no pointer dangles. *)
Theorem convert_ends (fuel : nat) (def : abi_def) :
  (length (universe def) <= fuel)%nat ->
  (exists a, convert fuel def = Ok a) \/ exists msg, convert fuel def = Err (Check msg).
Proof.
  intros Hf. unfold convert. destruct (foldM define (definitions def) builtin_types) as [types0|e] eqn:E0.
  2: { destruct (define_message _ _ _ E0) as [msg ->]. right. by eexists. }
  cbn [mbind result_bind]. pose proof (start_inv def types0 E0) as Hi. destruct (define_all _ _ _ E0) as (_ & _ & Ho).
  set (mentioned := flat_map (fun x => mentions x.2) (definitions def)).
  set (asked := fun n => n ∈ flat_map (fun n => strips (String.length n) n) mentioned).
  assert (forall n, n ∈ mentioned -> asked n) as Hm.
  { intros n Hn. apply list_elem_of_In, in_flat_map. exists n. split; [by apply list_elem_of_In|]. apply list_elem_of_In, strips_self. }
  assert (forall n b, asked n -> stripped n = Some b -> asked b) as Hst.
  { intros n b Hn Hb. apply list_elem_of_In, in_flat_map in Hn as (m & Hm' & Hn). apply list_elem_of_In, in_flat_map. exists m.
    split; [done|]. apply list_elem_of_In. apply list_elem_of_In in Hn. by eapply strips_closed. }
  assert (bounded asked (fun n => n ∈ universe def) types0) as Hb.
  { intros k d Hd. unfold universe. destruct (Ho k d Hd) as [Hbi|Hin].
    - split; [|destruct (builtin_lookup _ _ Hbi) as [->|[_ ->]]; constructor].
      apply elem_of_app. right. unfold builtin_types in Hbi. apply lookup_insert_Some in Hbi as [[<- _]|[_ Hbi]]; [by left|right].
      apply elem_of_app. left. apply elem_of_list_to_map_2, list_elem_of_fmap in Hbi as (n & [= -> _] & Hn). done.
    - split; [apply elem_of_app; left; by apply (list_elem_of_fmap_2 fst _ (k, d))|].
      apply Forall_forall. intros n Hn. apply Hm. unfold mentioned. apply list_elem_of_In, in_flat_map. exists (k, d).
      split; by apply list_elem_of_In. }
  pose proof (fill_loop_ends _ _ _ asked (fun n => n ∈ universe def) Hst
    ltac:(intros n Hn; unfold universe; apply elem_of_app; right; right; apply elem_of_app; by right)
    (universe def) fuel None types0 (fun n Hn => Hn) Hi Hb) as He.
  destruct (fill_loop fuel None types0) as [types|e]; cbn; [left; by eexists|right].
  destruct He as [msg ->]; [|by eexists]. etransitivity; [|exact Hf]. apply length_filter.
Qed.

(** ** A small ABI *)

Definition example_abi : abi_def :=
  mk_abi_def [mk_type_def "account" "name"; mk_type_def "accounts" "account[]"]
    [mk_struct_def "base" "" [mk_field_def "a" "account"];
     mk_struct_def "derived" "base" [mk_field_def "b" "node[]"; mk_field_def "c" "accounts"; mk_field_def "d" "uint8?$"];
     mk_struct_def "node" "" [mk_field_def "kids" "node[]"; mk_field_def "v" "choice"]]
    [] [] [mk_variant_def "choice" ["name"; "derived"]].
Definition example_types : abi_types :=
  match convert (length (universe example_abi)) example_abi with Ok a => types_of a | Err _ => ∅ end.
Example example_derived : example_types !! "derived" = Some (struct_ None
  [mk_field "a" "name"; mk_field "b" "node[]"; mk_field "c" "account[]"; mk_field "d" "uint8?$"]).
Proof. vm_compute. reflexivity. Qed.
(** A type that is an alias of itself is refused. *)
Example alias_cycle : convert 100 (mk_abi_def [mk_type_def "a" "b"; mk_type_def "b" "a"] [] [] [] []) = Err (Check recursion_limit_reached).
Proof. vm_compute. reflexivity. Qed.

Definition tiny_abi : abi_def := mk_abi_def [mk_type_def "ids" "uint8[]"] [mk_struct_def "row" "" [mk_field_def "x" "ids"]] [] [] [].
Theorem convert_ends_witness :
  (length (universe tiny_abi) <= 50)%nat /\ ((exists a, convert 50 tiny_abi = Ok a) \/ exists msg, convert 50 tiny_abi = Err (Check msg)).
Proof. assert (length (universe tiny_abi) <= 50)%nat as Hl by (vm_compute; lia). split; [exact Hl|]. exact (convert_ends 50 tiny_abi Hl). Defined.
Theorem convert_resolves_witness :
  exists a, convert 50 tiny_abi = Ok a /\
    forall name d, types_of a !! name = Some d -> resolved d /\ wf_data (types_of a) d.
Proof.
  destruct (convert 50 tiny_abi) as [a|e] eqn:E; [|vm_compute in E; discriminate E]. exists a. split; [reflexivity|].
  destruct (convert_resolves 50 tiny_abi a E) as (types0 & _ & Hall & _). exact Hall.
Defined.
End AbiWf.
