(* ===== verification/AbiBin.v ===== *)
(** Values between JSON and bytes, by the types of an ABI
    ([libraries/abieos/src/abieos.hpp]).  Three machines with a stack of their
    own: from a JSON value ([json_to_bin_reorderable]), from a stream of JSON
    tokens ([json_to_bin]), and from bytes to JSON ([bin_to_json]).  The
    serialization of the built-in types is an interface, [Builtins];
    the module AbiBuiltins implements it, and AbiValue says what the machines
    are meant to do. *)
From S2P Require Import Prelude Name Asset Text Crypto Binary Host Events EventWire Json FromJson AbiDef.
From Stdlib Require Import Ascii.
From Stdlib Require String.
Import Text Json Binary FromJson Jvalue AbiDef.
Open Scope string_scope.
Open Scope list_scope.
Open Scope Z_scope.

Module AbiBin.

(** [abi_serializer_impl<T>] of the built-in types: a value read from JSON - a
    boolean for [bool], text for all others - or bytes, and written. *)
Class Builtins (V : Type) : Type := {
  b_bool : bool -> V;
  b_from_string : string -> string -> result V;
  b_to_bin : string -> V -> result (list Z);
  b_from_bin : string -> list Z -> result (V * list Z);
  b_to_json : string -> V -> list ascii
}.

(** ** Loops over a stack *)

Definition out_of_fuel : error := Trap "out of fuel".
Section machine.
Context {S : Type} (halted : S -> bool) (step : S -> result S).
Fixpoint loop (fuel : nat) (s : S) : result S :=
  if halted s then Ok s else match fuel with O => Err out_of_fuel | Datatypes.S fuel => s ← step s; loop fuel s end.
End machine.

Definition expected_field : string := "Expected field".
Definition unexpected_field : string := "Unexpected field".
Definition expected_variant : string :=
  String.append "Expected variant: [" (String.String quote (String.append "type" (String.String quote ", value]"))).
Definition invalid_type_for_variant : string := "Invalid type for variant".
Definition bad_variant_index : string := "Bad variant index".
Definition no_serializer : error := Trap "null pointer".
Definition nth_field (fields : list abi_field) (position : Z) : result abi_field :=
  some_or (Trap "index out of range") (if 0 <=? position then fields !! Z.to_nat position else None).
(** [++position] of an [int]. *)
Definition next_position (position : Z) : result Z :=
  if position + 1 <? 2 ^ 31 then Ok (position + 1) else Err (Trap "signed overflow").
Definition is_last {A} (l : list A) (position : Z) : bool := position =? Z.of_nat (length l) - 1.
(** [std::find_if] by name: the index of the first. *)
Definition find_alternative (name : string) (fields : list abi_field) : option (nat * abi_field) :=
  list_find (fun f => field_name f = name) fields.

Section serializer.
Context {V : Type} `{Builtins V} (types : abi_types).

(** ** From a JSON value *)

(** [jvalue_to_bin_stack_entry], [jvalue_to_bin_state] *)
Record jentry : Type := mk_jentry { je_type : string; je_allow : bool; je_value : jvalue; je_position : Z }.
Record jstate : Type := mk_jstate {
  j_writer : list Z; received_value : jvalue; j_stack : list jentry; j_skipped : bool }.

Definition j_write (bs : list Z) (st : jstate) : jstate :=
  mk_jstate (j_writer st ++ bs) (received_value st) (j_stack st) (j_skipped st).
Definition j_push (e : jentry) (st : jstate) : jstate :=
  mk_jstate (j_writer st) (received_value st) (e :: j_stack st) (j_skipped st).
Definition j_pop (st : jstate) : jstate := mk_jstate (j_writer st) (received_value st) (drop 1 (j_stack st)) (j_skipped st).
Definition j_receive (v : jvalue) (st : jstate) : jstate := mk_jstate (j_writer st) v (j_stack st) (j_skipped st).
Definition j_move (e : jentry) (position : Z) (st : jstate) : jstate :=
  mk_jstate (j_writer st) (received_value st)
    (mk_jentry (je_type e) (je_allow e) (je_value e) position :: drop 1 (j_stack st)) (j_skipped st).

(** [from_json(x, state); to_bin(x, state.writer)] *)
Definition j_from_json (name : string) (st : jstate) : result V :=
  if String.eqb name "bool" then
    match received_value st with j_bool b => Ok (b_bool b) | _ => Err expected_bool end
  else
    match received_value st with j_string s => b_from_string name s | _ => Err expected_string end.
Definition j_builtin (name : string) (st : jstate) : result jstate :=
  v ← j_from_json name st; bs ← b_to_bin name v; Ok (j_write bs st).

(** The steps of [pseudo_object], [pseudo_array] and [pseudo_variant]; [start]
    begins the value of a type. *)
Section steps.
Context (start : bool -> string -> jstate -> result jstate).
Definition j_object_step (allow : bool) (e : jentry) (st : jstate) : result jstate :=
  d ← deref types (je_type e);
  fields ← some_or no_serializer (as_struct d);
  position ← next_position (je_position e);
  let st := j_move e position st in
  if position =? swrap 32 (Z.of_nat (length fields)) then Ok (j_pop st)
  else
    f ← nth_field fields position;
    obj ← match je_value e with j_object l => Ok l | _ => Err (Trap "bad variant access") end;
    match find_key (field_name f) obj with
    | None =>
        fd ← deref types (field_type f);
        if bool_decide (extension_of fd <> None) && allow
        then Ok (mk_jstate (j_writer st) (received_value st) (j_stack st) true)
        else Err (Check expected_field)
    | Some v =>
        _ ← check (negb (j_skipped st)) unexpected_field;
        start (allow && is_last fields position) (field_type f) (j_receive v st)
    end.
Definition j_array_step (e : jentry) (st : jstate) : result jstate :=
  arr ← match je_value e with j_array l => Ok l | _ => Err (Trap "bad variant access") end;
  position ← next_position (je_position e);
  let st := j_move e position st in
  if position =? swrap 32 (Z.of_nat (length arr)) then Ok (j_pop st)
  else
    v ← some_or (Trap "index out of range") (arr !! Z.to_nat position);
    d ← deref types (je_type e);
    t ← some_or no_serializer (array_of d);
    start false t (j_receive v st).
Definition j_variant_step (allow : bool) (e : jentry) (st : jstate) : result jstate :=
  if je_position e =? 0 then
    '(type_name, v) ← match je_value e with j_array [j_string n; v] => Ok (n, v) | _ => Err (Trap "bad variant access") end;
    d ← deref types (je_type e);
    fields ← some_or no_serializer (as_variant d);
    '(i, f) ← some_or (Check invalid_type_for_variant) (find_alternative type_name fields);
    bs ← varuint32_to_bin (Z.of_nat i);
    start allow (field_type f) (j_receive v (j_move e 1 (j_write bs st)))
  else Ok (j_pop st).
End steps.

(** [json_to_bin(..., start = true)]; an object and a list go on to their first
    field or item at once. *)
Fixpoint j_start (fuel : nat) (allow : bool) (name : string) (st : jstate) : result jstate :=
  match fuel with
  | O => Err out_of_fuel
  | S fuel =>
      d ← deref types name;
      match d with
      | builtin => j_builtin name st
      | optional t =>
          match received_value st with
          | j_null => Ok (j_write [0] st)
          | _ => j_start fuel allow t (j_write [1] st)
          end
      | extension t => j_start fuel allow t st
      | struct_ _ _ =>
          match received_value st with
          | j_object _ =>
              let e := mk_jentry name allow (received_value st) (-1) in
              j_object_step (j_start fuel) allow e (j_push e st)
          | _ => Err expected_start_object
          end
      | array _ =>
          match received_value st with
          | j_array l =>
              n ← varuint32_to_bin (Z.of_nat (length l));
              let e := mk_jentry name false (received_value st) (-1) in
              j_array_step (j_start fuel) e (j_push e (j_write n st))
          | _ => Err expected_start_array
          end
      | variant _ =>
          match received_value st with
          | j_array [j_string _; _] => Ok (j_push (mk_jentry name allow (received_value st) 0) st)
          | _ => Err (Check expected_variant)
          end
      | _ => Err no_serializer
      end
  end.
(** [json_to_bin(..., start = false)] of the type of the top entry. *)
Definition j_step (fuel : nat) (st : jstate) : result jstate :=
  match j_stack st with
  | [] => Ok st
  | e :: _ =>
      d ← deref types (je_type e);
      match d with
      | struct_ _ _ => j_object_step (j_start fuel) (je_allow e) e st
      | array _ => j_array_step (j_start fuel) e st
      | variant _ => j_variant_step (j_start fuel) (je_allow e) e st
      | _ => Err no_serializer
      end
  end.
Definition j_halted (st : jstate) : bool := bool_decide (j_stack st = []).
Definition jvalue_to_bin (fuel : nat) (type : string) (value : jvalue) : result (list Z) :=
  st ← j_start fuel true type (mk_jstate [] value [] false);
  st ← loop j_halted (j_step fuel) fuel st;
  Ok (j_writer st).

(** ** From a stream of tokens *)

Section stream.
Context {Rd : Type} `{JsonReader Rd}.
(** [size_insertion]: where the size of a list goes when it is known. *)
Record size_insertion : Type := mk_insertion { si_position : nat; si_size : Z }.
(** [json_to_bin_stack_entry], [json_to_bin_state] *)
Record sentry : Type := mk_sentry {
  se_type : string; se_allow : bool; se_position : Z; size_insertion_index : nat; variant_type_index : nat }.
Record sstate : Type := mk_sstate {
  s_stream : @json_token_stream Rd; s_writer : list Z; size_insertions : list size_insertion;
  s_stack : list sentry; s_skipped : bool }.

Definition s_write (bs : list Z) (st : sstate) : sstate :=
  mk_sstate (s_stream st) (s_writer st ++ bs) (size_insertions st) (s_stack st) (s_skipped st).
Definition s_push (e : sentry) (st : sstate) : sstate :=
  mk_sstate (s_stream st) (s_writer st) (size_insertions st) (e :: s_stack st) (s_skipped st).
Definition s_pop (st : sstate) : sstate :=
  mk_sstate (s_stream st) (s_writer st) (size_insertions st) (drop 1 (s_stack st)) (s_skipped st).
Definition s_top (e : sentry) (st : sstate) : sstate := s_push e (s_pop st).
Definition s_move (e : sentry) (position : Z) : sstate -> sstate :=
  s_top (mk_sentry (se_type e) (se_allow e) position (size_insertion_index e) (variant_type_index e)).
Definition s_skip (st : sstate) : sstate :=
  mk_sstate (s_stream st) (s_writer st) (size_insertions st) (s_stack st) true.
(** A read of the stream. *)
Definition s_get {A} (get : @json_token_stream Rd -> result (@json_token_stream Rd * A)) (st : sstate) : result (sstate * A) :=
  '(s, a) ← get (s_stream st);
  Ok (mk_sstate s (s_writer st) (size_insertions st) (s_stack st) (s_skipped st), a).

Definition s_from_json (name : string) (st : sstate) : result (sstate * V) :=
  if String.eqb name "bool" then '(st, b) ← s_get get_bool st; Ok (st, b_bool b)
  else '(st, s) ← s_get get_string st; v ← b_from_string name s; Ok (st, v).
Definition s_builtin (name : string) (st : sstate) : result sstate :=
  '(st, v) ← s_from_json name st; bs ← b_to_bin name v; Ok (s_write bs st).

Section steps.
Context (start : bool -> string -> sstate -> result sstate).
Definition s_object_step (allow : bool) (e : sentry) (st : sstate) : result sstate :=
  d ← deref types (se_type e);
  fields ← some_or no_serializer (as_struct d);
  '(st, ended) ← s_get get_end_object_pred st;
  if ended : bool then
    if se_position e + 1 =? Z.of_nat (length fields) then Ok (s_pop st)
    else
      f ← nth_field fields (se_position e + 1);
      fd ← deref types (field_type f);
      _ ← check (bool_decide (extension_of fd <> None) && allow) expected_field;
      Ok (s_pop (s_skip st))
  else
    '(st, key) ← s_get maybe_get_key st;
    match key with
    | Some key =>
        position ← next_position (se_position e);
        _ ← check (negb ((Z.of_nat (length fields) <=? position) || s_skipped st)) unexpected_field;
        f ← nth_field fields position;
        _ ← check (String.eqb key (field_name f)) expected_field;
        Ok (s_move e position st)
    | None =>
        f ← nth_field fields (se_position e);
        start (allow && is_last fields (se_position e)) (field_type f) st
    end.
Definition s_array_step (e : sentry) (st : sstate) : result sstate :=
  '(st, ended) ← s_get get_end_array_pred st;
  if ended : bool then
    let insertions := alter (fun i => mk_insertion (si_position i) (wrap 32 (se_position e + 1))) (size_insertion_index e) (size_insertions st) in
    Ok (s_pop (mk_sstate (s_stream st) (s_writer st) insertions (s_stack st) (s_skipped st)))
  else
    position ← next_position (se_position e);
    let st := s_move e position st in
    d ← deref types (se_type e);
    t ← some_or no_serializer (array_of d);
    start false t st.
Definition s_variant_step (allow : bool) (e : sentry) (st : sstate) : result sstate :=
  let position := se_position e + 1 in
  '(st, ended) ← s_get get_end_array_pred (s_move e position st);
  if ended : bool then _ ← check (position =? 2) expected_variant; Ok (s_pop st)
  else
    d ← deref types (se_type e);
    fields ← some_or no_serializer (as_variant d);
    if position =? 0 then
      '(st, type_name) ← s_get get_string st;
      '(i, _) ← some_or (Check invalid_type_for_variant) (find_alternative type_name fields);
      bs ← varuint32_to_bin (Z.of_nat i);
      Ok (s_write bs (s_top (mk_sentry (se_type e) (se_allow e) position (size_insertion_index e) i) st))
    else if position =? 1 then
      f ← nth_field fields (Z.of_nat (variant_type_index e)); start allow (field_type f) st
    else Err (Check expected_variant).
End steps.

Fixpoint s_start (fuel : nat) (allow : bool) (name : string) (st : sstate) : result sstate :=
  match fuel with
  | O => Err out_of_fuel
  | S fuel =>
      d ← deref types name;
      match d with
      | builtin => s_builtin name st
      | optional t =>
          '(st, null) ← s_get get_null_pred st;
          if null : bool then Ok (s_write [0] st) else s_start fuel allow t (s_write [1] st)
      | extension t => s_start fuel allow t st
      | struct_ _ _ =>
          '(st, _) ← s_get get_start_object st;
          let e := mk_sentry name allow (-1) 0 0 in
          s_object_step (s_start fuel) allow e (s_push e st)
      | array _ =>
          '(st, _) ← s_get get_start_array st;
          let st := s_push (mk_sentry name false (-1) (length (size_insertions st)) 0) st in
          Ok (mk_sstate (s_stream st) (s_writer st) (size_insertions st ++ [mk_insertion (length (s_writer st)) 0])
                (s_stack st) (s_skipped st))
      | variant _ =>
          '(st, _) ← s_get get_start_array st; Ok (s_push (mk_sentry name allow (-1) 0 0) st)
      | _ => Err no_serializer
      end
  end.
Definition s_step (fuel : nat) (st : sstate) : result sstate :=
  match s_stack st with
  | [] => Ok st
  | e :: _ =>
      _ ← check (Nat.leb (length (s_stack st)) max_stack_size) recursion_limit_reached;
      d ← deref types (se_type e);
      match d with
      | struct_ _ _ => s_object_step (s_start fuel) (se_allow e) e st
      | array _ => s_array_step (s_start fuel) e st
      | variant _ => s_variant_step (s_start fuel) (se_allow e) e st
      | _ => Err no_serializer
      end
  end.
Definition s_halted (st : sstate) : bool := bool_decide (s_stack st = []).
(** The bytes with the sizes of the lists in their places. *)
Fixpoint insert_sizes (pos : nat) (insertions : list size_insertion) (out : list Z) : list Z :=
  match insertions with
  | [] => out
  | i :: insertions =>
      let n := (si_position i - pos)%nat in
      take n out ++ varuint_bytes 5 (si_size i) ++ insert_sizes (si_position i) insertions (drop n out)
  end.
Definition json_to_bin (fuel : nat) (type : string) (r : Rd) : result (list Z) :=
  st ← s_start fuel true type (mk_sstate (open_stream r) [] [] [] false);
  st ← loop s_halted (s_step fuel) fuel st;
  _ ← (if parse_complete (reader (s_stream st)) then Ok tt else Err expected_end);
  Ok (insert_sizes 0 (size_insertions st) (s_writer st)).
End stream.

(** ** From bytes to JSON *)

Section bin.
(** [rapidjson::UTF8<>::Validate], for the names of fields. *)
Context (utf8 : list ascii -> option nat).
(** [bin_to_json_stack_entry], [bin_to_json_state] *)
Record bentry : Type := mk_bentry { be_type : string; be_allow : bool; be_position : Z; array_size : Z }.
Record bstate : Type := mk_bstate { bin : list Z; b_writer : list ascii; b_stack : list bentry; b_skipped : bool }.

Definition b_write (s : list ascii) (st : bstate) : bstate := mk_bstate (bin st) (b_writer st ++ s) (b_stack st) (b_skipped st).
Definition b_push (e : bentry) (st : bstate) : bstate := mk_bstate (bin st) (b_writer st) (e :: b_stack st) (b_skipped st).
Definition b_pop (st : bstate) : bstate := mk_bstate (bin st) (b_writer st) (drop 1 (b_stack st)) (b_skipped st).
Definition b_move (e : bentry) (position : Z) (st : bstate) : bstate :=
  mk_bstate (bin st) (b_writer st) (mk_bentry (be_type e) (be_allow e) position (array_size e) :: drop 1 (b_stack st)) (b_skipped st).
Definition b_read {A} (read : list Z -> result (A * list Z)) (st : bstate) : result (bstate * A) :=
  '(a, rest) ← read (bin st); Ok (mk_bstate rest (b_writer st) (b_stack st) (b_skipped st), a).
Definition name_to_json (name : string) : list ascii := string_to_json utf8 (chars_of name).
Definition comma (position : Z) : list ascii := if position =? 0 then [] else [","%char].

Fixpoint b_start (fuel : nat) (allow : bool) (name : string) (st : bstate) : result bstate :=
  match fuel with
  | O => Err out_of_fuel
  | S fuel =>
      d ← deref types name;
      match d with
      | builtin => '(st, v) ← b_read (b_from_bin name) st; Ok (b_write (b_to_json name v) st)
      | optional t =>
          '(st, present) ← b_read (from_bin bool_codec) st;
          if present : bool then b_start fuel allow t st else Ok (b_write (chars_of "null") st)
      | extension t => b_start fuel allow t st
      | struct_ _ _ => Ok (b_write ["{"%char] (b_push (mk_bentry name allow (-1) 0) st))
      | array _ =>
          '(st, n) ← b_read varuint32_from_bin st; Ok (b_write ["["%char] (b_push (mk_bentry name false (-1) n) st))
      | variant _ => Ok (b_write ["["%char] (b_push (mk_bentry name allow (-1) 0) st))
      | _ => Err no_serializer
      end
  end.
Section steps.
Context (start : bool -> string -> bstate -> result bstate).
Definition b_object_step (allow : bool) (e : bentry) (st : bstate) : result bstate :=
  d ← deref types (be_type e);
  fields ← some_or no_serializer (as_struct d);
  position ← next_position (be_position e);
  let st := b_move e position st in
  if position <? Z.of_nat (length fields) then
    f ← nth_field fields position;
    fd ← deref types (field_type f);
    if bool_decide (bin st = []) && bool_decide (extension_of fd <> None) && allow
    then Ok (mk_bstate (bin st) (b_writer st) (b_stack st) true)
    else
      start (allow && is_last fields position) (field_type f)
        (b_write (comma position ++ name_to_json (field_name f) ++ [":"%char]) st)
  else Ok (b_write ["}"%char] (b_pop st)).
Definition b_array_step (e : bentry) (st : bstate) : result bstate :=
  position ← next_position (be_position e);
  let st := b_move e position st in
  if position <? array_size e then
    d ← deref types (be_type e);
    t ← some_or no_serializer (array_of d);
    start false t (b_write (comma position) st)
  else Ok (b_write ["]"%char] (b_pop st)).
Definition b_variant_step (allow : bool) (e : bentry) (st : bstate) : result bstate :=
  let position := be_position e + 1 in
  let st := b_move e position st in
  if position =? 0 then
    '(st, index) ← b_read varuint32_from_bin st;
    d ← deref types (be_type e);
    fields ← some_or no_serializer (as_variant d);
    _ ← check (index <? Z.of_nat (length fields)) bad_variant_index;
    f ← nth_field fields index;
    start (allow && be_allow e) (field_type f) (b_write (name_to_json (field_name f) ++ [","%char]) st)
  else Ok (b_write ["]"%char] (b_pop st)).
End steps.
(** A step, and the check of the stack after it. *)
Definition b_step (fuel : nat) (st : bstate) : result bstate :=
  match b_stack st with
  | [] => Ok st
  | e :: _ =>
      d ← deref types (be_type e);
      st ← match d with
           | struct_ _ _ => b_object_step (b_start fuel) (be_allow e) e st
           | array _ => b_array_step (b_start fuel) e st
           | variant _ => b_variant_step (b_start fuel) (be_allow e) e st
           | _ => Err no_serializer
           end;
      _ ← check (Nat.leb (length (b_stack st)) max_stack_size) recursion_limit_reached;
      Ok st
  end.
Definition b_halted (st : bstate) : bool := bool_decide (b_stack st = []).
(** The text, and what is left of the bytes. *)
Definition bin_to_json (fuel : nat) (type : string) (s : list Z) : result (list ascii * list Z) :=
  st ← b_start fuel true type (mk_bstate s [] [] false);
  st ← loop b_halted (b_step fuel) fuel st;
  Ok (b_writer st, bin st).
End bin.
End serializer.
End AbiBin.

(** What the serializer of ABI types
    ([libraries/abieos/src/abieos.hpp]) is meant to do, without a stack: the
    values of the types of an ABI, the JSON that denotes them, their bytes and
    the JSON written for them. *)
Import Text Json Binary FromJson Jvalue AbiDef AbiWf AbiBin.
Open Scope string_scope.
Open Scope list_scope.
Open Scope Z_scope.

Module AbiValue.

(** What is expected of the built-in types: the values that have a format, and
    their bytes. *)
Class BuiltinLaws (V : Type) `{Builtins V} : Type := {
  b_ok : string -> V -> Prop;
  b_bytes : string -> V -> list Z;
  b_to_bin_law n v : b_ok n v -> b_to_bin n v = Ok (b_bytes n v);
  b_from_bin_law n v rest : b_ok n v -> b_from_bin n (b_bytes n v ++ rest) = Ok (v, rest);
  b_from_bin_ends n s : b_from_bin n s <> Err out_of_fuel;
  b_json_law n v : b_ok n v -> json (b_to_json n v)
}.

(** ** Values *)

Inductive aval (V : Type) : Type :=
  | a_builtin (name : string) (v : V)
  | a_none | a_some (a : aval V) | a_extension (a : aval V)
  | a_object (fields : list (string * aval V))
  | a_array (items : list (aval V))
  | a_variant (i : nat) (name : string) (a : aval V).
Arguments a_builtin {V}.
Arguments a_none {V}.
Arguments a_some {V}.
Arguments a_extension {V}.
Arguments a_object {V}.
Arguments a_array {V}.
Arguments a_variant {V}.

Section values.
Context {V : Type} `{BuiltinLaws V}.
Abbreviation aval := (aval V).

(** The bytes: a list is preceded by its size, an alternative by its index. *)
Fixpoint enc (a : aval) : list Z :=
  match a with
  | a_builtin n v => b_bytes n v
  | a_none => [0]
  | a_some a => 1 :: enc a
  | a_extension a => enc a
  | a_object l => (fix go l := match l with [] => [] | f :: l => enc f.2 ++ go l end) l
  | a_array l =>
      varuint_bytes 5 (Z.of_nat (length l)) ++ (fix go l := match l with [] => [] | a :: l => enc a ++ go l end) l
  | a_variant i _ a => varuint_bytes 5 (Z.of_nat i) ++ enc a
  end.
Definition enc_fields (l : list (string * aval)) : list Z := flat_map (fun f => enc f.2) l.
Definition enc_items (l : list aval) : list Z := flat_map enc l.
Lemma enc_object l : enc (a_object l) = enc_fields l.
Proof. reflexivity. Qed.
Lemma enc_array l : enc (a_array l) = varuint_bytes 5 (Z.of_nat (length l)) ++ enc_items l.
Proof. reflexivity. Qed.

(** The levels of lists, objects and variants: what a stack needs. *)
Fixpoint levels (a : aval) : nat :=
  match a with
  | a_builtin _ _ | a_none => 0%nat
  | a_some a | a_extension a => levels a
  | a_object l => S ((fix go l := match l with [] => 0 | f :: l => Nat.max (levels f.2) (go l) end) l)%nat
  | a_array l => S ((fix go l := match l with [] => 0 | a :: l => Nat.max (levels a) (go l) end) l)%nat
  | a_variant _ _ a => S (levels a)
  end.
(** The levels of all constructors. *)
Fixpoint height (a : aval) : nat :=
  match a with
  | a_builtin _ _ | a_none => 1%nat
  | a_some a | a_extension a | a_variant _ _ a => S (height a)
  | a_object l => S ((fix go l := match l with [] => 0 | f :: l => Nat.max (height f.2) (go l) end) l)%nat
  | a_array l => S ((fix go l := match l with [] => 0 | a :: l => Nat.max (height a) (go l) end) l)%nat
  end.
Definition max_of {A} (f : A -> nat) (l : list A) : nat := foldr (fun a n => Nat.max (f a) n) 0%nat l.
Lemma levels_object l : levels (a_object l) = S (max_of (fun f => levels f.2) l).
Proof. reflexivity. Qed.
Lemma levels_array l : levels (a_array l) = S (max_of levels l).
Proof. reflexivity. Qed.
Lemma height_object l : height (a_object l) = S (max_of (fun f => height f.2) l).
Proof. reflexivity. Qed.
Lemma height_array l : height (a_array l) = S (max_of height l).
Proof. reflexivity. Qed.

Section text.
Context (utf8 : list ascii -> option nat).
(** The JSON written for a value. *)
Fixpoint text (a : aval) : list ascii :=
  match a with
  | a_builtin n v => b_to_json n v
  | a_none => chars_of "null"
  | a_some a | a_extension a => text a
  | a_object l =>
      "{"%char :: join ((fix go l := match l with [] => [] | f :: l => (name_to_json utf8 f.1 ++ ":"%char :: text f.2) :: go l end) l) ++ ["}"%char]
  | a_array l => "["%char :: join ((fix go l := match l with [] => [] | a :: l => text a :: go l end) l) ++ ["]"%char]
  | a_variant _ name a => "["%char :: name_to_json utf8 name ++ ","%char :: text a ++ ["]"%char]
  end.
Definition field_text (f : string * aval) : list ascii := name_to_json utf8 f.1 ++ ":"%char :: text f.2.
Lemma text_object l : text (a_object l) = "{"%char :: join (field_text <$> l) ++ ["}"%char].
Proof. reflexivity. Qed.
Lemma text_array l : text (a_array l) = "["%char :: join (text <$> l) ++ ["]"%char].
Proof. reflexivity. Qed.
End text.

(** ** Values of a type *)

Section types.
Context (types : abi_types).
(** [strict]: the fields of objects come in the order of the type and there are
    no others, as [json_to_bin] wants them. *)
Context (strict : bool).

Definition is_extension (f : abi_field) : Prop := exists t, types !! field_type f = Some (extension t).
(** The JSON of a field, and the fields that are left. *)
Definition take_field (name : string) (obj : list (string * jvalue)) : option (jvalue * list (string * jvalue)) :=
  if strict then match obj with f :: obj => if String.eqb f.1 name then Some (f.2, obj) else None | [] => None end
  else v ← find_key name obj; Some (v, obj).
Definition no_field (name : string) (obj : list (string * jvalue)) : Prop :=
  if strict then obj = [] else find_key name obj = None.
Definition b_reads (n : string) (j : jvalue) (v : V) : Prop :=
  b_ok n v /\ if String.eqb n "bool" then exists b, j = j_bool b /\ v = b_bool b
              else exists s, j = j_string s /\ b_from_string n s = Ok v.

(** A JSON value denotes a value of a type, with fields and items that an
    [int] counts; [allow]: extensions may be left out
    at its end, and the last argument tells whether some are. *)
Inductive typed : bool -> string -> jvalue -> aval -> bool -> Prop :=
  | ty_builtin al n j v : types !! n = Some builtin -> b_reads n j v -> typed al n j (a_builtin n v) false
  | ty_none al n t : types !! n = Some (optional t) -> typed al n j_null a_none false
  | ty_some al n t j a sk : types !! n = Some (optional t) -> j <> j_null -> typed al t j a sk -> typed al n j (a_some a) sk
  | ty_extension al n t j a sk : types !! n = Some (extension t) -> typed al t j a sk -> typed al n j (a_extension a) sk
  | ty_object al n b fs obj l sk : types !! n = Some (struct_ b fs) -> Z.of_nat (length fs) < 2 ^ 31 -> typed_fields al fs obj l sk ->
      typed al n (j_object obj) (a_object l) sk
  | ty_array al n t js l : types !! n = Some (array t) -> Z.of_nat (length l) < 2 ^ 31 -> typed_items t js l ->
      typed al n (j_array js) (a_array l) false
  | ty_variant al n fs i f j a sk : types !! n = Some (variant fs) -> Z.of_nat i < 2 ^ 32 ->
      find_alternative (field_name f) fs = Some (i, f) -> typed al (field_type f) j a sk ->
      typed al n (j_array [j_string (field_name f); j]) (a_variant i (field_name f) a) sk
with typed_fields : bool -> list abi_field -> list (string * jvalue) -> list (string * aval) -> bool -> Prop :=
  | tf_nil al obj : (strict = true -> obj = []) -> typed_fields al [] obj [] false
  (** A field that may be left out but is there takes at least a byte. *)
  | tf_cons al f fs obj j obj' a l sk sk' : take_field (field_name f) obj = Some (j, obj') ->
      typed (al && bool_decide (fs = [])) (field_type f) j a sk -> typed_fields al fs obj' l sk' ->
      (al = true -> is_extension f -> enc a <> []) ->
      typed_fields al (f :: fs) obj ((field_name f, a) :: l) (sk || sk')
  | tf_skip f fs obj sk : is_extension f -> no_field (field_name f) obj -> typed_fields true fs obj [] sk ->
      typed_fields true (f :: fs) obj [] true
with typed_items : string -> list jvalue -> list aval -> Prop :=
  | ti_nil t : typed_items t [] []
  | ti_cons t j js a l : typed false t j a false -> typed_items t js l -> typed_items t (j :: js) (a :: l).
End types.
End values.
Scheme typed_mut := Minimality for typed Sort Prop
  with typed_fields_mut := Minimality for typed_fields Sort Prop
  with typed_items_mut := Minimality for typed_items Sort Prop.
Combined Scheme typed_all from typed_mut, typed_fields_mut, typed_items_mut.
End AbiValue.

(** The built-in types of an ABI that are integers, booleans, text and bytes
    ([abi_serializer_impl<T>] of [libraries/abieos/src/abieos.hpp], with
    [from_json_int] of [from_json.hpp], [to_json.hpp], [to_bin.hpp] and
    [from_bin.hpp]), and that they keep what AbiValue expects of built-in
    types.  The other built-in types - names, dates, assets, checksums, keys,
    floats - are not implemented here; a value of them is refused. *)
Import Text Json Crypto Binary EventWire FromJson Jvalue AbiDef AbiBin AbiValue.
Open Scope string_scope.
Open Scope list_scope.
Open Scope Z_scope.

Module AbiBuiltins.

Inductive bvalue : Type := v_bool (b : bool) | v_int (z : Z) | v_string (s : string) | v_bytes (l : list Z).

(** The integers: whether they have a sign, and their bytes. *)
Definition int_type (name : string) : option (bool * nat) :=
  find_key name [("int8", (true, 1)); ("uint8", (false, 1)); ("int16", (true, 2)); ("uint16", (false, 2));
    ("int32", (true, 4)); ("uint32", (false, 4)); ("int64", (true, 8)); ("uint64", (false, 8));
    ("int128", (true, 16)); ("uint128", (false, 16))]%nat.
Definition int_codec (signed : bool) (n : nat) : codec Z := if signed then sint n else uint n.
Definition bits (n : nat) : Z := 8 * Z.of_nat n.
Definition no_value : error := Trap "value of another type".

(** [bytes]: the size is read as 64 bits. *)
Definition abi_bytes_from_bin (s : list Z) : result (list Z * list Z) :=
  '(n, s) ← varuint64_from_bin s; read (Z.to_nat n) s.

Definition from_string (name s : string) : result bvalue :=
  match int_type name with
  | Some (signed, n) => v_int <$> from_json_int signed (bits n) s
  | None =>
      if String.eqb name "varuint32" then v_int <$> from_json_int false 32 s
      else if String.eqb name "string" then Ok (v_string s)
      else if String.eqb name "bytes" then v_bytes <$> from_json_hex s
      else Err no_serializer
  end.
Definition value_to_bin (name : string) (v : bvalue) : result (list Z) :=
  match int_type name, v with
  | Some (signed, n), v_int z => to_bin (int_codec signed n) z
  | Some _, _ => Err no_value
  | None, v_bool b => if String.eqb name "bool" then to_bin bool_codec b else Err no_value
  | None, v_int z => if String.eqb name "varuint32" then varuint32_to_bin z else Err no_value
  | None, v_string s => if String.eqb name "string" then to_bin string_codec s else Err no_value
  | None, v_bytes l => if String.eqb name "bytes" then to_bin bytes_codec l else Err no_value
  end.
Definition value_from_bin (name : string) (s : list Z) : result (bvalue * list Z) :=
  match int_type name with
  | Some (signed, n) => '(z, s) ← from_bin (int_codec signed n) s; Ok (v_int z, s)
  | None =>
      if String.eqb name "varuint32" then '(z, s) ← varuint32_from_bin s; Ok (v_int z, s)
      else if String.eqb name "bool" then '(b, s) ← from_bin bool_codec s; Ok (v_bool b, s)
      else if String.eqb name "string" then '(t, s) ← from_bin string_codec s; Ok (v_string t, s)
      else if String.eqb name "bytes" then '(l, s) ← abi_bytes_from_bin s; Ok (v_bytes l, s)
      else Err no_serializer
  end.

Section json.
Context (utf8 : list ascii -> option nat).
Definition value_to_json (name : string) (v : bvalue) : list ascii :=
  match v with
  | v_bool b => bool_to_json b
  | v_int z => int_to_json (match int_type name with Some (_, n) => Z.of_nat n | None => 4 end) z
  | v_string s => string_to_json utf8 (chars_of s)
  | v_bytes l => hex_to_json l
  end.
#[local] Instance builtins : Builtins bvalue := {
  b_bool := v_bool;
  b_from_string := from_string;
  b_to_bin := value_to_bin;
  b_from_bin := value_from_bin;
  b_to_json := value_to_json
}.

(** ** The laws *)

Definition value_ok (name : string) (v : bvalue) : Prop :=
  match int_type name, v with
  | Some (signed, n), v_int z => int_min signed (bits n) <= z <= int_max signed (bits n)
  | None, v_bool _ => name = "bool"
  | None, v_int z => name = "varuint32" /\ 0 <= z < 2 ^ 32
  | None, v_string s => name = "string" /\ Z.of_nat (length (bytes_of_string s)) < 2 ^ 32
  | None, v_bytes l => name = "bytes" /\ bytes l /\ Z.of_nat (length l) < 2 ^ 32
  | _, _ => False
  end.
Definition bytes_of_value (name : string) (v : bvalue) : list Z := match value_to_bin name v with Ok bs => bs | Err _ => [] end.

Lemma int_type_size name s n : int_type name = Some (s, n) -> n ∈ [1; 2; 4; 8; 16]%nat.
Proof.
  unfold int_type, find_key. cbn [List.find fst].
  repeat (destruct (String.eqb _ name); [cbn; intros [= <- <-]; set_solver|]). done.
Qed.
Lemma int_codec_law signed n z rest : n ∈ [1; 2; 4; 8; 16]%nat ->
  int_min signed (bits n) <= z <= int_max signed (bits n) ->
  exists bs, to_bin (int_codec signed n) z = Ok bs /\ from_bin (int_codec signed n) (bs ++ rest) = Ok (z, rest).
Proof.
  intros Hn Hz. assert (0 < bits n) as Hb by (unfold bits; set_unfold in Hn; lia).
  assert (256 ^ Z.of_nat n = 2 ^ bits n) as Hp by (unfold bits; rewrite Z.pow_mul_r by lia; done).
  assert (2 ^ bits n = 2 * 2 ^ (bits n - 1)) as H2 by (rewrite <- Z.pow_succ_r by lia; f_equal; lia).
  destruct signed; cbn [int_codec int_min int_max] in *; (eexists; split; [reflexivity|]).
  - unfold sint. cbn [from_bin]. rewrite read_exactly by apply le_bytes_length. cbn [mbind result_bind].
    rewrite of_le_le_bytes by (rewrite Hp; apply wrap_bounds; lia). fold (bits n). do 2 f_equal.
    unfold swrap, wrap. rewrite Zplus_mod_idemp_l, Z.mod_small by lia. lia.
  - apply (uint_lawful n z _ rest); [lia|reflexivity].
Qed.
Lemma varuint_read_more fuel w acc shift s r :
  varuint_read fuel w acc shift s = Ok r -> varuint_read (S fuel) w acc shift s = Ok r.
Proof.
  revert acc shift s. induction fuel as [|fuel IH]; intros acc shift s E; [done|].
  cbn [varuint_read] in E. destruct s as [|b s]; [done|]. cbn zeta in E.
  change (varuint_read (S (S fuel)) w acc shift (b :: s)) with
    (let acc := Z.lor acc (wrap w (Z.shiftl (Z.land b 0x7f) shift)) in
     if negb (Z.land b 0x80 =? 0) then varuint_read (S fuel) w acc (shift + 7) s else Ok (acc, s)).
  cbn zeta. destruct (negb _); [by apply IH|done].
Qed.
Lemma varuint64_reads_32 n rest : 0 <= n < 2 ^ 32 -> varuint64_from_bin (varuint_bytes 5 n ++ rest) = Ok (n, rest).
Proof.
  intros Hn. unfold varuint64_from_bin. do 5 apply varuint_read_more. rewrite varuint_roundtrip.
  - by rewrite Z.shiftl_0_r, Z.lor_0_l.
  - cbn. lia.
  - lia.
  - rewrite Z.shiftl_0_r. split; [lia|]. etransitivity; [apply Hn|done].
Qed.
Lemma value_codec name v rest : value_ok name v ->
  value_to_bin name v = Ok (bytes_of_value name v) /\ value_from_bin name (bytes_of_value name v ++ rest) = Ok (v, rest).
Proof.
  unfold value_ok, bytes_of_value, value_to_bin, value_from_bin. destruct (int_type name) as [[signed n]|] eqn:Ei.
  - destruct v as [|z| |]; try done. intros Hz. destruct (int_codec_law signed n z rest (int_type_size _ _ _ Ei) Hz) as (bs & E1 & E2).
    rewrite E1, E2. done.
  - destruct v as [b|z|s|l].
    + intros ->. by destruct b.
    + intros [-> Hz]. cbn [String.eqb Ascii.eqb Bool.eqb]. rewrite varuint32_total by done. by rewrite varuint32_read_back.
    + intros [-> Hs]. cbn [String.eqb Ascii.eqb Bool.eqb].
      destruct (string_complete s Hs) as (bs & E1 & E2). rewrite E1, E2. done.
    + intros (-> & Hb & Hl). cbn [String.eqb Ascii.eqb Bool.eqb bytes_codec to_bin]. rewrite varuint32_total by lia.
      cbn [check mbind result_bind]. split; [done|]. unfold abi_bytes_from_bin. rewrite <- app_assoc, varuint64_reads_32 by lia.
      cbn [mbind result_bind]. rewrite Nat2Z.id, read_exactly by done. done.
Qed.
Lemma value_from_bin_ends name s : value_from_bin name s <> Err out_of_fuel.
Proof.
  assert (forall n s, read n s <> Err out_of_fuel) as Hr by (intros n l; unfold read; by destruct (Nat.leb n (length l))).
  assert (forall f w acc shift s, varuint_read f w acc shift s <> Err out_of_fuel) as Hv.
  { intros f w. induction f as [|f IH]; intros acc shift l; cbn [varuint_read]; [done|]. destruct l; [done|]. cbn zeta. destruct (negb _); [apply IH|done]. }
  unfold value_from_bin. destruct (int_type name) as [[[] n]|].
  - unfold int_codec, sint. cbn [from_bin]. pose proof (Hr n s). destruct (read n s) as [[]|]; cbn; congruence.
  - unfold int_codec, uint. cbn [from_bin]. pose proof (Hr n s). destruct (read n s) as [[]|]; cbn; congruence.
  - destruct (String.eqb name "varuint32").
    { unfold varuint32_from_bin. pose proof (Hv 5%nat 32 0 0 s). destruct (varuint_read _ _ _ _ _) as [[]|]; cbn; congruence. }
    destruct (String.eqb name "bool").
    { cbn [bool_codec from_bin]. pose proof (Hr 1%nat s). destruct (read 1 s) as [[]|]; cbn; congruence. }
    destruct (String.eqb name "string").
    { cbn [string_codec bytes_codec from_bin]. unfold varuint32_from_bin. pose proof (Hv 5%nat 32 0 0 s).
      destruct (varuint_read _ _ _ _ _) as [[n t]|]; cbn; [|congruence]. pose proof (Hr (Z.to_nat n) t). destruct (read _ t) as [[]|]; cbn; congruence. }
    destruct (String.eqb name "bytes"); [|done].
    unfold abi_bytes_from_bin, varuint64_from_bin. pose proof (Hv 10%nat 64 0 0 s).
    destruct (varuint_read _ _ _ _ _) as [[n t]|]; cbn; [|congruence]. pose proof (Hr (Z.to_nat n) t). destruct (read _ t) as [[]|]; cbn; congruence.
Qed.
Lemma value_json_law name v : value_ok name v -> json (value_to_json name v).
Proof.
  unfold value_ok. destruct (int_type name) as [[signed n]|] eqn:Ei; destruct v as [b|z|s|l]; try done; cbn [value_to_json].
  - intros _. rewrite Ei. apply int_is_json. pose proof (int_type_size _ _ _ Ei). set_unfold. lia.
  - intros _. apply bool_is_json.
  - intros _. rewrite Ei. apply int_is_json. lia.
  - intros _. apply string_is_json.
  - intros (_ & Hb & _). apply hex_is_json, Hb.
Qed.
#[local] Instance builtin_laws : BuiltinLaws bvalue := {
  b_ok := value_ok;
  b_bytes := bytes_of_value;
  b_to_bin_law n v H := proj1 (value_codec n v [] H);
  b_from_bin_law n v rest H := proj2 (value_codec n v rest H);
  b_from_bin_ends := value_from_bin_ends;
  b_json_law := value_json_law
}.
End json.
End AbiBuiltins.
