(* ===== verification/AbiBinRun.v ===== *)
(** The machines of the ABI serializer
    ([libraries/abieos/src/abieos.hpp]) do what AbiValue says: they write the
    bytes of the value a JSON document denotes, and the JSON of the value the
    bytes hold. *)
From S2P Require Import Prelude Name Text Binary Json FromJson AbiDef AbiBin.
From Stdlib Require Import Ascii.
From Stdlib Require String.
Import Text Json Binary FromJson Jvalue AbiDef AbiWf AbiBin AbiValue.
Open Scope string_scope.
Open Scope list_scope.
Open Scope Z_scope.

Module AbiBinRun.

(** ** Steps of a loop *)

Section machine.
Context {S : Type} (halted : S -> bool) (step : S -> result S).
Inductive steps : nat -> S -> S -> Prop :=
  | steps_done s : steps 0 s s
  | steps_more n s s1 s2 : halted s = false -> step s = Ok s1 -> steps n s1 s2 -> steps (Datatypes.S n) s s2.
Lemma steps_trans n m s1 s2 s3 : steps n s1 s2 -> steps m s2 s3 -> steps (n + m) s1 s3.
Proof. induction 1 as [|n s s1 s2 Hh Hs Hn IH]; intros Hm; [done|]. cbn. eapply steps_more; [done|done|by apply IH]. Qed.
Lemma steps_loop n s s' fuel : steps n s s' -> halted s' = true -> (n <= fuel)%nat -> loop halted step fuel s = Ok s'.
Proof.
  intros Hn. revert fuel. induction Hn as [s|n s s1 s2 Hh Hs Hn IH]; intros fuel Hend Hf.
  - destruct fuel; cbn; by rewrite Hend.
  - destruct fuel as [|fuel]; [lia|]. cbn. rewrite Hh, Hs. cbn. apply IH; [done|lia].
Qed.
End machine.

Lemma max_of_cons {A} (f : A -> nat) x l : max_of f (x :: l) = Nat.max (f x) (max_of f l).
Proof. reflexivity. Qed.

Section serializer.
Context {V : Type} `{BuiltinLaws V} (types : abi_types).
Abbreviation aval := (aval V).

(** Nothing is left out where that is not allowed. *)
Lemma typed_no_skip strict al n j a sk : typed types strict al n j a sk -> al = false -> sk = false.
Proof.
  revert al n j a sk.
  apply (typed_mut V _ _ types strict (fun al _ _ _ sk => al = false -> sk = false)
    (fun al _ _ _ sk => al = false -> sk = false) (fun _ _ _ => True)); try done.
  intros al f fs obj j obj' a l sk sk' _ _ IH1 _ IH2 _ ->. by rewrite IH1, IH2.
Qed.
Lemma deref_some n d : types !! n = Some d -> deref types n = Ok d.
Proof. unfold deref. by intros ->. Qed.
Lemma length_snoc {A} (pre : list A) x : Z.of_nat (length pre) = Z.of_nat (length (pre ++ [x])) - 1.
Proof. rewrite length_app. cbn. lia. Qed.
Lemma next_position_ok n p : p + 1 = Z.of_nat n -> Z.of_nat n < 2 ^ 31 -> next_position p = Ok (Z.of_nat n).
Proof. unfold next_position. intros -> Hn. by rewrite (proj2 (Z.ltb_lt _ _)) by done. Qed.
Lemma as_int n : Z.of_nat n < 2 ^ 31 -> swrap 32 (Z.of_nat n) = Z.of_nat n.
Proof. intros Hn. apply swrap_small; lia. Qed.
Lemma is_last_app (pre : list abi_field) f fs : is_last (pre ++ f :: fs) (Z.of_nat (length pre)) = bool_decide (fs = []).
Proof.
  unfold is_last. rewrite length_app. cbn [length]. apply eq_true_iff_eq. rewrite Z.eqb_eq, bool_decide_eq_true.
  split; [intros E; apply nil_length_inv; lia|intros ->; cbn; lia].
Qed.
Lemma nth_field_app (pre : list abi_field) f fs : nth_field (pre ++ f :: fs) (Z.of_nat (length pre)) = Ok f.
Proof. unfold nth_field. by rewrite (proj2 (Z.leb_le _ _)), Nat2Z.id, list_lookup_middle by lia. Qed.
Lemma varuint32_write n : 0 <= n < 2 ^ 32 -> varuint32_to_bin n = Ok (varuint_bytes 5 n).
Proof.
  intros Hn. unfold varuint32_to_bin. rewrite check_true; [done|]. rewrite Z.shiftr_div_pow2, Z.div_small by lia. done.
Qed.

(** ** From a JSON value *)

Abbreviation typed := (typed types false).
Abbreviation typed_fields := (typed_fields types false).
Abbreviation typed_items := (typed_items types false).
Abbreviation jsteps F := (steps j_halted (j_step types F)).
Definition j_end (st : jstate) (bs : list Z) (r : jvalue) (stack : list jentry) (sk : bool) : jstate :=
  mk_jstate (j_writer st ++ bs) r stack sk.

(** Starting a value writes its bytes and leaves the stack as it was. *)
Definition j_runs (al : bool) (n : string) (j : jvalue) (a : aval) (sk : bool) : Prop := exists k, forall F F0 st,
  (height a <= F)%nat -> (F <= F0)%nat -> received_value st = j -> j_skipped st = false ->
  exists st1 r, j_start types F al n st = Ok st1 /\ jsteps F0 k st1 (j_end st (enc a) r (j_stack st) sk).
Definition j_fields_run (al : bool) (fs : list abi_field) (obj : list (string * jvalue)) (l : list (string * aval)) (sk : bool) : Prop :=
  exists k, forall name b pre F F0 st rest, types !! name = Some (struct_ b (pre ++ fs)) ->
  Z.of_nat (length (pre ++ fs)) < 2 ^ 31 ->
  (max_of (fun f => height f.2) l <= F)%nat -> (F <= F0)%nat ->
  let e := mk_jentry name al (j_object obj) (Z.of_nat (length pre) - 1) in
  j_stack st = e :: rest -> (j_skipped st = true -> l = []) ->
  exists st1 r, j_object_step types (j_start types F) al e st = Ok st1 /\
    jsteps F0 k st1 (j_end st (enc_fields l) r rest (j_skipped st || sk)).
Definition j_items_run (t : string) (js : list jvalue) (l : list aval) : Prop :=
  exists k, forall name pre F F0 st rest, types !! name = Some (array t) -> Z.of_nat (length (pre ++ js)) < 2 ^ 31 ->
  (max_of height l <= F)%nat -> (F <= F0)%nat ->
  let e := mk_jentry name false (j_array (pre ++ js)) (Z.of_nat (length pre) - 1) in
  j_stack st = e :: rest -> j_skipped st = false ->
  exists st1 r, j_array_step types (j_start types F) e st = Ok st1 /\
    jsteps F0 k st1 (j_end st (enc_items l) r rest false).

Lemma j_runs_builtin al n j v : types !! n = Some builtin -> b_reads n j v -> j_runs al n j (a_builtin n v) false.
Proof.
  intros Hn [Hok Hj]. exists 0%nat. intros F F0 st HF _ Hr Hs. cbn in HF. destruct F as [|F]; [lia|]. cbn [j_start]. unfold deref. rewrite Hn. cbn [some_or mbind result_bind].
  unfold j_builtin. assert (j_from_json n st = Ok v) as ->.
  { unfold j_from_json. rewrite Hr. destruct (String.eqb n "bool"); [by destruct Hj as (b & -> & ->)|by destruct Hj as (s & -> & E)]. }
  cbn [mbind result_bind]. rewrite (b_to_bin_law _ _ Hok). cbn [mbind result_bind]. eexists _, j. split; [reflexivity|].
  unfold j_write, j_end. rewrite Hr, Hs. constructor.
Qed.

Lemma typed_items_length t js l : typed_items t js l -> length js = length l.
Proof. intros Ht. induction Ht; cbn; congruence. Qed.
Lemma j_runs_none al n t : types !! n = Some (optional t) -> j_runs al n j_null a_none false.
Proof.
  intros Hn. exists 0%nat. intros F F0 st HF _ Hr Hs. cbn in HF. destruct F as [|F]; [lia|]. cbn [j_start]. unfold deref. rewrite Hn, Hr.
  cbn [some_or mbind result_bind]. eexists _, j_null. split; [reflexivity|]. unfold j_write, j_end. rewrite Hr, Hs. constructor.
Qed.
Lemma j_runs_some al n t j a sk : types !! n = Some (optional t) -> j <> j_null -> typed al t j a sk ->
  j_runs al t j a sk -> j_runs al n j (a_some a) sk.
Proof.
  intros Hn Hj _ [k IH]. exists k. intros F F0 st HF HF0 Hr Hs. cbn in HF. destruct F as [|F]; [lia|]. cbn [j_start]. unfold deref. rewrite Hn, Hr.
  cbn [some_or mbind result_bind]. destruct (IH F F0 (j_write [1] st)) as (st1 & r & E & Hk); [lia|lia|done|done|].
  exists st1, r. split; [by destruct j|]. unfold j_end in *. cbn [j_write j_writer j_stack] in Hk. by rewrite <- app_assoc in Hk.
Qed.
Lemma j_runs_extension al n t j a sk : types !! n = Some (extension t) -> typed al t j a sk ->
  j_runs al t j a sk -> j_runs al n j (a_extension a) sk.
Proof.
  intros Hn _ [k IH]. exists k. intros F F0 st HF HF0 Hr Hs. cbn in HF. destruct F as [|F]; [lia|]. cbn [j_start]. unfold deref. rewrite Hn.
  cbn [some_or mbind result_bind]. apply IH; [lia|lia|done|done].
Qed.
Lemma j_runs_object al n b fs obj l sk : types !! n = Some (struct_ b fs) -> Z.of_nat (length fs) < 2 ^ 31 ->
  typed_fields al fs obj l sk ->
  j_fields_run al fs obj l sk -> j_runs al n (j_object obj) (a_object l) sk.
Proof.
  intros Hn Hsz _ [k IH]. exists k. intros F F0 st HF HF0 Hr Hs. rewrite height_object in HF. destruct F as [|F]; [lia|].
  cbn [j_start]. unfold deref. rewrite Hn, Hr. cbn [some_or mbind result_bind].
  destruct (IH n b [] F F0 (j_push (mk_jentry n al (j_object obj) (-1)) st) (j_stack st)) as (st1 & r & E & Hk);
    [done|done|lia|lia|done|by cbn; rewrite Hs|]. exists st1, r. split; [exact E|]. unfold j_end in *. cbn [j_push j_writer j_skipped] in Hk. by rewrite Hs in Hk.
Qed.
Lemma j_runs_array al n t js l : types !! n = Some (array t) -> Z.of_nat (length l) < 2 ^ 31 -> typed_items t js l ->
  j_items_run t js l -> j_runs al n (j_array js) (a_array l) false.
Proof.
  intros Hn Hl Ht [k IH]. exists k. intros F F0 st HF HF0 Hr Hs. rewrite height_array in HF. destruct F as [|F]; [lia|].
  cbn [j_start]. unfold deref. rewrite Hn, Hr. cbn [some_or mbind result_bind].
  rewrite (typed_items_length _ _ _ Ht), varuint32_write by lia. cbn [mbind result_bind].
  destruct (IH n [] F F0 (j_push (mk_jentry n false (j_array js) (-1)) (j_write (varuint_bytes 5 (Z.of_nat (length l))) st)) (j_stack st))
    as (st1 & r & E & Hk); [done|cbn; rewrite (typed_items_length _ _ _ Ht); lia|lia|lia|done|done|]. exists st1, r. split; [exact E|].
  unfold j_end in *. cbn [j_push j_write j_writer] in Hk. by rewrite <- app_assoc in Hk.
Qed.
Lemma j_runs_variant al n fs i f j a sk : types !! n = Some (variant fs) -> Z.of_nat i < 2 ^ 32 ->
  find_alternative (field_name f) fs = Some (i, f) -> typed al (field_type f) j a sk ->
  j_runs al (field_type f) j a sk -> j_runs al n (j_array [j_string (field_name f); j]) (a_variant i (field_name f) a) sk.
Proof.
  intros Hn Hi Hf _ [k IH]. exists (S (k + 1)). intros F F0 st HF HF0 Hr Hs. cbn in HF. destruct F as [|F]; [lia|].
  cbn [j_start]. unfold deref. rewrite Hn, Hr. cbn [some_or mbind result_bind].
  set (e := mk_jentry n al (j_array [j_string (field_name f); j]) 0).
  destruct (IH F0 F0 (j_receive j (j_move e 1 (j_write (varuint_bytes 5 (Z.of_nat i)) (j_push e st))))) as (st1 & r & E & Hk); [lia|lia|done|done|].
  eexists _, r. split; [reflexivity|]. eapply steps_more; [reflexivity| |].
  + unfold j_step. cbn [j_push j_stack]. unfold deref at 1. cbn [je_type e]. rewrite Hn. cbn [some_or mbind result_bind je_allow e].
    unfold j_variant_step. cbn [je_position je_value e]. rewrite Z.eqb_refl. cbn [mbind result_bind]. unfold deref. cbn [je_type e]. rewrite Hn.
    cbn [some_or mbind result_bind as_variant]. rewrite Hf. cbn [some_or mbind result_bind]. rewrite varuint32_write by lia. exact E.
  + eapply steps_trans; [exact Hk|]. eapply steps_more; [reflexivity| |apply steps_done].
    unfold j_step. cbn [j_stack j_receive j_move j_end]. unfold deref. cbn [je_type e]. rewrite Hn. cbn [some_or mbind result_bind].
    unfold j_variant_step. cbn [je_position]. cbn. f_equal. unfold j_pop, j_end. cbn. by rewrite <- app_assoc.
Qed.
Lemma j_runs_no_fields al obj : (false = true -> obj = []) -> j_fields_run al [] obj [] false.
Proof.
  intros _. exists 0%nat. intros name b pre F F0 st rest Hn Hsz HF HF0 e He Hs. unfold j_object_step. cbn [je_type e]. unfold deref. rewrite Hn.
  cbn [some_or mbind result_bind as_struct je_position e]. rewrite app_nil_r in *. rewrite (next_position_ok (length pre)) by (rewrite ?length_app in Hsz; lia). cbn [mbind result_bind]. rewrite as_int by done.
  rewrite Z.eqb_refl. eexists _, (received_value st). split; [reflexivity|]. rewrite orb_false_r. unfold j_pop, j_move, j_end. cbn. rewrite He, app_nil_r.
  cbn. rewrite drop_0. constructor.
Qed.
Lemma j_runs_field al f fs obj j obj' a l sk sk' : take_field false (field_name f) obj = Some (j, obj') ->
  typed (al && bool_decide (fs = [])) (field_type f) j a sk -> j_runs (al && bool_decide (fs = [])) (field_type f) j a sk ->
  typed_fields al fs obj' l sk' -> j_fields_run al fs obj' l sk' -> (al = true -> is_extension types f -> enc a <> []) ->
  j_fields_run al (f :: fs) obj ((field_name f, a) :: l) (sk || sk').
Proof.
  intros Hf Ht [k1 IH1] Hfs [k2 IH2] _. exists (k1 + S k2)%nat. intros name b pre F F0 st rest Hn Hsz HF HF0 e He Hs.
  rewrite max_of_cons in HF. cbn [snd] in HF.
  destruct (j_skipped st) eqn:Esk; [by specialize (Hs eq_refl)|]. unfold take_field in Hf.
  destruct (find_key (field_name f) obj) as [v|] eqn:Ef; [|done]. cbn in Hf. injection Hf as -> ->.
  pose proof (length_snoc pre f) as Hp.
  set (e1 := mk_jentry name al (j_object obj') (Z.of_nat (length (pre ++ [f])) - 1)).
  set (st0 := j_receive j (j_move e (Z.of_nat (length (pre ++ [f])) - 1) st)).
  assert (j_stack st0 = e1 :: rest) as Hst0 by (cbn; rewrite He; unfold e1; by rewrite <- ?app_assoc).
  destruct (IH1 F F0 st0) as (st1 & r1 & E1 & Hk1); [lia|lia|done|done|].
  destruct (IH2 name b (pre ++ [f]) F0 F0 (j_end st0 (enc a) r1 (e1 :: rest) sk) rest)
    as (st2 & r2 & E2 & Hk2); [by rewrite <- app_assoc|by rewrite <- app_assoc|lia|lia|done| |].
  { cbn. intros ->. destruct (decide (fs = [])) as [->|Hne]; [by inversion Hfs|].
    assert (true = false); [|done]. eapply typed_no_skip; [exact Ht|]. rewrite bool_decide_eq_false_2 by done. apply andb_false_r. }
  exists st1, r2. split.
  + unfold j_object_step. cbn [je_type e]. rewrite (deref_some _ _ Hn). cbn [some_or mbind result_bind as_struct je_position e je_value].
    rewrite (next_position_ok (length pre)) by (rewrite ?length_app in Hsz; lia). cbn [mbind result_bind]. rewrite as_int by done.
    rewrite (proj2 (Z.eqb_neq _ _)) by (rewrite length_app; cbn; lia). rewrite nth_field_app. cbn [mbind result_bind].
    rewrite Ef. cbn [j_move j_skipped]. rewrite Esk, is_last_app. cbn [negb check mbind result_bind]. rewrite Hp. exact E1.
  + eapply steps_trans; [exact Hk1|]. rewrite Hst0. eapply steps_more; [reflexivity| |].
    * unfold j_step. cbn [j_end j_stack]. unfold deref. cbn [je_type e1]. rewrite Hn. cbn [some_or mbind result_bind je_allow e1]. exact E2.
    * unfold j_end in *. cbn [j_writer j_skipped] in Hk2. cbn [orb]. cbn [enc_fields flat_map snd].
      by rewrite <- app_assoc in Hk2.
Qed.
Lemma j_runs_left_out f fs obj sk : is_extension types f -> no_field false (field_name f) obj -> typed_fields true fs obj [] sk ->
  j_fields_run true fs obj [] sk -> j_fields_run true (f :: fs) obj [] true.
Proof.
  intros [t Hx] Hno _ [k2 IH]. exists (S k2). intros name b pre F F0 st rest Hn Hsz HF HF0 e He Hs.
  pose proof (length_snoc pre f) as Hp.
  set (e1 := mk_jentry name true (j_object obj) (Z.of_nat (length (pre ++ [f])) - 1)).
  destruct (IH name b (pre ++ [f]) F0 F0 (mk_jstate (j_writer st) (received_value st) (e1 :: rest) true) rest)
    as (st2 & r2 & E2 & Hk2); [by rewrite <- app_assoc|by rewrite <- app_assoc|cbn; lia|lia|done|done|].
  exists (mk_jstate (j_writer st) (received_value st) (e1 :: rest) true), r2. split.
  + unfold j_object_step. cbn [je_type e]. rewrite (deref_some _ _ Hn). cbn [some_or mbind result_bind as_struct je_position e je_value].
    rewrite (next_position_ok (length pre)) by (rewrite ?length_app in Hsz; lia). cbn [mbind result_bind]. rewrite as_int by done.
    rewrite (proj2 (Z.eqb_neq _ _)) by (rewrite length_app; cbn; lia). rewrite nth_field_app. cbn [mbind result_bind].
    unfold no_field in Hno. rewrite Hno, (deref_some _ _ Hx). cbn [some_or mbind result_bind extension_of].
    rewrite bool_decide_eq_true_2 by done. rewrite Hp. cbn. by rewrite He.
  + eapply steps_more; [reflexivity| |].
    * unfold j_step. cbn [j_stack]. unfold deref. cbn [je_type e1]. rewrite Hn. cbn [some_or mbind result_bind je_allow e1]. exact E2.
    * unfold j_end in *. cbn [j_writer j_skipped] in Hk2. by rewrite orb_true_r.
Qed.
Lemma j_runs_no_items t : j_items_run t [] [].
Proof.
  exists 0%nat. intros name pre F F0 st rest Hn Hsz HF HF0 e He Hs. unfold j_array_step. cbn [je_value e mbind result_bind je_position].
  rewrite app_nil_r in *. rewrite (next_position_ok (length pre)) by (rewrite ?length_app in Hsz; lia). cbn [mbind result_bind]. rewrite as_int by done.
  rewrite Z.eqb_refl. eexists _, (received_value st). split; [reflexivity|]. unfold j_pop, j_move, j_end. cbn. rewrite He, app_nil_r, Hs.
  cbn. rewrite drop_0. constructor.
Qed.
Lemma j_runs_item t j js a l : typed false t j a false -> j_runs false t j a false -> typed_items t js l ->
  j_items_run t js l -> j_items_run t (j :: js) (a :: l).
Proof.
  intros _ [k1 IH1] _ [k2 IH2]. exists (k1 + S k2)%nat. intros name pre F F0 st rest Hn Hsz HF HF0 e He Hs.
  rewrite max_of_cons in HF.
  pose proof (length_snoc pre j) as Hp.
  set (e1 := mk_jentry name false (j_array ((pre ++ [j]) ++ js)) (Z.of_nat (length (pre ++ [j])) - 1)).
  set (st0 := j_receive j (j_move e (Z.of_nat (length (pre ++ [j])) - 1) st)).
  assert (j_stack st0 = e1 :: rest) as Hst0 by (cbn; rewrite He; unfold e1; by rewrite <- ?app_assoc).
  destruct (IH1 F F0 st0) as (st1 & r1 & E1 & Hk1); [lia|lia|done|done|].
  destruct (IH2 name (pre ++ [j]) F0 F0 (j_end st0 (enc a) r1 (e1 :: rest) false) rest)
    as (st2 & r2 & E2 & Hk2); [done|by rewrite <- app_assoc|lia|lia|done|done|].
  exists st1, r2. split.
  + unfold j_array_step. cbn [je_value e mbind result_bind je_position].
    rewrite (next_position_ok (length pre)) by (rewrite ?length_app in Hsz; lia). cbn [mbind result_bind]. rewrite as_int by done.
    rewrite (proj2 (Z.eqb_neq _ _)) by (rewrite length_app; cbn; lia). rewrite Nat2Z.id, list_lookup_middle by done.
    cbn [some_or mbind result_bind je_type e]. unfold deref. rewrite Hn. rewrite Hp. exact E1.
  + eapply steps_trans; [exact Hk1|]. rewrite Hst0. eapply steps_more; [reflexivity| |].
    * unfold j_step. cbn [j_end j_stack]. unfold deref. cbn [je_type e1]. rewrite Hn. cbn [some_or mbind result_bind]. exact E2.
    * unfold j_end in *. cbn [j_writer j_skipped] in Hk2. cbn [enc_items flat_map]. by rewrite <- app_assoc in Hk2.
Qed.
Lemma j_runs_all :
  (forall al n j a sk, typed al n j a sk -> j_runs al n j a sk) /\
  (forall al fs obj l sk, typed_fields al fs obj l sk -> j_fields_run al fs obj l sk) /\
  (forall t js l, typed_items t js l -> j_items_run t js l).
Proof.
  apply typed_all.
  - apply j_runs_builtin.
  - apply j_runs_none.
  - apply j_runs_some.
  - apply j_runs_extension.
  - apply j_runs_object.
  - apply j_runs_array.
  - apply j_runs_variant.
  - apply j_runs_no_fields.
  - apply j_runs_field.
  - apply j_runs_left_out.
  - apply j_runs_no_items.
  - apply j_runs_item.
Qed.

(** From a JSON value of a type to its bytes, with any amount of fuel that is
    enough. *)
Lemma jvalue_to_bin_enc n j a sk : typed true n j a sk ->
  exists N, forall fuel, (N <= fuel)%nat -> jvalue_to_bin types fuel n j = Ok (enc a).
Proof.
  intros Ht. destruct (proj1 j_runs_all _ _ _ _ _ Ht) as [k Hk]. exists (Nat.max k (height a)). intros fuel Hf.
  destruct (Hk fuel fuel (mk_jstate [] j [] false)) as (st1 & r & E & Hst); [lia|lia|done|done|].
  unfold jvalue_to_bin. rewrite E. cbn [mbind result_bind]. by rewrite (steps_loop _ _ k _ _ fuel Hst) by (done || lia).
Qed.
End serializer.
End AbiBinRun.

(** From JSON read as a stream of tokens to the bytes of a value of an ABI type
    ([json_to_bin] of [libraries/abieos/src/abieos.hpp]): what the machine
    writes, with the sizes of the lists inserted at the end, are the bytes of
    AbiValue. *)
Import Text Json Binary FromJson Jvalue AbiDef AbiWf AbiBin AbiValue AbiBinRun.
Open Scope string_scope.
Open Scope list_scope.
Open Scope Z_scope.

Module AbiStreamRun.

Lemma ok_bind {A B} (a : A) (f : A -> result B) : (Ok a ≫= f) = f a.
Proof. reflexivity. Qed.
Ltac ok := rewrite ok_bind; cbv beta iota.

(** ** Sizes inserted *)

(** The bytes [raw], written at any position with the insertions [ins], come
    out as [bs]. *)
Record writes (raw : list Z) (ins : nat -> list size_insertion) (bs : list Z) : Prop := {
  writes_within p : Forall (fun i => p <= si_position i <= p + length raw)%nat (ins p);
  writes_out p more out : Forall (fun i => p + length raw <= si_position i)%nat more ->
    insert_sizes p (ins p ++ more) (raw ++ out) = bs ++ insert_sizes (p + length raw) more out
}.
Lemma writes_raw bs : writes bs (fun _ => []) bs.
Proof.
  split; [constructor|]. intros p more out Hm. cbn [app]. destruct Hm as [|i more Hi _]; [done|]. cbn [insert_sizes].
  replace (si_position i - p)%nat with (length bs + (si_position i - (p + length bs)))%nat by lia.
  rewrite take_app_add, drop_app_add by done. by rewrite <- app_assoc.
Qed.
Lemma writes_app r1 i1 b1 r2 i2 b2 : writes r1 i1 b1 -> writes r2 i2 b2 ->
  writes (r1 ++ r2) (fun p => i1 p ++ i2 (p + length r1)%nat) (b1 ++ b2).
Proof.
  intros [Hw1 Ho1] [Hw2 Ho2]. split.
  - intros p. rewrite length_app. apply Forall_app. split; [eapply Forall_impl; [apply Hw1|cbn; lia]|].
    eapply Forall_impl; [apply Hw2|cbn; lia].
  - intros p more out Hm. rewrite length_app in Hm. rewrite <- !app_assoc, Ho1, Ho2, length_app.
    + by rewrite Nat.add_assoc.
    + eapply Forall_impl; [exact Hm|cbn; lia].
    + apply Forall_app. split; [eapply Forall_impl; [apply Hw2|cbn; lia]|eapply Forall_impl; [exact Hm|cbn; lia]].
Qed.
Lemma writes_size r ins b n : writes r ins b -> writes r (fun p => mk_insertion p n :: ins p) (varuint_bytes 5 n ++ b).
Proof.
  intros [Hw Ho]. split.
  - intros p. constructor; [cbn; lia|apply Hw].
  - intros p more out Hm. cbn [app insert_sizes si_position si_size]. rewrite Nat.sub_diag. cbn [take]. rewrite drop_0.
    cbn [app]. by rewrite Ho, <- app_assoc.
Qed.
Lemma writes_all r ins b : writes r ins b -> insert_sizes 0 (ins 0%nat) r = b.
Proof.
  intros [_ Ho]. specialize (Ho 0%nat [] [] ltac:(constructor)). cbn [insert_sizes] in Ho. by rewrite !app_nil_r in Ho.
Qed.

Section stream.
Context {Rd : Type} `{JsonReader Rd}.
(** ** What a stream has left *)
Definition holds (s : @json_token_stream Rd) (ts : list token) : Prop :=
  match current_token s with
  | None => delivers (reader s) ts
  | Some t => exists ts', ts = t :: ts' /\ delivers (reader s) ts'
  end.
Lemma peek_holds s t ts : holds s (t :: ts) -> exists r, peek_token s = Ok (mk_stream r (Some t), t) /\ delivers r ts.
Proof.
  unfold holds, peek_token. destruct s as [r [t'|]]; cbn.
  - intros (ts' & [= -> ->] & Hr). by exists r.
  - intros Hr. inversion Hr as [|? r' ? ? _ E Hr']; subst. rewrite E. by exists r'.
Qed.
Lemma get_token_holds {A} (kind : token -> option A) e s t ts a : holds s (t :: ts) -> kind t = Some a ->
  exists s', get_token kind e s = Ok (s', a) /\ holds s' ts.
Proof.
  intros (r & E & Hr)%peek_holds Hk. exists (mk_stream r None). split; [|exact Hr].
  unfold get_token. rewrite E. cbn [mbind result_bind]. by rewrite Hk.
Qed.
Lemma get_exact_holds kind e s ts : holds s (kind :: ts) -> exists s', get_exact kind e s = Ok (s', tt) /\ holds s' ts.
Proof. intros Hs. eapply get_token_holds; [exact Hs|]. by rewrite decide_True by done. Qed.
Lemma get_pred_holds kind s t ts : holds s (t :: ts) ->
  exists s', get_pred kind s = Ok (s', bool_decide (t = kind)) /\ holds s' (if bool_decide (t = kind) then ts else t :: ts).
Proof.
  intros (r & E & Hr)%peek_holds. unfold get_pred. rewrite E. cbn [mbind result_bind]. case_decide as Et.
  - rewrite bool_decide_eq_true_2 by done. by eexists.
  - rewrite bool_decide_eq_false_2 by done. eexists. split; [done|]. by exists ts.
Qed.
Lemma maybe_get_key_holds s t ts : holds s (t :: ts) ->
  exists s', maybe_get_key s = Ok (s', match t with type_key k => Some k | _ => None end) /\
    holds s' (match t with type_key k => ts | _ => t :: ts end).
Proof.
  intros (r & E & Hr)%peek_holds. unfold maybe_get_key. rewrite E. cbn [mbind result_bind].
  destruct t; eexists; (split; [done|]); first [exact Hr|by exists ts].
Qed.
Lemma holds_end s : holds s [] -> parse_complete (reader s) = true.
Proof. unfold holds. destruct (current_token s); [by intros (? & ? & _)|]. intros Hr. by inversion Hr. Qed.
End stream.
(** The first token of a value. *)
Lemma tokens_start j : exists t ts, tokens j = t :: ts /\ (forall k, t <> type_key k) /\ t <> type_end_object /\ t <> type_end_array /\
  (j <> j_null -> t <> type_null).
Proof. destruct j; eexists _, _; (split; [reflexivity|]); done. Qed.

Section serializer.
Context {V : Type} `{BuiltinLaws V} (types : abi_types) {Rd : Type} `{JsonReader Rd}.
Abbreviation aval := (aval V).
Abbreviation typed := (typed types true).
Abbreviation typed_fields := (typed_fields types true).
Abbreviation typed_items := (typed_items types true).
Abbreviation sstate := (@sstate Rd).
Abbreviation ssteps F := (steps s_halted (s_step (Rd := Rd) types F)).

Definition s_end (st : sstate) (s : json_token_stream) (raw : list Z) (ins : nat -> list size_insertion)
    (stack : list sentry) (sk : bool) : sstate :=
  mk_sstate s (s_writer st ++ raw) (size_insertions st ++ ins (length (s_writer st))) stack sk.
(** Starting a value takes its tokens, and writes what comes out as its bytes. *)
Definition s_runs (al : bool) (n : string) (j : jvalue) (a : aval) (sk : bool) : Prop := exists k raw ins,
  writes raw ins (enc a) /\ forall F F0 st ts, (height a <= F)%nat -> (F <= F0)%nat ->
  holds (s_stream st) (tokens j ++ ts) -> s_skipped st = false -> (levels a + length (s_stack st) <= 128)%nat ->
  exists st1 s', s_start types F al n st = Ok st1 /\ ssteps F0 k st1 (s_end st s' raw ins (s_stack st) sk) /\ holds s' ts.
Definition s_fields_run (al : bool) (fs : list abi_field) (obj : list (string * jvalue)) (l : list (string * aval)) (sk : bool) : Prop :=
  exists k raw ins, writes raw ins (enc_fields l) /\ forall name b pre F F0 st rest ts x y,
  types !! name = Some (struct_ b (pre ++ fs)) -> Z.of_nat (length (pre ++ fs)) < 2 ^ 31 -> (max_of (fun f => height f.2) l <= F)%nat -> (F <= F0)%nat ->
  holds (s_stream st) (field_tokens obj ++ type_end_object :: ts) ->
  let e := mk_sentry name al (Z.of_nat (length pre) - 1) x y in
  s_stack st = e :: rest -> (s_skipped st = true -> obj = []) -> (max_of (fun f => levels f.2) l + S (length rest) <= 128)%nat ->
  exists st1 s', s_object_step types (s_start types F) al e st = Ok st1 /\
    ssteps F0 k st1 (s_end st s' raw ins rest (s_skipped st || sk)) /\ holds s' ts.
Definition set_size (i : nat) (n : Z) : list size_insertion -> list size_insertion :=
  alter (fun x => mk_insertion (si_position x) n) i.
Definition s_items_run (t : string) (js : list jvalue) (l : list aval) : Prop :=
  exists k raw ins, writes raw ins (enc_items l) /\ forall name (pre : nat) F st rest ts x y,
  types !! name = Some (array t) -> (max_of height l <= F)%nat ->
  holds (s_stream st) (flat_map tokens js ++ type_end_array :: ts) ->
  s_stack st = mk_sentry name false (Z.of_nat pre - 1) x y :: rest -> s_skipped st = false ->
  (max_of levels l + S (length rest) <= 128)%nat -> Z.of_nat (pre + length l) < 2 ^ 31 ->
  exists s', ssteps F k st (mk_sstate s' (s_writer st ++ raw)
      (set_size x (Z.of_nat (pre + length l)) (size_insertions st ++ ins (length (s_writer st)))) rest false) /\ holds s' ts.

(** One step of the machine, by the type of the top entry. *)
Lemma s_one_step F st e rest d st1 :
  s_stack st = e :: rest -> types !! se_type e = Some d -> (S (length rest) <= 128)%nat ->
  match d with
  | struct_ _ _ => s_object_step types (s_start types F) (se_allow e) e st
  | array _ => s_array_step types (s_start types F) e st
  | variant _ => s_variant_step types (s_start types F) (se_allow e) e st
  | _ => Err no_serializer
  end = Ok st1 -> forall k st2, ssteps F k st1 st2 -> ssteps F (S k) st st2.
Proof.
  intros Hst Hd Hlen E k st2 Hk. eapply steps_more; [unfold s_halted; rewrite Hst; reflexivity| |exact Hk].
  unfold s_step. rewrite Hst, (deref_some _ _ _ Hd). rewrite check_true; [exact E|]. apply Nat.leb_le, Hlen.
Qed.
(** A read of the stream in a state. *)
Lemma s_get_ok {A B} (get : @json_token_stream Rd -> result (json_token_stream * A)) s s' a st (f : sstate * A -> result B) :
  get s = Ok (s', a) -> s_stream st = s ->
  (s_get get st ≫= f) = f (mk_sstate s' (s_writer st) (size_insertions st) (s_stack st) (s_skipped st), a).
Proof. unfold s_get. by intros E ->; rewrite E. Qed.
Lemma s_from_json_reads n j v st ts : b_reads n j v -> holds (s_stream st) (tokens j ++ ts) ->
  exists s', s_from_json n st = Ok (mk_sstate s' (s_writer st) (size_insertions st) (s_stack st) (s_skipped st), v) /\ holds s' ts.
Proof.
  intros [_ Hj] Hs. unfold s_from_json. destruct (String.eqb n "bool").
  - destruct Hj as (b & -> & ->). 
    destruct (get_token_holds (fun t => match t with type_bool b => Some b | _ => None end) expected_bool _ _ _ b Hs eq_refl) as (s' & E & Hs').
    unfold get_bool. rewrite (s_get_ok _ _ _ _ _ _ E) by reflexivity. by exists s'.
  - destruct Hj as (s & -> & Er). 
    destruct (get_token_holds (fun t => match t with type_string v => Some v | _ => None end) expected_string _ _ _ s Hs eq_refl) as (s' & E & Hs').
    unfold get_string. rewrite (s_get_ok _ _ _ _ _ _ E) by reflexivity. cbv beta iota. rewrite Er. by exists s'.
Qed.

Lemma s_runs_builtin al n j v : types !! n = Some builtin -> b_reads n j v -> s_runs al n j (a_builtin n v) false.
Proof.
  intros Hn Hj. exists 0%nat, (b_bytes n v), (fun _ => []). split; [apply writes_raw|].
  intros F F0 st ts HF HF0 Hs Hsk Hl. cbn in HF. destruct F as [|F]; [lia|]. cbn [s_start]. rewrite (deref_some _ _ _ Hn). ok.
  destruct (s_from_json_reads n j v st ts Hj Hs) as (s' & E & Hs'). unfold s_builtin. rewrite E. ok. rewrite (b_to_bin_law _ _ (proj1 Hj)). ok.
  eexists _, s'. split; [reflexivity|]. split; [|exact Hs']. unfold s_write, s_end. cbn. rewrite app_nil_r, Hsk. constructor.
Qed.
Lemma s_runs_none al n t : types !! n = Some (optional t) -> s_runs al n j_null a_none false.
Proof.
  intros Hn. exists 0%nat, [0], (fun _ => []). split; [apply (writes_raw [0])|].
  intros F F0 st ts HF HF0 Hs Hsk Hl. cbn in HF. destruct F as [|F]; [lia|]. cbn [s_start]. rewrite (deref_some _ _ _ Hn). ok.
  destruct (get_pred_holds type_null _ _ _ Hs) as (s' & E & Hs'). unfold get_null_pred. rewrite (s_get_ok _ _ _ _ _ _ E) by reflexivity.
  eexists _, s'. split; [reflexivity|]. split; [|exact Hs']. unfold s_write, s_end. cbn. rewrite app_nil_r, Hsk. constructor.
Qed.
Lemma s_runs_some al n t j a sk : types !! n = Some (optional t) -> j <> j_null -> typed al t j a sk ->
  s_runs al t j a sk -> s_runs al n j (a_some a) sk.
Proof.
  intros Hn Hj _ (k & raw & ins & Hw & IH). exists k, (1 :: raw), (fun p => ins (p + 1)%nat).
  split; [apply (writes_app [1] _ [1] _ _ _ (writes_raw [1]) Hw)|].
  intros F F0 st ts HF HF0 Hs Hsk Hl. cbn in HF, Hl. destruct F as [|F]; [lia|]. cbn [s_start]. rewrite (deref_some _ _ _ Hn). ok.
  destruct (tokens_start j) as (t1 & ts1 & Et & _ & _ & _ & Hnull). rewrite Et in Hs.
  destruct (get_pred_holds type_null _ _ _ Hs) as (s' & E & Hs'). unfold get_null_pred. rewrite (s_get_ok _ _ _ _ _ _ E) by reflexivity. cbv beta iota.
  rewrite bool_decide_eq_false_2 in * by auto.
  destruct (IH F F0 (s_write [1] (mk_sstate s' (s_writer st) (size_insertions st) (s_stack st) (s_skipped st))) ts)
    as (st1 & s2 & E2 & Hk & Hs2); [lia|lia|by rewrite Et|done|done|].
  exists st1, s2. split; [exact E2|]. split; [|exact Hs2]. unfold s_end in *. cbn [s_write s_writer s_stack size_insertions] in Hk.
  rewrite <- app_assoc, length_app in Hk. exact Hk.
Qed.
Lemma s_runs_extension al n t j a sk : types !! n = Some (extension t) -> typed al t j a sk ->
  s_runs al t j a sk -> s_runs al n j (a_extension a) sk.
Proof.
  intros Hn _ (k & raw & ins & Hw & IH). exists k, raw, ins. split; [exact Hw|].
  intros F F0 st ts HF HF0 Hs Hsk Hl. cbn in HF, Hl. destruct F as [|F]; [lia|]. cbn [s_start]. rewrite (deref_some _ _ _ Hn). ok.
  apply IH; [lia|lia|done|done|lia].
Qed.
Lemma s_runs_object al n b fs obj l sk : types !! n = Some (struct_ b fs) -> Z.of_nat (length fs) < 2 ^ 31 ->
  typed_fields al fs obj l sk ->
  s_fields_run al fs obj l sk -> s_runs al n (j_object obj) (a_object l) sk.
Proof.
  intros Hn Hsz _ (k & raw & ins & Hw & IH). exists k, raw, ins. split; [exact Hw|].
  intros F F0 st ts HF HF0 Hs Hsk Hl. rewrite height_object in HF. rewrite levels_object in Hl. destruct F as [|F]; [lia|].
  cbn [s_start]. rewrite (deref_some _ _ _ Hn). ok. rewrite tokens_object in Hs. cbn [app] in Hs. rewrite <- app_assoc in Hs.
  destruct (get_exact_holds type_start_object expected_start_object _ _ Hs) as (s' & E & Hs'). unfold get_start_object. rewrite (s_get_ok _ _ _ _ _ _ E) by reflexivity. cbv beta iota zeta.
  destruct (IH n b [] F F0 (s_push (mk_sentry n al (-1) 0 0) (mk_sstate s' (s_writer st) (size_insertions st) (s_stack st) (s_skipped st))) (s_stack st) ts 0%nat 0%nat)
    as (st1 & s2 & E2 & Hk & Hs2); [done|done|lia|lia|done|done|by cbn; rewrite Hsk|lia|].
  exists st1, s2. split; [exact E2|]. split; [|exact Hs2]. unfold s_end in *. cbn [s_push s_writer s_stack size_insertions s_skipped] in Hk. by rewrite Hsk in Hk.
Qed.
Lemma s_runs_array al n t js l : types !! n = Some (array t) -> Z.of_nat (length l) < 2 ^ 31 -> typed_items t js l ->
  s_items_run t js l -> s_runs al n (j_array js) (a_array l) false.
Proof.
  intros Hn Hlen Ht (k & raw & ins & Hw & IH).
  exists k, raw, (fun p => mk_insertion p (Z.of_nat (length l)) :: ins p). split; [rewrite enc_array; by apply writes_size|].
  intros F F0 st ts HF HF0 Hs Hsk Hl. rewrite height_array in HF. rewrite levels_array in Hl. destruct F as [|F]; [lia|].
  cbn [s_start]. rewrite (deref_some _ _ _ Hn). ok. rewrite tokens_array in Hs. cbn [app] in Hs. rewrite <- app_assoc in Hs.
  destruct (get_exact_holds type_start_array expected_start_array _ _ Hs) as (s' & E & Hs'). unfold get_start_array. rewrite (s_get_ok _ _ _ _ _ _ E) by reflexivity. cbv beta iota zeta.
  set (e := mk_sentry n false (-1) (length (size_insertions st)) 0).
  destruct (IH n 0%nat F0 (mk_sstate s' (s_writer st) (size_insertions st ++ [mk_insertion (length (s_writer st)) 0]) (e :: s_stack st) (s_skipped st))
    (s_stack st) ts (length (size_insertions st)) 0%nat) as (s2 & Hk & Hs2); [done|lia|done|done|done|lia|lia|].
  eexists _, s2. split; [reflexivity|]. split; [|exact Hs2]. cbn [s_writer size_insertions Nat.add] in Hk. unfold s_end.
  unfold set_size in Hk. rewrite <- app_assoc in Hk. cbn [app] in Hk.
  replace (length (size_insertions st)) with (length (size_insertions st) + 0)%nat in Hk at 1 by lia.
  rewrite alter_app_r in Hk. exact Hk.
Qed.
Lemma s_runs_variant al n fs i f j a sk : types !! n = Some (variant fs) -> Z.of_nat i < 2 ^ 32 ->
  find_alternative (field_name f) fs = Some (i, f) -> typed al (field_type f) j a sk ->
  s_runs al (field_type f) j a sk -> s_runs al n (j_array [j_string (field_name f); j]) (a_variant i (field_name f) a) sk.
Proof.
  intros Hn Hi Hf _ (k & raw & ins & Hw & IH).
  exists (S (S (k + 1))), (varuint_bytes 5 (Z.of_nat i) ++ raw), (fun p => ins (p + length (varuint_bytes 5 (Z.of_nat i)))%nat).
  split; [apply (writes_app _ _ _ _ _ _ (writes_raw _) Hw)|].
  intros F F0 st ts HF HF0 Hs Hsk Hl. cbn in HF, Hl. destruct F as [|F]; [lia|]. cbn [s_start]. rewrite (deref_some _ _ _ Hn). ok.
  rewrite tokens_array in Hs. cbn [flat_map tokens app] in Hs. rewrite app_nil_r, <- app_assoc in Hs.
  destruct (get_exact_holds type_start_array expected_start_array _ _ Hs) as (s1 & E1 & Hs1). unfold get_start_array. rewrite (s_get_ok _ _ _ _ _ _ E1) by reflexivity. cbv beta iota zeta.
  destruct (get_pred_holds type_end_array _ _ _ Hs1) as (s2 & E2 & Hs2). cbn in E2, Hs2.
  destruct (get_token_holds (fun t => match t with type_string v => Some v | _ => None end) expected_string _ _ _ (field_name f) Hs2 eq_refl) as (s3 & E3 & Hs3).
  destruct (tokens_start j) as (t1 & ts1 & Et & _ & _ & Hend & _). pose proof Hs3 as Hs3'. rewrite Et in Hs3'.
  destruct (get_pred_holds type_end_array _ _ _ Hs3') as (s4 & E4 & Hs4). rewrite bool_decide_eq_false_2 in E4, Hs4 by done.
  set (bs := varuint_bytes 5 (Z.of_nat i)) in *.
  set (stk p x := mk_sentry n al p 0 x :: s_stack st).
  destruct (IH F0 F0 (mk_sstate s4 (s_writer st ++ bs) (size_insertions st) (stk 1 i) (s_skipped st)) (type_end_array :: ts))
    as (st5 & s5 & E5 & Hk & Hs5); [lia|lia|by rewrite Et|done|cbn; lia|].
  destruct (get_pred_holds type_end_array _ _ _ Hs5) as (s6 & E6 & Hs6). rewrite bool_decide_eq_true_2 in E6, Hs6 by done.
  eexists _, s6. split; [reflexivity|]. split; [|exact Hs6].
  eapply (s_one_step _ _ _ _ _ (mk_sstate s3 (s_writer st ++ bs) (size_insertions st) (stk 0 i) (s_skipped st))); [reflexivity|exact Hn|cbn; lia| |].
  { unfold s_variant_step. cbn [se_position se_type se_allow]. cbv zeta. unfold get_end_array_pred. rewrite (s_get_ok _ _ _ _ _ _ E2) by reflexivity. cbv beta iota.
    rewrite (deref_some _ _ _ Hn). ok. cbn [as_variant some_or]. ok. unfold get_string.
    rewrite (s_get_ok _ _ _ _ _ _ E3) by reflexivity. cbv beta iota. rewrite Hf. cbn [some_or]. ok. rewrite varuint32_write by lia. ok.
    reflexivity. }
  eapply (s_one_step _ _ _ _ _ st5); [reflexivity|exact Hn|cbn; lia| |].
  { unfold s_variant_step. cbn [se_position se_type se_allow variant_type_index]. cbv zeta. unfold get_end_array_pred. rewrite (s_get_ok _ _ _ _ _ _ E4) by reflexivity. cbv beta iota.
    rewrite (deref_some _ _ _ Hn). ok. cbn [as_variant some_or]. ok. unfold find_alternative in Hf. apply list_find_Some in Hf as (Hl1 & _ & _).
    change (0 + 1 =? 0) with false. change (0 + 1 =? 1) with true. cbv iota. unfold nth_field. rewrite (proj2 (Z.leb_le _ _)), Nat2Z.id, Hl1 by lia.
    cbn [some_or]. ok. exact E5. }
  eapply steps_trans; [exact Hk|].
  eapply (s_one_step _ _ _ _ _ (mk_sstate s6 ((s_writer st ++ bs) ++ raw) (size_insertions st ++ ins (length (s_writer st ++ bs))) (s_stack st) sk));
    [reflexivity|exact Hn|cbn; lia| |].
  { unfold s_variant_step. cbn [se_position se_type se_allow variant_type_index]. cbv zeta. unfold get_end_array_pred. rewrite (s_get_ok _ _ _ _ _ _ E6) by reflexivity. reflexivity. }
  unfold s_end. rewrite <- app_assoc, length_app. constructor.
Qed.
Lemma s_runs_no_fields al obj : (true = true -> obj = []) -> s_fields_run al [] obj [] false.
Proof.
  intros Hobj. rewrite (Hobj eq_refl). exists 0%nat, [], (fun _ => []). split; [apply (writes_raw [])|].
  intros name b pre F F0 st rest ts x y Hn Hsz HF HF0 Hs e He Hsk Hl.
  destruct (get_pred_holds type_end_object _ _ _ Hs) as (s1 & E1 & Hs1). rewrite bool_decide_eq_true_2 in E1, Hs1 by done.
  unfold s_object_step. cbn [se_type e]. rewrite (deref_some _ _ _ Hn). ok. cbn [as_struct some_or]. ok.
  unfold get_end_object_pred. rewrite (s_get_ok _ _ _ _ _ _ E1) by reflexivity. cbv beta iota. cbn [se_position e].
  rewrite app_nil_r, (proj2 (Z.eqb_eq _ _)) by lia. eexists _, s1. split; [reflexivity|]. split; [|exact Hs1].
  rewrite orb_false_r. unfold s_pop, s_end. cbn. rewrite He, !app_nil_r. constructor.
Qed.
Lemma s_runs_field al f fs obj j obj' a l sk sk' : take_field true (field_name f) obj = Some (j, obj') ->
  typed (al && bool_decide (fs = [])) (field_type f) j a sk -> s_runs (al && bool_decide (fs = [])) (field_type f) j a sk ->
  typed_fields al fs obj' l sk' -> s_fields_run al fs obj' l sk' -> (al = true -> is_extension types f -> enc a <> []) ->
  s_fields_run al (f :: fs) obj ((field_name f, a) :: l) (sk || sk').
Proof.
  intros Hf Ht (k1 & raw1 & ins1 & Hw1 & IH1) Hfs (k2 & raw2 & ins2 & Hw2 & IH2) _.
  exists (S (k1 + S k2)), (raw1 ++ raw2), (fun p => ins1 p ++ ins2 (p + length raw1)%nat). split; [by apply writes_app|].
  intros name b pre F F0 st rest ts x y Hn Hsz HF HF0 Hs e He Hsk Hl. pose proof (length_snoc pre f) as Hp.
  rewrite max_of_cons in HF, Hl. cbn [snd] in HF, Hl. unfold take_field in Hf. destruct obj as [|[key v] obj]; [done|]. cbn [fst snd] in Hf.
  destruct (s_skipped st) eqn:Esk; [by specialize (Hsk eq_refl)|].
  destruct (String.eqb_spec key (field_name f)) as [->|]; [|done]. injection Hf as -> ->.
  cbn [field_tokens flat_map fst snd app] in Hs. rewrite <- app_assoc in Hs.
  destruct (get_pred_holds type_end_object _ _ _ Hs) as (s1 & E1 & Hs1). rewrite bool_decide_eq_false_2 in E1, Hs1 by done.
  destruct (maybe_get_key_holds _ _ _ Hs1) as (s2 & E2 & Hs2).
  destruct (tokens_start j) as (t1 & ts1 & Et & Hkey & Hend & _ & _). pose proof Hs2 as Hs2'. rewrite Et in Hs2'.
  destruct (get_pred_holds type_end_object _ _ _ Hs2') as (s3 & E3 & Hs3). rewrite bool_decide_eq_false_2 in E3, Hs3 by done.
  destruct (maybe_get_key_holds _ _ _ Hs3) as (s4 & E4 & Hs4).
  set (stk1 := mk_sentry name al (Z.of_nat (length (pre ++ [f])) - 1) x y :: rest).
  destruct (IH1 F0 F0 (mk_sstate s4 (s_writer st) (size_insertions st) stk1 false) (field_tokens obj' ++ type_end_object :: ts))
    as (st5 & s5 & E5 & Hk1 & Hs5); [lia|lia|rewrite Et; destruct t1; first [exact Hs4|by destruct (Hkey _ eq_refl)]|done|cbn; lia|].
  destruct (IH2 name b (pre ++ [f]) F0 F0 (s_end (mk_sstate s4 (s_writer st) (size_insertions st) stk1 false) s5 raw1 ins1 stk1 sk) rest ts x y)
    as (st6 & s6 & E6 & Hk2 & Hs6); [by rewrite <- app_assoc|by rewrite <- app_assoc|lia|lia|done|done| |lia|].
  { cbn. intros ->. destruct (decide (fs = [])) as [->|Hne]; [inversion Hfs; auto|].
    assert (true = false); [|done]. eapply typed_no_skip; [exact Ht|]. rewrite bool_decide_eq_false_2 by done. apply andb_false_r. }
  exists (mk_sstate s2 (s_writer st) (size_insertions st) stk1 false), s6. split; [|split; [|exact Hs6]].
  + unfold s_object_step. cbn [se_type e]. rewrite (deref_some _ _ _ Hn). ok. cbn [as_struct some_or]. ok.
    unfold get_end_object_pred. rewrite (s_get_ok _ _ _ _ _ _ E1) by reflexivity. cbv beta iota. rewrite (s_get_ok _ _ _ _ _ _ E2) by reflexivity. cbv beta iota zeta.
    cbn [se_position e s_skipped]. rewrite (next_position_ok (length pre)) by (rewrite length_app in Hsz; lia). ok.
    rewrite (proj2 (Z.leb_gt _ _)) by (rewrite length_app; cbn; lia). rewrite Esk. cbn [orb negb check]. ok.
    rewrite nth_field_app. ok. rewrite String.eqb_refl. cbn [check]. ok. unfold s_move, s_top, s_push, s_pop. cbn. rewrite He. unfold stk1. by rewrite <- Hp.
  + eapply (s_one_step F0 _ _ _ _ st5); [reflexivity|exact Hn|cbn; lia| |eapply steps_trans; [exact Hk1|]].
    * unfold s_object_step. cbn [se_type]. rewrite (deref_some _ _ _ Hn). ok. cbn [as_struct some_or]. ok.
      unfold get_end_object_pred. rewrite (s_get_ok _ _ _ _ _ _ E3) by reflexivity. cbv beta iota. rewrite (s_get_ok _ _ _ _ _ _ E4) by reflexivity. cbv beta iota zeta.
      cbn [se_position se_allow]. rewrite <- Hp, nth_field_app, is_last_app. rewrite Hp.
      destruct t1; first [by destruct (Hkey _ eq_refl)|exact E5].
    * eapply (s_one_step F0 _ _ _ _ st6); [reflexivity|exact Hn|cbn; lia|exact E6|].
      unfold s_end in *. cbn [s_writer size_insertions s_skipped orb] in *. rewrite length_app, <- !app_assoc in Hk2. exact Hk2.
Qed.
Lemma s_runs_left_out f fs obj sk : is_extension types f -> no_field true (field_name f) obj -> typed_fields true fs obj [] sk ->
  s_fields_run true fs obj [] sk -> s_fields_run true (f :: fs) obj [] true.
Proof.
  intros [t Hx] Hno Hfs _. exists 0%nat, [], (fun _ => []). split; [apply (writes_raw [])|].
  unfold no_field in Hno. subst obj.
  intros name b pre F F0 st rest ts x y Hn Hsz HF HF0 Hs e He Hsk Hl.
  destruct (get_pred_holds type_end_object _ _ _ Hs) as (s1 & E1 & Hs1). rewrite bool_decide_eq_true_2 in E1, Hs1 by done.
  unfold s_object_step. cbn [se_type e]. rewrite (deref_some _ _ _ Hn). ok. cbn [as_struct some_or]. ok.
  unfold get_end_object_pred. rewrite (s_get_ok _ _ _ _ _ _ E1) by reflexivity. cbv beta iota. cbn [se_position e].
  replace (Z.of_nat (length pre) - 1 + 1) with (Z.of_nat (length pre)) by lia.
  rewrite (proj2 (Z.eqb_neq _ _)) by (rewrite length_app; cbn; lia). rewrite nth_field_app. ok. rewrite (deref_some _ _ _ Hx). ok.
  cbn [extension_of]. rewrite bool_decide_eq_true_2 by done. cbn [andb check]. ok.
  eexists _, s1. split; [reflexivity|]. split; [|exact Hs1].
  rewrite orb_true_r. unfold s_pop, s_skip, s_end. cbn. rewrite He, !app_nil_r. constructor.
Qed.
Lemma s_runs_no_items t : s_items_run t [] [].
Proof.
  exists 1%nat, [], (fun _ => []). split; [apply (writes_raw [])|].
  intros name pre F st rest ts x y Hn HF Hs Hst Hsk Hl Hb.
  destruct (get_pred_holds type_end_array _ _ _ Hs) as (s1 & E1 & Hs1). rewrite bool_decide_eq_true_2 in E1, Hs1 by done.
  exists s1. split; [|exact Hs1].
  eapply (s_one_step F _ _ _ _ (mk_sstate s1 (s_writer st) (set_size x (Z.of_nat pre) (size_insertions st)) rest false)); [exact Hst|exact Hn|cbn in *; lia| |].
  + unfold s_array_step, get_end_array_pred. rewrite (s_get_ok _ _ _ _ _ _ E1) by reflexivity. cbv beta iota zeta. cbn [se_position size_insertion_index].
    replace (Z.of_nat pre - 1 + 1) with (Z.of_nat pre) by lia. rewrite wrap_small by (cbn in Hb; lia).
    unfold s_pop. cbn. by rewrite Hst, Hsk.
  + rewrite Nat.add_0_r, !app_nil_r. constructor.
Qed.
Lemma s_runs_item t j js a l : typed false t j a false -> s_runs false t j a false -> typed_items t js l ->
  s_items_run t js l -> s_items_run t (j :: js) (a :: l).
Proof.
  intros Ht (k1 & raw1 & ins1 & Hw1 & IH1) _ (k2 & raw2 & ins2 & Hw2 & IH2).
  exists (S (k1 + k2)), (raw1 ++ raw2), (fun p => ins1 p ++ ins2 (p + length raw1)%nat). split; [by apply writes_app|].
  intros name pre F st rest ts x y Hn HF Hs Hst Hsk Hl Hb. rewrite max_of_cons in HF, Hl. cbn [flat_map length] in Hs, Hb. rewrite <- app_assoc in Hs.
  destruct (tokens_start j) as (t1 & ts1 & Et & _ & _ & Hend & _). pose proof Hs as Hs'. rewrite Et in Hs'.
  destruct (get_pred_holds type_end_array _ _ _ Hs') as (s1 & E1 & Hs1). rewrite bool_decide_eq_false_2 in E1, Hs1 by done.
  set (stk1 := mk_sentry name false (Z.of_nat (S pre) - 1) x y :: rest).
  destruct (IH1 F F (mk_sstate s1 (s_writer st) (size_insertions st) stk1 (s_skipped st)) (flat_map tokens js ++ type_end_array :: ts))
    as (st2 & s2 & E2 & Hk1 & Hs2); [lia|lia|by rewrite Et|done|cbn; lia|].
  destruct (IH2 name (S pre) F (s_end (mk_sstate s1 (s_writer st) (size_insertions st) stk1 (s_skipped st)) s2 raw1 ins1 stk1 false) rest ts x y)
    as (s3 & Hk2 & Hs3); [done|lia|done|done|done|lia|lia|].
  exists s3. split; [|exact Hs3]. eapply (s_one_step F _ _ _ _ st2); [exact Hst|exact Hn|cbn; lia| |eapply steps_trans; [exact Hk1|]].
  + unfold s_array_step, get_end_array_pred. rewrite (s_get_ok _ _ _ _ _ _ E1) by reflexivity. cbv beta iota zeta. cbn [se_position se_type].
    rewrite (next_position_ok pre) by lia. ok.
    rewrite (deref_some _ _ _ Hn). ok. cbn [array_of some_or]. ok. replace (Z.of_nat pre) with (Z.of_nat (S pre) - 1) by lia.
    unfold s_move, s_top, s_push, s_pop. cbn [s_stack s_stream s_writer size_insertions s_skipped]. rewrite Hst. exact E2.
  + unfold s_end in Hk2. cbn [s_writer size_insertions] in Hk2. rewrite length_app, <- !app_assoc in Hk2.
    cbn [length]. replace (pre + S (length l))%nat with (S pre + length l)%nat by lia. exact Hk2.
Qed.
Lemma s_runs_all :
  (forall al n j a sk, typed al n j a sk -> s_runs al n j a sk) /\
  (forall al fs obj l sk, typed_fields al fs obj l sk -> s_fields_run al fs obj l sk) /\
  (forall t js l, typed_items t js l -> s_items_run t js l).
Proof.
  apply typed_all.
  - apply s_runs_builtin.
  - apply s_runs_none.
  - apply s_runs_some.
  - apply s_runs_extension.
  - apply s_runs_object.
  - apply s_runs_array.
  - apply s_runs_variant.
  - apply s_runs_no_fields.
  - apply s_runs_field.
  - apply s_runs_left_out.
  - apply s_runs_no_items.
  - apply s_runs_item.
Qed.

(** From the tokens of a JSON value of a type to its bytes, with any amount of
    fuel that is enough. *)
Lemma json_to_bin_enc n j a sk r : typed true n j a sk -> (levels a <= 128)%nat -> delivers r (tokens j) ->
  exists N, forall fuel, (N <= fuel)%nat -> json_to_bin types fuel n r = Ok (enc a).
Proof.
  intros Ht Hl Hr. destruct (proj1 s_runs_all _ _ _ _ _ Ht) as (k & raw & ins & Hw & Hk). exists (Nat.max k (height a)). intros fuel Hf.
  destruct (Hk fuel fuel (mk_sstate (open_stream r) [] [] [] false) []) as (st1 & s' & E & Hst & Hs'); [lia|lia|by rewrite app_nil_r|done|cbn; lia|].
  unfold json_to_bin. rewrite E. ok. rewrite (steps_loop _ _ k _ _ fuel Hst) by (done || lia). ok.
  cbn [s_end s_stream]. rewrite (holds_end _ Hs'). ok. cbn. by rewrite (writes_all _ _ _ Hw).
Qed.
End serializer.
End AbiStreamRun.

(** From the bytes of a value of an ABI type to its JSON ([bin_to_json] of
    [libraries/abieos/src/abieos.hpp]): the machine writes the text of
    AbiValue, ends on all bytes, and its stack is enough for values of 128
    levels. *)
Import Text Json Binary FromJson Jvalue AbiDef AbiWf AbiBin AbiValue AbiBinRun.
Open Scope string_scope.
Open Scope list_scope.
Open Scope Z_scope.

Module AbiTextRun.

(** What follows [pre] texts of a list. *)
Definition joined (pre : nat) (l : list (list ascii)) : list ascii :=
  match pre with O => join l | _ => flat_map (fun x => ","%char :: x) l end.
Lemma joined_cons pre x l : joined pre (x :: l) = comma (Z.of_nat pre) ++ x ++ joined (S pre) l.
Proof. destruct pre; reflexivity. Qed.

Section serializer.
Context {V : Type} `{BuiltinLaws V} (types : abi_types) (strict : bool) (utf8 : list ascii -> option nat).
Abbreviation aval := (aval V).
Abbreviation typed := (typed types strict).
Abbreviation typed_fields := (typed_fields types strict).
Abbreviation typed_items := (typed_items types strict).
Abbreviation bsteps F := (steps b_halted (b_step types utf8 F)).
Abbreviation text := (text utf8).
Abbreviation field_text := (field_text utf8).

Definition b_end (st : bstate) (rest : list Z) (s : list ascii) (stack : list bentry) (sk : bool) : bstate :=
  mk_bstate rest (b_writer st ++ s) stack sk.

Definition b_runs (al : bool) (n : string) (j : jvalue) (a : aval) (sk : bool) : Prop := exists k, forall F F0 st rest,
  (height a <= F)%nat -> (F <= F0)%nat -> bin st = enc a ++ rest -> (sk = true -> rest = []) ->
  (levels a + length (b_stack st) <= 128)%nat ->
  exists st1 r, b_start types F al n st = Ok st1 /\ (length (b_stack st1) <= 128)%nat /\
    bsteps F0 k st1 (b_end st rest (text a) (b_stack st) r).
Definition b_fields_run (al : bool) (fs : list abi_field) (obj : list (string * jvalue)) (l : list (string * aval)) (sk : bool) : Prop :=
  exists k, forall name b pre n F st stk rest, types !! name = Some (struct_ b (pre ++ fs)) ->
  Z.of_nat (length (pre ++ fs)) < 2 ^ 31 ->
  (max_of (fun f => height f.2) l <= F)%nat -> bin st = enc_fields l ++ rest -> (sk = true -> rest = []) ->
  b_stack st = mk_bentry name al (Z.of_nat (length pre) - 1) n :: stk ->
  (max_of (fun f => levels f.2) l + S (length stk) <= 128)%nat ->
  exists r, bsteps F k st (b_end st rest (joined (length pre) (field_text <$> l) ++ ["}"%char]) stk r).
Definition b_items_run (t : string) (js : list jvalue) (l : list aval) : Prop := exists k, forall name pre F st stk rest,
  types !! name = Some (array t) -> Z.of_nat (pre + length l) < 2 ^ 31 ->
  (max_of height l <= F)%nat -> bin st = enc_items l ++ rest ->
  b_stack st = mk_bentry name false (Z.of_nat pre - 1) (Z.of_nat (pre + length l)) :: stk ->
  (max_of levels l + S (length stk) <= 128)%nat ->
  exists r, bsteps F k st (b_end st rest (joined pre (text <$> l) ++ ["]"%char]) stk r).

(** One step of the machine, by the type of the top entry. *)
Lemma b_one_step F st e stk d st1 :
  b_stack st = e :: stk -> types !! be_type e = Some d -> (length (b_stack st1) <= 128)%nat ->
  match d with
  | struct_ _ _ => b_object_step types utf8 (b_start types F) (be_allow e) e st
  | array _ => b_array_step types (b_start types F) e st
  | variant _ => b_variant_step types utf8 (b_start types F) (be_allow e) e st
  | _ => Err no_serializer
  end = Ok st1 -> forall k st2, bsteps F k st1 st2 -> bsteps F (S k) st st2.
Proof.
  intros Hst Hd Hlen E k st2 Hk. eapply steps_more; [unfold b_halted; rewrite Hst; reflexivity| |exact Hk].
  unfold b_step. rewrite Hst, (deref_some _ _ _ Hd). cbn [mbind result_bind]. rewrite E. cbn [mbind result_bind].
  rewrite check_true; [done|]. apply Nat.leb_le, Hlen.
Qed.
Lemma read_bool_bin {A} (f : bstate * bool -> result A) b st rest : bin st = (if b : bool then 1 else 0) :: rest ->
  (b_read (from_bin bool_codec) st ≫= f) = f (mk_bstate rest (b_writer st) (b_stack st) (b_skipped st), b).
Proof. unfold b_read. intros ->. by destruct b. Qed.
Lemma read_varuint_bin {A} (f : bstate * Z -> result A) n st rest : 0 <= n < 2 ^ 32 -> bin st = varuint_bytes 5 n ++ rest ->
  (b_read varuint32_from_bin st ≫= f) = f (mk_bstate rest (b_writer st) (b_stack st) (b_skipped st), n).
Proof. unfold b_read. intros Hn ->. by rewrite varuint32_read_back. Qed.

Lemma b_runs_builtin al n j v : types !! n = Some builtin -> b_reads n j v -> b_runs al n j (a_builtin n v) false.
Proof.
  intros Hn [Hok _]. exists 0%nat. intros F F0 st rest HF HF0 Hb _ Hl. cbn in HF, Hb, Hl. destruct F as [|F]; [lia|].
  cbn [b_start]. rewrite (deref_some _ _ _ Hn). cbn [mbind result_bind]. unfold b_read. rewrite Hb, b_from_bin_law by done.
  eexists _, (b_skipped st). split; [reflexivity|]. split; [done|constructor].
Qed.
Lemma b_runs_none al n t : types !! n = Some (optional t) -> b_runs al n j_null a_none false.
Proof.
  intros Hn. exists 0%nat. intros F F0 st rest HF HF0 Hb _ Hl. cbn in HF, Hb, Hl. destruct F as [|F]; [lia|].
  cbn [b_start]. rewrite (deref_some _ _ _ Hn). cbn [mbind result_bind].
  pose proof (read_bool_bin (A := bstate)) as Hrd. cbn [mbind] in Hrd. rewrite (Hrd _ false _ rest Hb).
  eexists _, (b_skipped st). split; [reflexivity|]. split; [done|constructor].
Qed.
Lemma b_runs_some al n t j a sk : types !! n = Some (optional t) -> j <> j_null -> typed al t j a sk ->
  b_runs al t j a sk -> b_runs al n j (a_some a) sk.
Proof.
  intros Hn Hj _ [k IH]. exists k. intros F F0 st rest HF HF0 Hb Hsk Hl. cbn in HF, Hb, Hl. destruct F as [|F]; [lia|].
  cbn [b_start]. rewrite (deref_some _ _ _ Hn). cbn [mbind result_bind].
  pose proof (read_bool_bin (A := bstate)) as Hrd. cbn [mbind] in Hrd. rewrite (Hrd _ true _ _ Hb).
  apply (IH F F0 (mk_bstate (enc a ++ rest) _ _ _) rest); try done; lia.
Qed.
Lemma b_runs_extension al n t j a sk : types !! n = Some (extension t) -> typed al t j a sk ->
  b_runs al t j a sk -> b_runs al n j (a_extension a) sk.
Proof.
  intros Hn _ [k IH]. exists k. intros F F0 st rest HF HF0 Hb Hsk Hl. cbn in HF, Hb, Hl. destruct F as [|F]; [lia|].
  cbn [b_start]. rewrite (deref_some _ _ _ Hn). cbn [mbind result_bind].
  apply (IH F F0 st rest); try done; lia.
Qed.
Lemma b_runs_object al n b fs obj l sk : types !! n = Some (struct_ b fs) -> Z.of_nat (length fs) < 2 ^ 31 ->
  typed_fields al fs obj l sk ->
  b_fields_run al fs obj l sk -> b_runs al n (j_object obj) (a_object l) sk.
Proof.
  intros Hn Hsz _ [k IH]. exists k. intros F F0 st rest HF HF0 Hb Hsk Hl. rewrite height_object in HF. rewrite levels_object in Hl. destruct F as [|F]; [lia|].
  cbn [b_start]. rewrite (deref_some _ _ _ Hn). cbn [mbind result_bind].
  destruct (IH n b [] 0 F0 (b_write ["{"%char] (b_push (mk_bentry n al (-1) 0) st)) (b_stack st) rest) as [r Hk]; try done; [lia|lia|].
  eexists _, r. split; [reflexivity|]. split; [cbn; lia|]. rewrite text_object. unfold b_end in *. cbn [b_write b_push b_writer] in Hk.
  by rewrite <- app_assoc in Hk.
Qed.
Lemma b_runs_array al n t js l : types !! n = Some (array t) -> Z.of_nat (length l) < 2 ^ 31 -> typed_items t js l ->
  b_items_run t js l -> b_runs al n (j_array js) (a_array l) false.
Proof.
  intros Hn Hlen _ [k IH]. exists k. intros F F0 st rest HF HF0 Hb Hsk Hl. rewrite height_array in HF. rewrite levels_array in Hl. destruct F as [|F]; [lia|].
  cbn [b_start]. rewrite (deref_some _ _ _ Hn). cbn [mbind result_bind]. rewrite enc_array, <- app_assoc in Hb.
  pose proof (read_varuint_bin (A := bstate)) as Hrd. cbn [mbind] in Hrd. rewrite (Hrd _ (Z.of_nat (length l)) _ _ ltac:(lia) Hb).
  destruct (IH n 0%nat F0 (b_write ["["%char] (b_push (mk_bentry n false (-1) (Z.of_nat (length l))) (mk_bstate (enc_items l ++ rest) (b_writer st) (b_stack st) (b_skipped st)))) (b_stack st) rest)
    as [r Hk]; try done; [lia|cbn in *; lia|].
  eexists _, r. split; [reflexivity|]. split; [cbn; lia|]. rewrite text_array. unfold b_end in *. cbn [b_write b_push b_writer] in Hk.
  by rewrite <- app_assoc in Hk.
Qed.
Lemma b_runs_variant al n fs i f j a sk : types !! n = Some (variant fs) -> Z.of_nat i < 2 ^ 32 ->
  find_alternative (field_name f) fs = Some (i, f) -> typed al (field_type f) j a sk ->
  b_runs al (field_type f) j a sk -> b_runs al n (j_array [j_string (field_name f); j]) (a_variant i (field_name f) a) sk.
Proof.
  intros Hn Hi Hf _ [k IH]. exists (S (k + 1)). intros F F0 st rest HF HF0 Hb Hsk Hl. cbn in HF, Hl.
  destruct F as [|F]; [lia|]. cbn [b_start]. rewrite (deref_some _ _ _ Hn). cbn [mbind result_bind].
  cbn [enc] in Hb. rewrite <- app_assoc in Hb.
  set (st0 := mk_bstate (enc a ++ rest) ((b_writer st ++ ["["%char]) ++ name_to_json utf8 (field_name f) ++ [","%char])
    (mk_bentry n al 0 0 :: b_stack st) (b_skipped st)).
  destruct (IH F0 F0 st0 rest) as (st1 & r & E & Hlen & Hk); try done; [lia|cbn; lia|].
  eexists _, r. split; [reflexivity|]. split; [cbn; lia|].
  eapply (b_one_step F0 _ _ _ _ st1); [reflexivity|exact Hn|exact Hlen| |eapply steps_trans; [exact Hk|]].
  + unfold b_variant_step. cbn [be_position be_allow be_type]. change (-1 + 1 =? 0) with true. cbv iota.
    pose proof (read_varuint_bin (A := bstate)) as Hrd. cbn [mbind] in Hrd. cbn [mbind].
    rewrite (Hrd _ (Z.of_nat i) _ (enc a ++ rest)) by (done || lia). rewrite (deref_some _ _ _ Hn). cbn [mbind result_bind as_variant some_or].
    unfold find_alternative in Hf. apply list_find_Some in Hf as (Hl1 & _ & _). pose proof (lookup_lt_Some _ _ _ Hl1).
    rewrite check_true by (apply Z.ltb_lt; lia). cbn [mbind result_bind]. unfold nth_field. rewrite (proj2 (Z.leb_le _ _)), Nat2Z.id, Hl1 by lia. cbn [some_or mbind result_bind].
    rewrite andb_diag. exact E.
  + eapply (b_one_step F0 _ _ _ _ (b_end st rest (text (a_variant i (field_name f) a)) (b_stack st) r)); [reflexivity|exact Hn|cbn; lia| |constructor].
    unfold b_variant_step. cbn [be_position]. change (0 + 1 =? 0) with false. unfold b_pop, b_write, b_move, b_end. cbn [b_writer b_stack bin b_skipped drop st0 AbiValue.text].
    apply f_equal. unfold st0. cbn [b_writer]. repeat (rewrite <- ?app_assoc; cbn [app]). reflexivity.
Qed.
Lemma b_runs_no_fields al obj : (strict = true -> obj = []) -> b_fields_run al [] obj [] false.
Proof.
  intros _. exists 1%nat. intros name b pre n F st stk rest Hn Hsz HF Hb _ Hst Hl. exists (b_skipped st).
  eapply (b_one_step F _ _ _ _ (b_end st rest ["}"%char] stk (b_skipped st))); [exact Hst|exact Hn|cbn in *; lia| |].
  + unfold b_object_step. cbn [be_type be_position]. rewrite (deref_some _ _ _ Hn). cbn [mbind result_bind as_struct some_or].
    rewrite app_nil_r in *. rewrite (next_position_ok (length pre)) by (rewrite ?length_app in Hsz; lia). cbn [mbind result_bind].
    rewrite (proj2 (Z.ltb_ge _ _)) by lia. unfold b_pop, b_write, b_move, b_end. cbn. rewrite Hst, Hb. cbn. by rewrite drop_0.
  + destruct (length pre); constructor.
Qed.
Lemma b_runs_field al f fs obj j obj' a l sk sk' : take_field strict (field_name f) obj = Some (j, obj') ->
  typed (al && bool_decide (fs = [])) (field_type f) j a sk -> b_runs (al && bool_decide (fs = [])) (field_type f) j a sk ->
  typed_fields al fs obj' l sk' -> b_fields_run al fs obj' l sk' -> (al = true -> is_extension types f -> enc a <> []) ->
  b_fields_run al (f :: fs) obj ((field_name f, a) :: l) (sk || sk').
Proof.
  intros _ Ht [k1 IH1] Hfs [k2 IH2] Hext. exists (S (k1 + k2)). intros name b pre n F st stk rest Hn Hsz HF Hb Hsk Hst Hl.
  rewrite max_of_cons in HF, Hl. cbn [snd] in HF, Hl. cbn [enc_fields flat_map snd] in Hb. rewrite <- app_assoc in Hb.
  pose proof (length_snoc pre f) as Hp.
  set (stk1 := mk_bentry name al (Z.of_nat (length (pre ++ [f])) - 1) n :: stk).
  set (st0 := mk_bstate (enc a ++ enc_fields l ++ rest)
    (b_writer st ++ comma (Z.of_nat (length pre)) ++ name_to_json utf8 (field_name f) ++ [":"%char]) stk1 (b_skipped st)).
  destruct (IH1 F F st0 (enc_fields l ++ rest)) as (st1 & r1 & E1 & Hlen & Hk1); [lia|lia|done| |cbn; lia|].
  { intros ->. destruct (decide (fs = [])) as [->|Hne]; [inversion Hfs; subst; by rewrite Hsk|].
    assert (true = false); [|done]. eapply typed_no_skip; [exact Ht|]. rewrite bool_decide_eq_false_2 by done. apply andb_false_r. }
  destruct (IH2 name b (pre ++ [f]) n F (b_end st0 (enc_fields l ++ rest) (text a) stk1 r1) stk rest) as (r2 & Hk2);
    [by rewrite <- app_assoc|by rewrite <- app_assoc|lia|done|intros ->; apply Hsk; by rewrite orb_true_r|done|lia|].
  exists r2. eapply (b_one_step F _ _ _ _ st1); [exact Hst|exact Hn|exact Hlen| |].
  + unfold b_object_step. cbn [be_type be_position be_allow]. rewrite (deref_some _ _ _ Hn). cbn [mbind result_bind as_struct some_or].
    rewrite (next_position_ok (length pre)) by (rewrite ?length_app in Hsz; lia). cbn [mbind result_bind].
    rewrite (proj2 (Z.ltb_lt _ _)) by (rewrite length_app; cbn; lia). rewrite nth_field_app. cbn [mbind result_bind].
    assert (exists d, types !! field_type f = Some d) as [d Hd] by (inversion Ht; eauto).
    rewrite (deref_some _ _ _ Hd). cbn [mbind result_bind b_move bin].
    assert (bool_decide (bin st = []) && bool_decide (extension_of d <> None) && al = false) as ->.
    { destruct al; [|apply andb_false_r]. rewrite andb_true_r. destruct d; try apply andb_false_r. rewrite andb_true_r.
      apply bool_decide_eq_false_2. rewrite Hb. specialize (Hext eq_refl (ex_intro _ _ Hd)). by destruct (enc a). }
    rewrite is_last_app. unfold st0, stk1 in E1. unfold b_write, b_move. cbn [bin b_writer b_stack b_skipped be_type be_allow array_size].
    rewrite Hst, Hb. rewrite <- Hp in E1. exact E1.
  + eapply steps_trans; [exact Hk1|]. cbn [fmap list_fmap]. rewrite joined_cons. unfold b_end in *. cbn [b_writer st0 b_stack] in *.
    rewrite length_app, Nat.add_1_r in Hk2. cbn [AbiValue.field_text fst snd].
    unfold AbiValue.field_text at 1. cbn [fst snd]. repeat (rewrite <- ?app_assoc in *; cbn [app] in *). exact Hk2.
Qed.
Lemma b_runs_left_out f fs obj sk : is_extension types f -> no_field strict (field_name f) obj -> typed_fields true fs obj [] sk ->
  b_fields_run true fs obj [] sk -> b_fields_run true (f :: fs) obj [] true.
Proof.
  intros [t Hx] _ _ [k IH]. exists (S k). intros name b pre n F st stk rest Hn Hsz HF Hb Hsk Hst Hl.
  pose proof (length_snoc pre f) as Hp. specialize (Hsk eq_refl) as ->.
  set (stk1 := mk_bentry name true (Z.of_nat (length (pre ++ [f])) - 1) n :: stk).
  destruct (IH name b (pre ++ [f]) n F (mk_bstate [] (b_writer st) stk1 true) stk []) as (r & Hk);
    [by rewrite <- app_assoc|by rewrite <- app_assoc|cbn; lia|done|done|done|cbn in *; lia|].
  exists r. eapply (b_one_step F _ _ _ _ (mk_bstate [] (b_writer st) stk1 true)); [exact Hst|exact Hn|cbn in *; lia| |].
  + unfold b_object_step. cbn [be_type be_position be_allow]. rewrite (deref_some _ _ _ Hn). cbn [mbind result_bind as_struct some_or].
    rewrite (next_position_ok (length pre)) by (rewrite ?length_app in Hsz; lia). cbn [mbind result_bind].
    rewrite (proj2 (Z.ltb_lt _ _)) by (rewrite length_app; cbn; lia). rewrite nth_field_app. cbn [mbind result_bind]. rewrite (deref_some _ _ _ Hx). cbn [mbind result_bind b_move bin extension_of].
    rewrite Hb. cbn. rewrite Hst, Hp. done.
  + unfold b_end in *. cbn [b_writer fmap list_fmap] in *. destruct pre; exact Hk.
Qed.
Lemma b_runs_no_items t : b_items_run t [] [].
Proof.
  exists 1%nat. intros name pre F st stk rest Hn Hsz HF Hb Hst Hl. exists (b_skipped st).
  eapply (b_one_step F _ _ _ _ (b_end st rest ["]"%char] stk (b_skipped st))); [exact Hst|exact Hn|cbn in *; lia| |].
  + unfold b_array_step. cbn [be_type be_position array_size length]. rewrite (next_position_ok pre) by (cbn in Hsz; lia). cbn [mbind result_bind].
    rewrite (proj2 (Z.ltb_ge _ _)) by lia. unfold b_pop, b_write, b_move, b_end. cbn. rewrite Hst, Hb. cbn. by rewrite drop_0.
  + destruct pre; constructor.
Qed.
Lemma b_runs_item t j js a l : typed false t j a false -> b_runs false t j a false -> typed_items t js l ->
  b_items_run t js l -> b_items_run t (j :: js) (a :: l).
Proof.
  intros Ht [k1 IH1] _ [k2 IH2]. exists (S (k1 + k2)). intros name pre F st stk rest Hn Hsz HF Hb Hst Hl.
  rewrite max_of_cons in HF, Hl. cbn [enc_items flat_map] in Hb. rewrite <- app_assoc in Hb. cbn [length] in Hst.
  set (stk1 := mk_bentry name false (Z.of_nat (S pre) - 1) (Z.of_nat (S pre + length l)) :: stk).
  set (st0 := mk_bstate (enc a ++ enc_items l ++ rest) (b_writer st ++ comma (Z.of_nat pre)) stk1 (b_skipped st)).
  destruct (IH1 F F st0 (enc_items l ++ rest)) as (st1 & r1 & E1 & Hlen & Hk1); [lia|lia|done|done|cbn; lia|].
  destruct (IH2 name (S pre) F (b_end st0 (enc_items l ++ rest) (text a) stk1 r1) stk rest) as (r2 & Hk2); [done|cbn in Hsz; lia|lia|done|done|lia|].
  exists r2. eapply (b_one_step F _ _ _ _ st1); [exact Hst|exact Hn|exact Hlen| |].
  + unfold b_array_step. cbn [be_type be_position array_size]. rewrite (next_position_ok pre) by (cbn in Hsz; lia). cbn [mbind result_bind].
    rewrite (proj2 (Z.ltb_lt _ _)) by lia. rewrite (deref_some _ _ _ Hn). cbn [mbind result_bind array_of some_or].
    unfold st0, stk1 in E1. unfold b_write, b_move. cbn [bin b_writer b_stack b_skipped be_type be_allow array_size].
    rewrite Hst, Hb. replace (Z.of_nat (S pre) - 1) with (Z.of_nat pre) in E1 by lia.
    replace (pre + S (length l))%nat with (S pre + length l)%nat by lia. exact E1.
  + eapply steps_trans; [exact Hk1|]. cbn [fmap list_fmap]. rewrite joined_cons. unfold b_end in *. cbn [b_writer st0 b_stack] in *.
    repeat (rewrite <- ?app_assoc in *; cbn [app] in *). exact Hk2.
Qed.
Lemma b_runs_all :
  (forall al n j a sk, typed al n j a sk -> b_runs al n j a sk) /\
  (forall al fs obj l sk, typed_fields al fs obj l sk -> b_fields_run al fs obj l sk) /\
  (forall t js l, typed_items t js l -> b_items_run t js l).
Proof.
  apply typed_all.
  - apply b_runs_builtin.
  - apply b_runs_none.
  - apply b_runs_some.
  - apply b_runs_extension.
  - apply b_runs_object.
  - apply b_runs_array.
  - apply b_runs_variant.
  - apply b_runs_no_fields.
  - apply b_runs_field.
  - apply b_runs_left_out.
  - apply b_runs_no_items.
  - apply b_runs_item.
Qed.

(** From the bytes of a value to its text, with any amount of fuel that is
    enough; nothing of the bytes is left. *)
Lemma bin_to_json_text n j a sk : typed true n j a sk -> (levels a <= 128)%nat ->
  exists N, forall fuel, (N <= fuel)%nat -> bin_to_json types utf8 fuel n (enc a) = Ok (text a, []).
Proof.
  intros Ht Hl. destruct (proj1 b_runs_all _ _ _ _ _ Ht) as [k Hk]. exists (Nat.max k (height a)). intros fuel Hf.
  destruct (Hk fuel fuel (mk_bstate (enc a) [] [] false) []) as (st1 & r & E & _ & Hst); [lia|lia|by rewrite app_nil_r|done|cbn; lia|].
  unfold bin_to_json. rewrite E. cbn [mbind result_bind]. by rewrite (steps_loop _ _ k _ _ fuel Hst) by (done || lia).
Qed.
End serializer.
End AbiTextRun.
