(* ===== verification/AbiRoundTrip.v ===== *)
(** The ABI serializer as a whole.  First (AbiTextEnds), [bin_to_json] of
    [libraries/abieos/src/abieos.hpp] ends whatever the bytes
    are: a value of the types of an ABI is started within three types, every
    step comes nearer to the end of the list, object or variant it is in, and
    the stack is bounded. *)
From S2P Require Import Prelude Name Text Binary Json FromJson AbiDef AbiBin AbiBinRun.
From Stdlib Require Import Ascii.
From Stdlib Require String.
Import Text Json Binary FromJson Jvalue AbiDef AbiWf AbiBin AbiValue AbiBinRun AbiBuiltins.
Open Scope string_scope.
Open Scope list_scope.
Open Scope Z_scope.

Module AbiTextEnds.

(** ** Results that are not for lack of fuel *)

Definition post {A} (r : result A) (Q : A -> Prop) : Prop := match r with Ok a => Q a | Err e => e <> out_of_fuel end.
Lemma post_bind {A B} (m : result A) (f : A -> result B) P Q : post m P -> (forall a, P a -> post (f a) Q) -> post (m ≫= f) Q.
Proof. destruct m as [a|e]; cbn; [intros Ha Hf; by apply Hf|done]. Qed.
Lemma post_any {A} (r : result A) : r <> Err out_of_fuel -> post r (fun _ => True).
Proof. destruct r; cbn; [done|congruence]. Qed.
Lemma post_some_or {A} e (o : option A) : e <> out_of_fuel -> post (some_or e o) (fun a => o = Some a).
Proof. by destruct o. Qed.
Lemma post_check b msg : post (check b msg) (fun _ => b = true).
Proof. by destruct b. Qed.
Lemma bind_ext {A B} (m : result A) (f g : A -> result B) : (forall a, f a = g a) -> (m ≫= f) = (m ≫= g).
Proof. intros E. destruct m; [apply E|done]. Qed.
Lemma varuint_read_ends fuel w acc shift s : varuint_read fuel w acc shift s <> Err out_of_fuel.
Proof.
  revert acc shift s. induction fuel as [|fuel IH]; intros acc shift s; cbn [varuint_read]; [done|].
  destruct s as [|b s]; [done|]. cbv zeta. destruct (negb _); [apply IH|done].
Qed.

Section machine.
Context {S : Type} (halted : S -> bool) (step step' : S -> result S).
(** The machine comes to a step that fails, for a reason other than fuel. *)
Definition fails (s : S) : Prop :=
  exists n s' e, steps halted step n s s' /\ halted s' = false /\ step s' = Err e /\ e <> out_of_fuel.
Lemma fails_after n s s' : steps halted step n s s' -> fails s' -> fails s.
Proof. intros Hn (m & s2 & e & Hm & Hh & E & He). exists (n + m)%nat, s2, e. split; [by eapply steps_trans|done]. Qed.
Lemma steps_fails n s s' e fuel : steps halted step n s s' -> halted s' = false -> step s' = Err e -> (n < fuel)%nat ->
  loop halted step fuel s = Err e.
Proof.
  intros Hn. revert fuel. induction Hn as [s|n s s1 s2 Hh Hs Hn IH]; intros fuel Hend E Hf; (destruct fuel as [|fuel]; [lia|]); cbn.
  - by rewrite Hend, E.
  - rewrite Hh, Hs. cbn. apply IH; [done|done|lia].
Qed.
Lemma loop_ext fuel s : (forall s, step s = step' s) -> loop halted step fuel s = loop halted step' fuel s.
Proof.
  intros E. revert s. induction fuel as [|fuel IH]; intros s; cbn; [done|]. destruct (halted s); [done|]. rewrite E. by apply bind_ext.
Qed.
End machine.

Section serializer.
Context {V : Type} `{BuiltinLaws V} (types : abi_types) (types_wf : wf types) (utf8 : list ascii -> option nat).

(** ** Starting a value *)

(** A value of the type is reached through fewer than [F] optionals and
    extensions. *)
Fixpoint short (F : nat) (n : string) : Prop :=
  match F with
  | O => False
  | S F => forall d, types !! n = Some d -> match d with optional t | extension t => short F t | _ => True end
  end.
Lemma innermost_short F t : refers types t innermost -> short (S F) t.
Proof. intros (d & E & Hk) d' Hd. rewrite E in Hd. injection Hd as <-. destruct d; try done; by destruct Hk as [|[|]]. Qed.
Lemma three_short F n : short (S (S (S F))) n.
Proof.
  intros d Hd. apply types_wf in Hd. destruct d as [| | | |t|t|t|t| |]; try done; [by apply innermost_short|].
  destruct Hd as (d' & E & Hk). intros d2 Hd2. rewrite E in Hd2. injection Hd2 as <-. rename d' into d2. apply types_wf in E. destruct d2; try done; [by apply innermost_short|].
  by destruct Hk.
Qed.
Lemma b_start_same F F' al n st : short F n -> (F <= F')%nat -> b_start types F' al n st = b_start types F al n st.
Proof.
  revert F' al n st. induction F as [|F IH]; intros F' al n st Hn HF; [done|]. destruct F' as [|F']; [lia|]. cbn [b_start]. unfold deref.
  cbn in Hn. destruct (types !! n) as [d|]; [|done]. specialize (Hn d eq_refl). cbn [some_or mbind result_bind].
  destruct d; try done; [|apply IH; [done|lia]]. apply bind_ext. intros [st1 []]; [apply IH; [done|lia]|done].
Qed.
Lemma b_read_post {A} (r : list Z -> result (A * list Z)) st : (forall s, r s <> Err out_of_fuel) ->
  post (b_read r st) (fun x => b_stack x.1 = b_stack st).
Proof.
  intros Hr. unfold b_read. eapply post_bind; [apply post_any, Hr|]. intros [a rest] _. done.
Qed.
Lemma b_start_post F al n st : short F n ->
  post (b_start types F al n st) (fun st1 => b_stack st1 = b_stack st \/ exists e, b_stack st1 = e :: b_stack st).
Proof.
  revert al n st. induction F as [|F IH]; intros al n st Hn; [done|]. cbn [b_start].
  eapply post_bind; [by apply post_some_or|]. intros d Hd. specialize (Hn d Hd). destruct d; try done.
  - eapply post_bind; [apply b_read_post, b_from_bin_ends|]. intros [st1 v] E. by left.
  - eapply post_bind.
    + apply b_read_post. intros s. cbn. unfold read. by destruct (Nat.leb 1 (length s)).
    + intros [st1 []] E; cbn [fst] in E; [rewrite <- E; by apply IH|by left].
  - by apply IH.
  - eapply post_bind; [apply b_read_post; intros s; apply varuint_read_ends|]. intros [st1 size] E. right. cbn in E |- *. rewrite E. by eexists.
  - right. by eexists.
  - right. by eexists.
Qed.

(** ** A step *)

Lemma object_step_ext s1 s2 al e st : (forall al n st, s1 al n st = s2 al n st) ->
  b_object_step types utf8 s1 al e st = b_object_step types utf8 s2 al e st.
Proof.
  intros E. unfold b_object_step. apply bind_ext. intros d. apply bind_ext. intros fields. apply bind_ext. intros position. cbv zeta.
  destruct (_ <? _); [|done]. apply bind_ext. intros f. apply bind_ext. intros fd. by destruct (_ && _).
Qed.
Lemma array_step_ext s1 s2 e st : (forall al n st, s1 al n st = s2 al n st) -> b_array_step types s1 e st = b_array_step types s2 e st.
Proof. intros E. unfold b_array_step. apply bind_ext. intros position. cbv zeta. destruct (_ <? _); [|done]. apply bind_ext. intros d. apply bind_ext. intros t. apply E. Qed.
Lemma variant_step_ext s1 s2 al e st : (forall al n st, s1 al n st = s2 al n st) ->
  b_variant_step types utf8 s1 al e st = b_variant_step types utf8 s2 al e st.
Proof.
  intros E. unfold b_variant_step. cbv zeta. destruct (_ =? _); [|done]. apply bind_ext. intros [st1 i]. do 4 (apply bind_ext; intros ?). apply E.
Qed.
Lemma b_step_same F st : (3 <= F)%nat -> b_step types utf8 F st = b_step types utf8 3 st.
Proof.
  intros HF. assert (forall al n st, b_start types F al n st = b_start types 3 al n st) as E
    by (intros al n s; apply b_start_same; [apply three_short|done]).
  unfold b_step. destruct (b_stack st) as [|e rest]; [done|]. apply bind_ext. intros d.
  assert (forall m1 m2 : result bstate, m1 = m2 -> forall f : bstate -> result bstate, (m1 ≫= f) = (m2 ≫= f)) as Hb by (by intros m1 m2 ->).
  apply Hb. destruct d; try done; [by apply array_step_ext|by apply object_step_ext|by apply variant_step_ext].
Qed.

(** What is left to do in an entry. *)
Definition budget (e : bentry) : nat :=
  match types !! be_type e with
  | Some (struct_ _ fields) => Z.to_nat (Z.of_nat (length fields) - be_position e)
  | Some (array _) => Z.to_nat (array_size e - be_position e)
  | _ => Z.to_nat (1 - be_position e)
  end.
Definition advances (e : bentry) (rest stk : list bentry) : Prop :=
  stk = rest \/ exists e', (budget e' < budget e)%nat /\ (stk = e' :: rest \/ exists x, stk = x :: e' :: rest).
Lemma start_advances e e' rest al n st : b_stack st = e' :: rest -> (budget e' < budget e)%nat ->
  post (b_start types 3 al n st) (fun st1 => advances e rest (b_stack st1)).
Proof.
  intros Hst Hb. pose proof (b_start_post 3 al n st (three_short 0 n)) as Hp. rewrite Hst in Hp.
  destruct (b_start types 3 al n st) as [st1|er]; [|done]. right. exists e'. split; [done|].
  destruct Hp as [->|[x ->]]; [by left|right; by exists x].
Qed.
Lemma post_impl {A} (r : result A) (P Q : A -> Prop) : post r P -> (forall a, P a -> Q a) -> post r Q.
Proof. destruct r; cbn; auto. Qed.
Lemma next_position_post p : post (next_position p) (fun q => q = p + 1).
Proof. unfold next_position. by destruct (_ <? _). Qed.
Lemma nth_field_post l p : post (nth_field l p) (fun _ => True).
Proof. unfold nth_field. by destruct (if 0 <=? p then l !! Z.to_nat p else None). Qed.
Lemma object_advances al e rest st : b_stack st = e :: rest ->
  post (b_object_step types utf8 (b_start types 3) al e st) (fun st1 => advances e rest (b_stack st1)).
Proof.
  intros Hst. unfold b_object_step. eapply post_bind; [by apply post_some_or|]. intros d Hd.
  eapply post_bind; [by apply post_some_or|]. intros fields Hf. destruct d; try done. injection Hf as ->.
  eapply post_bind; [apply next_position_post|]. intros position ->. cbv zeta.
  destruct (Z.ltb_spec (be_position e + 1) (Z.of_nat (length fields))) as [Hlt|Hge].
  2: { left. cbn. by rewrite Hst. }
  eapply post_bind; [apply nth_field_post|]. intros f _. eapply post_bind; [by apply post_some_or|]. intros fd _.
  assert (budget (mk_bentry (be_type e) (be_allow e) (be_position e + 1) (array_size e)) < budget e)%nat as Hb
    by (unfold budget; cbn; rewrite Hd; lia).
  destruct (_ && _).
  - right. eexists. split; [exact Hb|]. left. cbn. by rewrite Hst.
  - eapply start_advances; [|exact Hb]. cbn. by rewrite Hst.
Qed.
Lemma array_advances t e rest st : types !! be_type e = Some (array t) -> b_stack st = e :: rest ->
  post (b_array_step types (b_start types 3) e st) (fun st1 => advances e rest (b_stack st1)).
Proof.
  intros Hd Hst. unfold b_array_step. eapply post_bind; [apply next_position_post|]. intros position ->. cbv zeta.
  destruct (Z.ltb_spec (be_position e + 1) (array_size e)) as [Hlt|Hge].
  2: { left. cbn. by rewrite Hst. }
  unfold deref. rewrite Hd. cbn [some_or mbind result_bind array_of]. eapply start_advances; [cbn; by rewrite Hst|].
  unfold budget. cbn. rewrite Hd. lia.
Qed.
Lemma variant_advances fs al e rest st : types !! be_type e = Some (variant fs) -> b_stack st = e :: rest ->
  post (b_variant_step types utf8 (b_start types 3) al e st) (fun st1 => advances e rest (b_stack st1)).
Proof.
  intros Hd Hst. unfold b_variant_step. cbv zeta. destruct (Z.eqb_spec (be_position e + 1) 0) as [Hz|].
  2: { left. cbn. by rewrite Hst. }
  eapply post_bind; [apply b_read_post; intros s; apply varuint_read_ends|]. intros [st1 i] E. cbn in E.
  eapply post_bind; [by apply post_some_or|]. intros d _. eapply post_bind; [by apply post_some_or|]. intros fields _.
  eapply post_bind; [apply post_check|]. intros _ _. eapply post_bind; [apply nth_field_post|]. intros f _.
  eapply start_advances; [cbn; by rewrite E, Hst|]. unfold budget. cbn. rewrite Hd. lia.
Qed.
Lemma b_step_advances e rest st : b_stack st = e :: rest ->
  post (b_step types utf8 3 st) (fun st1 => (length (b_stack st1) <= 128)%nat /\ advances e rest (b_stack st1)).
Proof.
  intros Hst. unfold b_step. rewrite Hst. eapply post_bind; [by apply post_some_or|]. intros d Hd.
  eapply post_bind with (P := fun st1 => advances e rest (b_stack st1)).
  - destruct d; try done; [by eapply array_advances|by apply object_advances|by eapply variant_advances].
  - intros st1 Ha. eapply post_bind; [apply post_check|]. intros u Hl. apply Nat.leb_le in Hl. done.
Qed.

(** ** All steps *)

Abbreviation bsteps := (steps b_halted (b_step types utf8 3)).
Abbreviation bfails := (fails b_halted (b_step types utf8 3)).
(** The top entry is done with, or a step fails. *)
Lemma b_finishes d : forall e rest st, (128 - length rest <= d)%nat -> b_stack st = e :: rest ->
  bfails st \/ exists k st', bsteps k st st' /\ b_stack st' = rest.
Proof.
  induction d as [d IHd] using lt_wf_ind. intros e. induction e as [e IHe] using (induction_ltof1 _ budget). intros rest st Hd Hst.
  pose proof (b_step_advances e rest st Hst) as Hp. assert (b_halted st = false) as Hh by (unfold b_halted; by rewrite Hst).
  destruct (b_step types utf8 3 st) as [st1|er] eqn:E; cbn in Hp.
  2: { left. by exists 0%nat, st, er; split; [constructor|]. }
  assert (bsteps 1 st st1) as H1 by (eapply steps_more; [done|done|constructor]).
  destruct Hp as (Hl & [Ha|(e' & Hb & [Ha|[x Ha]])]).
  - right. by exists 1%nat, st1.
  - destruct (IHe e' Hb rest st1 Hd Ha) as [Hf|(k & st' & Hk & Hst')]; [left; by eapply fails_after|].
    right. exists (1 + k)%nat, st'. split; [by eapply steps_trans|done].
  - rewrite Ha in Hl. cbn in Hl.
    destruct (IHd (128 - length (e' :: rest))%nat ltac:(cbn; lia) x (e' :: rest) st1 ltac:(lia) Ha) as [Hf|(k & st2 & Hk & Hst2)];
      [left; by eapply fails_after|].
    destruct (IHe e' Hb rest st2 Hd Hst2) as [Hf|(k' & st' & Hk' & Hst')].
    + left. eapply fails_after; [|exact Hf]. by eapply steps_trans.
    + right. exists (1 + (k + k'))%nat, st'. split; [|done]. eapply steps_trans; [exact H1|]. by eapply steps_trans.
Qed.

(** C27: Whatever the bytes are - too short, too long, with sizes that are not
    theirs or nested without end - [bin_to_json] for a type of an ABI ends: it
    gives a text, or fails for a reason of its own, never for lack of fuel. *)
Theorem bin_to_json_ends (n : string) (s : list Z) :
  exists N, forall fuel, (N <= fuel)%nat -> bin_to_json types utf8 fuel n s <> Err out_of_fuel.
Proof.
  pose proof (b_start_post 3 true n (mk_bstate s [] [] false) (three_short 0 n)) as Hp.
  assert (forall fuel, (3 <= fuel)%nat -> bin_to_json types utf8 fuel n s =
    (st ← b_start types 3 true n (mk_bstate s [] [] false); st ← loop b_halted (b_step types utf8 3) fuel st; Ok (b_writer st, bin st))) as Hsame.
  { intros fuel Hf. unfold bin_to_json. rewrite (b_start_same 3 fuel) by (apply three_short || done). apply bind_ext. intros st.
    rewrite (loop_ext _ _ (b_step types utf8 3)); [done|]. intros st'. by apply b_step_same. }
  destruct (b_start types 3 true n _) as [st|er]; [|exists 3%nat; intros fuel Hf; rewrite Hsame by done; cbn in *; congruence].
  assert (bfails st \/ exists k st', bsteps k st st' /\ b_stack st' = []) as [(k & st' & er & Hk & Hh & E & He)|(k & st' & Hk & Hst)].
  { destruct Hp as [Hst|[e Hst]]; cbn in Hst; [right; exists 0%nat, st; split; [constructor|done]|]. by eapply b_finishes. }
  - exists (3 + S k)%nat. intros fuel Hf. rewrite Hsame by lia. cbn. rewrite (steps_fails _ _ k _ _ er fuel Hk) by (done || lia). cbn. congruence.
  - exists (3 + k)%nat. intros fuel Hf. rewrite Hsame by lia. cbn. rewrite (steps_loop _ _ k _ st' fuel Hk); [done| |lia].
    unfold b_halted. by rewrite Hst.
Qed.
End serializer.

(** A list of lists without an end, of which three levels are there. *)
Definition tree_types : abi_types :=
  match convert 50 (mk_abi_def [] [mk_struct_def "tree" "" [mk_field_def "below" "tree[]"]] [] [] []) with
  | Ok a => types_of a
  | Err _ => ∅
  end.
Definition no_utf8 : list ascii -> option nat := fun _ => None.
Theorem bin_to_json_ends_witness :
  wf tree_types /\ bin_to_json (H := builtins no_utf8) tree_types no_utf8 100 "tree" [1; 1; 1] = Err overrun /\
  exists N, forall fuel, (N <= fuel)%nat -> bin_to_json (H := builtins no_utf8) tree_types no_utf8 fuel "tree" [1; 1; 1] <> Err out_of_fuel.
Proof.
  assert (wf tree_types) as Hwf by (apply wf_check_sound; vm_compute; reflexivity).
  split; [exact Hwf|]. split; [vm_compute; reflexivity|].
  exact (bin_to_json_ends (H0 := builtin_laws no_utf8) tree_types Hwf no_utf8 "tree" [1; 1; 1]).
Defined.
End AbiTextEnds.

(** The serializer of ABI types as a whole
    ([libraries/abieos/src/abieos.hpp], [libraries/abieos/src/abi.cpp]): a
    JSON document becomes bytes, read as a value or as a stream, and the bytes
    become JSON again. *)
Import Text Json Binary FromJson Jvalue AbiDef AbiWf AbiBin AbiValue AbiBinRun AbiTextRun AbiStreamRun AbiBuiltins.
Open Scope string_scope.
Open Scope list_scope.
Open Scope Z_scope.

Module AbiRoundTrip.

(** Keys are looked up past those that are others. *)
Lemma find_key_app {A} name (pre l : list (string * A)) : name ∉ pre.*1 -> find_key name (pre ++ l) = find_key name l.
Proof.
  unfold find_key. induction pre as [|[k v] pre IH]; [done|]. cbn [app fmap list_fmap fst List.find]. intros Hn.
  apply not_elem_of_cons in Hn as [Hne Hn]. destruct (String.eqb_spec k name); [congruence|by apply IH].
Qed.
Lemma find_key_head {A} name (v : A) l : find_key name ((name, v) :: l) = Some v.
Proof. unfold find_key. cbn. by rewrite String.eqb_refl. Qed.

Section serializer.
Context {V : Type} `{BuiltinLaws V} (types : abi_types) (utf8 : list ascii -> option nat).
Abbreviation aval := (aval V).

(** ** The text is JSON *)

Definition fields_json (l : list (string * aval)) : Prop := Forall (fun f => json (text utf8 f.2)) l.
Lemma object_text_json l : fields_json l -> json (text utf8 (a_object l)).
Proof.
  intros Hl. rewrite text_object.
  set (body (s : string) := string_loop utf8 (S (length (chars_of s))) (chars_of s)).
  replace (join (field_text utf8 <$> l)) with (join ((fun m : (list ascii * nat) * list ascii => quote :: m.1.1 ++ [quote; ":"%char] ++ replicate m.1.2 " "%char ++ m.2)
    <$> ((fun f => (body f.1, 0%nat, text utf8 f.2)) <$> l))).
  - apply json_object. apply Forall_fmap. eapply Forall_impl; [exact Hl|]. intros f Hf. split; [apply string_loop_body|exact Hf].
  - f_equal. rewrite <- list_fmap_compose. apply list_fmap_ext. intros i f _. unfold field_text, name_to_json, string_to_json, body. cbn [fst snd compose replicate].
    repeat (rewrite <- ?app_assoc; cbn [app]). reflexivity.
Qed.
Lemma typed_text_json strict :
  (forall al n j a sk, typed types strict al n j a sk -> json (text utf8 a)) /\
  (forall al fs obj l sk, typed_fields types strict al fs obj l sk -> fields_json l) /\
  (forall t js l, typed_items types strict t js l -> Forall (fun a => json (text utf8 a)) l).
Proof.
  apply typed_all; try (intros; done).
  - intros al n j v _ [Hok _]. by apply b_json_law.
  - intros. apply json_null.
  - intros al n b fs obj l sk _ _ _ Hl. by apply object_text_json.
  - intros al n t js l _ _ _ Hl. rewrite text_array. apply json_array. by apply Forall_fmap.
  - intros al n fs i f j a sk _ _ _ _ Ha. cbn [text].
    change (json ("["%char :: (name_to_json utf8 (field_name f) ++ (","%char :: text utf8 a) ++ ["]"%char]))).
    pose proof (json_array [name_to_json utf8 (field_name f); text utf8 a]) as Hj. cbn [join flat_map] in Hj. rewrite app_nil_r, <- app_assoc in Hj.
    apply Hj. apply Forall_cons_2; [apply string_is_json|]. by apply Forall_singleton.
  - intros. constructor.
  - intros al f fs obj j obj' a l sk sk' _ _ Ha _ Hl _. by constructor.
  - intros. by constructor.
Qed.

(** ** Fields in order are fields *)

Definition distinct_fields : Prop := forall n b fs, types !! n = Some (struct_ b fs) -> NoDup (field_name <$> fs).
#[local] Instance distinct_dec d : Decision (match d with struct_ _ fs => NoDup (field_name <$> fs) | _ => True end).
Proof. destruct d; apply _. Defined.
Definition distinct_check : bool :=
  bool_decide (map_Forall (fun _ d => match d with struct_ _ fs => NoDup (field_name <$> fs) | _ => True end) types).
Lemma distinct_check_sound : distinct_check = true -> distinct_fields.
Proof. intros Hc%bool_decide_eq_true n b fs Hd. exact (Hc _ _ Hd). Qed.
Context (types_distinct : distinct_fields).

Lemma typed_loose :
  (forall al n j a sk, typed types true al n j a sk -> typed types false al n j a sk) /\
  (forall al fs obj l sk, typed_fields types true al fs obj l sk -> NoDup (field_name <$> fs) ->
    forall pre, (forall f, f ∈ fs -> field_name f ∉ pre.*1) -> typed_fields types false al fs (pre ++ obj) l sk) /\
  (forall t js l, typed_items types true t js l -> typed_items types false t js l).
Proof.
  apply typed_all; try (intros; by econstructor).
  - intros al n b fs obj l sk Hn Hsz _ IH. eapply ty_object; [done|done|]. apply (IH (types_distinct _ _ _ Hn) []). intros f _ Hf. by apply elem_of_nil in Hf.
  - intros al f fs obj j obj' a l sk sk' Ht _ IH1 _ IH2 Hext Hd pre Hpre. cbn in Hd. apply NoDup_cons in Hd as [Hf Hd].
    destruct obj as [|[k v] obj]; [done|]. cbn in Ht. destruct (String.eqb_spec k (field_name f)) as [->|]; [|done]. injection Ht as -> ->.
    apply tf_cons with (j := j) (obj' := pre ++ (field_name f, j) :: obj'); [|done| |done].
    + unfold take_field. rewrite find_key_app, find_key_head by (apply Hpre; left). done.
    + replace (pre ++ (field_name f, j) :: obj') with ((pre ++ [(field_name f, j)]) ++ obj') by by rewrite <- app_assoc.
      apply IH2; [done|]. intros g Hg. rewrite fmap_app, elem_of_app. intros [Hin|Hin%list_elem_of_singleton].
      * apply (Hpre g); [by right|done].
      * cbn in Hin. apply Hf. rewrite <- Hin. by apply list_elem_of_fmap_2.
  - intros f fs obj sk Hx Hno _ IH Hd pre Hpre. cbn in Hd. apply NoDup_cons in Hd as [_ Hd]. cbn in Hno. subst obj.
    eapply tf_skip; [done| |apply IH; [done|]; intros g Hg; apply Hpre; by right].
    unfold no_field. rewrite find_key_app by (apply Hpre; left). done.
Qed.
(** Such a document names a key once, and is as deep as its value. *)
Lemma typed_document :
  (forall al n j a sk, typed types true al n j a sk -> distinct j /\ (depth j <= S (levels a))%nat) /\
  (forall al fs obj l sk, typed_fields types true al fs obj l sk -> Forall (fun f => distinct f.2) obj /\
    (exists names, field_name <$> fs = obj.*1 ++ names) /\ Forall (fun f => (depth f.2 <= S (max_of (fun f => levels f.2) l))%nat) obj) /\
  (forall t js l, typed_items types true t js l -> Forall distinct js /\ Forall (fun j => (depth j <= S (max_of levels l))%nat) js).
Proof.
  apply typed_all; try (intros; done).
  - intros al n j v _ [_ Hj]. destruct (String.eqb n "bool"); [destruct Hj as (b & -> & _)|destruct Hj as (s & -> & _)]; (split; [constructor|cbn; lia]).
  - intros. split; [constructor|cbn; lia].
  - intros al n b fs obj l sk Hn _ _ (Hd & [names Hp] & Hl). split.
    + constructor; [|done]. pose proof (types_distinct _ _ _ Hn) as Hnd. rewrite Hp in Hnd. by apply NoDup_app in Hnd as [Hnd _].
    + rewrite levels_object. by apply depth_object.
  - intros al n t js l _ _ _ [Hd Hl]. split; [by constructor|]. rewrite levels_array. by apply depth_array.
  - intros al n fs i f j a sk _ _ _ _ [Hd Hl]. split; [by repeat constructor|]. cbn [levels]. apply depth_array.
    constructor; [cbn; lia|]. by constructor.
  - intros al obj Hobj. rewrite (Hobj eq_refl). split; [constructor|]. split; [by exists []|constructor].
  - intros al f fs obj j obj' a l sk sk' Ht _ [Hd Hl] _ (Hds & [names Hp] & Hls) _.
    destruct obj as [|[k v] obj]; [done|]. cbn in Ht. destruct (String.eqb_spec k (field_name f)) as [->|]; [|done]. injection Ht as -> ->.
    rewrite max_of_cons. split; [by constructor|]. split; [exists names; cbn; by rewrite Hp|].
    constructor; [cbn in *; lia|]. eapply Forall_impl; [exact Hls|]. cbn. lia.
  - intros f fs obj sk _ Hno _ _. cbn in Hno. subst obj. split; [constructor|]. split; [by eexists|constructor].
  - intros t j js a l _ [Hd Hl] _ [Hds Hls]. rewrite max_of_cons. split; [by constructor|].
    constructor; [lia|]. eapply Forall_impl; [exact Hls|]. cbn. lia.
Qed.

(** ** The whole *)

(** C7: A JSON document that denotes a value of a type of an ABI - its fields
    in the order of the type, at most 127 levels deep - becomes the bytes of
    that value both ways, from the stream of its tokens and from the value the
    parser builds of them; and the bytes become a JSON text of that value again,
    all of them.  Enough fuel is enough. *)
Theorem abi_round_trip {Rd} `{JsonReader Rd} (n : string) (j : jvalue) (a : aval) (sk : bool) (r : Rd) :
  typed types true true n j a sk -> (levels a < max_stack_size)%nat -> delivers r (tokens j) ->
  exists N, forall fuel, (N <= fuel)%nat ->
    json_to_bin types fuel n r = Ok (enc a) /\
    (v ← json_to_jvalue fuel r; jvalue_to_bin types fuel n v) = Ok (enc a) /\
    bin_to_json types utf8 fuel n (enc a) = Ok (text utf8 a, []) /\
    json (text utf8 a).
Proof.
  intros Ht Hl Hr. unfold max_stack_size in Hl.
  destruct (json_to_bin_enc _ _ _ _ _ r Ht ltac:(lia) Hr) as [N1 E1].
  destruct (jvalue_to_bin_enc _ _ _ _ _ (proj1 typed_loose _ _ _ _ _ Ht)) as [N2 E2].
  destruct (bin_to_json_text _ _ utf8 _ _ _ _ Ht ltac:(lia)) as [N3 E3].
  destruct (proj1 typed_document _ _ _ _ _ Ht) as [Hd Hdep].
  exists (length (tokens j) + N1 + N2 + N3)%nat. intros fuel Hf. split; [apply E1; lia|]. split; [|split; [apply E3; lia|]].
  - rewrite (json_to_jvalue_reads r j fuel Hr Hd) by (unfold max_stack_size; lia). apply E2. lia.
  - by eapply (proj1 (typed_text_json true)).
Qed.
End serializer.

(** ** A row *)

Definition row_abi : abi_def :=
  mk_abi_def [mk_type_def "tags" "string[]"]
    [mk_struct_def "base" "" [mk_field_def "id" "uint32"];
     mk_struct_def "row" "base" [mk_field_def "tags" "tags"; mk_field_def "note" "string?"; mk_field_def "body" "body"; mk_field_def "more" "bytes$"]]
    [] [] [mk_variant_def "body" ["bool"; "base"]].
Definition row_types : abi_types := match convert 50 row_abi with Ok a => types_of a | Err _ => ∅ end.
Definition row_json : jvalue :=
  j_object [("id", j_string "7"); ("tags", j_array [j_string "a"; j_string "bc"]); ("note", j_null); ("body", j_array [j_string "bool"; j_bool true])].
Definition row_value : AbiValue.aval bvalue :=
  a_object [("id", a_builtin "uint32" (v_int 7)); ("tags", a_array [a_builtin "string" (v_string "a"); a_builtin "string" (v_string "bc")]);
    ("note", a_none); ("body", a_variant 0 "bool" (a_builtin "bool" (v_bool true)))].
Definition row_bytes : list Z := [7; 0; 0; 0; 2; 1; 97; 2; 98; 99; 0; 0; 1].
(** UTF-8 text of ASCII characters. *)
Definition ascii_only (s : list ascii) : option nat :=
  match s with c :: _ => if Name.code c <? 128 then Some 1%nat else None | [] => None end.
#[local] Instance row_builtins : Builtins bvalue := builtins ascii_only.
#[local] Instance row_laws : BuiltinLaws bvalue := builtin_laws ascii_only.

(** A field of no bytes after an extension that is left out: the text begins
    with a comma. *)
Definition gap_types : abi_types :=
  match convert 50 (mk_abi_def [] [mk_struct_def "empty" "" []; mk_struct_def "gap" "" [mk_field_def "a" "bytes$"; mk_field_def "b" "empty"]] [] [] []) with
  | Ok a => types_of a
  | Err _ => ∅
  end.
Example comma_first :
  bin_to_json gap_types ascii_only 50 "gap" [] =
  Ok (["{"; ","; quote; "b"; quote; ":"; "{"; "}"; "}"]%char, []).
Proof. vm_compute. reflexivity. Qed.
(** A field the type does not have is passed over in a value and refused in a
    stream. *)
Example unknown_field :
  jvalue_to_bin gap_types 50 "empty" (j_object [("x", j_null)]) = Ok [] /\
  json_to_bin gap_types 50 "empty" (tokens (j_object [("x", j_null)])) = Err (Check unexpected_field).
Proof. vm_compute. done. Qed.

Lemma row_typed : typed row_types true true "row" row_json row_value true.
Proof.
  assert (forall al n s v, row_types !! n = Some builtin -> String.eqb n "bool" = false -> value_ok n v -> from_string n s = Ok v ->
    typed row_types true al n (j_string s) (a_builtin n v) false) as Hs.
  { intros al n s v Hn Hb Hv Hr. apply ty_builtin; [exact Hn|]. split; [exact Hv|]. rewrite Hb. exists s. split; [reflexivity|exact Hr]. }
  unfold row_json, row_value. eapply ty_object; [vm_compute; reflexivity|by vm_compute|].
  eapply tf_cons with (sk := false) (sk' := true); [reflexivity|apply Hs; [by vm_compute..|split; by vm_compute|by vm_compute]| |by intros _ [t E]; vm_compute in E].
  eapply tf_cons with (sk := false) (sk' := true); [reflexivity| | |by intros _ [t E]; vm_compute in E].
  { eapply ty_array; [by vm_compute|by vm_compute|]. repeat (apply ti_cons; [apply Hs; [by vm_compute..|split; by vm_compute|by vm_compute]|]). apply ti_nil. }
  eapply tf_cons with (sk := false) (sk' := true); [reflexivity|eapply ty_none; by vm_compute| |by intros _ [t E]; vm_compute in E].
  eapply tf_cons with (sk := false) (sk' := true); [reflexivity| | |by intros _ [t E]; vm_compute in E].
  { apply (ty_variant row_types true _ "body" [mk_field "bool" "bool"; mk_field "base" "base"] 0 (mk_field "bool" "bool")); [by vm_compute..|].
    apply ty_builtin; [by vm_compute|]. split; [by vm_compute|]. by exists true. }
  eapply tf_skip; [eexists; by vm_compute|done|]. by apply tf_nil.
Qed.
Theorem abi_round_trip_witness :
  typed row_types true true "row" row_json row_value true /\ enc row_value = row_bytes /\
  exists N, forall fuel, (N <= fuel)%nat ->
    json_to_bin row_types fuel "row" (tokens row_json) = Ok row_bytes /\
    (v ← json_to_jvalue fuel (tokens row_json); jvalue_to_bin row_types fuel "row" v) = Ok row_bytes /\
    bin_to_json row_types ascii_only fuel "row" row_bytes = Ok (text ascii_only row_value, []) /\
    json (text ascii_only row_value).
Proof.
  split; [exact row_typed|]. assert (enc row_value = row_bytes) as He by (vm_compute; reflexivity). split; [exact He|]. rewrite <- He.
  apply (abi_round_trip row_types ascii_only (distinct_check_sound row_types eq_refl) "row" row_json row_value true (tokens row_json) row_typed).
  - vm_compute. lia.
  - apply list_delivers.
Defined.
End AbiRoundTrip.
